(* ===== verification/_CoqProject ===== *)
-Q . S2P
Prelude.v
Errors.v
Domain.v
Decimal.v
Sha256.v
Utf8.v
ClientRef.v
Lifecycle.v
Json.v
IntentLog.v
WriteAhead.v
Idempotency.v
Slicer.v
Risk.v
Gate.v
Store.v
Dispatcher.v
Resolver.v
PriceBand.v
ModifyGuard.v
MarginSafety.v
Modes.v
Redaction.v
RejectReason.v
Calendar.v
Provenance.v
Engine.v
Wiring.v
Ledger.v
LedgerDisk.v
Reconcile.v
Intervention.v
Supervisor.v
RateLimit.v
Capabilities.v
LegOrder.v
Basket.v
Options.v
FillNorm.v
Protection.v
StrategyBook.v
Health.v
Config.v
BrokerFactory.v
AccountDir.v
SafeStart.v
BootChecks.v
HealthSurface.v
Boot.v
WireJson.v
KiteAdapter.v
KiteRest.v
KotakAdapter.v
KotakErrors.v
TokenStore.v
KiteSession.v
KotakSession.v
KotakRest.v
Programs.v
FileOps.v
FileLock.v
LockSystem.v
SharedCache.v
CacheSystem.v
InstrumentMaster.v
StoreSchema.v
StoreTables.v
Observability.v
AuditLine.v
KotakFeed.v
Alerting.v
FakeBroker.v
Entrypoint.v
