(* ===== verification/Prelude.v ===== *)
(** * Broker-neutral execution library: verification development

    The program (src/, C++) places, amends, cancels and squares off orders with a
    broker so that no order is ever sent twice, every order sent is on disk first,
    and everything unknown fails closed. This development models its decision
    logic as executable Rocq definitions, named as in the source, and proves what
    makes each part correct.

    ** The parts and how they interact

    - Foundation. [Errors] (src/src/errors): categories, suggested actions and
      the keyword classifiers; [result] is [Result<T>]. [Domain] and [Decimal]
      (src/src/domain, decimal_paise.hpp): integer-paise money, tick rounding,
      orders and intents, decimal text. [Utf8], [Redaction], [Provenance]
      (src/src/domain/utf8.cpp, redaction.cpp): text hygiene. [Sha256]
      (src/src/intentlog/sha256.cpp). [Json]: what is used of the third-party
      JSON library, as a class of operations with its laws.
    - Identity. [ClientRef] and [Idempotency] (src/src/idempotency): the
      signature of a signal, the references minted from it, the index.
    - Write-ahead log. [IntentLog] (src/src/intentlog/intent_log.cpp): open,
      append, the boot replay with torn-tail repair, the hash chain.
      [WriteAhead]: the disk below it as a step relation (failed writes, failed
      syncs, power cuts, restarts) and what the log promises over any run.
    - State. [Lifecycle] (src/src/lifecycle): the order state machine. [Store]
      (src/src/store/store.cpp): the orders table and its row codec.
    - Guards. [Risk], [Gate] (src/src/risk), [PriceBand], [ModifyGuard],
      [MarginSafety], [Modes] (postures, kill switches, trading modes),
      [RejectReason] (broker rejections and the session guard), [Calendar]
      (src/src/refdata/trading_calendar.cpp), [Slicer] (src/src/slicing).
    - Composition. [Dispatcher] (src/src/runtime/dispatcher.cpp) calls the index,
      log, store, lifecycle and broker in order; [Resolver]
      (src/src/runtime/unknown_resolver.cpp) settles what stayed UNKNOWN;
      [Engine] (src/src/composition/engine_assembly.cpp) composes the guards into
      the entry, exit and modify chains; [Wiring] puts the documented duplicate
      probe in front of the dispatcher.
    - Audit ledger. [Ledger] (src/src/ledger/ledger.cpp): hash chain, append with
      rollback and seal, reload, signed checkpoint; [LedgerDisk] runs it across
      failures and restarts.
    - Broker truth. [Reconcile] (src/src/reconcile/reconciler.cpp, recovery.cpp)
      is the only writer of broker truth into local orders; [Intervention]
      (manual_intervention.cpp, corporate_actions.cpp) explains what a human or a
      corporate action changed; [FillNorm] (src/src/fillnorm) turns one broker
      event into a canonical fill.
    - Baskets and stops. [LegOrder] and [Basket] (src/src/options/basket.cpp),
      [Options] (hedge_first.cpp, sliced_leg.cpp, margin_shock.cpp), [Protection]
      (src/src/protection/stop_supervisor.cpp), [StrategyBook]
      (src/src/isolation/strategy_book.cpp).
    - Capacity and health. [RateLimit] (src/src/ratelimit), [Capabilities]
      (src/src/capabilities), [Health] (marketdata, feedsub, clock, health),
      [HealthSurface] (src/src/cli/health_*.cpp), [Supervisor]
      (src/src/supervisor).
    - Brokers. [WireJson]: broker payloads as JSON values. [KiteAdapter] over
      [KiteRest], with [KiteSession] for the daily login (src/src/adapters/kite,
      src/src/session); [KotakAdapter] over [KotakRest], with [KotakErrors],
      [KotakSession] and [KotakFeed] (src/src/adapters/kotak). [FakeBroker]
      (src/src/adapters/fake) implements the same [BrokerPort]; [BrokerFactory]
      (src/src/composition/broker_factory.cpp) chooses and gates the adapter.
    - Start. [Config] (src/src/config), [AccountDir]
      (src/src/accounts/account_data_dir.cpp), [SafeStart]
      (src/src/session/safe_start.cpp), [BootChecks] and [Boot] (src/src/boot),
      [Entrypoint] (src/src/main/main.cpp, src/src/cli/cli_app.cpp). [Boot] calls
      [BootChecks], [BrokerFactory], [Engine] and [HealthSurface] in the ten steps
      of boot.cpp; [Entrypoint] resolves the account, opens the store, calls
      [Boot] and turns its outcome into an exit code.
    - Files and processes. [Programs]: programs as trees of operations, their runs
      and a rely-guarantee logic; [FileOps] its instance for files. [FileLock]
      (src/src/platform/file_lock.cpp) and [SharedCache]
      (src/src/accounts/shared_refdata_cache.cpp) are such programs; [LockSystem]
      and [CacheSystem] run any number of processes against one world of files.
      [TokenStore] (src/src/secrets) seals and publishes tokens;
      [InstrumentMaster] (src/src/refdata/instrument_master.cpp) reads the dump.
    - Projection. [StoreSchema] and [StoreTables] (src/src/store/store.cpp): open,
      migrations and rebuild as programs of statements, and the tables beside the
      orders.
    - Reporting. [Observability] (src/src/observability): audit events, the
      redacted log line, the reports; [AuditLine]: what of a line survives the
      redaction. [Alerting] (src/src/alerting): the alert channels and the
      heartbeat.

    ** Correspondence of state

    Objects are records with the source's members; an operation of a class takes
    the record and returns its result with the new record. [std::unordered_map]
    and [std::map] are [gmap], a set is [gset], a [std::vector] is a list, a
    [std::function] that is injected is a function or its answer, [std::int64_t]
    and [int] are [Z] with wrap-around or range tests written out ([to_i64],
    [is_int64]); the supervisor's crash counter alone is unbounded ([Supervisor]).
    An injected clock, broker, disk or random source answers through
    an environment argument ([CallEnv], [wal_env], [ResolverEnv], [FundsIo]), so a
    theorem quantifies over every behaviour it may have.

    ** What the theorems show

    - No duplicate and nothing lost: [Dispatcher], [WriteAhead], [Idempotency],
      [IntentLog]: runs of dispatcher calls interleaved with disk failures, power
      cuts and restarts; replay accepts only an unbroken chain; a crash in the
      middle of an append never bricks the log.
    - The guards are exactly their specifications: [Engine], [Gate], [Risk],
      [MarginSafety], [PriceBand], [ModifyGuard], [Calendar], [Modes],
      [RejectReason]: each accepts exactly when an independently written
      condition holds, and every refusal carries its category and action.
    - State machines: [Lifecycle] (terminal absorption, monotone ordering keys,
      the parent fold), [Resolver] (one pass settles the table), [Modes] (an
      acknowledged kill is durable under every interleaving and holds until the
      process ends, and after a restart once the journal has been replayed, which
      main.cpp does not do: [Modes.restart_forgets_kill]).
    - Codecs and arithmetic: [Decimal], [Domain], [Sha256], [Utf8], [Store],
      [ClientRef], [Slicer], [Redaction], [Provenance].
    - Audit: [LedgerDisk] (every acknowledged entry stays in a chain that
      verifies), [AuditLine] (identifiers survive the scrub of their line),
      [Observability] (each report against a specification of its events).
    - Broker truth: [Reconcile] (the pass and the recovery exactly), [Intervention]
      and [FillNorm].
    - Baskets and stops: [LegOrder] (the order exists exactly for well-formed
      baskets), [Basket] (no leg orphaned), [Options], [Protection],
      [StrategyBook].
    - Brokers: [KiteAdapter] and [KotakAdapter] (the flatten refines its contract,
      at most one exit ever, attribution and reads fail closed), [KiteRest] and
      [KotakRest] (the adapters on the real clients, over any transport),
      [BrokerFactory] (a broker is composed exactly when its profile is
      certified), the sessions (a login stores its tokens or nothing), and
      [FakeBroker]: the dispatcher's calls never enter its book twice for one
      order, whatever faults it injects.
    - Start: [Boot] (the run phase is entered exactly when every step passed),
      [BootChecks] (what the gate vouches for), [Entrypoint] (when the process
      exits 0, and which codes it can exit with), [Supervisor] (a crash loop is
      bounded).
    - Interleaving: [LockSystem] (mutual exclusion with takeovers disabled, and
      concrete runs that break it with takeovers enabled), [CacheSystem] (a reader
      never sees part of an artifact), [TokenStore] (the publish is atomic at
      every point and across power cuts).
    - Projection: [StoreSchema] (no row is lost unless corruption was diagnosed),
      [StoreTables] (the tables are the history of calls), [InstrumentMaster] (a
      dump reads back, a symbol resolves until its expiry text is before today's).
    - Capacity and delivery: [RateLimit] (the exit lane stays open in a storm),
      [Health], [Alerting] (an alert is delivered exactly when a channel took it).

    Behaviours that differ from what a comment or a header of the source says are
    stated as examples or lemmas beside the definitions they are about, such as
    [LockSystem.two_live_holders], [InstrumentMaster.cut_dump_accepted],
    [InstrumentMaster.named_month_refused], [Reconcile.equal_key_hides_refusal],
    [WriteAhead.stopped_read_drops_acknowledged], [Modes.restart_forgets_kill],
    [AuditLine.apostrophe_strips_references] and
    [Entrypoint.directory_failure_not_retried].

    ** Fuel and bounds

    Recursion is structural wherever the loop consumes a list or a string. The
    padding loop of [Sha256] has 64 steps of fuel (it stops at a multiple of 64);
    the scrubber's loop has the length of the text; the digit loops of [Calendar]
    and the byte chunks of [IntentLog] are structural. Theorems about these
    functions are about the value with that fuel, which is proved enough. The
    same holds of the redaction loop of [KotakErrors], which has the length of its
    text, and of Kahn's loop in [LegOrder], which has one step per leg.

    ** Assumptions about the disk

    In [WriteAhead] a write appends a prefix of the line; a successful sync makes everything
    written so far survive a power cut; a power cut keeps at least what was
    synced and any prefix of the rest. These are the constructors of a step
    relation, not hypotheses. In [FileOps] each operation is one atomic step whose
    answer may be a failure, and another process may act between any two; in
    [TokenStore] a power cut may bring back any state of a name since its folder
    was last synced; in [StoreSchema] what was committed stays.

    ** Not modelled

    Third-party code is never given a definition. The JSON library, OpenSSL's
    digests, signatures and AES-GCM, SQLite, toml++, CLI11, the HTTP client and
    server and the logging library are parameters, or classes with the laws the
    code relies on, with an instance where a theorem assumes such laws. The
    transport glue (src/src/adapters/kite/cpr_http_client.cpp, the socket of the
    Kotak feed), the fsync seam of src/src/platform, argument declarations of
    CLI11 and the listening thread of the health endpoint are input and output
    around such code and are left out. Members reached only by tests (the test
    seam of the takeover, test clocks) are left out too. The trading loop itself
    is not in the program: its run phase is a stub that refuses, and is modelled
    as such.
*)

From Stdlib Require Export ZArith Lia Ascii String.
From stdpp Require Export base decidable list strings gmap pretty.
From stdpp Require Import sorting.

#[global] Open Scope Z_scope.

(** ** Machine integers

    [std::int64_t], [std::uint64_t] and [int] values are [Z]; the width of an
    operation is written out where the source relies on it. *)

Definition int64_min : Z := - 2 ^ 63.
Definition int64_max : Z := 2 ^ 63 - 1.
Definition int32_min : Z := - 2 ^ 31.
Definition int32_max : Z := 2 ^ 31 - 1.

Definition is_int64 (z : Z) : Prop := int64_min <= z <= int64_max.
Definition is_int32 (z : Z) : Prop := int32_min <= z <= int32_max.

#[export] Instance is_int64_dec z : Decision (is_int64 z).
Proof. unfold is_int64. apply _. Defined.
#[export] Instance is_int32_dec z : Decision (is_int32 z).
Proof. unfold is_int32. apply _. Defined.

(** Conversion to [std::uint64_t] and back (two's complement). *)
Definition to_u64 (z : Z) : Z := z mod 2 ^ 64.
Definition to_i64 (z : Z) : Z := (z + 2 ^ 63) mod 2 ^ 64 - 2 ^ 63.

Create HintDb ints discriminated.
#[export] Hint Unfold is_int64 is_int32 int64_min int64_max int32_min int32_max : ints.

Ltac unfold_ints :=
  unfold is_int64, is_int32, int64_min, int64_max, int32_min, int32_max in *.

Lemma to_u64_small z : 0 <= z < 2 ^ 64 -> to_u64 z = z.
Proof. intros. unfold to_u64. now apply Z.mod_small. Qed.

Lemma to_u64_range z : 0 <= to_u64 z < 2 ^ 64.
Proof. unfold to_u64. apply Z.mod_pos_bound. lia. Qed.

Lemma to_i64_small z : is_int64 z -> to_i64 z = z.
Proof. unfold_ints. intros. unfold to_i64. rewrite Z.mod_small; lia. Qed.

Lemma to_u64_neg z : - 2 ^ 63 <= z < 0 -> to_u64 z = z + 2 ^ 64.
Proof.
  intros. unfold to_u64. rewrite <- (Z.mod_small (z + 2 ^ 64) (2 ^ 64)) by lia.
  now rewrite <- Zplus_mod_idemp_r, Z_mod_same_full, Z.add_0_r.
Qed.

Lemma to_i64_u64 z : is_int64 z -> to_i64 (to_u64 z) = z.
Proof.
  unfold_ints. intros. destruct (Z_lt_dec z 0).
  - rewrite to_u64_neg by lia. unfold to_i64.
    replace (z + 2 ^ 64 + 2 ^ 63) with (z + 2 ^ 63 + 1 * 2 ^ 64) by lia.
    rewrite Z_mod_plus_full, Z.mod_small; lia.
  - rewrite to_u64_small by lia. apply to_i64_small. unfold_ints. lia.
Qed.

#[export] Hint Resolve to_u64_small to_u64_range to_i64_small : ints.

(** ** Tactics *)

(** Turn boolean tests of the source in the context into propositions. *)
Ltac to_prop :=
  repeat match goal with
    | H : (_ && _)%bool = true |- _ => apply andb_true_iff in H; destruct H
    | H : (_ || _)%bool = false |- _ => apply orb_false_iff in H; destruct H
    | H : negb _ = true |- _ => apply negb_true_iff in H
    | H : negb _ = false |- _ => apply negb_false_iff in H
    | H : (_ <? _) = true |- _ => apply Z.ltb_lt in H
    | H : (_ <? _) = false |- _ => apply Z.ltb_ge in H
    | H : (_ <=? _) = true |- _ => apply Z.leb_le in H
    | H : (_ <=? _) = false |- _ => apply Z.leb_gt in H
    | H : (_ =? _) = true |- _ => apply Z.eqb_eq in H
    | H : (_ =? _) = false |- _ => apply Z.eqb_neq in H
    | H : bool_decide _ = true |- _ => apply bool_decide_eq_true in H
    | H : bool_decide _ = false |- _ => apply bool_decide_eq_false in H
    | H : String.eqb _ _ = true |- _ => apply String.eqb_eq in H
    | H : String.eqb _ _ = false |- _ => apply String.eqb_neq in H
  end.

(** Case analysis on the scrutinee of one [match] or [if], in the goal or in a
    hypothesis, keeping the equation. *)
Ltac split_match :=
  match goal with
  | |- context [if ?b then _ else _] => destruct b eqn:?
  | |- context [match ?x with _ => _ end] => destruct x eqn:?
  end.
Ltac split_match_in H :=
  match type of H with
  | context [if ?b then _ else _] => destruct b eqn:?
  | context [match ?x with _ => _ end] => destruct x eqn:?
  end.

(** Run through all the early returns of a handler. *)
Ltac by_cases := repeat (split_match; simplify_eq/=); to_prop.

(** ** Strings *)

Create Rewrite HintDb strs.

#[global] Arguments String.append !_ _ / : simpl nomatch.

Definition str_contains_char (c : ascii) (s : string) : bool :=
  bool_decide (c ∈ String.list_ascii_of_string s).

Lemma str_app_assoc (a b c : string) : ((a +:+ b) +:+ c) = (a +:+ (b +:+ c)).
Proof. induction a; simpl; congruence. Qed.

Lemma str_app_nil_r (a : string) : (a +:+ "") = a.
Proof. induction a; simpl; congruence. Qed.

Lemma str_length_app (a b : string) :
  String.length (a +:+ b) = (String.length a + String.length b)%nat.
Proof. induction a; simpl; congruence. Qed.

Lemma str_app_inv_head (a b c : string) : (a +:+ b) = (a +:+ c) -> b = c.
Proof. induction a; simpl; intros; simplify_eq; auto. Qed.

Lemma str_app_inv_len (a b c d : string) :
  String.length a = String.length c -> (a +:+ b) = (c +:+ d) -> a = c /\ b = d.
Proof.
  revert c. induction a as [|x a IH]; intros [|y c]; simpl; intros; simplify_eq; auto.
  destruct (IH c) as [-> ->]; auto.
Qed.

#[export] Hint Rewrite str_app_assoc str_app_nil_r str_length_app : strs.

(** Strings as character lists. *)
Abbreviation chars := String.list_ascii_of_string.
Abbreviation str := String.string_of_list_ascii.

Lemma chars_app a b : chars (a +:+ b) = (chars a ++ chars b)%list.
Proof. induction a; simpl; congruence. Qed.

Lemma chars_length s : length (chars s) = String.length s.
Proof. induction s; simpl; congruence. Qed.

Lemma chars_str l : chars (str l) = l.
Proof. apply String.list_ascii_of_string_of_list_ascii. Qed.

Lemma str_chars s : str (chars s) = s.
Proof. apply String.string_of_list_ascii_of_string. Qed.

#[export] Instance chars_inj : Inj (=) (=) chars.
Proof. intros a b H. rewrite <- (str_chars a), <- (str_chars b). congruence. Qed.

#[export] Hint Rewrite chars_app chars_str str_chars chars_length : strs.

(** ** Decimal numerals: [std::to_string] is stdpp's [pretty]. *)

Definition is_ascii_digit (c : ascii) : bool :=
  let n := nat_of_ascii c in (48 <=? n)%nat && (n <=? 57)%nat.

(** [c - '0']. *)
Definition digit_value (c : ascii) : Z := Z.of_nat (nat_of_ascii c) - 48.

Definition digits (l : list ascii) : Prop := Forall (fun c => is_ascii_digit c = true) l.

(** The value of a digit string read from the left, starting from [acc]. *)
Definition dec_value_from (acc : Z) (l : list ascii) : Z :=
  fold_left (fun v c => 10 * v + digit_value c) l acc.
Abbreviation dec_value := (dec_value_from 0).

Lemma digit_value_range c : is_ascii_digit c = true -> 0 <= digit_value c <= 9.
Proof.
  unfold is_ascii_digit, digit_value. intros H. apply andb_true_iff in H as [H1 H2].
  apply Nat.leb_le in H1, H2. lia.
Qed.

Lemma dec_value_from_app acc a b :
  dec_value_from acc (a ++ b) = dec_value_from (dec_value_from acc a) b.
Proof. apply fold_left_app. Qed.

Lemma dec_value_from_mono acc l : digits l -> 0 <= acc -> acc <= dec_value_from acc l.
Proof.
  intros H. revert acc. induction H as [|c l Hc _ IH]; intros acc Hacc; simpl; [lia|].
  pose proof (digit_value_range c Hc). specialize (IH (10 * acc + digit_value c)). lia.
Qed.

(** A property of the ten digits, by inspection. *)
Lemma lt10_forall (P : Z -> Prop) : Forall P (seqZ 0 10) -> forall n, 0 <= n < 10 -> P n.
Proof. rewrite Forall_forall. intros H n Hn. apply H, elem_of_seqZ. lia. Qed.

Lemma pretty_N_char_digit n :
  (n < 10)%N -> is_ascii_digit (pretty_N_char n) = true /\
  digit_value (pretty_N_char n) = Z.of_N n.
Proof.
  intros H. rewrite <- (N2Z.id n). generalize (Z.of_N n), (N2Z.is_nonneg n), (proj1 (N2Z.inj_lt _ _) H).
  intros z H0 H1. pattern z. apply lt10_forall; [|done]. by repeat constructor.
Qed.

Lemma pretty_N_go_spec n s :
  (0 < n)%N -> exists l, pretty_N_go n s = str l +:+ s /\ digits l /\ l <> [] /\
  dec_value l = Z.of_N n.
Proof.
  revert s. induction (N.lt_wf_0 n) as [n _ IH]; intros s Hn.
  rewrite pretty_N_go_step by done.
  destruct (pretty_N_char_digit (n mod 10) ltac:(apply N.mod_lt; lia)) as [Hd Hv].
  destruct (N.eq_0_gt_0_cases (n / 10)) as [Hz|Hz].
  - rewrite Hz, pretty_N_go_0. exists [pretty_N_char (n mod 10)]. repeat split; try done.
    + by repeat constructor.
    + unfold dec_value_from. cbn [fold_left]. rewrite Hv. pose proof (N.div_mod' n 10). lia.
  - destruct (IH (n / 10)%N (N.div_lt n 10 Hn eq_refl)
      (String (pretty_N_char (n mod 10)) s) Hz) as (l & -> & Hl & Hne & Hval).
    exists (l ++ [pretty_N_char (n mod 10)]). repeat split.
    + apply (inj chars). autorewrite with strs. simpl. by rewrite <- app_assoc.
    + apply Forall_app. by repeat constructor.
    + by destruct l.
    + rewrite dec_value_from_app, Hval. unfold dec_value_from. cbn [fold_left].
      rewrite Hv. pose proof (N.div_mod' n 10). lia.
Qed.

(** The characters of a printed non-negative integer. *)
Lemma pretty_Z_digits z :
  0 <= z -> digits (chars (pretty z)) /\ chars (pretty z) <> [] /\
  dec_value (chars (pretty z)) = z.
Proof.
  intros Hz. destruct z as [|p|p]; [|simpl|lia].
  { split; [by repeat constructor|done]. }
  unfold pretty, pretty_Z, pretty, pretty_positive, pretty, pretty_N.
  rewrite decide_False by done.
  destruct (pretty_N_go_spec (Npos p) "" ltac:(lia)) as (l & -> & Hl & Hne & Hv).
  rewrite str_app_nil_r, chars_str. by rewrite Hv.
Qed.

Lemma pretty_Z_neg z : z < 0 -> pretty z = "-" +:+ pretty (- z).
Proof. destruct z; [lia..|]. done. Qed.

(** Two-digit fractions. *)
Lemma dec_value_lt10 n : 0 <= n < 10 -> exists c,
  pretty n = String c "" /\ is_ascii_digit c = true /\ digit_value c = n.
Proof.
  intros H. pattern n. apply lt10_forall; [|done]. repeat (apply Forall_cons; split); [..|done].
  all: by eexists; repeat split; vm_compute.
Qed.

(** Printed positive integers contain digits only. *)
Lemma not_in_pretty c k : 0 <= k -> is_ascii_digit c = false -> c ∉ chars (pretty k).
Proof.
  intros Hk Hc Hin. destruct (pretty_Z_digits k Hk) as [Hd _].
  unfold digits in Hd. rewrite Forall_forall in Hd. apply Hd in Hin. congruence.
Qed.

(** Printed integers: an optional sign and digits. *)
Lemma not_in_pretty_Z c (z : Z) : is_ascii_digit c = false -> c <> "-"%char -> c ∉ chars (pretty z).
Proof.
  intros Hc Hm. destruct (Z_lt_dec z 0) as [Hz|Hz].
  - rewrite pretty_Z_neg by done. simpl. rewrite not_elem_of_cons. split; [done|].
    apply not_in_pretty; [lia|done].
  - apply not_in_pretty; [lia|done].
Qed.

(** A text without the separator is delimited by it. *)
Lemma delimited c a b x y :
  c ∉ chars a -> c ∉ chars b -> (a +:+ String c x) = (b +:+ String c y) -> a = b /\ x = y.
Proof.
  intros Ha Hb H. apply (f_equal chars) in H. rewrite !chars_app in H. simpl in H.
  destruct (not_elem_of_app_cons_inv_l _ _ _ _ _ _ Hb Ha H) as (H1 & _ & H2).
  split; by apply (inj chars).
Qed.

(** Surrounding blanks (space and tab) removed. *)
Definition is_blank (c : ascii) : bool := Ascii.eqb c " " || Ascii.eqb c "009".

Fixpoint drop_blanks (l : list ascii) : list ascii :=
  match l with [] => [] | c :: rest => if is_blank c then drop_blanks rest else l end.

Definition trim_blanks (l : list ascii) : list ascii := reverse (drop_blanks (reverse (drop_blanks l))).

(** ** Lists *)

Lemma sublist_elem_of {A} (l k : list A) x : l `sublist_of` k -> x ∈ l -> x ∈ k.
Proof. intros Hs Hx. eapply elem_of_submseteq; [done|]. by apply sublist_submseteq. Qed.

(** A number below [10 ^ m] has at most [m] digits. *)
Lemma pretty_N_go_length m : forall n s, (n < 10 ^ N.of_nat m)%N ->
  (String.length (pretty_N_go n s) <= m + String.length s)%nat.
Proof.
  induction m as [|m IH]; intros n s Hn.
  - simpl in Hn. replace n with 0%N by lia. by rewrite pretty_N_go_0.
  - destruct (N.eq_0_gt_0_cases n) as [->|Hp]; [rewrite pretty_N_go_0; lia|].
    rewrite pretty_N_go_step by done.
    assert (n / 10 < 10 ^ N.of_nat m)%N as Hd.
    { apply N.Div0.div_lt_upper_bound. rewrite <- N.pow_succ_r'. by rewrite <- Nat2N.inj_succ. }
    specialize (IH (n / 10)%N (String (pretty_N_char (n mod 10)) s) Hd). simpl in IH. lia.
Qed.

Lemma pretty_length m k : (0 < m)%nat -> 0 <= k < 10 ^ Z.of_nat m -> (String.length (pretty k) <= m)%nat.
Proof.
  intros Hm Hk. destruct k as [|p|p]; [simpl; lia| |lia].
  unfold pretty, pretty_Z, pretty, pretty_positive, pretty, pretty_N. rewrite decide_False by done.
  pose proof (pretty_N_go_length m (Npos p) "") as H. simpl in H. rewrite Nat.add_0_r in H. apply H.
  apply N2Z.inj_lt. rewrite N2Z.inj_pow, nat_N_Z. simpl. lia.
Qed.

(** ** The lines of a file *)

Definition newline : ascii := "010"%char.

(** The chunks [contents.find('\n', pos)] delimits; the flag is [unterminated]. *)
Fixpoint chunks (l : list ascii) : list (list ascii * bool) :=
  match l with
  | [] => []
  | c :: r =>
      if bool_decide (c = newline) then ([], false) :: chunks r
      else match chunks r with
           | [] => [([c], true)]
           | (line, u) :: rest => (c :: line, u) :: rest
           end
  end.

Definition str_take (k : nat) (s : string) : string := str (take k (chars s)).

Lemma chunks_line l rest : newline ∉ l -> chunks (l ++ newline :: rest) = (l, false) :: chunks rest.
Proof.
  induction l as [|c l IH]; simpl; intros H; [done|].
  apply not_elem_of_cons in H as [Hc Hl]. rewrite bool_decide_eq_false_2 by done. by rewrite IH.
Qed.

Lemma chunks_tail l : newline ∉ l -> l <> [] -> chunks l = [(l, true)].
Proof.
  induction l as [|c l IH]; simpl; intros H Hne; [done|].
  apply not_elem_of_cons in H as [Hc Hl]. rewrite bool_decide_eq_false_2 by done.
  destruct l as [|d l]; [done|]. by rewrite IH.
Qed.

Lemma chars_nonempty a : a <> "" -> chars a <> [].
Proof. intros H Hc. apply H. by apply (inj chars). Qed.

Lemma str_take_app_ge k a b : (String.length a <= k)%nat ->
  str_take k (a +:+ b) = a +:+ str_take (k - String.length a) b.
Proof.
  intros. apply (inj chars). unfold str_take. rewrite chars_app, !chars_str, chars_app, chars_str.
  rewrite take_app_ge by (by rewrite chars_length). by rewrite chars_length.
Qed.

Lemma str_take_app_le k a b : (k <= String.length a)%nat -> str_take k (a +:+ b) = str_take k a.
Proof.
  intros. unfold str_take. rewrite chars_app, take_app_le; [done|]. by rewrite chars_length.
Qed.

Lemma str_take_take j k a : (j <= k)%nat -> str_take j (str_take k a) = str_take j a.
Proof. intros. unfold str_take. rewrite chars_str, take_take. f_equal. f_equal. lia. Qed.

Lemma str_take_app_length a b : str_take (String.length a) (a +:+ b) = a.
Proof. unfold str_take. rewrite chars_app, <- chars_length, take_app_length. apply str_chars. Qed.

(** The capped doubling of the supervisor's backoff and of the circuit
    breaker's cooldown: the loop over [i = 1 .. n - 1]; [cap / 2] truncates. *)
Fixpoint capped_doubling (iterations : nat) (cap value : Z) : Z :=
  match iterations with
  | O => value
  | S k =>
      if Z.quot cap 2 <? value then cap
      else
        let value := value * 2 in
        if cap <=? value then cap else capped_doubling k cap value
  end.

(** The loop is the closed form: doubled, capped. *)
Lemma capped_doubling_spec n : forall cap value, 0 < value <= cap ->
  capped_doubling n cap value = Z.min cap (value * 2 ^ Z.of_nat n).
Proof.
  induction n as [|n IH]; intros cap value Hv; cbn [capped_doubling]; [rewrite Z.mul_1_r; lia|].
  rewrite Nat2Z.inj_succ, Z.pow_succ_r by lia. assert (1 <= 2 ^ Z.of_nat n) by (apply (Z.pow_le_mono_r 2 0); lia).
  destruct (Z.ltb_spec (Z.quot cap 2) value) as [Hc|Hc].
  - assert (cap <= value * 2) by (pose proof (Z.quot_rem' cap 2); pose proof (Z.rem_bound_pos cap 2); lia). nia.
  - assert (value * 2 <= cap) by (pose proof (Z.quot_rem' cap 2); pose proof (Z.rem_bound_pos cap 2); lia).
    destruct (Z.leb_spec cap (value * 2)); [nia|]. rewrite IH by lia. f_equal. ring.
Qed.

(** ** Integers read from text *)

(** [std::from_chars] into an int64: an optional minus, digits, nothing else. *)
Definition digits_value (l : list ascii) : option Z :=
  match l with [] => None | _ => if forallb is_ascii_digit l then Some (dec_value l) else None end.

Definition from_chars_int64 (text : string) : option Z :=
  z ← match chars text with
      | "-"%char :: l => Z.opp <$> digits_value l
      | l => digits_value l
      end;
  if (int64_min <=? z) && (z <=? int64_max) then Some z else None.

Lemma digits_value_pretty z : 0 <= z -> digits_value (chars (pretty z)) = Some z.
Proof.
  intros Hz. destruct (pretty_Z_digits z Hz) as (Hd & Hne & Hv). unfold digits_value.
  destruct (chars (pretty z)) as [|c l] eqn:E; [done|].
  rewrite (proj2 (forallb_forall _ _)); [by rewrite Hv|].
  intros x Hx. unfold digits in Hd. rewrite Forall_forall in Hd. by apply Hd, list_elem_of_In.
Qed.

Lemma from_chars_pretty z : is_int64 z -> from_chars_int64 (pretty z) = Some z.
Proof.
  intros Hz. unfold from_chars_int64.
  assert ((int64_min <=? z) && (z <=? int64_max) = true) as Hr
    by (unfold is_int64 in Hz; rewrite andb_true_iff, !Z.leb_le; lia).
  destruct (Z_lt_dec z 0) as [Hn|Hn].
  - rewrite pretty_Z_neg by done. cbn [append String.append chars].
    rewrite digits_value_pretty by lia. simpl. rewrite Z.opp_involutive. by rewrite Hr.
  - assert ("-"%char ∉ chars (pretty z)) as Hm by (apply not_in_pretty; [lia|done]).
    pose proof (digits_value_pretty z ltac:(lia)) as Hd.
    destruct (chars (pretty z)) as [|c l] eqn:E; [done|].
    destruct (decide (c = "-"%char)) as [->|Hc]; [destruct Hm; left|].
    destruct c as [[] [] [] [] [] [] [] []]; try (rewrite Hd; simpl; by rewrite Hr). done.
Qed.

(** ** Maps in the order of their keys *)

(** A [std::map] is gone through in the byte order of its keys. *)
Definition key_le {A} (p q : string * A) : Prop := String.leb (fst p) (fst q) = true.

#[export] Instance key_le_dec {A} : RelDecision (@key_le A).
Proof. intros p q. unfold key_le. apply _. Defined.

Definition by_key {A} (m : gmap string A) : list (string * A) := merge_sort key_le (map_to_list m).

Lemma by_key_Permutation {A} (m : gmap string A) : by_key m ≡ₚ map_to_list m.
Proof. apply merge_sort_Permutation. Qed.

Lemma elem_of_by_key {A} (m : gmap string A) k v : (k, v) ∈ by_key m <-> m !! k = Some v.
Proof. by rewrite by_key_Permutation, elem_of_map_to_list. Qed.

Lemma NoDup_by_key {A} (m : gmap string A) : NoDup (by_key m).*1.
Proof. rewrite by_key_Permutation. apply NoDup_fst_map_to_list. Qed.
