(* ===== verification/Errors.v ===== *)
(** * Errors: the typed error taxonomy (src/src/errors/error.cpp)

    Categories, suggested actions, [make_error], and the two classification
    entry points [classify_http] and [classify]; the [result] type models
    [Result<T>] (include/broker_exec/result.hpp). *)

From S2P Require Import Prelude.

(** ** Data *)

Inductive ErrorCategory :=
  | Transient | RateLimited | Network | Timeout | Auth | SessionExpired
  | Validation | InsufficientFunds | RiskRejected | NotSupported
  | DuplicateOrder | OrderNotFound | BrokerRejected | MarketClosed
  | DataStale | Internal | CatUnknown.

Inductive SuggestedAction :=
  | RetrySafe | DoNotRetry | ReconcileFirst | BlockStrategy
  | ReEstablishSession | ActCancel | ActSquareOff | RaiseAlert.

#[export] Instance ErrorCategory_eq_dec : EqDecision ErrorCategory.
Proof. solve_decision. Defined.
#[export] Instance SuggestedAction_eq_dec : EqDecision SuggestedAction.
Proof. solve_decision. Defined.

Record Error := mkError {
  category : ErrorCategory;
  action : SuggestedAction;
  message : string;
  broker_code : string;
}.

#[export] Instance Error_eq_dec : EqDecision Error.
Proof. solve_decision. Defined.

(** [Result<T>]: errors are values, nothing is thrown. *)
Inductive result (A : Type) :=
  | Ok (a : A)
  | Err (e : Error).
Arguments Ok {A} a.
Arguments Err {A} e.

#[export] Instance result_ret : MRet result := fun A a => Ok a.
#[export] Instance result_bind : MBind result := fun A B f m =>
  match m with Ok a => f a | Err e => Err e end.

Definition is_ok {A} (r : result A) : bool :=
  match r with Ok _ => true | Err _ => false end.

(** ** Operations *)

Definition category_to_string (c : ErrorCategory) : string :=
  match c with
  | Transient => "Transient"
  | RateLimited => "RateLimited"
  | Network => "Network"
  | Timeout => "Timeout"
  | Auth => "Auth"
  | SessionExpired => "SessionExpired"
  | Validation => "Validation"
  | InsufficientFunds => "InsufficientFunds"
  | RiskRejected => "RiskRejected"
  | NotSupported => "NotSupported"
  | DuplicateOrder => "DuplicateOrder"
  | OrderNotFound => "OrderNotFound"
  | BrokerRejected => "BrokerRejected"
  | MarketClosed => "MarketClosed"
  | DataStale => "DataStale"
  | Internal => "Internal"
  | CatUnknown => "Unknown"
  end.

Definition action_to_string (a : SuggestedAction) : string :=
  match a with
  | RetrySafe => "RetrySafe"
  | DoNotRetry => "DoNotRetry"
  | ReconcileFirst => "ReconcileFirst"
  | BlockStrategy => "BlockStrategy"
  | ReEstablishSession => "ReEstablishSession"
  | ActCancel => "Cancel"
  | ActSquareOff => "SquareOff"
  | RaiseAlert => "RaiseAlert"
  end.

Definition default_action_for (c : ErrorCategory) : SuggestedAction :=
  match c with
  | Transient => RetrySafe
  | RateLimited => RetrySafe
  | Network => ReconcileFirst
  | Timeout => ReconcileFirst
  | Auth => ReEstablishSession
  | SessionExpired => ReEstablishSession
  | Validation => DoNotRetry
  | InsufficientFunds => BlockStrategy
  | RiskRejected => ReconcileFirst
  | NotSupported => DoNotRetry
  | DuplicateOrder => ReconcileFirst
  | OrderNotFound => ReconcileFirst
  | BrokerRejected => ReconcileFirst
  | MarketClosed => BlockStrategy
  | DataStale => BlockStrategy
  | Internal => RaiseAlert
  | CatUnknown => ReconcileFirst
  end.

Definition make_error (c : ErrorCategory) (msg code : string) : Error :=
  mkError c (default_action_for c) msg code.

Definition make_error_with (c : ErrorCategory) (a : SuggestedAction)
    (msg code : string) : Error :=
  mkError c a msg code.

(** [e.action = a] on an error built locally. *)
Definition set_action (a : SuggestedAction) (e : Error) : Error :=
  mkError (category e) a (message e) (broker_code e).

(** ASCII case folding of the haystack only: the needles are lower-case. *)
Definition fold_char (c : ascii) : ascii :=
  let n := nat_of_ascii c in
  if (65 <=? n)%nat && (n <=? 90)%nat then ascii_of_nat (n + 32) else c.

Fixpoint prefix_ci (needle haystack : string) : bool :=
  match needle, haystack with
  | "", _ => true
  | String n ns, String h hs => Ascii.eqb (fold_char h) n && prefix_ci ns hs
  | String _ _, "" => false
  end.

Fixpoint contains_ci (haystack needle : string) : bool :=
  prefix_ci needle haystack ||
  match haystack with
  | "" => false
  | String _ rest => contains_ci rest needle
  end.

Definition classify_http (status : Z) (body : string) : Error :=
  let code := "HTTP " +:+ pretty status in
  if (200 <=? status) && (status <? 300) then
    make_error Internal "unexpected success status routed to classify_http" code
  else if (status =? 401) || (status =? 403) then
    if contains_ci body "expired" || contains_ci body "session" then
      make_error SessionExpired "session expired or invalid" code
    else make_error Auth "authentication failed" code
  else if status =? 429 then make_error RateLimited "rate limited by broker" code
  else if status =? 404 then make_error OrderNotFound "resource or order not found" code
  else if (status =? 408) || (status =? 504) then
    make_error Timeout "request timed out" code
  else if (status =? 400) || (status =? 422) then
    make_error Validation "request rejected as invalid" code
  else if 500 <=? status then make_error Network "broker server error" code
  else if 400 <=? status then
    make_error BrokerRejected "broker refused the request" code
  else make_error CatUnknown "unclassified transport status" code.

Definition classify (code msg : string) : Error :=
  let hit kw := contains_ci code kw || contains_ci msg kw in
  if hit "insufficient" || hit "margin shortfall" || hit "not enough" then
    make_error InsufficientFunds "insufficient funds / margin shortfall" code
  else if hit "rms" || hit "risk" then
    make_error RiskRejected "broker risk system rejected the order" code
  else if hit "session" || hit "token" || hit "expired" then
    make_error SessionExpired "session expired; re-establish required" code
  else if hit "unauthor" || hit "auth" || hit "forbidden" || hit "api_key" || hit "apikey" then
    make_error Auth "authentication failed" code
  else if hit "rate limit" || hit "too many" || hit "throttle" then
    make_error RateLimited "rate limited by broker" code
  else if hit "duplicate" || hit "already exists" || hit "already placed" then
    make_error DuplicateOrder "broker reports a duplicate order" code
  else if hit "not found" || hit "does not exist" || hit "already filled" ||
          hit "already cancelled" || hit "already canceled" then
    make_error OrderNotFound "order not found or already terminal" code
  else if hit "market closed" || hit "market is closed" || hit "outside" ||
          hit "session hours" || hit "not open" then
    make_error MarketClosed "market closed / outside session" code
  else if hit "not supported" || hit "unsupported" || hit "not allowed" ||
          hit "not enabled" then
    make_error NotSupported "capability not supported by broker" code
  else if hit "timeout" || hit "timed out" then
    make_error Timeout "broker call timed out" code
  else if hit "invalid" || hit "lot" || hit "tick" || hit "price" || hit "quantity" ||
          hit "symbol" || hit "instrument" || hit "product" then
    make_error Validation "request rejected as invalid" code
  else if hit "network" || hit "connection" || hit "unreachable" || hit "reset" then
    make_error Network "network/connection failure" code
  else if negb (String.eqb code "") || negb (String.eqb msg "") then
    make_error BrokerRejected "broker rejected the request" code
  else make_error CatUnknown "ambiguous broker error" code.

(** ** Substring search: laws of [contains_ci] *)

Fixpoint fold_string (s : string) : string :=
  match s with "" => "" | String c r => String (fold_char c) (fold_string r) end.

Lemma prefix_ci_spec n h :
  prefix_ci n h = true <-> exists r, fold_string h = n +:+ r.
Proof.
  revert h. induction n as [|c n IH]; intros h; simpl.
  - split; eauto.
  - destruct h as [|d h]; simpl.
    + split; [discriminate | intros [r Hr]; discriminate].
    + rewrite andb_true_iff, IH, Ascii.eqb_eq. split.
      * intros [<- [r Hr]]. exists r. congruence.
      * intros [r Hr]. simplify_eq. eauto.
Qed.

(** [contains_ci h n] finds [n] at some offset of the folded haystack. *)
Lemma contains_ci_spec h n :
  contains_ci h n = true <-> exists pre post, fold_string h = pre +:+ n +:+ post.
Proof.
  induction h as [|c h IH]; simpl.
  - rewrite orb_false_r, (prefix_ci_spec n ""). simpl. split.
    + intros [r Hr]. exists "", r. done.
    + intros (pre & post & H). destruct pre; [|discriminate]. simpl in H. eauto.
  - rewrite orb_true_iff, IH, (prefix_ci_spec n (String c h)). simpl. split.
    + intros [[r Hr] | (pre & post & H)].
      * exists "", r. done.
      * exists (String (fold_char c) pre), post. simpl. congruence.
    + intros ([|d pre] & post & H); simpl in H; simplify_eq; eauto.
Qed.

Lemma contains_ci_sub h n1 pre post :
  contains_ci h (pre +:+ n1 +:+ post) = true -> contains_ci h n1 = true.
Proof.
  rewrite !contains_ci_spec. intros (a & b & H).
  exists (a +:+ pre), (post +:+ b). rewrite H. now autorewrite with strs.
Qed.
