(* ===== verification/Domain.v ===== *)
(** * Domain: value types (src/src/domain/, include/broker_exec/domain/)

    Enumerations with their stable names, the exact integer-paise [Money],
    [Price] and [Quantity] types, tick rounding done in unsigned magnitude
    space, and the records of types.hpp. *)

From S2P Require Import Prelude.

(** ** Enumerations (enums.hpp) *)

Inductive Side := Buy | Sell.
Inductive OrderType := Market | Limit | StopLoss | StopLossMarket.
Inductive Product := Intraday | Delivery | Margin | Normal.
Inductive OrderState :=
  | Created | Validated | PendingSend | Sent | Acknowledged | PartiallyFilled
  | Filled | Rejected | Cancelled | Unknown | Reconciled | PartiallyPlaced
  | ManualInterventionRequired.

#[export] Instance Side_eq_dec : EqDecision Side.
Proof. solve_decision. Defined.
#[export] Instance OrderType_eq_dec : EqDecision OrderType.
Proof. solve_decision. Defined.
#[export] Instance Product_eq_dec : EqDecision Product.
Proof. solve_decision. Defined.
#[export] Instance OrderState_eq_dec : EqDecision OrderState.
Proof. solve_decision. Defined.

Definition order_state_to_string (s : OrderState) : string :=
  match s with
  | Created => "CREATED"
  | Validated => "VALIDATED"
  | PendingSend => "PENDING_SEND"
  | Sent => "SENT"
  | Acknowledged => "ACKNOWLEDGED"
  | PartiallyFilled => "PARTIALLY_FILLED"
  | Filled => "FILLED"
  | Rejected => "REJECTED"
  | Cancelled => "CANCELLED"
  | Unknown => "UNKNOWN"
  | Reconciled => "RECONCILED"
  | PartiallyPlaced => "PARTIALLY_PLACED"
  | ManualInterventionRequired => "MANUAL_INTERVENTION_REQUIRED"
  end.

Definition side_to_string (s : Side) : string :=
  match s with Buy => "BUY" | Sell => "SELL" end.

Definition order_type_to_string (t : OrderType) : string :=
  match t with
  | Market => "MARKET" | Limit => "LIMIT" | StopLoss => "SL" | StopLossMarket => "SL-M"
  end.

Definition product_to_string (p : Product) : string :=
  match p with
  | Intraday => "INTRADAY" | Delivery => "DELIVERY" | Margin => "MARGIN" | Normal => "NORMAL"
  end.

#[export] Instance order_state_to_string_inj : Inj (=) (=) order_state_to_string.
Proof. intros [] []; simpl; congruence. Qed.
#[export] Instance side_to_string_inj : Inj (=) (=) side_to_string.
Proof. intros [] []; simpl; congruence. Qed.
#[export] Instance order_type_to_string_inj : Inj (=) (=) order_type_to_string.
Proof. intros [] []; simpl; congruence. Qed.
#[export] Instance product_to_string_inj : Inj (=) (=) product_to_string.
Proof. intros [] []; simpl; congruence. Qed.

(** ** Money, Price, Quantity (money.hpp, money.cpp)

    Each wraps one [std::int64_t]; the wrappers are kept distinct. *)

Record Money := from_paise_money { money_paise : Z }.
Record Price := from_paise { price_paise : Z }.
Record Quantity := quantity_of { quantity_value : Z }.

#[export] Instance Money_eq_dec : EqDecision Money.
Proof. solve_decision. Defined.
#[export] Instance Price_eq_dec : EqDecision Price.
Proof. solve_decision. Defined.
#[export] Instance Quantity_eq_dec : EqDecision Quantity.
Proof. solve_decision. Defined.

(** [~u + 1U] at 64 bits: the magnitude of a negative [int64] without signed
    overflow at [INT64_MIN]. *)
Definition u64_not (u : Z) : Z := to_u64 (Z.lnot u).
Definition u64_neg (u : Z) : Z := to_u64 (u64_not u + 1).

(** [negative ? (~uint64(value) + 1U) : uint64(value)]. *)
Definition magnitude (v : Z) : Z :=
  if v <? 0 then u64_neg (to_u64 v) else to_u64 v.

Definition format_paise (paise : Z) : string :=
  let negative := paise <? 0 in
  let mag := magnitude paise in
  let rupees := mag / 100 in
  let frac := mag mod 100 in
  (if negative then "-" else "") +:+ pretty rupees +:+ "." +:+
  (if frac <? 10 then "0" else "") +:+ pretty frac.

Definition money_to_string (m : Money) : string := format_paise (money_paise m).
Definition price_to_string (p : Price) : string := format_paise (price_paise p).
Definition quantity_to_string (q : Quantity) : string := pretty (quantity_value q).

(** [Price::round_to_tick]: round half-up in unsigned magnitude space; the price
    is returned unchanged for a non-positive tick and when the rounded
    magnitude leaves the [int64] range. *)
Definition round_to_tick (p tick : Price) : Price :=
  let t := price_paise tick in
  if t <=? 0 then p else
  let value := price_paise p in
  let negative := value <? 0 in
  let ut := to_u64 t in
  let mag := magnitude value in
  let half := if negative then to_u64 (ut - 1) / 2 else ut / 2 in
  let rounded := to_u64 (to_u64 (mag + half) / ut * ut) in
  let kMaxMagnitude := to_u64 int64_max in
  let limit := if negative then to_u64 (kMaxMagnitude + 1) else kMaxMagnitude in
  if limit <? rounded then p
  else from_paise (if negative then to_i64 (u64_neg rounded) else to_i64 rounded).

(** ** Records (types.hpp) *)

Record Instrument := mkInstrument {
  inst_symbol : string;
  token : Z;
  exchange : string;
  lot_size : Quantity;
  tick_size : Price;
  freeze_qty : Quantity;
  expiry : string;
}.

Record OrderIntent := mkIntent {
  client_ref : string;
  symbol : string;
  side : Side;
  quantity : Quantity;
  price : Price;
  trigger_price : option Price;
  order_type : OrderType;
  product : Product;
  strategy : string;
}.

Record Order := mkOrder {
  intent : OrderIntent;
  state : OrderState;
  broker_order_id : string;
  filled_qty : Quantity;
  avg_price : Price;
}.

#[export] Instance OrderIntent_eq_dec : EqDecision OrderIntent.
Proof. solve_decision. Defined.
#[export] Instance Order_eq_dec : EqDecision Order.
Proof. solve_decision. Defined.

Record Trade := mkTrade {
  trade_id : string;
  trade_client_ref : string;
  trade_broker_order_id : string;
  trade_quantity : Quantity;
  trade_price : Price;
}.

Record Position := mkPosition {
  pos_symbol : string;
  net_qty : Quantity;
  pos_avg_price : Price;
}.

#[export] Instance Trade_eq_dec : EqDecision Trade.
Proof. solve_decision. Defined.
#[export] Instance Position_eq_dec : EqDecision Position.
Proof. solve_decision. Defined.

(** Field updates used by the modules that copy an intent and change one field. *)
Definition with_client_ref (r : string) (i : OrderIntent) : OrderIntent :=
  mkIntent r (symbol i) (side i) (quantity i) (price i) (trigger_price i)
    (order_type i) (product i) (strategy i).
Definition with_quantity (q : Quantity) (i : OrderIntent) : OrderIntent :=
  mkIntent (client_ref i) (symbol i) (side i) q (price i) (trigger_price i)
    (order_type i) (product i) (strategy i).
Definition with_state (s : OrderState) (o : Order) : Order :=
  mkOrder (intent o) s (broker_order_id o) (filled_qty o) (avg_price o).
Definition with_broker_order_id (b : string) (o : Order) : Order :=
  mkOrder (intent o) (state o) b (filled_qty o) (avg_price o).

(** [Order order; order.intent = intent; order.state = state;] *)
Definition make_order (i : OrderIntent) (s : OrderState) : Order :=
  mkOrder i s "" (quantity_of 0) (from_paise 0).

Definition instrument_to_string (i : Instrument) : string :=
  "Instrument{symbol=" +:+ inst_symbol i +:+ ",token=" +:+ pretty (token i) +:+
  ",exchange=" +:+ exchange i +:+ ",lot_size=" +:+ quantity_to_string (lot_size i) +:+
  ",tick_size=" +:+ price_to_string (tick_size i) +:+
  ",freeze_qty=" +:+ quantity_to_string (freeze_qty i) +:+
  ",expiry=" +:+ expiry i +:+ "}".

Definition intent_to_string (i : OrderIntent) : string :=
  "OrderIntent{client_ref=" +:+ client_ref i +:+ ",symbol=" +:+ symbol i +:+
  ",side=" +:+ side_to_string (side i) +:+
  ",quantity=" +:+ quantity_to_string (quantity i) +:+
  ",price=" +:+ price_to_string (price i) +:+
  ",trigger_price=" +:+
  match trigger_price i with Some t => price_to_string t | None => "none" end +:+
  ",order_type=" +:+ order_type_to_string (order_type i) +:+
  ",product=" +:+ product_to_string (product i) +:+
  ",strategy=" +:+ strategy i +:+ "}".

Definition order_to_string (o : Order) : string :=
  "Order{intent=" +:+ intent_to_string (intent o) +:+
  ",state=" +:+ order_state_to_string (state o) +:+
  ",broker_order_id=" +:+ broker_order_id o +:+
  ",filled_qty=" +:+ quantity_to_string (filled_qty o) +:+
  ",avg_price=" +:+ price_to_string (avg_price o) +:+ "}".

Definition trade_to_string (t : Trade) : string :=
  "Trade{trade_id=" +:+ trade_id t +:+ ",client_ref=" +:+ trade_client_ref t +:+
  ",broker_order_id=" +:+ trade_broker_order_id t +:+
  ",quantity=" +:+ quantity_to_string (trade_quantity t) +:+
  ",price=" +:+ price_to_string (trade_price t) +:+ "}".

Definition position_to_string (p : Position) : string :=
  "Position{symbol=" +:+ pos_symbol p +:+ ",net_qty=" +:+ quantity_to_string (net_qty p) +:+
  ",avg_price=" +:+ price_to_string (pos_avg_price p) +:+ "}".

(** ** Magnitudes *)

Lemma u64_neg_spec u : 0 < u < 2 ^ 64 -> u64_neg u = 2 ^ 64 - u.
Proof.
  intros. unfold u64_neg, u64_not, to_u64.
  rewrite Z.add_mod_idemp_l by lia.
  replace (Z.lnot u + 1) with (- u) by (unfold Z.lnot; lia).
  rewrite Z.mod_opp_l_nz; rewrite ?Z.mod_small; lia.
Qed.

Lemma magnitude_abs v : is_int64 v -> magnitude v = Z.abs v.
Proof.
  unfold_ints. intros. unfold magnitude. destruct (Z.ltb_spec v 0).
  - rewrite to_u64_neg by lia. rewrite u64_neg_spec by lia. lia.
  - rewrite to_u64_small by lia. lia.
Qed.

Lemma to_i64_u64_neg u : 0 <= u <= 2 ^ 63 -> to_i64 (u64_neg u) = - u.
Proof.
  intros. destruct (decide (u = 0)) as [->|]; [reflexivity|].
  rewrite u64_neg_spec by lia.
  rewrite <- (to_i64_u64 (- u)) by (unfold_ints; lia).
  rewrite to_u64_neg by lia. do 2 f_equal. lia.
Qed.

#[export] Hint Resolve magnitude_abs : ints.

(** ** Tick rounding *)

(** The reference: the nearest multiple of [t], halves rounded up. *)
Definition nearest_tick (v t : Z) : Z := t * ((2 * v + t) / (2 * t)).

Lemma nearest_tick_bounds v t :
  0 < t -> 2 * v - t < 2 * nearest_tick v t <= 2 * v + t.
Proof.
  intros. unfold nearest_tick.
  pose proof (Z.mul_div_le (2 * v + t) (2 * t)).
  pose proof (Z.mul_succ_div_gt (2 * v + t) (2 * t)). lia.
Qed.

(** A multiple of [t] within half a tick (upper half included) is the nearest. *)
Lemma nearest_tick_unique v t q :
  0 < t -> 2 * v - t < 2 * (t * q) <= 2 * v + t -> nearest_tick v t = t * q.
Proof.
  intros Ht Hq. unfold nearest_tick. f_equal. symmetry.
  apply Z.div_unique_pos with (r := 2 * v + t - 2 * t * q); lia.
Qed.

(** Rounding the magnitude with the source's bias is rounding the value. *)
Lemma biased_round v t :
  0 < t ->
  let half := if v <? 0 then (t - 1) / 2 else t / 2 in
  (Z.abs v + half) / t * t = Z.abs (nearest_tick v t).
Proof.
  intros Ht half.
  assert (Hd : exists k r, Z.abs v + half = t * k + r /\ 0 <= r < t /\
     (Z.abs v + half) / t = k).
  { exists ((Z.abs v + half) / t), ((Z.abs v + half) mod t).
    pose proof (Z.mod_pos_bound (Z.abs v + half) t).
    pose proof (Z.div_mod (Z.abs v + half) t). lia. }
  destruct Hd as (k & r & Hk & Hr & ->).
  assert (Hh : 0 <= half) by (unfold half; destruct (v <? 0); apply Z.div_pos; lia).
  assert (0 <= k) by nia.
  subst half. destruct (Z.ltb_spec v 0).
  - rewrite (nearest_tick_unique v t (- k)); nia || Z.to_euclidean_division_equations; nia.
  - rewrite (nearest_tick_unique v t k); nia || Z.to_euclidean_division_equations; nia.
Qed.

Lemma nearest_tick_sign v t :
  0 < t -> (v < 0 -> nearest_tick v t <= 0) /\ (0 <= v -> 0 <= nearest_tick v t).
Proof.
  intros Ht. unfold nearest_tick. split; intros.
  - assert ((2 * v + t) / (2 * t) < 1) by (apply Z.div_lt_upper_bound; lia). nia.
  - assert (0 <= (2 * v + t) / (2 * t)) by (apply Z.div_pos; lia). nia.
Qed.

(** The unsigned computation of [round_to_tick] never wraps. *)
Lemma rounded_magnitude v t :
  is_int64 v -> is_int64 t -> 0 < t ->
  let half := if v <? 0 then to_u64 (to_u64 t - 1) / 2 else to_u64 t / 2 in
  to_u64 (to_u64 (magnitude v + half) / to_u64 t * to_u64 t) = Z.abs (nearest_tick v t).
Proof.
  intros Hv Ht Hpos half. rewrite magnitude_abs by done.
  pose proof (biased_round v t Hpos) as Hb. cbv zeta in Hb.
  pose proof (nearest_tick_bounds v t Hpos).
  unfold_ints. subst half. rewrite (to_u64_small t) by lia.
  rewrite (to_u64_small (t - 1)) by lia.
  set (half := if v <? 0 then (t - 1) / 2 else t / 2) in *.
  assert (0 <= half < 2 ^ 62).
  { unfold half. destruct (v <? 0); Z.to_euclidean_division_equations; lia. }
  rewrite (to_u64_small (Z.abs v + half)) by lia. rewrite Hb.
  apply to_u64_small. lia.
Qed.

(** [Price::round_to_tick] is total on [int64]: for a positive tick it is the
    nearest multiple of the tick, halves rounded towards plus infinity, whenever
    that multiple is an [int64]; otherwise, and for a non-positive tick, the
    price comes back unchanged. Nothing wraps and nothing is clamped. *)
Theorem round_to_tick_correct (v t : Z) (Hv : is_int64 v) (Ht : is_int64 t) :
  round_to_tick (from_paise v) (from_paise t) =
  from_paise (if bool_decide (0 < t /\ is_int64 (nearest_tick v t))
              then nearest_tick v t else v).
Proof.
  unfold round_to_tick. simpl. destruct (Z.leb_spec t 0).
  { rewrite bool_decide_eq_false_2 by lia. done. }
  pose proof (rounded_magnitude v t Hv Ht ltac:(lia)) as Hr. cbv zeta in Hr. rewrite Hr.
  destruct (nearest_tick_sign v t ltac:(lia)) as [Hneg Hnn].
  change (to_u64 int64_max) with (2 ^ 63 - 1). change (to_u64 (2 ^ 63 - 1 + 1)) with (2 ^ 63).
  destruct (Z.ltb_spec v 0) as [Hs|Hs]; split_match; to_prop;
    first [rewrite bool_decide_eq_false_2 by (unfold_ints; lia); done
          |rewrite bool_decide_eq_true_2 by (unfold_ints; lia)]; f_equal.
  - rewrite to_i64_u64_neg by lia. lia.
  - rewrite to_i64_small by (unfold_ints; lia). lia.
Qed.

Lemma round_to_tick_correct_witness :
  round_to_tick (from_paise (-25)) (from_paise 10) = from_paise (-20) /\
  round_to_tick (from_paise int64_max) (from_paise 10) = from_paise int64_max.
Proof.
  split.
  - rewrite (round_to_tick_correct (-25) 10); [reflexivity | | ];
      unfold_ints; lia.
  - rewrite (round_to_tick_correct int64_max 10); [reflexivity | | ];
      unfold_ints; lia.
Defined.
