(* ===== verification/Decimal.v ===== *)
(** * Decimal: fail-closed decimal text and integer paise
      (include/broker_exec/domain/decimal_paise.hpp)

    [parse_int64], [parse_decimal_paise] and [paise_to_decimal], loop by loop,
    and the grammar they decide. *)

From S2P Require Import Prelude Domain.

(** ** Operations *)

Definition is_ascii_space (c : ascii) : bool :=
  bool_decide (c = " "%char) || bool_decide (c = "009"%char) ||
  bool_decide (c = "013"%char) || bool_decide (c = "010"%char).

Fixpoint drop_spaces (l : list ascii) : list ascii :=
  match l with
  | [] => []
  | c :: r => if is_ascii_space c then drop_spaces r else l
  end.

Definition trim_ascii (l : list ascii) : list ascii :=
  rev (drop_spaces (rev (drop_spaces l))).

(** Append one digit, refusing to overflow. *)
Definition push_digit (value : Z) (digit : ascii) : option Z :=
  let d := digit_value digit in
  if (int64_max - d) / 10 <? value then None else Some (value * 10 + d).

Fixpoint int_loop (l : list ascii) (value : Z) (any_digit : bool) : option (Z * bool) :=
  match l with
  | [] => Some (value, any_digit)
  | c :: r =>
      if negb (is_ascii_digit c) then None else
      match push_digit value c with
      | None => None
      | Some v => int_loop r v true
      end
  end.

(** The optional leading sign: (negative, rest). *)
Definition read_sign (l : list ascii) : bool * list ascii :=
  match l with
  | c :: r =>
      if bool_decide (c = "-"%char) then (true, r)
      else if bool_decide (c = "+"%char) then (false, r) else (false, l)
  | [] => (false, [])
  end.

Definition parse_int64 (input : string) : option Z :=
  let s := trim_ascii (chars input) in
  if bool_decide (s = []) then None else
  let '(negative, body) := read_sign s in
  match int_loop body 0 false with
  | Some (value, true) => Some (if negative then - value else value)
  | _ => None
  end.

(** The loop up to the first dot: (rupees, any_digit, rest from the dot). *)
Fixpoint rupee_loop (l : list ascii) (rupees : Z) (any_digit : bool) :
    option (Z * bool * list ascii) :=
  match l with
  | [] => Some (rupees, any_digit, [])
  | c :: r =>
      if bool_decide (c = "."%char) then Some (rupees, any_digit, l) else
      if negb (is_ascii_digit c) then None else
      match push_digit rupees c with
      | None => None
      | Some v => rupee_loop r v true
      end
  end.

(** The loop after the dot: two digits count, the others must be digits. *)
Fixpoint frac_loop (l : list ascii) (frac : Z) (frac_digits : nat) (any_digit : bool) :
    option (Z * nat * bool) :=
  match l with
  | [] => Some (frac, frac_digits, any_digit)
  | c :: r =>
      if negb (is_ascii_digit c) then None else
      if (frac_digits <? 2)%nat
      then frac_loop r (frac * 10 + digit_value c) (S frac_digits) true
      else frac_loop r frac frac_digits true
  end.

Definition parse_decimal_paise (input : string) : option Z :=
  let s := trim_ascii (chars input) in
  if bool_decide (s = []) then None else
  let '(negative, body) := read_sign s in
  match rupee_loop body 0 false with
  | None => None
  | Some (rupees, any1, rest) =>
      match
        match rest with
        | _dot :: r => frac_loop r 0 0 any1
        | [] => Some (0, 0%nat, any1)
        end
      with
      | None => None
      | Some (frac0, n, any_digit) =>
          if negb any_digit then None else
          let frac := Nat.iter (2 - n) (fun f => f * 10) frac0 in
          if (int64_max - frac) / 100 <? rupees then None else
          let paise := rupees * 100 + frac in
          Some (if negative then - paise else paise)
      end
  end.

Definition paise_to_decimal (paise : Z) : string :=
  let negative := paise <? 0 in
  let mag := magnitude paise in
  let out := pretty (mag / 100) +:+ "." in
  let frac := mag mod 100 in
  let out := (if frac <? 10 then out +:+ "0" else out) +:+ pretty frac in
  if negative then "-" +:+ out else out.

(** ** The grammar *)

(** The two significant fractional digits, zero-padded. *)
Definition frac_value (l : list ascii) : Z :=
  match l with
  | [] => 0
  | [d] => 10 * digit_value d
  | d1 :: d2 :: _ => 10 * digit_value d1 + digit_value d2
  end.

Definition sign_text (l : list ascii) (negative : bool) : Prop :=
  (l = ["-"%char] /\ negative = true) \/ ((l = [] \/ l = ["+"%char]) /\ negative = false).

(** [decimal_paise l v]: [l] is [sign digits [. digits]], at least one digit, and
    [v] its value in paise, representable without overflow. *)
Inductive decimal_paise (l : list ascii) : Z -> Prop :=
  decimal_paise_intro sg neg ip dot fp :
    sign_text sg neg ->
    digits ip -> digits fp -> ip ++ fp <> [] ->
    (dot = [] /\ fp = [] \/ dot = ["."%char]) ->
    l = sg ++ ip ++ dot ++ fp ->
    dec_value ip * 100 + frac_value fp <= int64_max ->
    decimal_paise l
      (let p := dec_value ip * 100 + frac_value fp in if neg then - p else p).

(** ** Loop lemmas *)

Lemma push_digit_spec v c w :
  push_digit v c = Some w <-> w = 10 * v + digit_value c /\ w <= int64_max.
Proof.
  unfold push_digit. unfold_ints. destruct (Z.ltb_spec ((2 ^ 63 - 1 - digit_value c) / 10) v) as [H|H].
  - split; [done|]. intros [-> H2]. exfalso.
    apply (Z.lt_irrefl v). eapply Z.le_lt_trans; [|exact H].
    apply Z.div_le_lower_bound; lia.
  - assert (10 * v <= 2 ^ 63 - 1 - digit_value c).
    { pose proof (Z.mul_div_le (2 ^ 63 - 1 - digit_value c) 10). lia. }
    split; [intros [= <-]; lia|]. intros [-> _]. f_equal. lia.
Qed.

Lemma digit_not_dot c : is_ascii_digit c = true -> c <> "."%char.
Proof. by intros H ->. Qed.
Lemma digit_not_sign c : is_ascii_digit c = true -> c <> "-"%char /\ c <> "+"%char.
Proof. intros H; split; by intros ->. Qed.
Lemma digit_not_space c : is_ascii_digit c = true -> is_ascii_space c = false.
Proof.
  intros H. unfold is_ascii_space.
  repeat rewrite bool_decide_eq_false_2 by (by intros ->). done.
Qed.

Lemma rupee_loop_spec l v any r any' rest :
  0 <= v ->
  rupee_loop l v any = Some (r, any', rest) <->
  exists ip, l = ip ++ rest /\ digits ip /\ (rest = [] \/ exists t, rest = "."%char :: t) /\
    r = dec_value_from v ip /\ (ip = [] \/ r <= int64_max) /\
    any' = any || negb (bool_decide (ip = [])).
Proof.
  revert v any. induction l as [|c l IH]; intros v any Hv; simpl.
  - split.
    + intros [= -> -> <-]. exists []. rewrite bool_decide_eq_true_2, orb_false_r by done.
      repeat split; auto. constructor.
    + intros ([|] & H & ? & ? & -> & ? & ->); simplify_list_eq.
      by rewrite orb_false_r.
  - case_bool_decide as Hdot.
    { subst c. split.
      - intros [= -> -> <-]. exists []. rewrite bool_decide_eq_true_2, orb_false_r by done.
        repeat split; eauto. constructor.
      - intros ([|d ip] & H & Hd & ? & -> & ? & ->); simplify_list_eq.
        + by rewrite orb_false_r.
        + by apply Forall_cons in Hd as [? _]. }
    destruct (is_ascii_digit c) eqn:Hc; simpl.
    2:{ split; [done|]. intros ([|d ip] & H & Hd & Hr & _); simplify_list_eq.
        - destruct Hr as [?|[? ?]]; simplify_eq.
        - apply Forall_cons in Hd as [? _]. congruence. }
    pose proof (digit_value_range c Hc).
    destruct (push_digit v c) as [w|] eqn:Hp.
    + apply push_digit_spec in Hp as [-> Hw]. rewrite IH by lia. split.
      * intros (ip & -> & Hd & Hr & -> & Hb & ->). exists (c :: ip).
        repeat split; auto; [by constructor| |by rewrite orb_true_r].
        right. destruct Hb as [->|]; done.
      * intros ([|d ip] & H' & Hd & Hr & -> & Hb & ->); simplify_list_eq.
        { destruct Hr as [?|[? ?]]; simplify_eq. }
        apply Forall_cons in Hd as [_ Hd]. exists ip. repeat split; auto.
        -- destruct Hb; [done|auto].
        -- by rewrite orb_true_r.
    + split; [done|]. intros ([|d ip] & H' & Hd & Hr & -> & Hb & ->); simplify_list_eq.
      { destruct Hr as [?|[? ?]]; simplify_eq. }
      apply Forall_cons in Hd as [_ Hd]. destruct Hb as [?|Hb]; [done|]. exfalso.
      pose proof (dec_value_from_mono (10 * v + digit_value d) ip Hd ltac:(lia)).
      assert (push_digit v d = Some (10 * v + digit_value d)) as E; [|congruence].
      apply push_digit_spec. split; [done|]. cbn in Hb. unfold dec_value_from in *. lia.
Qed.

Lemma frac_loop_spec l f n any r :
  frac_loop l f n any = Some r <->
  digits l /\
  r = (fold_left (fun v c => v * 10 + digit_value c) (take (2 - n) l) f,
       (n + length (take (2 - n) l))%nat, any || negb (bool_decide (l = []))).
Proof.
  revert f n any. induction l as [|c l IH]; intros f n any; simpl.
  - rewrite take_nil. simpl. rewrite orb_false_r, Nat.add_0_r.
    split; [intros [= <-]; repeat split; constructor | intros [_ ->]; done].
  - destruct (is_ascii_digit c) eqn:Hc; simpl.
    2:{ split; [done|]. intros [H _]. apply Forall_cons in H as [? _]. congruence. }
    assert (digits (c :: l) <-> digits l) as ->.
    { split; [by intros [_ ?]%Forall_cons|by constructor]. }
    rewrite orb_true_r.
    destruct (Nat.ltb_spec n 2) as [Hn|Hn]; rewrite IH; apply and_iff_compat_l; simpl.
    + replace (2 - n)%nat with (S (2 - S n)) by lia. simpl.
      by rewrite Nat.add_succ_r.
    + replace (2 - n)%nat with 0%nat by lia. by rewrite !take_0.
Qed.

Lemma frac_pad l :
  Nat.iter (2 - length (take 2 l)) (fun f => f * 10)
    (fold_left (fun v c => v * 10 + digit_value c) (take 2 l) 0) = frac_value l.
Proof. destruct l as [|a [|b l]]; simpl; lia. Qed.

Lemma frac_value_range l : digits l -> 0 <= frac_value l < 100.
Proof.
  intros H. destruct l as [|a [|b l]]; simpl; [lia|..];
    apply Forall_cons in H as [Ha%digit_value_range H]; [lia|].
  apply Forall_cons in H as [Hb%digit_value_range _]. lia.
Qed.

(** Scaling to paise is checked exactly. *)
Lemma scale_check r f :
  ((int64_max - f) / 100 <? r) = false <-> r * 100 + f <= int64_max.
Proof.
  rewrite Z.ltb_ge. unfold_ints. split; intros.
  - pose proof (Z.mul_div_le (2 ^ 63 - 1 - f) 100). lia.
  - apply Z.div_le_lower_bound; lia.
Qed.

(** The sign is read off the front of the text, and only there. *)
Lemma read_sign_sound l neg body :
  read_sign l = (neg, body) -> exists sg, sign_text sg neg /\ l = sg ++ body.
Proof.
  unfold read_sign, sign_text. destruct l as [|c l].
  { intros [= <- <-]. exists []. auto. }
  repeat case_bool_decide; intros; simplify_eq; [exists ["-"%char]|exists ["+"%char]|exists []]; auto.
Qed.

Lemma read_sign_complete sg neg body :
  sign_text sg neg -> (forall c, head body = Some c -> c <> "-"%char /\ c <> "+"%char) ->
  read_sign (sg ++ body) = (neg, body).
Proof.
  intros [[-> ->]|[[->| ->] ->]] Hb; simpl; [done| |done].
  destruct body as [|c body]; [done|]. destruct (Hb c eq_refl).
  unfold read_sign. by rewrite !bool_decide_eq_false_2.
Qed.

(** [int_text l v]: [l] is [sign? digits] and [v] its value, within [int64]. *)
Inductive int_text (l : list ascii) : Z -> Prop :=
  int_text_intro sg neg ip :
    sign_text sg neg -> digits ip -> ip <> [] -> l = sg ++ ip -> dec_value ip <= int64_max ->
    int_text l (if neg then - dec_value ip else dec_value ip).

Lemma int_loop_spec l v any r any' :
  0 <= v ->
  int_loop l v any = Some (r, any') <->
  digits l /\ r = dec_value_from v l /\ (l = [] \/ r <= int64_max) /\ any' = any || negb (bool_decide (l = [])).
Proof.
  revert v any. induction l as [|c l IH]; intros v any Hv; simpl.
  - rewrite orb_false_r. split; [intros [= -> ->]; repeat split; auto; constructor|by intros (_ & -> & _ & ->)].
  - destruct (is_ascii_digit c) eqn:Hc; simpl.
    2:{ split; [done|]. intros [Hd _]. apply Forall_cons in Hd as [? _]. congruence. }
    pose proof (digit_value_range c Hc). rewrite orb_true_r.
    destruct (push_digit v c) as [w|] eqn:Hp.
    + apply push_digit_spec in Hp as [-> Hw]. rewrite IH by lia. split.
      * intros (Hd & -> & Hb & ->). repeat split; auto; [by constructor|].
        right. destruct Hb as [->|]; done.
      * intros (Hd & -> & Hb & ->). apply Forall_cons in Hd as [_ Hd].
        repeat split; auto. destruct Hb; [done|auto].
    + split; [done|]. intros (Hd & -> & Hb & ->). apply Forall_cons in Hd as [_ Hd].
      destruct Hb as [?|Hb]; [done|]. exfalso.
      pose proof (dec_value_from_mono (10 * v + digit_value c) l Hd ltac:(lia)).
      assert (push_digit v c = Some (10 * v + digit_value c)) as E; [|congruence].
      apply push_digit_spec. split; [done|]. cbn in Hb. unfold dec_value_from in *. lia.
Qed.

(** [parse_int64] decides the grammar. *)
Lemma parse_int64_spec (input : string) (v : Z) :
  parse_int64 input = Some v <-> int_text (trim_ascii (chars input)) v.
Proof.
  unfold parse_int64. set (s := trim_ascii (chars input)). split.
  - case_bool_decide as Hs; [done|]. destruct (read_sign s) as [neg body] eqn:Hsg.
    destruct (int_loop body 0 false) as [[r []]|] eqn:Hl; try done. intros [= <-].
    apply read_sign_sound in Hsg as (sg & Hsg & ->).
    apply int_loop_spec in Hl as (Hd & -> & Hb & Ha); [|lia].
    case_bool_decide as Hne; [done|]. destruct Hb; [done|]. by eapply (int_text_intro _ sg neg body).
  - intros [sg neg ip Hsg Hd Hne Hs Hmax].
    rewrite bool_decide_eq_false_2 by (rewrite Hs; intros [_ ?]%app_nil; done).
    rewrite Hs, (read_sign_complete sg neg ip); [|done|].
    + rewrite (proj2 (int_loop_spec ip 0 false (dec_value ip) true ltac:(lia))); [done|].
      rewrite bool_decide_eq_false_2 by done. auto.
    + intros c Hc. destruct ip as [|d ip]; simplify_eq/=. apply Forall_cons in Hd as [Hd _]. by apply digit_not_sign.
Qed.

(** [parse_decimal_paise] after trimming and sign: the number proper. *)
Definition parse_body (body : list ascii) : option Z :=
  match rupee_loop body 0 false with
  | None => None
  | Some (rupees, any1, rest) =>
      match
        match rest with
        | _dot :: r => frac_loop r 0 0 any1
        | [] => Some (0, 0%nat, any1)
        end
      with
      | None => None
      | Some (frac0, n, any_digit) =>
          if negb any_digit then None else
          let frac := Nat.iter (2 - n) (fun f => f * 10) frac0 in
          if (int64_max - frac) / 100 <? rupees then None else Some (rupees * 100 + frac)
      end
  end.

Lemma parse_decimal_body input :
  parse_decimal_paise input =
  let s := trim_ascii (chars input) in
  if bool_decide (s = []) then None else
  let '(negative, body) := read_sign s in
  p ← parse_body body; Some (if negative then - p else p).
Proof.
  unfold parse_decimal_paise, parse_body. repeat split_match; simplify_eq/=; done.
Qed.

Lemma parse_body_spec body p :
  parse_body body = Some p <->
  exists ip dot fp, digits ip /\ digits fp /\ ip ++ fp <> [] /\
    (dot = [] /\ fp = [] \/ dot = ["."%char]) /\ body = ip ++ dot ++ fp /\
    p = dec_value ip * 100 + frac_value fp /\ p <= int64_max.
Proof.
  unfold parse_body. split.
  - destruct (rupee_loop body 0 false) as [[[r a] rest]|] eqn:Hr; [|done].
    apply rupee_loop_spec in Hr; [|lia]. destruct Hr as (ip & -> & Hip & Hrest & -> & _ & ->).
    destruct Hrest as [->|[t ->]].
    + split_match; [done|]. split_match; [done|]. intros [= <-].
      apply scale_check in Heqb0. exists ip, [], []. rewrite !app_nil_r.
      repeat split; auto; [constructor|]. by case_bool_decide.
    + destruct (frac_loop t 0 0 _) as [[[f n] b]|] eqn:Hf; [|done].
      apply frac_loop_spec in Hf as [Ht [= -> -> ->]]. rewrite ?Nat.sub_0_r, ?Nat.add_0_l, frac_pad.
      split_match; [done|]. split_match; [done|]. intros [= <-].
      apply scale_check in Heqb0. exists ip, ["."%char], t. repeat split; auto.
      intros [-> ->]%app_nil. by simpl in *.
  - intros (ip & dot & fp & Hip & Hfp & Hne & Hdot & -> & -> & Hmax).
    pose proof (frac_value_range fp Hfp). pose proof (dec_value_from_mono 0 ip Hip ltac:(lia)).
    assert (rupee_loop (ip ++ dot ++ fp) 0 false =
      Some (dec_value ip, negb (bool_decide (ip = [])), dot ++ fp)) as ->.
    { apply rupee_loop_spec; [lia|]. exists ip. repeat split; auto.
      - destruct Hdot as [[-> ->]| ->]; eauto.
      - right. unfold_ints. lia. }
    destruct Hdot as [[-> ->]| ->]; simpl app.
    + rewrite app_nil_r in Hne. rewrite bool_decide_eq_false_2 by done. simpl.
      change (0 * 10 * 10) with (frac_value []). by rewrite (proj2 (scale_check _ _) Hmax).
    + cbn beta iota. rewrite (proj2 (frac_loop_spec fp 0 0 _ _)) by (split; [done|reflexivity]).
      rewrite ?Nat.sub_0_r, ?Nat.add_0_l, frac_pad, (proj2 (scale_check _ _) Hmax).
      destruct (decide (ip = [])) as [->|?]; simpl in *.
      * by rewrite bool_decide_eq_false_2 by done.
      * by rewrite bool_decide_eq_false_2 by done.
Qed.

(** [parse_decimal_paise] is exactly the documented grammar: it returns [v]
    iff the trimmed text is [sign? digits* (. digits* )?] with at least one digit
    and its value in paise is [v] without leaving [int64]; every other input,
    malformed or overflowing, is rejected and never coerced. *)
Theorem parse_decimal_paise_spec (input : string) (v : Z) :
  parse_decimal_paise input = Some v <-> decimal_paise (trim_ascii (chars input)) v.
Proof.
  rewrite parse_decimal_body. cbv zeta. set (s := trim_ascii (chars input)). split.
  - case_bool_decide as Hs; [done|]. destruct (read_sign s) as [neg body] eqn:Hsg.
    destruct (parse_body body) as [p|] eqn:Hp; [|done]. intros [= <-].
    apply read_sign_sound in Hsg as (sg & Hsg & ->).
    apply parse_body_spec in Hp as (ip & dot & fp & ? & ? & ? & ? & -> & -> & ?).
    by eapply (decimal_paise_intro _ sg neg ip dot fp).
  - intros [sg neg ip dot fp Hsg Hip Hfp Hne Hdot Hs Hmax].
    rewrite bool_decide_eq_false_2.
    2:{ rewrite Hs. intros E. apply app_nil in E as [_ E].
        apply app_nil in E as [-> E]. apply app_nil in E as [_ ->]. done. }
    rewrite Hs, (read_sign_complete sg neg (ip ++ dot ++ fp)); [|done|].
    + rewrite (proj2 (parse_body_spec _ (dec_value ip * 100 + frac_value fp))); [done|].
      exists ip, dot, fp. auto 10.
    + intros c Hc. destruct ip as [|d ip]; simpl in Hc.
      * destruct Hdot as [[-> ->]| ->]; simplify_eq/=; done.
      * simplify_eq. apply Forall_cons in Hip as [Hd _]. by apply digit_not_sign.
Qed.

Example parse_decimal_samples :
  parse_decimal_paise " -12.345 " = Some (-1234) /\ parse_decimal_paise "12.3.4" = None /\
  parse_decimal_paise "1,450.25" = None /\ parse_decimal_paise "99999999999999999999" = None.
Proof. vm_compute. auto. Qed.

(** ** Round trip *)

Lemma drop_spaces_id l : Forall (fun c => is_ascii_space c = false) l -> drop_spaces l = l.
Proof. intros [|c r Hc _]; simpl; [done|by rewrite Hc]. Qed.

Lemma trim_ascii_id l : Forall (fun c => is_ascii_space c = false) l -> trim_ascii l = l.
Proof.
  intros H. unfold trim_ascii. rewrite (drop_spaces_id l) by done.
  rewrite drop_spaces_id by (by apply Forall_rev). apply rev_involutive.
Qed.

(** The two fractional digits the printers emit. *)
Definition two_digits (f : Z) : list ascii :=
  chars ((if f <? 10 then "0" else "") +:+ pretty f).

Lemma two_digits_spec f :
  0 <= f < 100 -> digits (two_digits f) /\ frac_value (two_digits f) = f /\ two_digits f <> [].
Proof.
  intros Hf.
  assert (forallb (fun n =>
    match two_digits (Z.of_nat n) with
    | [a; b] => is_ascii_digit a && is_ascii_digit b &&
                (10 * digit_value a + digit_value b =? Z.of_nat n)
    | _ => false
    end) (seq 0 100) = true) as H by (vm_compute; reflexivity).
  rewrite forallb_forall in H. specialize (H (Z.to_nat f) ltac:(apply in_seq; lia)).
  rewrite Z2Nat.id in H by lia.
  destruct (two_digits f) as [|a [|b [|]]]; try done.
  apply andb_true_iff in H as [[Ha Hb]%andb_true_iff Hv%Z.eqb_eq].
  repeat split; [by repeat constructor|done|done].
Qed.

Lemma paise_to_decimal_chars p :
  is_int64 p ->
  chars (paise_to_decimal p) =
  (if p <? 0 then ["-"%char] else []) ++
  chars (pretty (Z.abs p / 100)) ++ ["."%char] ++ two_digits (Z.abs p mod 100).
Proof.
  intros Hp. unfold paise_to_decimal, two_digits. rewrite magnitude_abs by done.
  repeat split_match; autorewrite with strs; simpl; rewrite <- ?app_assoc; done.
Qed.

(** The printers of money.cpp and decimal_paise.hpp agree. *)
Lemma format_paise_eq p : format_paise p = paise_to_decimal p.
Proof.
  unfold format_paise, paise_to_decimal.
  repeat split_match; simpl; autorewrite with strs; done.
Qed.

Lemma paise_to_decimal_grammar p :
  is_int64 p -> p <> int64_min -> decimal_paise (trim_ascii (chars (paise_to_decimal p))) p.
Proof.
  intros Hp Hmin. rewrite paise_to_decimal_chars by done.
  assert (0 <= Z.abs p / 100) by (apply Z.div_pos; lia).
  destruct (pretty_Z_digits (Z.abs p / 100) ltac:(done)) as (Hd & Hne & Hval).
  destruct (two_digits_spec (Z.abs p mod 100) ltac:(apply Z.mod_pos_bound; lia))
    as (Hd2 & Hv2 & Hne2).
  pose proof (Z.div_mod (Z.abs p) 100 ltac:(lia)) as Hdm.
  rewrite trim_ascii_id.
  2:{ repeat apply Forall_app_2; [destruct (p <? 0); by repeat constructor| |by repeat constructor|];
      (eapply Forall_impl; [eassumption|]); intros c Hc; by apply digit_not_space. }
  replace p with (let q := dec_value (chars (pretty (Z.abs p / 100))) * 100 +
      frac_value (two_digits (Z.abs p mod 100)) in if p <? 0 then - q else q) at 4.
  - apply (decimal_paise_intro _ (if p <? 0 then ["-"%char] else []) (p <? 0)
      (chars (pretty (Z.abs p / 100))) ["."%char] (two_digits (Z.abs p mod 100))); auto.
    + unfold sign_text. destruct (p <? 0); auto.
    + intros [? ?]%app_nil; done.
    + unfold_ints. lia.
  - cbv zeta. rewrite Hval, Hv2. destruct (Z.ltb_spec p 0); lia.
Qed.

(** printing integer paise and parsing the text back is the identity on the
    whole [int64] range except [INT64_MIN], whose text is refused (its magnitude
    is not an [int64]) rather than wrapped. *)
Theorem decimal_roundtrip (p : Z) (Hp : is_int64 p) :
  parse_decimal_paise (paise_to_decimal p) =
  if bool_decide (p = int64_min) then None else Some p.
Proof.
  case_bool_decide as Hmin; [subst; vm_compute; reflexivity|].
  by apply parse_decimal_paise_spec, paise_to_decimal_grammar.
Qed.

Lemma decimal_roundtrip_witness :
  parse_decimal_paise (paise_to_decimal (-5)) = Some (-5).
Proof.
  exact (decimal_roundtrip (-5) ltac:(unfold_ints; lia)).
Defined.
