(* ===== verification/Sha256.v ===== *)
(** * Sha256: the streaming hash (src/src/intentlog/sha256.cpp)

    [update] feeds one byte at a time into a 64-byte buffer, [hex] pads by a
    loop and prints; both are shown to implement the block-wise definition of
    SHA-256 over the padded message. *)

From S2P Require Import Prelude.

(** ** 32-bit words *)

Definition w32 (z : Z) : Z := z mod 2 ^ 32.
Definition add32 (a b : Z) : Z := w32 (a + b).
Definition not32 (a : Z) : Z := Z.lxor a (2 ^ 32 - 1).
Definition rotr (x n : Z) : Z := Z.lor (Z.shiftr x n) (w32 (Z.shiftl x (32 - n))).

Definition kRoundConstants : list Z :=
  Eval cbv in concat
   [[0x428a2f98; 0x71374491; 0xb5c0fbcf; 0xe9b5dba5; 0x3956c25b; 0x59f111f1; 0x923f82a4];
    [0xab1c5ed5; 0xd807aa98; 0x12835b01; 0x243185be; 0x550c7dc3; 0x72be5d74; 0x80deb1fe];
    [0x9bdc06a7; 0xc19bf174; 0xe49b69c1; 0xefbe4786; 0x0fc19dc6; 0x240ca1cc; 0x2de92c6f];
    [0x4a7484aa; 0x5cb0a9dc; 0x76f988da; 0x983e5152; 0xa831c66d; 0xb00327c8; 0xbf597fc7];
    [0xc6e00bf3; 0xd5a79147; 0x06ca6351; 0x14292967; 0x27b70a85; 0x2e1b2138; 0x4d2c6dfc];
    [0x53380d13; 0x650a7354; 0x766a0abb; 0x81c2c92e; 0x92722c85; 0xa2bfe8a1; 0xa81a664b];
    [0xc24b8b70; 0xc76c51a3; 0xd192e819; 0xd6990624; 0xf40e3585; 0x106aa070; 0x19a4c116];
    [0x1e376c08; 0x2748774c; 0x34b0bcb5; 0x391c0cb3; 0x4ed8aa4a; 0x5b9cca4f; 0x682e6ff3];
    [0x748f82ee; 0x78a5636f; 0x84c87814; 0x8cc70208; 0x90befffa; 0xa4506ceb; 0xbef9a3f7];
    [0xc67178f2]].

(** ** The compression function *)

Definition at_ (l : list Z) (i : nat) : Z := nth i l 0.

Definition load_word (block : list Z) (i : nat) : Z :=
  Z.lor (Z.lor (Z.lor (Z.shiftl (at_ block (4 * i)) 24) (Z.shiftl (at_ block (4 * i + 1)) 16))
    (Z.shiftl (at_ block (4 * i + 2)) 8)) (at_ block (4 * i + 3)).

Definition extend (w : list Z) (i : nat) : list Z :=
  let s0 := Z.lxor (Z.lxor (rotr (at_ w (i - 15)) 7) (rotr (at_ w (i - 15)) 18))
              (Z.shiftr (at_ w (i - 15)) 3) in
  let s1 := Z.lxor (Z.lxor (rotr (at_ w (i - 2)) 17) (rotr (at_ w (i - 2)) 19))
              (Z.shiftr (at_ w (i - 2)) 10) in
  w ++ [add32 (add32 (add32 (at_ w (i - 16)) s0) (at_ w (i - 7))) s1].

Definition schedule (block : list Z) : list Z :=
  fold_left extend (seq 16 48) (map (load_word block) (seq 0 16)).

Definition round (w : list Z) (v : list Z) (i : nat) : list Z :=
  match v with
  | [a; b; c; d; e; f; g; h] =>
      let s1 := Z.lxor (Z.lxor (rotr e 6) (rotr e 11)) (rotr e 25) in
      let ch := Z.lxor (Z.land e f) (Z.land (not32 e) g) in
      let temp1 := add32 (add32 (add32 (add32 h s1) ch) (at_ kRoundConstants i)) (at_ w i) in
      let s0 := Z.lxor (Z.lxor (rotr a 2) (rotr a 13)) (rotr a 22) in
      let maj := Z.lxor (Z.lxor (Z.land a b) (Z.land a c)) (Z.land b c) in
      let temp2 := add32 s0 maj in
      [add32 temp1 temp2; a; b; c; add32 d temp1; e; f; g]
  | _ => v
  end.

Definition transform (state block : list Z) : list Z :=
  let w := schedule block in
  let v := fold_left (round w) (seq 0 64) state in
  zip_with add32 state v.

(** ** The streaming object *)

(** [buffer] holds the first [buffer_len_] bytes of [buffer_]. *)
Record Sha256 := mkSha256 { sha_state : list Z; buffer : list Z; bit_len : Z }.

Definition sha256_init : Sha256 :=
  mkSha256 [0x6a09e667; 0xbb67ae85; 0x3c6ef372; 0xa54ff53a;
            0x510e527f; 0x9b05688c; 0x1f83d9ab; 0x5be0cd19] [] 0.

Definition update_byte (s : Sha256) (byte : Z) : Sha256 :=
  let buf := buffer s ++ [byte] in
  let bits := to_u64 (bit_len s + 8) in
  if (length buf =? 64)%nat
  then mkSha256 (transform (sha_state s) buf) [] bits
  else mkSha256 (sha_state s) buf bits.

Definition update (s : Sha256) (data : list Z) : Sha256 := fold_left update_byte data s.

(** [while (buffer_len_ != 56) update(&pad, 1)]; 64 iterations are enough. *)
Fixpoint pad_loop (fuel : nat) (s : Sha256) : Sha256 :=
  if (length (buffer s) =? 56)%nat then s else
  match fuel with
  | O => s
  | S fuel => pad_loop fuel (update_byte s 0)
  end.

Definition length_bytes (total_bits : Z) : list Z :=
  map (fun i => Z.land (Z.shiftr total_bits (56 - Z.of_nat i * 8)) 0xff) (seq 0 8).

(** The state after padding and the final [transform]. *)
Definition finish (s : Sha256) : list Z :=
  let total_bits := bit_len s in
  let s := pad_loop 64 (update_byte s 0x80) in
  transform (sha_state s) (buffer s ++ length_bytes total_bits).

Definition hex_digit (n : Z) : ascii :=
  nth (Z.to_nat n) (chars "0123456789abcdef") "0"%char.

Definition word_hex (word : Z) : list ascii :=
  flat_map (fun shift =>
    let byte := Z.land (Z.shiftr word (24 - Z.of_nat shift * 8)) 0xff in
    [hex_digit (Z.land (Z.shiftr byte 4) 0x0f); hex_digit (Z.land byte 0x0f)]) (seq 0 4).

Definition hex (s : Sha256) : string :=
  str (flat_map (fun i => word_hex (at_ (finish s) i)) (seq 0 8)).

Definition bytes_of (s : string) : list Z := map (fun c => Z.of_nat (nat_of_ascii c)) (chars s).

Definition sha256_hex (data : string) : string := hex (update sha256_init (bytes_of data)).

Example sha256_abc :
  sha256_hex "abc" = "ba7816bf8f01cfea414140de5dae2223b00361a396177a9cb410ff61f20015ad".
Proof. vm_compute. reflexivity. Qed.

Example sha256_empty :
  sha256_hex "" = "e3b0c44298fc1c149afbf4c8996fb92427ae41e4649b934ca495991b7852b855".
Proof. vm_compute. reflexivity. Qed.

(** ** Reference: SHA-256 over the padded message, block by block *)

Fixpoint blocks (n : nat) (l : list Z) : list (list Z) :=
  match n with
  | O => []
  | S n => take 64 l :: blocks n (drop 64 l)
  end.

Definition compress_all (state l : list Z) : list Z :=
  fold_left transform (blocks (length l / 64) l) state.

(** Zero bytes that bring [len + 1] to 56 modulo 64. *)
Definition zero_count (len : nat) : nat := ((119 - len mod 64) mod 64)%nat.

(** FIPS 180-4 padding: a one bit, zeros, the length in bits as 64 bits. *)
Definition padded (msg : list Z) : list Z :=
  msg ++ [0x80] ++ replicate (zero_count (length msg)) 0 ++
  length_bytes (to_u64 (8 * Z.of_nat (length msg))).

Definition reference_digest (msg : list Z) : list Z :=
  compress_all (sha_state sha256_init) (padded msg).

#[local] Opaque transform.

Lemma blocks_app n a b :
  length a = (64 * n)%nat -> blocks (n + length b / 64) (a ++ b) = blocks n a ++ blocks (length b / 64) b.
Proof.
  revert a. induction n as [|n IH]; intros a Ha; simpl.
  - by destruct a.
  - rewrite take_app_le, drop_app_le by lia. f_equal. apply IH.
    rewrite length_drop. lia.
Qed.

Lemma compress_all_app st a b :
  (length a mod 64 = 0)%nat -> compress_all st (a ++ b) = compress_all (compress_all st a) b.
Proof.
  intros Ha. unfold compress_all. rewrite length_app.
  assert (length a = 64 * (length a / 64))%nat as Hlen.
  { pose proof (Nat.div_mod_eq (length a) 64). lia. }
  assert ((length a + length b) / 64 = length a / 64 + length b / 64)%nat as ->.
  { rewrite Hlen at 1. rewrite Nat.mul_comm, Nat.div_add_l; lia. }
  by rewrite blocks_app, fold_left_app.
Qed.

Lemma compress_all_block st b : length b = 64%nat -> compress_all st b = transform st b.
Proof. intros H. unfold compress_all. rewrite H. simpl. by rewrite take_ge by lia. Qed.

(** ** The buffer invariant *)

(** What [s] has absorbed: the state covers the full blocks, the buffer holds
    the rest, and the bit counter counts modulo [2^64]. *)
Definition absorbed (s : Sha256) (l : list Z) : Prop :=
  exists full, l = full ++ buffer s /\ (length full mod 64 = 0)%nat /\
    (length (buffer s) < 64)%nat /\
    sha_state s = compress_all (sha_state sha256_init) full /\
    bit_len s = to_u64 (8 * Z.of_nat (length l)).

Lemma absorbed_init : absorbed sha256_init [].
Proof. exists []. repeat split; simpl; lia. Qed.

Lemma update_byte_absorbed s l b : absorbed s l -> absorbed (update_byte s b) (l ++ [b]).
Proof.
  intros (full & -> & Hfull & Hbuf & Hst & Hbits).
  assert (to_u64 (bit_len s + 8) =
    to_u64 (8 * Z.of_nat (length ((full ++ buffer s) ++ [b])))) as Hlen.
  { rewrite Hbits. unfold to_u64. rewrite Z.add_mod_idemp_l by lia. f_equal.
    rewrite !length_app. simpl. lia. }
  unfold update_byte. rewrite length_app, Hlen. simpl.
  destruct (Nat.eqb_spec (length (buffer s) + 1) 64) as [H|H].
  - exists (full ++ buffer s ++ [b]). cbn [sha_state buffer bit_len].
    rewrite <- app_assoc, app_nil_r. split_and!; [done| |simpl; lia| |done].
    + rewrite !length_app. change (length [b]) with 1%nat. by rewrite H, Nat.Div0.add_mod, Hfull.
    + rewrite compress_all_app by done. rewrite <- Hst, compress_all_block; [done|].
      rewrite length_app. simpl. lia.
  - exists full. cbn [sha_state buffer bit_len]. rewrite <- app_assoc, length_app. change (length [b]) with 1%nat. split_and!; try done. lia.
Qed.

Lemma update_absorbed s l data : absorbed s l -> absorbed (update s data) (l ++ data).
Proof.
  revert s l. induction data as [|b data IH]; intros s l Hs; simpl.
  - by rewrite app_nil_r.
  - rewrite cons_middle, app_assoc. by apply IH, update_byte_absorbed.
Qed.

Lemma absorbed_buffer s l : absorbed s l -> length (buffer s) = (length l mod 64)%nat.
Proof.
  intros (full & -> & Hfull & Hbuf & _).
  rewrite length_app, Nat.Div0.add_mod, Hfull, Nat.add_0_l, Nat.Div0.mod_mod.
  symmetry. by apply Nat.mod_small.
Qed.

(** The padding loop stops with 56 bytes buffered, after [k] zero bytes. *)
Lemma pad_loop_spec k fuel s l :
  absorbed s l -> ((length l + k) mod 64 = 56)%nat -> (k < 64)%nat -> (k <= fuel)%nat ->
  absorbed (pad_loop fuel s) (l ++ replicate k 0).
Proof.
  revert fuel s l. induction k as [|k IH]; intros fuel s l Hs Hk Hk64 Hf.
  - rewrite Nat.add_0_r in Hk. rewrite app_nil_r.
    pose proof (absorbed_buffer s l Hs) as Hb. rewrite Hk in Hb.
    destruct fuel; simpl; by rewrite Hb.
  - destruct fuel as [|fuel]; [lia|]. simpl.
    destruct (Nat.eqb_spec (length (buffer s)) 56) as [Hb|_].
    { exfalso. rewrite (absorbed_buffer s l Hs) in Hb.
      pose proof (Nat.div_mod_eq (length l) 64). rewrite Hb in *.
      rewrite (Nat.div_mod_eq (length l) 64), Hb in Hk.
      replace (64 * (length l / 64) + 56 + S k)%nat with (56 + S k + (length l / 64) * 64)%nat in Hk by lia.
      rewrite Nat.Div0.mod_add in Hk.
      destruct (Nat.lt_ge_cases (56 + S k) 64).
      - rewrite Nat.mod_small in Hk; lia.
      - replace (56 + S k)%nat with (S k - 8 + 1 * 64)%nat in Hk by lia.
        rewrite Nat.Div0.mod_add, Nat.mod_small in Hk; lia. }
    replace (l ++ 0 :: replicate k 0) with ((l ++ [0]) ++ replicate k 0) by (by rewrite <- app_assoc).
    apply IH; [by apply update_byte_absorbed| |lia|lia].
    rewrite length_app. change (length [0]) with 1%nat.
    by replace (length l + 1 + k)%nat with (length l + S k)%nat by lia.
Qed.

Lemma zero_count_spec n : ((n + 1 + zero_count n) mod 64 = 56)%nat /\ (zero_count n < 64)%nat.
Proof.
  unfold zero_count. split; [|apply Nat.mod_upper_bound; lia].
  rewrite Nat.Div0.add_mod_idemp_r.
  pose proof (Nat.div_mod_eq n 64). pose proof (Nat.mod_upper_bound n 64 ltac:(lia)).
  replace (n + 1 + (119 - n mod 64))%nat with (56 + (n / 64 + 1) * 64)%nat by lia.
  by rewrite Nat.Div0.mod_add.
Qed.

Lemma length_length_bytes b : length (length_bytes b) = 8%nat.
Proof. done. Qed.

(** the streaming implementation is SHA-256 over the padded message: feeding
    the message byte by byte, the padding loop (whose 64 iterations of fuel are
    enough) and the final transform compute the block-wise reference. *)
Theorem finish_reference (msg : list Z) :
  finish (update sha256_init msg) = reference_digest msg.
Proof.
  set (s := update sha256_init msg).
  assert (Hs : absorbed s msg) by apply (update_absorbed _ _ msg absorbed_init).
  destruct (zero_count_spec (length msg)) as [Hz Hz64].
  pose proof (update_byte_absorbed s msg 0x80 Hs) as H80.
  pose proof (pad_loop_spec (zero_count (length msg)) 64 _ _ H80) as Hp.
  rewrite length_app in Hp. specialize (Hp Hz Hz64 ltac:(lia)).
  pose proof (absorbed_buffer _ _ Hp) as Hb.
  rewrite !length_app, length_replicate in Hb. change (length [0x80]) with 1%nat in Hb. rewrite Hz in Hb.
  destruct Hp as (full & Hl & Hfull & _ & Hst & _).
  destruct Hs as (? & _ & _ & _ & _ & Hbits).
  unfold finish. set (p := pad_loop _ _) in *. rewrite Hbits, Hst.
  rewrite <- compress_all_block by (by rewrite length_app, Hb, length_length_bytes).
  rewrite <- compress_all_app by done. unfold reference_digest, padded. f_equal.
  by rewrite app_assoc, <- Hl, <- !app_assoc.
Qed.

(** Streaming is insensitive to how the data is cut into [update] calls. *)
Lemma update_app s a b : update s (a ++ b) = update (update s a) b.
Proof. apply fold_left_app. Qed.

(** The printed digest: 64 lower-case hex digits, whatever the input. *)
Definition is_hex_digit (c : ascii) : bool := bool_decide (c ∈ chars "0123456789abcdef").

Lemma hex_digit_ok n : is_hex_digit (hex_digit n) = true.
Proof.
  apply bool_decide_eq_true. unfold hex_digit.
  destruct (Nat.lt_ge_cases (Z.to_nat n) 16) as [H|H].
  - apply list_elem_of_In, nth_In. simpl. lia.
  - rewrite nth_overflow by (simpl; lia). simpl. set_solver.
Qed.

Lemma sha256_hex_shape data :
  String.length (sha256_hex data) = 64%nat /\
  Forall (fun c => is_hex_digit c = true) (chars (sha256_hex data)).
Proof.
  unfold sha256_hex, hex. set (s := update _ _).
  rewrite <- chars_length, chars_str. split; [reflexivity|].
  apply Forall_flat_map, Forall_forall. intros i _.
  unfold word_hex. apply Forall_flat_map, Forall_forall. intros j _.
  repeat constructor; apply hex_digit_ok.
Qed.
