(* ===== verification/Utf8.v ===== *)
(** * Utf8: normalising caller text (src/src/domain/utf8.cpp)

    [canonical_text] is the one choke point between caller-supplied bytes and
    the hash chains: it keeps well-formed UTF-8 and replaces every maximal
    ill-formed subpart by U+FFFD. *)

From S2P Require Import Prelude.

(** ** Operations *)

Definition byte (c : ascii) : Z := Z.of_nat (nat_of_ascii c).

Definition utf8_sequence_length (lead : Z) : nat :=
  if lead <? 0x80 then 1
  else if lead <? 0xC2 then 0
  else if lead <? 0xE0 then 2
  else if lead <? 0xF0 then 3
  else if lead <? 0xF5 then 4
  else 0.

Definition utf8_second_byte_range (lead : Z) : Z * Z :=
  if lead =? 0xE0 then (0xA0, 0xBF)
  else if lead =? 0xED then (0x80, 0x9F)
  else if lead =? 0xF0 then (0x90, 0xBF)
  else if lead =? 0xF4 then (0x80, 0x8F)
  else (0x80, 0xBF).

(** "\xEF\xBF\xBD". *)
Definition kUtf8Replacement : list ascii :=
  [ascii_of_nat 0xEF; ascii_of_nat 0xBF; ascii_of_nat 0xBD].

(** The inner loop: how many of the [need] continuation bytes are in range
    ([got - 1] at its exit); only the first one has the lead-specific range. *)
Fixpoint continuation (need : nat) (lo hi : Z) (rest : list ascii) : nat :=
  match need, rest with
  | S need, c :: rest =>
      if (lo <=? byte c) && (byte c <=? hi)
      then S (continuation need 0x80 0xBF rest) else O
  | _, _ => O
  end.

(** The outer loop; every iteration consumes at least one byte, so the length
    of the text is enough fuel. *)
Fixpoint canonical_loop (fuel : nat) (l : list ascii) : list ascii :=
  match fuel, l with
  | S fuel, c :: rest =>
      let len := utf8_sequence_length (byte c) in
      if (len =? 0)%nat then kUtf8Replacement ++ canonical_loop fuel rest
      else if (len =? 1)%nat then c :: canonical_loop fuel rest
      else
        let '(lo, hi) := utf8_second_byte_range (byte c) in
        let got := S (continuation (len - 1) lo hi rest) in
        if (got =? len)%nat
        then take len l ++ canonical_loop fuel (drop len l)
        else kUtf8Replacement ++ canonical_loop fuel (drop got l)
  | _, _ => []
  end.

Definition canonical_text (text : string) : string :=
  str (canonical_loop (String.length text) (chars text)).

(** ** Reference: well-formed UTF-8 (Unicode Standard, table 3-7) *)

Definition in_range (c : ascii) (lo hi : Z) : Prop := lo <= byte c <= hi.
Definition tail_byte (c : ascii) : Prop := in_range c 0x80 0xBF.

Inductive well_formed_sequence : list ascii -> Prop :=
  | wf_1 a : in_range a 0 0x7F -> well_formed_sequence [a]
  | wf_2 a b : in_range a 0xC2 0xDF -> tail_byte b -> well_formed_sequence [a; b]
  | wf_E0 a b c : byte a = 0xE0 -> in_range b 0xA0 0xBF -> tail_byte c ->
      well_formed_sequence [a; b; c]
  | wf_E1 a b c : in_range a 0xE1 0xEC -> tail_byte b -> tail_byte c ->
      well_formed_sequence [a; b; c]
  | wf_ED a b c : byte a = 0xED -> in_range b 0x80 0x9F -> tail_byte c ->
      well_formed_sequence [a; b; c]
  | wf_EE a b c : in_range a 0xEE 0xEF -> tail_byte b -> tail_byte c ->
      well_formed_sequence [a; b; c]
  | wf_F0 a b c d : byte a = 0xF0 -> in_range b 0x90 0xBF -> tail_byte c -> tail_byte d ->
      well_formed_sequence [a; b; c; d]
  | wf_F1 a b c d : in_range a 0xF1 0xF3 -> tail_byte b -> tail_byte c -> tail_byte d ->
      well_formed_sequence [a; b; c; d]
  | wf_F4 a b c d : byte a = 0xF4 -> in_range b 0x80 0x8F -> tail_byte c -> tail_byte d ->
      well_formed_sequence [a; b; c; d].

Inductive valid_utf8 : list ascii -> Prop :=
  | valid_nil : valid_utf8 []
  | valid_cons s l : well_formed_sequence s -> valid_utf8 l -> valid_utf8 (s ++ l).

(** ** The loop accepts exactly the table *)

Lemma byte_range c : 0 <= byte c <= 255.
Proof. unfold byte. pose proof (nat_ascii_bounded c). lia. Qed.

(** A view of the lead byte: the rows of the table it can start. *)
Inductive lead_view (b : Z) : nat -> Z * Z -> Prop :=
  | lead_1 r : b <= 0x7F -> lead_view b 1 r
  | lead_bad r : 0x80 <= b <= 0xC1 \/ 0xF5 <= b -> lead_view b 0 r
  | lead_2 : 0xC2 <= b <= 0xDF -> lead_view b 2 (0x80, 0xBF)
  | lead_E0 : b = 0xE0 -> lead_view b 3 (0xA0, 0xBF)
  | lead_E1 : 0xE1 <= b <= 0xEC \/ 0xEE <= b <= 0xEF -> lead_view b 3 (0x80, 0xBF)
  | lead_ED : b = 0xED -> lead_view b 3 (0x80, 0x9F)
  | lead_F0 : b = 0xF0 -> lead_view b 4 (0x90, 0xBF)
  | lead_F1 : 0xF1 <= b <= 0xF3 -> lead_view b 4 (0x80, 0xBF)
  | lead_F4 : b = 0xF4 -> lead_view b 4 (0x80, 0x8F).

Lemma lead_viewP b : lead_view b (utf8_sequence_length b) (utf8_second_byte_range b).
Proof.
  unfold utf8_sequence_length, utf8_second_byte_range.
  repeat (split_match; to_prop);
    (lia || (constructor; lia)).
Qed.

Lemma continuation_le need lo hi l : (continuation need lo hi l <= need)%nat.
Proof.
  revert lo hi l. induction need as [|n IH]; intros lo hi [|c l]; simpl; try lia.
  split_match; [specialize (IH 0x80 0xBF l)|]; lia.
Qed.

Lemma continuation_in_range need lo hi r :
  continuation (S need) lo hi r = S need <->
  exists c t, r = c :: t /\ in_range c lo hi /\ continuation need 0x80 0xBF t = need.
Proof.
  destruct r as [|c t]; simpl.
  { split; [done|]. by intros (? & ? & ? & _). }
  unfold in_range. destruct ((lo <=? byte c) && (byte c <=? hi)) eqn:E.
  - apply andb_true_iff in E as [?%Z.leb_le ?%Z.leb_le].
    split; [intros [= Hn]; eauto 10|intros (? & ? & [= -> ->] & _ & Hn); by rewrite Hn].
  - split; [done|]. intros (? & ? & [= -> ->] & [H1%Z.leb_le H2%Z.leb_le] & _). by rewrite H1, H2 in E.
Qed.

(** A lead byte and the continuation bytes the loop accepts after it. *)
Definition accepted (c : ascii) (r : list ascii) (len : nat) : Prop :=
  utf8_sequence_length (byte c) = len /\ (1 < len)%nat /\
  let '(lo, hi) := utf8_second_byte_range (byte c) in
  continuation (len - 1) lo hi r = (len - 1)%nat.

Ltac invert_continuation :=
  repeat match goal with
    | H : continuation (_ - 1) _ _ _ = (_ - 1)%nat |- _ => cbn [Nat.sub] in H
    | H : continuation (S _) _ _ _ = S _ |- _ =>
        apply continuation_in_range in H as (? & ? & -> & ? & H)
    end.

Lemma accepted_wf c r len :
  accepted c r len -> well_formed_sequence (take len (c :: r)).
Proof.
  intros (<- & Hlen & H). pose proof (byte_range c).
  destruct (lead_viewP (byte c)) as [? ? | ? ? | ? | ? | [?|?] | ? | ? | ? | ?]; try lia; invert_continuation;
    rewrite ?take_0; cbn [take]; rewrite ?take_0;
    first [by apply wf_2 | by apply wf_E0 | by apply wf_E1 | by apply wf_ED | by apply wf_EE
          | by apply wf_F0 | by apply wf_F1 | by apply wf_F4].
Qed.

(** The scan of a well-formed sequence followed by anything. *)
Lemma canonical_loop_wf fuel s l :
  well_formed_sequence s -> canonical_loop (S fuel) (s ++ l) = s ++ canonical_loop fuel l.
Proof.
  intros Hs.
  assert (exists c r, s = c :: r /\
    ((utf8_sequence_length (byte c) = 1%nat /\ r = []) \/
     (accepted c (r ++ l) (S (length r))))) as (c & r & -> & Hc).
  { unfold accepted. destruct Hs; unfold in_range, tail_byte in *;
      (eexists _, _; split; [reflexivity|]);
      (destruct (lead_viewP (byte a)) as [? ? | ? ? | ? | ? | [?|?] | ? | ? | ? | ?]; try lia); cbn [length app];
      first [by left | right; (split_and!; [done|lia|]); cbn [Nat.sub];
        repeat (apply continuation_in_range; eexists _, _; split_and!; [reflexivity|done|]); done]. }
  simpl. destruct Hc as [[-> ->]|Ha]; [done|].
  destruct Ha as (Hl & Hgt & Hcont). rewrite Hl.
  destruct (utf8_second_byte_range (byte c)) as [lo hi].
  destruct (length r) as [|n] eqn:Hn; [lia|]. cbn [Nat.sub] in *.
  change ((S (S n) =? 0)%nat) with false. change ((S (S n) =? 1)%nat) with false.
  cbv iota. rewrite Hcont, Nat.eqb_refl. simpl. f_equal.
  rewrite <- Hn, take_app_length, drop_app_length. done.
Qed.

Lemma wf_replacement : well_formed_sequence kUtf8Replacement.
Proof. apply wf_EE; unfold in_range, tail_byte, in_range; vm_compute; split; congruence. Qed.

Lemma canonical_loop_valid fuel l : valid_utf8 (canonical_loop fuel l).
Proof.
  revert l. induction fuel as [|fuel IH]; intros [|c r]; try constructor. cbn [canonical_loop].
  destruct (Nat.eqb_spec (utf8_sequence_length (byte c)) 0).
  { apply valid_cons; [apply wf_replacement|apply IH]. }
  destruct (Nat.eqb_spec (utf8_sequence_length (byte c)) 1) as [H1|H1].
  { apply (valid_cons [c]); [|apply IH]. apply wf_1. pose proof (byte_range c).
    destruct (lead_viewP (byte c)); unfold in_range; lia. }
  destruct (utf8_second_byte_range (byte c)) as [lo hi] eqn:Hr. cbv zeta.
  destruct (Nat.eqb_spec (S (continuation (utf8_sequence_length (byte c) - 1) lo hi r))
    (utf8_sequence_length (byte c))) as [Hg|_].
  - apply valid_cons; [|apply IH]. apply accepted_wf.
    unfold accepted. rewrite Hr. split_and!; lia.
  - apply valid_cons; [apply wf_replacement|apply IH].
Qed.

Lemma wf_length s : well_formed_sequence s -> (0 < length s)%nat.
Proof. destruct 1; simpl; lia. Qed.

Lemma canonical_loop_id fuel l : valid_utf8 l -> (length l <= fuel)%nat -> canonical_loop fuel l = l.
Proof.
  intros Hv. revert fuel. induction Hv as [|s l Hs _ IH]; intros fuel Hf.
  - by destruct fuel.
  - pose proof (wf_length s Hs). rewrite length_app in Hf. destruct fuel as [|fuel]; [lia|].
    rewrite canonical_loop_wf by done. rewrite IH by lia. done.
Qed.

(** ** Results *)

Definition is_utf8 (s : string) : Prop := valid_utf8 (chars s).

Lemma canonical_text_id s : is_utf8 s -> canonical_text s = s.
Proof.
  intros H. unfold canonical_text. rewrite canonical_loop_id; [apply str_chars|done|].
  by rewrite chars_length.
Qed.

Lemma canonical_text_utf8 s : is_utf8 (canonical_text s).
Proof. unfold is_utf8, canonical_text. rewrite chars_str. apply canonical_loop_valid. Qed.

(** [canonical_text] is total, always returns well-formed UTF-8 (Unicode
    table 3-7), and is the identity exactly on well-formed text, so it is
    idempotent and never moves the hash of a valid record. *)
Theorem canonical_text_normalises (s : string) :
  is_utf8 (canonical_text s) /\
  (canonical_text s = s <-> is_utf8 s) /\
  canonical_text (canonical_text s) = canonical_text s.
Proof.
  pose proof (canonical_text_utf8 s) as Hv. split_and!; [done| |by apply canonical_text_id].
  split; [by intros <-|apply canonical_text_id].
Qed.

Lemma valid_utf8_app a b : valid_utf8 a -> valid_utf8 b -> valid_utf8 (a ++ b).
Proof.
  intros Ha Hb. induction Ha as [|s l Hs _ IH]; [done|]. rewrite <- app_assoc. by constructor.
Qed.

Lemma is_utf8_app a b : is_utf8 a -> is_utf8 b -> is_utf8 (a +:+ b).
Proof. unfold is_utf8. rewrite chars_app. apply valid_utf8_app. Qed.

(** 7-bit text is well-formed. *)
Lemma ascii_utf8 s : Forall (fun c => byte c <= 0x7F) (chars s) -> is_utf8 s.
Proof.
  unfold is_utf8. induction 1 as [|c l Hc _ IH]; [constructor|].
  apply (valid_cons [c]); [|done]. apply wf_1. unfold in_range. pose proof (byte_range c). lia.
Qed.

Lemma canonical_text_nonempty s : s <> "" -> canonical_text s <> "".
Proof.
  intros Hs H. apply (f_equal chars) in H. unfold canonical_text in H. rewrite chars_str in H.
  destruct s as [|c s]; [done|]. simpl in H.
  repeat (split_match_in H; try done).
  destruct (utf8_sequence_length (byte c)) as [|n]; [|done]. done.
Qed.
