(* ===== verification/ClientRef.v ===== *)
(** * ClientRef: client references (src/src/idempotency/idempotency.cpp, uuid.cpp)

    Construction and parsing of ["<strategy>-<sig8>-<uuid>"] and of the child
    slice form ["<parent>#<k>"], and the canonical UUID text. *)

From S2P Require Import Prelude.

(** ** Operations *)

Definition sig8_of (signature_hex : string) : string := str (take 8 (chars signature_hex)).

Definition make_client_ref (strategy signature_hex uuid : string) : string :=
  strategy +:+ "-" +:+ sig8_of signature_hex +:+ "-" +:+ uuid.

Definition child_ref (parent_client_ref : string) (k : Z) : string :=
  let kk := if k <? 1 then 1 else k in
  parent_client_ref +:+ "#" +:+ pretty kk.

(** [std::string_view::rfind(c)]: the position of the last [c]. *)
Fixpoint rfind (c : ascii) (l : list ascii) : option nat :=
  match l with
  | [] => None
  | x :: r =>
      match rfind c r with
      | Some i => Some (S i)
      | None => if bool_decide (x = c) then Some 0%nat else None
      end
  end.

Definition is_child_ref (client_ref : string) : bool :=
  match rfind "#"%char (chars client_ref) with
  | None => false
  | Some pos => (0 <? pos)%nat && (pos + 1 <? String.length client_ref)%nat
  end.

Definition parent_of (child_client_ref : string) : string :=
  if negb (is_child_ref child_client_ref) then "" else
  match rfind "#"%char (chars child_client_ref) with
  | None => ""
  | Some pos => str (take pos (chars child_client_ref))
  end.

(** [append_hex]: [nibbles] hex digits, most significant first. *)
Definition kHex : list ascii := chars "0123456789abcdef".

Definition append_hex (out : list ascii) (value : Z) (nibbles : nat) : list ascii :=
  out ++ map (fun i => nth (Z.to_nat (Z.land (Z.shiftr value (4 * Z.of_nat i)) 0xF)) kHex "0"%char)
             (rev (seq 0 nibbles)).

Definition format_uuid_v4 (hi lo : Z) : string :=
  let hi := Z.lor (Z.land hi 0xFFFFFFFFFFFF0FFF) 0x0000000000004000 in
  let lo := Z.lor (Z.land lo 0x3FFFFFFFFFFFFFFF) 0x8000000000000000 in
  let out := append_hex [] (Z.land (Z.shiftr hi 32) 0xFFFFFFFF) 8 in
  let out := append_hex (out ++ ["-"%char]) (Z.land (Z.shiftr hi 16) 0xFFFF) 4 in
  let out := append_hex (out ++ ["-"%char]) (Z.land hi 0xFFFF) 4 in
  let out := append_hex (out ++ ["-"%char]) (Z.land (Z.shiftr lo 48) 0xFFFF) 4 in
  let out := append_hex (out ++ ["-"%char]) (Z.land lo 0xFFFFFFFFFFFF) 12 in
  str out.

Example format_uuid_v4_sample :
  format_uuid_v4 0x0123456789abcdef 0xffffffffffffffff =
  "01234567-89ab-4def-bfff-ffffffffffff".
Proof. vm_compute. reflexivity. Qed.

(** ** Lemmas *)

Lemma rfind_none c l : c ∉ l -> rfind c l = None.
Proof.
  induction l as [|x l IH]; simpl; [done|]. intros [Hx Hl]%not_elem_of_cons.
  rewrite IH by done. by rewrite bool_decide_eq_false_2.
Qed.

Lemma rfind_last c pre suf : c ∉ suf -> rfind c (pre ++ c :: suf) = Some (length pre).
Proof.
  intros H. induction pre as [|x pre IH]; simpl.
  - by rewrite rfind_none, bool_decide_eq_true_2.
  - by rewrite IH.
Qed.

Lemma child_ref_chars p k :
  chars (child_ref p k) = chars p ++ "#"%char :: chars (pretty (Z.max 1 k)).
Proof.
  unfold child_ref. autorewrite with strs. simpl. do 4 f_equal.
  destruct (Z.ltb_spec k 1); lia.
Qed.

Lemma rfind_child_ref p k :
  rfind "#"%char (chars (child_ref p k)) = Some (String.length p).
Proof.
  rewrite child_ref_chars, rfind_last, chars_length; [done|]. apply not_in_pretty; [lia|done].
Qed.

Lemma is_child_ref_child p k : p <> "" -> is_child_ref (child_ref p k) = true.
Proof.
  intros Hp. unfold is_child_ref. rewrite rfind_child_ref, <- (chars_length (child_ref p k)).
  rewrite child_ref_chars, length_app, chars_length. simpl.
  destruct (pretty_Z_digits (Z.max 1 k) ltac:(lia)) as (_ & Hne & _).
  destruct (chars (pretty _)); [done|]. simpl.
  apply andb_true_iff; split; apply Nat.ltb_lt; [destruct p; [done|simpl; lia]|lia].
Qed.

Lemma parent_of_child p k : p <> "" -> parent_of (child_ref p k) = p.
Proof.
  intros Hp. unfold parent_of. rewrite is_child_ref_child, rfind_child_ref by done. simpl.
  rewrite child_ref_chars, <- chars_length, take_app_length. apply str_chars.
Qed.

(** slice references decode: for a non-empty parent the child reference is
    recognised, its parent is recovered exactly even when the parent itself
    contains ['#'], and distinct (parent, k >= 1) pairs get distinct references. *)
Theorem child_ref_roundtrip (p q : string) (i j : Z) (Hp : p <> "") (Hi : 1 <= i) (Hj : 1 <= j) :
  is_child_ref (child_ref p i) = true /\
  parent_of (child_ref p i) = p /\
  (child_ref p i = child_ref q j -> p = q /\ i = j).
Proof.
  split_and!; [by apply is_child_ref_child|by apply parent_of_child|].
  intros H. assert (Hlen : Some (String.length p) = Some (String.length q))
    by (rewrite <- (rfind_child_ref p i), H; apply rfind_child_ref).
  apply (f_equal chars) in H. rewrite !child_ref_chars in H. simplify_eq.
  rewrite <- !chars_length in Hlen. apply app_inj_1 in H as [Hc Ht]; [|done].
  apply (inj chars) in Hc. simplify_eq. split; [done|lia].
Qed.

Lemma child_ref_roundtrip_witness :
  "a#1" <> "" /\ parent_of (child_ref "a#1" 7) = "a#1".
Proof.
  split; [discriminate|].
  apply (child_ref_roundtrip "a#1" "b" 7 1); [discriminate|lia|lia].
Defined.
