(* ===== verification/Lifecycle.v ===== *)
(** * Lifecycle: the order state machine (src/src/lifecycle/lifecycle.cpp)

    The transition table, the canonicalisation of an adapter's "still working"
    view, the parent fold, and [LifecycleEngine] with its per-order ordering
    keys and per-parent child maps. *)

From S2P Require Import Prelude Domain ClientRef.

(** ** Data *)

Record BrokerView := mkView {
  view_client_ref : string;
  view_broker_order_id : string;
  observed_state : OrderState;
  view_filled_qty : Quantity;
  view_avg_price : Price;
  ordering_key : Z;
}.

Inductive ApplyOutcome := Applied | DroppedStale | DroppedTerminal | NoChange.

#[export] Instance ApplyOutcome_eq_dec : EqDecision ApplyOutcome.
Proof. solve_decision. Defined.

Definition apply_outcome_to_string (o : ApplyOutcome) : string :=
  match o with
  | Applied => "APPLIED"
  | DroppedStale => "DROPPED_STALE"
  | DroppedTerminal => "DROPPED_TERMINAL"
  | NoChange => "NO_CHANGE"
  end.

(** [last_key_] and [children_by_parent_]. *)
Record LifecycleEngine := mkEngine {
  last_keys : gmap string Z;
  children_by_parent : gmap string (gmap string OrderState);
}.

Definition engine_init : LifecycleEngine := mkEngine ∅ ∅.

(** ** The transition table *)

Definition one_of (l : list OrderState) (s : OrderState) : bool := bool_decide (s ∈ l).

Definition table_allows (from to : OrderState) : bool :=
  match from with
  | Created => one_of [Validated; Rejected; Unknown] to
  | Validated => one_of [PendingSend; Rejected; Unknown] to
  | PendingSend => one_of [Sent; Rejected; Unknown] to
  | Sent => one_of [Acknowledged; PartiallyFilled; Filled; Rejected; Cancelled; Unknown] to
  | Acknowledged => one_of [PartiallyFilled; Filled; Rejected; Cancelled; Unknown] to
  | PartiallyFilled => one_of [PartiallyFilled; Filled; Cancelled; Rejected; Unknown] to
  | Filled | Rejected | Cancelled => false
  | Unknown =>
      one_of [Acknowledged; PartiallyFilled; Filled; Rejected; Cancelled; Reconciled;
              PartiallyPlaced; ManualInterventionRequired] to
  | Reconciled =>
      one_of [Acknowledged; PartiallyFilled; Filled; Rejected; Cancelled; Unknown;
              ManualInterventionRequired] to
  | PartiallyPlaced =>
      one_of [PartiallyPlaced; PartiallyFilled; Filled; Cancelled; Rejected; Unknown;
              ManualInterventionRequired] to
  | ManualInterventionRequired => one_of [Reconciled; Cancelled] to
  end.

Definition sent_means_still_working (from : OrderState) : bool :=
  match from with
  | Sent | Acknowledged | PartiallyFilled | Unknown | Reconciled => true
  | _ => false
  end.

Definition canonical_observed (from : OrderState) (view : BrokerView) : OrderState :=
  if negb (bool_decide (observed_state view = Sent)) || negb (sent_means_still_working from)
  then observed_state view
  else if 0 <? quantity_value (view_filled_qty view) then PartiallyFilled else Acknowledged.

Definition is_terminal (s : OrderState) : bool :=
  match s with Filled | Rejected | Cancelled => true | _ => false end.

Definition is_valid_transition (from to : OrderState) : bool :=
  if bool_decide (from = to) then true else table_allows from to.

(** ** The parent fold *)

Record fold_flags := mkFlags {
  any_unknown : bool; any_rejected : bool; all_filled : bool;
  all_cancelled : bool; all_terminal : bool;
}.

Definition fold_child (f : fold_flags) (child : OrderState) : fold_flags :=
  mkFlags
    (if bool_decide (child = Unknown) then true else any_unknown f)
    (if bool_decide (child = Rejected) then true else any_rejected f)
    (if negb (bool_decide (child = Filled)) then false else all_filled f)
    (if negb (bool_decide (child = Cancelled)) then false else all_cancelled f)
    (if negb (is_terminal child) then false else all_terminal f).

Definition fold_parent_state (children : list OrderState) : OrderState :=
  if bool_decide (children = []) then Created else
  let f := fold_left fold_child children (mkFlags false false true true true) in
  if any_unknown f then PartiallyPlaced
  else if any_rejected f then ManualInterventionRequired
  else if all_filled f then Filled
  else if all_cancelled f then Cancelled
  else if all_terminal f then PartiallyFilled
  else PartiallyPlaced.

(** The states of a child map, in some iteration order of the hash map. *)
Definition fold_children_map (children : gmap string OrderState) : OrderState :=
  fold_parent_state ((map_to_list children).*2).

(** ** The engine *)

Definition apply (e : LifecycleEngine) (order : Order) (view : BrokerView) :
    ApplyOutcome * Order * LifecycleEngine :=
  if is_terminal (state order) then (DroppedTerminal, order, e) else
  if (match last_keys e !! view_client_ref view with
      | Some k => ordering_key view <? k
      | None => false
      end) then (DroppedStale, order, e) else
  let observed := canonical_observed (state order) view in
  if negb (is_valid_transition (state order) observed) then (NoChange, order, e) else
  let state_changes := negb (bool_decide (state order = observed)) in
  let fill_advances :=
    negb (bool_decide (view_filled_qty view = filled_qty order)) ||
    negb (bool_decide (view_avg_price view = avg_price order)) ||
    (negb (String.eqb (view_broker_order_id view) "") &&
     negb (String.eqb (view_broker_order_id view) (broker_order_id order))) in
  let e' := mkEngine (<[view_client_ref view := ordering_key view]> (last_keys e))
              (children_by_parent e) in
  if negb state_changes && negb fill_advances then (NoChange, order, e') else
  let order' :=
    mkOrder (intent order) observed
      (if negb (String.eqb (view_broker_order_id view) "") then view_broker_order_id view
       else broker_order_id order)
      (view_filled_qty view) (view_avg_price view) in
  (Applied, order', e').

Definition apply_child (e : LifecycleEngine) (parent_client_ref child_client_ref : string)
    (child_state : OrderState) : OrderState * LifecycleEngine :=
  let parent_key := if is_child_ref child_client_ref then parent_of child_client_ref else "" in
  let parent_key := if String.eqb parent_key "" then parent_client_ref else parent_key in
  let children := <[child_client_ref := child_state]>
                    (default ∅ (children_by_parent e !! parent_key)) in
  (fold_children_map children,
   mkEngine (last_keys e) (<[parent_key := children]> (children_by_parent e))).

Definition last_key (e : LifecycleEngine) (client_ref : string) : option Z :=
  last_keys e !! client_ref.

Definition parent_state (e : LifecycleEngine) (parent_client_ref : string) : option OrderState :=
  fold_children_map <$> children_by_parent e !! parent_client_ref.

(** ** One application *)

(** The order has reached the broker (or is past it): everything except the
    local pre-send states and [Sent]. *)
Definition at_broker (s : OrderState) : bool :=
  negb (one_of [Created; Validated; PendingSend; Sent] s).

Lemma table_terminal from to : is_terminal from = true -> table_allows from to = false.
Proof. by destruct from. Qed.

Lemma transition_at_broker from to :
  at_broker from = true -> is_valid_transition from to = true -> at_broker to = true.
Proof. by destruct from, to. Qed.

(** An engine that differs at most by a raised key for one reference. *)
Definition keys_le (e e' : LifecycleEngine) : Prop :=
  forall r k, last_key e r = Some k -> exists k', last_key e' r = Some k' /\ k <= k'.

Lemma keys_le_refl e : keys_le e e.
Proof. intros r k ->. eauto with lia. Qed.

Lemma keys_le_trans a b c : keys_le a b -> keys_le b c -> keys_le a c.
Proof.
  intros H1 H2 r k Hk. destruct (H1 _ _ Hk) as (k1 & Hk1 & ?).
  destruct (H2 _ _ Hk1) as (k2 & ? & ?). exists k2. split; [done|lia].
Qed.

#[export] Instance keys_le_preorder : PreOrder keys_le.
Proof. split; [exact keys_le_refl|exact keys_le_trans]. Qed.

(** What every call of [apply] guarantees. *)
Lemma apply_facts e o v out o' e' :
  apply e o v = (out, o', e') ->
  (out <> Applied -> o' = o) /\
  (out = Applied -> is_terminal (state o) = false /\
     is_valid_transition (state o) (state o') = true /\
     intent o' = intent o /\ filled_qty o' = view_filled_qty v /\
     avg_price o' = view_avg_price v /\
     last_key e' (view_client_ref v) = Some (ordering_key v)) /\
  keys_le e e' /\ children_by_parent e' = children_by_parent e.
Proof.
  unfold apply. intros H.
  destruct (is_terminal (state o)) eqn:Ht; [simplify_eq; by repeat split|].
  destruct (match last_keys e !! view_client_ref v with Some _ => _ | None => _ end) eqn:Hk;
    [simplify_eq; by repeat split|].
  set (obs := canonical_observed (state o) v) in *.
  destruct (is_valid_transition (state o) obs) eqn:Hv; simpl in H; [|simplify_eq; by repeat split].
  assert (Hle : forall cs, keys_le e (mkEngine (<[view_client_ref v := ordering_key v]> (last_keys e)) cs)).
  { intros cs r k Hr. unfold last_key in *. simpl.
    destruct (decide (view_client_ref v = r)) as [<-|Hne].
    - rewrite Hr in Hk. apply Z.ltb_ge in Hk. rewrite lookup_insert_eq. eauto.
    - rewrite lookup_insert_ne by done. eauto with lia. }
  split_match_in H; simplify_eq; (split_and!; [done..| |apply Hle|done]); try done.
  intros _. split_and!; try done. apply lookup_insert_eq.
Qed.

(** ** Reachability *)

(** One view applied to the order; the outcome is for the log only. *)
Inductive apply_step : LifecycleEngine * Order -> LifecycleEngine * Order -> Prop :=
  apply_step_intro e o v out o' e' :
    apply e o v = (out, o', e') -> apply_step (e, o) (e', o').

Lemma apply_step_facts e o e' o' :
  apply_step (e, o) (e', o') ->
  (is_terminal (state o) = true -> o' = o) /\
  (at_broker (state o) = true -> at_broker (state o') = true) /\
  keys_le e e'.
Proof.
  inversion 1 as [? ? v out ? ? Ha]; subst.
  destruct (apply_facts _ _ _ _ _ _ Ha) as (Hno & Hyes & Hk & _).
  destruct (decide (out = Applied)) as [->|Hne]; [|rewrite (Hno Hne); auto].
  destruct (Hyes eq_refl) as (Ht & Hv & _). split_and!; [congruence| |done].
  intros Hb. by eapply transition_at_broker.
Qed.

(** C10: whatever views arrive, stale, duplicated or out of order, a terminal
    order is never changed again, an order known to the broker never returns to a
    local pre-send state, and no reference's ordering key ever decreases. *)
Theorem lifecycle_safe e o e' o' (Hrun : rtc apply_step (e, o) (e', o')) :
  (is_terminal (state o) = true -> o' = o) /\
  (at_broker (state o) = true -> at_broker (state o') = true) /\
  keys_le e e'.
Proof.
  remember (e, o) as s eqn:Hs. remember (e', o') as t eqn:Ht.
  revert e o Hs. induction Hrun as [|x [e1 o1] y Hstep _ IH]; intros e o ->; simplify_eq.
  { auto using keys_le_refl. }
  destruct (apply_step_facts _ _ _ _ Hstep) as (H1 & H2 & H3).
  destruct (IH eq_refl e1 o1 eq_refl) as (I1 & I2 & I3). split_and!.
  - intros Hterm. rewrite (H1 Hterm) in I1. by apply I1.
  - auto.
  - by etrans.
Qed.

(** A sample order and views for the witnesses. *)
Definition sample_intent : OrderIntent :=
  mkIntent "s-1" "NIFTY" Buy (quantity_of 50) (from_paise 10000) None Limit Intraday "s".

Lemma lifecycle_safe_witness :
  let o := make_order sample_intent Filled in
  rtc apply_step (engine_init, o) (engine_init, o) /\ is_terminal (state o) = true.
Proof.
  assert (rtc apply_step (engine_init, make_order sample_intent Filled)
    (engine_init, make_order sample_intent Filled)) as H.
  { apply rtc_once.
    apply (apply_step_intro _ _ (mkView "s-1" "" Acknowledged (quantity_of 0) (from_paise 0) 9) DroppedTerminal).
    reflexivity. }
  split; [exact H|].
  destruct (lifecycle_safe _ _ _ _ H) as (Ht & _). reflexivity.
Defined.

(** ** "Still working" views *)

(** for an order that has reached the broker, a current [Sent] view is never
    a backward jump: it is applied, its fill count is kept, and the order lands
    in [PartiallyFilled] or [Acknowledged], never in [Sent] or [Filled]. The one
    view refused is a zero fill count for an order already partially filled. *)
Theorem working_view_kept e o v out o' e'
    (Hsent : observed_state v = Sent) (Hwork : sent_means_still_working (state o) = true)
    (Hcur : forall k, last_key e (view_client_ref v) = Some k -> k <= ordering_key v)
    (Happ : apply e o v = (out, o', e')) :
  if bool_decide (state o = PartiallyFilled /\ quantity_value (view_filled_qty v) <= 0)
  then out = NoChange /\ o' = o /\ e' = e
  else filled_qty o' = view_filled_qty v /\ avg_price o' = view_avg_price v /\
       state o' = (if 0 <? quantity_value (view_filled_qty v) then PartiallyFilled else Acknowledged) /\
       last_key e' (view_client_ref v) = Some (ordering_key v).
Proof.
  unfold apply in Happ. replace (is_terminal (state o)) with false in Happ by (by destruct (state o)).
  assert (match last_keys e !! view_client_ref v with
          | Some k => ordering_key v <? k | None => false end = false) as Hk.
  { unfold last_key in Hcur. destruct (last_keys e !! _) as [k|]; [|done].
    apply Z.ltb_ge. by apply Hcur. }
  rewrite Hk in Happ.
  assert (canonical_observed (state o) v =
    if 0 <? quantity_value (view_filled_qty v) then PartiallyFilled else Acknowledged) as Hobs.
  { unfold canonical_observed. by rewrite Hsent, Hwork. }
  rewrite Hobs in Happ. clear Hobs Hk Hcur.
  destruct (Z.ltb_spec 0 (quantity_value (view_filled_qty v))) as [Hf|Hf].
  - rewrite bool_decide_eq_false_2 by lia.
    replace (is_valid_transition (state o) PartiallyFilled) with true in Happ by (by destruct (state o)).
    simpl in Happ. split_match_in Happ; simplify_eq/=; to_prop;
      unfold last_key; simpl; rewrite lookup_insert_eq; split_and!; try done; by symmetry.
  - destruct (decide (state o = PartiallyFilled)) as [Hpf|Hpf].
    + rewrite bool_decide_eq_true_2 by done. rewrite Hpf in Happ. simpl in Happ. by simplify_eq.
    + rewrite bool_decide_eq_false_2 by tauto.
      replace (is_valid_transition (state o) Acknowledged) with true in Happ by (by destruct (state o)).
      simpl in Happ. split_match_in Happ; simplify_eq/=; to_prop;
        unfold last_key; simpl; rewrite lookup_insert_eq; split_and!; try done; by symmetry.
Qed.

Lemma working_view_kept_witness :
  let o := make_order sample_intent Acknowledged in
  let v := mkView "s-1" "b7" Sent (quantity_of 20) (from_paise 9990) 3 in
  exists o' e', apply engine_init o v = (Applied, o', e') /\ state o' = PartiallyFilled.
Proof.
  intros o v. destruct (apply engine_init o v) as [[out o'] e'] eqn:E.
  exists o', e'.
  assert (out = Applied) as -> by (vm_compute in E; congruence). split; [reflexivity|].
  pose proof (working_view_kept engine_init o v Applied o' e' eq_refl eq_refl
    (fun k H => ltac:(discriminate H)) E) as H.
  destruct H as (_ & _ & H & _). exact H.
Defined.

(** ** The parent fold *)

(** What the fold means: a verdict by quantification over the child states. *)
Definition fold_verdict (l : list OrderState) : OrderState :=
  if bool_decide (l = []) then Created
  else if bool_decide (Unknown ∈ l) then PartiallyPlaced
  else if bool_decide (Rejected ∈ l) then ManualInterventionRequired
  else if bool_decide (Forall (.= Filled) l) then Filled
  else if bool_decide (Forall (.= Cancelled) l) then Cancelled
  else if bool_decide (Forall (fun s => is_terminal s = true) l) then PartiallyFilled
  else PartiallyPlaced.

Lemma elem_of_cons_bool (x s : OrderState) l :
  bool_decide (x ∈ s :: l) = bool_decide (s = x) || bool_decide (x ∈ l).
Proof. rewrite <- bool_decide_or. apply bool_decide_ext. rewrite elem_of_cons. intuition congruence. Qed.

Lemma Forall_cons_bool (P : OrderState -> Prop) `{!forall s, Decision (P s)} s l :
  bool_decide (Forall P (s :: l)) = bool_decide (P s) && bool_decide (Forall P l).
Proof. rewrite <- bool_decide_and. apply bool_decide_ext. apply Forall_cons. Qed.

Lemma fold_child_flags l f :
  fold_left fold_child l f =
  mkFlags (any_unknown f || bool_decide (Unknown ∈ l)) (any_rejected f || bool_decide (Rejected ∈ l))
    (all_filled f && bool_decide (Forall (.= Filled) l))
    (all_cancelled f && bool_decide (Forall (.= Cancelled) l))
    (all_terminal f && bool_decide (Forall (fun s => is_terminal s = true) l)).
Proof.
  revert f. induction l as [|s l IH]; intros f; simpl.
  { destruct f; simpl. by rewrite !orb_false_r, !andb_true_r. }
  rewrite IH, !elem_of_cons_bool, !Forall_cons_bool. destruct f as [u r fi ca te].
  unfold fold_child. simpl. clear IH. f_equal; destruct s, u, r, fi, ca, te; reflexivity.
Qed.

Lemma fold_parent_state_verdict l : fold_parent_state l = fold_verdict l.
Proof.
  unfold fold_parent_state, fold_verdict. rewrite fold_child_flags. by destruct (bool_decide (l = [])).
Qed.

(** The fold does not depend on the iteration order of the child map. *)
#[export] Instance fold_parent_state_perm : Proper (Permutation ==> eq) fold_parent_state.
Proof.
  intros l l' Hp. rewrite !fold_parent_state_verdict. unfold fold_verdict.
  rewrite (bool_decide_ext (l = []) (l' = [])).
  2: { split; intros ->; [by apply Permutation_nil in Hp|by apply Permutation_nil_r in Hp]. }
  assert (forall x, bool_decide (x ∈ l) = bool_decide (x ∈ l')) as Hin
    by (intros x; apply bool_decide_ext; by rewrite Hp).
  assert (forall (P : OrderState -> Prop) `{!forall s, Decision (P s)},
    bool_decide (Forall P l) = bool_decide (Forall P l')) as Hall
    by (intros P ?; apply bool_decide_ext; by rewrite Hp).
  by rewrite !Hin, !Hall.
Qed.

(** A report of one child slice: the supplied parent, the child, its state. *)
Definition child_report : Type := string * string * OrderState.

(** The parent a report is filed under. *)
Definition filed_under (r : child_report) : string :=
  let '(parent, child, _) := r in
  if is_child_ref child && negb (String.eqb (parent_of child) "") then parent_of child else parent.

Definition run_reports (e : LifecycleEngine) (rs : list child_report) : LifecycleEngine :=
  fold_left (fun e '(p, c, s) => snd (apply_child e p c s)) rs e.

(** The latest state of every child filed under [p], oldest report first. *)
Definition latest_children (p : string) (rs : list child_report) : gmap string OrderState :=
  fold_left (fun m r => if String.eqb (filed_under r) p then <[r.1.2 := r.2]> m else m) rs ∅.

Lemma apply_child_key e p c s :
  let key := filed_under (p, c, s) in
  let children := <[c := s]> (default ∅ (children_by_parent e !! key)) in
  apply_child e p c s =
  (fold_children_map children, mkEngine (last_keys e) (<[key := children]> (children_by_parent e))).
Proof.
  unfold apply_child, filed_under. destruct (is_child_ref c); simpl; [|done].
  by destruct (String.eqb (parent_of c) "").
Qed.

Lemma run_reports_lookup e rs p :
  default ∅ (children_by_parent (run_reports e rs) !! p) =
  fold_left (fun m r => if String.eqb (filed_under r) p then <[r.1.2 := r.2]> m else m) rs
    (default ∅ (children_by_parent e !! p)).
Proof.
  revert e. induction rs as [|[[q c] s] rs IH]; intros e; [done|].
  change (run_reports e ((q, c, s) :: rs)) with (run_reports (snd (apply_child e q c s)) rs).
  rewrite IH, apply_child_key. cbn [fold_left]. cbn [snd children_by_parent].
  destruct (String.eqb_spec (filed_under (q, c, s)) p) as [->|Hne].
  - by rewrite lookup_insert_eq.
  - by rewrite lookup_insert_ne.
Qed.

(** after any sequence of child reports, stale parents and duplicate reports
    included, a parent's state is the fold of the latest state of exactly the
    children filed under it: one unknown child keeps it partially placed, else
    one rejected child asks for a human, else it is filled (cancelled) iff every
    child is; and the order in which the child map is walked is irrelevant. *)
Theorem parent_state_refines rs p s
    (Hs : parent_state (run_reports engine_init rs) p = Some s) :
  forall l, Permutation l (map_to_list (latest_children p rs)).*2 ->
  s = fold_verdict l.
Proof.
  intros l Hl. unfold parent_state in Hs.
  pose proof (run_reports_lookup engine_init rs p) as H.
  destruct (children_by_parent (run_reports engine_init rs) !! p) as [m|]; [|done].
  simpl in H. simplify_eq/=. unfold latest_children in Hl.
  unfold fold_children_map.
  rewrite <- Hl. apply fold_parent_state_verdict.
Qed.

Lemma parent_state_refines_witness :
  let rs := [("p", child_ref "p" 1, Filled); ("stale", child_ref "p" 2, Sent);
             ("p", child_ref "p" 2, Unknown)] in
  parent_state (run_reports engine_init rs) "p" = Some PartiallyPlaced.
Proof.
  intros rs. destruct (parent_state (run_reports engine_init rs) "p") as [s|] eqn:E.
  - f_equal. rewrite (parent_state_refines rs "p" s E _ (reflexivity _)). reflexivity.
  - exfalso. vm_compute in E. discriminate.
Defined.
