(* ===== verification/Json.v ===== *)
(** * Json: what the program uses of the JSON library

    nlohmann::json is third-party code. [JsonLib] is the part of it the modelled
    components call, on flat objects; [JsonLaws] states its documented behaviour.
    [bit_json] is a concrete codec that satisfies the laws, for the witnesses. *)

From S2P Require Import Prelude Utf8.

(** ** The operations *)

(** The three outcomes of a non-throwing [json::parse] the program tells apart:
    [is_discarded()], a value that is not an object, an object. *)
Inductive parsed (V : Type) :=
  | Discarded
  | NonObject
  | Object (fields : gmap string V).
Arguments Discarded {V}.
Arguments NonObject {V}.
Arguments Object {V} fields.

(** [as_int64], [as_int32], [as_string] are [get<T>()]; [None] is the
    [json::type_error] exception. [json_dump] is the compact [dump] with
    [error_handler_t::replace]. *)
Class JsonLib := {
  jvalue : Type;
  of_int : Z -> jvalue;
  of_string : string -> jvalue;
  of_bool : bool -> jvalue;
  as_int64 : jvalue -> option Z;
  as_int32 : jvalue -> option Z;
  as_string : jvalue -> option string;
  is_number_integer : jvalue -> bool;
  is_string : jvalue -> bool;
  json_dump : gmap string jvalue -> string;
  json_parse : string -> parsed jvalue;
}.

(** [j.value(key, default)]: the default when the key is absent, an exception
    ([None]) when the value has another type. *)
Definition value_or `{JsonLib} {A} (get : jvalue -> option A) (m : gmap string jvalue)
    (key : string) (dflt : A) : option A :=
  match m !! key with
  | None => Some dflt
  | Some v => get v
  end.

(** ** The laws *)

(** A key made of lower-case letters and underscores. *)
Definition identifier (k : string) : Prop :=
  k <> "" /\ Forall (fun c => c = "_"%char \/ (97 <= nat_of_ascii c <= 122)%nat) (chars k).

Lemma identifier_b k :
  forallb (fun c => bool_decide (c = "_"%char) || ((97 <=? nat_of_ascii c)%nat && (nat_of_ascii c <=? 122)%nat))
    (chars k) = true -> k <> "" -> identifier k.
Proof.
  intros H Hk. split; [done|]. rewrite forallb_forall in H. apply Forall_forall.
  intros c Hc. apply list_elem_of_In, H in Hc. apply orb_true_iff in Hc as [Hc|Hc].
  - left. by apply bool_decide_eq_true in Hc.
  - right. apply andb_true_iff in Hc as [H1 H2]. apply Nat.leb_le in H1, H2. lia.
Qed.

Section laws.
Context `{J : JsonLib}.

(** The values the program writes: 64-bit integers, booleans, valid UTF-8. *)
Definition plain_value (v : jvalue) : Prop :=
  (exists z, is_int64 z /\ v = of_int z) \/ (exists b, v = of_bool b) \/
  (exists s, is_utf8 s /\ v = of_string s).

Definition plain_object (m : gmap string jvalue) : Prop :=
  map_Forall (fun k v => identifier k /\ plain_value v) m.

(** A non-empty beginning of the text of such an object. *)
Definition text_piece (p : string) : Prop :=
  p <> "" /\ exists m rest, plain_object m /\ json_dump m = p +:+ rest.

Class JsonLaws : Prop := {
  as_int64_of z : is_int64 z -> as_int64 (of_int z) = Some z;
  as_int32_of z : is_int32 z -> as_int32 (of_int z) = Some z;
  as_string_of s : is_utf8 s -> as_string (of_string s) = Some s;
  is_number_integer_of z : is_number_integer (of_int z) = true;
  is_string_of s : is_string (of_string s) = true;
  (** What is written reads back; a text value that is not valid UTF-8 reads
      back with replacement characters, and only that value is affected. *)
  parse_dump_replaced m : map_Forall (fun k _ => identifier k) m -> exists m',
    json_parse (json_dump m) = Object m' /\ (forall k, m !! k = None <-> m' !! k = None) /\
    (forall k v, m !! k = Some v -> plain_value v -> m' !! k = Some v);
  dump_nonempty m : json_dump m <> "";
  dump_utf8 m : is_utf8 (json_dump m);
  dump_one_line m : newline ∉ chars (json_dump m);
  (** A text cut short is not a JSON text, nor are two or more texts, complete
      or cut short, written one after the other. *)
  parse_prefix m p rest : plain_object m -> json_dump m = p +:+ rest -> p <> "" ->
    rest <> "" -> json_parse p = Discarded;
  parse_glued ps : Forall text_piece ps -> (2 <= length ps)%nat ->
    json_parse (foldr String.append "" ps) = Discarded;
}.
End laws.
Arguments JsonLaws : clear implicits.

Lemma parse_dump `{J : JsonLib} `{!JsonLaws J} m :
  plain_object m -> json_parse (json_dump m) = Object m.
Proof.
  intros Hm. destruct (parse_dump_replaced m) as (m' & -> & Hnone & Hsome).
  { intros k v Hk. by apply Hm in Hk as [? _]. }
  f_equal. apply map_eq. intros k. destruct (m !! k) as [v|] eqn:E.
  - apply Hsome; [done|]. by apply Hm in E as [_ ?].
  - by apply Hnone.
Qed.

(** ** A concrete codec

    The fields are stored through stdpp's [encode] as the digits of a positive
    number between braces. *)

Fixpoint bits_of (p : positive) : list ascii :=
  match p with
  | xH => []
  | xO q => "0"%char :: bits_of q
  | xI q => "1"%char :: bits_of q
  end.

Fixpoint of_bits (l : list ascii) : option positive :=
  match l with
  | [] => Some xH
  | "0"%char :: r => xO <$> of_bits r
  | "1"%char :: r => xI <$> of_bits r
  | _ => None
  end.

Abbreviation bit_value := (Z + (bool + string))%type.

Definition bit_dump (m : gmap string bit_value) : string :=
  str ("{"%char :: bits_of (encode m) ++ ["}"%char]).

Definition bit_parse (s : string) : parsed bit_value :=
  match chars s with
  | "{"%char :: r =>
      match rev r with
      | "}"%char :: b =>
          match of_bits (rev b) ≫= decode with
          | Some m => Object m
          | None => Discarded
          end
      | _ => Discarded
      end
  | _ => Discarded
  end.

#[export] Instance bit_json : JsonLib := {|
  jvalue := bit_value;
  of_int z := inl z;
  of_bool b := inr (inl b);
  of_string s := inr (inr s);
  as_int64 v := match v with inl z => Some (to_i64 z) | _ => None end;
  as_int32 v := match v with inl z => Some ((z + 2 ^ 31) mod 2 ^ 32 - 2 ^ 31) | _ => None end;
  as_string v := match v with inr (inr s) => Some s | _ => None end;
  is_number_integer v := match v with inl _ => true | _ => false end;
  is_string v := match v with inr (inr _) => true | _ => false end;
  json_dump := bit_dump;
  json_parse := bit_parse;
|}.

Definition is_bit (c : ascii) : Prop := c = "0"%char \/ c = "1"%char.

Lemma bits_of_bits p : Forall is_bit (bits_of p).
Proof. induction p; simpl; constructor; unfold is_bit; auto. Qed.

Lemma of_bits_of p : of_bits (bits_of p) = Some p.
Proof. induction p as [p IH|p IH|]; simpl; rewrite ?IH; done. Qed.

Lemma of_bits_inv l p : of_bits l = Some p -> Forall is_bit l.
Proof.
  revert p. induction l as [|c l IH]; intros p H; [constructor|].
  destruct (decide (is_bit c)) as [Hc|Hc]; [constructor; [done|]|].
  - destruct Hc as [-> | ->]; simpl in H; apply fmap_Some in H as (q & Hq & _); eauto.
  - exfalso. revert H. unfold is_bit in Hc. simpl.
    destruct c as [[] [] [] [] [] [] [] []]; try done; naive_solver.
Qed.

Lemma bit_parse_dump m : bit_parse (bit_dump m) = Object m.
Proof.
  unfold bit_parse, bit_dump. rewrite chars_str, rev_unit, rev_involutive, of_bits_of.
  simpl. by rewrite decode_encode.
Qed.

(** An accepted text is one brace pair around bits. *)
Lemma bit_parse_inv s :
  bit_parse s <> Discarded -> exists b, chars s = "{"%char :: b ++ ["}"%char] /\ Forall is_bit b.
Proof.
  unfold bit_parse. intros H.
  destruct (chars s) as [|c r] eqn:E; [done|].
  destruct (decide (c = "{"%char)) as [->|Hc];
    [|by destruct c as [[] [] [] [] [] [] [] []]].
  destruct (rev r) as [|d b] eqn:Er; [done|].
  destruct (decide (d = "}"%char)) as [->|Hd];
    [|by destruct d as [[] [] [] [] [] [] [] []]].
  destruct (of_bits (rev b)) as [p|] eqn:Hp; [|done].
  exists (rev b). split; [|by eapply of_bits_inv].
  f_equal. by rewrite <- (rev_involutive r), Er.
Qed.

Lemma bit_piece p :
  text_piece p -> exists m q r, chars p = "{"%char :: q /\ (q ++ r = bits_of (encode m) ++ ["}"%char])%list /\
  bit_dump m = p +:+ str r /\ plain_object m.
Proof.
  intros (Hne & m & rest & Hm & Hd). exists m.
  apply (f_equal chars) in Hd as Hc. simpl in Hc. unfold bit_dump in Hc.
  rewrite chars_str, chars_app in Hc. destruct (chars p) as [|c q] eqn:E.
  { destruct p; done. }
  simpl in Hc. injection Hc as <- Hc.
  exists q, (chars rest). rewrite str_chars. done.
Qed.

Lemma brace_not_bit c b : Forall is_bit b -> c ∈ b -> is_bit c.
Proof. rewrite Forall_forall. auto. Qed.

Lemma bit_split_unique b b' r :
  Forall is_bit b -> Forall is_bit b' -> ((b ++ ["}"%char]) ++ r = b' ++ ["}"%char])%list -> r = [] /\ b = b'.
Proof.
  revert b'. induction b as [|c b IH]; intros [|c' b'] Hb Hb' H; simpl in H; injection H as H; subst; try done.
  - apply Forall_cons in Hb' as [[? | ?] _]; done.
  - apply Forall_cons in Hb as [[? | ?] _]; done.
  - apply Forall_cons in Hb as [_ Hb]. apply Forall_cons in Hb' as [_ Hb'].
    by destruct (IH b' Hb Hb') as [-> ->].
Qed.

Lemma bit_parse_prefix m p rest :
  plain_object (J := bit_json) m -> bit_dump m = p +:+ rest -> p <> "" -> rest <> "" ->
  bit_parse p = Discarded.
Proof.
  intros Hm Hd Hp Hr. destruct (bit_parse p) eqn:E; [done|exfalso..].
  all: destruct (bit_parse_inv p ltac:(by rewrite E)) as (b & Hc & Hb).
  all: apply (f_equal chars) in Hd; rewrite chars_app, Hc in Hd; unfold bit_dump in Hd;
    rewrite chars_str in Hd; injection Hd as Hd.
  all: destruct (bit_split_unique _ _ (chars rest) Hb (bits_of_bits (encode m)) (eq_sym Hd)) as [Hn _].
  all: by destruct rest.
Qed.

Lemma bit_parse_glued ps : Forall text_piece ps -> (2 <= length ps)%nat ->
  bit_parse (foldr String.append "" ps) = Discarded.
Proof.
  intros Hps Hne. destruct ps as [|p1 [|p2 ps]]; simpl in Hne; [lia..|]. simpl.
  destruct (bit_parse _) eqn:E; [done|exfalso..].
  all: destruct (bit_parse_inv _ ltac:(by rewrite E)) as (b & Hc & Hb).
  all: apply Forall_cons in Hps as [H1 Hps]; apply bit_piece in H1 as (m & q & r & Hq & _).
  all: apply Forall_cons in Hps as [H2 _]; apply bit_piece in H2 as (m2 & q2 & r2 & Hq2 & _).
  all: rewrite !chars_app, Hq, Hq2 in Hc; simpl in Hc; injection Hc as Hc.
  all: assert ("{"%char ∈ (b ++ ["}"%char])) as Hin by (rewrite <- Hc; set_solver).
  all: apply elem_of_app in Hin as [Hin|Hin%list_elem_of_singleton]; [|done].
  all: by destruct (brace_not_bit _ _ Hb Hin).
Qed.

#[export] Instance bit_json_laws : JsonLaws bit_json.
Proof.
  split; simpl.
  - intros z Hz. by rewrite to_i64_small.
  - intros z Hz. f_equal. unfold_ints. rewrite Z.mod_small; lia.
  - done.
  - done.
  - done.
  - intros m _. exists m. by rewrite bit_parse_dump.
  - done.
  - intros m. apply ascii_utf8. unfold bit_dump. rewrite chars_str.
    constructor; [by vm_compute|]. apply Forall_app. split; [|by repeat constructor].
    eapply Forall_impl; [apply bits_of_bits|]. intros c [-> | ->]; by vm_compute.
  - intros m. unfold bit_dump. rewrite chars_str. intros H.
    apply elem_of_cons in H as [H|H]; [done|].
    apply elem_of_app in H as [H|H%list_elem_of_singleton]; [|done].
    by destruct (brace_not_bit _ _ (bits_of_bits _) H).
  - apply bit_parse_prefix.
  - apply bit_parse_glued.
Qed.
