(* ===== verification/IntentLog.v ===== *)
(** * IntentLog: the write-ahead intent log (src/src/intentlog/intent_log.cpp)

    Records, the framed canonical bytes their hash is taken over, the JSON line,
    [append], [replay] with its chain checks and torn-tail repair, and
    [last_for]. The file is a byte string; what a failing write or sync leaves
    in it is an argument. JSON is the parameter [JsonLib]. *)

From S2P Require Import Prelude Errors Sha256 Utf8 ClientRef Json.

(** ** Data (intent_log.hpp) *)

Inductive IntentOp := PlaceOrder | ModifyOrder | CancelOrder | SquareOff | Result | ChildSlice.

#[export] Instance IntentOp_eq_dec : EqDecision IntentOp.
Proof. solve_decision. Defined.

Definition kSchemaVersion : Z := 1.
Definition kGenesis : string := "GENESIS".

Record IntentRecord := mkRecord {
  schema_version : Z;
  seq : Z;
  rec_client_ref : string;
  op : IntentOp;
  payload_json : string;
  wall_ts_ns : Z;
  prev_hash : string;
  hash : string;
}.

#[export] Instance IntentRecord_eq_dec : EqDecision IntentRecord.
Proof. solve_decision. Defined.

Record TornTail := mkTorn {
  repaired : bool;
  discarded_bytes : Z;
  truncated_to : Z;
  records_kept : Z;
}.

(** The object: [is_open] is [file_ != nullptr && clock_ != nullptr]. *)
Record IntentLog := mkLog {
  is_open : bool;
  path : string;
  next_seq : Z;
  last_hash : string;
  torn_tail : TornTail;
  index : gmap string IntentRecord;
}.

Definition no_torn : TornTail := mkTorn false 0 0 0.

Definition op_to_string (o : IntentOp) : string :=
  match o with
  | PlaceOrder => "place_order"
  | ModifyOrder => "modify_order"
  | CancelOrder => "cancel_order"
  | SquareOff => "square_off"
  | Result => "result"
  | ChildSlice => "child_slice"
  end.

Definition intent_op_from_string (name : string) : option IntentOp :=
  if String.eqb name "place_order" then Some PlaceOrder
  else if String.eqb name "modify_order" then Some ModifyOrder
  else if String.eqb name "cancel_order" then Some CancelOrder
  else if String.eqb name "square_off" then Some SquareOff
  else if String.eqb name "result" then Some Result
  else if String.eqb name "child_slice" then Some ChildSlice
  else None.

Definition chain_error (msg : string) : Error := make_error Internal msg "".

(** ** The canonical bytes and the hash *)

Definition nl : string := String newline "".

Definition append_framed (value : string) : string :=
  pretty (Z.of_nat (String.length value)) +:+ ":" +:+ value.

Definition canonical_bytes (r : IntentRecord) : string :=
  "v" +:+ pretty (schema_version r) +:+ nl +:+
  "s" +:+ pretty (seq r) +:+ nl +:+
  "o" +:+ op_to_string (op r) +:+ nl +:+
  "t" +:+ pretty (wall_ts_ns r) +:+ nl +:+
  "c" +:+ append_framed (rec_client_ref r) +:+ nl +:+
  "p" +:+ append_framed (payload_json r) +:+ nl +:+
  "h" +:+ append_framed (prev_hash r) +:+ nl.

Definition compute_hash (r : IntentRecord) : string := sha256_hex (canonical_bytes r).

Definition with_hash (h : string) (r : IntentRecord) : IntentRecord :=
  mkRecord (schema_version r) (seq r) (rec_client_ref r) (op r) (payload_json r)
    (wall_ts_ns r) (prev_hash r) h.

(** ** open *)

Definition open (fopen_ok dir_sync_ok : bool) (p dir : string) : result IntentLog :=
  if negb fopen_ok
  then Err (chain_error ("intentlog: failed to open log file for append: " +:+ p))
  else if negb dir_sync_ok
  then Err (chain_error
    ("intentlog: durable_sync_directory failed for the log's directory: " +:+ dir))
  else Ok (mkLog true p 1 "" no_torn ∅).

Section log.
Context `{J : JsonLib}.

Definition record_object (r : IntentRecord) : gmap string jvalue :=
  <["schema_version" := of_int (schema_version r)]>
  (<["seq" := of_int (seq r)]>
  (<["client_ref" := of_string (rec_client_ref r)]>
  (<["op" := of_string (op_to_string (op r))]>
  (<["payload" := of_string (payload_json r)]>
  (<["wall_ts_ns" := of_int (wall_ts_ns r)]>
  (<["prev_hash" := of_string (prev_hash r)]>
  (<["hash" := of_string (hash r)]> ∅))))))).

Definition to_json_line (r : IntentRecord) : string := json_dump (record_object r) +:+ nl.

(** ** append *)

(** What the file system does with the one write and sync of an append: all of it
    durable, or [k] bytes of the line left in the file by a short write or by a
    write whose flush or sync failed. *)
Inductive write_io := WriteDurable | WriteShort (k : nat) | SyncFailed (k : nat).

Definition new_record (log : IntentLog) (now : Z) (o : IntentOp) (ref payload : string) :
    IntentRecord :=
  let record := mkRecord kSchemaVersion (next_seq log) (canonical_text ref) o
    (canonical_text payload) now
    (if String.eqb (last_hash log) "" then kGenesis else last_hash log) "" in
  with_hash (compute_hash record) record.

Definition append (io : write_io) (now : Z) (log : IntentLog) (file : string)
    (o : IntentOp) (ref payload : string) : result IntentRecord * IntentLog * string :=
  if negb (is_open log)
  then (Err (chain_error "intentlog: append on a moved-from / closed log"), log, file) else
  let record := new_record log now o ref payload in
  let line := to_json_line record in
  match io with
  | WriteShort k =>
      (Err (chain_error ("intentlog: short write appending record seq " +:+ pretty (seq record))),
       log, file +:+ str_take k line)
  | SyncFailed k =>
      (Err (chain_error ("intentlog: durable_sync failed for record seq " +:+ pretty (seq record))),
       log, file +:+ str_take k line)
  | WriteDurable =>
      (Ok record,
       mkLog (is_open log) (path log) (seq record + 1) (hash record) (torn_tail log)
         (<[rec_client_ref record := record]> (index log)),
       file +:+ line)
  end.

(** ** replay *)

(** What the file system does for the read. [fread] is called until it returns 0,
    which it also does on an error that nobody asks for: [ReadStopped n] is a read
    that ends after [n] bytes. *)
Inductive read_io := ReadOk | ReadStopped (n : nat) | ReadAbsent | ReadUnreadable.

(** [contents]. *)
Definition read_contents (rio : read_io) (file : string) : string :=
  match rio with ReadStopped n => str_take n file | _ => file end.

Record repair_io := mkRepairIo { resize_error : option string; putc_ok : bool; sync_ok : bool }.

(** One parsed line: [None] is the exception of [parsed.value] on a field of the
    wrong type. *)
Definition verify_line (expected_seq : Z) (running_hash : string) (m : gmap string jvalue) :
    option (result IntentRecord) :=
  sv ← value_or as_int32 m "schema_version" 0;
  sq ← value_or as_int64 m "seq" 0;
  cr ← value_or as_string m "client_ref" "";
  pl ← value_or as_string m "payload" "";
  ts ← value_or as_int64 m "wall_ts_ns" 0;
  ph ← value_or as_string m "prev_hash" "";
  h ← value_or as_string m "hash" "";
  op_name ← value_or as_string m "op" "";
  Some
    (match intent_op_from_string op_name with
     | None => Err (chain_error
         ("intentlog: unknown op '" +:+ op_name +:+ "' at seq " +:+ pretty sq))
     | Some o =>
         let record := mkRecord sv sq cr o pl ts ph h in
         if negb (sq =? expected_seq) then
           Err (chain_error ("intentlog: broken chain at seq " +:+ pretty sq +:+
             " (expected seq " +:+ pretty expected_seq +:+ ")"))
         else if negb (String.eqb ph running_hash) then
           Err (chain_error ("intentlog: broken chain at seq " +:+ pretty sq +:+
             " (prev_hash mismatch)"))
         else if negb (String.eqb (compute_hash record) h) then
           Err (chain_error ("intentlog: broken chain at seq " +:+ pretty sq +:+
             " (hash mismatch — record tampered)"))
         else Ok record
     end).

(** The locals of the scan that survive an iteration, and how the scan ends. *)
Record scan := mkScan {
  pos : Z;
  records : list IntentRecord;
  expected_seq : Z;
  running_hash : string;
  tail_missing_newline : bool;
  scan_index : gmap string IntentRecord;
}.

Inductive scan_end :=
  | ScanThrown (s : scan)
  | ScanFailed (e : Error) (s : scan)
  | ScanTorn (fragment : Z) (s : scan)
  | ScanDone (s : scan).

Definition accept (s : scan) (len : Z) (unterminated : bool) (r : IntentRecord) : scan :=
  mkScan (pos s + len + 1) (records s ++ [r]) (expected_seq s + 1) (hash r)
    (if unterminated then true else tail_missing_newline s)
    (<[rec_client_ref r := r]> (scan_index s)).

Definition skip (s : scan) : scan :=
  mkScan (pos s + 1) (records s) (expected_seq s) (running_hash s)
    (tail_missing_newline s) (scan_index s).

Fixpoint scan_chunks (cs : list (list ascii * bool)) (s : scan) : scan_end :=
  match cs with
  | [] => ScanDone s
  | (line, unterminated) :: rest =>
      let len := Z.of_nat (length line) in
      if bool_decide (line = []) then scan_chunks rest (skip s)
      else match json_parse (str line) with
           | Object m =>
               match verify_line (expected_seq s) (running_hash s) m with
               | None => ScanThrown s
               | Some (Err e) => ScanFailed e s
               | Some (Ok r) => scan_chunks rest (accept s len unterminated r)
               end
           | _ =>
               if unterminated then ScanTorn len s
               else ScanFailed (chain_error ("intentlog: malformed JSON at record index " +:+
                      pretty (Z.of_nat (length (records s))))) s
           end
  end.

Definition start_scan (log : IntentLog) : scan := mkScan 0 [] 1 kGenesis false (index log).

Definition set_tail (t : TornTail) (ix : gmap string IntentRecord) (log : IntentLog) : IntentLog :=
  mkLog (is_open log) (path log) (next_seq log) (last_hash log) t ix.

(** [torn_tail_.records_kept = ...] and the append cursor. *)
Definition finish_replay (s : scan) (t : TornTail) (log : IntentLog) : IntentLog :=
  let t' := mkTorn (repaired t) (discarded_bytes t) (truncated_to t)
              (Z.of_nat (length (records s))) in
  match last (records s) with
  | Some r => mkLog (is_open log) (path log) (seq r + 1) (hash r) t' (scan_index s)
  | None => mkLog (is_open log) (path log) 1 "" t' (scan_index s)
  end.

Definition replay (rio : read_io) (fix_io : repair_io) (log0 : IntentLog) (file : string) :
    option (result (list IntentRecord)) * IntentLog * string :=
  let log := set_tail no_torn (index log0) log0 in
  match rio with
  | ReadAbsent => (Some (Ok []), log, file)
  | ReadUnreadable =>
      (Some (Err (chain_error
        ("intentlog: log file exists but could not be opened for replay: " +:+ path log))), log, file)
  | ReadOk | ReadStopped _ =>
      let contents := read_contents rio file in
      match scan_chunks (chunks (chars contents)) (start_scan log) with
      | ScanThrown s => (None, set_tail no_torn (scan_index s) log, file)
      | ScanFailed e s => (Some (Err e), set_tail no_torn (scan_index s) log, file)
      | ScanTorn len s =>
          match resize_error fix_io with
          | Some ec =>
              (Some (Err (chain_error ("intentlog: could not truncate a torn trailing record at byte " +:+
                pretty (pos s) +:+ ": " +:+ ec))), set_tail no_torn (scan_index s) log, file)
          | None =>
              let file' := str_take (Z.to_nat (pos s)) file in
              if negb (is_open log && sync_ok fix_io) then
                (Some (Err (chain_error ("intentlog: durable_sync failed after truncating a torn trailing record at byte " +:+
                  pretty (pos s)))), set_tail no_torn (scan_index s) log, file')
              else (Some (Ok (records s)), finish_replay s (mkTorn true len (pos s) 0) log, file')
          end
      | ScanDone s =>
          if tail_missing_newline s then
            if negb (is_open log && putc_ok fix_io) then
              (Some (Err (chain_error ("intentlog: could not restore the missing record separator on the final line of " +:+
                path log))), set_tail no_torn (scan_index s) log, file)
            else if negb (sync_ok fix_io) then
              (Some (Err (chain_error ("intentlog: could not restore the missing record separator on the final line of " +:+
                path log))), set_tail no_torn (scan_index s) log, file +:+ nl)
            else (Some (Ok (records s)),
                  finish_replay s (mkTorn true 0 (Z.of_nat (String.length contents) + 1) 0) log, file +:+ nl)
          else (Some (Ok (records s)), finish_replay s no_torn log, file)
      end
  end.

Definition last_for (log : IntentLog) (ref : string) : option IntentRecord :=
  index log !! canonical_text ref.

End log.

(** ** The canonical bytes determine the record *)

Lemma int_field (a b : Z) x y : (pretty a +:+ nl +:+ x) = (pretty b +:+ nl +:+ y) -> a = b /\ x = y.
Proof.
  intros H. apply delimited in H as [H ->]; [|by apply not_in_pretty_Z..].
  by apply (inj pretty) in H.
Qed.

Lemma framed_field a b x y :
  (append_framed a +:+ nl +:+ x) = (append_framed b +:+ nl +:+ y) -> a = b /\ x = y.
Proof.
  unfold append_framed. rewrite !str_app_assoc. intros H.
  apply delimited in H as [H1 H2]; [|by apply not_in_pretty_Z..].
  apply (inj pretty) in H1. apply str_app_inv_len in H2 as [-> H2]; [|lia].
  by apply str_app_inv_head in H2 as ->.
Qed.

#[export] Instance op_to_string_inj : Inj (=) (=) op_to_string.
Proof. intros [] []; simpl; congruence. Qed.

Lemma op_one_line o : newline ∉ chars (op_to_string o).
Proof. destruct o; apply (bool_decide_unpack (newline ∉ _)); by vm_compute. Qed.

Lemma op_field a b x y : (op_to_string a +:+ nl +:+ x) = (op_to_string b +:+ nl +:+ y) -> a = b /\ x = y.
Proof.
  intros H. apply delimited in H as [H ->];
    [|apply op_one_line..].
  by apply (inj op_to_string) in H.
Qed.

Lemma canonical_bytes_inj r1 r2 :
  canonical_bytes r1 = canonical_bytes r2 -> with_hash "" r1 = with_hash "" r2.
Proof.
  unfold canonical_bytes. intros H.
  apply str_app_inv_head, int_field in H as [? H]. apply str_app_inv_head, int_field in H as [? H].
  apply str_app_inv_head, op_field in H as [? H]. apply str_app_inv_head, int_field in H as [? H].
  apply str_app_inv_head, framed_field in H as [? H]. apply str_app_inv_head, framed_field in H as [? H].
  apply str_app_inv_head in H. rewrite <- (str_app_nil_r nl) in H. apply framed_field in H as [? _].
  unfold with_hash. congruence.
Qed.

(** ** The hash chain *)

(** [r] continues a chain whose next number is [n] and whose tip is [tip]. *)
Definition links (n : Z) (tip : string) (r : IntentRecord) : Prop :=
  seq r = n /\ prev_hash r = tip /\ hash r = compute_hash r.

Fixpoint chain (n : Z) (tip : string) (rs : list IntentRecord) : Prop :=
  match rs with
  | [] => True
  | r :: rest => links n tip r /\ chain (n + 1) (hash r) rest
  end.

Definition tip_of (tip : string) (rs : list IntentRecord) : string :=
  match last rs with Some r => hash r | None => tip end.

Lemma tip_of_cons t r rs : tip_of t (r :: rs) = tip_of (hash r) rs.
Proof. unfold tip_of. rewrite last_cons. by destruct (last rs). Qed.

Lemma tip_of_snoc t r rs : tip_of t (rs ++ [r]) = hash r.
Proof. unfold tip_of. by rewrite last_snoc. Qed.

Lemma chain_app n t a b :
  chain n t (a ++ b) <-> chain n t a /\ chain (n + Z.of_nat (length a)) (tip_of t a) b.
Proof.
  revert n t. induction a as [|r a IH]; intros n t; simpl.
  { rewrite Z.add_0_r. tauto. }
  rewrite IH, tip_of_cons. replace (n + Z.of_nat (S (length a))) with (n + 1 + Z.of_nat (length a)) by lia.
  tauto.
Qed.

Lemma chain_snoc n t rs r :
  chain n t (rs ++ [r]) <-> chain n t rs /\ links (n + Z.of_nat (length rs)) (tip_of t rs) r.
Proof. rewrite chain_app. simpl. tauto. Qed.

#[local] Opaque sha256_hex.

Lemma sha256_hex_utf8 x : is_utf8 (sha256_hex x).
Proof.
  apply ascii_utf8. destruct (sha256_hex_shape x) as [_ H].
  eapply Forall_impl; [exact H|]. intros c Hc. apply bool_decide_eq_true in Hc.
  repeat (apply elem_of_cons in Hc as [->|Hc]; [vm_compute; discriminate|]). by apply elem_of_nil in Hc.
Qed.

Lemma sha256_hex_nonempty x : sha256_hex x <> "".
Proof.
  intros H. destruct (sha256_hex_shape x) as [Hl _]. rewrite H in Hl. discriminate.
Qed.

Lemma compute_hash_with h r : compute_hash (with_hash h r) = compute_hash r.
Proof. done. Qed.

(** The latest record of every reference. *)
Definition index_of (base : gmap string IntentRecord) (rs : list IntentRecord) : gmap string IntentRecord :=
  fold_left (fun ix r => <[rec_client_ref r := r]> ix) rs base.

Lemma index_of_snoc base rs r :
  index_of base (rs ++ [r]) = <[rec_client_ref r := r]> (index_of base rs).
Proof. unfold index_of. by rewrite fold_left_app. Qed.

Section chain.
Context `{J : JsonLib}.

(** What the scan has established about the records it kept. *)
Definition scan_inv (base : gmap string IntentRecord) (s : scan) : Prop :=
  chain 1 kGenesis (records s) /\ expected_seq s = 1 + Z.of_nat (length (records s)) /\
  running_hash s = tip_of kGenesis (records s) /\ scan_index s = index_of base (records s).

Lemma verify_line_links n t m r : verify_line n t m = Some (Ok r) -> links n t r.
Proof.
  unfold verify_line. intros H.
  repeat (apply bind_Some in H as (? & _ & H)).
  injection H as H. destruct (intent_op_from_string _); [|done]. cbv zeta in H.
  repeat (split_match_in H; [done|]). injection H as <-. to_prop. subst. by repeat split.
Qed.

Lemma scan_inv_accept base s len u r :
  scan_inv base s -> links (expected_seq s) (running_hash s) r -> scan_inv base (accept s len u r).
Proof.
  intros (Hc & He & Hr & Hi) Hl. unfold scan_inv, accept. simpl.
  rewrite chain_snoc, tip_of_snoc, index_of_snoc, length_app, <- Hr, <- He, Hi. simpl.
  split_and!; [done..|lia|done|done].
Qed.

Definition scan_of (e : scan_end) : scan :=
  match e with ScanThrown s | ScanFailed _ s | ScanTorn _ s | ScanDone s => s end.

Lemma scan_chunks_inv base cs s : scan_inv base s -> scan_inv base (scan_of (scan_chunks cs s)).
Proof.
  revert s. induction cs as [|[line u] cs IH]; intros s Hs; simpl; [done|].
  case_bool_decide; [by apply IH|].
  destruct (json_parse (str line)) as [| |m]; [by destruct u..|].
  destruct (verify_line _ _ m) as [[r|e]|] eqn:Hv; [|done..].
  apply IH, scan_inv_accept; [done|]. by eapply verify_line_links.
Qed.

(** The append cursor stands at the end of [rs]. *)
Definition cursor_at (log : IntentLog) (rs : list IntentRecord) : Prop :=
  next_seq log = 1 + Z.of_nat (length rs) /\ last_hash log = tip_of "" rs.

Lemma finish_replay_cursor base s t log :
  scan_inv base s -> cursor_at (finish_replay s t log) (records s) /\
  index (finish_replay s t log) = index_of base (records s) /\
  records_kept (torn_tail (finish_replay s t log)) = Z.of_nat (length (records s)) /\
  is_open (finish_replay s t log) = is_open log.
Proof.
  intros (Hc & _ & _ & Hx). unfold cursor_at, finish_replay, tip_of.
  destruct (last (records s)) as [r|] eqn:Hl; simpl.
  - apply last_Some in Hl as [rs' Hl]. rewrite Hl, chain_snoc in Hc.
    destruct Hc as [_ (Hs & _)]. rewrite Hx, Hl, length_app. simpl.
    split_and!; [lia|done..].
  - apply last_None in Hl. rewrite Hl in *. done.
Qed.

(** What a replay that returns records has read and left behind. *)
Lemma replay_ok_inv rio fix_io log file rs log' file' : rio <> ReadAbsent ->
  replay rio fix_io log file = (Some (Ok rs), log', file') ->
  chain 1 kGenesis rs /\ cursor_at log' rs /\ index log' = index_of (index log) rs /\
  records_kept (torn_tail log') = Z.of_nat (length rs) /\ is_open log' = is_open log.
Proof.
  unfold replay. intros Hrio H. set (contents := read_contents rio file) in *.
  pose proof (scan_chunks_inv (index log) (chunks (chars contents))
    (start_scan (set_tail no_torn (index log) log))) as Hi.
  specialize (Hi ltac:(done)). destruct rio; [| |done|done]; cbv zeta in H.
  all: destruct (scan_chunks _ _) as [s|e s|len s|s]; simpl in Hi; [done..| |];
    repeat (split_match_in H; try done);
    injection H as <- <- <-; (split; [apply Hi|]); exact (finish_replay_cursor _ _ _ _ Hi).
Qed.
End chain.

(** Two chains that end in the same hash are equal, or somewhere two records at
    the same number have different canonical bytes and the same SHA-256. *)
Definition collision (rs1 rs2 : list IntentRecord) : Prop :=
  exists i r1 r2, rs1 !! i = Some r1 /\ rs2 !! i = Some r2 /\
    canonical_bytes r1 <> canonical_bytes r2 /\ compute_hash r1 = compute_hash r2.

Lemma same_hash n1 n2 t1 t2 r1 r2 :
  links n1 t1 r1 -> links n2 t2 r2 -> hash r1 = hash r2 ->
  canonical_bytes r1 = canonical_bytes r2 -> r1 = r2.
Proof.
  intros _ _ Hh Hc. apply canonical_bytes_inj in Hc. destruct r1, r2. unfold with_hash in Hc.
  simpl in *. congruence.
Qed.

Lemma chain_tamper n t rs1 rs2 :
  length rs1 = length rs2 -> chain n t rs1 -> chain n t rs2 ->
  tip_of t rs1 = tip_of t rs2 -> rs1 = rs2 \/ collision rs1 rs2.
Proof.
  revert rs2. induction rs1 as [|r1 rs1 IH] using rev_ind; intros rs2 Hlen H1 H2 Ht.
  { destruct rs2; [by left|done]. }
  destruct rs2 as [|r2 rs2 _] using rev_ind; [rewrite length_app in Hlen; simpl in Hlen; lia|].
  rewrite !length_app in Hlen. simpl in Hlen.
  rewrite !tip_of_snoc in Ht. apply chain_snoc in H1 as [H1 L1]. apply chain_snoc in H2 as [H2 L2].
  assert (length rs1 = length rs2) as Hl by lia.
  destruct (decide (canonical_bytes r1 = canonical_bytes r2)) as [Hc|Hc].
  - pose proof (same_hash _ _ _ _ _ _ L1 L2 Ht Hc) as ->.
    destruct L1 as (_ & P1 & _), L2 as (_ & P2 & _).
    destruct (IH rs2 Hl H1 H2) as [->|(i & x & y & Hx & Hy & Hxy)]; [congruence|by left|right].
    exists i, x, y. by rewrite !lookup_app_l by (by eapply lookup_lt_Some).
  - right. exists (length rs1), r1, r2. rewrite Hl at 2.
    rewrite !list_lookup_middle by done. destruct L1 as (_ & _ & E1), L2 as (_ & _ & E2).
    split_and!; try done. congruence.
Qed.

Lemma index_of_last rs k :
  index_of ∅ rs !! k = last (filter (fun r => rec_client_ref r = k) rs).
Proof.
  induction rs as [|r rs IH] using rev_ind; [done|].
  rewrite index_of_snoc, filter_app. cbn [filter list_filter].
  destruct (decide (rec_client_ref r = k)) as [<-|Hne].
  - by rewrite lookup_insert_eq, last_snoc.
  - by rewrite lookup_insert_ne, app_nil_r.
Qed.

(** The log a boot opens. *)
Definition opened (p : string) : IntentLog := mkLog true p 1 "" no_torn ∅.

(** C12: when the boot replay returns records, whatever bytes are on disk and
    wherever the read of them stopped, the records form an unbroken hash chain from
    GENESIS numbered 1, 2, ..., each hash recomputed from the record's canonical bytes; the append cursor stands
    after the last one; and [last_for] answers with the latest of the returned
    records that carries the canonical form of the reference asked for. *)
Theorem replay_establishes `{J : JsonLib} rio fix_io p file rs log' file'
    (H : replay rio fix_io (opened p) file = (Some (Ok rs), log', file')) :
  chain 1 kGenesis rs /\
  next_seq log' = 1 + Z.of_nat (length rs) /\ last_hash log' = tip_of "" rs /\
  forall ref, last_for log' ref =
    last (filter (fun r => rec_client_ref r = canonical_text ref) rs).
Proof.
  assert (chain 1 kGenesis rs /\ cursor_at log' rs /\ index log' = index_of ∅ rs) as (Hc & [Hn Hl] & Hx).
  { destruct rio; [| |by injection H as <- <- <-|done]; by apply replay_ok_inv in H as (? & ? & ? & _). }
  split_and!; try done. intros ref. unfold last_for. rewrite Hx. apply index_of_last.
Qed.

(** the log is tamper evident: two files that replay to the same number of
    records and the same final hash replay to the very same records, unless at
    some number the two logs hold different canonical bytes with one SHA-256. *)
Theorem replay_tamper_evident `{J : JsonLib} io1 io2 p1 p2 file1 file2 rs1 rs2 log1 log2 f1 f2
    (H1 : replay ReadOk io1 (opened p1) file1 = (Some (Ok rs1), log1, f1))
    (H2 : replay ReadOk io2 (opened p2) file2 = (Some (Ok rs2), log2, f2))
    (Hseq : next_seq log1 = next_seq log2) (Htip : last_hash log1 = last_hash log2) :
  rs1 = rs2 \/ collision rs1 rs2.
Proof.
  apply replay_ok_inv in H1 as (Hc1 & [Hn1 Hl1] & _); [|done].
  apply replay_ok_inv in H2 as (Hc2 & [Hn2 Hl2] & _); [|done].
  assert (length rs1 = length rs2) as Hlen by lia.
  apply (chain_tamper 1 kGenesis); try done. rewrite Hl1, Hl2 in Htip.
  unfold tip_of in *. destruct (last rs1) eqn:E1, (last rs2) eqn:E2; try done.
  - apply last_None in E2. subst. by destruct rs1.
  - apply last_None in E1. subst. by destruct rs2.
Qed.

(** A small log for the witnesses, written by [append], and the one evaluation
    of its replay. *)
Definition one_record : string :=
  snd (append (J := bit_json) WriteDurable 1000 (opened "intent.log") "" PlaceOrder "a-1" "{}").

Definition all_repairs_ok : repair_io := mkRepairIo None true true.

Definition returned (n : nat) {A B} (r : option (result (list IntentRecord)) * A * B) : bool :=
  match r with (Some (Ok rs), _, _) => (length rs =? n)%nat | _ => false end.

Lemma returned_inv n {A B} (r : option (result (list IntentRecord)) * A * B) : returned n r = true ->
  exists rs log' file', r = (Some (Ok rs), log', file') /\ length rs = n.
Proof. destruct r as [[[[rs|]|] log'] file']; try discriminate. intros H%Nat.eqb_eq. eauto. Qed.

Lemma one_replayed :
  returned 1 (replay (J := bit_json) ReadOk all_repairs_ok (opened "intent.log") one_record) = true.
Proof. vm_compute. reflexivity. Qed.

Lemma replay_establishes_witness : exists rs, length rs = 1%nat /\ chain 1 kGenesis rs.
Proof.
  destruct (returned_inv _ _ one_replayed) as (rs & log' & file' & E & Hlen). exists rs. split; [exact Hlen|].
  exact (proj1 (replay_establishes (J := bit_json) _ _ _ _ _ _ _ E)).
Defined.

Lemma replay_tamper_evident_witness : exists rs : list IntentRecord, length rs = 1%nat /\ (rs = rs \/ collision rs rs).
Proof.
  destruct (returned_inv _ _ one_replayed) as (rs & log' & file' & E & Hlen). exists rs. split; [exact Hlen|].
  exact (replay_tamper_evident (J := bit_json) _ _ _ _ _ _ _ _ _ _ _ _ E E eq_refl eq_refl).
Defined.
