(* ===== verification/WriteAhead.v ===== *)
(** * WriteAhead: what the intent log promises across crashes

    The disk below [IntentLog]: bytes a failed append leaves behind, a power cut
    that drops any bytes not yet synced, a restart that replays. The theorems
    show that every record [append] acknowledged is in whatever a later replay
    returns, and when a replay succeeds. *)

From S2P Require Import Prelude Errors Sha256 Utf8 Json IntentLog.

#[local] Opaque sha256_hex.

(** ** Records and lines *)

Section disk.
Context `{J : JsonLib} {L : JsonLaws J}.

(** Every field survives the JSON projection. *)
Definition rec_ok (r : IntentRecord) : Prop :=
  schema_version r = kSchemaVersion /\ is_int64 (seq r) /\ is_int64 (wall_ts_ns r) /\
  is_utf8 (rec_client_ref r) /\ is_utf8 (payload_json r) /\ is_utf8 (prev_hash r) /\
  is_utf8 (hash r).

Definition text (r : IntentRecord) : string := json_dump (record_object r).

Lemma ascii_op_utf8 o : is_utf8 (op_to_string o).
Proof. apply ascii_utf8. destruct o; by repeat constructor; vm_compute. Qed.

Lemma record_object_plain r : rec_ok r -> plain_object (record_object r).
Proof.
  intros (Hv & Hs & Ht & Hc & Hp & Hh & Hg). unfold plain_object, record_object.
  assert (is_int64 (schema_version r)) by (rewrite Hv; unfold kSchemaVersion; unfold_ints; lia).
  pose proof (ascii_op_utf8 (op r)).
  assert (forall s, is_utf8 s -> plain_value (of_string s)) by (right; right; eauto).
  assert (forall z, is_int64 z -> plain_value (of_int z)) by (left; eauto).
  repeat (apply map_Forall_insert_2; [split; [by apply identifier_b|by auto]|]).
  apply map_Forall_empty.
Qed.

(** Reading a line back. *)
Lemma verify_record n t r :
  rec_ok r ->
  (links n t r -> verify_line n t (record_object r) = Some (Ok r)) /\
  (seq r <> n -> exists e, verify_line n t (record_object r) = Some (Err e)).
Proof.
  intros Hok. destruct (Hok) as (Hv & Hs & Ht & Hc & Hp & Hh & Hg).
  assert (is_int32 (schema_version r)) by (rewrite Hv; unfold kSchemaVersion; unfold_ints; lia).
  pose proof (ascii_op_utf8 (op r)).
  unfold verify_line, value_or.
  change (record_object r !! "schema_version") with (Some (of_int (schema_version r))).
  change (record_object r !! "seq") with (Some (of_int (seq r))).
  change (record_object r !! "client_ref") with (Some (of_string (rec_client_ref r))).
  change (record_object r !! "payload") with (Some (of_string (payload_json r))).
  change (record_object r !! "wall_ts_ns") with (Some (of_int (wall_ts_ns r))).
  change (record_object r !! "prev_hash") with (Some (of_string (prev_hash r))).
  change (record_object r !! "hash") with (Some (of_string (hash r))).
  change (record_object r !! "op") with (Some (of_string (op_to_string (op r)))).
  cbn beta iota. rewrite as_int32_of, !as_int64_of, !as_string_of by done.
  cbn [mbind option_bind].
  replace (intent_op_from_string (op_to_string (op r))) with (Some (op r)) by (by destruct (op r)).
  assert (r = mkRecord (schema_version r) (seq r) (rec_client_ref r) (op r) (payload_json r)
    (wall_ts_ns r) (prev_hash r) (hash r)) as Hr by (by destruct r). rewrite <- Hr.
  split.
  - intros (H1 & H2 & H3). by rewrite <- H1, <- H2, <- H3, Z.eqb_refl, !String.eqb_refl.
  - intros Hne. destruct (Z.eqb_spec (seq r) n); [done|]. simpl. eauto.
Qed.

Lemma parse_text r : rec_ok r -> json_parse (text r) = Object (record_object r).
Proof. intros. by apply parse_dump, record_object_plain. Qed.

(** ** Lines *)

(** The lines of a list of records. *)
Definition lines (rs : list IntentRecord) : string :=
  foldr (fun r acc => to_json_line r +:+ acc) "" rs.

Lemma lines_app a b : lines (a ++ b) = lines a +:+ lines b.
Proof. induction a as [|r a IH]; simpl; [done|]. by rewrite IH, str_app_assoc. Qed.

Lemma to_json_line_chars r : chars (to_json_line r) = chars (text r) ++ [newline].
Proof. unfold to_json_line, text. by rewrite chars_app. Qed.

Lemma line_length r : String.length (to_json_line r) = S (String.length (text r)).
Proof. rewrite <- !chars_length, to_json_line_chars, length_app. simpl. lia. Qed.

Lemma text_one_line r : newline ∉ chars (text r).
Proof. apply dump_one_line. Qed.

Lemma text_nonempty r : chars (text r) <> [].
Proof. apply chars_nonempty, dump_nonempty. Qed.

(** ** Scanning complete lines *)

Definition accept_line (s : scan) (r : IntentRecord) : scan :=
  accept s (Z.of_nat (String.length (text r))) false r.

Definition accept_all (s : scan) (rs : list IntentRecord) : scan := fold_left accept_line rs s.

Lemma scan_line r rest s :
  rec_ok r -> links (expected_seq s) (running_hash s) r ->
  scan_chunks ((chars (text r), false) :: rest) s = scan_chunks rest (accept_line s r).
Proof.
  intros Hok Hl. simpl. rewrite bool_decide_eq_false_2 by apply text_nonempty.
  rewrite str_chars, parse_text by done.
  destruct (verify_record (expected_seq s) (running_hash s) r Hok) as [-> _]; [|done].
  unfold accept_line. by rewrite <- chars_length.
Qed.

(** A complete line with the wrong number ends the scan in an error. *)
Lemma scan_wrong_seq r u rest s :
  rec_ok r -> seq r <> expected_seq s ->
  exists e, scan_chunks ((chars (text r), u) :: rest) s = ScanFailed e s.
Proof.
  intros Hok Hne. simpl. rewrite bool_decide_eq_false_2 by apply text_nonempty.
  rewrite str_chars, parse_text by done.
  destruct (verify_record (expected_seq s) (running_hash s) r Hok) as [_ [e ->]]; eauto.
Qed.

Lemma scan_lines rs rest s :
  Forall rec_ok rs -> chain (expected_seq s) (running_hash s) rs ->
  scan_chunks (chunks (chars (lines rs +:+ rest))) s = scan_chunks (chunks (chars rest)) (accept_all s rs).
Proof.
  revert s. induction rs as [|r rs IH]; intros s Hok Hc; [done|].
  apply Forall_cons in Hok as [Hr Hok]. destruct Hc as [Hl Hc]. simpl.
  rewrite str_app_assoc, chars_app, to_json_line_chars, <- app_assoc. simpl.
  rewrite chunks_line by apply text_one_line. rewrite scan_line by done. by rewrite IH.
Qed.

Lemma accept_all_fields s rs :
  records (accept_all s rs) = (records s ++ rs)%list /\
  expected_seq (accept_all s rs) = expected_seq s + Z.of_nat (length rs) /\
  running_hash (accept_all s rs) = tip_of (running_hash s) rs /\
  tail_missing_newline (accept_all s rs) = tail_missing_newline s /\
  pos (accept_all s rs) = pos s + Z.of_nat (String.length (lines rs)) /\
  scan_index (accept_all s rs) = index_of (scan_index s) rs.
Proof.
  revert s. induction rs as [|r rs IH]; intros s; simpl.
  { rewrite app_nil_r. split_and!; try done; lia. }
  destruct (IH (accept_line s r)) as (-> & -> & -> & -> & -> & ->). simpl.
  rewrite <- app_assoc, tip_of_cons, str_length_app, line_length. split_and!; try done; lia.
Qed.

(** ** What failed and successful appends leave after the last good line *)

(** The first [p_len] bytes of a record's line; [p_acked] when [append] returned
    the record. *)
Record piece := mkPiece { p_rec : IntentRecord; p_len : nat; p_acked : bool }.

Definition p_text (q : piece) : string := str_take (p_len q) (to_json_line (p_rec q)).

Definition piece_ok (q : piece) : Prop :=
  rec_ok (p_rec q) /\ (0 < p_len q <= String.length (to_json_line (p_rec q)))%nat /\
  (p_acked q = true -> p_len q = String.length (to_json_line (p_rec q))).

Definition full (q : piece) : bool := bool_decide (p_len q = String.length (to_json_line (p_rec q))).

Definition texts (ps : list piece) : string := foldr (fun q acc => p_text q +:+ acc) "" ps.

Lemma full_text q : full q = true -> p_text q = text (p_rec q) +:+ nl.
Proof.
  intros H. apply bool_decide_eq_true in H. unfold p_text, str_take. apply (inj chars).
  by rewrite chars_str, H, <- chars_length, firstn_all.
Qed.

Lemma partial_text q : piece_ok q -> full q = false ->
  p_text q = str_take (p_len q) (text (p_rec q)) /\ (0 < p_len q <= String.length (text (p_rec q)))%nat.
Proof.
  intros (_ & Hlen & _) H. apply bool_decide_eq_false in H. rewrite line_length in *.
  split; [|lia]. unfold p_text, str_take. f_equal. rewrite to_json_line_chars.
  apply take_app_le. rewrite chars_length. lia.
Qed.

Lemma partial_piece q : piece_ok q -> full q = false ->
  text_piece (p_text q) /\ newline ∉ chars (p_text q).
Proof.
  intros Hok Hf. destruct (partial_text q Hok Hf) as [-> Hlen]. split.
  - split.
    + intros H. apply (f_equal chars), (f_equal length) in H. unfold str_take in H.
      rewrite chars_str, length_take, chars_length in H. simpl in H. lia.
    + exists (record_object (p_rec q)), (str (drop (p_len q) (chars (text (p_rec q))))).
      split; [apply record_object_plain, Hok|]. apply (inj chars). unfold str_take.
      rewrite chars_app, !chars_str. by rewrite take_drop.
  - unfold str_take. rewrite chars_str. intros H. apply elem_of_take in H as (i & Hi & _).
    apply list_elem_of_lookup_2 in Hi. by apply text_one_line in Hi.
Qed.

Lemma text_is_piece r : rec_ok r -> text_piece (text r).
Proof.
  intros. split; [apply dump_nonempty|]. exists (record_object r), "".
  split; [by apply record_object_plain|]. by rewrite str_app_nil_r.
Qed.

(** ** Scanning what is left *)

Abbreviation cat := (foldr String.append "").

Lemma cat_app a b : cat (a ++ b) = (cat a +:+ cat b).
Proof. induction a as [|x a IH]; simpl; [done|]. by rewrite IH, str_app_assoc. Qed.

Lemma cat_nonempty g : Forall text_piece g -> g <> [] -> chars (cat g) <> [].
Proof.
  destruct g as [|p g]; [done|]. intros [[Hp _] _]%Forall_cons _. simpl.
  rewrite chars_app. by destruct p.
Qed.

Lemma cat_one_line acc :
  Forall (fun p => newline ∉ chars p) acc -> newline ∉ chars (cat acc).
Proof.
  induction 1 as [|p acc Hp _ IH]; simpl; [apply not_elem_of_nil|].
  rewrite chars_app, not_elem_of_app. by split.
Qed.

(** Beginnings of texts are glued to what follows up to the next complete line. *)
Lemma chunks_glued acc ps :
  Forall (fun p => text_piece p /\ newline ∉ chars p) acc -> acc <> [] -> Forall piece_ok ps ->
  (Forall (fun q => full q = false) ps /\ exists g,
     length g = (length acc + length ps)%nat /\ Forall text_piece g /\
     chunks (chars (cat acc +:+ texts ps)) = [(chars (cat g), true)]) \/
  (exists g rest, (length acc + 1 <= length g)%nat /\ Forall text_piece g /\
     chunks (chars (cat acc +:+ texts ps)) = (chars (cat g), false) :: rest).
Proof.
  intros Hacc Hne Hps. revert acc Hacc Hne. induction Hps as [|q ps Hq Hps IH]; intros acc Hacc Hne.
  - left. split; [constructor|]. exists acc. apply Forall_and in Hacc as [Ha Hn]. simpl.
    rewrite str_app_nil_r. split_and!; [lia|done|].
    apply chunks_tail; [by apply cat_one_line|by apply cat_nonempty].
  - destruct (full q) eqn:Hf.
    + right. apply Forall_and in Hacc as [Ha Hn].
      exists (acc ++ [text (p_rec q)]), (chunks (chars (texts ps))). split_and!.
      * rewrite length_app. simpl. lia.
      * apply Forall_app. split; [done|]. constructor; [|constructor]. apply text_is_piece, Hq.
      * simpl. rewrite (full_text q Hf), cat_app. simpl. rewrite !str_app_nil_r, !chars_app. simpl.
        rewrite !app_assoc, <- app_assoc. simpl. apply chunks_line.
        rewrite not_elem_of_app. split; [by apply cat_one_line|apply text_one_line].
    + destruct (IH (acc ++ [p_text q])) as [(Hn & g & Hl & Hg & Hc)|(g & rest & Hl & Hg & Hc)].
      * apply Forall_app. split; [done|]. constructor; [by apply partial_piece|constructor].
      * by destruct acc.
      * left. split; [by constructor|]. exists g. rewrite length_app in Hl. simpl in *.
        split_and!; [lia|done|]. rewrite <- Hc, cat_app. simpl.
        by rewrite str_app_nil_r, str_app_assoc.
      * right. exists g, rest. rewrite length_app in Hl. simpl in *. split_and!; [lia|done|].
        rewrite <- Hc, cat_app. simpl. by rewrite str_app_nil_r, str_app_assoc.
Qed.

Lemma scan_glued g u rest s : Forall text_piece g -> (2 <= length g)%nat ->
  exists e len, scan_chunks ((chars (cat g), u) :: rest) s = if u : bool then ScanTorn len s else ScanFailed e s.
Proof.
  intros Hg Hlen. simpl. rewrite bool_decide_eq_false_2.
  - rewrite str_chars, parse_glued by done. destruct u; [exists (chain_error "")|eexists; exists 0]; eauto.
  - apply cat_nonempty; [done|]. intros ->. simpl in Hlen. lia.
Qed.

Definition unacked (q : piece) : Prop := p_acked q = false.

Lemma partial_unacked q : piece_ok q -> full q = false -> unacked q.
Proof.
  intros (_ & _ & Ha) Hf. unfold unacked. destruct (p_acked q); [|done].
  apply bool_decide_eq_false in Hf. by rewrite Ha in Hf.
Qed.

Lemma partials_unacked ps :
  Forall piece_ok ps -> Forall (fun q => full q = false) ps -> Forall unacked ps.
Proof.
  intros H1 H2. induction H1; [constructor|]. apply Forall_cons in H2 as [? ?].
  constructor; [by apply partial_unacked|auto].
Qed.

(** A cut-short piece followed by more. *)
Lemma scan_partial_more q ps s : piece_ok q -> full q = false -> Forall piece_ok ps -> ps <> [] ->
  (exists e, scan_chunks (chunks (chars (texts (q :: ps)))) s = ScanFailed e s) \/
  (Forall unacked ps /\ exists len, scan_chunks (chunks (chars (texts (q :: ps)))) s = ScanTorn len s).
Proof.
  intros Hq Hf Hps Hne.
  destruct (chunks_glued [p_text q] ps) as [(Hn & g & Hl & Hg & Hc)|(g & rest & Hl & Hg & Hc)]; try done.
  { constructor; [by apply partial_piece|constructor]. }
  all: simpl in Hc, Hl; rewrite str_app_nil_r in Hc; simpl texts; rewrite Hc.
  - destruct ps as [|q2 ps]; [done|]. simpl in Hl.
    destruct (scan_glued g true [] s Hg ltac:(lia)) as (e & len & ->).
    right. split; [by apply partials_unacked|eauto].
  - destruct (scan_glued g false rest s Hg ltac:(lia)) as (e & len & ->). eauto.
Qed.

(** A lone piece is cut short, and torn, or complete but for its newline. *)
Lemma scan_partial_last q s : piece_ok q -> full q = false ->
  (exists len, scan_chunks (chunks (chars (texts [q]))) s = ScanTorn len s) \/
  (p_text q = text (p_rec q) /\ chunks (chars (texts [q])) = [(chars (text (p_rec q)), true)]).
Proof.
  intros Hq Hf. destruct (partial_piece q Hq Hf) as [[Hp _] Hn].
  simpl texts. rewrite str_app_nil_r, chunks_tail; [|done|by apply chars_nonempty].
  destruct (partial_text q Hq Hf) as [Ht Hlen].
  destruct (decide (p_len q = String.length (text (p_rec q)))) as [He|He].
  - right. assert (p_text q = text (p_rec q)) as ->; [|done].
    rewrite Ht, He. unfold str_take. rewrite <- chars_length, firstn_all. apply str_chars.
  - left. simpl. rewrite bool_decide_eq_false_2 by by apply chars_nonempty. rewrite str_chars.
    rewrite (parse_prefix (record_object (p_rec q)) _ (str (drop (p_len q) (chars (text (p_rec q)))))); [eauto|..].
    + apply record_object_plain, Hq.
    + apply (inj chars). rewrite Ht. unfold str_take. rewrite chars_app, !chars_str. by rewrite take_drop.
    + done.
    + intros H. apply (f_equal chars), (f_equal length) in H.
      rewrite chars_str, length_drop, chars_length in H. simpl in H. lia.
Qed.

Lemma scan_complete_last r s : rec_ok r -> links (expected_seq s) (running_hash s) r ->
  exists len, scan_chunks [(chars (text r), true)] s = ScanDone (accept s len true r).
Proof.
  intros Hr Hl. simpl. rewrite bool_decide_eq_false_2 by apply text_nonempty.
  rewrite str_chars, parse_text by done.
  destruct (verify_record (expected_seq s) (running_hash s) r Hr) as [-> _]; [eauto|done].
Qed.

(** The pieces after the last good line, in the order they were written: the
    first one failed, and whatever was appended next carries the same number. *)
Definition tail_ok (n : Z) (t : string) (ps : list piece) : Prop :=
  match ps with
  | [] => True
  | q1 :: rest => links n t (p_rec q1) /\ unacked q1 /\
      match rest with [] => True | q2 :: _ => seq (p_rec q2) = n end
  end.

Definition scan_tail_ends (ps : list piece) (s : scan) (e : scan_end) : Prop :=
  match e with
  | ScanThrown _ | ScanFailed _ _ => (2 <= length ps)%nat
  | ScanTorn _ s' => Forall unacked ps /\
      (s' = s \/ exists q ps', ps = q :: ps' /\ full q = true /\ s' = accept_line s (p_rec q))
  | ScanDone s' => Forall unacked ps /\
      (ps = [] /\ s' = s \/
       exists q, ps = [q] /\
         (full q = true /\ s' = accept_line s (p_rec q) \/
          p_text q = text (p_rec q) /\ exists len, s' = accept s len true (p_rec q)))
  end.

Lemma scan_full_first q ps s :
  piece_ok q -> full q = true -> links (expected_seq s) (running_hash s) (p_rec q) ->
  scan_chunks (chunks (chars (texts (q :: ps)))) s =
  scan_chunks (chunks (chars (texts ps))) (accept_line s (p_rec q)).
Proof.
  intros Hq Hf Hl. simpl texts. rewrite (full_text q Hf), str_app_assoc, chars_app. simpl.
  rewrite chunks_line by apply text_one_line. by apply scan_line; [apply Hq|].
Qed.

Lemma scan_tail ps s : Forall piece_ok ps -> tail_ok (expected_seq s) (running_hash s) ps ->
  scan_tail_ends ps s (scan_chunks (chunks (chars (texts ps))) s).
Proof.
  intros Hps Ht. destruct ps as [|q ps]; [split; [constructor|by left]|].
  destruct Ht as (Hl & Hu & Hnext). apply Forall_cons in Hps as [Hq Hps].
  destruct (full q) eqn:Hf.
  - rewrite scan_full_first by done. set (s1 := accept_line s (p_rec q)).
    destruct ps as [|q2 ps]; [split; [by repeat constructor|right; exists q; eauto]|].
    apply Forall_cons in Hps as [Hq2 Hps].
    assert (seq (p_rec q2) <> expected_seq s1) as Hne by (simpl; lia).
    destruct (full q2) eqn:Hf2.
    + simpl texts. rewrite (full_text q2 Hf2), str_app_assoc, chars_app. simpl chars.
      rewrite chunks_line by apply text_one_line.
      destruct (scan_wrong_seq (p_rec q2) false (chunks (chars (texts ps))) s1) as [e ->]; [apply Hq2|done|].
      simpl. lia.
    + assert (unacked q2) by by apply partial_unacked.
      destruct ps as [|q3 ps].
      * destruct (scan_partial_last q2 s1 Hq2 Hf2) as [[len ->]|[E ->]].
        -- split; [by repeat (constructor; [done|])|right; exists q; eexists; eauto].
        -- destruct (scan_wrong_seq (p_rec q2) true [] s1) as [e ->]; [apply Hq2|done|]. simpl. lia.
      * destruct (scan_partial_more q2 (q3 :: ps) s1 Hq2 Hf2 Hps ltac:(done)) as [[e ->]|[Hn [len ->]]].
        -- simpl. lia.
        -- split; [by repeat (constructor; [done|])|right; exists q; eexists; eauto].
  - destruct ps as [|q2 ps].
    + destruct (scan_partial_last q s Hq Hf) as [[len ->]|[E ->]].
      * split; [by repeat constructor|by left].
      * destruct (scan_complete_last (p_rec q) s) as [len ->]; [apply Hq|done|]. split; [by repeat constructor|]. right. exists q. eauto.
    + destruct (scan_partial_more q (q2 :: ps) s Hq Hf Hps ltac:(done)) as [[e ->]|[Hn [len ->]]].
      * simpl. lia.
      * split; [by constructor|by left].
Qed.

(** ** Replaying a file of good lines and left-over pieces *)

(** A file: verified lines, then what failed appends left. *)
Record disk_inv (recs : list IntentRecord) (ps : list piece) : Prop := {
  di_ok : Forall rec_ok recs;
  di_chain : chain 1 kGenesis recs;
  di_pieces : Forall piece_ok ps;
  di_tail : tail_ok (1 + Z.of_nat (length recs)) (tip_of kGenesis recs) ps;
}.

Lemma lines_snoc rs r : lines (rs ++ [r]) = lines rs +:+ to_json_line r.
Proof. rewrite lines_app. simpl. by rewrite str_app_nil_r. Qed.

Lemma full_line q : full q = true -> p_text q = to_json_line (p_rec q).
Proof. apply full_text. Qed.

(** The whole line of a record that was not acknowledged. *)
Definition whole (r : IntentRecord) : piece := mkPiece r (String.length (to_json_line r)) false.

Lemma whole_text r : p_text (whole r) = to_json_line r.
Proof. apply (full_line (whole r)). by apply bool_decide_eq_true. Qed.

Lemma whole_lines recs r : lines (recs ++ [r]) = lines recs +:+ texts [whole r].
Proof. rewrite lines_snoc. simpl. by rewrite whole_text, str_app_nil_r. Qed.

Lemma scan_disk p recs ps : disk_inv recs ps ->
  let s := accept_all (start_scan (opened p)) recs in
  scan_chunks (chunks (chars (lines recs +:+ texts ps))) (start_scan (opened p)) =
    scan_chunks (chunks (chars (texts ps))) s /\
  scan_tail_ends ps s (scan_chunks (chunks (chars (texts ps))) s) /\
  records s = recs /\ pos s = Z.of_nat (String.length (lines recs)) /\ tail_missing_newline s = false.
Proof.
  intros [Hok Hc Hps Ht] s.
  destruct (accept_all_fields (start_scan (opened p)) recs) as (Hr & He & Hh & Hm & Hp & _).
  fold s in Hr, He, Hh, Hm, Hp. split_and!; try done.
  - by apply scan_lines.
  - apply scan_tail; [done|]. by rewrite He, Hh.
Qed.

(** The record kept besides [recs], if any. *)
Definition extra (ps : list piece) (rs : list IntentRecord) : Prop :=
  rs = [] \/ exists q rest, ps = q :: rest /\ rs = [p_rec q].

Definition returned_ok (out : option (result (list IntentRecord))) : bool :=
  match out with Some (Ok _) => true | _ => false end.

Lemma replay_disk fix_io p recs ps out log' file' : disk_inv recs ps ->
  replay ReadOk fix_io (opened p) (lines recs +:+ texts ps) = (out, log', file') ->
  match out with
  | Some (Ok rs) => Forall unacked ps /\ file' = lines rs /\ exists ex, rs = (recs ++ ex)%list /\ extra ps ex
  | _ => exists ps', file' = lines recs +:+ texts ps' /\
      (ps' = ps \/ Forall unacked ps /\ (ps' = [] \/ exists q rest, ps = q :: rest /\
        ps' = [whole (p_rec q)]))
  end.
Proof.
  intros Hd. unfold replay.
  cbv zeta; cbn [read_contents].
  change (set_tail no_torn (index (opened p)) (opened p)) with (opened p).
  destruct (scan_disk p recs ps Hd) as (-> & He & Hr & Hp & Hm).
  set (s := accept_all (start_scan (opened p)) recs) in *.
  destruct (scan_chunks _ s) as [s'|e s'|len s'|s']; simpl in He.
  - intros [= <- <- <-]. eauto.
  - intros [= <- <- <-]. eauto.
  - destruct He as [Hu Hs'].
    assert (exists ex, str_take (Z.to_nat (pos s')) (lines recs +:+ texts ps) = lines (recs ++ ex) /\
      records s' = (recs ++ ex)%list /\ extra ps ex) as (ex & Hfile & Hrec & Hex).
    { destruct Hs' as [->|(q & rest & -> & Hf & ->)].
      - exists []. rewrite Hp, Nat2Z.id, str_take_app_length, app_nil_r. split_and!; try done. by left.
      - exists [p_rec q]. simpl. rewrite Hr, Hp, (full_line q Hf).
        rewrite <- str_app_assoc, <- lines_snoc.
        replace (Z.to_nat _) with (String.length (lines (recs ++ [p_rec q])))
          by (rewrite lines_snoc, str_length_app, line_length; lia).
        rewrite str_take_app_length. split_and!; try done. right; eauto. }
    destruct (resize_error fix_io); [intros [= <- <- <-]; eauto|].
    rewrite Hfile. destruct (is_open (opened p) && sync_ok fix_io); intros [= <- <- <-].
    + rewrite Hrec. eauto.
    + destruct Hex as [->|(q & rest & -> & ->)].
      * exists []. rewrite !app_nil_r. simpl. rewrite str_app_nil_r. auto.
      * eexists. split; [apply whole_lines|eauto 7].
  - destruct He as [Hu Hs'].
    assert (exists ex, records s' = (recs ++ ex)%list /\ extra ps ex /\
      (if tail_missing_newline s' then exists q, ps = [q] /\ ex = [p_rec q] /\ p_text q = text (p_rec q)
       else lines recs +:+ texts ps = lines (recs ++ ex))) as (ex & Hrec & Hex & Hnl).
    { destruct Hs' as [[-> ->]|(q & -> & [[Hf ->]|[Htx [len ->]]])].
      - exists []. rewrite Hm, app_nil_r. simpl. rewrite str_app_nil_r. split_and!; try done. by left.
      - exists [p_rec q]. simpl. rewrite Hr, Hm, (full_line q Hf), str_app_nil_r, lines_snoc.
        split_and!; try done. right; eauto.
      - exists [p_rec q]. simpl. rewrite Hr. split_and!; [done|right; eauto|eauto]. }
    destruct (tail_missing_newline s').
    + destruct Hnl as (q & -> & -> & Htx).
      assert ((lines recs +:+ texts [q]) +:+ nl = lines (recs ++ [p_rec q])) as Hl.
      { rewrite lines_snoc. simpl. by rewrite str_app_nil_r, Htx, str_app_assoc. }
      destruct (is_open (opened p) && putc_ok fix_io); cbn [negb]; [|intros [= <- <- <-]; exists [q]; auto].
      rewrite Hl. destruct (sync_ok fix_io); cbn [negb]; intros [= <- <- <-].
      * rewrite Hrec. eauto 6.
      * eexists. split; [apply whole_lines|eauto 7].
    + intros [= <- <- <-]. rewrite Hnl, Hrec. eauto.
Qed.

(** With at most one left-over piece and a working file system, the replay
    returns. *)
Lemma replay_available fix_io p recs ps : disk_inv recs ps -> (length ps <= 1)%nat ->
  resize_error fix_io = None -> putc_ok fix_io = true -> sync_ok fix_io = true ->
  returned_ok (replay ReadOk fix_io (opened p) (lines recs +:+ texts ps)).1.1 = true.
Proof.
  intros Hd Hl H1 H2 H3. unfold replay.
  cbv zeta; cbn [read_contents].
  change (set_tail no_torn (index (opened p)) (opened p)) with (opened p).
  destruct (scan_disk p recs ps Hd) as (-> & He & _). rewrite H1, H2, H3.
  destruct (scan_chunks _ _) as [s'|e s'|len s'|s']; simpl in He; [lia..|done|].
  by destruct (tail_missing_newline s').
Qed.

(** ** Power cuts *)

Lemma p_text_length q : piece_ok q -> String.length (p_text q) = p_len q.
Proof.
  intros (_ & H & _). unfold p_text, str_take.
  rewrite <- chars_length, chars_str, length_take, chars_length. lia.
Qed.

(** The pieces that survive when only [k] of their bytes do. *)
Fixpoint cut (k : nat) (ps : list piece) : list piece :=
  match ps with
  | [] => []
  | q :: rest =>
      if (p_len q <=? k)%nat then q :: cut (k - p_len q) rest
      else if (k =? 0)%nat then [] else [mkPiece (p_rec q) k false]
  end.

(** Every acknowledged piece lies within the first [k] bytes. *)
Fixpoint covered (k : nat) (ps : list piece) : Prop :=
  match ps with
  | [] => True
  | q :: rest =>
      if (p_len q <=? k)%nat then covered (k - p_len q) rest else Forall unacked (q :: rest)
  end.

Lemma cut_text k ps : Forall piece_ok ps -> texts (cut k ps) = str_take k (texts ps).
Proof.
  intros H. revert k. induction H as [|q ps Hq Hps IH]; intros k; simpl.
  { unfold str_take. by destruct k. }
  pose proof (p_text_length q Hq) as Hl. destruct (Nat.leb_spec (p_len q) k).
  - simpl. by rewrite IH, str_take_app_ge, Hl by lia.
  - rewrite str_take_app_le by lia. destruct (Nat.eqb_spec k 0) as [->|]; [done|].
    simpl. rewrite str_app_nil_r. unfold p_text. simpl. by rewrite str_take_take by lia.
Qed.

Lemma cut_ok k ps : Forall piece_ok ps -> Forall piece_ok (cut k ps).
Proof.
  intros H. revert k. induction H as [|q ps Hq Hps IH]; intros k; simpl; [done|].
  destruct (Nat.leb_spec (p_len q) k); [by constructor|].
  destruct (Nat.eqb_spec k 0); [done|]. repeat constructor; simpl; try apply Hq; [lia| |done].
  destruct Hq as (_ & ? & _). lia.
Qed.

Lemma cut_tail_ok n t k ps : tail_ok n t ps -> tail_ok n t (cut k ps).
Proof.
  destruct ps as [|q1 ps]; simpl; [done|]. intros (Hl & Hu & Hn).
  destruct (p_len q1 <=? k)%nat; [|by destruct (k =? 0)%nat].
  split_and!; [done..|]. destruct ps as [|q2 ps]; simpl; [done|].
  destruct (p_len q2 <=? k - p_len q1)%nat; [done|]. by destruct (k - p_len q1 =? 0)%nat.
Qed.

Lemma cut_unacked k ps : Forall unacked ps -> Forall unacked (cut k ps).
Proof.
  intros H. revert k. induction H as [|q ps Hq Hps IH]; intros k; simpl; [done|].
  destruct (_ <=? k)%nat; [by constructor|]. destruct (k =? 0)%nat; by repeat constructor.
Qed.

Lemma unacked_covered k ps : Forall unacked ps -> covered k ps.
Proof.
  intros H. revert k. induction H as [|q ps Hq Hps IH]; intros k; simpl; [done|].
  destruct (_ <=? k)%nat; [done|by constructor].
Qed.

Lemma covered_mono k k' ps : (k <= k')%nat -> covered k ps -> covered k' ps.
Proof.
  revert k k'. induction ps as [|q ps IH]; intros k k' Hk; simpl; [done|].
  destruct (Nat.leb_spec (p_len q) k), (Nat.leb_spec (p_len q) k'); try lia.
  - apply IH. lia.
  - intros Hu. apply unacked_covered. by apply Forall_cons in Hu as [_ Hu].
  - done.
Qed.

(** A cut beyond the synced bytes loses no acknowledged piece. *)
Definition acked_of (ps : list piece) : list IntentRecord := map p_rec (filter p_acked ps).

Lemma acked_of_unacked ps : Forall unacked ps -> acked_of ps = [].
Proof.
  unfold acked_of. induction 1 as [|q ps Hq _ IH]; simpl; [done|].
  rewrite filter_cons_False; [done|]. unfold unacked in Hq. rewrite Hq. by intros [].
Qed.

Lemma cut_acked k ps : covered k ps -> acked_of (cut k ps) = acked_of ps.
Proof.
  revert k. induction ps as [|q ps IH]; intros k; simpl; [done|].
  destruct (p_len q <=? k)%nat.
  - intros Hc. unfold acked_of in *. rewrite !filter_cons. destruct (decide (p_acked q)); simpl; by rewrite IH.
  - intros Hu. rewrite (acked_of_unacked _ Hu). apply acked_of_unacked.
    destruct (k =? 0)%nat; by repeat constructor.
Qed.

Lemma cut_covered j k ps : (j <= k)%nat -> covered j ps -> covered j (cut k ps).
Proof.
  revert j k. induction ps as [|q ps IH]; intros j k Hjk; simpl; [done|].
  destruct (Nat.leb_spec (p_len q) k).
  - simpl. destruct (Nat.leb_spec (p_len q) j); [apply IH; lia|].
    intros Hu. apply Forall_cons in Hu as [Hq Hu]. constructor; [done|by apply cut_unacked].
  - destruct (Nat.eqb_spec k 0); [done|]. intros _. apply unacked_covered. by repeat constructor.
Qed.

Lemma covered_all k ps : Forall piece_ok ps -> (String.length (texts ps) <= k)%nat -> covered k ps.
Proof.
  intros H. revert k. induction H as [|q ps Hq Hps IH]; intros k; simpl; [done|].
  rewrite str_length_app, p_text_length by done. intros Hk.
  destruct (Nat.leb_spec (p_len q) k); [|lia]. apply IH. lia.
Qed.

Lemma covered_snoc k ps q : unacked q -> covered k ps -> covered k (ps ++ [q]).
Proof.
  intros Hq. revert k. induction ps as [|q' ps IH]; intros k; simpl.
  - intros _. destruct (_ <=? k)%nat; [done|by repeat constructor].
  - destruct (_ <=? k)%nat; [apply IH|]. intros Hu. apply Forall_cons in Hu as [H1 H2].
    constructor; [done|]. apply Forall_app. by repeat constructor.
Qed.

(** ** Runs: appends, power cuts and restarts *)

(** The process and the disk: [w_synced] bytes of the file are on stable storage;
    [w_acked] are the records [append] has returned since the log was created. *)
Record Wal := mkWal {
  w_up : bool;
  w_log : IntentLog;
  w_file : string;
  w_synced : nat;
  w_acked : list IntentRecord;
}.

Definition wal_init (p : string) : Wal := mkWal true (opened p) "" 0 [].

(** The boot read of the log delivered the whole file, or the file could not be
    opened. A read that stops on an error before the end is not one of these:
    [replay] takes what it got for the file ([stopped_read_drops_acknowledged]). *)
Definition read_complete (rio : read_io) : Prop :=
  match rio with ReadOk | ReadUnreadable => True | ReadStopped _ | ReadAbsent => False end.

(** One append, whatever the write does; a record number fits its [int64]. A
    restart keeps the synced bytes and any number of the others, opens a fresh
    log and replays it from a complete read; a process whose replay did not return
    records stays down. *)
Inductive wal_kind := Acked | AppendFailed | Restarted | RestartFailed.

Inductive wal_step : wal_kind -> Wal -> Wal -> Prop :=
  | wal_append s io now o ref payload r log' file' :
      w_up s = true -> is_int64 now -> next_seq (w_log s) < int64_max ->
      append io now (w_log s) (w_file s) o ref payload = (Ok r, log', file') ->
      wal_step Acked s (mkWal true log' file' (String.length file') (w_acked s ++ [r]))
  | wal_append_failed s io now o ref payload e log' file' :
      w_up s = true -> is_int64 now -> next_seq (w_log s) < int64_max ->
      append io now (w_log s) (w_file s) o ref payload = (Err e, log', file') ->
      wal_step AppendFailed s (mkWal true log' file' (w_synced s) (w_acked s))
  | wal_restart s keep rio fix_io p rs log' file' :
      (w_synced s <= keep)%nat -> read_complete rio ->
      replay rio fix_io (opened p) (str_take keep (w_file s)) = (Some (Ok rs), log', file') ->
      wal_step Restarted s (mkWal true log' file' (String.length file') (w_acked s))
  | wal_restart_failed s keep rio fix_io p out log' file' :
      (w_synced s <= keep)%nat -> read_complete rio -> returned_ok out = false ->
      replay rio fix_io (opened p) (str_take keep (w_file s)) = (out, log', file') ->
      wal_step RestartFailed s (mkWal false log' file' (w_synced s) (w_acked s)).

Definition any_step (s s' : Wal) : Prop := exists k, wal_step k s s'.

Record wal_inv (s : Wal) (recs : list IntentRecord) (ps : list piece) : Prop := {
  wi_disk : disk_inv recs ps;
  wi_file : w_file s = lines recs +:+ texts ps;
  wi_acked : w_acked s `sublist_of` (recs ++ acked_of ps);
  wi_synced : (String.length (lines recs) <= w_synced s)%nat;
  wi_covered : covered (w_synced s - String.length (lines recs)) ps;
  wi_log : w_up s = true -> is_open (w_log s) = true /\ 1 <= next_seq (w_log s) /\
    is_utf8 (last_hash (w_log s)) /\ (Forall unacked ps -> cursor_at (w_log s) recs);
}.

Lemma tip_utf8 t rs : is_utf8 t -> Forall rec_ok rs -> is_utf8 (tip_of t rs).
Proof.
  intros Ht Hok. unfold tip_of. destruct (last rs) as [r|] eqn:E; [|done].
  apply last_Some in E as [? ->]. apply Forall_app in Hok as [_ [Hr _]%Forall_cons]. apply Hr.
Qed.

Lemma genesis_utf8 : is_utf8 kGenesis.
Proof. apply ascii_utf8. by repeat constructor. Qed.

Section record.
Context (log : IntentLog) (now : Z) (o : IntentOp) (ref payload : string).
Let r := new_record log now o ref payload.

Lemma new_record_ok : is_int64 now -> 1 <= next_seq log < int64_max -> is_utf8 (last_hash log) -> rec_ok r.
Proof.
  intros Hn Hs Hu. unfold rec_ok. simpl. split_and!; try done.
  - unfold_ints. lia.
  - apply canonical_text_utf8.
  - apply canonical_text_utf8.
  - destruct (String.eqb_spec (last_hash log) ""); [apply genesis_utf8|done].
  - apply sha256_hex_utf8.
Qed.

Lemma new_record_links recs : cursor_at log recs -> chain 1 kGenesis recs ->
  links (1 + Z.of_nat (length recs)) (tip_of kGenesis recs) r.
Proof.
  intros [Hn Hl] Hc. split_and!; [done| |done]. simpl. rewrite Hl. unfold tip_of.
  destruct (last recs) as [x|] eqn:E; [|done].
  apply last_Some in E as [xs ->]. apply chain_snoc in Hc as [_ (_ & _ & Hh)].
  destruct (String.eqb_spec (hash x) "") as [He|]; [|done].
  rewrite Hh in He. by apply sha256_hex_nonempty in He.
Qed.
End record.

Lemma tail_ok_snoc n t ps q : tail_ok n t ps ->
  (ps = [] -> links n t (p_rec q) /\ unacked q) ->
  (Forall unacked ps -> seq (p_rec q) = n) -> tail_ok n t (ps ++ [q]).
Proof.
  intros Ht Hnil Hseq. destruct ps as [|q1 [|q2 ps]]; simpl in *.
  - by destruct Hnil.
  - destruct Ht as (? & ? & _). split_and!; [done..|]. apply Hseq. by repeat constructor.
  - done.
Qed.

Lemma texts_app a b : texts (a ++ b) = texts a +:+ texts b.
Proof. induction a as [|q a IH]; simpl; [done|]. by rewrite IH, str_app_assoc. Qed.

(** What a failed append of [r] leaves: nothing or a beginning of its line. *)
Definition leave (r : IntentRecord) (k : nat) : list piece :=
  let m := Nat.min k (String.length (to_json_line r)) in
  if (m =? 0)%nat then [] else [mkPiece r m false].

Lemma str_take_min k a : str_take (Nat.min k (String.length a)) a = str_take k a.
Proof.
  unfold str_take. f_equal. rewrite <- chars_length.
  destruct (Nat.le_ge_cases k (length (chars a))); [by rewrite Nat.min_l|].
  by rewrite Nat.min_r, firstn_all, take_ge.
Qed.

Lemma leave_text r k : texts (leave r k) = str_take k (to_json_line r).
Proof.
  unfold leave. rewrite <- str_take_min. set (m := Nat.min _ _).
  destruct (Nat.eqb_spec m 0) as [->|]; [done|]. simpl. by rewrite str_app_nil_r.
Qed.

(** A failed append keeps the invariant. *)
Lemma inv_leave s recs ps r k :
  wal_inv s recs ps -> w_up s = true -> rec_ok r ->
  (Forall unacked ps -> links (1 + Z.of_nat (length recs)) (tip_of kGenesis recs) r) ->
  wal_inv (mkWal true (w_log s) (w_file s +:+ str_take k (to_json_line r)) (w_synced s) (w_acked s))
    recs (ps ++ leave r k).
Proof.
  intros [[Hok Hc Hps Ht] Hf Ha Hs Hcov Hl] Hup Hr Hlinks.
  assert (forall q, p_rec q = r -> unacked q -> p_len q <> 0%nat -> leave r k = [q] ->
    piece_ok q -> tail_ok (1 + Z.of_nat (length recs)) (tip_of kGenesis recs) (ps ++ [q])) as Htail.
  { intros q <- Hu _ _ _. apply tail_ok_snoc; [done| |].
    - intros ->. split; [by apply Hlinks|done].
    - intros H. by apply Hlinks. }
  split; simpl.
  - split; [done..| |].
    + apply Forall_app. split; [done|]. unfold leave. destruct (Nat.eqb_spec (Nat.min k (String.length (to_json_line r))) 0); [done|].
      constructor; [|done]. split_and!; simpl; [done|lia|lia|done].
    + unfold leave in *. destruct (Nat.eqb_spec (Nat.min k (String.length (to_json_line r))) 0); [by rewrite app_nil_r|].
      apply Htail; try done. split_and!; simpl; [done|lia|lia|done].
  - by rewrite Hf, texts_app, leave_text, str_app_assoc.
  - assert (acked_of (ps ++ leave r k) = acked_of ps) as ->; [|done].
    unfold acked_of. rewrite filter_app, map_app. unfold leave.
    destruct (_ =? 0)%nat; simpl; by rewrite app_nil_r.
  - done.
  - unfold leave. destruct (_ =? 0)%nat; [by rewrite app_nil_r|by apply covered_snoc].
  - intros _. destruct (Hl Hup) as (? & ? & ? & Hcur). split_and!; try done.
    intros [Hu _]%Forall_app. auto.
Qed.

(** An acknowledged append keeps it, in a clean file ... *)
Lemma inv_append_clean s recs r log' :
  wal_inv s recs [] -> rec_ok r ->
  links (1 + Z.of_nat (length recs)) (tip_of kGenesis recs) r ->
  is_open log' = true -> next_seq log' = seq r + 1 -> last_hash log' = hash r ->
  let file' := w_file s +:+ to_json_line r in
  wal_inv (mkWal true log' file' (String.length file') (w_acked s ++ [r])) (recs ++ [r]) [].
Proof.
  intros [[Hok Hc Hps Ht] Hf Ha Hs Hcov Hl] Hr Hlinks Ho Hn Hh file'.
  assert (file' = lines (recs ++ [r])) as Hfile.
  { unfold file'. rewrite Hf, lines_snoc. simpl. by rewrite str_app_nil_r. }
  destruct Hlinks as (Hseq & Hlinks).
  split; cbn [w_up w_log w_file w_synced w_acked].
  - split; [|by apply chain_snoc|done|done].
    apply Forall_app. split; [done|by constructor].
  - rewrite Hfile. simpl. by rewrite str_app_nil_r.
  - unfold acked_of in *. simpl in *. rewrite app_nil_r in *. by apply sublist_app.
  - by rewrite Hfile.
  - done.
  - intros _. split_and!; [done|lia|rewrite Hh; apply Hr|]. intros _. split.
    + rewrite length_app. simpl. lia.
    + by rewrite tip_of_snoc.
Qed.

(** ... and after left-over pieces. *)
Lemma inv_append_dirty s recs ps r log' :
  wal_inv s recs ps -> ps <> [] -> rec_ok r -> (Forall unacked ps -> seq r = 1 + Z.of_nat (length recs)) ->
  is_open log' = true -> 1 <= next_seq log' -> last_hash log' = hash r ->
  let file' := w_file s +:+ to_json_line r in
  wal_inv (mkWal true log' file' (String.length file') (w_acked s ++ [r])) recs
    (ps ++ [mkPiece r (String.length (to_json_line r)) true]).
Proof.
  intros [[Hok Hc Hps Ht] Hf Ha Hs Hcov Hl] Hne Hr Hseq Ho Hn Hh file'.
  set (q := mkPiece r (String.length (to_json_line r)) true).
  assert (piece_ok q) as Hq.
  { split_and!; [done|simpl; rewrite line_length; lia..|done]. }
  assert (p_text q = to_json_line r) as Hqt by (apply (full_line q); by apply bool_decide_eq_true).
  assert (file' = lines recs +:+ texts (ps ++ [q])) as Hfile.
  { unfold file'. rewrite Hf, texts_app. simpl. by rewrite Hqt, str_app_nil_r, str_app_assoc. }
  split; cbn [w_up w_log w_file w_synced w_acked].
  - split; [done..| |].
    + apply Forall_app. split; [done|by constructor].
    + apply tail_ok_snoc; [done| |done]. by intros ->.
  - done.
  - assert (acked_of (ps ++ [q]) = acked_of ps ++ [r])%list as ->.
    { unfold acked_of. by rewrite filter_app, map_app. }
    rewrite app_assoc. by apply sublist_app.
  - rewrite Hfile, str_length_app. lia.
  - apply covered_all; [apply Forall_app; split; [done|by constructor]|].
    rewrite Hfile, str_length_app. lia.
  - intros _. split_and!; [done..|rewrite Hh; apply Hr|].
    intros [_ [Hu _]%Forall_cons]%Forall_app. done.
Qed.

Lemma inv_init p : wal_inv (wal_init p) [] [].
Proof.
  split; simpl; try done.
  intros _. split_and!; [done|done|by constructor|done].
Qed.

Lemma append_ok_inv io now log file o ref payload r log' file' :
  append io now log file o ref payload = (Ok r, log', file') ->
  is_open log = true /\ r = new_record log now o ref payload /\ is_open log' = true /\
  next_seq log' = seq r + 1 /\ last_hash log' = hash r /\ file' = file +:+ to_json_line r.
Proof.
  unfold append. destruct (is_open log); simpl; [|done]. by destruct io; intros [= <- <- <-].
Qed.

Lemma append_err_inv io now log file o ref payload e log' file' :
  append io now log file o ref payload = (Err e, log', file') ->
  log' = log /\ exists k, file' = file +:+ str_take k (to_json_line (new_record log now o ref payload)).
Proof.
  unfold append. destruct (is_open log); simpl.
  - destruct io; intros [= _ <- <-]; eauto.
  - intros [= _ <- <-]. split; [done|]. exists 0%nat. by rewrite str_app_nil_r.
Qed.

(** What is read back after a power cut. *)
Lemma inv_cut s recs ps keep : wal_inv s recs ps -> (w_synced s <= keep)%nat ->
  let ps' := cut (keep - String.length (lines recs)) ps in
  str_take keep (w_file s) = lines recs +:+ texts ps' /\ disk_inv recs ps' /\
  acked_of ps' = acked_of ps /\ covered (w_synced s - String.length (lines recs)) ps'.
Proof.
  intros [[Hok Hc Hps Ht] Hf Ha Hs Hcov Hl] Hk ps'. split_and!.
  - rewrite Hf, str_take_app_ge by lia. by rewrite <- cut_text.
  - split; [done..|by apply cut_ok|by apply cut_tail_ok].
  - apply cut_acked. eapply covered_mono; [|done]. lia.
  - apply cut_covered; [lia|done].
Qed.

Lemma extra_cons ps ex : extra ps ex -> Forall piece_ok ps -> Forall rec_ok ex.
Proof.
  intros [->|(q & rest & -> & ->)] H; [constructor|].
  apply Forall_cons in H as [[Hq _] _]. by constructor.
Qed.

(** A restart that returns records leaves a clean log that holds every record
    ever acknowledged. *)
Lemma inv_restart s recs ps keep rio fix_io p rs log' file' :
  wal_inv s recs ps -> (w_synced s <= keep)%nat -> read_complete rio ->
  replay rio fix_io (opened p) (str_take keep (w_file s)) = (Some (Ok rs), log', file') ->
  w_acked s `sublist_of` rs /\
  wal_inv (mkWal true log' file' (String.length file') (w_acked s)) rs [].
Proof.
  intros Hinv Hk Hrio Hr. destruct (inv_cut s recs ps keep Hinv Hk) as (Hcut & Hd & Hacked & _).
  destruct rio; [|done|done|done]. pose proof (replay_ok_inv ReadOk _ _ _ _ _ _ ltac:(discriminate) Hr) as (Hchain & Hcur & _ & _ & Hopen).
  rewrite Hcut in Hr. destruct (replay_disk _ _ _ _ _ _ _ Hd Hr) as (Hu & -> & ex & -> & Hex).
  assert (w_acked s `sublist_of` recs ++ ex) as Hsub.
  { etrans; [apply (wi_acked _ _ _ Hinv)|]. rewrite <- Hacked, acked_of_unacked, app_nil_r by done.
    by apply sublist_inserts_r. }
  assert (Forall rec_ok (recs ++ ex)) as Hok.
  { apply Forall_app. split; [apply Hd|]. eapply extra_cons; [done|apply Hd]. }
  split; [done|]. split; cbn [w_up w_log w_file w_synced w_acked].
  - by split.
  - simpl. by rewrite str_app_nil_r.
  - unfold acked_of. simpl. by rewrite app_nil_r.
  - done.
  - done.
  - intros _. destruct Hcur as [Hn Hl]. split_and!; [done|lia| |done].
    rewrite Hl. by apply tip_utf8; [constructor|].
Qed.

Lemma inv_restart_failed s recs ps keep rio fix_io p out log' file' :
  wal_inv s recs ps -> (w_synced s <= keep)%nat -> read_complete rio -> returned_ok out = false ->
  replay rio fix_io (opened p) (str_take keep (w_file s)) = (out, log', file') ->
  exists ps', wal_inv (mkWal false log' file' (w_synced s) (w_acked s)) recs ps'.
Proof.
  intros Hinv Hk Hrio Hout Hr. destruct (inv_cut s recs ps keep Hinv Hk) as (Hcut & Hd & Hacked & Hcov).
  set (cps := cut _ ps) in *.
  assert (exists ps', file' = lines recs +:+ texts ps' /\ disk_inv recs ps' /\ acked_of ps' = acked_of cps /\
    covered (w_synced s - String.length (lines recs)) ps') as (ps' & Hf & Hd' & Ha & Hc').
  { destruct rio; [|done|done|].
    2: { injection Hr as <- <- <-. eauto. }
    rewrite Hcut in Hr. pose proof (replay_disk _ _ _ _ _ _ _ Hd Hr) as Hcase.
    assert (exists ps', file' = lines recs +:+ texts ps' /\
      (ps' = cps \/ Forall unacked cps /\ (ps' = [] \/ exists q rest, cps = q :: rest /\ ps' = [whole (p_rec q)])))
      as (ps' & Hf & Hps') by (by destruct out as [[?|?]|]).
    exists ps'. split; [done|]. destruct Hps' as [->|[Hu [->|(q & rest & Hq & ->)]]]; [done|..].
    - rewrite (acked_of_unacked _ Hu). split_and!; [|done|done]. by split; try apply Hd.
    - rewrite (acked_of_unacked _ Hu). destruct Hd as [H1 H2 H3 H4]. rewrite Hq in H3, H4.
      apply Forall_cons in H3 as [Hq' _]. split_and!; [|done|apply unacked_covered; by repeat constructor].
      split; [done..| |].
      + constructor; [|done]. split_and!; simpl; [apply Hq'|rewrite line_length; lia..|done].
      + destruct H4 as (H4 & _ & _). by split_and!. }
  exists ps'. split; cbn [w_up w_log w_file w_synced w_acked]; try done.
  - rewrite Ha, Hacked. apply (wi_acked _ _ _ Hinv).
  - apply (wi_synced _ _ _ Hinv).
Qed.

Lemma inv_step k s s' recs ps : wal_inv s recs ps -> wal_step k s s' ->
  exists recs' ps', wal_inv s' recs' ps' /\
    match k with
    | Acked => ps = [] -> ps' = []
    | AppendFailed => ps = [] -> (length ps' <= 1)%nat /\ (w_file s' <> w_file s -> ps' <> [])
    | Restarted => ps' = []
    | RestartFailed => True
    end.
Proof.
  intros Hinv Hstep. destruct Hstep as [s io now o ref payload r log' file' Hup Hn Hseq Ha|
    s io now o ref payload e log' file' Hup Hn Hseq Ha|s keep rio fix_io p rs log' file' Hk Hrio Hr|
    s keep rio fix_io p out log' file' Hk Hrio Hout Hr].
  - destruct (wi_log _ _ _ Hinv Hup) as (Ho & H1 & Hu & Hcur).
    apply append_ok_inv in Ha as (_ & -> & Ho' & Hn' & Hh' & ->).
    pose proof (new_record_ok (w_log s) now o ref payload Hn ltac:(lia) Hu) as Hr.
    pose proof (fun H => new_record_links (w_log s) now o ref payload recs H (di_chain _ _ (wi_disk _ _ _ Hinv))) as Hl.
    destruct ps as [|q ps].
    + eexists _, []. split; [|done]. eapply inv_append_clean; try done. apply Hl. by apply Hcur.
    + eexists recs, _. split; [eapply inv_append_dirty; try done|done].
      * intros Hun. apply Hl. by apply Hcur.
      * rewrite Hn'. simpl. lia.
  - destruct (wi_log _ _ _ Hinv Hup) as (Ho & H1 & Hu & Hcur).
    apply append_err_inv in Ha as (-> & k & ->).
    pose proof (new_record_ok (w_log s) now o ref payload Hn ltac:(lia) Hu) as Hr.
    eexists recs, _. split.
    + apply inv_leave; [done..|]. intros Hun. apply new_record_links; [by apply Hcur|apply Hinv].
    + intros ->. simpl. split.
      * unfold leave. by destruct (_ =? 0)%nat; simpl; lia.
      * intros Hne Hnil. apply Hne. rewrite <- leave_text, Hnil. simpl. by rewrite str_app_nil_r.
  - destruct (inv_restart _ _ _ _ _ _ _ _ _ _ Hinv Hk Hrio Hr) as [_ H]. eauto.
  - destruct (inv_restart_failed _ _ _ _ _ _ _ _ _ _ Hinv Hk Hrio Hout Hr) as [ps' H]. eauto.
Qed.

Lemma inv_reachable p s : rtc any_step (wal_init p) s -> exists recs ps, wal_inv s recs ps.
Proof.
  intros H. remember (wal_init p) as s0 eqn:E.
  assert (exists recs ps, wal_inv s0 recs ps) as H0 by (subst; eauto using inv_init).
  clear E. induction H as [|x y z [k Hk] _ IH]; [done|].
  destruct H0 as (recs & ps & H0). destruct (inv_step _ _ _ _ _ H0 Hk) as (recs' & ps' & H1 & _). eauto.
Qed.

(** ** Theorems *)

(** A process that came up on an intact or repaired log and whose appends have
    all been acknowledged since. *)
Definition healthy (s : Wal) : Prop :=
  exists p s1, rtc (wal_step Acked) s1 s /\
    (s1 = wal_init p \/ exists s0, rtc any_step (wal_init p) s0 /\ wal_step Restarted s0 s1).

Lemma inv_healthy s : healthy s -> exists recs, wal_inv s recs [].
Proof.
  intros (p & s1 & Hrun & Hstart).
  assert (exists recs, wal_inv s1 recs []) as H1.
  { destruct Hstart as [->|(s0 & H0 & Hr)]; [eauto using inv_init|].
    destruct (inv_reachable _ _ H0) as (recs & ps & Hi).
    destruct (inv_step _ _ _ _ _ Hi Hr) as (recs' & ps' & H & ->). eauto. }
  clear Hstart. induction Hrun as [|x y z Hk _ IH]; [done|].
  destruct H1 as [recs H1]. destruct (inv_step _ _ _ _ _ H1 Hk) as (recs' & ps' & H & Hps).
  apply IH. rewrite Hps in H by done. eauto.
Qed.

(** C5: no acknowledged record is ever lost, as long as the log is read to its end:
    after any run of appends, failed writes, failed syncs, power cuts that keep only
    what was synced, failed and successful restarts, each of which read the whole
    file or could not open it, whatever a later boot replay of the whole file
    returns contains every record [append] ever returned, in order. A boot read that
    stops on an error is not covered: the code does not look for one, and
    [stopped_read_drops_acknowledged] shows what it then loses. *)
Theorem acknowledged_records_recovered p s keep fix_io p' rs log' file'
    (Hrun : rtc any_step (wal_init p) s) (Hkeep : (w_synced s <= keep)%nat)
    (Hr : replay ReadOk fix_io (opened p') (str_take keep (w_file s)) = (Some (Ok rs), log', file')) :
  w_acked s `sublist_of` rs.
Proof.
  destruct (inv_reachable _ _ Hrun) as (recs & ps & Hinv).
  by apply (inv_restart _ _ _ _ ReadOk _ _ _ _ _ Hinv Hkeep ltac:(done) Hr).
Qed.

(** At most one unfinished record never keeps the log from booting. *)
Lemma one_partial_recovers s recs ps keep p :
  wal_inv s recs ps -> (length ps <= 1)%nat -> (w_synced s <= keep)%nat ->
  returned_ok (replay ReadOk all_repairs_ok (opened p) (str_take keep (w_file s))).1.1 = true.
Proof.
  intros Hinv Hlen Hkeep. destruct (inv_cut _ _ _ _ Hinv Hkeep) as (-> & Hd & _).
  apply replay_available; try done. clear -Hlen.
  destruct ps as [|q [|q2 ps]]; simpl in *; [lia| |lia].
  destruct (p_len q <=? _)%nat; [done|]. destruct (_ =? 0)%nat; simpl; lia.
Qed.

(** C27: a crash during an append never bricks the log: if every append since the
    last good boot was acknowledged except possibly the one in flight, then
    wherever the power cut lands, a boot replay on a working file system returns
    records. *)
Theorem crash_mid_append_recovers s s' keep fix_io p
    (Hs : healthy s) (Hlast : s' = s \/ wal_step AppendFailed s s') (Hkeep : (w_synced s' <= keep)%nat)
    (Hio : fix_io = all_repairs_ok) :
  returned_ok (replay ReadOk fix_io (opened p) (str_take keep (w_file s'))).1.1 = true.
Proof.
  destruct (inv_healthy _ Hs) as [recs Hinv].
  assert (exists recs ps, wal_inv s' recs ps /\ (length ps <= 1)%nat) as (recs' & ps & Hinv' & Hlen).
  { destruct Hlast as [->|Hf]; [exists recs, []; split; [done|simpl; lia]|].
    destruct (inv_step _ _ _ _ _ Hinv Hf) as (recs' & ps' & H & Hps). exists recs', ps'.
    split; [done|by apply Hps]. }
  subst fix_io. by eapply one_partial_recovers.
Qed.

(** a failed append that leaves bytes behind poisons the log: [append] does
    not remove them, so once a further append is acknowledged no boot replay
    of the whole file ever returns again, whatever the file system does. *)
Theorem failed_append_poisons s1 s2 s3 keep rio fix_io p
    (Hs : healthy s1) (Hfail : wal_step AppendFailed s1 s2) (Hbytes : w_file s2 <> w_file s1)
    (Hack : wal_step Acked s2 s3) (Hkeep : (w_synced s3 <= keep)%nat) (Hrio : read_complete rio) :
  returned_ok (replay rio fix_io (opened p) (str_take keep (w_file s3))).1.1 = false.
Proof.
  destruct (inv_healthy _ Hs) as [recs Hinv].
  destruct (inv_step _ _ _ _ _ Hinv Hfail) as (recs2 & ps & H2 & Hps).
  destruct (Hps eq_refl) as [_ Hne]. specialize (Hne Hbytes).
  inversion Hack as [? io now o ref payload r log' file' Hup Hn Hseq Ha| | |]; subst.
  destruct (wi_log _ _ _ H2 Hup) as (Ho & H1 & Hu & Hcur).
  apply append_ok_inv in Ha as (_ & -> & Ho' & Hn' & Hh' & ->).
  pose proof (new_record_ok (w_log s2) now o ref payload Hn ltac:(lia) Hu) as Hr.
  assert (Forall unacked ps -> seq (new_record (w_log s2) now o ref payload) = 1 + Z.of_nat (length recs2)) as Hnum.
  { intros Hun. destruct (Hcur Hun) as [Hc _]. exact Hc. }
  pose proof (inv_append_dirty s2 recs2 ps _ log' H2 Hne Hr Hnum Ho' ltac:(rewrite Hn'; simpl; lia) Hh') as H3.
  destruct (inv_cut _ _ _ _ H3 Hkeep) as (Hcut & Hd & Hacked & _).
  destruct (replay rio _ _ _) as [[out log3] file3] eqn:E.
  destruct rio; [|done|done|by injection E as <- <- <-].
  rewrite Hcut in E. destruct out as [[rs|e]|]; [exfalso|done..].
  destruct (replay_disk _ _ _ _ _ _ _ Hd E) as (Hun & _).
  rewrite (acked_of_unacked _ Hun) in Hacked. unfold acked_of in Hacked.
  rewrite filter_app, map_app in Hacked. by destruct (map p_rec (filter _ ps)).
Qed.

End disk.

(** ** A concrete run *)

Definition do_append `{J : JsonLib} (io : write_io) (o : IntentOp) (ref : string) (s : Wal) : Wal :=
  match append io 1000 (w_log s) (w_file s) o ref "{}" with
  | (Ok r, log', file') => mkWal true log' file' (String.length file') (w_acked s ++ [r])
  | (Err _, log', file') => mkWal true log' file' (w_synced s) (w_acked s)
  end.

Definition append_kind (io : write_io) : wal_kind :=
  match io with WriteDurable => Acked | _ => AppendFailed end.

Lemma do_append_step `{J : JsonLib} io o ref s :
  w_up s = true -> is_open (w_log s) = true -> next_seq (w_log s) < int64_max ->
  wal_step (append_kind io) s (do_append io o ref s).
Proof.
  intros Hup Ho Hn. unfold do_append.
  assert (is_int64 1000) by (unfold_ints; lia).
  destruct (append io 1000 (w_log s) (w_file s) o ref "{}") as [[res log'] file'] eqn:E.
  pose proof E as E'. unfold append in E'. rewrite Ho in E'. simpl in E'.
  destruct io; injection E' as <- <- <-; simpl.
  - by eapply wal_append.
  - by eapply wal_append_failed.
  - by eapply wal_append_failed.
Qed.

(** One good record, then a write cut short after nine bytes, then another. *)
Definition wal1 : Wal := do_append (J := bit_json) WriteDurable PlaceOrder "a-1" (wal_init "intent.log").
Definition wal2 : Wal := do_append (J := bit_json) (WriteShort 9) PlaceOrder "b-2" wal1.
Definition wal3 : Wal := do_append (J := bit_json) WriteDurable PlaceOrder "c-3" wal2.

Lemma wal1_step : wal_step (J := bit_json) Acked (wal_init "intent.log") wal1.
Proof. by apply (do_append_step (J := bit_json) WriteDurable). Qed.

Lemma wal1_healthy : healthy (J := bit_json) wal1.
Proof. exists "intent.log", (wal_init "intent.log"). split; [apply rtc_once, wal1_step|by left]. Qed.

Lemma wal2_step : wal_step (J := bit_json) AppendFailed wal1 wal2.
Proof. apply (do_append_step (J := bit_json) (WriteShort 9)); by vm_compute. Qed.

Lemma wal3_step : wal_step (J := bit_json) Acked wal2 wal3.
Proof. apply (do_append_step (J := bit_json) WriteDurable); by vm_compute. Qed.

Lemma wal2_recovery : returned 1
  (replay (J := bit_json) ReadOk all_repairs_ok (opened "intent.log") (str_take (String.length (w_file wal2)) (w_file wal2))) = true.
Proof. vm_compute. reflexivity. Qed.

Lemma wal2_synced : (w_synced wal2 <= String.length (w_file wal2))%nat.
Proof. apply Nat.leb_le. vm_compute. reflexivity. Qed.

Lemma acknowledged_records_recovered_witness : exists rs,
  w_acked wal2 `sublist_of` rs /\ length rs = 1%nat.
Proof.
  destruct (returned_inv _ _ wal2_recovery) as (rs & log' & file' & H & Hlen). exists rs. split; [|exact Hlen].
  refine (acknowledged_records_recovered (J := bit_json) "intent.log" wal2 _ _ _ _ _ _ _ wal2_synced H).
  eapply rtc_l; [exists Acked; exact wal1_step|]. apply rtc_once. exists AppendFailed. exact wal2_step.
Defined.

Lemma crash_mid_append_recovers_witness :
  returned_ok (replay (J := bit_json) ReadOk all_repairs_ok (opened "intent.log")
    (str_take (w_synced wal2 + 4) (w_file wal2))).1.1 = true.
Proof.
  apply (crash_mid_append_recovers (J := bit_json) wal1 wal2); [exact wal1_healthy|right; exact wal2_step|lia|reflexivity].
Defined.

Lemma failed_append_poisons_witness :
  returned_ok (replay (J := bit_json) ReadOk all_repairs_ok (opened "intent.log")
    (str_take (w_synced wal3) (w_file wal3))).1.1 = false.
Proof.
  apply (failed_append_poisons (J := bit_json) wal1 wal2 wal3);
    [exact wal1_healthy|exact wal2_step|vm_compute; discriminate|exact wal3_step|lia|exact I].
Defined.

(** Two acknowledged records, and a boot whose read of the log stops four bytes into
    the second: the replay reports success, hands on the first record only, and cuts
    the second off the disk as a torn tail. *)
Definition wal_two : Wal := do_append (J := bit_json) WriteDurable PlaceOrder "b-2" wal1.

Example stopped_read_drops_acknowledged :
  let r := replay (J := bit_json) (ReadStopped (w_synced wal1 + 4)) all_repairs_ok (opened "intent.log") (w_file wal_two) in
  length (w_acked wal_two) = 2%nat /\ returned 1 r = true /\ r.2 = w_file wal1.
Proof. vm_compute. auto. Qed.
