(* ===== verification/Idempotency.v ===== *)
(** * Idempotency: signal signatures and the index (src/src/idempotency/idempotency.cpp)

    The canonical signature input, the payload a place record carries, the
    in-memory index with its rebuild from the intent log, and [reserve]. The
    order store's [find_order] and the UUID drawn are arguments. *)

From S2P Require Import Prelude Errors Domain Sha256 ClientRef Utf8 Json IntentLog.

#[local] Opaque sha256_hex.

(** ** The signature *)

Definition kPayloadSchema : Z := 1.
Definition kSep : ascii := "031"%char.
Definition sep : string := String kSep "".

(** The price of a stop-market order is not order-defining. *)
Definition defining_price_paise (i : OrderIntent) : Z :=
  if bool_decide (order_type i = StopLossMarket) then 0 else price_paise (price i).

Definition canonical_signature_input (i : OrderIntent) : string :=
  "strategy=" +:+ strategy i +:+ sep +:+
  "symbol=" +:+ symbol i +:+ sep +:+
  "side=" +:+ side_to_string (side i) +:+ sep +:+
  "qty=" +:+ pretty (quantity_value (quantity i)) +:+ sep +:+
  "price=" +:+ pretty (defining_price_paise i) +:+ sep +:+
  "order_type=" +:+ order_type_to_string (order_type i) +:+ sep +:+
  "product=" +:+ product_to_string (product i) +:+
  match trigger_price i with
  | Some t => sep +:+ "trigger=" +:+ pretty (price_paise t)
  | None => ""
  end.

Definition signal_signature (i : OrderIntent) : string := sha256_hex (canonical_signature_input i).

(** ** The index *)

(** [by_signature_]. *)
Abbreviation IdempotencyIndex := (gmap string string).

(** [emplace]: the first writer wins. *)
Definition register_signature (ix : IdempotencyIndex) (signature ref : string) : IdempotencyIndex :=
  match ix !! signature with
  | Some _ => ix
  | None => <[signature := ref]> ix
  end.

Definition register_ref (ix : IdempotencyIndex) (i : OrderIntent) (ref : string) : IdempotencyIndex :=
  register_signature ix (signal_signature i) ref.

Definition existing_ref_for_signature (ix : IdempotencyIndex) (signature : string) : option string :=
  ix !! signature.

Definition existing_ref (ix : IdempotencyIndex) (i : OrderIntent) : option string :=
  existing_ref_for_signature ix (signal_signature i).

Section json.
Context `{J : JsonLib}.

Definition payload_object (i : OrderIntent) : gmap string jvalue :=
  let base :=
    <["schema" := of_int kPayloadSchema]>
    (<["sig" := of_string (signal_signature i)]>
    (<["client_ref" := of_string (client_ref i)]>
    (<["strategy" := of_string (strategy i)]>
    (<["symbol" := of_string (symbol i)]>
    (<["side" := of_string (side_to_string (side i))]>
    (<["qty" := of_int (quantity_value (quantity i))]>
    (<["price_paise" := of_int (price_paise (price i))]>
    (<["order_type" := of_string (order_type_to_string (order_type i))]>
    (<["product" := of_string (product_to_string (product i))]> ∅))))))))) in
  match trigger_price i with
  | Some t => <["trigger_price_paise" := of_int (price_paise t)]> base
  | None => base
  end.

Definition intent_payload_json (i : OrderIntent) : string := json_dump (payload_object i).

(** The signature a record carries, when it is a place record with a canonical
    payload; [Some None] is a record that is skipped. *)
Definition record_signature (rec : IntentRecord) : option string :=
  if negb (bool_decide (op rec = PlaceOrder)) then None else
  match json_parse (payload_json rec) with
  | Object j =>
      match j !! "schema" with
      | None => None
      | Some schema =>
          if negb (is_number_integer schema && bool_decide (as_int32 schema = Some kPayloadSchema)) then None
          else match j !! "sig" with
               | None => None
               | Some sig =>
                   if negb (is_string sig) then None
                   else match as_string sig with
                        | Some signature =>
                            if String.eqb signature "" || String.eqb (rec_client_ref rec) "" then None
                            else Some signature
                        | None => None
                        end
               end
      end
  | _ => None
  end.

Definition rebuild_step (ix : IdempotencyIndex) (rec : IntentRecord) : IdempotencyIndex :=
  match record_signature rec with
  | Some signature => register_signature ix signature (rec_client_ref rec)
  | None => ix
  end.

Definition rebuild_from_log (records : list IntentRecord) : IdempotencyIndex :=
  fold_left rebuild_step records ∅.

End json.

(** ** reserve *)

Record Reservation := mkReservation {
  res_client_ref : string;
  is_new : bool;
  existing : option Order;
}.

Definition reserve (ix : IdempotencyIndex) (find_order : string -> result (option Order))
    (uuid strategy : string) (i : OrderIntent) : result Reservation * IdempotencyIndex :=
  let signature := signal_signature i in
  match existing_ref_for_signature ix signature with
  | Some prior =>
      match find_order prior with
      | Err e => (Err e, ix)
      | Ok found => (Ok (mkReservation prior false found), ix)
      end
  | None =>
      let ref := make_client_ref strategy signature uuid in
      match find_order ref with
      | Err e => (Err e, ix)
      | Ok (Some o) => (Ok (mkReservation ref false (Some o)), register_signature ix signature ref)
      | Ok None => (Ok (mkReservation ref true None), register_signature ix signature ref)
      end
  end.

(** ** The signature input determines the order-defining fields *)

(** The fields a duplicate signal shares with the first one. *)
Definition order_key (i : OrderIntent) :=
  (strategy i, symbol i, side i, quantity i, defining_price_paise i, order_type i, product i,
   trigger_price i).

(** The text fields hold no separator. *)
Definition separable (i : OrderIntent) : Prop :=
  kSep ∉ chars (strategy i) /\ kSep ∉ chars (symbol i).

Lemma sep_field a b x y : kSep ∉ chars a -> kSep ∉ chars b ->
  (a +:+ sep +:+ x) = (b +:+ sep +:+ y) -> a = b /\ x = y.
Proof. apply delimited. Qed.

Lemma no_sep_Z (z : Z) : kSep ∉ chars (pretty z).
Proof. by apply not_in_pretty_Z. Qed.

Lemma no_sep_enums :
  (forall s, kSep ∉ chars (side_to_string s)) /\ (forall t, kSep ∉ chars (order_type_to_string t)) /\
  (forall p, kSep ∉ chars (product_to_string p)).
Proof.
  split_and!; intros []; apply (bool_decide_unpack (kSep ∉ _)); by vm_compute.
Qed.

Lemma product_tail p q (t u : option Price) :
  (product_to_string p +:+ match t with Some t => sep +:+ "trigger=" +:+ pretty (price_paise t) | None => "" end) =
  (product_to_string q +:+ match u with Some u => sep +:+ "trigger=" +:+ pretty (price_paise u) | None => "" end) ->
  p = q /\ t = u.
Proof.
  destruct no_sep_enums as (_ & _ & Hp).
  assert (forall p q x, product_to_string p = product_to_string q +:+ sep +:+ x -> False) as Hno.
  { intros p' q' x E. apply (Hp p'). rewrite E, !chars_app. set_solver. }
  destruct t as [[t]|], u as [[u]|]; simpl; rewrite ?str_app_nil_r; intros H.
  - apply sep_field in H as [H1 H2]; [|apply Hp..]. apply (inj product_to_string) in H1.
    apply (str_app_inv_head "trigger=") in H2. apply (inj pretty) in H2. by subst.
  - symmetry in H. by apply Hno in H.
  - by apply Hno in H.
  - apply (inj product_to_string) in H. by subst.
Qed.

Lemma signature_input_inj a b : separable a -> separable b ->
  canonical_signature_input a = canonical_signature_input b -> order_key a = order_key b.
Proof.
  intros [Ha1 Ha2] [Hb1 Hb2] H. unfold canonical_signature_input in H.
  destruct no_sep_enums as (Hs & Ht & _).
  apply (str_app_inv_head "strategy="), sep_field in H as [E1 H]; [|done..].
  apply (str_app_inv_head "symbol="), sep_field in H as [E2 H]; [|done..].
  apply (str_app_inv_head "side="), sep_field in H as [E3 H]; [|apply Hs..].
  apply (str_app_inv_head "qty="), sep_field in H as [E4 H]; [|apply no_sep_Z..].
  apply (str_app_inv_head "price="), sep_field in H as [E5 H]; [|apply no_sep_Z..].
  apply (str_app_inv_head "order_type="), sep_field in H as [E6 H]; [|apply Ht..].
  apply (str_app_inv_head "product="), product_tail in H as [E7 E8].
  apply (inj side_to_string) in E3. apply (inj pretty) in E4, E5. apply (inj order_type_to_string) in E6.
  unfold order_key. destruct a as [? ? ? [] ? ? ? ? ?], b as [? ? ? [] ? ? ? ? ?]. simpl in *. congruence.
Qed.

Lemma signature_input_key a b : order_key a = order_key b ->
  canonical_signature_input a = canonical_signature_input b.
Proof.
  unfold order_key, canonical_signature_input. intros H. injection H as -> -> -> -> -> -> -> ->. done.
Qed.

Lemma signature_key a b : order_key a = order_key b -> signal_signature a = signal_signature b.
Proof. intros H. unfold signal_signature. f_equal. by apply signature_input_key. Qed.

(** the signature input is exactly the order-defining fields: for intents
    whose strategy and symbol hold no 0x1f byte, two inputs are equal iff
    strategy, symbol, side, quantity, price (0 for a stop-market order), order
    type, product and trigger all agree. The client reference never matters. *)
Theorem signature_identifies_signal a b (Ha : separable a) (Hb : separable b) :
  canonical_signature_input a = canonical_signature_input b <-> order_key a = order_key b.
Proof. split; [by apply signature_input_inj|apply signature_input_key]. Qed.

(** Non-vacuity of the restriction: a 0x1f byte in a text field folds two different
    signals onto one signature. *)
Example signature_separator_ambiguity :
  let a := mkIntent "" ("y" +:+ sep +:+ "symbol=z") Buy (quantity_of 1) (from_paise 0) None Limit Intraday "x" in
  let b := mkIntent "" "z" Buy (quantity_of 1) (from_paise 0) None Limit Intraday ("x" +:+ sep +:+ "symbol=y") in
  signal_signature a = signal_signature b /\ symbol a <> symbol b /\ strategy a <> strategy b.
Proof.
  intros a b. split; [|split; discriminate]. unfold signal_signature. f_equal.
Qed.

Lemma signature_identifies_signal_witness :
  canonical_signature_input (mkIntent "r1" "NIFTY" Buy (quantity_of 50) (from_paise 7) None StopLossMarket Intraday "s") =
  canonical_signature_input (mkIntent "r2" "NIFTY" Buy (quantity_of 50) (from_paise 9) None StopLossMarket Intraday "s").
Proof.
  apply signature_identifies_signal.
  - split; apply (bool_decide_unpack (kSep ∉ _)); reflexivity.
  - split; apply (bool_decide_unpack (kSep ∉ _)); reflexivity.
  - reflexivity.
Defined.

(** ** The index *)

Lemma register_signature_lookup ix s r s' :
  register_signature ix s r !! s' =
  match ix !! s' with Some x => Some x | None => if bool_decide (s = s') then Some r else None end.
Proof.
  unfold register_signature. destruct (decide (s = s')) as [->|Hne].
  - rewrite bool_decide_eq_true_2 by done. destruct (ix !! s') eqn:E; [done|]. apply lookup_insert_eq.
  - rewrite bool_decide_eq_false_2 by done.
    destruct (ix !! s) eqn:E; [by destruct (ix !! s')|]. rewrite lookup_insert_ne by done. by destruct (ix !! s').
Qed.

Section rebuild.
Context `{J : JsonLib}.

(** The records that carry a given signature. *)
Definition carries (signature : string) (rec : IntentRecord) : Prop :=
  record_signature rec = Some signature.

#[export] Instance carries_dec s rec : Decision (carries s rec).
Proof. unfold carries. apply _. Defined.

Lemma rebuild_lookup ix records s :
  fold_left rebuild_step records ix !! s =
  match ix !! s with
  | Some r => Some r
  | None => rec_client_ref <$> head (filter (carries s) records)
  end.
Proof.
  revert ix. induction records as [|rec records IH]; intros ix; simpl; [by destruct (ix !! s)|].
  rewrite IH, filter_cons. unfold rebuild_step.
  destruct (decide (carries s rec)) as [Hc|Hc]; unfold carries in Hc.
  - rewrite Hc, register_signature_lookup, bool_decide_eq_true_2 by done. by destruct (ix !! s).
  - destruct (record_signature rec) as [s'|]; [|done].
    rewrite register_signature_lookup, bool_decide_eq_false_2 by congruence. by destruct (ix !! s).
Qed.

(** A place record written by [append] for an intent carries its signature,
    whatever bytes the intent's text fields hold. *)
Lemma payload_keys i : map_Forall (fun k _ => identifier k) (payload_object i).
Proof.
  unfold payload_object. destruct (trigger_price i);
    repeat (apply map_Forall_insert_2; [by apply identifier_b|]); apply map_Forall_empty.
Qed.

Lemma place_record_carries `{!JsonLaws J} rec i :
  op rec = PlaceOrder -> payload_json rec = canonical_text (intent_payload_json i) ->
  rec_client_ref rec <> "" -> carries (signal_signature i) rec.
Proof.
  intros Ho Hp Hr. unfold carries, record_signature. rewrite Ho, Hp. simpl.
  unfold intent_payload_json. rewrite canonical_text_id by apply dump_utf8.
  destruct (parse_dump_replaced (payload_object i) (payload_keys i)) as (m' & -> & _ & Hm).
  assert (is_utf8 (signal_signature i)) as Hu by apply sha256_hex_utf8.
  assert (payload_object i !! "schema" = Some (of_int kPayloadSchema)) as H1
    by (unfold payload_object; by destruct (trigger_price i)).
  assert (payload_object i !! "sig" = Some (of_string (signal_signature i))) as H2
    by (unfold payload_object; by destruct (trigger_price i)).
  rewrite (Hm _ _ H1), (Hm _ _ H2).
  2: { right; right; eauto. }
  2: { left. exists kPayloadSchema. split; [unfold kPayloadSchema; unfold_ints; lia|done]. }
  rewrite is_number_integer_of, as_int32_of, is_string_of, as_string_of;
    [|done|unfold kPayloadSchema; unfold_ints; lia]. simpl.
  destruct (String.eqb_spec (signal_signature i) "") as [E|_]; [by apply sha256_hex_nonempty in E|].
  by destruct (String.eqb_spec (rec_client_ref rec) "").
Qed.

End rebuild.

(** restart deduplication: rebuilt from any replayed log, the index maps a
    signature to the reference of the first record that carries it, and a place
    record written for an intent carries that intent's signature. So once such a
    record is in the log, every later intent with the same order-defining fields
    finds the reference of the first one. *)
Theorem restart_dedup `{J : JsonLib} `{!JsonLaws J} records rec i i'
    (Hin : rec ∈ records) (Hop : op rec = PlaceOrder) (Href : rec_client_ref rec <> "")
    (Hpay : payload_json rec = canonical_text (intent_payload_json i))
    (Hkey : order_key i' = order_key i) :
  exists first, head (filter (carries (signal_signature i)) records) = Some first /\
    existing_ref (rebuild_from_log records) i' = Some (rec_client_ref first).
Proof.
  pose proof (place_record_carries rec i Hop Hpay Href) as Hc.
  unfold existing_ref, existing_ref_for_signature, rebuild_from_log.
  rewrite (signature_key i' i Hkey), rebuild_lookup, lookup_empty.
  destruct (filter (carries (signal_signature i)) records) as [|first rest] eqn:E; [|eauto].
  assert (rec ∈ filter (carries (signal_signature i)) records) as H
    by (apply list_elem_of_filter; by split).
  rewrite E in H. by apply elem_of_nil in H.
Qed.

Definition sample_signal (ref : string) : OrderIntent :=
  mkIntent ref "NIFTY" Buy (quantity_of 50) (from_paise 7) None Limit Intraday "s".

Definition sample_place : IntentRecord :=
  mkRecord 1 1 "s-1" PlaceOrder (canonical_text (intent_payload_json (J := bit_json) (sample_signal ""))) 0 kGenesis "".

Lemma restart_dedup_witness :
  existing_ref (rebuild_from_log (J := bit_json) [sample_place]) (sample_signal "other") = Some "s-1".
Proof.
  destruct (restart_dedup (J := bit_json) [sample_place] sample_place (sample_signal "") (sample_signal "other"))
    as (first & H1 & H2); [left|reflexivity|discriminate|reflexivity|reflexivity|].
  rewrite H2. f_equal. assert (first ∈ [sample_place]) as Hin.
  { eapply list_elem_of_filter. apply head_Some_elem_of. exact H1. }
  apply list_elem_of_singleton in Hin as ->. reflexivity.
Defined.

(** ** reserve *)

(** [reserve] is first-writer-wins: it never rebinds a signature, a
    successful call returns the reference the index then holds for the signal,
    reports a new one only when the signal was unknown and the store has no such
    order, and every later call for the same order-defining fields returns that
    same reference as not new. A failed store lookup changes nothing. *)
Theorem reserve_correct ix store uuid strat i :
  let '(out, ix') := reserve ix store uuid strat i in
  (forall s r, ix !! s = Some r -> ix' !! s = Some r) /\
  match out with
  | Err _ => ix' = ix
  | Ok res =>
      existing_ref ix' i = Some (res_client_ref res) /\
      (is_new res = true <-> existing_ref ix i = None /\ store (res_client_ref res) = Ok None) /\
      (is_new res = true -> res_client_ref res = make_client_ref strat (signal_signature i) uuid /\ existing res = None) /\
      forall store' uuid' strat' i', order_key i' = order_key i ->
        match (reserve ix' store' uuid' strat' i').1 with
        | Ok res' => res_client_ref res' = res_client_ref res /\ is_new res' = false
        | Err _ => True
        end
  end.
Proof.
  assert (forall ix' r store' uuid' strat' i', existing_ref ix' i = Some r -> order_key i' = order_key i ->
    match (reserve ix' store' uuid' strat' i').1 with
    | Ok res' => res_client_ref res' = r /\ is_new res' = false
    | Err _ => True
    end) as Hlater.
  { intros ix' r store' uuid' strat' i' Hr Hk. unfold reserve, existing_ref in *.
    rewrite (signature_key i' i Hk), Hr. by destruct (store' r). }
  assert (forall s r s' r', ix !! s = Some r -> register_signature ix s' r' !! s = Some r) as Hkeep.
  { intros s r s' r' H. by rewrite register_signature_lookup, H. }
  unfold reserve. fold (existing_ref ix i).
  destruct (existing_ref ix i) as [prior|] eqn:Hp.
  - destruct (store prior) as [found|e] eqn:Hs; (split; [done|]); [|done].
    split_and!; [done|by split; [|intros [? _]]|done|]. intros. by apply Hlater.
  - set (ref := make_client_ref _ _ _).
    assert (existing_ref (register_signature ix (signal_signature i) ref) i = Some ref) as Hreg.
    { unfold existing_ref, existing_ref_for_signature in *.
      by rewrite register_signature_lookup, Hp, bool_decide_eq_true_2. }
    destruct (store ref) as [[o|]|e] eqn:Hs; [..|by split]; (split; [by eauto|]); simpl; rewrite ?Hs;
      split_and!; try done; try (intros; by apply Hlater).
    by split; [|intros [_ ?]].
Qed.
