(* ===== verification/Slicer.v ===== *)
(** * Slicer: freeze-quantity slicing (src/src/slicing/freeze_slicer.cpp) *)

From S2P Require Import Prelude Errors Domain ClientRef.

(** ** The operation *)

Definition validation_error {A} (msg : string) : result A := Err (make_error Validation msg "").

(** The inline child reference of this module. *)
Definition slice_child_ref (parent_client_ref : string) (k : Z) : string :=
  parent_client_ref +:+ "#" +:+ pretty k.

Definition slice_child (parent : OrderIntent) (qty k : Z) : OrderIntent :=
  with_client_ref (slice_child_ref (client_ref parent) k) (with_quantity (quantity_of qty) parent).

(** The loop over the full chunks: [i] iterations left, the next number [k]. *)
Fixpoint slice_loop (parent : OrderIntent) (chunk : Z) (i : nat) (k : Z) : list OrderIntent * Z :=
  match i with
  | O => ([], k)
  | S i' =>
      let '(rest, k') := slice_loop parent chunk i' (k + 1) in
      (slice_child parent chunk k :: rest, k')
  end.

Definition slice (parent : OrderIntent) (inst : Instrument) : result (list OrderIntent) :=
  let qty := quantity_value (quantity parent) in
  let freeze := quantity_value (freeze_qty inst) in
  let lot := quantity_value (lot_size inst) in
  if str_contains_char "#"%char (client_ref parent)
  then validation_error "freeze slicer: cannot slice a child order ref"
  else if lot <=? 0
  then validation_error "freeze slicer: lot size must be positive"
  else if qty <=? 0
  then validation_error "freeze slicer: order quantity must be positive"
  else if (qty <? lot) || negb (Z.rem qty lot =? 0)
  then validation_error "freeze slicer: order quantity is not lot-aligned"
  else if freeze <=? 0
  then validation_error "freeze slicer: freeze quantity must be positive"
  else if freeze <? lot
  then validation_error "freeze slicer: freeze quantity is below one lot"
  else if qty <=? freeze
  then Ok [parent]
  else
    let chunk := Z.quot freeze lot * lot in
    let full := Z.quot qty chunk in
    let rem := Z.rem qty chunk in
    let '(children, k) := slice_loop parent chunk (Z.to_nat full) 1 in
    Ok (if 0 <? rem then children ++ [slice_child parent rem k] else children).

(** ** What slicing promises *)

(** The order is one the slicer takes. *)
Definition sliceable (parent : OrderIntent) (inst : Instrument) : Prop :=
  let qty := quantity_value (quantity parent) in
  let freeze := quantity_value (freeze_qty inst) in
  let lot := quantity_value (lot_size inst) in
  "#"%char ∉ chars (client_ref parent) /\ 0 < lot /\ 0 < qty /\ (lot | qty) /\ lot <= freeze.

Definition quantities (l : list OrderIntent) : list Z := map (fun i => quantity_value (quantity i)) l.

Definition total (l : list Z) : Z := fold_right Z.add 0 l.

(** A correct slicing of [parent] into [n >= 1] children: only the quantity and
    the reference differ, the references are [parent#1 ... parent#n], each child
    is a positive whole number of lots within the freeze limit, they add up. *)
Record sliced (parent : OrderIntent) (inst : Instrument) (children : list OrderIntent) : Prop := {
  sl_total : total (quantities children) = quantity_value (quantity parent);
  sl_each : Forall (fun i => 0 < quantity_value (quantity i) <= quantity_value (freeze_qty inst) /\
    (quantity_value (lot_size inst) | quantity_value (quantity i)) /\
    with_client_ref "" (with_quantity (quantity_of 0) i) =
    with_client_ref "" (with_quantity (quantity_of 0) parent)) children;
  sl_refs : children = [parent] \/
    map client_ref children = map (fun k => child_ref (client_ref parent) (Z.of_nat k)) (seq 1 (length children));
}.

Lemma slice_child_ref_eq p k : 1 <= k -> slice_child_ref p k = child_ref p k.
Proof. intros. unfold slice_child_ref, child_ref. destruct (Z.ltb_spec k 1); [lia|done]. Qed.

Lemma slice_loop_spec parent chunk n k :
  slice_loop parent chunk n k =
  (map (fun j => slice_child parent chunk (k + Z.of_nat j)) (seq 0 n), k + Z.of_nat n).
Proof.
  revert k. induction n as [|n IH]; intros k; simpl.
  { by rewrite Z.add_0_r. }
  rewrite IH. f_equal; [|lia]. rewrite Z.add_0_r. f_equal.
  rewrite <- seq_shift, map_map. apply map_ext. intros j. f_equal. lia.
Qed.

Lemma total_app a b : total (a ++ b) = total a + total b.
Proof. induction a as [|x a IH]; simpl; lia. Qed.

Lemma total_repeat (f : nat -> OrderIntent) c n s :
  (forall j, quantity_value (quantity (f j)) = c) -> total (quantities (map f (seq s n))) = c * Z.of_nat n.
Proof.
  intros Hf. revert s. induction n as [|n IH]; intros s; simpl; [lia|].
  unfold quantities in IH. rewrite IH, Hf. lia.
Qed.

(** The two branches of a successful slicing. *)
Lemma sliced_whole parent inst : sliceable parent inst ->
  quantity_value (quantity parent) <= quantity_value (freeze_qty inst) -> sliced parent inst [parent].
Proof.
  intros (Hc & Hl & Hq & Hd & Hf) Hle. split.
  - simpl. lia.
  - constructor; [|constructor]. split_and!; [lia..|done|done].
  - by left.
Qed.

Section chunks.
Context (parent : OrderIntent) (inst : Instrument).
Let qty := quantity_value (quantity parent).
Let freeze := quantity_value (freeze_qty inst).
Let lot := quantity_value (lot_size inst).
Context (Hs : sliceable parent inst).

Definition chunk_of (freeze lot : Z) : Z := freeze / lot * lot.

Lemma chunk_bounds : lot <= chunk_of freeze lot <= freeze /\ (lot | chunk_of freeze lot).
Proof.
  destruct Hs as (_ & Hl & _ & _ & Hf). fold lot freeze in Hl, Hf. unfold chunk_of.
  pose proof (Z.mul_div_le freeze lot Hl). assert (1 <= freeze / lot) by (apply Z.div_le_lower_bound; lia).
  split; [nia|]. exists (freeze / lot). lia.
Qed.

Definition chunked : list OrderIntent :=
  let chunk := chunk_of freeze lot in
  map (fun j => slice_child parent chunk (1 + Z.of_nat j)) (seq 0 (Z.to_nat (qty / chunk))) ++
  (if 0 <? qty mod chunk then [slice_child parent (qty mod chunk) (1 + qty / chunk)] else []).

Lemma sliced_chunked : sliced parent inst chunked.
Proof.
  destruct chunk_bounds as [Hb Hd]. destruct Hs as (_ & Hl & Hq & Hdq & Hf).
  fold lot qty freeze in Hl, Hq, Hdq, Hf. unfold chunked. set (chunk := chunk_of freeze lot) in *.
  pose proof (Z.div_mod qty chunk ltac:(lia)) as Hdm.
  pose proof (Z.mod_pos_bound qty chunk ltac:(lia)) as Hm.
  assert (0 <= qty / chunk) by (apply Z.div_pos; lia).
  assert ((lot | qty mod chunk)) as Hdm'.
  { rewrite Z.mod_eq by lia. apply Z.divide_sub_r; [done|]. by apply Z.divide_mul_l. }
  split.
  - unfold quantities. rewrite map_app, total_app.
    change (map (fun i => quantity_value (quantity i)) (map ?f ?l)) with (quantities (map f l)).
    rewrite (total_repeat _ chunk) by done. rewrite Z2Nat.id by done.
    fold qty. destruct (Z.ltb_spec 0 (qty mod chunk)); simpl; lia.
  - apply Forall_app. split.
    + apply Forall_map, Forall_forall. intros j _. simpl. split_and!; [lia..|done|done].
    + destruct (Z.ltb_spec 0 (qty mod chunk)); constructor; [|constructor]. simpl.
      split_and!; [lia..|done|done].
  - right. rewrite length_app, length_map, length_seq, seq_app, !map_app, map_map. f_equal.
    + rewrite <- seq_shift, map_map. apply map_ext. intros j.
      change (client_ref (slice_child parent chunk (1 + Z.of_nat j))) with
        (slice_child_ref (client_ref parent) (1 + Z.of_nat j)).
      rewrite slice_child_ref_eq by lia. f_equal. lia.
    + destruct (Z.ltb_spec 0 (qty mod chunk)); [|done].
      cbn [length seq map]. change (client_ref (slice_child ?p ?c ?k)) with (slice_child_ref (client_ref p) k).
      rewrite slice_child_ref_eq by lia. do 2 f_equal. lia.
Qed.

End chunks.

Lemma str_contains_spec c s : str_contains_char c s = true <-> c ∈ chars s.
Proof. unfold str_contains_char. apply bool_decide_eq_true. Qed.

(** slicing is total and exact: an order that is not sliceable (a child
    reference, a non-positive lot or quantity, a quantity that is not a whole
    number of lots, a freeze limit below one lot) gets one Validation error and
    no slices; a sliceable one gets children with references parent#1 ... parent#n
    (or itself when it fits), each a positive whole number of lots within the
    freeze limit, whose quantities add up to the parent's exactly. *)
Theorem slice_correct parent inst :
  match slice parent inst with
  | Err e => ~ sliceable parent inst /\ category e = Validation /\ action e = DoNotRetry
  | Ok children => sliceable parent inst /\ sliced parent inst children
  end.
Proof.
  unfold slice. destruct (str_contains_char "#"%char (client_ref parent)) eqn:Hc.
  { apply str_contains_spec in Hc. split; [|done]. by intros [? _]. }
  assert ("#"%char ∉ chars (client_ref parent)) as Hc' by (rewrite <- str_contains_spec; congruence).
  set (qty := quantity_value (quantity parent)). set (freeze := quantity_value (freeze_qty inst)).
  set (lot := quantity_value (lot_size inst)).
  assert (forall P : Prop, ~ P -> (sliceable parent inst -> P) ->
    ~ sliceable parent inst /\ Validation = Validation /\ DoNotRetry = DoNotRetry) as Herr by tauto.
  destruct (Z.leb_spec lot 0); [apply (Herr (0 < lot)); [lia|by intros (? & ? & _)]|].
  destruct (Z.leb_spec qty 0); [apply (Herr (0 < qty)); [lia|by intros (? & ? & ? & _)]|].
  destruct ((qty <? lot) || negb (Z.rem qty lot =? 0)) eqn:Hal.
  { apply (Herr (lot | qty)); [|by intros (? & ? & ? & ? & _)]. intros Hd.
    pose proof (Z.divide_pos_le lot qty ltac:(lia) Hd). apply Z.rem_divide in Hd; [|lia].
    apply orb_true_iff in Hal as [Hal|Hal]; to_prop; lia. }
  apply orb_false_iff in Hal as [Hge Hrem]. to_prop. apply Z.rem_divide in Hrem; [|lia].
  destruct (Z.leb_spec freeze 0); [apply (Herr (lot <= freeze)); [lia|by intros (? & ? & ? & ? & ?)]|].
  destruct (Z.ltb_spec freeze lot); [apply (Herr (lot <= freeze)); [lia|by intros (? & ? & ? & ? & ?)]|].
  assert (sliceable parent inst) as Hs by done.
  destruct (Z.leb_spec qty freeze); [split; [done|by apply sliced_whole]|].
  rewrite slice_loop_spec. split; [done|].
  destruct (chunk_bounds parent inst Hs) as [Hb _]. fold freeze lot in Hb. unfold chunk_of in Hb.
  rewrite (Z.quot_div_nonneg freeze lot) by lia.
  pose proof (sliced_chunked parent inst Hs) as Hres. unfold chunked, chunk_of in Hres.
  fold qty freeze lot in Hres. revert Hb Hres. generalize (freeze / lot * lot) as chunk. intros chunk Hb Hres.
  rewrite Z.quot_div_nonneg, Z.rem_mod_nonneg by lia.
  assert (0 <= qty / chunk) by (apply Z.div_pos; lia).
  rewrite Z2Nat.id by done.
  destruct (0 <? qty mod _); [done|]. by rewrite app_nil_r in Hres.
Qed.

Example slice_sample :
  let p := mkIntent "s-1" "NIFTY" Buy (quantity_of 125) (from_paise 0) None Limit Intraday "s" in
  let inst := mkInstrument "NIFTY" 1 "NFO" (quantity_of 25) (from_paise 5) (quantity_of 60) "" in
  match slice p inst with
  | Ok l => quantities l = [50; 50; 25] /\ map client_ref l = ["s-1#1"; "s-1#2"; "s-1#3"]
  | Err _ => False
  end.
Proof. vm_compute. by split. Qed.
