(* ===== verification/Risk.v ===== *)
(** * Risk: the four-level risk engine and the funds view (src/src/risk/)

    [RiskEngine] is stateless; its sums are taken by subtraction at the width of
    their type. [FundsView] caches one snapshot with the steady-clock time of its
    fetch; the clock readings and the fetch result are arguments. *)

From S2P Require Import Prelude Errors Domain.

(** ** RiskEngine (risk_engine.hpp, risk_engine.cpp) *)

Record RiskLimits := mkLimits {
  daily_loss_limit_paise : Z;
  max_open_positions : Z;
  max_account_margin_paise : Z;
  max_order_value_paise : Z;
  block_market_orders : bool;
  max_slippage_bps : Z;
  max_lots_per_strategy : Z;
  max_lots_per_instrument : Z;
  strategy_daily_loss_limit_paise : Z;
}.

Record RiskState := mkRiskState {
  account_pnl_paise : Z;
  open_positions : Z;
  used_margin_paise : Z;
  order_value_paise : Z;
  order_value_known : bool;
  order_lots : Z;
  slippage_bps : Z;
  is_entry : bool;
  strategy_lots : Z;
  strategy_pnl_paise : Z;
  strategy_enabled : bool;
  instrument_lots : Z;
  data_tradable : bool;
}.

Definition rejected (level rule : string) : Error :=
  set_action BlockStrategy (make_error RiskRejected ("risk[" +:+ level +:+ "]: " +:+ rule) "").

(** [int] arithmetic (32 bits). *)
Definition to_i32 (z : Z) : Z := (z + 2 ^ 31) mod 2 ^ 32 - 2 ^ 31.

(** [sum_over]: [a > ceiling - b], at 64 and at 32 bits. *)
Definition sum_over64 (a b ceiling : Z) : bool := to_i64 (ceiling - b) <? a.
Definition sum_over32 (a b ceiling : Z) : bool := to_i32 (ceiling - b) <? a.

Definition ok : result unit := Ok tt.

Definition check_account (limits : RiskLimits) (s : RiskState) : result unit :=
  if (0 <? daily_loss_limit_paise limits) &&
     (account_pnl_paise s <=? to_i64 (- daily_loss_limit_paise limits))
  then Err (rejected "account" "daily loss limit breached")
  else if (0 <? max_open_positions limits) && is_entry s &&
          (max_open_positions limits <=? open_positions s)
  then Err (rejected "account" "max open positions reached")
  else if 0 <? max_account_margin_paise limits then
    if negb (order_value_known s)
    then Err (rejected "account" "cannot verify margin (order value unknown)")
    else if (used_margin_paise s <? 0) || (order_value_paise s <? 0)
    then Err (rejected "account" "cannot verify margin (negative margin/order value)")
    else if sum_over64 (used_margin_paise s) (order_value_paise s) (max_account_margin_paise limits)
    then Err (rejected "account" "max account margin exceeded")
    else ok
  else ok.

Definition check_strategy (limits : RiskLimits) (s : RiskState) : result unit :=
  if negb (strategy_enabled s)
  then Err (rejected "strategy" "strategy is stopped")
  else if (0 <? strategy_daily_loss_limit_paise limits) &&
          (strategy_pnl_paise s <=? to_i64 (- strategy_daily_loss_limit_paise limits))
  then Err (rejected "strategy" "strategy daily loss limit breached")
  else if 0 <? max_lots_per_strategy limits then
    if (strategy_lots s <? 0) || (order_lots s <? 0)
    then Err (rejected "strategy" "cannot verify lots (negative lot count)")
    else if sum_over32 (strategy_lots s) (order_lots s) (max_lots_per_strategy limits)
    then Err (rejected "strategy" "max lots per strategy exceeded")
    else ok
  else ok.

Definition check_instrument (limits : RiskLimits) (s : RiskState) : result unit :=
  let tradable :=
    if negb (data_tradable s)
    then Err (rejected "instrument" "price not tradable (illiquid/stale)")
    else ok in
  if 0 <? max_lots_per_instrument limits then
    if (instrument_lots s <? 0) || (order_lots s <? 0)
    then Err (rejected "instrument" "cannot verify lots (negative lot count)")
    else if sum_over32 (instrument_lots s) (order_lots s) (max_lots_per_instrument limits)
    then Err (rejected "instrument" "max lots per instrument exceeded")
    else tradable
  else tradable.

Definition check_order (i : OrderIntent) (limits : RiskLimits) (s : RiskState) : result unit :=
  let slippage :=
    if (0 <? max_slippage_bps limits) && (max_slippage_bps limits <? slippage_bps s)
    then Err (rejected "order" "max slippage exceeded")
    else ok in
  if block_market_orders limits && bool_decide (order_type i = Market)
  then Err (rejected "order" "market orders are blocked")
  else if 0 <? max_order_value_paise limits then
    if negb (order_value_known s)
    then Err (rejected "order" "cannot verify order value (unknown)")
    else if order_value_paise s <? 0
    then Err (rejected "order" "cannot verify order value (negative)")
    else if max_order_value_paise limits <? order_value_paise s
    then Err (rejected "order" "max order value exceeded")
    else slippage
  else slippage.

Definition check_all (i : OrderIntent) (limits : RiskLimits) (s : RiskState) : result unit :=
  match check_account limits s with
  | Err e => Err e
  | Ok _ =>
      match check_strategy limits s with
      | Err e => Err e
      | Ok _ =>
          match check_instrument limits s with
          | Err e => Err e
          | Ok _ => match check_order i limits s with Err e => Err e | Ok _ => ok end
          end
      end
  end.

(** [make_risk_check]: the closure over copies of its arguments. *)
Definition make_risk_check (i : OrderIntent) (limits : RiskLimits) (s : RiskState) :
    unit -> result unit := fun _ => check_all i limits s.

(** ** FundsView (funds_view.hpp, funds_view.cpp) *)

Record FundsSnapshot := mkFunds { available_margin : Money; used_margin : Money }.

(** [cadence] in seconds, the steady clock in nanoseconds. *)
Record FundsView := mkFundsView {
  cadence : Z;
  snapshot : FundsSnapshot;
  fetched_at : Z;
  has_snapshot : bool;
}.

Definition refresh (v : FundsView) (fetched : result FundsSnapshot) (now : Z) : result unit * FundsView :=
  match fetched with
  | Err e => (Err e, v)
  | Ok snap => (ok, mkFundsView (cadence v) snap now true)
  end.

Definition is_fresh (v : FundsView) (now : Z) : bool :=
  if negb (has_snapshot v) then false
  else now - fetched_at v <=? cadence v * 1000000000.

Definition invalidate (v : FundsView) : FundsView :=
  mkFundsView (cadence v) (snapshot v) (fetched_at v) false.

(** The clock is read by the first freshness test, by a refresh, by the second
    freshness test: [t1], [t2], [t3]. *)
Definition ensure_fresh (v : FundsView) (fetched : result FundsSnapshot) (t1 t2 t3 : Z) :
    result FundsSnapshot * FundsView :=
  let '(root_cause, v') :=
    if is_fresh v t1 then ("", v)
    else match refresh v fetched t2 with
         | (Ok _, v') => ("", v')
         | (Err inner, v') =>
             (if String.eqb (broker_code inner) "" then message inner
              else message inner +:+ " [" +:+ broker_code inner +:+ "]", v')
         end in
  if is_fresh v' t3 then (Ok (snapshot v'), v')
  else
    let msg := "funds view is stale and could not be refreshed" +:+
      (if String.eqb root_cause "" then "" else ": " +:+ root_cause) in
    (Err (make_error DataStale msg ""), v').

Definition check_margin (v : FundsView) (fetched : result FundsSnapshot) (t1 t2 t3 : Z)
    (required_margin_paise : Z) : result unit * FundsView :=
  match ensure_fresh v fetched t1 t2 t3 with
  | (Err e, v') => (Err e, v')
  | (Ok f, v') =>
      let available := money_paise (available_margin f) in
      if required_margin_paise <=? available then (ok, v')
      else (Err (set_action DoNotRetry (make_error InsufficientFunds
              ("insufficient margin: available " +:+ pretty available +:+ " paise < required " +:+
               pretty required_margin_paise +:+ " paise") "")), v')
  end.

(** ** What the engine promises *)

(** Every armed rule, over exact integers. *)
Definition within (used this cap : Z) : Prop := 0 < cap -> 0 <= used /\ 0 <= this /\ used + this <= cap.

Record risk_ok (i : OrderIntent) (limits : RiskLimits) (s : RiskState) : Prop := {
  ro_loss : 0 < daily_loss_limit_paise limits -> - daily_loss_limit_paise limits < account_pnl_paise s;
  ro_positions : 0 < max_open_positions limits -> is_entry s = true ->
    open_positions s < max_open_positions limits;
  ro_margin : within (used_margin_paise s) (order_value_paise s) (max_account_margin_paise limits);
  ro_known : 0 < max_account_margin_paise limits \/ 0 < max_order_value_paise limits ->
    order_value_known s = true;
  ro_enabled : strategy_enabled s = true;
  ro_strategy_loss : 0 < strategy_daily_loss_limit_paise limits ->
    - strategy_daily_loss_limit_paise limits < strategy_pnl_paise s;
  ro_strategy_lots : within (strategy_lots s) (order_lots s) (max_lots_per_strategy limits);
  ro_instrument_lots : within (instrument_lots s) (order_lots s) (max_lots_per_instrument limits);
  ro_tradable : data_tradable s = true;
  ro_market : block_market_orders limits = true -> order_type i <> Market;
  ro_value : within 0 (order_value_paise s) (max_order_value_paise limits);
  ro_slippage : 0 < max_slippage_bps limits -> slippage_bps s <= max_slippage_bps limits;
}.

(** The machine ranges of the fields. *)
Record limits_in_range (l : RiskLimits) : Prop := {
  lr_1 : is_int64 (daily_loss_limit_paise l);
  lr_2 : is_int64 (max_account_margin_paise l);
  lr_3 : is_int32 (max_lots_per_strategy l);
  lr_4 : is_int32 (max_lots_per_instrument l);
  lr_5 : is_int64 (strategy_daily_loss_limit_paise l);
}.

Record state_in_range (s : RiskState) : Prop := {
  sr_1 : is_int64 (order_value_paise s);
  sr_2 : is_int32 (order_lots s);
}.

Lemma to_i32_small z : is_int32 z -> to_i32 z = z.
Proof. unfold_ints. intros. unfold to_i32. rewrite Z.mod_small; lia. Qed.

Lemma sum_over64_exact a b cap : is_int64 cap -> 0 < cap -> is_int64 b -> 0 <= b ->
  sum_over64 a b cap = (cap <? a + b).
Proof.
  intros. unfold sum_over64. rewrite to_i64_small by (unfold_ints; lia).
  destruct (Z.ltb_spec (cap - b) a), (Z.ltb_spec cap (a + b)); lia.
Qed.

Lemma sum_over32_exact a b cap : is_int32 cap -> 0 < cap -> is_int32 b -> 0 <= b ->
  sum_over32 a b cap = (cap <? a + b).
Proof.
  intros. unfold sum_over32. rewrite to_i32_small by (unfold_ints; lia).
  destruct (Z.ltb_spec (cap - b) a), (Z.ltb_spec cap (a + b)); lia.
Qed.

(** An armed cap test, as every level writes it. *)
Lemma cap_test {A} (used this cap : Z) (over : bool) (bad exceeded : Error) (next : result A) :
  (0 < cap -> 0 <= this -> over = (cap <? used + this)) ->
  is_ok (if 0 <? cap then if (used <? 0) || (this <? 0) then Err bad
         else if over then Err exceeded else next else next) = true <->
  within used this cap /\ is_ok next = true.
Proof.
  intros Hover. unfold within. destruct (Z.ltb_spec 0 cap) as [Hc|Hc]; [|intuition lia].
  destruct (Z.ltb_spec used 0), (Z.ltb_spec this 0); simpl; try (split; [done|intros [Hw _]; lia]).
  rewrite Hover by done. destruct (Z.ltb_spec cap (used + this)); simpl.
  - split; [done|]. intros [Hw _]. lia.
  - intuition lia.
Qed.

Lemma loss_test {A} (limit pnl : Z) (e : Error) (next : result A) : is_int64 limit ->
  is_ok (if (0 <? limit) && (pnl <=? to_i64 (- limit)) then Err e else next) = true <->
  (0 < limit -> - limit < pnl) /\ is_ok next = true.
Proof.
  intros Hl. destruct (Z.ltb_spec 0 limit); simpl; [|intuition lia].
  rewrite to_i64_small by (unfold_ints; lia).
  destruct (Z.leb_spec pnl (- limit)); simpl; intuition lia.
Qed.

(** A guard in front of the rest of a level. *)
Lemma guard_test {A} (b : bool) (e : Error) (next : result A) :
  is_ok (if b then Err e else next) = true <-> b = false /\ is_ok next = true.
Proof. destruct b; simpl; intuition congruence. Qed.

Lemma check_account_ok l s : limits_in_range l -> state_in_range s ->
  is_ok (check_account l s) = true <->
  (0 < daily_loss_limit_paise l -> - daily_loss_limit_paise l < account_pnl_paise s) /\
  (0 < max_open_positions l -> is_entry s = true -> open_positions s < max_open_positions l) /\
  (0 < max_account_margin_paise l -> order_value_known s = true) /\
  within (used_margin_paise s) (order_value_paise s) (max_account_margin_paise l).
Proof.
  intros [] []. unfold check_account. rewrite loss_test, guard_test by done.
  assert ((0 <? max_open_positions l) && is_entry s && (max_open_positions l <=? open_positions s) = false <->
    (0 < max_open_positions l -> is_entry s = true -> open_positions s < max_open_positions l)) as ->.
  { destruct (Z.ltb_spec 0 (max_open_positions l)), (is_entry s), (Z.leb_spec (max_open_positions l) (open_positions s));
      simpl; intuition (lia || congruence). }
  pose proof (cap_test (used_margin_paise s) (order_value_paise s) (max_account_margin_paise l)
    (sum_over64 (used_margin_paise s) (order_value_paise s) (max_account_margin_paise l))
    (rejected "account" "cannot verify margin (negative margin/order value)")
    (rejected "account" "max account margin exceeded") ok) as Hc.
  destruct (Z.ltb_spec 0 (max_account_margin_paise l)) as [Hm|Hm].
  - rewrite guard_test, Hc by (intros; by apply sum_over64_exact).
    destruct (order_value_known s); simpl; intuition congruence.
  - unfold within. intuition lia.
Qed.

Lemma check_strategy_ok l s : limits_in_range l -> state_in_range s ->
  is_ok (check_strategy l s) = true <->
  strategy_enabled s = true /\
  (0 < strategy_daily_loss_limit_paise l -> - strategy_daily_loss_limit_paise l < strategy_pnl_paise s) /\
  within (strategy_lots s) (order_lots s) (max_lots_per_strategy l).
Proof.
  intros [] []. unfold check_strategy. rewrite guard_test, loss_test, cap_test by
    (done || intros; by apply sum_over32_exact).
  rewrite negb_false_iff. simpl. tauto.
Qed.

Lemma check_instrument_ok l s : limits_in_range l -> state_in_range s ->
  is_ok (check_instrument l s) = true <->
  within (instrument_lots s) (order_lots s) (max_lots_per_instrument l) /\ data_tradable s = true.
Proof.
  intros [] []. unfold check_instrument. cbv zeta. rewrite cap_test by (intros; by apply sum_over32_exact).
  rewrite guard_test, negb_false_iff. simpl. tauto.
Qed.

Lemma check_order_ok i l s :
  is_ok (check_order i l s) = true <->
  (block_market_orders l = true -> order_type i <> Market) /\
  (0 < max_order_value_paise l -> order_value_known s = true) /\
  within 0 (order_value_paise s) (max_order_value_paise l) /\
  (0 < max_slippage_bps l -> slippage_bps s <= max_slippage_bps l).
Proof.
  unfold check_order, within. cbv zeta. rewrite guard_test.
  assert (block_market_orders l && bool_decide (order_type i = Market) = false <->
    (block_market_orders l = true -> order_type i <> Market)) as ->.
  { destruct (block_market_orders l), (decide (order_type i = Market)) as [E|E]; simpl;
      rewrite ?bool_decide_eq_true_2, ?bool_decide_eq_false_2 by done; intuition congruence. }
  assert (is_ok (if (0 <? max_slippage_bps l) && (max_slippage_bps l <? slippage_bps s)
    then Err (rejected "order" "max slippage exceeded") else ok) = true <->
    (0 < max_slippage_bps l -> slippage_bps s <= max_slippage_bps l)) as Hs.
  { rewrite guard_test. destruct (Z.ltb_spec 0 (max_slippage_bps l)), (Z.ltb_spec (max_slippage_bps l) (slippage_bps s));
      simpl; intuition (lia || congruence). }
  destruct (Z.ltb_spec 0 (max_order_value_paise l)) as [Hm|Hm]; [|rewrite Hs; intuition lia].
  rewrite guard_test, guard_test, guard_test, Hs. destruct (order_value_known s), (Z.ltb_spec (order_value_paise s) 0),
    (Z.ltb_spec (max_order_value_paise l) (order_value_paise s)); simpl; intuition (lia || congruence).
Qed.

(** Every refusal of a level blocks the strategy. *)
Definition refusal (r : result unit) : Prop :=
  match r with Ok _ => True | Err e => category e = RiskRejected /\ action e = BlockStrategy end.

Lemma checks_refuse i l s :
  refusal (check_account l s) /\ refusal (check_strategy l s) /\
  refusal (check_instrument l s) /\ refusal (check_order i l s).
Proof.
  unfold check_account, check_strategy, check_instrument, check_order. cbv zeta.
  split_and!; repeat split_match; by simpl.
Qed.

(** The four levels are one conjunction. *)
Lemma check_all_ok i l s : limits_in_range l -> state_in_range s ->
  is_ok (check_all i l s) = true <-> risk_ok i l s.
Proof.
  intros Hl Hs. assert (is_ok (check_all i l s) =
    is_ok (check_account l s) && is_ok (check_strategy l s) && is_ok (check_instrument l s) &&
    is_ok (check_order i l s)) as ->.
  { unfold check_all. destruct (check_account l s), (check_strategy l s), (check_instrument l s),
      (check_order i l s); done. }
  rewrite !andb_true_iff, check_account_ok, check_strategy_ok, check_instrument_ok, check_order_ok by done.
  split; [|intros []; tauto]. intros [[[(? & ? & ? & ?) (? & ? & ?)] [? ?]] (? & ? & ? & ?)]. split; tauto.
Qed.

(** C14: the risk engine lets an order through exactly when every armed limit
    holds over exact integers: no armed cap is ever exceeded and no test wraps at
    64 or 32 bits; an armed margin, lot or order-value cap refuses when what it
    reads is unknown or a negative magnitude. The cap on open positions alone does
    not: a negative count is below it and passes, which [risk_ok] says as the code
    has it and [negative_open_positions_accepted] shows. Every refusal is
    RiskRejected with BlockStrategy. *)
Theorem check_all_exact i l s (Hl : limits_in_range l) (Hs : state_in_range s) :
  (is_ok (check_all i l s) = true <-> risk_ok i l s) /\ refusal (check_all i l s).
Proof.
  split; [by apply check_all_ok|]. destruct (checks_refuse i l s) as (R1 & R2 & R3 & R4).
  unfold check_all. destruct (check_account l s), (check_strategy l s), (check_instrument l s),
    (check_order i l s); done.
Qed.

Definition sample_limits : RiskLimits := mkLimits 100000 5 1000000 500000 true 50 10 10 50000.
Definition sample_risk_state : RiskState :=
  mkRiskState (-20) 2 900000 100000 true 3 10 true 7 (-5) true 0 true.

Definition sample_order : OrderIntent :=
  mkIntent "s-1" "NIFTY" Buy (quantity_of 50) (from_paise 10000) None Limit Intraday "s".

Lemma check_all_exact_witness :
  is_ok (check_all sample_order sample_limits sample_risk_state) = true /\
  ~ risk_ok sample_order sample_limits
      (mkRiskState (-20) 2 900001 100000 true 3 10 true 7 (-5) true 0 true).
Proof.
  assert (limits_in_range sample_limits) as Hl by (split; unfold_ints; simpl; lia).
  split.
  - apply check_all_exact; [exact Hl|split; unfold_ints; simpl; lia|].
    split; unfold within; simpl; (lia || done || tauto).
  - intros H. apply check_all_exact in H; [|exact Hl|split; unfold_ints; simpl; lia].
    discriminate H.
Defined.

(** The one count an armed rule reads without refusing a negative value. *)
Example negative_open_positions_accepted :
  check_account (mkLimits 0 3 0 0 false 0 0 0 0)
    (mkRiskState 0 (-5) 0 0 true 0 0 true 0 0 true 0 true) = ok.
Proof. reflexivity. Qed.

(** ** The funds view *)

Lemma is_fresh_spec v t :
  is_fresh v t = true <-> has_snapshot v = true /\ t - fetched_at v <= cadence v * 1000000000.
Proof.
  unfold is_fresh. destruct (has_snapshot v); simpl; [|by split; [|intros []]]. rewrite Z.leb_le. intuition.
Qed.

(** The view after a call: a stale view takes the snapshot just fetched, if one was. *)
Definition view_after (v : FundsView) (fetched : result FundsSnapshot) (t1 t2 : Z) : FundsView :=
  if is_fresh v t1 then v
  else match fetched with Ok snap => mkFundsView (cadence v) snap t2 true | Err _ => v end.

Lemma view_after_cases v fetched t1 t2 (v' := view_after v fetched t1 t2) :
  cadence v' = cadence v /\
  (v' = v \/ (is_fresh v t1 = false /\ exists snap, fetched = Ok snap /\ v' = mkFundsView (cadence v) snap t2 true)).
Proof. unfold v', view_after. destruct (is_fresh v t1), fetched; simpl; eauto 8. Qed.

(** [ensure_fresh] answers with the snapshot of the view it leaves, when that view
    is fresh at the second test, and with DataStale otherwise. *)
Lemma ensure_fresh_cases v fetched t1 t2 t3 (v' := view_after v fetched t1 t2) : exists msg,
  ensure_fresh v fetched t1 t2 t3 =
    (if is_fresh v' t3 then Ok (snapshot v') else Err (make_error DataStale msg ""), v').
Proof.
  assert (forall w (root : string), exists msg,
    (if is_fresh w t3 then (Ok (snapshot w), w)
     else (Err (make_error DataStale ("funds view is stale and could not be refreshed" +:+
             (if String.eqb root "" then "" else ": " +:+ root)) ""), w)) =
    (if is_fresh w t3 then Ok (snapshot w) else Err (make_error DataStale msg ""), w)) as H
    by (intros w root; eexists; by destruct (is_fresh w t3)).
  unfold ensure_fresh, v', view_after. destruct (is_fresh v t1); [|destruct fetched]; apply H.
Qed.

(** [check_margin] never admits an order on a stale or failed snapshot: it
    succeeds only with a snapshot that was fetched, is at most one cadence old at
    the second freshness test, and shows enough available margin; it fails with
    DataStale, or with InsufficientFunds (DoNotRetry) on a fresh snapshot that is
    short; and a failed fetch leaves the view as it was. *)
Theorem check_margin_fresh v fetched t1 t2 t3 required :
  let '(out, v') := check_margin v fetched t1 t2 t3 required in
  let fresh := has_snapshot v' = true /\ t3 - fetched_at v' <= cadence v * 1000000000 in
  let available := money_paise (available_margin (snapshot v')) in
  (v' = v \/ (is_fresh v t1 = false /\ exists snap, fetched = Ok snap /\ v' = mkFundsView (cadence v) snap t2 true)) /\
  match out with
  | Ok _ => fresh /\ required <= available
  | Err e => (category e = DataStale /\ ~ fresh) \/
      (category e = InsufficientFunds /\ action e = DoNotRetry /\ fresh /\ available < required)
  end.
Proof.
  unfold check_margin. destruct (ensure_fresh_cases v fetched t1 t2 t3) as [msg ->].
  destruct (view_after_cases v fetched t1 t2) as [Hc Hv]. set (v' := view_after v fetched t1 t2) in *.
  destruct (is_fresh v' t3) eqn:E.
  - apply is_fresh_spec in E. rewrite Hc in E.
    destruct (Z.leb_spec required (money_paise (available_margin (snapshot v')))) as [Hle|Hlt];
      (split; [exact Hv|]); [by split|right; split_and!; done || apply E].
  - split; [exact Hv|]. left. split; [done|]. rewrite <- Hc, <- is_fresh_spec. congruence.
Qed.
