(* ===== verification/Gate.v ===== *)
(** * Gate: the pre-send validation gate (src/src/risk/validation_gate.cpp)

    The ordered checks every order passes before it is logged or sent. The
    injected callbacks (duplicate, calendar, funds, risk, hedge) are the results
    they would return if called; an absent one is [None]. *)

From S2P Require Import Prelude Errors Domain Risk.

(** ** Data (validation_gate.hpp) *)

Inductive GateOutcome := Allow | AllowWithSlicing.

Record GateContext := mkGateContext {
  gate_intent : OrderIntent;
  instrument : Instrument;
  is_risk_reducing : bool;
  kill_entry_block : bool;
  unknown_pause_active : bool;
  is_duplicate : option bool;
  calendar : option (result unit);
  funds_check : option (result unit);
  risk_check : option (result unit);
  hedge_check : option (result unit);
  allowed_exchanges : list string;
  allowed_products : list Product;
  slice_mode : bool;
}.

(** ** Helpers *)

Definition named (check detail : string) : string :=
  "gate: " +:+ check +:+ " check failed: " +:+ detail.

Definition gate_error (c : ErrorCategory) (check detail : string) : Error :=
  make_error c (named check detail) "".

Definition wrap_error (check : string) (inner : Error) : Error :=
  mkError (category inner) (action inner) (named check (message inner)) (broker_code inner).

Definition contains_product (allowed : list Product) (p : Product) : bool := bool_decide (p ∈ allowed).
Definition contains_exchange (allowed : list string) (e : string) : bool := bool_decide (e ∈ allowed).

Definition uses_limit_price (t : OrderType) : bool :=
  match t with Limit | StopLoss => true | _ => false end.

Definition uses_trigger_price (t : OrderType) : bool :=
  match t with StopLoss | StopLossMarket => true | _ => false end.

Definition tick_violation (price tick : Z) (label : string) : option Error :=
  if price <=? 0
  then Some (gate_error Validation "tick" (label +:+ " " +:+ pretty price +:+ " paise must be positive"))
  else if tick <=? 0
  then Some (gate_error Validation "tick" ("instrument tick size " +:+ pretty tick +:+ " is invalid"))
  else if negb (Z.rem price tick =? 0)
  then Some (gate_error Validation "tick" (label +:+ " " +:+ pretty price +:+
         " paise is not aligned to tick size " +:+ pretty tick +:+ " paise"))
  else None.

(** Call an injected check, if there is one, and wrap its error. *)
Definition run_check {A} (enabled : bool) (check : option (result unit)) (name : string) (next : result A) : result A :=
  if enabled then
    match check with
    | Some (Err e) => Err (wrap_error name e)
    | _ => next
    end
  else next.

(** The tick test of one price, when the order type uses it. *)
Definition run_tick {A} (enabled : bool) (price tick : Z) (label : string) (next : result A) : result A :=
  if enabled then
    match tick_violation price tick label with
    | Some e => Err e
    | None => next
    end
  else next.

(** ** validate *)

(** The last block: freeze, calendar, funds, risk, hedge. *)
Definition validate_tail (ctx : GateContext) : result GateOutcome :=
  let entry := negb (is_risk_reducing ctx) in
  let qty := quantity_value (quantity (gate_intent ctx)) in
  let freeze := quantity_value (freeze_qty (instrument ctx)) in
  if freeze <=? 0
  then Err (gate_error Validation "freeze"
         ("instrument freeze ceiling " +:+ pretty freeze +:+ " is unknown or invalid"))
  else
    let needs_slicing := freeze <? qty in
    if needs_slicing && negb (slice_mode ctx)
    then Err (gate_error Validation "freeze"
           ("quantity " +:+ pretty qty +:+ " exceeds the freeze ceiling " +:+ pretty freeze +:+
            " and slicing is disabled"))
    else
      run_check entry (calendar ctx) "time-window"
        (run_check entry (funds_check ctx) "funds"
          (run_check true (risk_check ctx) "risk"
            (run_check true (hedge_check ctx) "hedge"
              (Ok (if needs_slicing then AllowWithSlicing else Allow))))).

(** The order-shape and tick checks. *)
Definition validate_shape (ctx : GateContext) (next : result GateOutcome) : result GateOutcome :=
  let i := gate_intent ctx in
  let needs_trigger := uses_trigger_price (order_type i) in
  let has_trigger := match trigger_price i with Some _ => true | None => false end in
  let trigger := match trigger_price i with Some t => price_paise t | None => 0 end in
  let limit := price_paise (price i) in
  if needs_trigger && negb has_trigger
  then Err (gate_error Validation "order-shape"
         ("order type '" +:+ order_type_to_string (order_type i) +:+ "' requires a trigger price"))
  else if negb needs_trigger && has_trigger
  then Err (gate_error Validation "order-shape"
         ("order type '" +:+ order_type_to_string (order_type i) +:+ "' must not carry a trigger price"))
  else if bool_decide (order_type i = StopLoss) &&
          negb (if bool_decide (side i = Sell) then limit <=? trigger else trigger <=? limit)
  then Err (gate_error Validation "order-shape"
         ("a " +:+ side_to_string (side i) +:+ " stop-loss limit price " +:+ pretty limit +:+
          " paise is on the wrong side of its trigger " +:+ pretty trigger +:+
          " paise (SELL requires limit <= trigger, BUY requires limit >= trigger); " +:+
          "the order would arm and then never fill"))
  else
    let tick := price_paise (tick_size (instrument ctx)) in
    run_tick (uses_limit_price (order_type i)) limit tick "price"
      (run_tick needs_trigger trigger tick "trigger price" next).

Definition validate (ctx : GateContext) : result GateOutcome :=
  let i := gate_intent ctx in
  let inst := instrument ctx in
  let entry := negb (is_risk_reducing ctx) in
  if entry && kill_entry_block ctx
  then Err (set_action BlockStrategy (gate_error RiskRejected "kill-switch"
         "entries are blocked by an active kill-switch"))
  else if entry && unknown_pause_active ctx
  then Err (set_action BlockStrategy (gate_error RiskRejected "UNKNOWN-pause"
         "entries are paused while UNKNOWN orders are unresolved"))
  else if entry && match is_duplicate ctx with Some d => d | None => false end
  then Err (gate_error DuplicateOrder "duplicate"
         ("client_ref '" +:+ client_ref i +:+ "' has already been seen"))
  else if String.eqb (exchange inst) ""
  then Err (gate_error Validation "exchange" "instrument has no exchange")
  else if negb (bool_decide (allowed_exchanges ctx = [])) &&
          negb (contains_exchange (allowed_exchanges ctx) (exchange inst))
  then Err (gate_error Validation "exchange" ("exchange '" +:+ exchange inst +:+ "' is not allowed"))
  else if negb (bool_decide (allowed_products ctx = [])) &&
          negb (contains_product (allowed_products ctx) (product i))
  then Err (gate_error Validation "product" ("product '" +:+ product_to_string (product i) +:+
         "' is not allowed for this instrument"))
  else
    let qty := quantity_value (quantity i) in
    let lot := quantity_value (lot_size inst) in
    if qty <=? 0
    then Err (gate_error Validation "lot" ("quantity " +:+ pretty qty +:+ " must be positive"))
    else if lot <=? 0
    then Err (gate_error Validation "lot" ("instrument lot size " +:+ pretty lot +:+ " is invalid"))
    else if (qty <? lot) || negb (Z.rem qty lot =? 0)
    then Err (gate_error Validation "lot" ("quantity " +:+ pretty qty +:+
           " is not a multiple of lot size " +:+ pretty lot))
    else validate_shape ctx (validate_tail ctx).

(** ** What the gate promises *)

(** A check that is absent or succeeds. *)
Definition passes (c : option (result unit)) : Prop :=
  match c with Some (Err _) => False | _ => True end.

Definition positive_multiple (x unit : Z) : Prop := 0 < x /\ 0 < unit /\ (unit | x).

(** The checks that block entries only. *)
Record entry_ok (ctx : GateContext) : Prop := {
  eo_kill : kill_entry_block ctx = false;
  eo_pause : unknown_pause_active ctx = false;
  eo_duplicate : is_duplicate ctx <> Some true;
  eo_calendar : passes (calendar ctx);
  eo_funds : passes (funds_check ctx);
}.

(** The shape of an order: which prices its type has, their tick alignment, and
    the side-relative order of a stop-loss's two prices. *)
Record shape_ok (i : OrderIntent) (tick : Z) : Prop := {
  so_limit : order_type i = Limit \/ order_type i = StopLoss -> positive_multiple (price_paise (price i)) tick;
  so_trigger : match trigger_price i with
    | Some t => (order_type i = StopLoss \/ order_type i = StopLossMarket) /\ positive_multiple (price_paise t) tick
    | None => order_type i = Market \/ order_type i = Limit
    end;
  so_order : forall t, order_type i = StopLoss -> trigger_price i = Some t ->
    if bool_decide (side i = Sell) then price_paise (price i) <= price_paise t
    else price_paise t <= price_paise (price i);
}.

Record gate_ok (ctx : GateContext) : Prop := {
  go_entry : is_risk_reducing ctx = false -> entry_ok ctx;
  go_exchange : exchange (instrument ctx) <> "" /\
    (allowed_exchanges ctx = [] \/ exchange (instrument ctx) ∈ allowed_exchanges ctx);
  go_product : allowed_products ctx = [] \/ product (gate_intent ctx) ∈ allowed_products ctx;
  go_lot : positive_multiple (quantity_value (quantity (gate_intent ctx)))
             (quantity_value (lot_size (instrument ctx)));
  go_shape : shape_ok (gate_intent ctx) (price_paise (tick_size (instrument ctx)));
  go_freeze : 0 < quantity_value (freeze_qty (instrument ctx));
  go_slicing : quantity_value (freeze_qty (instrument ctx)) < quantity_value (quantity (gate_intent ctx)) ->
    slice_mode ctx = true;
  go_risk : passes (risk_check ctx);
  go_hedge : passes (hedge_check ctx);
}.

(** The error names the gate. *)
Definition names_gate (r : result GateOutcome) : Prop :=
  match r with Ok _ => True | Err e => exists check detail, message e = named check detail end.

Lemma rem_multiple x u : 0 < x -> 0 < u -> (x <? u) || negb (Z.rem x u =? 0) = false <-> (u | x).
Proof.
  intros Hx Hu. rewrite orb_false_iff, negb_false_iff, Z.ltb_ge, Z.eqb_eq, Z.rem_divide by lia.
  split; [by intros []|]. intros Hd. split; [|done]. by apply Z.divide_pos_le.
Qed.

Lemma tick_violation_none p t l : tick_violation p t l = None <-> positive_multiple p t.
Proof.
  unfold tick_violation, positive_multiple.
  destruct (Z.leb_spec p 0); [split; [done|lia]|]. destruct (Z.leb_spec t 0); [split; [done|lia]|].
  destruct (Z.eqb_spec (Z.rem p t) 0) as [E|E]; simpl.
  - apply Z.rem_divide in E; [|lia]. tauto.
  - split; [done|]. intros (_ & _ & Hd). apply Z.rem_divide in Hd; [done|lia].
Qed.

Lemma run_check_ok {A} b c n (next : result A) x :
  run_check b c n next = Ok x <-> (b = true -> passes c) /\ next = Ok x.
Proof.
  unfold run_check, passes. destruct b, c as [[]|]; intuition congruence.
Qed.

Lemma run_tick_ok {A} b p t l (next : result A) x :
  run_tick b p t l next = Ok x <-> (b = true -> positive_multiple p t) /\ next = Ok x.
Proof.
  unfold run_tick. destruct b; [|intuition congruence]. rewrite <- (tick_violation_none p t l).
  destruct (tick_violation p t l); intuition congruence.
Qed.

Lemma guard_ok {A} (b : bool) (e : Error) (next : result A) x :
  (if b then Err e else next) = Ok x <-> b = false /\ next = Ok x.
Proof. destruct b; intuition congruence. Qed.

Lemma validate_tail_ok ctx out :
  validate_tail ctx = Ok out <->
  0 < quantity_value (freeze_qty (instrument ctx)) /\
  (quantity_value (freeze_qty (instrument ctx)) < quantity_value (quantity (gate_intent ctx)) -> slice_mode ctx = true) /\
  (is_risk_reducing ctx = false -> passes (calendar ctx) /\ passes (funds_check ctx)) /\
  passes (risk_check ctx) /\ passes (hedge_check ctx) /\
  out = (if quantity_value (freeze_qty (instrument ctx)) <? quantity_value (quantity (gate_intent ctx))
         then AllowWithSlicing else Allow).
Proof.
  unfold validate_tail. cbv zeta. rewrite !guard_ok, !run_check_ok, Z.leb_gt, negb_true_iff.
  set (f := quantity_value (freeze_qty (instrument ctx))). set (q := quantity_value (quantity (gate_intent ctx))).
  assert ((f <? q) && negb (slice_mode ctx) = false <-> (f < q -> slice_mode ctx = true)) as ->.
  { destruct (Z.ltb_spec f q), (slice_mode ctx); simpl; intuition (lia || congruence). }
  assert (forall a b : GateOutcome, Ok a = Ok b <-> b = a) as -> by (intros; split; congruence).
  tauto.
Qed.

Lemma shape_cases i tick :
  shape_ok i tick <->
  match order_type i, trigger_price i with
  | Market, None => True
  | Limit, None => positive_multiple (price_paise (price i)) tick
  | StopLoss, Some t =>
      negb (if bool_decide (side i = Sell) then price_paise (price i) <=? price_paise t
            else price_paise t <=? price_paise (price i)) = false /\
      positive_multiple (price_paise (price i)) tick /\ positive_multiple (price_paise t) tick
  | StopLossMarket, Some t => positive_multiple (price_paise t) tick
  | _, _ => False
  end.
Proof.
  assert (forall (b : bool) x y, negb (if b then x <=? y else y <=? x) = false <-> (if b then x <= y else y <= x)) as Hord.
  { intros b x y. rewrite negb_false_iff. destruct b; apply Z.leb_le. }
  destruct (order_type i) eqn:Et, (trigger_price i) as [t|] eqn:Ep; rewrite ?Hord; (split;
    [intros [S1 S2 S3]; rewrite Et, Ep in *; naive_solver
    |intros H; try done; split; rewrite ?Et, ?Ep; naive_solver]).
Qed.

Lemma validate_shape_ok ctx next out :
  validate_shape ctx next = Ok out <->
  shape_ok (gate_intent ctx) (price_paise (tick_size (instrument ctx))) /\ next = Ok out.
Proof.
  rewrite shape_cases. unfold validate_shape. cbv zeta. rewrite !guard_ok, !run_tick_ok.
  destruct (order_type (gate_intent ctx)), (trigger_price (gate_intent ctx)); simpl; intuition congruence.
Qed.

Lemma validate_ok ctx out :
  validate ctx = Ok out <->
  gate_ok ctx /\
  out = (if quantity_value (freeze_qty (instrument ctx)) <? quantity_value (quantity (gate_intent ctx))
         then AllowWithSlicing else Allow).
Proof.
  unfold validate. cbv zeta. rewrite !guard_ok, validate_shape_ok, validate_tail_ok.
  rewrite !andb_false_iff, !negb_false_iff, !bool_decide_eq_true.
  unfold contains_exchange, contains_product. rewrite !bool_decide_eq_true, String.eqb_neq.
  assert ((match is_duplicate ctx with Some d => d | None => false end = false) <-> is_duplicate ctx <> Some true) as ->
    by (destruct (is_duplicate ctx) as [[]|]; intuition congruence).
  set (q := quantity_value (quantity (gate_intent ctx))). set (l := quantity_value (lot_size (instrument ctx))).
  assert ((q <=? 0) = false <-> 0 < q) as -> by apply Z.leb_gt.
  assert ((l <=? 0) = false <-> 0 < l) as -> by apply Z.leb_gt.
  split.
  - intros (Hk & Hp & Hd & He & Hae & Hap & Hq & Hl & Hm & Hs & Hf & Hsl & Hent & Hr & Hh & Ho).
    apply rem_multiple in Hm; [|done..]. split; [|done]. split; try done.
    intros Hrr. rewrite Hrr in *. destruct (Hent eq_refl). split; intuition congruence.
  - intros [[Hent [He Hae] Hap (Hq & Hl & Hm) Hs Hf Hsl Hr Hh] Ho].
    apply rem_multiple in Hm; [|done..].
    destruct (is_risk_reducing ctx); [split_and!; try done; auto|].
    destruct (Hent eq_refl). split_and!; auto.
Qed.

Lemma validate_names_gate ctx : names_gate (validate ctx).
Proof.
  assert (forall b c n next, names_gate next -> names_gate (run_check b c n next)) as Hc.
  { intros b [[]|] n next H; destruct b; simpl; eauto. }
  assert (forall b p t l next, names_gate next -> names_gate (run_tick b p t l next)) as Ht.
  { intros b p t l next H. unfold run_tick, tick_violation. destruct b; [|done].
    repeat split_match; simpl; eauto. }
  assert (forall b c n d next, names_gate next -> names_gate (if b : bool then Err (gate_error c n d) else next)) as Hg.
  { intros [] *; simpl; eauto. }
  assert (forall b a c n d next, names_gate next ->
    names_gate (if b : bool then Err (set_action a (gate_error c n d)) else next)) as Hs.
  { intros [] *; simpl; eauto. }
  unfold validate, validate_shape, validate_tail. cbv zeta.
  repeat first [apply Hs|apply Hg|apply Hc|apply Ht]. done.
Qed.

(** C13: the gate is sound and complete against its specification: it lets an
    order through exactly when every rule holds, saying whether it must be
    sliced; the entry-only rules (kill switch, UNKNOWN pause, duplicate, time
    window, funds) are waived for a risk-reducing order and no other rule is; and
    every refusal names the check that failed. *)
Theorem gate_exact ctx :
  match validate ctx with
  | Ok out => gate_ok ctx /\
      out = (if quantity_value (freeze_qty (instrument ctx)) <? quantity_value (quantity (gate_intent ctx))
             then AllowWithSlicing else Allow)
  | Err _ => ~ gate_ok ctx
  end /\ names_gate (validate ctx).
Proof.
  split; [|apply validate_names_gate]. destruct (validate ctx) as [out|e] eqn:E.
  - by apply validate_ok.
  - intros H. assert (validate ctx = Ok (if quantity_value (freeze_qty (instrument ctx)) <?
      quantity_value (quantity (gate_intent ctx)) then AllowWithSlicing else Allow)) as E' by by apply validate_ok.
    congruence.
Qed.

(** Both verdicts occur. *)
Example gate_sample :
  let inst := mkInstrument "NIFTY" 1 "NFO" (quantity_of 25) (from_paise 5) (quantity_of 1800) "" in
  let i := mkIntent "s-1" "NIFTY" Sell (quantity_of 50) (from_paise 9995) (Some (from_paise 10000)) StopLoss Intraday "s" in
  let ctx rr := mkGateContext i inst rr true false None None (Some (Err (make_error DataStale "x" ""))) (Some ok) None [] [] true in
  validate (ctx true) = Ok Allow /\ is_ok (validate (ctx false)) = false.
Proof. vm_compute. by split. Qed.
