(* ===== verification/Store.v ===== *)
(** * Store: the orders table of the projection (src/src/store/store.cpp)

    The [orders] table as a finite map keyed by its UNIQUE [client_ref], the row
    codec that stores an order in thirteen columns, and the refinement of the one
    by the other. What SQLite reports for a statement is an argument: [Some e]
    when it fails. *)

From S2P Require Import Prelude Errors Domain.

Abbreviation orders_table := (gmap string Order).

Definition order_ref (o : Order) : string := client_ref (intent o).

Definition insert_order (fault : option Error) (t : orders_table) (o : Order) :
    result unit * orders_table :=
  match fault with
  | Some e => (Err e, t)
  | None =>
      match t !! order_ref o with
      | Some _ =>
          (Err (make_error DuplicateOrder "store: order with this client_ref already exists" ""), t)
      | None => (Ok tt, <[order_ref o := o]> t)
      end
  end.

Definition upsert_order (fault : option Error) (t : orders_table) (o : Order) :
    result unit * orders_table :=
  match fault with
  | Some e => (Err e, t)
  | None => (Ok tt, <[order_ref o := o]> t)
  end.

Definition find_order (fault : option Error) (t : orders_table) (ref : string) : result (option Order) :=
  match fault with
  | Some e => Err e
  | None => Ok (t !! ref)
  end.

(** [ORDER BY client_ref]. *)
Fixpoint insert_by_ref (o : Order) (l : list Order) : list Order :=
  match l with
  | [] => [o]
  | x :: r => if String.leb (order_ref o) (order_ref x) then o :: l else x :: insert_by_ref o r
  end.

Definition sort_by_ref (l : list Order) : list Order := foldr insert_by_ref [] l.

Definition all_orders (fault : option Error) (t : orders_table) : result (list Order) :=
  match fault with
  | Some e => Err e
  | None => Ok (sort_by_ref ((map_to_list t).*2))
  end.

Lemma insert_by_ref_perm o l : Permutation (insert_by_ref o l) (o :: l).
Proof.
  induction l as [|x l IH]; simpl; [done|]. destruct (String.leb _ _); [done|].
  rewrite IH. apply Permutation_swap.
Qed.

Lemma sort_by_ref_perm l : Permutation (sort_by_ref l) l.
Proof. induction l as [|o l IH]; simpl; [done|]. by rewrite insert_by_ref_perm, IH. Qed.

Lemma all_orders_elem t l o : all_orders None t = Ok l -> o ∈ l <-> exists k, t !! k = Some o.
Proof.
  intros [= <-]. rewrite (sort_by_ref_perm _), list_elem_of_fmap. split.
  - intros ([k x] & -> & Hx). apply elem_of_map_to_list in Hx. eauto.
  - intros [k Hk]. exists (k, o). by rewrite elem_of_map_to_list.
Qed.

(** ** The row codec

    A column is TEXT or INTEGER; the trigger column is nullable. Enumerations are
    stored as their contract names and read back with a default. *)

Record OrderRow := mkRow {
  col_client_ref : string;
  col_symbol : string;
  col_side : string;
  col_quantity : Z;
  col_price_paise : Z;
  col_order_type : string;
  col_product : string;
  col_strategy : string;
  col_state : string;
  col_broker_order_id : string;
  col_filled_qty : Z;
  col_avg_price_paise : Z;
  col_trigger_price_paise : option Z;
}.

Definition decode_side (text : string) : Side := if String.eqb text "SELL" then Sell else Buy.

Definition decode_order_type (text : string) : OrderType :=
  if String.eqb text "LIMIT" then Limit
  else if String.eqb text "SL" then StopLoss
  else if String.eqb text "SL-M" then StopLossMarket
  else Market.

Definition decode_product (text : string) : Product :=
  if String.eqb text "DELIVERY" then Delivery
  else if String.eqb text "MARGIN" then Margin
  else if String.eqb text "NORMAL" then Normal
  else Intraday.

Definition decode_state (text : string) : OrderState :=
  if String.eqb text "VALIDATED" then Validated
  else if String.eqb text "PENDING_SEND" then PendingSend
  else if String.eqb text "SENT" then Sent
  else if String.eqb text "ACKNOWLEDGED" then Acknowledged
  else if String.eqb text "PARTIALLY_FILLED" then PartiallyFilled
  else if String.eqb text "FILLED" then Filled
  else if String.eqb text "REJECTED" then Rejected
  else if String.eqb text "CANCELLED" then Cancelled
  else if String.eqb text "UNKNOWN" then Unknown
  else if String.eqb text "RECONCILED" then Reconciled
  else if String.eqb text "PARTIALLY_PLACED" then PartiallyPlaced
  else if String.eqb text "MANUAL_INTERVENTION_REQUIRED" then ManualInterventionRequired
  else Created.

Definition bind_order (o : Order) : OrderRow :=
  let i := intent o in
  mkRow (client_ref i) (symbol i) (side_to_string (side i)) (quantity_value (quantity i))
    (price_paise (price i)) (order_type_to_string (order_type i)) (product_to_string (product i))
    (strategy i) (order_state_to_string (state o)) (broker_order_id o)
    (quantity_value (filled_qty o)) (price_paise (avg_price o)) (price_paise <$> trigger_price i).

Definition read_order (r : OrderRow) : Order :=
  mkOrder
    (mkIntent (col_client_ref r) (col_symbol r) (decode_side (col_side r))
       (quantity_of (col_quantity r)) (from_paise (col_price_paise r))
       (from_paise <$> col_trigger_price_paise r) (decode_order_type (col_order_type r))
       (decode_product (col_product r)) (col_strategy r))
    (decode_state (col_state r)) (col_broker_order_id r) (quantity_of (col_filled_qty r))
    (from_paise (col_avg_price_paise r)).

Lemma decode_side_to_string x : decode_side (side_to_string x) = x.
Proof. by destruct x. Qed.
Lemma decode_order_type_to_string x : decode_order_type (order_type_to_string x) = x.
Proof. by destruct x. Qed.
Lemma decode_product_to_string x : decode_product (product_to_string x) = x.
Proof. by destruct x. Qed.
Lemma decode_state_to_string x : decode_state (order_state_to_string x) = x.
Proof. by destruct x. Qed.

Lemma read_bind_order o : read_order (bind_order o) = o.
Proof.
  destruct o as [[ref sym sd [q] [p] [[t]|] ty pr st] s b [f] [a]]; unfold bind_order, read_order; simpl;
    by rewrite decode_side_to_string, decode_order_type_to_string, decode_product_to_string,
      decode_state_to_string.
Qed.

(** ** The table of rows, and the refinement *)

Abbreviation row_table := (gmap string OrderRow).

(** [INSERT INTO orders …], with the UNIQUE constraint on [client_ref]. *)
Definition insert_row (fault : option Error) (t : row_table) (o : Order) : result unit * row_table :=
  let row := bind_order o in
  match fault with
  | Some e => (Err e, t)
  | None =>
      match t !! col_client_ref row with
      | Some _ =>
          (Err (make_error DuplicateOrder "store: order with this client_ref already exists" ""), t)
      | None => (Ok tt, <[col_client_ref row := row]> t)
      end
  end.

(** [… ON CONFLICT(client_ref) DO UPDATE SET col = excluded.col, …]: every column
    but the key takes the new value. *)
Definition upsert_row (fault : option Error) (t : row_table) (o : Order) : result unit * row_table :=
  let row := bind_order o in
  match fault with
  | Some e => (Err e, t)
  | None => (Ok tt, <[col_client_ref row := row]> t)
  end.

Definition find_row (fault : option Error) (t : row_table) (ref : string) : result (option Order) :=
  match fault with
  | Some e => Err e
  | None => Ok (read_order <$> t !! ref)
  end.

Definition all_rows (fault : option Error) (t : row_table) : result (list Order) :=
  match fault with
  | Some e => Err e
  | None => Ok (sort_by_ref (read_order <$> (map_to_list t).*2))
  end.

(** One call of the orders API and its answer. *)
Inductive store_call :=
  | CallInsert (o : Order)
  | CallUpsert (o : Order)
  | CallFind (ref : string)
  | CallAll.

Inductive store_answer :=
  | Done (r : result unit)
  | Found (r : result (option Order))
  | Listed (r : result (list Order)).

Definition run_rows (fault : option Error) (c : store_call) (t : row_table) : store_answer * row_table :=
  match c with
  | CallInsert o => let '(r, t') := insert_row fault t o in (Done r, t')
  | CallUpsert o => let '(r, t') := upsert_row fault t o in (Done r, t')
  | CallFind ref => (Found (find_row fault t ref), t)
  | CallAll => (Listed (all_rows fault t), t)
  end.

Definition run_orders (fault : option Error) (c : store_call) (t : orders_table) :
    store_answer * orders_table :=
  match c with
  | CallInsert o => let '(r, t') := insert_order fault t o in (Done r, t')
  | CallUpsert o => let '(r, t') := upsert_order fault t o in (Done r, t')
  | CallFind ref => (Found (find_order fault t ref), t)
  | CallAll => (Listed (all_orders fault t), t)
  end.

Fixpoint answers {T} (run : option Error -> store_call -> T -> store_answer * T)
    (l : list (option Error * store_call)) (t : T) : list store_answer :=
  match l with
  | [] => []
  | (fault, c) :: rest => let '(a, t') := run fault c t in a :: answers run rest t'
  end.

(** Rows and orders agree: the rows are the bound orders. *)
Definition rows_of (t : orders_table) : row_table := bind_order <$> t.

Lemma read_rows_of t : read_order <$> rows_of t = t.
Proof.
  unfold rows_of. rewrite <- map_fmap_compose. rewrite <- (map_fmap_id t) at 2.
  apply map_fmap_ext. intros k o _. apply read_bind_order.
Qed.

Lemma run_rows_refine fault c t :
  run_rows fault c (rows_of t) = prod_map id rows_of (run_orders fault c t).
Proof.
  assert (forall o, <[order_ref o := bind_order o]> (rows_of t) = rows_of (<[order_ref o := o]> t)) as Hins
    by (intros o; unfold rows_of; by rewrite fmap_insert).
  destruct c as [o|o|ref|]; simpl; unfold insert_row, insert_order, upsert_row, upsert_order, find_row,
    find_order, all_rows, all_orders; destruct fault; simpl; try done.
  - fold (order_ref o). unfold rows_of at 1. rewrite lookup_fmap.
    destruct (t !! order_ref o); simpl; [done|]. by rewrite <- Hins.
  - fold (order_ref o). by rewrite <- Hins.
  - unfold rows_of. rewrite lookup_fmap. destruct (t !! ref); simpl; [by rewrite read_bind_order|done].
  - assert (read_order <$> (map_to_list (rows_of t)).*2 = (map_to_list t).*2) as ->; [|done].
    unfold rows_of. rewrite map_to_list_fmap.
    induction (map_to_list t) as [|[k o] l IH]; simpl; [done|].
    f_equal; [apply read_bind_order|exact IH].
Qed.

(** the orders API over its thirteen text and integer columns answers every
    sequence of calls, failing statements included, exactly as a map from client
    references to orders does: no field is lost or altered by the row codec, a
    second insert of a reference is refused, an upsert replaces the whole row,
    and the listing is the same and in the same order. *)
Theorem rows_answer_as_orders (l : list (option Error * store_call)) :
  answers run_rows l ∅ = answers run_orders l ∅.
Proof.
  assert (forall t, answers run_rows l (rows_of t) = answers run_orders l t) as H.
  { induction l as [|[fault c] l IH]; intros t; simpl; [done|].
    rewrite run_rows_refine. destruct (run_orders fault c t) as [a t']; simpl. by rewrite IH. }
  specialize (H ∅). unfold rows_of in H. by rewrite fmap_empty in H.
Qed.
