(* ===== verification/Dispatcher.v ===== *)
(** * Dispatcher: the order dispatch path (src/src/runtime/dispatcher.cpp)

    [place], [modify], [cancel] and [square_off], in a state and error monad
    over the dispatcher's collaborators, with a trace of the log, barrier and
    broker calls. The write-ahead log is an interface; its instance is the intent
    log of WriteAhead.v. What the broker, the disk, the store and the clock
    answer during a call is that call's environment. *)

From S2P Require Import Prelude Errors Domain ClientRef Utf8 Sha256 Lifecycle Json IntentLog.
From S2P Require Import WriteAhead Idempotency Store.

#[local] Opaque sha256_hex.

(** ** The write-ahead log, as the dispatcher sees it *)

Class WriteAheadLog := {
  wal : Type;
  (** what the disk and the clock do during one append *)
  wal_env : Type;
  log_append : wal_env -> wal -> IntentOp -> string -> string -> result IntentRecord * wal;
}.

(** [wal_holds w acked]: a running log that has acknowledged [acked];
    [wal_room]: the record number and the time fit; [wal_recovers w rs w']: a
    crash and restart that read the log to its end, after which the boot replay has
    returned [rs]. *)
Class WriteAheadLaws (W : WriteAheadLog) := {
  wal_holds : wal -> list IntentRecord -> Prop;
  wal_room : wal -> wal_env -> Prop;
  wal_recovers : wal -> list IntentRecord -> wal -> Prop;
  wal_append_acked env w acked o ref payload r w' :
    wal_holds w acked -> wal_room w env -> log_append env w o ref payload = (Ok r, w') ->
    wal_holds w' (acked ++ [r]) /\ op r = o /\ rec_client_ref r = canonical_text ref /\
    payload_json r = canonical_text payload;
  wal_append_refused env w acked o ref payload e w' :
    wal_holds w acked -> wal_room w env -> log_append env w o ref payload = (Err e, w') ->
    wal_holds w' acked;
  wal_recovers_acked w acked rs w' :
    wal_holds w acked -> wal_recovers w rs w' -> acked `sublist_of` rs /\ wal_holds w' acked;
}.

(** The intent log implements it. *)
#[export] Instance intent_log `{J : JsonLib} : WriteAheadLog := {|
  wal := Wal;
  wal_env := write_io * Z;
  log_append env s o ref payload :=
    match append env.1 env.2 (w_log s) (w_file s) o ref payload with
    | (Ok r, log', file') => (Ok r, mkWal true log' file' (String.length file') (w_acked s ++ [r]))
    | (Err e, log', file') => (Err e, mkWal true log' file' (w_synced s) (w_acked s))
    end;
|}.

Section intent_log_laws.
Context `{J : JsonLib} `{L : !JsonLaws J}.

Definition log_holds (s : Wal) (acked : list IntentRecord) : Prop :=
  w_up s = true /\ w_acked s = acked /\ exists recs ps, wal_inv s recs ps.

Definition log_room (s : Wal) (env : write_io * Z) : Prop :=
  is_int64 env.2 /\ next_seq (w_log s) < int64_max.

(** Any number of failed boots, then one whose replay returns [rs]; the boots read
    the whole file or could not open it. *)
Definition log_recovers (s : Wal) (rs : list IntentRecord) (s' : Wal) : Prop :=
  exists s0 keep fix_io p log' file', rtc (wal_step RestartFailed) s s0 /\
    (w_synced s0 <= keep)%nat /\
    replay ReadOk fix_io (opened p) (str_take keep (w_file s0)) = (Some (Ok rs), log', file') /\
    s' = mkWal true log' file' (String.length file') (w_acked s0).

Lemma failed_boots s s0 : rtc (wal_step RestartFailed) s s0 -> (exists recs ps, wal_inv s recs ps) ->
  w_acked s0 = w_acked s /\ exists recs ps, wal_inv s0 recs ps.
Proof.
  induction 1 as [|x y z Hxy _ IH]; [done|]. intros (recs & ps & Hi).
  destruct (inv_step _ _ _ _ _ Hi Hxy) as (recs' & ps' & Hi' & _).
  destruct (IH ltac:(eauto)) as [-> ?]. by inversion Hxy.
Qed.

#[export] Program Instance intent_log_laws : WriteAheadLaws intent_log := {|
  wal_holds := log_holds;
  wal_room := log_room;
  wal_recovers := log_recovers;
|}.
Next Obligation.
  intros [io now] s acked o ref payload r s' (Hup & Hacked & recs & ps & Hi) [Hn Hseq] H.
  unfold log_append in H. simpl in *.
  destruct (append io now _ _ o ref payload) as [[[r'|e] log'] file'] eqn:E; [|done]. injection H as <- <-.
  pose proof (wal_append s io now o ref payload r' log' file' Hup Hn Hseq E) as Hstep.
  destruct (inv_step _ _ _ _ _ Hi Hstep) as (recs' & ps' & Hi' & _).
  apply append_ok_inv in E as (_ & -> & _). split_and!; try done.
  split; [done|]. split; [simpl; congruence|eauto].
Qed.
Next Obligation.
  intros [io now] s acked o ref payload e s' (Hup & Hacked & recs & ps & Hi) [Hn Hseq] H.
  unfold log_append in H. simpl in *.
  destruct (append io now _ _ o ref payload) as [[[r'|e'] log'] file'] eqn:E; [done|]. injection H as <- <-.
  pose proof (wal_append_failed s io now o ref payload e' log' file' Hup Hn Hseq E) as Hstep.
  destruct (inv_step _ _ _ _ _ Hi Hstep) as (recs' & ps' & Hi' & _).
  split; [done|]. split; [done|eauto].
Qed.
Next Obligation.
  intros s acked rs s' (Hup & Hacked & Hi) (s0 & keep & fix_io & p & log' & file' & Hf & Hk & Hr & ->).
  destruct (failed_boots _ _ Hf Hi) as (Ha & recs & ps & Hi0).
  destruct (inv_restart s0 recs ps keep ReadOk _ _ _ _ _ Hi0 Hk ltac:(done) Hr) as [Hs Hi'].
  split; [congruence|]. split; [done|]. split; [simpl; congruence|eauto].
Qed.

End intent_log_laws.

(** ** Outcome payloads *)

Definition kQuote : string := String "034" "".

Definition hex_nibble (n : nat) : string := str (take 1 (drop n (chars "0123456789abcdef"))).

Definition escape_char (c : ascii) : string :=
  let n := nat_of_ascii c in
  if bool_decide (c = "034"%char) then "\" +:+ kQuote
  else if bool_decide (c = "092"%char) then "\\"
  else if bool_decide (c = "010"%char) then "\n"
  else if bool_decide (c = "013"%char) then "\r"
  else if bool_decide (c = "009"%char) then "\t"
  else if (n <? 32)%nat then "\u00" +:+ hex_nibble (n / 16) +:+ hex_nibble (n mod 16)
  else String c "".

(** [append_escaped(out, value)] appends this text. *)
Definition escaped (value : string) : string :=
  foldr (fun c acc => escape_char c +:+ acc) "" (chars value).

(** The quotes of the source's raw literals. *)
Definition quoted (s : string) : string := kQuote +:+ s +:+ kQuote.

Definition id_field (broker_order_id : string) : string :=
  if String.eqb broker_order_id "" then ""
  else "," +:+ quoted "broker_order_id" +:+ ":" +:+ quoted (escaped broker_order_id).

Definition outcome_json (s : OrderState) (broker_order_id : string) (wall_ts_ns : Z) : string :=
  "{" +:+ quoted "state" +:+ ":" +:+ quoted (escaped (order_state_to_string s)) +:+
  id_field broker_order_id +:+ "," +:+ quoted "wall_ts_ns" +:+ ":" +:+ pretty wall_ts_ns +:+ "}".

Definition op_outcome_json (op outcome broker_order_id : string) (wall_ts_ns : Z) : string :=
  "{" +:+ quoted "op" +:+ ":" +:+ quoted (escaped op) +:+ "," +:+ quoted "outcome" +:+ ":" +:+
  quoted (escaped outcome) +:+ id_field broker_order_id +:+ "," +:+ quoted "wall_ts_ns" +:+ ":" +:+
  pretty wall_ts_ns +:+ "}".

Example outcome_json_sample :
  outcome_json Unknown ("a" +:+ String "001" "b") 7 =
  "{" +:+ quoted "state" +:+ ":" +:+ quoted "UNKNOWN" +:+ "," +:+ quoted "broker_order_id" +:+ ":" +:+
  quoted "a\u0001b" +:+ "," +:+ quoted "wall_ts_ns" +:+ ":7}".
Proof. reflexivity. Qed.

(** ** State, trace and monad *)

Record BrokerAck := mkAck { ack_broker_order_id : string; ack_client_ref : string }.

(** The externally visible calls, in order. *)
Inductive Event :=
  | EvLogged (r : IntentRecord)
  | EvLogRefused
  | EvBarrier
  | EvPlace (i : OrderIntent)
  | EvModify (broker_order_id : string) (i : OrderIntent)
  | EvCancel (broker_order_id : string)
  | EvSquareOff (broker_order_id : string).

Section dispatcher.
Context `{J : JsonLib} `{W : WriteAheadLog}.

(** The dispatcher with its collaborators: the log, the store's orders, the
    index, [unsent_refs_], the lifecycle engine; [d_trace] is ghost. *)
Record Dispatcher := mkDispatcher {
  d_wal : wal;
  d_orders : orders_table;
  d_index : gmap string string;
  d_unsent : gset string;
  d_fsm : LifecycleEngine;
  d_trace : list Event;
}.

Definition set_wal (w : wal) (d : Dispatcher) : Dispatcher :=
  mkDispatcher w (d_orders d) (d_index d) (d_unsent d) (d_fsm d) (d_trace d).
Definition set_orders (t : orders_table) (d : Dispatcher) : Dispatcher :=
  mkDispatcher (d_wal d) t (d_index d) (d_unsent d) (d_fsm d) (d_trace d).
Definition set_index (ix : gmap string string) (d : Dispatcher) : Dispatcher :=
  mkDispatcher (d_wal d) (d_orders d) ix (d_unsent d) (d_fsm d) (d_trace d).
Definition set_unsent (u : gset string) (d : Dispatcher) : Dispatcher :=
  mkDispatcher (d_wal d) (d_orders d) (d_index d) u (d_fsm d) (d_trace d).
Definition set_fsm (e : LifecycleEngine) (d : Dispatcher) : Dispatcher :=
  mkDispatcher (d_wal d) (d_orders d) (d_index d) (d_unsent d) e (d_trace d).
Definition emit (ev : Event) (d : Dispatcher) : Dispatcher :=
  mkDispatcher (d_wal d) (d_orders d) (d_index d) (d_unsent d) (d_fsm d) (d_trace d ++ [ev]).

(** A call: it may change the state and returns a value or an error. *)
Definition M (A : Type) : Type := Dispatcher -> result A * Dispatcher.

#[export] Instance M_ret : MRet M := fun A a d => (Ok a, d).
#[export] Instance M_bind : MBind M := fun A B f m d =>
  match m d with
  | (Ok a, d') => f a d'
  | (Err e, d') => (Err e, d')
  end.

Definition throw {A} (e : Error) : M A := fun d => (Err e, d).
(** The result as a value, for the [if (!r)] and [if (ack)] of the source. *)
Definition attempt {A} (m : M A) : M (result A) := fun d => let '(r, d') := m d in (Ok r, d').
Definition get : M Dispatcher := fun d => (Ok d, d).
Definition modify_state (f : Dispatcher -> Dispatcher) : M unit := fun d => (Ok tt, f d).

(** ** The collaborators' calls *)

Definition log_call (env : wal_env) (o : IntentOp) (ref payload : string) : M IntentRecord := fun d =>
  match log_append env (d_wal d) o ref payload with
  | (Ok r, w) => (Ok r, emit (EvLogged r) (set_wal w d))
  | (Err e, w) => (Err e, emit EvLogRefused (set_wal w d))
  end.

Definition run_pre_send_barrier : M unit := modify_state (emit EvBarrier).

(** A broker call answers from the environment. *)
Definition broker_call {A} (ev : Event) (answer : result A) : M A := fun d => (answer, emit ev d).

Definition store_insert (fault : option Error) (o : Order) : M unit := fun d =>
  let '(r, t) := insert_order fault (d_orders d) o in (r, set_orders t d).
Definition store_upsert (fault : option Error) (o : Order) : M unit := fun d =>
  let '(r, t) := upsert_order fault (d_orders d) o in (r, set_orders t d).
Definition store_find (fault : option Error) (ref : string) : M (option Order) := fun d =>
  (find_order fault (d_orders d) ref, d).

Definition reserve_call (fault : option Error) (uuid strategy : string) (i : OrderIntent) : M Reservation :=
  fun d =>
    let '(r, ix) := reserve (d_index d) (find_order fault (d_orders d)) uuid strategy i in
    (r, set_index ix d).

Definition fsm_apply (o : Order) (v : BrokerView) : M Order := fun d =>
  let '(_, o', e') := apply (d_fsm d) o v in (Ok o', set_fsm e' d).

Definition is_reconcile_first (e : Error) : bool :=
  if bool_decide (action e = ReconcileFirst) then true
  else bool_decide (category e = Timeout) || bool_decide (category e = Network) ||
       bool_decide (category e = CatUnknown).

(** What the world answers during one call. *)
Record CallEnv := mkCallEnv {
  env_uuid : string;
  env_find_fault : option Error;
  env_write_fault : option Error;
  env_intent_log : wal_env;
  env_result_log : wal_env;
  env_ack : result BrokerAck;
  env_wall_intent : Z;
  env_wall_result : Z;
}.

Definition append_result (env : CallEnv) (ref outcome : string) : M unit :=
  log_call (env_result_log env) Result ref outcome ≫= fun _ => mret tt.

(** ** place *)

Definition place_send (env : CallEnv) (placed : OrderIntent) : M Order :=
  run_pre_send_barrier ≫= fun _ =>
  attempt (broker_call (EvPlace placed) (env_ack env)) ≫= fun ack =>
  match ack with
  | Ok a =>
      let view := mkView (client_ref placed) (ack_broker_order_id a) Acknowledged
                    (quantity_of 0) (from_paise 0) 1 in
      fsm_apply (make_order placed Sent) view ≫= fun order =>
      store_insert (env_write_fault env) order ≫= fun _ =>
      append_result env (order_ref order)
        (outcome_json (state order) (broker_order_id order) (env_wall_result env)) ≫= fun _ =>
      mret order
  | Err err =>
      let resolved := if is_reconcile_first err then Unknown else Rejected in
      let order := make_order placed resolved in
      store_insert (env_write_fault env) order ≫= fun _ =>
      append_result env (order_ref order) (outcome_json (state order) "" (env_wall_result env)) ≫= fun _ =>
      mret order
  end.

(** The record, the barrier and the send of a reservation. *)
Definition place_reserved (env : CallEnv) (i : OrderIntent) (ref : string) : M Order :=
  let placed := with_client_ref ref i in
  attempt (log_call (env_intent_log env) PlaceOrder (client_ref placed) (intent_payload_json placed)) ≫= fun recorded =>
  match recorded with
  | Err e => modify_state (fun d => set_unsent ({[client_ref placed]} ∪ d_unsent d) d) ≫= fun _ => throw e
  | Ok _ =>
      modify_state (fun d => set_unsent (d_unsent d ∖ {[client_ref placed]}) d) ≫= fun _ =>
      place_send env placed
  end.

Definition place (env : CallEnv) (strategy : string) (i : OrderIntent) : M Order :=
  reserve_call (env_find_fault env) (env_uuid env) strategy i ≫= fun reservation =>
  let ref := res_client_ref reservation in
  if negb (is_new reservation) then
    match existing reservation with
    | Some o => mret o
    | None =>
        get ≫= fun d =>
        if bool_decide (ref ∉ d_unsent d)
        then mret (make_order (with_client_ref ref i) Unknown)
        else place_reserved env i ref
    end
  else place_reserved env i ref.

(** ** modify *)

Definition modify (env : CallEnv) (boid : string) (i : OrderIntent) : M Order :=
  log_call (env_intent_log env) ModifyOrder (client_ref i) (intent_payload_json i) ≫= fun _ =>
  run_pre_send_barrier ≫= fun _ =>
  attempt (broker_call (EvModify boid i) (env_ack env)) ≫= fun ack =>
  store_find (env_find_fault env) (client_ref i) ≫= fun found =>
  let order := with_broker_order_id boid
    (match found with Some o => o | None => make_order i Acknowledged end) in
  match ack with
  | Ok a =>
      let order := if one_of [Unknown; Created; Validated; PendingSend; Sent] (state order)
                   then with_state Acknowledged order else order in
      let order := with_broker_order_id (ack_broker_order_id a) order in
      store_upsert (env_write_fault env) order ≫= fun _ =>
      append_result env (order_ref order)
        (outcome_json (state order) (broker_order_id order) (env_wall_result env)) ≫= fun _ =>
      mret order
  | Err err =>
      if is_reconcile_first err then
        let order := with_state Unknown order in
        store_upsert (env_write_fault env) order ≫= fun _ =>
        append_result env (order_ref order) (outcome_json (state order) boid (env_wall_result env)) ≫= fun _ =>
        mret order
      else
        append_result env (client_ref i) (op_outcome_json "modify" "rejected" boid (env_wall_result env)) ≫= fun _ =>
        throw err
  end.

(** ** cancel and square_off: one shape, two log operations *)

Definition reduce_op (o : IntentOp) (name : string) (ev : Event) (env : CallEnv) (boid ref : string) : M unit :=
  log_call (env_intent_log env) o ref (op_outcome_json name "intent" boid (env_wall_intent env)) ≫= fun _ =>
  run_pre_send_barrier ≫= fun _ =>
  attempt (broker_call ev (env_ack env)) ≫= fun outcome =>
  match outcome with
  | Ok _ => append_result env ref (op_outcome_json name "ok" boid (env_wall_result env))
  | Err err =>
      if is_reconcile_first err then
        attempt (store_find (env_find_fault env) ref) ≫= fun found =>
        (match found with
         | Ok (Some order) =>
             if is_terminal (state order) then mret tt
             else store_upsert (env_write_fault env) (with_state Unknown order)
         | _ => mret tt
         end) ≫= fun _ =>
        append_result env ref (op_outcome_json name "unknown" boid (env_wall_result env)) ≫= fun _ =>
        throw err
      else
        append_result env ref (op_outcome_json name "rejected" boid (env_wall_result env)) ≫= fun _ =>
        throw err
  end.

Definition cancel (env : CallEnv) (boid ref : string) : M unit :=
  reduce_op CancelOrder "cancel" (EvCancel boid) env boid ref.

Definition square_off (env : CallEnv) (boid ref : string) : M unit :=
  reduce_op SquareOff "square_off" (EvSquareOff boid) env boid ref.

(** ** What a call leaves in the trace and the log *)

(** The optional result record after a broker call. *)
Definition result_tail (env : CallEnv) (w w' : wal) (tail : list Event) : Prop :=
  (tail = [] /\ w' = w) \/
  exists ref payload,
    match log_append (env_result_log env) w Result ref payload with
    | (Ok r, w2) => tail = [EvLogged r] /\ w' = w2
    | (Err _, w2) => tail = [EvLogRefused] /\ w' = w2
    end.

(** A call that logs before it sends: refused, or logged then the barrier then
    the broker call [ev] and at most a result record. *)
Definition logged_call (env : CallEnv) (o : IntentOp) (ref payload : string) (ev : Event)
    (d d' : Dispatcher) : Prop :=
  match log_append (env_intent_log env) (d_wal d) o ref payload with
  | (Err _, w) => d_trace d' = d_trace d ++ [EvLogRefused] /\ d_wal d' = w
  | (Ok r, w) => exists tail, d_trace d' = d_trace d ++ [EvLogged r; EvBarrier; ev] ++ tail /\
      result_tail env w (d_wal d') tail
  end.

(** Only the store, the engine, the log and the trace move. *)
Definition same_index (d d' : Dispatcher) : Prop := d_index d' = d_index d /\ d_unsent d' = d_unsent d.

Lemma append_result_spec env ref payload d out d' : append_result env ref payload d = (out, d') ->
  same_index d d' /\ d_orders d' = d_orders d /\ exists tail, d_trace d' = d_trace d ++ tail /\
  result_tail env (d_wal d) (d_wal d') tail /\ tail <> [].
Proof.
  unfold append_result, log_call. unfold mbind, M_bind. intros H.
  destruct (log_append _ _ _ _ _) as [[r|e] w] eqn:E; injection H as <- <-;
    (split; [by split|]); (split; [done|]); eexists; (split; [reflexivity|]); (split; [|done]); right;
    exists ref, payload; by rewrite E.
Qed.

(** A step of a call: it returned and the rest ran, or it failed. *)
Lemma bind_inv {A B} (m : M A) (k : A -> M B) d out d' : (m ≫= k) d = (out, d') ->
  (exists a d1, m d = (Ok a, d1) /\ k a d1 = (out, d')) \/ (exists e, m d = (Err e, d') /\ out = Err e).
Proof.
  unfold mbind, M_bind. destruct (m d) as [[a|e] d1]; intros H; [left; eauto|right].
  injection H as <- <-. eauto.
Qed.

Ltac bind_cases H :=
  apply bind_inv in H as [(? & ? & ? & H)|(? & H & ?)].

(** A store call moves the orders only. *)
Definition store_only {A} (m : M A) : Prop :=
  forall d r d', m d = (r, d') -> exists t, d' = set_orders t d.

Lemma store_insert_only f o : store_only (store_insert f o).
Proof. intros d r d'. unfold store_insert. destruct (insert_order _ _ _). intros [= <- <-]. eauto. Qed.

Lemma store_upsert_only f o : store_only (store_upsert f o).
Proof. intros d r d'. unfold store_upsert. destruct (upsert_order _ _ _). intros [= <- <-]. eauto. Qed.

Lemma mret_only {A} (a : A) : store_only (mret a : M A).
Proof. intros d r d' [= <- <-]. exists (d_orders d). by destruct d. Qed.

(** What follows a broker call: at most a result record. *)
Definition result_only {A} (env : CallEnv) (m : M A) : Prop :=
  forall d out d', m d = (out, d') -> same_index d d' /\
    exists tail, d_trace d' = d_trace d ++ tail /\ result_tail env (d_wal d) (d_wal d') tail.

Lemma result_only_store {A B} env (m : M A) (k : A -> M B) :
  store_only m -> (forall a, result_only env (k a)) -> result_only env (m ≫= k).
Proof.
  intros Hm Hk d out d' H. apply bind_inv in H as [(a & d1 & H1 & H2)|(e & H1 & _)];
    destruct (Hm _ _ _ H1) as [t ->].
  - exact (Hk a _ _ _ H2).
  - split; [done|]. exists []. rewrite app_nil_r. split; [done|]. by left.
Qed.

Lemma result_only_append env ref payload : result_only env (append_result env ref payload).
Proof.
  intros d out d' H. destruct (append_result_spec _ _ _ _ _ _ H) as (Hi & _ & tail & Ht & Hw & _). eauto.
Qed.

Lemma result_only_ret {A B} env (m : M A) (k : A -> M B) :
  result_only env m -> (forall a d out d', k a d = (out, d') -> d' = d) -> result_only env (m ≫= k).
Proof.
  intros Hm Hk d out d' H. apply bind_inv in H as [(a & d1 & H1 & H2)|(e & H1 & _)]; [|by eapply Hm].
  apply Hk in H2 as ->. by eapply Hm.
Qed.

Lemma fsm_only_result {B} env o v (k : Order -> M B) :
  (forall a, result_only env (k a)) -> result_only env (fsm_apply o v ≫= k).
Proof.
  intros Hk d out d' H. apply bind_inv in H as [(a & d1 & H1 & H2)|(e & H1 & _)]; unfold fsm_apply in H1;
    destruct (apply _ _ _) as [[? ?] ?]; [|done]. injection H1 as <- <-. exact (Hk _ _ _ _ H2).
Qed.

Lemma place_send_spec env placed d out d' : place_send env placed d = (out, d') ->
  same_index d d' /\ exists tail, d_trace d' = d_trace d ++ [EvBarrier; EvPlace placed] ++ tail /\
  result_tail env (d_wal d) (d_wal d') tail.
Proof.
  unfold place_send. intros H.
  apply bind_inv in H as [(? & d1 & [= <- <-] & H)|(? & [=] & _)].
  apply bind_inv in H as [(ack & d2 & [= <- <-] & H)|(? & [=] & _)].
  match type of H with ?m ?st = _ => assert (result_only env m) as Hr end.
  { destruct (env_ack env); [apply fsm_only_result; intros ?|];
      (apply result_only_store; [apply store_insert_only|intros ?]);
      (apply result_only_ret; [apply result_only_append|by intros ? ? ? ? [= _ <-]]). }
  destruct (Hr _ _ _ H) as (Hi & tail & Ht & Hw). split; [done|]. exists tail. split; [|done].
  rewrite Ht. simpl. by rewrite <- !app_assoc.
Qed.

(** The log record of a call, then the rest. *)
Lemma place_reserved_spec env i ref d out d' : place_reserved env i ref d = (out, d') ->
  logged_call env PlaceOrder ref (intent_payload_json (with_client_ref ref i))
    (EvPlace (with_client_ref ref i)) d d' /\
  d_index d' = d_index d /\
  match log_append (env_intent_log env) (d_wal d) PlaceOrder ref (intent_payload_json (with_client_ref ref i)) with
  | (Err _, _) => d_unsent d' = {[ref]} ∪ d_unsent d
  | (Ok _, _) => d_unsent d' = d_unsent d ∖ {[ref]}
  end.
Proof.
  unfold place_reserved, logged_call. intros H. set (placed := with_client_ref ref i) in *.
  change (client_ref placed) with ref in H.
  apply bind_inv in H as [(recorded & d1 & H1 & H)|(? & H1 & _)]; unfold attempt, log_call in H1;
    destruct (log_append _ _ _ _ _) as [[r|e] w] eqn:E; [..|done|done]; injection H1 as <- <-.
  - apply bind_inv in H as [(? & d2 & [= <- <-] & H)|(? & [=] & _)].
    apply place_send_spec in H as ([Hi Hu] & tail & Ht & Hw). split_and!; try done.
    exists tail. split; [|done]. rewrite Ht. simpl. by rewrite <- app_assoc.
  - apply bind_inv in H as [(? & d2 & [= <- <-] & H)|(? & [=] & _)]. injection H as <- <-. by split_and!.
Qed.

(** The references [place] may send under: freshly minted, or reserved by this
    process and never recorded. *)
Definition may_send (env : CallEnv) (strat : string) (i : OrderIntent) (d : Dispatcher) (ref : string)
    (ix : gmap string string) : Prop :=
  (existing_ref (d_index d) i = None /\ ref = make_client_ref strat (signal_signature i) (env_uuid env) /\
   ix = <[signal_signature i := ref]> (d_index d)) \/
  (existing_ref (d_index d) i = Some ref /\ ref ∈ d_unsent d /\ ix = d_index d).

Lemma place_spec env strat i d out d' : place env strat i d = (out, d') ->
  (d_trace d' = d_trace d /\ d_wal d' = d_wal d /\ d_unsent d' = d_unsent d /\
   (d_index d' = d_index d \/ existing_ref (d_index d) i = None /\
      d_index d' = <[signal_signature i := make_client_ref strat (signal_signature i) (env_uuid env)]> (d_index d))) \/
  (exists ref ix, may_send env strat i d ref ix /\ place_reserved env i ref (set_index ix d) = (out, d')).
Proof.
  unfold place, may_send. intros H.
  assert (forall x r, existing_ref (d_index d) i = None -> register_signature (d_index d) (signal_signature i) r = x ->
    x = <[signal_signature i := r]> (d_index d)) as Hreg.
  { intros x r Hn <-. unfold existing_ref, existing_ref_for_signature in Hn. unfold register_signature. by rewrite Hn. }
  apply bind_inv in H as [(res & d1 & H1 & H)|(e & H1 & _)]; unfold reserve_call, reserve in H1;
    fold (existing_ref (d_index d) i) in H1; destruct (existing_ref (d_index d) i) as [prior|] eqn:Hp;
    destruct (find_order _ _ _) as [found|e'] eqn:Hf; try done.
  - injection H1 as <- <-. simpl in H. destruct found as [o|].
    + injection H as <- <-. left. by split_and!; [..|left].
    + apply bind_inv in H as [(d2 & d3 & [= <- <-] & H)|(? & [=] & _)]. simpl in H.
      case_bool_decide as Hu; [injection H as <- <-; left; by split_and!; [..|left]|].
      right. exists prior, (d_index d). split; [right; split_and!; try done; by apply dec_stable|done].
  - destruct found as [o|]; injection H1 as <- <-; simpl in H.
    + injection H as <- <-. left. split_and!; try done. right. split; [done|]. by apply Hreg.
    + right. eexists _, _. split; [left; split_and!; [done..|]|exact H]. by apply Hreg.
  - injection H1 as <- <-. left. by split_and!; [..|left].
  - destruct found; done.
  - injection H1 as <- <-. left. by split_and!; [..|left].
Qed.

(** A call that logs, then barriers and sends, then at most logs a result. *)
Lemma logged_send {A B} env o ref payload ev (answer : result A) (k : result A -> M B) d out d' :
  (forall r, result_only env (k r)) ->
  (log_call (env_intent_log env) o ref payload ≫= fun _ => run_pre_send_barrier ≫= fun _ =>
   attempt (broker_call ev answer) ≫= k) d = (out, d') ->
  logged_call env o ref payload ev d d' /\ same_index d d'.
Proof.
  intros Hk H. unfold logged_call.
  apply bind_inv in H as [(r & d1 & H1 & H)|(e & H1 & _)]; unfold log_call in H1;
    destruct (log_append _ _ _ _ _) as [[r'|e'] w] eqn:E; try done.
  - injection H1 as <- <-.
    apply bind_inv in H as [(? & d2 & [= <- <-] & H)|(? & [=] & _)].
    apply bind_inv in H as [(ack & d3 & [= <- <-] & H)|(? & [=] & _)].
    destruct (Hk _ _ _ _ H) as (Hi & tail & Ht & Hw). split; [|done].
    exists tail. split; [|done]. rewrite Ht. simpl. by rewrite <- !app_assoc.
  - injection H1 as <- <-. by split.
Qed.

Lemma result_only_store_find {B} env f ref (k : option Order -> M B) :
  (forall a, result_only env (k a)) -> result_only env (store_find f ref ≫= k).
Proof.
  intros Hk. apply result_only_store; [|done]. intros d r d' [= <- <-].
  exists (d_orders d). by destruct d.
Qed.

Lemma attempt_store {A} (m : M A) : store_only m -> store_only (attempt m).
Proof.
  intros Hm d r d' H. unfold attempt in H. destruct (m d) as [r1 d1] eqn:E. injection H as <- <-. eauto.
Qed.

Lemma store_find_only f ref : store_only (store_find f ref).
Proof. intros d r d' [= <- <-]. exists (d_orders d). by destruct d. Qed.

Ltac no_change := by intros ? ? ? ? [= _ <-].

Lemma modify_spec env boid i d out d' : modify env boid i d = (out, d') ->
  logged_call env ModifyOrder (client_ref i) (intent_payload_json i) (EvModify boid i) d d' /\ same_index d d'.
Proof.
  apply logged_send. intros r. apply result_only_store_find. intros found.
  destruct r as [a|err]; [|destruct (is_reconcile_first err)].
  - apply result_only_store; [apply store_upsert_only|intros _].
    apply result_only_ret; [apply result_only_append|no_change].
  - apply result_only_store; [apply store_upsert_only|intros _].
    apply result_only_ret; [apply result_only_append|no_change].
  - apply result_only_ret; [apply result_only_append|no_change].
Qed.

Lemma reduce_op_spec o name ev env boid ref d out d' : reduce_op o name ev env boid ref d = (out, d') ->
  logged_call env o ref (op_outcome_json name "intent" boid (env_wall_intent env)) ev d d' /\ same_index d d'.
Proof.
  apply logged_send. intros r.
  destruct r as [a|err]; [apply result_only_append|destruct (is_reconcile_first err)].
  - apply result_only_store; [apply attempt_store, store_find_only|intros found].
    apply result_only_store.
    + destruct found as [[order|]|]; try apply mret_only. destruct (is_terminal _); [apply mret_only|apply store_upsert_only].
    + intros _. apply result_only_ret; [apply result_only_append|no_change].
  - apply result_only_ret; [apply result_only_append|no_change].
Qed.

(** ** Runs *)

Context `{!WriteAheadLaws W} `{!JsonLaws J}.

(** The log has room for the two records of a call. *)
Definition roomy (env : CallEnv) (d : Dispatcher) : Prop :=
  wal_room (d_wal d) (env_intent_log env) /\
  forall o ref payload, wal_room (log_append (env_intent_log env) (d_wal d) o ref payload).2 (env_result_log env).

(** The reference [place] would mint is unused: UUIDs do not repeat. *)
Definition fresh_uuid (env : CallEnv) (strat : string) (i : OrderIntent) (d : Dispatcher) : Prop :=
  forall s, d_index d !! s <> Some (make_client_ref strat (signal_signature i) (env_uuid env)).

(** Anything that can happen to a dispatcher: calls, changes of the store and of
    the engine by other components, a crash and restart. *)
Inductive disp_step : Dispatcher -> Dispatcher -> Prop :=
  | step_place env strat i d out d' :
      roomy env d -> fresh_uuid env strat i d -> place env strat i d = (out, d') -> disp_step d d'
  | step_modify env boid i d out d' :
      roomy env d -> modify env boid i d = (out, d') -> disp_step d d'
  | step_cancel env boid ref d out d' :
      roomy env d -> cancel env boid ref d = (out, d') -> disp_step d d'
  | step_square_off env boid ref d out d' :
      roomy env d -> square_off env boid ref d = (out, d') -> disp_step d d'
  | step_outside t e d : disp_step d (set_fsm e (set_orders t d))
  | step_restart rs w' t d :
      wal_recovers (d_wal d) rs w' ->
      disp_step d (mkDispatcher w' t (rebuild_from_log rs) ∅ engine_init (d_trace d)).

(** A dispatcher that has sent nothing yet. *)
Definition fresh_start (d : Dispatcher) : Prop :=
  wal_holds (d_wal d) [] /\ d_index d = ∅ /\ d_unsent d = ∅ /\ d_trace d = [].

(** The signatures of the place calls the broker has received. *)
Definition sent_sigs (tr : list Event) : list string :=
  omap (fun ev => match ev with EvPlace i => Some (signal_signature i) | _ => None end) tr.

Record disp_inv (d : Dispatcher) (acked : list IntentRecord) : Prop := {
  dv_holds : wal_holds (d_wal d) acked;
  dv_once : NoDup (sent_sigs (d_trace d));
  dv_recorded : forall sig, sig ∈ sent_sigs (d_trace d) ->
    (exists rec, rec ∈ acked /\ carries sig rec) /\
    exists ref, d_index d !! sig = Some ref /\ ref ∉ d_unsent d;
  dv_unsent : forall sig sig' ref, ref ∈ d_unsent d -> d_index d !! sig = Some ref ->
    d_index d !! sig' = Some ref -> sig = sig';
  dv_unsent_known : forall ref, ref ∈ d_unsent d -> exists sig, d_index d !! sig = Some ref;
  dv_nonempty : forall sig, d_index d !! sig <> Some "";
}.

Lemma signature_with_ref r i : signal_signature (with_client_ref r i) = signal_signature i.
Proof. by apply signature_key. Qed.

(** The log after a call. *)
Lemma result_tail_holds env w w' tail acked : wal_holds w acked -> wal_room w (env_result_log env) ->
  result_tail env w w' tail ->
  (exists more, wal_holds w' (acked ++ more)) /\ sent_sigs tail = [].
Proof.
  intros Hw Hroom [[-> ->]|(ref & payload & H)].
  - split; [exists []; by rewrite app_nil_r|done].
  - destruct (log_append _ _ _ _ _) as [[r|e] w2] eqn:E; destruct H as [-> ->]; (split; [|done]).
    + destruct (wal_append_acked _ _ _ _ _ _ _ _ Hw Hroom E) as [H _]. eauto.
    + exists []. rewrite app_nil_r. by eapply wal_append_refused.
Qed.

Lemma sent_sigs_app a b : sent_sigs (a ++ b) = (sent_sigs a ++ sent_sigs b)%list.
Proof. unfold sent_sigs. apply omap_app. Qed.

Lemma logged_call_holds env o ref payload ev d d' acked :
  wal_holds (d_wal d) acked -> roomy env d -> logged_call env o ref payload ev d d' ->
  match log_append (env_intent_log env) (d_wal d) o ref payload with
  | (Err _, _) => wal_holds (d_wal d') acked /\ sent_sigs (d_trace d') = sent_sigs (d_trace d)
  | (Ok r, _) => (exists more, wal_holds (d_wal d') (acked ++ r :: more)) /\
      sent_sigs (d_trace d') = (sent_sigs (d_trace d) ++ sent_sigs [ev])%list /\
      op r = o /\ rec_client_ref r = canonical_text ref /\ payload_json r = canonical_text payload
  end.
Proof.
  intros Hw [Hr1 Hr2] H. unfold logged_call in H. specialize (Hr2 o ref payload).
  destruct (log_append _ _ _ _ _) as [[r|e] w] eqn:E.
  - destruct H as (tail & Ht & Hres).
    destruct (wal_append_acked _ _ _ _ _ _ _ _ Hw Hr1 E) as (Hw1 & ? & ? & ?).
    destruct (result_tail_holds _ _ _ _ _ Hw1 Hr2 Hres) as [[more Hm] Hs].
    split_and!; try done.
    + exists more. by rewrite <- app_assoc in Hm.
    + rewrite Ht, sent_sigs_app, sent_sigs_app, Hs, app_nil_r. f_equal.
  - destruct H as [Ht ->]. split; [by eapply wal_append_refused|].
    rewrite Ht, sent_sigs_app. apply app_nil_r.
Qed.

(** A call that is not a place and the index untouched keep the invariant. *)
Lemma inv_same_index d d' acked acked' :
  disp_inv d acked -> same_index d d' -> wal_holds (d_wal d') acked' -> acked `sublist_of` acked' ->
  sent_sigs (d_trace d') = sent_sigs (d_trace d) -> disp_inv d' acked'.
Proof.
  intros [Hw H1 Hrec Hu Hk Hne] [Hi Hun] Hw' Hsub Hs. split; rewrite ?Hs, ?Hi, ?Hun; try done.
  intros sig Hsig. destruct (Hrec sig Hsig) as [(rec & Hin & Hc) ?]. split; [|done].
  exists rec. split; [|done]. exact (sublist_elem_of _ _ _ Hsub Hin).
Qed.

Definition not_place (ev : Event) : Prop := match ev with EvPlace _ => False | _ => True end.

Lemma logged_call_inv env o ref payload ev d d' acked :
  disp_inv d acked -> roomy env d -> same_index d d' -> not_place ev ->
  logged_call env o ref payload ev d d' -> exists acked', disp_inv d' acked'.
Proof.
  intros Hd Hr Hi Hev H. pose proof (logged_call_holds _ _ _ _ _ _ _ _ (dv_holds _ _ Hd) Hr H) as Hh.
  destruct (log_append _ _ _ _ _) as [[r|e] w].
  - destruct Hh as ([more Hm] & Hs & _). exists (acked ++ r :: more).
    eapply inv_same_index; try done; [by apply sublist_inserts_r|by rewrite Hs; destruct ev; simpl; rewrite ?app_nil_r].
  - destruct Hh as [Hm Hs]. exists acked. by eapply inv_same_index.
Qed.

Lemma make_client_ref_nonempty a b c : make_client_ref a b c <> "".
Proof. unfold make_client_ref. by destruct a. Qed.

(** Registering a fresh reference keeps the invariant. *)
Lemma inv_register d acked sig ref :
  disp_inv d acked -> d_index d !! sig = None -> (forall s, d_index d !! s <> Some ref) -> ref <> "" ->
  disp_inv (set_index (<[sig := ref]> (d_index d)) d) acked.
Proof.
  intros [Hw H1 Hrec Hu Hk Hne] Hn Hf Href.
  assert (forall s r, d_index d !! s = Some r -> <[sig := ref]> (d_index d) !! s = Some r) as Hold.
  { intros s r Hs. rewrite lookup_insert_ne; [done|]. intros ->. congruence. }
  split; simpl; try done.
  - intros s Hs. destruct (Hrec s Hs) as [? (r & Hr & ?)]. split; [done|]. eauto.
  - intros s s' r Hr. assert (r <> ref) as Hrr by (intros ->; destruct (Hk _ Hr) as [x Hx]; by apply Hf in Hx).
    rewrite !lookup_insert_Some. intros [[_ ?]|[_ H2]]; [done|]. intros [[_ ?]|[_ H3]]; [done|]. by eapply Hu.
  - intros r Hr. destruct (Hk r Hr) as [s Hs]. eauto.
  - intros s. rewrite lookup_insert_Some. intros [[_ ?]|[_ ?]]; [done|by eapply Hne].
Qed.

(** A reference that may be sent under is bound to the signal alone, and the
    signal has not been sent. *)
Lemma may_send_inv env strat i d ref ix acked :
  disp_inv d acked -> fresh_uuid env strat i d -> may_send env strat i d ref ix ->
  disp_inv (set_index ix d) acked /\ ix !! signal_signature i = Some ref /\
  signal_signature i ∉ sent_sigs (d_trace d) /\
  forall s, ix !! s = Some ref -> s = signal_signature i.
Proof.
  intros Hd Hf [(Hn & -> & ->)|(Hs & Hu & ->)].
  - split_and!.
    + apply inv_register; [done..|apply make_client_ref_nonempty].
    + apply lookup_insert_eq.
    + intros Hin. destruct (dv_recorded _ _ Hd _ Hin) as [_ (r & Hr & _)].
      unfold existing_ref, existing_ref_for_signature in Hn. congruence.
    + intros s. rewrite lookup_insert_Some. intros [[? _]|[_ Hs]]; [done|]. by apply Hf in Hs.
  - split_and!.
    + by destruct d.
    + done.
    + intros Hin. destruct (dv_recorded _ _ Hd _ Hin) as [_ (r & Hr & Hnot)].
      unfold existing_ref, existing_ref_for_signature in Hs. congruence.
    + intros s Hs'. by eapply (dv_unsent _ _ Hd).
Qed.

Lemma place_reserved_inv env i ref d out d' acked :
  disp_inv d acked -> roomy env d -> d_index d !! signal_signature i = Some ref ->
  signal_signature i ∉ sent_sigs (d_trace d) ->
  (forall s, d_index d !! s = Some ref -> s = signal_signature i) ->
  place_reserved env i ref d = (out, d') -> exists acked', disp_inv d' acked'.
Proof.
  intros Hd Hr Hix Hnew Honly H. apply place_reserved_spec in H as (Hlog & Hi & Hun).
  pose proof (logged_call_holds _ _ _ _ _ _ _ _ (dv_holds _ _ Hd) Hr Hlog) as Hh.
  destruct Hd as [Hw H1 Hrec Hu Hk Hne].
  destruct (log_append _ _ _ _ _) as [[r|e] w].
  - destruct Hh as ([more Hm] & Hs & Hop & Hcr & Hpay). exists (acked ++ r :: more).
    cbn [sent_sigs omap list_omap] in Hs. rewrite signature_with_ref in Hs.
    assert (carries (signal_signature i) r) as Hc.
    { rewrite <- (signature_with_ref ref i). apply place_record_carries; [done|done|].
      rewrite Hcr. apply canonical_text_nonempty. intros ->. by apply Hne in Hix. }
    split; rewrite ?Hs, ?Hi, ?Hun; [done|..].
    + apply NoDup_app. split_and!; [done| |apply NoDup_singleton].
      intros s Hs1 Hs2. apply list_elem_of_singleton in Hs2 as ->. done.
    + intros s [Hs1|Hs1]%elem_of_app.
      * destruct (Hrec s Hs1) as [(rec & Hin & ?) (r' & ? & ?)].
        split; [exists rec; split; [set_solver|done]|exists r'; split; [done|set_solver]].
      * apply list_elem_of_singleton in Hs1 as ->.
        split; [exists r; split; [set_solver|done]|exists ref; split; [done|set_solver]].
    + intros s s' r' Hr'. apply Hu. set_solver.
    + intros r' Hr'. apply Hk. set_solver.
    + done.
  - destruct Hh as [Hm Hs]. exists acked.
    split; rewrite ?Hs, ?Hi, ?Hun; [done|done|..].
    + intros s Hs1. destruct (Hrec s Hs1) as [? (r' & Hr' & ?)]. split; [done|].
      exists r'. split; [done|]. intros [->%elem_of_singleton|?]%elem_of_union; [|done].
      apply Honly in Hr' as ->. done.
    + intros s s' r' [->%elem_of_singleton|Hr']%elem_of_union; [|by apply Hu].
      intros Ha Hb. apply Honly in Ha, Hb. congruence.
    + intros r' [->%elem_of_singleton|Hr']%elem_of_union; [eauto|by apply Hk].
    + done.
Qed.

Lemma place_inv env strat i d out d' acked :
  disp_inv d acked -> roomy env d -> fresh_uuid env strat i d -> place env strat i d = (out, d') ->
  exists acked', disp_inv d' acked'.
Proof.
  intros Hd Hr Hf H. apply place_spec in H as [(Ht & Hw & Hu & Hi)|(ref & ix & Hm & H)].
  - exists acked. destruct Hi as [Hi|[Hn Hi]].
    + eapply inv_same_index; [done|done| |reflexivity|by rewrite Ht]. rewrite Hw. apply Hd.
    + eapply (inv_same_index (set_index (d_index d') d)); [|by split| |reflexivity|by rewrite Ht].
      * rewrite Hi. apply inv_register; [done..|apply make_client_ref_nonempty].
      * rewrite Hw. apply Hd.
  - destruct (may_send_inv _ _ _ _ _ _ _ Hd Hf Hm) as (Hd' & Hix & Hnew & Honly).
    by eapply (place_reserved_inv env i ref (set_index ix d)).
Qed.

Lemma restart_inv d acked rs w' t :
  disp_inv d acked -> wal_recovers (d_wal d) rs w' ->
  disp_inv (mkDispatcher w' t (rebuild_from_log rs) ∅ engine_init (d_trace d)) acked.
Proof.
  intros [Hw H1 Hrec Hu Hk Hne] Hr. destruct (wal_recovers_acked _ _ _ _ Hw Hr) as [Hsub Hw'].
  split; simpl; try done.
  - intros sig Hsig. destruct (Hrec sig Hsig) as [(rec & Hin & Hc) _]. split; [eauto|].
    unfold rebuild_from_log. rewrite rebuild_lookup, lookup_empty.
    destruct (filter (carries sig) rs) as [|first rest] eqn:E; [|simpl; eexists; split; [done|set_solver]].
    exfalso. assert (rec ∈ filter (carries sig) rs) as H
      by (apply list_elem_of_filter; split; [done|exact (sublist_elem_of _ _ _ Hsub Hin)]).
    rewrite E in H. by apply elem_of_nil in H.
  - intros sig. unfold rebuild_from_log. rewrite rebuild_lookup, lookup_empty. intros Hs.
    destruct (filter (carries sig) rs) as [|first rest] eqn:E; [done|]. simpl in Hs.
    assert (first ∈ filter (carries sig) rs) as [Hc _]%list_elem_of_filter by (rewrite E; left).
    injection Hs as Hs. unfold carries, record_signature in Hc. rewrite Hs in Hc.
    repeat (split_match_in Hc; try done). rewrite orb_true_r in *. done.
Qed.

Lemma disp_step_inv d d' acked : disp_inv d acked -> disp_step d d' -> exists acked', disp_inv d' acked'.
Proof.
  intros Hd Hs. destruct Hs as [env strat i d out d' Hr Hf H|env boid i d out d' Hr H|env boid ref d out d' Hr H|
    env boid ref d out d' Hr H|t e d|rs w' t d Hrec].
  - by eapply place_inv.
  - apply modify_spec in H as [H Hi]. refine (logged_call_inv _ _ _ _ _ _ _ _ Hd Hr Hi _ H). exact I.
  - apply reduce_op_spec in H as [H Hi]. refine (logged_call_inv _ _ _ _ _ _ _ _ Hd Hr Hi _ H). exact I.
  - apply reduce_op_spec in H as [H Hi]. refine (logged_call_inv _ _ _ _ _ _ _ _ Hd Hr Hi _ H). exact I.
  - exists acked. eapply inv_same_index; [done|by split|apply Hd|done|done].
  - exists acked. by apply restart_inv.
Qed.

Lemma disp_reachable d0 d : fresh_start d0 -> rtc disp_step d0 d -> exists acked, disp_inv d acked.
Proof.
  intros (Hw & Hi & Hu & Ht) H.
  assert (exists acked, disp_inv d0 acked) as H0.
  { exists []. split; rewrite ?Hi, ?Hu, ?Ht; try done; try (by intros ? ?%elem_of_nil);
      try apply NoDup_nil_2; set_solver. }
  clear Hi Hu Ht Hw. induction H as [|x y z Hxy _ IH]; [done|].
  destruct H0 as [acked H0]. destruct (disp_step_inv _ _ _ H0 Hxy) as [acked' H1]. eauto.
Qed.

Lemma sent_sigs_lookup tr a i : tr !! a = Some (EvPlace i) -> signal_signature i ∈ sent_sigs tr.
Proof.
  intros H. apply list_elem_of_lookup_2 in H. unfold sent_sigs. apply list_elem_of_omap. eauto.
Qed.

(** C1: zero duplicate sends, as long as no boot stops reading the log before its
    end: over any run of place, modify, cancel and square-off calls, with any failed
    or partial writes and syncs of the log, any failures of the store and the broker,
    any changes of the store by other components, crashes, power cuts and restarts,
    the broker receives at most one place call for a given set of order-defining
    fields. A restart here reads the whole log or fails to open it; a read error in
    the middle of the file goes unnoticed by the code and is excluded
    ([WriteAhead.stopped_read_drops_acknowledged] is what it does to the log). *)
Theorem zero_duplicate d0 d a b i j (Hstart : fresh_start d0) (Hrun : rtc disp_step d0 d)
    (Ha : d_trace d !! a = Some (EvPlace i)) (Hb : d_trace d !! b = Some (EvPlace j))
    (Hkey : order_key i = order_key j) :
  a = b.
Proof.
  destruct (disp_reachable _ _ Hstart Hrun) as [acked Hd]. pose proof (dv_once _ _ Hd) as Hn.
  apply signature_key in Hkey. revert a b Ha Hb Hn. generalize (d_trace d) as tr. clear Hrun Hd.
  induction tr as [|ev tr IH]; intros [|a] [|b] Ha Hb Hn; simpl in *; try done.
  - injection Ha as ->. apply sent_sigs_lookup in Hb. cbn in Hn. rewrite Hkey in Hn. by apply NoDup_cons in Hn as [? _].
  - injection Hb as ->. apply sent_sigs_lookup in Ha. cbn in Hn. rewrite <- Hkey in Hn. by apply NoDup_cons in Hn as [? _].
  - f_equal. apply IH; [done..|]. destruct ev; try done. cbn in Hn. by apply NoDup_cons in Hn as [_ ?].
Qed.

(** C2: every order sent is recoverable, as long as the log is read to its end: after
    any such run (failed writes and syncs, power cuts, crashes, failed boots), once
    the broker has received a place call, any later boot replay that read the whole
    log and returned has a record that carries its signature, and the rebuilt index
    answers that signal with a reference. A boot read that stops on an error, which
    the code does not notice, is excluded, at this boot and at every one before. *)
Theorem sent_orders_recoverable d0 d i rs w' (Hstart : fresh_start d0) (Hrun : rtc disp_step d0 d)
    (Hsent : EvPlace i ∈ d_trace d) (Hrec : wal_recovers (d_wal d) rs w') :
  (exists rec, rec ∈ rs /\ carries (signal_signature i) rec) /\
  existing_ref (rebuild_from_log rs) i <> None.
Proof.
  destruct (disp_reachable _ _ Hstart Hrun) as [acked Hd].
  apply list_elem_of_lookup in Hsent as [a Ha]. apply sent_sigs_lookup in Ha.
  destruct (dv_recorded _ _ Hd _ Ha) as [(rec & Hin & Hc) _].
  destruct (wal_recovers_acked _ _ _ _ (dv_holds _ _ Hd) Hrec) as [Hsub _].
  split; [exists rec; split; [exact (sublist_elem_of _ _ _ Hsub Hin)|done]|].
  destruct (dv_recorded _ _ (restart_inv _ _ _ _ ∅ Hd Hrec) _ Ha) as [_ (r & Hr & _)].
  unfold existing_ref, existing_ref_for_signature. simpl in Hr. by rewrite Hr.
Qed.

(** C4: write-ahead order: a call never reaches the broker unless its own intent
    record has just been acknowledged by the log and the barrier has run, with
    nothing in between; it reaches the broker at most once, and after the broker
    it writes at most one result record. *)
Theorem write_ahead_order env strat i boid ref d out d' :
  (place env strat i d = (out, d') -> d_trace d' = d_trace d \/
     exists r, logged_call env PlaceOrder r (intent_payload_json (with_client_ref r i))
       (EvPlace (with_client_ref r i)) d d') /\
  (forall out, modify env boid i d = (out, d') ->
     logged_call env ModifyOrder (client_ref i) (intent_payload_json i) (EvModify boid i) d d') /\
  (forall out, cancel env boid ref d = (out, d') ->
     logged_call env CancelOrder ref (op_outcome_json "cancel" "intent" boid (env_wall_intent env)) (EvCancel boid) d d') /\
  (forall out, square_off env boid ref d = (out, d') ->
     logged_call env SquareOff ref (op_outcome_json "square_off" "intent" boid (env_wall_intent env)) (EvSquareOff boid) d d').
Proof.
  split_and!.
  - intros H. apply place_spec in H as [(Ht & _)|(r & ix & _ & H)]; [by left|right].
    apply place_reserved_spec in H as [H _]. exists r. exact H.
  - intros o H. by apply modify_spec in H as [H _].
  - intros o H. by apply reduce_op_spec in H as [H _].
  - intros o H. by apply reduce_op_spec in H as [H _].
Qed.

(** ** What [place] answers *)

(** The state an order gets from the broker's answer. *)
Definition answered_state (ack : result BrokerAck) : OrderState :=
  match ack with
  | Ok _ => Acknowledged
  | Err e => if is_reconcile_first e then Unknown else Rejected
  end.

Lemma store_insert_ok f o d d' : store_insert f o d = (Ok tt, d') ->
  d_orders d !! order_ref o = None /\ d' = set_orders (<[order_ref o := o]> (d_orders d)) d.
Proof.
  unfold store_insert, insert_order. destruct f; [done|].
  destruct (d_orders d !! order_ref o) eqn:E; [done|]. by intros [= <-].
Qed.

(** The order is stored, its result logged, and returned. *)
Lemma persist_ok env o payload d o' d' :
  (store_insert (env_write_fault env) o ≫= fun _ => append_result env (order_ref o) payload ≫= fun _ => mret o) d =
    (Ok o', d') ->
  o' = o /\ d_orders d !! order_ref o = None /\ d_orders d' = <[order_ref o := o]> (d_orders d).
Proof.
  intros H. apply bind_inv in H as [([] & d1 & H1 & H)|(? & _ & [=])].
  apply store_insert_ok in H1 as [Hn ->].
  apply bind_inv in H as [(? & d2 & H2 & [= <- <-])|(? & _ & [=])].
  apply append_result_spec in H2 as (_ & -> & _). done.
Qed.

(** The engine takes the acknowledgement of an order it has not seen. *)
Lemma ack_applied e placed boid :
  (forall k, last_key e (client_ref placed) = Some k -> k <= 1) ->
  exists out e', apply e (make_order placed Sent)
    (mkView (client_ref placed) boid Acknowledged (quantity_of 0) (from_paise 0) 1) =
    (out, mkOrder placed Acknowledged (if negb (String.eqb boid "") then boid else "") (quantity_of 0) (from_paise 0), e').
Proof.
  intros Hk. unfold apply. cbn [state make_order is_terminal view_client_ref ordering_key].
  assert (match last_keys e !! client_ref placed with Some k => 1 <? k | None => false end = false) as ->.
  { unfold last_key in Hk. destruct (last_keys e !! client_ref placed) as [k|]; [|done].
    apply Z.ltb_ge. by apply Hk. }
  eexists _, _. reflexivity.
Qed.

Lemma place_reserved_answers env i ref d o d' :
  (forall k, last_key (d_fsm d) ref = Some k -> k <= 1) ->
  place_reserved env i ref d = (Ok o, d') ->
  EvPlace (with_client_ref ref i) ∈ d_trace d' /\
  intent o = with_client_ref ref i /\ state o = answered_state (env_ack env) /\
  d_orders d !! ref = None /\ d_orders d' = <[ref := o]> (d_orders d).
Proof.
  intros Hk H. destruct (place_reserved_spec _ _ _ _ _ _ H) as (Hlog & _). unfold logged_call in Hlog.
  unfold place_reserved in H. set (placed := with_client_ref ref i) in *.
  change (client_ref placed) with ref in H.
  apply bind_inv in H as [(rec & d1 & H1 & H)|(? & _ & [=])]. unfold attempt, log_call in H1.
  destruct (log_append _ _ _ _ _) as [[r|e] w]; injection H1 as <- <-.
  2: { apply bind_inv in H as [(? & d2 & [= <- <-] & [=])|(? & [=] & _)]. }
  apply bind_inv in H as [(? & d2 & [= <- <-] & H)|(? & [=] & _)].
  split; [destruct Hlog as (tail & -> & _); set_solver|].
  unfold place_send in H.
  apply bind_inv in H as [(? & d3 & [= <- <-] & H)|(? & [=] & _)].
  apply bind_inv in H as [(ack & d4 & [= <- <-] & H)|(? & [=] & _)].
  unfold answered_state. destruct (env_ack env) as [a|err].
  - apply bind_inv in H as [(o1 & d5 & H1 & H)|(? & H1 & _)]; unfold fsm_apply in H1;
      cbn [d_fsm emit set_unsent set_wal] in H1; destruct (ack_applied (d_fsm d) placed (ack_broker_order_id a) Hk) as (out & e' & Ha);
      rewrite Ha in H1; [|done]. injection H1 as <- <-.
    by apply persist_ok in H as (-> & Hn & Ho).
  - by apply persist_ok in H as (-> & Hn & Ho).
Qed.

(** the answer of [place]: an order that was already stored comes back as
    stored; a reservation this process may have sent comes back UNKNOWN; both
    without touching the log, the store or the broker. Otherwise the order is
    sent once, the returned order is exactly the row now stored, and its state is
    Acknowledged on an acknowledgement, UNKNOWN on an ambiguous error, Rejected on
    a clean one. *)
Theorem place_answers env strat i d o d'
    (Hkeys : forall r k, last_key (d_fsm d) r = Some k -> k <= 1)
    (H : place env strat i d = (Ok o, d')) :
  (d_trace d' = d_trace d /\ d_orders d' = d_orders d /\
     ((exists ref, d_orders d !! ref = Some o) \/
      exists ref, existing_ref (d_index d) i = Some ref /\ ref ∉ d_unsent d /\
        o = make_order (with_client_ref ref i) Unknown)) \/
  (exists ref, EvPlace (with_client_ref ref i) ∈ d_trace d' /\ intent o = with_client_ref ref i /\
     state o = answered_state (env_ack env) /\
     d_orders d !! ref = None /\ d_orders d' = <[ref := o]> (d_orders d)).
Proof.
  assert (forall ref ix, place_reserved env i ref (set_index ix d) = (Ok o, d') ->
    exists ref, EvPlace (with_client_ref ref i) ∈ d_trace d' /\ intent o = with_client_ref ref i /\
     state o = answered_state (env_ack env) /\
     d_orders d !! ref = None /\ d_orders d' = <[ref := o]> (d_orders d)) as Hsend.
  { intros ref ix Hp. exists ref. apply place_reserved_answers in Hp; [exact Hp|apply Hkeys]. }
  unfold place in H.
  apply bind_inv in H as [(res & d1 & H1 & H)|(e & _ & [=])]. unfold reserve_call, reserve in H1.
  fold (existing_ref (d_index d) i) in H1. destruct (existing_ref (d_index d) i) as [prior|] eqn:Hp;
    unfold find_order in H1; destruct (env_find_fault env) as [f|]; try done.
  - injection H1 as <- <-. simpl in H. destruct (d_orders d !! prior) as [o'|] eqn:Ho.
    + injection H as <- <-. left. split_and!; [done..|left; eauto].
    + apply bind_inv in H as [(d2 & d3 & [= <- <-] & H)|(? & [=] & _)]. simpl in H.
      case_bool_decide as Hu; [|right; by eapply Hsend].
      injection H as <- <-. left. split_and!; [done..|right; eauto].
  - destruct (d_orders d !! _) as [o'|] eqn:Ho; injection H1 as <- <-; simpl in H.
    + injection H as <- <-. left. split_and!; [done..|left; eauto].
    + right. by eapply Hsend.
Qed.

Lemma place_new env strat i d :
  let ref := make_client_ref strat (signal_signature i) (env_uuid env) in
  existing_ref (d_index d) i = None -> env_find_fault env = None -> d_orders d !! ref = None ->
  place env strat i d = place_reserved env i ref (set_index (<[signal_signature i := ref]> (d_index d)) d).
Proof.
  intros ref Hn Hf Ho. unfold place, reserve_call, reserve. unfold mbind at 1, M_bind at 1.
  fold (existing_ref (d_index d) i). rewrite Hn, Hf. unfold find_order. fold ref. rewrite Ho.
  simpl. unfold register_signature. unfold existing_ref, existing_ref_for_signature in Hn. by rewrite Hn.
Qed.

Lemma place_again env strat i ref d :
  existing_ref (d_index d) i = Some ref -> env_find_fault env = None -> d_orders d !! ref = None ->
  ref ∈ d_unsent d -> place env strat i d = place_reserved env i ref (set_index (d_index d) d).
Proof.
  intros Hn Hf Ho Hu. unfold place, reserve_call, reserve. unfold mbind at 1, M_bind at 1.
  fold (existing_ref (d_index d) i). rewrite Hn, Hf. unfold find_order. rewrite Ho. simpl.
  unfold mbind at 1, M_bind at 1, get. simpl. by rewrite bool_decide_eq_false_2 by tauto.
Qed.

(** a refused write of the intent never makes a signal unplaceable: nothing
    reaches the broker, and once the log works again the next [place] of the same
    signal, with whatever strategy and UUID, sends it once, under the reference
    the first attempt had reserved. *)
Theorem place_resumes env env' strat strat' i d (ref := make_client_ref strat (signal_signature i) (env_uuid env))
    (payload := intent_payload_json (with_client_ref ref i)) (d1 := (place env strat i d).2)
    (Hnew : existing_ref (d_index d) i = None) (Hrow : d_orders d !! ref = None)
    (Hread : env_find_fault env = None /\ env_find_fault env' = None)
    (Hrefused : is_ok (log_append (env_intent_log env) (d_wal d) PlaceOrder ref payload).1 = false)
    (Hworks : is_ok (log_append (env_intent_log env') (d_wal d1) PlaceOrder ref payload).1 = true) :
  d_trace d1 = d_trace d ++ [EvLogRefused] /\
  exists r tail, d_trace (place env' strat' i d1).2 =
    d_trace d1 ++ [EvLogged r; EvBarrier; EvPlace (with_client_ref ref i)] ++ tail /\ sent_sigs tail = [].
Proof.
  destruct Hread as [Hf Hf']. subst d1. rewrite (place_new env strat i d Hnew Hf Hrow) in Hworks |- *.
  fold ref in Hworks |- *. set (d0 := set_index _ d) in *.
  destruct (place_reserved env i ref d0) as [out d1] eqn:E. cbn [snd] in *.
  assert (d_orders d1 = d_orders d) as Ho.
  { revert E. unfold place_reserved, attempt, log_call, mbind, M_bind. change (client_ref (with_client_ref ref i)) with ref.
    fold payload. destruct (log_append _ _ _ _ _) as [[r|e] w]; [done|]. by intros [= _ <-]. }
  apply place_reserved_spec in E as (Hlog & Hi & Hu). unfold logged_call in Hlog. fold payload in Hlog, Hu.
  change (d_wal d0) with (d_wal d) in *. change (d_unsent d0) with (d_unsent d) in *.
  change (d_trace d0) with (d_trace d) in *.
  destruct (log_append (env_intent_log env) _ _ _ _) as [[r|e] w]; [done|]. destruct Hlog as [Ht Hw].
  split; [done|].
  rewrite (place_again env' strat' i ref d1); [|rewrite Hi; apply lookup_insert_eq|done|by rewrite Ho|set_solver].
  destruct (place_reserved env' i ref (set_index (d_index d1) d1)) as [out2 d2] eqn:E2.
  apply place_reserved_spec in E2 as (Hlog2 & _). unfold logged_call in Hlog2. fold payload in Hlog2.
  change (d_wal (set_index _ d1)) with (d_wal d1) in *. change (d_trace (set_index _ d1)) with (d_trace d1) in *.
  destruct (log_append (env_intent_log env') _ _ _ _) as [[r2|e2] w2]; [|done].
  destruct Hlog2 as (tail & Ht2 & Htail). exists r2, tail. split; [exact Ht2|].
  destruct Htail as [[-> _]|(x & y & Htail)]; [done|].
  by destruct (log_append _ _ _ _ _) as [[?|?] ?]; destruct Htail as [-> _].
Qed.

End dispatcher.

(** ** A concrete run *)

Section sample_run.

#[local] Existing Instance bit_json.

Definition durable_env (uuid : string) (ack : result BrokerAck) : CallEnv (W := intent_log) :=
  mkCallEnv (W := intent_log) uuid None None (WriteDurable, 1000) (WriteDurable, 2000) ack 1000 2000.

Definition timed_out_env : CallEnv (W := intent_log) := durable_env "u1" (Err (make_error Timeout "t" "")).

Definition run0 : Dispatcher (W := intent_log) :=
  mkDispatcher (W := intent_log) (wal_init "intent.log") ∅ ∅ ∅ engine_init [].

(** A place that times out, the store wiped, the same signal again. *)
Definition run1 := snd (place timed_out_env "s" (sample_signal "") run0).
Definition run2 := set_fsm (W := intent_log) engine_init (set_orders (W := intent_log) ∅ run1).
Definition run3 := snd (place (durable_env "u2" (Ok (mkAck "b" ""))) "s" (sample_signal "") run2).

Lemma durable_next o ref payload (s : Wal) :
  next_seq (w_log (snd (log_append (WriteAheadLog := intent_log) (WriteDurable, 1000) s o ref payload)))
  <= next_seq (w_log s) + 1.
Proof.
  unfold log_append. simpl. unfold append. destruct (is_open (w_log s)); simpl; lia.
Qed.

Lemma durable_roomy uuid ack (d : Dispatcher (W := intent_log)) :
  next_seq (w_log (d_wal d)) < 1000 -> roomy (W := intent_log) (durable_env uuid ack) d.
Proof.
  intros H. split.
  - split; simpl; unfold_ints; lia.
  - intros o ref payload. split; [simpl; unfold_ints; lia|].
    pose proof (durable_next o ref payload (d_wal d)). cbn [durable_env env_intent_log]. unfold_ints. lia.
Qed.

Lemma run0_start : fresh_start (W := intent_log) run0.
Proof.
  split_and!; try done. simpl. split; [done|]. split; [done|]. exists [], []. apply inv_init.
Qed.

Lemma run1_index : d_index run1 =
  {[ signal_signature (sample_signal "") := make_client_ref "s" (signal_signature (sample_signal "")) "u1" ]}.
Proof. vm_compute. reflexivity. Qed.

Lemma run2_index : d_index run2 = d_index run1.
Proof. reflexivity. Qed.

Lemma place_step env strat i (d : Dispatcher (W := intent_log)) :
  roomy env d -> fresh_uuid env strat i d -> disp_step d (snd (place env strat i d)).
Proof. intros Hr Hf. by eapply step_place, surjective_pairing. Qed.

Lemma run3_fresh ack : fresh_uuid (W := intent_log) (durable_env "u2" ack) "s" (sample_signal "") run2.
Proof.
  intros s H. rewrite run2_index, run1_index in H. apply lookup_singleton_Some in H as [_ H].
  cbn [durable_env env_uuid] in H. unfold make_client_ref in H.
  by apply str_app_inv_head, str_app_inv_head, str_app_inv_head, str_app_inv_head in H.
Qed.

Lemma run_steps : rtc (disp_step (W := intent_log)) run0 run3.
Proof.
  eapply rtc_l; [|eapply rtc_l; [|apply rtc_once]].
  - apply (place_step timed_out_env "s" (sample_signal "") run0).
    + by apply durable_roomy.
    + intros s. simpl. by rewrite lookup_empty.
  - exact (step_outside (W := intent_log) ∅ engine_init run1).
  - apply (place_step (durable_env "u2" (Ok (mkAck "b" ""))) "s" (sample_signal "") run2); [|apply run3_fresh].
    apply durable_roomy. vm_compute. reflexivity.
Qed.

Lemma run3_trace : exists i, d_trace run3 !! 2%nat = Some (EvPlace i) /\
  omap (fun ev => match ev with EvPlace i => Some i | _ => None end) (d_trace run3) = [i].
Proof.
  exists (with_client_ref (make_client_ref "s" (signal_signature (sample_signal "")) "u1") (sample_signal "")).
  vm_compute. by split.
Qed.

Lemma zero_duplicate_witness : exists i, d_trace run3 !! 2%nat = Some (EvPlace i) /\
  forall b, d_trace run3 !! b = Some (EvPlace i) -> 2%nat = b.
Proof.
  destruct run3_trace as (i & Hi & _). exists i. split; [exact Hi|]. intros b Hb.
  exact (zero_duplicate (W := intent_log) run0 run3 2 b i i run0_start run_steps Hi Hb eq_refl).
Defined.

(** With a working disk every append of a call is acknowledged, so the log stays
    healthy and a boot after a power cut replays. *)
Lemma durable_acked now o ref payload (s : Wal) acked :
  log_holds s acked -> is_int64 now -> next_seq (w_log s) < int64_max ->
  wal_step Acked s (snd (log_append (WriteAheadLog := intent_log) (WriteDurable, now) s o ref payload)).
Proof.
  intros (Hup & _ & recs & ps & Hi) Hn Hs. destruct (wi_log _ _ _ Hi Hup) as (Ho & _).
  unfold log_append. cbn [intent_log fst snd].
  destruct (append WriteDurable now (w_log s) (w_file s) o ref payload) as [[res log'] file'] eqn:E.
  pose proof E as E'. unfold append in E'. rewrite Ho in E'. injection E' as <- <- <-.
  by eapply wal_append.
Qed.

Lemma healthy_acked s s' : healthy s -> wal_step Acked s s' -> healthy s'.
Proof. intros (p & s1 & Hr & Hs) H. exists p, s1. split; [by eapply rtc_r|done]. Qed.

Lemma holds_acked s s' acked : log_holds s acked -> wal_step Acked s s' -> exists acked', log_holds s' acked'.
Proof.
  intros (_ & _ & recs & ps & Hi) H. destruct (inv_step _ _ _ _ _ Hi H) as (recs' & ps' & Hi' & _).
  inversion H; subst. eexists. split; [done|]. split; [done|]. eauto.
Qed.

Lemma durable_healthy uuid ack strat i (d : Dispatcher (W := intent_log)) acked :
  log_holds (d_wal d) acked -> healthy (d_wal d) -> next_seq (w_log (d_wal d)) < 1000 ->
  healthy (d_wal (snd (place (durable_env uuid ack) strat i d))).
Proof.
  intros Hh Hw Hs. destruct (place (durable_env uuid ack) strat i d) as [out d'] eqn:E. simpl.
  apply place_spec in E as [(_ & -> & _)|(ref & ix & _ & H)]; [done|].
  apply place_reserved_spec in H as (H & _). unfold logged_call in H. cbn [durable_env env_intent_log d_wal set_index] in H.
  pose proof (durable_acked 1000 PlaceOrder ref (intent_payload_json (with_client_ref ref i)) (d_wal d) acked Hh
    ltac:(unfold_ints; lia) ltac:(unfold_ints; lia)) as Hstep.
  pose proof (durable_next PlaceOrder ref (intent_payload_json (with_client_ref ref i)) (d_wal d)) as Hnext.
  destruct (log_append _ _ _ _ _) as [res w] eqn:E. cbn [snd] in Hstep, Hnext.
  destruct (holds_acked _ _ _ Hh Hstep) as [acked1 Hh1]. pose proof (healthy_acked _ _ Hw Hstep) as Hw1.
  destruct res; cbv beta iota in H; [|destruct H as [_ ->]; exact Hw1].
  destruct H as (tail & _ & [[_ ->]|(ref2 & payload2 & H)]); [done|].
  assert (wal_step Acked w (snd (log_append (WriteAheadLog := intent_log)
    (env_result_log (durable_env uuid ack)) w Result ref2 payload2))) as Hstep2
    by (apply (durable_acked 2000 Result ref2 payload2 w acked1 Hh1); unfold_ints; lia).
  revert H Hstep2.
  destruct (log_append (env_result_log (durable_env uuid ack)) w Result ref2 payload2) as [res2 w2].
  intros H Hstep2. pose proof (healthy_acked _ _ Hw1 Hstep2) as Hw2.
  destruct res2; destruct H as [_ ->]; exact Hw2.
Qed.

Lemma wal_init_healthy : healthy (wal_init "intent.log").
Proof. exists "intent.log", (wal_init "intent.log"). split; [apply rtc_refl|by left]. Qed.

Lemma run3_healthy : healthy (d_wal run3).
Proof.
  assert (healthy (d_wal run0)) as H0 by exact wal_init_healthy.
  assert (healthy (d_wal run2)) as H2.
  { apply (durable_healthy "u1" (Err (make_error Timeout "t" "")) "s" (sample_signal "") run0 []); [|done|done].
    apply run0_start. }
  assert (exists acked, disp_inv run2 acked) as [acked Hd].
  { apply (disp_reachable run0); [apply run0_start|]. eapply rtc_l; [|apply rtc_once].
    - apply (place_step timed_out_env "s" (sample_signal "") run0).
      + by apply durable_roomy.
      + intros s. simpl. by rewrite lookup_empty.
    - exact (step_outside (W := intent_log) ∅ engine_init run1). }
  apply (durable_healthy "u2" (Ok (mkAck "b" "")) "s" (sample_signal "") run2 acked); [apply Hd|done|].
  vm_compute. reflexivity.
Qed.

(** A power cut after the run, and the boot that follows. *)
Lemma run3_recovery : exists rs w', wal_recovers (W := intent_log) (d_wal run3) rs w'.
Proof.
  destruct (inv_healthy _ run3_healthy) as [recs Hinv].
  pose proof (one_partial_recovers _ _ _ (w_synced (d_wal run3)) "intent.log" Hinv (Nat.le_0_l 1) (Nat.le_refl _)) as H.
  destruct (replay ReadOk all_repairs_ok (opened "intent.log") _) as [[[[rs|e]|] log'] file'] eqn:E; [|done..].
  eexists rs, _. exists (d_wal run3). eexists _, all_repairs_ok, "intent.log", log', file'.
  split_and!; [apply rtc_refl| |exact E|reflexivity]. apply Nat.le_refl.
Qed.

Lemma sent_orders_recoverable_witness :
  exists rs i, elem_of (EvPlace i) (d_trace run3) /\
  existing_ref (rebuild_from_log rs) i <> None.
Proof.
  destruct run3_recovery as (rs & w' & Hr). destruct run3_trace as (i & Hi & _).
  apply list_elem_of_lookup_2 in Hi. exists rs, i. split; [exact Hi|].
  exact (proj2 (sent_orders_recoverable (W := intent_log) run0 run3 i rs w' run0_start run_steps Hi Hr)).
Defined.

Lemma run1_answered : exists o, place timed_out_env "s" (sample_signal "") run0 = (Ok o, run1).
Proof.
  assert (is_ok (fst (place timed_out_env "s" (sample_signal "") run0)) = true) as H by (vm_compute; reflexivity).
  unfold run1. destruct (place timed_out_env "s" (sample_signal "") run0) as [[o|e] d']; [by exists o|discriminate H].
Qed.

Lemma place_answers_witness :
  exists o, place timed_out_env "s" (sample_signal "") run0 = (Ok o, run1) /\ state o = Unknown.
Proof.
  destruct run1_answered as [o E]. exists o. split; [exact E|].
  assert (forall r k, last_key (d_fsm run0) r = Some k -> k <= 1) as Hkeys by (intros r k H; discriminate H).
  destruct (place_answers (W := intent_log) _ _ _ _ _ _ Hkeys E)
    as [(_ & _ & [[ref H]|(ref & _ & _ & ->)])|(ref & _ & _ & H & _)];
    [discriminate H|reflexivity|exact H].
Defined.

(** The same start, but the first write of the intent fails after five bytes. *)
Definition short_env : CallEnv (W := intent_log) :=
  mkCallEnv (W := intent_log) "u1" None None (WriteShort 5, 1000) (WriteDurable, 2000) (Ok (mkAck "b" "")) 1000 2000.

Lemma place_resumes_witness : exists r tail,
  d_trace (place (durable_env "u2" (Ok (mkAck "b" ""))) "s" (sample_signal "") (place short_env "s" (sample_signal "") run0).2).2 =
  [EvLogRefused; EvLogged r; EvBarrier;
   EvPlace (with_client_ref (make_client_ref "s" (signal_signature (sample_signal "")) "u1") (sample_signal ""))] ++ tail.
Proof.
  destruct (place_resumes (W := intent_log) short_env (durable_env "u2" (Ok (mkAck "b" ""))) "s" "s" (sample_signal "") run0)
    as (Ht & r & tail & H & _); [reflexivity|reflexivity|split; reflexivity|reflexivity|vm_compute; reflexivity|].
  exists r, tail. rewrite H, Ht. reflexivity.
Defined.

End sample_run.
