(* ===== verification/Resolver.v ===== *)
(** * Resolver: orders in the UNKNOWN state (src/src/runtime/unknown_resolver.cpp,
    unknown_pause.cpp)

    The match ladder against the broker's order list, the adoption of a match
    through the lifecycle engine, the resolution of every UNKNOWN row, and the
    pause that blocks entries while any is outstanding. What the broker's read
    and the store's write answer is an environment per order. *)

From S2P Require Import Prelude Errors Domain Lifecycle Store.

Inductive MatchKind := BrokerOrderId | CorrelationToken | AttributeCorroboration | NoMatch.

#[export] Instance MatchKind_eq_dec : EqDecision MatchKind.
Proof. solve_decision. Defined.

Definition match_kind_to_string (k : MatchKind) : string :=
  match k with
  | BrokerOrderId => "BROKER_ORDER_ID"
  | CorrelationToken => "CORRELATION_TOKEN"
  | AttributeCorroboration => "ATTRIBUTE_CORROBORATION"
  | NoMatch => "NO_MATCH"
  end.

Record UnknownResolution := mkResolution {
  kind : MatchKind;
  resolved : option Order;
  new_state : OrderState;
  resolved_ok : bool;
}.

(** ** The ladder *)

Definition attributes_match (a b : Order) : bool :=
  String.eqb (symbol (intent a)) (symbol (intent b)) && bool_decide (side (intent a) = side (intent b)) &&
  bool_decide (quantity (intent a) = quantity (intent b)) && bool_decide (price (intent a) = price (intent b)) &&
  bool_decide (trigger_price (intent a) = trigger_price (intent b)).

Definition same_broker_id (u bo : Order) : bool :=
  negb (String.eqb (broker_order_id bo) "") && String.eqb (broker_order_id bo) (broker_order_id u).

Definition same_client_ref (u bo : Order) : bool :=
  negb (String.eqb (client_ref (intent bo)) "") &&
  String.eqb (client_ref (intent bo)) (client_ref (intent u)).

(** [std::find_if]. *)
Fixpoint find_if {A} (p : A -> bool) (l : list A) : option A :=
  match l with
  | [] => None
  | x :: r => if p x then Some x else find_if p r
  end.

Definition classify (u : Order) (broker_orders : list Order) : MatchKind * option Order :=
  let attributes :=
    match find_if (attributes_match u) broker_orders with
    | Some bo => (AttributeCorroboration, Some bo)
    | None => (NoMatch, None)
    end in
  let token :=
    if negb (String.eqb (client_ref (intent u)) "")
    then match find_if (same_client_ref u) broker_orders with
         | Some bo => (CorrelationToken, Some bo)
         | None => attributes
         end
    else attributes in
  if negb (String.eqb (broker_order_id u) "")
  then match find_if (same_broker_id u) broker_orders with
       | Some bo => (BrokerOrderId, Some bo)
       | None => token
       end
  else token.

(** ** State and calls *)

Record AlertContext := mkAlertContext {
  alert_client_ref : string;
  alert_broker_order_id : string;
  alert_strategy : string;
  alert_symbol : string;
}.

(** The calls on the broker and the alert sink; there is no other. *)
Inductive ResolverEvent :=
  | EvFetchOrders
  | EvCriticalAlert (message : string) (provenance : AlertContext).

Record ResolverState := mkResolverState {
  r_orders : orders_table;
  r_fsm : LifecycleEngine;
  r_trace : list ResolverEvent;
}.

Record ResolverEnv := mkResolverEnv {
  env_fetch : result (list Order);
  env_upsert_fault : option Error;
}.

Definition note (ev : ResolverEvent) (s : ResolverState) : ResolverState :=
  mkResolverState (r_orders s) (r_fsm s) (r_trace s ++ [ev]).

Definition adopt (env : ResolverEnv) (u truth : Order) (s : ResolverState) :
    result Order * ResolverState :=
  let ref := client_ref (intent u) in
  let key := match last_key (r_fsm s) ref with Some k => to_i64 (k + 1) | None => 1 end in
  let view := mkView ref (broker_order_id truth) (state truth) (filled_qty truth) (avg_price truth) key in
  let '(_, o, e') := apply (r_fsm s) u view in
  let o := if String.eqb (broker_order_id o) "" then with_broker_order_id (broker_order_id truth) o else o in
  let '(r, t') := upsert_order (env_upsert_fault env) (r_orders s) o in
  let s' := mkResolverState t' e' (r_trace s) in
  match r with
  | Err e => (Err e, s')
  | Ok _ => (Ok o, s')
  end.

Definition unmatched_message : string := "UNKNOWN order has no authoritative broker match (fail-closed)".

Definition provenance_of (u : Order) : AlertContext :=
  mkAlertContext (client_ref (intent u)) (broker_order_id u) (strategy (intent u)) (symbol (intent u)).

Definition resolve (env : ResolverEnv) (u : Order) (s : ResolverState) :
    result UnknownResolution * ResolverState :=
  let s := note EvFetchOrders s in
  match env_fetch env with
  | Err e => (Err e, s)
  | Ok fetched =>
      let '(k, matched) := classify u fetched in
      match k, matched with
      | NoMatch, _ | _, None =>
          (Ok (mkResolution k None Unknown false), note (EvCriticalAlert unmatched_message (provenance_of u)) s)
      | _, Some truth =>
          match adopt env u truth s with
          | (Err e, s') => (Err e, s')
          | (Ok o, s') => (Ok (mkResolution k (Some o) (state o) true), s')
          end
      end
  end.

(** The environment of each order of the listing is looked up by its reference:
    a reference occurs once in the table. *)
Fixpoint resolve_loop (env : string -> ResolverEnv) (l : list Order) (s : ResolverState) :
    result (list UnknownResolution) * ResolverState :=
  match l with
  | [] => (Ok [], s)
  | o :: rest =>
      if negb (bool_decide (state o = Unknown)) then resolve_loop env rest s else
      match resolve (env (order_ref o)) o s with
      | (Err e, s') => (Err e, s')
      | (Ok r, s') =>
          match resolve_loop env rest s' with
          | (Err e, s'') => (Err e, s'')
          | (Ok out, s'') => (Ok (r :: out), s'')
          end
      end
  end.

Definition resolve_all (env : string -> ResolverEnv) (list_fault : option Error) (s : ResolverState) :
    result (list UnknownResolution) * ResolverState :=
  match all_orders list_fault (r_orders s) with
  | Err e => (Err e, s)
  | Ok l => resolve_loop env l s
  end.

(** ** UnknownPause *)

Record UnknownPause := mkPause { outstanding_refs : gset string }.

Definition pause_init : UnknownPause := mkPause ∅.
Definition mark_unknown (ref : string) (p : UnknownPause) : UnknownPause :=
  mkPause ({[ref]} ∪ outstanding_refs p).
Definition clear (ref : string) (p : UnknownPause) : UnknownPause :=
  mkPause (outstanding_refs p ∖ {[ref]}).
Definition is_paused (p : UnknownPause) : bool := negb (bool_decide (outstanding_refs p = ∅)).
Definition outstanding (p : UnknownPause) : nat := size (outstanding_refs p).
Definition allows (p : UnknownPause) (is_risk_reducing_exit : bool) : bool :=
  if is_risk_reducing_exit then true else negb (is_paused p).

(** ** The ladder picks the strongest evidence *)

Definition same_id (u bo : Order) : Prop :=
  broker_order_id u <> "" /\ broker_order_id bo = broker_order_id u.
Definition same_token (u bo : Order) : Prop :=
  client_ref (intent u) <> "" /\ client_ref (intent bo) = client_ref (intent u).
(** The economic terms of the two orders agree, the trigger included. *)
Definition same_terms (u bo : Order) : Prop :=
  symbol (intent bo) = symbol (intent u) /\ side (intent bo) = side (intent u) /\
  quantity (intent bo) = quantity (intent u) /\ price (intent bo) = price (intent u) /\
  trigger_price (intent bo) = trigger_price (intent u).

(** [bo] is the first order of the list that satisfies [P]. *)
Definition first_with (P : Order -> Prop) (l : list Order) (bo : Order) : Prop :=
  exists l1 l2, l = l1 ++ bo :: l2 /\ P bo /\ forall x, x ∈ l1 -> ~ P x.

Lemma find_if_spec p (P : Order -> Prop) l : (forall x, p x = true <-> P x) ->
  match find_if p l with
  | Some bo => first_with P l bo
  | None => forall x, x ∈ l -> ~ P x
  end.
Proof.
  intros HP. induction l as [|x l IH]; simpl; [intros x Hx; by apply elem_of_nil in Hx|].
  destruct (p x) eqn:E.
  - exists [], l. split; [done|]. split; [by apply HP|]. intros y Hy. by apply elem_of_nil in Hy.
  - assert (~ P x) as Hx by (rewrite <- HP; congruence).
    destruct (find_if p l) as [bo|].
    + destruct IH as (l1 & l2 & -> & Hbo & Hl1). exists (x :: l1), l2. split; [done|]. split; [done|].
      intros y [->|Hy]%elem_of_cons; auto.
    + intros y [->|Hy]%elem_of_cons; auto.
Qed.

Lemma same_broker_id_true u bo : same_broker_id u bo = true <-> same_id u bo.
Proof.
  unfold same_broker_id, same_id. rewrite andb_true_iff, negb_true_iff, String.eqb_eq, String.eqb_neq.
  intuition congruence.
Qed.

Lemma same_client_ref_true u bo : same_client_ref u bo = true <-> same_token u bo.
Proof.
  unfold same_client_ref, same_token. rewrite andb_true_iff, negb_true_iff, String.eqb_eq, String.eqb_neq.
  intuition congruence.
Qed.

Lemma attributes_match_true u bo : attributes_match u bo = true <-> same_terms u bo.
Proof.
  unfold attributes_match, same_terms. rewrite !andb_true_iff, !bool_decide_eq_true, String.eqb_eq.
  intuition congruence.
Qed.

(** the ladder answers with the strongest evidence the broker's list holds,
    and with the first order that carries it: an order whose broker id is ours;
    only when there is none, one that echoes our client reference; only when
    there is neither, one that agrees on symbol, side, quantity, price and
    trigger. It answers NoMatch exactly when no order of the list carries any of
    the three. *)
Theorem classify_ladder u l :
  match classify u l with
  | (BrokerOrderId, Some bo) => first_with (same_id u) l bo
  | (CorrelationToken, Some bo) =>
      first_with (same_token u) l bo /\ forall x, x ∈ l -> ~ same_id u x
  | (AttributeCorroboration, Some bo) =>
      first_with (same_terms u) l bo /\ forall x, x ∈ l -> ~ same_id u x /\ ~ same_token u x
  | (NoMatch, None) => forall x, x ∈ l -> ~ same_id u x /\ ~ same_token u x /\ ~ same_terms u x
  | _ => False
  end.
Proof.
  pose proof (find_if_spec _ _ l (same_broker_id_true u)) as H1.
  pose proof (find_if_spec _ _ l (same_client_ref_true u)) as H2.
  pose proof (find_if_spec _ _ l (attributes_match_true u)) as H3.
  assert (broker_order_id u = "" -> forall x, ~ same_id u x) as E1 by (intros E x [? _]; done).
  assert (client_ref (intent u) = "" -> forall x, ~ same_token u x) as E2 by (intros E x [? _]; done).
  unfold classify.
  destruct (String.eqb_spec (broker_order_id u) ""); simpl;
    [|destruct (find_if (same_broker_id u) l); [done|]];
    (destruct (String.eqb_spec (client_ref (intent u)) ""); simpl;
      [|destruct (find_if (same_client_ref u) l); [by eauto|]]);
    (destruct (find_if (attributes_match u) l); naive_solver).
Qed.

(** ** Adoption does not depend on the engine *)

(** The state an adapter's view of a live order stands for. *)
Definition adopted_state (bo : Order) : OrderState :=
  if bool_decide (state bo = Sent)
  then (if 0 <? quantity_value (filled_qty bo) then PartiallyFilled else Acknowledged)
  else state bo.

(** The local order after adopting [bo]: the broker's state, fills, price and id
    on our intent; a broker row in a local pre-send state contributes its id only. *)
Definition adopted (u bo : Order) : Order :=
  if one_of [Created; Validated; PendingSend] (adopted_state bo)
  then with_broker_order_id (if String.eqb (broker_order_id u) "" then broker_order_id bo else broker_order_id u) u
  else mkOrder (intent u) (adopted_state bo)
         (if String.eqb (broker_order_id bo) "" then broker_order_id u else broker_order_id bo)
         (filled_qty bo) (avg_price bo).

(** Every ordering key leaves room for one more. *)
Definition keys_room (e : LifecycleEngine) (ref : string) : Prop :=
  forall k, last_key e ref = Some k -> int64_min <= k < int64_max.

Lemma adopted_intent u bo : intent (adopted u bo) = intent u.
Proof. unfold adopted. by destruct (one_of _ _). Qed.

Lemma with_same_broker_order_id o : with_broker_order_id (broker_order_id o) o = o.
Proof. by destruct o. Qed.

Lemma apply_unknown e u bo key : state u = Unknown ->
  (forall k, last_key e (client_ref (intent u)) = Some k -> k <= key) ->
  exists out o e',
    apply e u (mkView (client_ref (intent u)) (broker_order_id bo) (state bo) (filled_qty bo) (avg_price bo) key)
      = (out, o, e') /\
    (if String.eqb (broker_order_id o) "" then with_broker_order_id (broker_order_id bo) o else o) = adopted u bo /\
    forall r, r <> client_ref (intent u) -> last_key e' r = last_key e r.
Proof.
  intros Hu Hk. unfold apply. rewrite Hu. simpl.
  assert (match last_keys e !! client_ref (intent u) with Some k => key <? k | None => false end = false) as ->.
  { unfold last_key in Hk. destruct (last_keys e !! _) as [k|]; [|done]. apply Z.ltb_ge. by apply Hk. }
  assert (canonical_observed Unknown (mkView (client_ref (intent u)) (broker_order_id bo) (state bo)
            (filled_qty bo) (avg_price bo) key) = adopted_state bo) as ->.
  { unfold canonical_observed, adopted_state. simpl. rewrite orb_false_r.
    by destruct (bool_decide (state bo = Sent)). }
  assert (is_valid_transition Unknown (adopted_state bo) =
    negb (one_of [Created; Validated; PendingSend] (adopted_state bo))) as ->.
  { unfold adopted_state. destruct (bool_decide_reflect (state bo = Sent)) as [|Hs]; [by destruct (0 <? _)|].
    by destruct (state bo). }
  unfold adopted. destruct (one_of [Created; Validated; PendingSend] (adopted_state bo)) eqn:Hpre; simpl.
  - do 3 eexists. split; [reflexivity|]. split; [|done].
    destruct (String.eqb (broker_order_id u) "") eqn:Eb; [done|]. symmetry. apply with_same_broker_order_id.
  - destruct (negb (negb (bool_decide (Unknown = adopted_state bo))) && _) eqn:Hno; do 3 eexists;
      (split; [reflexivity|]); (split; [|intros r Hr; unfold last_key; simpl; by rewrite lookup_insert_ne]).
    + to_prop. destruct u as [i s b f p]. simpl in *. subst f p. rewrite <- H, Hu.
      destruct (String.eqb_spec (broker_order_id bo) "") as [->|]; simpl in H1.
      * destruct (String.eqb_spec b "") as [->|]; unfold with_broker_order_id; by simpl.
      * to_prop. subst b. by destruct (String.eqb_spec (broker_order_id bo) "").
    + simpl. destruct (String.eqb_spec (broker_order_id bo) "") as [E|E]; simpl.
      * destruct (String.eqb_spec (broker_order_id u) "") as [E2|E2]; [|done].
        unfold with_broker_order_id. simpl. congruence.
      * by destruct (String.eqb_spec (broker_order_id bo) "").
Qed.

(** ** What resolving does, as a function of the table *)

Definition match_of (env : ResolverEnv) (u : Order) : option Order :=
  match env_fetch env with
  | Ok l => snd (classify u l)
  | Err _ => None
  end.

Definition kind_of (env : ResolverEnv) (u : Order) : MatchKind :=
  match env_fetch env with
  | Ok l => fst (classify u l)
  | Err _ => NoMatch
  end.

Definition settle (env : ResolverEnv) (o : Order) : Order :=
  if bool_decide (state o = Unknown)
  then match match_of env o with Some bo => adopted o bo | None => o end
  else o.

Definition resolution_of (env : ResolverEnv) (u : Order) : UnknownResolution :=
  match match_of env u with
  | Some bo => mkResolution (kind_of env u) (Some (adopted u bo)) (state (adopted u bo)) true
  | None => mkResolution (kind_of env u) None Unknown false
  end.

Definition events_of (env : ResolverEnv) (u : Order) : list ResolverEvent :=
  EvFetchOrders ::
  match match_of env u with
  | Some _ => []
  | None => [EvCriticalAlert unmatched_message (provenance_of u)]
  end.

(** Why a call of the resolver fails. *)
Definition refused (env : ResolverEnv) (e : Error) : Prop :=
  env_fetch env = Err e \/ env_upsert_fault env = Some e.

Lemma adopt_spec env u bo s : state u = Unknown -> keys_room (r_fsm s) (order_ref u) ->
  exists e', (forall r, r <> order_ref u -> last_key e' r = last_key (r_fsm s) r) /\
  adopt env u bo s =
    match env_upsert_fault env with
    | Some e => (Err e, mkResolverState (r_orders s) e' (r_trace s))
    | None => (Ok (adopted u bo),
               mkResolverState (<[order_ref u := adopted u bo]> (r_orders s)) e' (r_trace s))
    end.
Proof.
  intros Hu Hroom. unfold adopt. unfold order_ref in *.
  set (key := match last_key (r_fsm s) (client_ref (intent u)) with Some k => to_i64 (k + 1) | None => 1 end).
  destruct (apply_unknown (r_fsm s) u bo key Hu) as (out & o & e' & Ha & Ho & Hkeys).
  { intros k Hk. unfold key. rewrite Hk. apply Hroom in Hk. rewrite to_i64_small; unfold_ints; lia. }
  exists e'. split; [exact Hkeys|]. rewrite Ha, Ho. unfold upsert_order, order_ref.
  rewrite adopted_intent. by destruct (env_upsert_fault env).
Qed.

Lemma classify_kind u l : snd (classify u l) = None <-> fst (classify u l) = NoMatch.
Proof.
  pose proof (classify_ladder u l) as H. destruct (classify u l) as [[] [|]]; simpl; by try done.
Qed.

Lemma resolve_spec env u s res s' : state u = Unknown -> keys_room (r_fsm s) (order_ref u) ->
  resolve env u s = (res, s') ->
  (forall r, r <> order_ref u -> last_key (r_fsm s') r = last_key (r_fsm s) r) /\
  match res with
  | Ok r => r = resolution_of env u /\ r_trace s' = r_trace s ++ events_of env u /\
      r_orders s' = match match_of env u with
                    | Some bo => <[order_ref u := adopted u bo]> (r_orders s)
                    | None => r_orders s
                    end
  | Err e => refused env e /\ r_orders s' = r_orders s
  end.
Proof.
  intros Hu Hroom. unfold resolve, resolution_of, events_of, match_of, kind_of, refused.
  destruct (env_fetch env) as [l|e]; [|intros [= <- <-]; eauto].
  pose proof (classify_kind u l) as Hk. destruct (classify u l) as [k [bo|]]; simpl in *.
  - assert (k <> NoMatch) as Hne by (intros ->; destruct Hk as [_ Hk]; by specialize (Hk eq_refl)).
    destruct (adopt_spec env u bo (note EvFetchOrders s) Hu Hroom) as (e' & Hkeys & Ha).
    intros H. assert (match adopt env u bo (note EvFetchOrders s) with
      | (Ok o, s') => (Ok (mkResolution k (Some o) (state o) true), s')
      | (Err e, s') => (Err e, s')
      end = (res, s')) as H' by (by destruct k).
    clear H. rewrite Ha in H'. destruct (env_upsert_fault env); injection H' as <- <-; simpl; eauto.
  - destruct Hk as [Hk _]. rewrite (Hk eq_refl). intros [= <- <-]. simpl. by rewrite <- app_assoc.
Qed.

(** ** The whole table *)

Definition is_unknown (o : Order) : Prop := state o = Unknown.
#[export] Instance is_unknown_dec o : Decision (is_unknown o).
Proof. unfold is_unknown. apply _. Defined.

Definition settled (env : string -> ResolverEnv) (l : list Order) (t t' : orders_table) : Prop :=
  forall ref, t' !! ref = if bool_decide (ref ∈ order_ref <$> l) then settle (env ref) <$> t !! ref else t !! ref.

Lemma settled_skip env o l t t' : t !! order_ref o = Some o -> ~ is_unknown o ->
  settled env l t t' -> settled env (o :: l) t t'.
Proof.
  intros Ho Hu H ref. rewrite H, fmap_cons.
  destruct (decide (ref = order_ref o)) as [->|Hne].
  - rewrite (bool_decide_eq_true_2 (_ ∈ _ :: _)) by set_solver. rewrite Ho. simpl.
    unfold settle at 2. rewrite (bool_decide_eq_false_2 (state o = Unknown)) by done.
    case_bool_decide; [|done]. unfold settle. by rewrite (bool_decide_eq_false_2 (state o = Unknown)) by done.
  - by rewrite (bool_decide_ext (ref ∈ order_ref o :: (order_ref <$> l)) (ref ∈ order_ref <$> l)) by set_solver.
Qed.

Lemma settled_step env o l t t' : t !! order_ref o = Some o -> is_unknown o ->
  order_ref o ∉ order_ref <$> l ->
  settled env l (match match_of (env (order_ref o)) o with
                 | Some bo => <[order_ref o := adopted o bo]> t
                 | None => t
                 end) t' ->
  settled env (o :: l) t t'.
Proof.
  intros Ho Hu Hl H ref. rewrite H, fmap_cons.
  destruct (decide (ref = order_ref o)) as [->|Hne].
  - rewrite bool_decide_eq_false_2 by done. rewrite bool_decide_eq_true_2 by set_solver.
    rewrite Ho. simpl. unfold settle. rewrite bool_decide_eq_true_2 by done.
    destruct (match_of _ o); [by rewrite lookup_insert_eq|done].
  - rewrite (bool_decide_ext (ref ∈ order_ref o :: (order_ref <$> l)) (ref ∈ order_ref <$> l)) by set_solver.
    destruct (match_of _ o); [by rewrite lookup_insert_ne|done].
Qed.

Lemma resolve_loop_spec env l : forall s res s',
  NoDup (order_ref <$> l) -> (forall o, o ∈ l -> r_orders s !! order_ref o = Some o) ->
  (forall o, o ∈ l -> keys_room (r_fsm s) (order_ref o)) ->
  resolve_loop env l s = (res, s') ->
  match res with
  | Ok out => settled env l (r_orders s) (r_orders s') /\
      out = (fun o => resolution_of (env (order_ref o)) o) <$> filter is_unknown l /\
      r_trace s' = r_trace s ++ (filter is_unknown l ≫= fun o => events_of (env (order_ref o)) o)
  | Err e => (exists o, o ∈ l /\ refused (env (order_ref o)) e) /\
      forall ref, r_orders s' !! ref = r_orders s !! ref \/
                  ref ∈ order_ref <$> l /\ r_orders s' !! ref = settle (env ref) <$> r_orders s !! ref
  end.
Proof.
  induction l as [|o l IH]; intros s res s' Hnd Hin Hroom H.
  { injection H as <- <-. split; [|by rewrite app_nil_r]. intros ref. by rewrite bool_decide_eq_false_2 by set_solver. }
  rewrite fmap_cons in Hnd. apply NoDup_cons in Hnd as [Hl Hnd].
  pose proof (Hin o ltac:(set_solver)) as Ho. simpl in H.
  destruct (decide (state o = Unknown)) as [Hu|Hu];
    [rewrite bool_decide_eq_true_2 in H by done|rewrite bool_decide_eq_false_2 in H by done]; simpl in H.
  - destruct (resolve (env (order_ref o)) o s) as [r1 s1] eqn:E1.
    apply resolve_spec in E1 as [Hkeys H1]; [|done|apply Hroom; set_solver].
    destruct r1 as [r1|e]; [destruct H1 as (-> & Htr & Ht)|].
    + assert (forall o', o' ∈ l -> order_ref o' <> order_ref o) as Hne.
      { intros o' Ho' Heq. apply Hl. rewrite <- Heq. by apply list_elem_of_fmap_2. }
      destruct (resolve_loop env l s1) as [r2 s2] eqn:E2. apply IH in E2; [|done| |].
      * rewrite Ht in E2. destruct r2 as [out|e]; simplify_eq/=.
        -- destruct E2 as (Hs & Hout & Htr2). split; [by apply settled_step|].
           rewrite filter_cons_True by done. rewrite Hout. split; [done|]. simpl. by rewrite Htr2, Htr, <- app_assoc.
        -- destruct E2 as [(x & Hx & Hr) Hs]. split; [exists x; split; [set_solver|done]|].
           intros ref. specialize (Hs ref).
           destruct (match_of (env (order_ref o)) o) as [bo|] eqn:Em; [|set_solver].
           destruct (decide (ref = order_ref o)) as [->|Hne2];
             [|rewrite lookup_insert_ne in Hs by done; set_solver].
           destruct Hs as [Hs|[? _]]; [|done]. rewrite lookup_insert_eq in Hs. right. split; [set_solver|].
           rewrite Hs, Ho. simpl. unfold settle. by rewrite bool_decide_eq_true_2, Em by done.
      * intros o' Ho'. rewrite Ht. destruct (match_of _ o); [rewrite lookup_insert_ne by (symmetry; auto)|];
          apply Hin; set_solver.
      * intros o' Ho'. unfold keys_room. rewrite Hkeys by auto. apply Hroom; set_solver.
    + injection H as <- <-. destruct H1 as [Hr Ht]. split; [exists o; split; [set_solver|done]|].
      intros ref. left. by rewrite Ht.
  - apply IH in H; [|done|set_solver|set_solver].
    destruct res as [out|e].
    + destruct H as (Hs & -> & Htr). split; [by apply settled_skip|]. by rewrite filter_cons_False.
    + destruct H as [(x & Hx & Hr) Hs]. split; [exists x; split; [set_solver|done]|].
      intros ref. destruct (Hs ref) as [|[? ?]]; set_solver.
Qed.

(** Every row is filed under its own reference, as UNIQUE(client_ref) has it. *)
Definition keyed (t : orders_table) : Prop := forall ref o, t !! ref = Some o -> order_ref o = ref.

Definition unknown_rows (t : orders_table) : list Order :=
  filter is_unknown (sort_by_ref (map_to_list t).*2).

Lemma keyed_refs t : keyed t -> order_ref <$> (map_to_list t).*2 = (map_to_list t).*1.
Proof.
  intros Hk. rewrite <- list_fmap_compose. apply list_fmap_ext. intros n [ref o] Hn.
  apply list_elem_of_lookup_2, elem_of_map_to_list in Hn. simpl. by apply Hk.
Qed.

Lemma listing_refs t : keyed t -> Permutation (order_ref <$> sort_by_ref (map_to_list t).*2) (map_to_list t).*1.
Proof. intros Hk. by rewrite sort_by_ref_perm, keyed_refs. Qed.

Lemma listing_nodup t : keyed t -> NoDup (order_ref <$> sort_by_ref (map_to_list t).*2).
Proof. intros Hk. rewrite listing_refs by done. apply NoDup_fst_map_to_list. Qed.

Lemma listing_elem t o : keyed t -> o ∈ sort_by_ref (map_to_list t).*2 <-> t !! order_ref o = Some o.
Proof.
  intros Hk. rewrite (all_orders_elem t _ o eq_refl). split; [|eauto].
  intros [ref Hr]. by rewrite (Hk _ _ Hr).
Qed.

(** one pass over the table. When it completes, every row is what [settle]
    makes of it from the list the broker answered for it, rows that were not
    UNKNOWN are untouched, the resolutions are those of the UNKNOWN rows in
    listing order, and the only calls were one read per UNKNOWN row and one
    critical alert, naming the order, for each that matched nothing. When it
    stops early a read or a store call has failed, and every row is either as it
    was or settled. *)
Theorem resolve_all_settles env fault s
    (Hkeyed : keyed (r_orders s)) (Hroom : forall ref, keys_room (r_fsm s) ref) :
  match resolve_all env fault s with
  | (Ok out, s') =>
      (forall ref, r_orders s' !! ref = settle (env ref) <$> r_orders s !! ref) /\
      out = (fun o => resolution_of (env (order_ref o)) o) <$> unknown_rows (r_orders s) /\
      r_trace s' = r_trace s ++ (unknown_rows (r_orders s) ≫= fun o => events_of (env (order_ref o)) o)
  | (Err e, s') =>
      (fault = Some e \/ exists ref o, r_orders s !! ref = Some o /\ refused (env ref) e) /\
      forall ref, r_orders s' !! ref = r_orders s !! ref \/
                  r_orders s' !! ref = settle (env ref) <$> r_orders s !! ref
  end.
Proof.
  unfold resolve_all, all_orders, unknown_rows. destruct fault as [e|]; [by eauto|].
  set (l := sort_by_ref (map_to_list (r_orders s)).*2).
  destruct (resolve_loop env l s) as [res s'] eqn:E.
  apply resolve_loop_spec in E;
    [|by apply listing_nodup|intros o Ho; by apply listing_elem in Ho|intros o _; apply Hroom].
  destruct res as [out|e].
  - destruct E as (Hs & -> & Ht). split; [|done]. intros ref. rewrite Hs.
    case_bool_decide as Hr; [done|]. destruct (r_orders s !! ref) as [o|] eqn:Ho; [|done]. destruct Hr.
    rewrite <- (Hkeyed _ _ Ho). apply list_elem_of_fmap_2, listing_elem; [done|]. by rewrite (Hkeyed _ _ Ho).
  - destruct E as [(o & Ho & Hr) Hs]. split.
    + right. exists (order_ref o), o. split; [by apply listing_elem in Ho|done].
    + intros ref. destruct (Hs ref) as [?|[_ ?]]; auto.
Qed.

Definition sample_unknown (ref : string) : Order :=
  make_order (with_client_ref ref sample_intent) Unknown.
Definition sample_resolver : ResolverState :=
  mkResolverState {["a" := sample_unknown "a"]} engine_init [].
Definition broker_row : Order :=
  mkOrder (with_client_ref "a" sample_intent) Sent "b-9" (quantity_of 20) (from_paise 9990).
Definition sample_resolver_env (_ : string) : ResolverEnv := mkResolverEnv (Ok [broker_row]) None.

Lemma resolve_all_settles_witness :
  (exists out s', resolve_all sample_resolver_env None sample_resolver = (Ok out, s') /\
    map state (omap resolved out) = [PartiallyFilled]) /\
  match resolve_all sample_resolver_env None sample_resolver with
  | (Ok _, s') => r_orders s' !! "a" = Some (adopted (sample_unknown "a") broker_row)
  | (Err _, _) => False
  end.
Proof.
  split; [eexists _, _; split; vm_compute; reflexivity|].
  assert (keyed (r_orders sample_resolver)) as Hk
    by (intros ref o H; simpl in H; apply lookup_singleton_Some in H as [<- <-]; reflexivity).
  assert (is_ok (fst (resolve_all sample_resolver_env None sample_resolver)) = true) as Hok
    by (vm_compute; reflexivity).
  pose proof (resolve_all_settles sample_resolver_env None sample_resolver Hk
    (fun ref k (H : last_key engine_init ref = Some k) => ltac:(discriminate H))) as H.
  destruct (resolve_all sample_resolver_env None sample_resolver) as [[out|e] s'] eqn:E; [|discriminate Hok].
  rewrite (proj1 H "a"). vm_compute. reflexivity.
Defined.

(** An order the broker lists under another id and another client reference is
    adopted on its terms alone, although the local order has both ids. *)
Example foreign_order_adopted :
  classify (with_broker_order_id "b-1" (sample_unknown "a"))
    [mkOrder (with_client_ref "z" sample_intent) Filled "b-2" (quantity_of 50) (from_paise 10000)]
  = (AttributeCorroboration,
     Some (mkOrder (with_client_ref "z" sample_intent) Filled "b-2" (quantity_of 50) (from_paise 10000))).
Proof. reflexivity. Qed.

(** ** The pause *)

Inductive pause_op := Mark (ref : string) | Clear (ref : string).

Definition run_pause (p : UnknownPause) (op : pause_op) : UnknownPause :=
  match op with Mark ref => mark_unknown ref p | Clear ref => clear ref p end.

Definition op_ref (op : pause_op) : string := match op with Mark ref | Clear ref => ref end.

(** [ref] was marked and not cleared since. *)
Definition open_unknown (ops : list pause_op) (ref : string) : Prop :=
  exists before after, ops = before ++ Mark ref :: after /\ Clear ref ∉ after.

Lemma open_unknown_snoc ops op ref :
  open_unknown (ops ++ [op]) ref <-> op = Mark ref \/ (op <> Clear ref /\ open_unknown ops ref).
Proof.
  split.
  - intros (b & a & Heq & Ha). destruct a as [|x a _] using rev_ind.
    + apply app_inj_2 in Heq as [_ [= ->]]; [by left|done].
    + replace (b ++ Mark ref :: a ++ [x]) with ((b ++ Mark ref :: a) ++ [x]) in Heq
        by (by rewrite <- app_assoc).
      apply app_inj_2 in Heq as [-> [= ->]]; [|done]. right.
      split; [set_solver|]. exists b, a. set_solver.
  - intros [->|[Hne (b & a & -> & Ha)]]; [exists ops, []; set_solver|].
    exists b, (a ++ [op]). rewrite <- app_assoc. set_solver.
Qed.

(** whatever marks and clears came before, in any order and with any
    repetition, a risk-reducing exit is allowed, and an entry is allowed exactly
    when no reference was marked without a later clear of that reference. *)
Theorem pause_exact (ops : list pause_op) :
  let p := fold_left run_pause ops pause_init in
  allows p true = true /\
  (allows p false = true <-> forall ref, ~ open_unknown ops ref) /\
  (forall ref, ref ∈ outstanding_refs p <-> open_unknown ops ref).
Proof.
  intros p. assert (forall ref, ref ∈ outstanding_refs p <-> open_unknown ops ref) as H.
  { unfold p. induction ops as [|op ops IH] using rev_ind; intros ref.
    - simpl. split; [set_solver|]. intros (b & a & H & _). by destruct b.
    - rewrite fold_left_app, open_unknown_snoc. simpl.
      destruct op as [r|r]; simpl; specialize (IH ref); set_solver. }
  split; [done|]. split; [|exact H]. unfold allows, is_paused. rewrite negb_involutive, bool_decide_eq_true.
  split; intros Hp; [intros ref; rewrite <- H; set_solver|]. apply set_eq. intros ref. rewrite H. set_solver.
Qed.
