(* ===== verification/PriceBand.v ===== *)
(** * PriceBand: circuit and LPP bands (src/src/priceband/band_check.cpp)

    An entry priced outside a usable band is blocked, an exit is clamped to the
    band's edge, and an unusable band blocks nothing. *)

From S2P Require Import Prelude Errors Domain.

Inductive BandVerdict := WithinBand | OutsideBandBlocked | OutsideBandExitClamped | MarketUnchecked | BandUnknown.

#[export] Instance BandVerdict_eq_dec : EqDecision BandVerdict.
Proof. solve_decision. Defined.

Record PriceBand := mkBand { lower : Money; upper : Money; known : bool }.

Record BandCheckResult := mkBandResult {
  band_verdict : BandVerdict;
  band_blocked : bool;
  suggested_limit : Money;
  has_suggestion : bool;
  suggested_trigger : Money;
  has_trigger_suggestion : bool;
  band_detail : string;
}.

Definition band_verdict_to_string (v : BandVerdict) : string :=
  match v with
  | WithinBand => "within_band"
  | OutsideBandBlocked => "outside_band_blocked"
  | OutsideBandExitClamped => "outside_band_exit_clamped"
  | MarketUnchecked => "market_unchecked"
  | BandUnknown => "band_unknown"
  end.

Definition money_zero : Money := from_paise_money 0.

Definition clamp (price lower upper : Money) : Money :=
  if money_paise price <? money_paise lower then lower
  else if money_paise upper <? money_paise price then upper
  else price.

Definition in_band (price : Money) (band : PriceBand) : bool :=
  (money_paise (lower band) <=? money_paise price) && (money_paise price <=? money_paise (upper band)).

Definition has_limit_to_check (t : OrderType) : bool :=
  match t with Limit | StopLoss => true | _ => false end.

Definition has_trigger_to_check (t : OrderType) : bool :=
  match t with StopLoss | StopLossMarket => true | _ => false end.

(** The overload on explicit prices. *)
Definition check_prices (sd : Side) (t : OrderType) (limit_price trigger_price : Money) (band : PriceBand)
    (is_exit : bool) : BandCheckResult :=
  let plain v detail := mkBandResult v false money_zero false money_zero false detail in
  let band_usable := known band && (money_paise (lower band) <=? money_paise (upper band)) in
  if negb band_usable then plain BandUnknown "band unavailable — price not validated" else
  let check_limit := has_limit_to_check t in
  let check_trigger := has_trigger_to_check t in
  if negb check_limit && negb check_trigger
  then plain MarketUnchecked "market order — band not price-enforceable" else
  let limit_in := negb check_limit || in_band limit_price band in
  let trigger_in := negb check_trigger || in_band trigger_price band in
  if limit_in && trigger_in then plain WithinBand "within circuit/LPP band" else
  mkBandResult
    (if is_exit then OutsideBandExitClamped else OutsideBandBlocked)
    (negb is_exit)
    (if check_limit then clamp limit_price (lower band) (upper band) else money_zero) check_limit
    (if check_trigger then clamp trigger_price (lower band) (upper band) else money_zero) check_trigger
    (if is_exit then "exit priced outside band — clamped to band edge so it is not rejected"
     else "entry priced outside circuit/LPP band — blocked pre-submission (would be exchange-rejected)").

Definition require_prices_ok (sd : Side) (t : OrderType) (limit_price trigger_price : Money) (band : PriceBand)
    (is_exit : bool) : result unit :=
  let r := check_prices sd t limit_price trigger_price band is_exit in
  if negb (band_blocked r) then Ok tt
  else Err (set_action BlockStrategy (make_error Validation
         ("price band: " +:+ band_verdict_to_string (band_verdict r) +:+ " (" +:+ side_to_string sd +:+
          ") — entry outside circuit/LPP band") "")).

Definition as_money (p : Price) : Money := from_paise_money (price_paise p).

(** The overloads on an intent. *)
Definition check_price_band (i : OrderIntent) (band : PriceBand) (is_exit : bool) : BandCheckResult :=
  check_prices (side i) (order_type i) (as_money (price i))
    (as_money (default (from_paise 0) (trigger_price i))) band is_exit.

Definition require_band_ok (i : OrderIntent) (band : PriceBand) (is_exit : bool) : result unit :=
  require_prices_ok (side i) (order_type i) (as_money (price i))
    (as_money (default (from_paise 0) (trigger_price i))) band is_exit.

(** ** What the check promises *)

Definition usable (band : PriceBand) : Prop :=
  known band = true /\ money_paise (lower band) <= money_paise (upper band).

(** [p] lies in the band. *)
Definition within_band (band : PriceBand) (p : Z) : Prop :=
  money_paise (lower band) <= p <= money_paise (upper band).

(** Every price the order type uses lies in the band. *)
Definition prices_within (band : PriceBand) (i : OrderIntent) : Prop :=
  (has_limit_to_check (order_type i) = true -> within_band band (price_paise (price i))) /\
  (has_trigger_to_check (order_type i) = true ->
     within_band band (price_paise (default (from_paise 0) (trigger_price i)))).

Lemma in_band_true p band : in_band p band = true <-> within_band band (money_paise p).
Proof. unfold in_band, within_band. rewrite andb_true_iff, !Z.leb_le. tauto. Qed.

Lemma clamp_within p band : usable band ->
  within_band band (money_paise (clamp p (lower band) (upper band))).
Proof.
  intros [_ H]. unfold clamp, within_band. destruct (Z.ltb_spec (money_paise p) (money_paise (lower band))); [lia|].
  destruct (Z.ltb_spec (money_paise (upper band)) (money_paise p)); lia.
Qed.

Lemma clamp_id p band : within_band band (money_paise p) -> clamp p (lower band) (upper band) = p.
Proof.
  intros [H1 H2]. unfold clamp. destruct (Z.ltb_spec (money_paise p) (money_paise (lower band))); [lia|].
  destruct (Z.ltb_spec (money_paise (upper band)) (money_paise p)); [lia|done].
Qed.

Lemma clamp_mono p q band : usable band -> money_paise p <= money_paise q ->
  money_paise (clamp p (lower band) (upper band)) <= money_paise (clamp q (lower band) (upper band)).
Proof.
  intros [_ H] Hpq. unfold clamp.
  destruct (Z.ltb_spec (money_paise p) (money_paise (lower band)));
    destruct (Z.ltb_spec (money_paise q) (money_paise (lower band)));
    destruct (Z.ltb_spec (money_paise (upper band)) (money_paise p));
    destruct (Z.ltb_spec (money_paise (upper band)) (money_paise q)); lia.
Qed.

Lemma usable_true band :
  known band && (money_paise (lower band) <=? money_paise (upper band)) = true <-> usable band.
Proof. unfold usable. by rewrite andb_true_iff, Z.leb_le. Qed.

Lemma prices_within_true i band :
  (negb (has_limit_to_check (order_type i)) || in_band (as_money (price i)) band) &&
  (negb (has_trigger_to_check (order_type i)) ||
     in_band (as_money (default (from_paise 0) (trigger_price i))) band) = true <-> prices_within band i.
Proof.
  unfold prices_within. rewrite andb_true_iff, !orb_true_iff, !negb_true_iff, !in_band_true. simpl.
  destruct (has_limit_to_check _), (has_trigger_to_check _); intuition congruence.
Qed.

(** The result of the check of an intent, by cases. *)
Lemma check_price_band_cases i band is_exit :
  let r := check_price_band i band is_exit in
  (usable band /\ ~ prices_within band i /\
     band_blocked r = negb is_exit /\
     has_suggestion r = has_limit_to_check (order_type i) /\
     has_trigger_suggestion r = has_trigger_to_check (order_type i) /\
     (has_suggestion r = true ->
        suggested_limit r = clamp (as_money (price i)) (lower band) (upper band)) /\
     (has_trigger_suggestion r = true ->
        suggested_trigger r =
          clamp (as_money (default (from_paise 0) (trigger_price i))) (lower band) (upper band)) /\
     band_verdict r = if is_exit then OutsideBandExitClamped else OutsideBandBlocked) \/
  ((usable band -> prices_within band i) /\ band_blocked r = false /\
     has_suggestion r = false /\ has_trigger_suggestion r = false /\
     (band_verdict r = BandUnknown <-> ~ usable band)).
Proof.
  unfold check_price_band, check_prices.
  pose proof (usable_true band) as Hu. pose proof (prices_within_true i band) as Hp.
  destruct (known band && _) eqn:Eu; simpl; [|right; split_and!; [intros H%Hu; done|done..|intuition congruence]].
  assert (usable band) as Hub by (by apply Hu).
  destruct (negb (has_limit_to_check (order_type i)) && negb (has_trigger_to_check (order_type i))) eqn:Em; simpl.
  { right. split_and!; [|done..]. intros _. apply andb_true_iff in Em as [E1 E2].
    apply negb_true_iff in E1, E2. unfold prices_within. rewrite E1, E2. done. }
  destruct (_ && _) eqn:Ew in |- *; simpl.
  - right. split_and!; [intros _; by apply Hp|done..].
  - left. split_and!; try done; [intros H%Hp; congruence|by intros ->|by intros ->].
Qed.
Lemma band_entry_ok i band :
  require_band_ok i band false = Ok tt <-> (usable band -> prices_within band i).
Proof.
  unfold require_band_ok, require_prices_ok. fold (check_price_band i band false).
  destruct (check_price_band_cases i band false) as [(Hu & Hp & -> & _)|(Hp & -> & _)]; simpl; [|tauto].
  split; [discriminate|]. intros H. by destruct (Hp (H Hu)).
Qed.


(** an entry passes the band check exactly when the band is unusable or every
    price its order type uses lies inside it, and a refusal is a Validation error
    that blocks the strategy; an exit always passes; and whenever suggestions are
    offered, for an entry or an exit, they lie inside the band, leave a price that
    was already inside as it was, and keep the order between limit and trigger
    that the gate requires of a stop-loss. *)
Theorem band_exact i band is_exit :
  (require_band_ok i band false = Ok tt <-> (usable band -> prices_within band i)) /\
  (forall e, require_band_ok i band false = Err e -> category e = Validation /\ action e = BlockStrategy) /\
  require_band_ok i band true = Ok tt /\
  let r := check_price_band i band is_exit in
  (has_suggestion r = true ->
     within_band band (money_paise (suggested_limit r)) /\
     (within_band band (price_paise (price i)) -> suggested_limit r = as_money (price i))) /\
  (has_trigger_suggestion r = true ->
     within_band band (money_paise (suggested_trigger r)) /\
     (forall t, trigger_price i = Some t -> within_band band (price_paise t) -> suggested_trigger r = as_money t)) /\
  (has_suggestion r = true -> has_trigger_suggestion r = true -> forall t, trigger_price i = Some t ->
     (price_paise (price i) <= price_paise t -> money_paise (suggested_limit r) <= money_paise (suggested_trigger r)) /\
     (price_paise t <= price_paise (price i) -> money_paise (suggested_trigger r) <= money_paise (suggested_limit r))).
Proof.
  split_and!.
  - apply band_entry_ok.
  - intros e. unfold require_band_ok, require_prices_ok. destruct (negb _); [done|]. by intros [= <-].
  - unfold require_band_ok, require_prices_ok. fold (check_price_band i band true).
    by destruct (check_price_band_cases i band true) as [(_ & _ & -> & _)|(_ & -> & _)].
  - intros r. destruct (check_price_band_cases i band is_exit) as
      [(Hu & _ & _ & _ & _ & Hl & Ht & _)|(_ & _ & Hl & Ht & _)]; fold r in Hl, Ht; [|rewrite Hl, Ht; naive_solver].
    split_and!.
    + intros H. rewrite (Hl H). split; [by apply clamp_within|]. intros Hw. by apply clamp_id.
    + intros H. rewrite (Ht H). split; [by apply clamp_within|]. intros t -> Hw. by apply clamp_id.
    + intros H1 H2 t Heq. rewrite (Hl H1), (Ht H2), Heq. simpl. split; intros; by apply clamp_mono.
Qed.
