(* ===== verification/ModifyGuard.v ===== *)
(** * ModifyGuard: may a working order be amended? (src/src/modifyguard/modify_guard.cpp) *)

From S2P Require Import Prelude Errors Domain.

Inductive ModifyVerdict :=
  ModifyAllow | RejectQtyOnPartial | RejectShrinkBelowFilled | RejectRacedFill | RejectTerminal | RejectNotModifiable.

#[export] Instance ModifyVerdict_eq_dec : EqDecision ModifyVerdict.
Proof. solve_decision. Defined.

Record OrderModifyState := mkModifyState { mod_state : OrderState; mod_filled_qty : Z; mod_total_qty : Z }.

Record ModifyRequest := mkModifyRequest { changes_quantity : bool; changes_price : bool; new_total_qty : Z }.

Record ModifyResult := mkModifyResult { modify_verdict : ModifyVerdict; modify_allowed : bool; modify_detail : string }.

Definition modify_verdict_to_string (v : ModifyVerdict) : string :=
  match v with
  | ModifyAllow => "allow"
  | RejectQtyOnPartial => "reject_qty_on_partial"
  | RejectShrinkBelowFilled => "reject_shrink_below_filled"
  | RejectRacedFill => "reject_raced_fill"
  | RejectTerminal => "reject_terminal"
  | RejectNotModifiable => "reject_not_modifiable"
  end.

Definition detail_for (v : ModifyVerdict) (s : OrderState) : string :=
  modify_verdict_to_string v +:+ " [state=" +:+ order_state_to_string s +:+ "]".

Definition make_result (v : ModifyVerdict) (s : OrderState) : ModifyResult :=
  mkModifyResult v (bool_decide (v = ModifyAllow)) (detail_for v s).

Definition is_terminal_state (s : OrderState) : bool :=
  match s with Filled | Cancelled | Rejected => true | _ => false end.

Definition is_not_modifiable_base (s : OrderState) : bool :=
  match s with
  | Created | Validated | PendingSend | Sent | Unknown | ManualInterventionRequired | Reconciled
  | PartiallyPlaced => true
  | _ => false
  end.

Definition make_modify_request (current amended : OrderIntent) : ModifyRequest :=
  mkModifyRequest
    (negb (bool_decide (quantity current = quantity amended)))
    (negb (bool_decide (price current = price amended)) ||
     negb (bool_decide (trigger_price current = trigger_price amended)) ||
     negb (bool_decide (order_type current = order_type amended)))
    (quantity_value (quantity amended)).

Definition evaluate_modify (cur : OrderModifyState) (req : ModifyRequest) (observed_filled_qty : Z) : ModifyResult :=
  let s := mod_state cur in
  if is_terminal_state s then make_result RejectTerminal s
  else if is_not_modifiable_base s then make_result RejectNotModifiable s
  else if observed_filled_qty <? mod_filled_qty cur then make_result RejectRacedFill s
  else if changes_quantity req && bool_decide (s = PartiallyFilled) then make_result RejectQtyOnPartial s
  else if changes_quantity req && (new_total_qty req <=? mod_filled_qty cur) then make_result RejectShrinkBelowFilled s
  else make_result ModifyAllow s.
(** What an allowed amendment satisfies. *)
Definition amendable (cur : OrderModifyState) (observed : Z) (current amended : OrderIntent) : Prop :=
  (mod_state cur = Acknowledged \/ mod_state cur = PartiallyFilled) /\
  mod_filled_qty cur <= observed /\
  (quantity amended <> quantity current ->
     mod_state cur = Acknowledged /\ mod_filled_qty cur < quantity_value (quantity amended)).

Lemma modify_allowed_verdict cur req observed (r := evaluate_modify cur req observed) :
  modify_allowed r = true <-> modify_verdict r = ModifyAllow.
Proof. unfold r, evaluate_modify, make_result. repeat (split_match; simpl); rewrite ?bool_decide_eq_true; done. Qed.

Lemma modify_allowed_ok cur observed current amended :
  modify_allowed (evaluate_modify cur (make_modify_request current amended) observed) = true <->
  amendable cur observed current amended.
Proof.
  rewrite modify_allowed_verdict. unfold amendable, evaluate_modify, make_modify_request. simpl.
  destruct (Z.ltb_spec observed (mod_filled_qty cur));
    destruct (Z.leb_spec (quantity_value (quantity amended)) (mod_filled_qty cur));
    destruct (bool_decide_reflect (quantity current = quantity amended));
    destruct (mod_state cur) eqn:Es; simpl;
    (split; [try discriminate; intros _|intros ([[=]|[=]] & ? & Hq); try done]);
    split_and?; auto; try lia; try congruence; try (intros; split; [done|lia]);
    exfalso; (lia || (destruct Hq as [? ?]; [congruence|]; (done || lia))).
Qed.


(** an amendment is allowed exactly when the order is acknowledged or
    partially filled, no fill landed after the caller looked, and a change of
    quantity concerns an order without partial state and asks for more than is
    already filled; hence an allowed amendment of a partially filled order keeps
    the quantity of the current intent. *)
Theorem modify_exact cur observed current amended :
  let r := evaluate_modify cur (make_modify_request current amended) observed in
  (modify_allowed r = true <->
     amendable cur observed current amended) /\
  (modify_allowed r = true <-> modify_verdict r = ModifyAllow) /\
  (modify_allowed r = true -> mod_state cur = PartiallyFilled -> quantity amended = quantity current).
Proof.
  intros r. split; [apply modify_allowed_ok|]. split; [apply modify_allowed_verdict|].
  intros Ha%modify_allowed_ok Hs. destruct (decide (quantity amended = quantity current)) as [|Hne]; [done|].
  destruct Ha as (_ & _ & Hq). destruct (Hq Hne) as [? _]. congruence.
Qed.
