(* ===== verification/MarginSafety.v ===== *)
(** * MarginSafety: the buffered margin requirement
    (src/src/marginsafety/margin_buffer.cpp)

    Saturating 64-bit arithmetic on paise; every doubt rounds the requirement up. *)

From S2P Require Import Prelude Errors Domain.

Record MarginSafetyConfig := mkMarginConfig { buffer_bps : Z; flat_buffer : Money }.

Record MarginInputs := mkMarginInputs {
  api_required : Money;
  summed_leg_margin : Money;
  available : Money;
  is_multi_leg : bool;
  benefit_trusted : bool;
}.

Inductive MarginVerdict := Sufficient | InsufficientBlocked.

#[export] Instance MarginVerdict_eq_dec : EqDecision MarginVerdict.
Proof. solve_decision. Defined.

Record MarginSafetyResult := mkMarginResult {
  margin_verdict : MarginVerdict;
  margin_blocked : bool;
  base_required : Money;
  effective_required : Money;
  used_worst_case : bool;
  boundary_flagged : bool;
  margin_detail : string;
}.

Definition is_blocking (v : MarginVerdict) : bool := bool_decide (v = InsufficientBlocked).

Definition max_money (a b : Money) : Money := if money_paise b <=? money_paise a then a else b.

Definition sat_add (a b : Z) : Z :=
  if (0 <? b) && (int64_max - b <? a) then int64_max else to_i64 (a + b).

Definition bps_cushion (base_paise bps : Z) : Z :=
  if (base_paise <=? 0) || (bps <=? 0) then 0
  else if Z.quot (int64_max - 9999) bps <? base_paise then int64_max
  else Z.quot (to_i64 (base_paise * bps + 9999)) 10000.

Definition margin_verdict_to_string (v : MarginVerdict) : string :=
  match v with Sufficient => "Sufficient" | InsufficientBlocked => "InsufficientBlocked" end.

Definition flag (b : bool) : string := if b then "true" else "false".

Definition evaluate_margin (i : MarginInputs) (cfg : MarginSafetyConfig) : MarginSafetyResult :=
  let worst := is_multi_leg i && negb (benefit_trusted i) in
  let base := if worst then max_money (summed_leg_margin i) (api_required i) else api_required i in
  let base := max_money base (api_required i) in
  let bps := if 0 <? buffer_bps cfg then buffer_bps cfg else 0 in
  let flat := if 0 <? money_paise (flat_buffer cfg) then money_paise (flat_buffer cfg) else 0 in
  let cushion := bps_cushion (money_paise base) bps in
  let effective := sat_add (sat_add (money_paise base) flat) cushion in
  let eff := from_paise_money effective in
  let v := if effective <=? money_paise (available i) then Sufficient else InsufficientBlocked in
  mkMarginResult v (is_blocking v) base eff worst (negb (benefit_trusted i))
    (margin_verdict_to_string v +:+ ": effective_required " +:+ money_to_string eff +:+
     " (base " +:+ money_to_string base +:+ ") vs available " +:+ money_to_string (available i) +:+
     " [worst_case=" +:+ flag worst +:+ ", boundary_flagged=" +:+ flag (negb (benefit_trusted i)) +:+ "]").

Definition require_margin_ok (r : MarginSafetyResult) : result unit :=
  if negb (margin_blocked r) then Ok tt
  else Err (set_action BlockStrategy (make_error RiskRejected
         ("margin safety: " +:+ margin_verdict_to_string (margin_verdict r) +:+ " - effective_required " +:+
          money_to_string (effective_required r) +:+ " exceeds available funds (buffered requirement)") "")).

(** ** The requirement in exact arithmetic *)

(** The broker's figure, raised to the sum of the legs when a basket's benefit is
    not trusted. *)
Definition exact_base (i : MarginInputs) : Z :=
  if is_multi_leg i && negb (benefit_trusted i)
  then Z.max (money_paise (summed_leg_margin i)) (money_paise (api_required i))
  else money_paise (api_required i).

(** [ceil (base * bps / 10000)] for positive figures. *)
Definition exact_cushion (base bps : Z) : Z := (Z.max 0 base * Z.max 0 bps + 9999) / 10000.

Definition exact_required (i : MarginInputs) (cfg : MarginSafetyConfig) : Z :=
  exact_base i + Z.max 0 (money_paise (flat_buffer cfg)) + exact_cushion (exact_base i) (buffer_bps cfg).

Lemma max_money_paise a b : money_paise (max_money a b) = Z.max (money_paise a) (money_paise b).
Proof. unfold max_money. destruct (Z.leb_spec (money_paise b) (money_paise a)); lia. Qed.

Lemma sat_add_spec a b : is_int64 a -> is_int64 b -> 0 <= b -> sat_add a b = Z.min int64_max (a + b).
Proof.
  unfold_ints. intros Ha Hb Hb0. unfold sat_add, int64_max.
  destruct (Z.ltb_spec 0 b); destruct (Z.ltb_spec (2 ^ 63 - 1 - b) a); simpl;
    rewrite ?to_i64_small by (unfold_ints; lia); lia.
Qed.

(** The cushion is the exact one when the product fits 64 bits, and the largest
    integer otherwise. *)
Lemma bps_cushion_spec base bps : is_int64 base -> 0 <= bps <= int32_max ->
  let fits := (Z.max 0 base * bps + 9999 <=? int64_max) in
  bps_cushion base bps = if fits then exact_cushion base bps else int64_max.
Proof.
  intros Hb Hbps fits. unfold_ints. unfold bps_cushion, exact_cushion, fits, int64_max.
  destruct (Z.leb_spec base 0); simpl.
  { rewrite (Z.max_l 0 base), Z.mul_0_l by lia. simpl. destruct (Z.leb_spec 9999 (2 ^ 63 - 1)); [reflexivity|lia]. }
  rewrite !(Z.max_r 0) by lia. destruct (Z.leb_spec bps 0); simpl.
  { replace bps with 0 by lia. rewrite Z.mul_0_r. simpl.
    destruct (Z.leb_spec 9999 (2 ^ 63 - 1)); [reflexivity|lia]. }
  rewrite Z.quot_div_nonneg by lia.
  destruct (Z.ltb_spec ((2 ^ 63 - 1 - 9999) / bps) base) as [H1|H1];
    destruct (Z.leb_spec (base * bps + 9999) (2 ^ 63 - 1)) as [H2|H2].
  - exfalso. assert (base <= (2 ^ 63 - 1 - 9999) / bps); [|lia]. apply Z.div_le_lower_bound; lia.
  - reflexivity.
  - rewrite to_i64_small by (unfold_ints; nia). rewrite Z.quot_div_nonneg; [reflexivity|nia|lia].
  - exfalso. assert (bps * base <= 2 ^ 63 - 1 - 9999); [|lia].
    etrans; [|apply (Z.mul_div_le (2 ^ 63 - 1 - 9999) bps); lia]. apply Z.mul_le_mono_nonneg_l; lia.
Qed.

Record margin_in_range (i : MarginInputs) (cfg : MarginSafetyConfig) : Prop := {
  range_api : is_int64 (money_paise (api_required i));
  range_legs : is_int64 (money_paise (summed_leg_margin i));
  range_available : is_int64 (money_paise (available i));
  range_flat : is_int64 (money_paise (flat_buffer cfg));
  range_bps : is_int32 (buffer_bps cfg);
}.

Lemma exact_base_ge i : money_paise (api_required i) <= exact_base i.
Proof. unfold exact_base. destruct (_ && _); lia. Qed.

(** The two figures of the result, in the saturating operations. *)
Lemma evaluate_margin_figures i cfg :
  let r := evaluate_margin i cfg in
  money_paise (base_required r) = exact_base i /\
  money_paise (effective_required r) =
    sat_add (sat_add (exact_base i) (Z.max 0 (money_paise (flat_buffer cfg))))
      (bps_cushion (exact_base i) (Z.max 0 (buffer_bps cfg))).
Proof.
  intros r. assert (money_paise (base_required r) = exact_base i) as Hbase.
  { unfold r, evaluate_margin, exact_base. simpl. destruct (is_multi_leg i && _); rewrite !max_money_paise; lia. }
  split; [done|]. rewrite <- Hbase. unfold r, evaluate_margin. simpl. do 2 f_equal.
  - destruct (Z.ltb_spec 0 (money_paise (flat_buffer cfg))); lia.
  - f_equal. destruct (Z.ltb_spec 0 (buffer_bps cfg)); lia.
Qed.

Lemma effective_exact i cfg : margin_in_range i cfg ->
  let fits := Z.max 0 (exact_base i) * Z.max 0 (buffer_bps cfg) + 9999 <= int64_max in
  let eff := money_paise (effective_required (evaluate_margin i cfg)) in
  (fits -> eff = Z.min int64_max (exact_required i cfg)) /\ (~ fits -> eff = int64_max) /\
  exact_base i <= exact_required i cfg.
Proof.
  intros [Ha Hl Hv Hf Hb] fits eff.
  set (base := exact_base i) in *. set (flat := Z.max 0 (money_paise (flat_buffer cfg))).
  assert (is_int64 base) as Hib by (unfold base, exact_base; unfold_ints; destruct (_ && _); lia).
  destruct (evaluate_margin_figures i cfg) as [_ Heff]. fold eff base flat in Heff.
  assert (0 <= exact_cushion base (buffer_bps cfg)) as Hc by (unfold exact_cushion; apply Z.div_pos; nia).
  assert (sat_add base flat = Z.min int64_max (base + flat)) as Hs1
    by (unfold flat; apply sat_add_spec; unfold_ints; lia).
  assert (exact_cushion base (Z.max 0 (buffer_bps cfg)) = exact_cushion base (buffer_bps cfg)) as Hmax
    by (unfold exact_cushion; by rewrite Z.max_assoc).
  pose proof (bps_cushion_spec base (Z.max 0 (buffer_bps cfg)) Hib ltac:(unfold_ints; lia)) as Hcush.
  simpl in Hcush. rewrite Hmax in Hcush. split_and!.
  - intros Hfit. rewrite Heff, Hcush. rewrite (proj2 (Z.leb_le _ _)) by done.
    assert (exact_cushion base (buffer_bps cfg) <= int64_max) as Hle.
    { unfold exact_cushion. apply Z.div_le_upper_bound; [lia|]. unfold fits in Hfit. unfold_ints. nia. }
    rewrite Hs1, sat_add_spec by (unfold_ints; unfold flat; lia). unfold exact_required. fold base flat. lia.
  - intros Hfit. rewrite Heff, Hcush. unfold fits in Hfit.
    destruct (Z.leb_spec (Z.max 0 base * Z.max 0 (buffer_bps cfg) + 9999) int64_max); [lia|].
    rewrite Hs1, sat_add_spec by (unfold_ints; unfold flat; lia).
    assert (0 < base) by (unfold_ints; nia). unfold_ints. unfold flat. lia.
  - unfold exact_required. fold base flat. unfold flat. lia.
Qed.

Lemma require_margin_ok_spec i cfg :
  let r := evaluate_margin i cfg in
  require_margin_ok r = Ok tt <-> money_paise (effective_required r) <= money_paise (available i).
Proof.
  unfold require_margin_ok, evaluate_margin. simpl. unfold is_blocking.
  match goal with |- context [?a <=? ?b] => destruct (Z.leb_spec a b) end; simpl;
    split; intros ?; (done || discriminate || lia).
Qed.

(** the enforced requirement is the base plus the flat cushion plus the
    rounded-up basis-point cushion, computed exactly and capped at the largest
    64-bit amount; only when the basis-point product leaves 64 bits is it that
    largest amount although the exact figure may be smaller. It is never below
    the broker's own figure nor, short of the cap, below the exact requirement,
    and the verdict blocks exactly when the available margin does not cover it.
    No negative buffer setting lowers it. *)
Theorem margin_exact i cfg (H : margin_in_range i cfg) :
  let r := evaluate_margin i cfg in
  let fits := Z.max 0 (exact_base i) * Z.max 0 (buffer_bps cfg) + 9999 <= int64_max in
  money_paise (base_required r) = exact_base i /\
  (fits -> money_paise (effective_required r) = Z.min int64_max (exact_required i cfg)) /\
  (~ fits -> money_paise (effective_required r) = int64_max) /\
  money_paise (api_required i) <= money_paise (effective_required r) /\
  (require_margin_ok r = Ok tt <-> money_paise (effective_required r) <= money_paise (available i)) /\
  (require_margin_ok r = Ok tt -> exact_required i cfg <= money_paise (available i) \/
                                  money_paise (available i) = int64_max) /\
  (forall e, require_margin_ok r = Err e -> category e = RiskRejected /\ action e = BlockStrategy).
Proof.
  intros r fits. destruct (effective_exact i cfg H) as (H1 & H2 & H3). fold r fits in H1, H2.
  pose proof (exact_base_ge i). pose proof (require_margin_ok_spec i cfg) as Hok. fold r in Hok.
  destruct H as [Ha _ Hv _ _].
  assert (money_paise (effective_required r) = Z.min int64_max (exact_required i cfg) \/
          money_paise (effective_required r) = int64_max) as Hcase
    by (destruct (decide (Z.max 0 (exact_base i) * Z.max 0 (buffer_bps cfg) + 9999 <= int64_max)); auto).
  split_and!; [apply evaluate_margin_figures|done..| |done| |].
  - unfold_ints. lia.
  - intros Hm%Hok. unfold_ints. lia.
  - intros e. unfold require_margin_ok. destruct (negb _); [done|]. by intros [= <-].
Qed.

Definition sample_margin : MarginInputs :=
  mkMarginInputs (from_paise_money 1000001) (from_paise_money 0) (from_paise_money 1050002) false true.
Definition sample_margin_config : MarginSafetyConfig := mkMarginConfig 500 (from_paise_money 0).

Lemma margin_exact_witness :
  margin_in_range sample_margin sample_margin_config /\
  money_paise (effective_required (evaluate_margin sample_margin sample_margin_config)) = 1050002.
Proof.
  assert (margin_in_range sample_margin sample_margin_config) as H
    by (by constructor; unfold_ints; simpl).
  split; [exact H|].
  destruct (margin_exact sample_margin sample_margin_config H) as (_ & Hfit & _).
  rewrite Hfit; [reflexivity|]. vm_compute. discriminate.
Defined.
