(* ===== verification/Modes.v ===== *)
(** * Modes: postures, kill switches and trading modes (src/src/modes/)

    The severity order of the degradation postures (posture.cpp), the kill set
    and the control plane that feeds it from another thread (killswitch.cpp), and
    the table of trading modes (trading_mode.cpp). *)

From S2P Require Import Prelude Errors.

(** ** Postures *)

Inductive Posture := PNormal | PBlockEntries | PExitOnly | PSoftKill | PPanic.

Inductive DetectorSignal :=
  StaleData | MuteFeed | UnknownOrder | Mismatch | SessionExpiry | BrokerDown | ClockSkew | ClockStall
  | ResourcePressure | RiskBreach.

Inductive HealthSignal :=
  HealthMuteFeed | DiskPressure | MemoryPressure | HandlePressure | HealthClockSkew | HealthClockStall.

Inductive AlertLevel := AlertInfo | AlertWarning | AlertError | AlertCritical.

#[export] Instance Posture_eq_dec : EqDecision Posture.
Proof. solve_decision. Defined.
#[export] Instance DetectorSignal_eq_dec : EqDecision DetectorSignal.
Proof. solve_decision. Defined.

(** [static_cast<int>(p)]. *)
Definition severity (p : Posture) : Z :=
  match p with PNormal => 0 | PBlockEntries => 1 | PExitOnly => 2 | PSoftKill => 3 | PPanic => 4 end.

Definition level_for (p : Posture) : AlertLevel :=
  match p with
  | PBlockEntries => AlertWarning
  | PExitOnly | PSoftKill => AlertError
  | PPanic => AlertCritical
  | PNormal => AlertWarning
  end.

Definition posture_to_string (p : Posture) : string :=
  match p with
  | PNormal => "Normal"
  | PBlockEntries => "BlockEntries"
  | PExitOnly => "ExitOnly"
  | PSoftKill => "SoftKill"
  | PPanic => "Panic"
  end.

Definition detector_to_string (s : DetectorSignal) : string :=
  match s with
  | StaleData => "StaleData"
  | MuteFeed => "MuteFeed"
  | UnknownOrder => "Unknown"
  | Mismatch => "Mismatch"
  | SessionExpiry => "SessionExpiry"
  | BrokerDown => "BrokerDown"
  | ClockSkew => "ClockSkew"
  | ClockStall => "ClockStall"
  | ResourcePressure => "ResourcePressure"
  | RiskBreach => "RiskBreach"
  end.

Definition posture_for (s : DetectorSignal) : Posture :=
  match s with
  | StaleData | MuteFeed | UnknownOrder | Mismatch | SessionExpiry => PBlockEntries
  | BrokerDown | ClockSkew | ClockStall | ResourcePressure => PExitOnly
  | RiskBreach => PSoftKill
  end.

Definition evaluate (active : list DetectorSignal) (operator_floor : Posture) : Posture :=
  fold_left (fun result s =>
    let candidate := posture_for s in
    if severity result <? severity candidate then candidate else result) active operator_floor.

Definition allows_entries (p : Posture) : bool := bool_decide (p = PNormal).
Definition posture_allows_exits (p : Posture) : bool := negb (bool_decide (p = PPanic)).

Definition require_entry_allowed (p : Posture) : result unit :=
  if bool_decide (p = PNormal) then Ok tt
  else Err (set_action BlockStrategy
         (make_error RiskRejected ("posture " +:+ posture_to_string p +:+ " blocks new entries") "")).

Definition from_health (h : HealthSignal) : DetectorSignal :=
  match h with
  | HealthMuteFeed => MuteFeed
  | HealthClockSkew => ClockSkew
  | HealthClockStall => ClockStall
  | DiskPressure | MemoryPressure | HandlePressure => ResourcePressure
  end.

(** The posture and the alerts sent. *)
Definition evaluate_and_alert (active : list DetectorSignal) (operator_floor : Posture) :
    Posture * list (AlertLevel * string) :=
  let p := evaluate active operator_floor in
  (p, if bool_decide (p = PNormal) then []
      else [(level_for p, "degradation posture: " +:+ posture_to_string p)]).

(** ** Kill switches *)

Inductive KillType := SoftKillType | StrategyKill | BrokerKill | AccountKill | PanicKill.

#[export] Instance KillType_eq_dec : EqDecision KillType.
Proof. solve_decision. Defined.

Record KillCommand := mkKill { kill_type : KillType; kill_scope : string }.

#[export] Instance KillCommand_eq_dec : EqDecision KillCommand.
Proof. solve_decision. Defined.

Definition kill_type_to_string (t : KillType) : string :=
  match t with
  | SoftKillType => "Soft"
  | StrategyKill => "Strategy"
  | BrokerKill => "Broker"
  | AccountKill => "Account"
  | PanicKill => "Panic"
  end.

Definition is_broad (t : KillType) : bool := negb (bool_decide (t = StrategyKill)).

Definition validate_kill (c : KillCommand) : result unit :=
  if bool_decide (kill_type c = StrategyKill) && String.eqb (kill_scope c) ""
  then Err (make_error Validation "kill rejected: Strategy kill requires a scope" "")
  else if (bool_decide (kill_type c = SoftKillType) || bool_decide (kill_type c = PanicKill)) &&
          negb (String.eqb (kill_scope c) "")
  then Err (make_error Validation
         ("kill rejected: " +:+ kill_type_to_string (kill_type c) +:+ " kill must not carry a scope") "")
  else Ok tt.

(** [active_]. *)
Definition KillState := list KillCommand.

Definition kill_apply (s : KillState) (c : KillCommand) : KillState :=
  if bool_decide (c ∈ s) then s else s ++ [c].

Definition panic_active (s : KillState) : bool := existsb (fun c => bool_decide (kill_type c = PanicKill)) s.
Definition any_active (s : KillState) : bool := negb (bool_decide (s = [])).
Definition blocks_entries (s : KillState) : bool := any_active s.
Definition blocks_strategy (s : KillState) (strategy : string) : bool :=
  existsb (fun c => is_broad (kill_type c) || String.eqb (kill_scope c) strategy) s.
Definition kills_allow_exits (s : KillState) : bool := negb (panic_active s).

Definition kill_posture (s : KillState) : Posture :=
  if panic_active s then PPanic else if any_active s then PSoftKill else PNormal.

(** [submit] up to the persist: its answers are what the two injected callbacks
    return. [None] is a submit that never reached the persist. *)
Definition submit_persist (c : KillCommand) (authenticated : bool) (persisted : result unit) :
    result unit * option KillCommand :=
  match validate_kill c with
  | Err e => (Err e, None)
  | Ok _ =>
      if negb authenticated
      then (Err (make_error Auth "kill rejected: unauthenticated control command" ""), None)
      else (persisted, Some c)
  end.

Definition enqueue (queue : list KillCommand) (c : KillCommand) : list KillCommand := queue ++ [c].

Definition submit (queue : list KillCommand) (c : KillCommand) (authenticated : bool) (persisted : result unit) :
    result unit * list KillCommand :=
  match submit_persist c authenticated persisted with
  | (Ok _, _) => (Ok tt, enqueue queue c)
  | (Err e, _) => (Err e, queue)
  end.

Definition drain (queue : list KillCommand) : list KillCommand * list KillCommand := (queue, []).

Definition kill_replay (s : KillState) (loaded : result (list KillCommand)) : result unit * KillState :=
  match loaded with
  | Err e => (Err e, s)
  | Ok l => (Ok tt, fold_left kill_apply l s)
  end.

(** ** Trading modes *)

Inductive TradingMode := Live | Paper | DryRun | Replay | MonitorOnly | ExitOnlyMode | Emergency.
Inductive OrderOp := OpEntry | OpExit | OpCancel | OpSquareOff.

#[export] Instance TradingMode_eq_dec : EqDecision TradingMode.
Proof. solve_decision. Defined.
#[export] Instance OrderOp_eq_dec : EqDecision OrderOp.
Proof. solve_decision. Defined.

Record ModePolicy := make_policy {
  allows_entry : bool; allows_exit : bool; live_execution : bool; read_only : bool; replay_clock : bool;
}.

Definition mode_to_string (m : TradingMode) : string :=
  match m with
  | Live => "live"
  | Paper => "paper"
  | DryRun => "dry_run"
  | Replay => "replay"
  | MonitorOnly => "monitor_only"
  | ExitOnlyMode => "exit_only"
  | Emergency => "emergency"
  end.

Definition order_op_to_string (o : OrderOp) : string :=
  match o with OpEntry => "entry" | OpExit => "exit" | OpCancel => "cancel" | OpSquareOff => "square_off" end.

Definition policy_for (m : TradingMode) : ModePolicy :=
  match m with
  | Live => make_policy true true true false false
  | Paper => make_policy true true false false false
  | DryRun => make_policy true true false false false
  | Replay => make_policy false false false true true
  | MonitorOnly => make_policy false false false true false
  | ExitOnlyMode => make_policy false true true false false
  | Emergency => make_policy false true true false false
  end.

Definition can_place_entry (m : TradingMode) : bool := allows_entry (policy_for m).
Definition can_place_exit (m : TradingMode) : bool := allows_exit (policy_for m).
Definition will_execute_live (m : TradingMode) : bool := live_execution (policy_for m).
Definition uses_recorded_clock (m : TradingMode) : bool := replay_clock (policy_for m).

Definition blocked (c : ErrorCategory) (m : TradingMode) (o : OrderOp) (reason : string) : Error :=
  set_action DoNotRetry (make_error c
    ("mode " +:+ mode_to_string m +:+ ": " +:+ reason +:+ " (" +:+ order_op_to_string o +:+ " not allowed)") "").

Definition require_op_allowed (m : TradingMode) (o : OrderOp) : result unit :=
  let policy := policy_for m in
  if read_only policy then Err (blocked NotSupported m o "is read-only")
  else if bool_decide (m = Emergency) then
    if bool_decide (o = OpCancel) || bool_decide (o = OpSquareOff) then Ok tt
    else Err (blocked RiskRejected m o "permits only cancel/square-off")
  else if bool_decide (o = OpEntry) && negb (allows_entry policy)
  then Err (blocked NotSupported m o "does not allow entries")
  else Ok tt.

(** ** The posture is the severest of what is asked for *)

Lemma severity_inj p q : severity p = severity q -> p = q.
Proof. by destruct p, q. Qed.

Lemma evaluate_cons s active floor :
  evaluate (s :: active) floor =
  evaluate active (if severity floor <? severity (posture_for s) then posture_for s else floor).
Proof. reflexivity. Qed.

Lemma evaluate_max active : forall floor,
  severity floor <= severity (evaluate active floor) /\
  (forall s, s ∈ active -> severity (posture_for s) <= severity (evaluate active floor)) /\
  (evaluate active floor = floor \/ exists s, s ∈ active /\ evaluate active floor = posture_for s).
Proof.
  induction active as [|s l IH]; intros floor.
  - split_and!; [reflexivity|intros s Hs; by apply elem_of_nil in Hs|by left].
  - rewrite evaluate_cons. set (f := if severity floor <? _ then _ else _).
    assert (severity floor <= severity f /\ severity (posture_for s) <= severity f) as [H1 H2]
      by (unfold f; destruct (Z.ltb_spec (severity floor) (severity (posture_for s))); lia).
    destruct (IH f) as (I1 & I2 & I3). split_and!; [lia| |].
    + intros x [->|Hx]%elem_of_cons; [lia|auto].
    + destruct I3 as [->|(x & Hx & ->)]; [|right; exists x; set_solver].
      unfold f. destruct (severity floor <? _); [right; exists s; set_solver|by left].
Qed.

Lemma detector_not_panic s : posture_for s <> PPanic /\ posture_for s <> PNormal.
Proof. by destruct s. Qed.

Lemma entry_open active floor :
  require_entry_allowed (evaluate active floor) = Ok tt <-> floor = PNormal /\ active = [].
Proof.
  destruct (evaluate_max active floor) as (H1 & H2 & _). unfold require_entry_allowed.
  destruct (bool_decide_reflect (evaluate active floor = PNormal)) as [Hp|Hp].
  - split; [intros _|done]. rewrite Hp in H1, H2. destruct active as [|s l].
    + split; [|done]. apply severity_inj. destruct floor; simpl in *; lia.
    + specialize (H2 s ltac:(set_solver)). destruct (detector_not_panic s) as [_ Hd].
      destruct (posture_for s); simpl in H2; (lia || done).
  - split; [done|]. by intros [-> ->].
Qed.

Lemma exit_closed active floor :
  posture_allows_exits (evaluate active floor) = false <-> floor = PPanic.
Proof.
  destruct (evaluate_max active floor) as (H1 & _ & H3). unfold posture_allows_exits.
  rewrite negb_false_iff, bool_decide_eq_true.
  split; [|intros ->; destruct (evaluate active PPanic); simpl in *; (lia || done)].
  intros Hp. destruct H3 as [H3|(s & _ & H3)]; [congruence|]. pose proof (detector_not_panic s). intuition congruence.
Qed.

(** the posture is the severest of the operator's floor and what each active
    detector asks for. Entries are open exactly when the floor is Normal and no
    detector is active; risk-reducing exits are closed exactly when the operator
    asked for Panic, whatever the detectors say; and an alert is sent exactly when
    the posture is not Normal. *)
Theorem posture_severest active floor :
  let p := evaluate active floor in
  (severity floor <= severity p /\ (forall s, s ∈ active -> severity (posture_for s) <= severity p) /\
   (p = floor \/ exists s, s ∈ active /\ p = posture_for s)) /\
  (require_entry_allowed p = Ok tt <-> floor = PNormal /\ active = []) /\
  (posture_allows_exits p = false <-> floor = PPanic) /\
  (length (evaluate_and_alert active floor).2 = if allows_entries p then 0 else 1)%nat.
Proof.
  split; [apply evaluate_max|]. split; [apply entry_open|]. split; [apply exit_closed|].
  unfold evaluate_and_alert, allows_entries. simpl. by destruct (bool_decide _).
Qed.

(** the mode table, with DryRun allowing an operation that is never sent: an
    operation is allowed exactly where the mode's contract allows it; only a live
    mode sends; an entry is both allowed and sent in Live alone, and a mode that
    allows an entry or a generic exit says so in its coarse flags. *)
Theorem mode_exact m o :
  (require_op_allowed m o = Ok tt <->
     match m with
     | Live | Paper | DryRun => True
     | Replay | MonitorOnly => False
     | ExitOnlyMode => o <> OpEntry
     | Emergency => o = OpCancel \/ o = OpSquareOff
     end) /\
  (require_op_allowed m OpEntry = Ok tt /\ will_execute_live m = true <-> m = Live) /\
  (require_op_allowed m OpEntry = Ok tt <-> can_place_entry m = true) /\
  (require_op_allowed m OpExit = Ok tt -> can_place_exit m = true) /\
  (uses_recorded_clock m = true -> require_op_allowed m o <> Ok tt /\ will_execute_live m = false).
Proof.
  split_and!; destruct m, o; unfold require_op_allowed, will_execute_live, can_place_entry, can_place_exit,
    uses_recorded_clock; simpl; intuition (congruence || discriminate).
Qed.

(** ** The control plane

    One control thread submits while the main loop drains; a crash may come at
    any step, and the process that starts again has no kill in force until
    [KillController::replay] is run, which main.cpp does not do. [persisted] is what
    the persist callback made durable, the journal a replay loads. The others are
    ghost: [acked] the commands a submit answered [ok] for, [accepted] the ones
    persisted for an authenticated caller, [recent] those acknowledged since the
    process started, [restored] whether it has replayed the journal, or is the first
    process. *)

Record KillPlane := mkPlane {
  kp_pending : option KillCommand;
  kp_queue : list KillCommand;
  kp_batch : list KillCommand;
  kp_live : KillState;
  kp_persisted : list KillCommand;
  kp_acked : list KillCommand;
  kp_accepted : list KillCommand;
  kp_recent : list KillCommand;
  kp_restored : bool;
}.

Definition plane_init : KillPlane := mkPlane None [] [] [] [] [] [] [] true.

(** What a persist that answered [ans] did to the journal: a failed one may still have
    made the command durable. *)
Definition journaled (c : KillCommand) (ans : result unit) (p p' : list KillCommand) : Prop :=
  match ans with Ok _ => p' = p ++ [c] | Err _ => p' = p \/ p' = p ++ [c] end.

Inductive plane_step : KillPlane -> KillPlane -> Prop :=
  | submit_refused c auth ans e q b s p a acc f ok :
      submit_persist c auth ans = (Err e, None) ->
      plane_step (mkPlane None q b s p a acc f ok) (mkPlane None q b s p a acc f ok)
  | submit_persist_failed c auth ans e q b s p p' a acc f ok :
      submit_persist c auth ans = (Err e, Some c) -> journaled c ans p p' ->
      plane_step (mkPlane None q b s p a acc f ok)
        (mkPlane None q b s p' a (if auth then acc ++ [c] else acc) f ok)
  | submit_persisted c auth ans q b s p p' a acc f ok :
      submit_persist c auth ans = (Ok tt, Some c) -> journaled c ans p p' ->
      plane_step (mkPlane None q b s p a acc f ok)
        (mkPlane (Some c) q b s p' a (if auth then acc ++ [c] else acc) f ok)
  | submit_enqueued c q b s p a acc f ok :
      plane_step (mkPlane (Some c) q b s p a acc f ok) (mkPlane None (enqueue q c) b s p (a ++ [c]) acc (f ++ [c]) ok)
  | loop_drained pd q s p a acc f ok :
      plane_step (mkPlane pd q [] s p a acc f ok) (mkPlane pd (drain q).2 (drain q).1 s p a acc f ok)
  | loop_applied pd q c b s p a acc f ok :
      plane_step (mkPlane pd q (c :: b) s p a acc f ok) (mkPlane pd q b (kill_apply s c) p a acc f ok)
  | restarted pd q b s p a acc f ok :
      plane_step (mkPlane pd q b s p a acc f ok) (mkPlane None [] [] [] p a acc [] false)
  | journal_replayed loaded pd q b s p a acc f ok :
      (* the loader hands over the journal or fails *)
      loaded = Ok p \/ is_ok loaded = false ->
      plane_step (mkPlane pd q b s p a acc f ok)
        (mkPlane pd q b (kill_replay s loaded).2 p a acc f (ok || is_ok (kill_replay s loaded).1)).

(** The acknowledged kills this process answers for. *)
Definition in_force (k : KillPlane) : list KillCommand := if kp_restored k then kp_acked k else kp_recent k.

Lemma kill_apply_elem s c x : x ∈ kill_apply s c <-> x = c \/ x ∈ s.
Proof. unfold kill_apply. case_bool_decide; set_solver. Qed.

Lemma kill_replay_elem l x : forall s, x ∈ fold_left kill_apply l s <-> x ∈ s \/ x ∈ l.
Proof.
  induction l as [|c l IH]; intros s; simpl; [set_solver|]. rewrite IH, kill_apply_elem. set_solver.
Qed.

Lemma submit_persist_valid c auth ans r c' : submit_persist c auth ans = (r, Some c') ->
  c' = c /\ r = ans /\ auth = true /\ validate_kill c = Ok tt.
Proof. unfold submit_persist. destruct (validate_kill c) as [[]|]; [|done]. destruct auth; [|done]. by intros [= <- <-]. Qed.

(** A command blocks the entries of a strategy. *)
Definition kill_covers (c : KillCommand) (strategy : string) : Prop :=
  kill_type c <> StrategyKill \/ kill_scope c = strategy.

Lemma blocks_strategy_true s strategy :
  blocks_strategy s strategy = true <-> exists c, c ∈ s /\ kill_covers c strategy.
Proof.
  unfold blocks_strategy, kill_covers, is_broad. rewrite existsb_exists. split.
  - intros (c & Hc & H). exists c. rewrite list_elem_of_In. split; [done|].
    apply orb_true_iff in H as [H|H]; to_prop; auto.
  - intros (c & Hc & H). exists c. rewrite <- list_elem_of_In. split; [done|]. apply orb_true_iff.
    destruct H as [H| <-]; [left; apply negb_true_iff, bool_decide_eq_false; done|right; apply String.eqb_refl].
Qed.

Lemma panic_active_true s : panic_active s = true <-> exists c, c ∈ s /\ kill_type c = PanicKill.
Proof.
  unfold panic_active. rewrite existsb_exists.
  setoid_rewrite list_elem_of_In. by setoid_rewrite bool_decide_eq_true.
Qed.

Lemma validate_kill_ok c : validate_kill c = Ok tt -> kill_type c = PanicKill -> kill_scope c = "".
Proof.
  unfold validate_kill. intros H Hp. rewrite Hp in H. simpl in H.
  by destruct (String.eqb_spec (kill_scope c) "").
Qed.

Record plane_inv (k : KillPlane) : Prop := {
  inv_live : forall c, c ∈ kp_live k ++ kp_batch k ++ kp_queue k -> c ∈ kp_persisted k;
  inv_pending : forall c, kp_pending k = Some c -> c ∈ kp_persisted k;
  inv_persisted : forall c, c ∈ kp_persisted k -> c ∈ kp_accepted k;
  inv_acked : forall c, c ∈ kp_acked k -> c ∈ kp_persisted k;
  inv_recent : forall c, c ∈ kp_recent k -> c ∈ kp_live k ++ kp_batch k ++ kp_queue k;
  inv_restored : kp_restored k = true -> forall c, c ∈ kp_acked k -> c ∈ kp_live k ++ kp_batch k ++ kp_queue k;
  inv_valid : forall c, c ∈ kp_accepted k -> validate_kill c = Ok tt;
}.

Lemma plane_inv_step k k' : plane_inv k -> plane_step k k' -> plane_inv k'.
Proof.
  intros [H1 H2 H3 H4 H5 H6 H7] Hs. destruct Hs as [| c auth ans e q b s p p' a acc f ok Hsub Hp
    | c auth ans q b s p p' a acc f ok Hsub Hp | c q b s p a acc f ok | pd q s p a acc f ok | pd q c b s p a acc f ok
    | pd q b s p a acc f ok | loaded pd q b s p a acc f ok Hl]; simpl in *; [by constructor|..].
  - apply submit_persist_valid in Hsub as (_ & <- & -> & Hv). constructor; simpl; destruct Hp as [->| ->]; set_solver.
  - apply submit_persist_valid in Hsub as (_ & <- & -> & Hv). simpl in Hp. subst p'. constructor; simpl; set_solver.
  - specialize (H2 c eq_refl). constructor; simpl; unfold enqueue; set_solver.
  - constructor; simpl; set_solver.
  - constructor; simpl; try done; [..|intros Hr]; intros x; rewrite !elem_of_app, kill_apply_elem; set_solver.
  - constructor; simpl; try done; set_solver.
  - destruct loaded as [l|e]; simpl in Hl.
    + destruct Hl as [[= ->]|?]; [|done]. constructor; simpl; try done; [..|intros _];
        intros x; rewrite !elem_of_app, kill_replay_elem; set_solver.
    + simpl. rewrite orb_false_r. by constructor.
Qed.

Lemma plane_reachable k : rtc plane_step plane_init k -> plane_inv k.
Proof.
  intros H. assert (plane_inv plane_init) as Hi by (constructor; simpl; set_solver).
  revert Hi. induction H as [|x y z Hs _ IH]; [done|]. intros Hi. apply IH. by eapply plane_inv_step.
Qed.

(** C18: however the control thread and the main loop interleave, and wherever the
    process dies and starts again, a kill that a submit acknowledged is durable. It
    is active or on its way to the loop as long as the process that acknowledged it
    lives, and in a later process once the journal has been replayed there; once the
    loop has drained and applied its batch, every strategy such a kill covers is
    blocked, and a Panic closes the exits too. Nothing is ever active that was not
    well formed, authenticated and persisted first. The replay is a step of its own:
    main.cpp never makes it, and [restart_forgets_kill] is what a restart of that
    program does. *)
Theorem acknowledged_kill_holds k (Hrun : rtc plane_step plane_init k) :
  (forall c, c ∈ kp_acked k -> c ∈ kp_persisted k) /\
  (forall c, c ∈ in_force k -> c ∈ kp_live k ++ kp_batch k ++ kp_queue k) /\
  (kp_batch k = [] -> kp_queue k = [] -> forall c, c ∈ in_force k ->
     (forall strategy, kill_covers c strategy -> blocks_strategy (kp_live k) strategy = true) /\
     severity PSoftKill <= severity (kill_posture (kp_live k)) /\
     (kill_type c = PanicKill -> kill_posture (kp_live k) = PPanic /\ kills_allow_exits (kp_live k) = false)) /\
  (forall c, c ∈ kp_live k -> c ∈ kp_persisted k /\ c ∈ kp_accepted k /\ validate_kill c = Ok tt).
Proof.
  apply plane_reachable in Hrun as [H1 H2 H3 H4 H5 H6 H7].
  assert (forall c, c ∈ in_force k -> c ∈ kp_live k ++ kp_batch k ++ kp_queue k) as Hin
    by (unfold in_force; destruct (kp_restored k); auto).
  split_and!; [done|done| |].
  - intros Hb Hq c Hc. apply Hin in Hc as Hl. rewrite Hb, Hq, !app_nil_r in Hl. split_and!.
    + intros strategy Hs. apply blocks_strategy_true. eauto.
    + unfold kill_posture, any_active. destruct (panic_active _); simpl; [lia|].
      destruct (bool_decide_reflect (kp_live k = [])) as [E|_]; simpl; [rewrite E in Hl; by apply elem_of_nil in Hl|lia].
    + intros Hp. unfold kill_posture, kills_allow_exits.
      assert (panic_active (kp_live k) = true) as -> by (apply panic_active_true; eauto). done.
  - intros c Hc. assert (c ∈ kp_persisted k) as Hp by (apply H1; set_solver). auto.
Qed.

Definition sample_panic : KillCommand := mkKill PanicKill "".

(** A Panic acknowledged and applied; the process starts again; the journal is
    replayed. *)
Definition plane_killed : KillPlane :=
  mkPlane None [] [] [sample_panic] [sample_panic] [sample_panic] [sample_panic] [sample_panic] true.
Definition plane_restarted : KillPlane := mkPlane None [] [] [] [sample_panic] [sample_panic] [sample_panic] [] false.
Definition plane_replayed : KillPlane :=
  mkPlane None [] [] [sample_panic] [sample_panic] [sample_panic] [sample_panic] [] true.

Lemma killed_run : rtc plane_step plane_init plane_killed.
Proof.
  eapply rtc_l; [exact (submit_persisted sample_panic true (Ok tt) [] [] [] [] [sample_panic] [] [] [] true eq_refl eq_refl)|].
  eapply rtc_l; [apply submit_enqueued|]. eapply rtc_l; [apply loop_drained|].
  eapply rtc_l; [apply loop_applied|]. apply rtc_refl.
Qed.

Lemma restarted_run : rtc plane_step plane_init plane_restarted.
Proof. eapply rtc_r; [apply killed_run|apply restarted]. Qed.

Lemma replayed_run : rtc plane_step plane_init plane_replayed.
Proof.
  eapply rtc_r; [apply restarted_run|].
  exact (journal_replayed (Ok [sample_panic]) None [] [] [] [sample_panic] [sample_panic] [sample_panic] [] false (or_introl eq_refl)).
Qed.

Lemma acknowledged_kill_holds_witness :
  blocks_strategy (kp_live plane_killed) "any" = true /\ kill_posture (kp_live plane_replayed) = PPanic.
Proof.
  destruct (acknowledged_kill_holds _ killed_run) as (_ & _ & Hc & _).
  destruct (acknowledged_kill_holds _ replayed_run) as (_ & _ & Hc' & _).
  split.
  - apply (Hc eq_refl eq_refl sample_panic (list_elem_of_here _ _)). left; discriminate.
  - apply (Hc' eq_refl eq_refl sample_panic (list_elem_of_here _ _)). reflexivity.
Defined.

(** The program as main.cpp composes it: after a restart the acknowledged Panic is in
    the journal and nothing is blocked. *)
Example restart_forgets_kill :
  rtc plane_step plane_init plane_restarted /\ kp_persisted plane_restarted = [sample_panic] /\
  kp_acked plane_restarted = [sample_panic] /\ kill_posture (kp_live plane_restarted) = PNormal /\
  blocks_strategy (kp_live plane_restarted) "any" = false.
Proof. split; [apply restarted_run|done]. Qed.

(** A Broker or Account kill needs no scope. *)
Example broker_kill_without_scope :
  validate_kill (mkKill BrokerKill "") = Ok tt /\ validate_kill (mkKill AccountKill "") = Ok tt.
Proof. by split. Qed.
