(* ===== verification/Redaction.v ===== *)
(** * Redaction: the secret scrubber and the provenance columns
    (src/src/domain/redaction.cpp)

    [scrub] walks a text once and replaces the value of a sensitive key, long
    mixed runs and short digit runs after an authentication word; typed columns
    that have the shape of an identifier are exempt. Strategy names are validated
    so that the references they mint keep that shape. *)

From S2P Require Import Prelude Errors Utf8.

(** ** Characters *)

Definition in_range (lo hi : nat) (c : ascii) : bool :=
  let n := nat_of_ascii c in (lo <=? n)%nat && (n <=? hi)%nat.

Definition is_upper_letter (c : ascii) : bool := in_range 65 90 c.
Definition is_letter (c : ascii) : bool := in_range 65 90 c || in_range 97 122 c.
Definition is_digit (c : ascii) : bool := in_range 48 57 c.
Definition is_hex_digit (c : ascii) : bool := is_digit c || in_range 97 102 c || in_range 65 70 c.
Definition is_token_char (c : ascii) : bool :=
  is_letter c || is_digit c || Ascii.eqb c "_" || Ascii.eqb c "-".
Definition is_alnum (c : ascii) : bool := is_letter c || is_digit c.
Definition is_provenance_id_char (c : ascii) : bool := is_token_char c || Ascii.eqb c "#".
(** Space and the five control characters 9 to 13. *)
Definition is_space (c : ascii) : bool := Ascii.eqb c " " || in_range 9 13 c.
Definition is_quote (c : ascii) : bool := Ascii.eqb c "034" || Ascii.eqb c "'".
Definition is_value_delim (c : ascii) : bool :=
  is_space c || is_quote c ||
  bool_decide (c ∈ ["&"; ","; ";"; "}"; "]"; ")"; "<"; ">"; "|"]%char).

(** ** Contexts *)

Definition kSensitiveKeyNeedles : list string :=
  ["token"; "secret"; "password"; "api_key"; "api-key"; "apikey"; "mpin"; "totp"; "bearer"].

Definition key_is_sensitive (key : list ascii) : bool :=
  existsb (contains_ci (str key)) kSensitiveKeyNeedles.

Definition kAuthContextNeedles : list string := ["mpin"; "totp"; "otp"; "pin"].

(** The needle occurs in the window as a word: no letter on either side. *)
Fixpoint word_in_window (needle : list ascii) (prev_letter : bool) (window : list ascii) : bool :=
  (prefix_ci (str needle) (str window) && negb prev_letter &&
   match drop (length needle) window with [] => true | c :: _ => negb (is_letter c) end) ||
  match window with
  | [] => false
  | c :: rest => word_in_window needle (is_letter c) rest
  end.

(** [seen] is the text before the position, nearest character first. *)
Definition auth_context_before (seen : list ascii) : bool :=
  let window := rev (take 10 seen) in
  existsb (fun needle => word_in_window (chars needle) false window) kAuthContextNeedles.

Definition run_has_letter_and_digit (run : list ascii) : bool :=
  existsb is_letter run && existsb is_digit run.

Definition run_is_all_digits (run : list ascii) : bool :=
  negb (bool_decide (run = [])) && forallb is_digit run.

(** The longest prefix that satisfies [p], and the rest. *)
Fixpoint span (p : ascii -> bool) (l : list ascii) : list ascii * list ascii :=
  match l with
  | [] => ([], [])
  | c :: r => if p c then let '(a, b) := span p r in (c :: a, b) else ([], l)
  end.

Definition kRedactionMarker : string := "***REDACTED***".
Definition marker : list ascii := chars kRedactionMarker.

Definition redact_nonempty (value : list ascii) : list ascii :=
  if bool_decide (value = []) then [] else marker.

(** [try_key_value]: what is appended to the output, and the text consumed with
    the text left. *)
Definition skip_quote (l : list ascii) : list ascii * list ascii :=
  match l with c :: r => if is_quote c then ([c], r) else ([], l) | [] => ([], []) end.

Definition try_key_value (l : list ascii) : option (list ascii * list ascii * list ascii) :=
  let '(key, l1) := span is_token_char l in
  if bool_decide (key = []) || negb (key_is_sensitive key) then None else
  let '(q, l2) := skip_quote l1 in
  let '(sp1, l3) := span is_space l2 in
  match l3 with
  | sepc :: l4 =>
      if negb (Ascii.eqb sepc ":" || Ascii.eqb sepc "=") then None else
      let '(sp2, l5) := span is_space l4 in
      let prefix := key ++ q ++ sp1 ++ sepc :: sp2 in
      match l5 with
      | c :: l6 =>
          if is_quote c then
            let '(value, l7) := span (fun x => negb (Ascii.eqb x c)) l6 in
            Some (prefix ++ c :: redact_nonempty value, prefix ++ c :: value, l7)
          else
            let '(value, l7) := span (fun x => negb (is_value_delim x)) l5 in
            Some (prefix ++ redact_nonempty value, prefix ++ value, l7)
      | [] => Some (prefix, prefix, [])
      end
  | [] => None
  end.

(** ** scrub *)

Definition at_boundary (seen : list ascii) : bool :=
  match seen with [] => true | p :: _ => negb (is_token_char p) end.

(** One token run that is not a sensitive key. *)
Definition scrub_run (seen run : list ascii) : list ascii :=
  if (20 <=? length run)%nat && run_has_letter_and_digit run then marker
  else if (4 <=? length run)%nat && (length run <=? 8)%nat && run_is_all_digits run && auth_context_before seen
  then marker
  else run.

(** The loop; every iteration consumes a character, so the length of the text is
    enough fuel. *)
Fixpoint scrub_loop (fuel : nat) (seen rest : list ascii) : list ascii :=
  match fuel with
  | O => []
  | S fuel =>
      match rest with
      | [] => []
      | c :: r =>
          if is_token_char c && at_boundary seen then
            match try_key_value rest with
            | Some (out, consumed, tail) => out ++ scrub_loop fuel (rev consumed ++ seen) tail
            | None =>
                let '(run, tail) := span is_token_char rest in
                scrub_run seen run ++ scrub_loop fuel (rev run ++ seen) tail
            end
          else c :: scrub_loop fuel (c :: seen) r
      end
  end.

Definition scrub_chars (l : list ascii) : list ascii := scrub_loop (length l) [] l.
Definition scrub (text : string) : string := str (scrub_chars (chars text)).

(** ** Identifier shapes *)

Definition kMaxProvenanceIdChars : nat := 128.

(** The loop over the characters: segments counted, and the state of the segment
    being read ([None] between segments). *)
Fixpoint id_shape_loop (segments : nat) (seg : option (bool * bool)) (l : list ascii) : option nat :=
  match l with
  | [] => Some segments
  | c :: r =>
      if negb (is_provenance_id_char c) then None
      else if is_alnum c then
        let '(segments, (letters, hex)) :=
          match seg with Some p => (segments, p) | None => (S segments, (true, true)) end in
        let letters := letters && is_letter c in
        let hex := hex && is_hex_digit c in
        if negb letters && negb hex then None
        else id_shape_loop segments (Some (letters, hex)) r
      else id_shape_loop segments None r
  end.

Definition is_provenance_id_shape (value : string) : bool :=
  let l := chars value in
  if bool_decide (l = []) || (kMaxProvenanceIdChars <? length l)%nat then false
  else match id_shape_loop 0 None l with Some n => (2 <=? n)%nat | None => false end.

Definition scrub_provenance_column (value : string) : string :=
  if is_provenance_id_shape value then value else scrub value.

Definition kMaxInstrumentSymbolChars : nat := 32.

Definition is_instrument_symbol_shape (value : string) : bool :=
  let l := chars value in
  negb (bool_decide (l = []) || (kMaxInstrumentSymbolChars <? length l)%nat) &&
  forallb (fun c => is_upper_letter c || is_digit c) l.

Definition scrub_symbol_column (value : string) : string :=
  if is_instrument_symbol_shape value then value else scrub value.

(** ** Strategy names *)

Definition kMaxStrategyNameChars : nat := 64.
Definition is_strategy_name_char (c : ascii) : bool := is_token_char c.

Definition homogeneous (seg : list ascii) : bool := forallb is_letter seg || forallb is_hex_digit seg.

(** The first alphanumeric run that is neither all letters nor all hex. *)
Fixpoint first_mixed_segment (fuel : nat) (l : list ascii) : list ascii :=
  match fuel with
  | O => []
  | S fuel =>
      match l with
      | [] => []
      | c :: r =>
          if negb (is_alnum c) then first_mixed_segment fuel r
          else let '(seg, tail) := span is_alnum l in
               if homogeneous seg then first_mixed_segment fuel tail else seg
      end
  end.

Definition mixed_segment (l : list ascii) : list ascii := first_mixed_segment (length l) l.

(** A dash between a letter and a non-letter of a mixed segment. *)
Fixpoint dash_segment (prev : ascii) (l : list ascii) : list ascii :=
  match l with
  | [] => []
  | c :: r =>
      (if Bool.eqb (is_letter c) (is_letter prev) then [c] else ["-"%char; c]) ++ dash_segment c r
  end.

Definition split_segment (seg : list ascii) : list ascii :=
  if bool_decide (mixed_segment seg = []) then seg
  else match seg with [] => [] | c :: r => c :: dash_segment c r end.

Fixpoint split_loop (fuel : nat) (l : list ascii) : list ascii :=
  match fuel with
  | O => []
  | S fuel =>
      match l with
      | [] => []
      | c :: r =>
          if negb (is_alnum c) then c :: split_loop fuel r
          else let '(seg, tail) := span is_alnum l in split_segment seg ++ split_loop fuel tail
      end
  end.

Definition split_mixed_segments (name : string) : string := str (split_loop (String.length name) (chars name)).

Definition sanitized_for_message (name : string) : string :=
  str (map (fun c => if is_strategy_name_char c then c else "?"%char) (take kMaxStrategyNameChars (chars name))).

Definition nat_str (n : nat) : string := pretty (Z.of_nat n).

(** [explain_invalid_strategy_name] with the number of nested calls allowed; the
    nested call is on the name with its mixed segments split. *)
Fixpoint explain (depth : nat) (name : string) : string :=
  if String.eqb name "" then
    "strategy name is EMPTY; it must be 1.." +:+ nat_str kMaxStrategyNameChars +:+
    " characters from [A-Za-z0-9_-], at least one of them a letter or digit, with each " +:+
    "'-'/'_'-separated segment all letters or all hex" else
  let shown := sanitized_for_message name in
  if (kMaxStrategyNameChars <? String.length name)%nat then
    "strategy name '" +:+ shown +:+ "' (truncated here) is " +:+ nat_str (String.length name) +:+
    " bytes; the maximum is " +:+ nat_str kMaxStrategyNameChars +:+
    " so that every client_ref it mints stays inside the " +:+ nat_str kMaxProvenanceIdChars +:+
    "-char provenance-id bound"
  else if negb (String.eqb (canonical_text name) name) then
    "strategy name '" +:+ shown +:+
    "' (bytes outside [A-Za-z0-9_-] shown as '?') is not valid UTF-8; an ill-formed name " +:+
    "travels raw through the store and the idempotency index and is normalised only at the " +:+
    "log writer, where the hash preimage and the stored bytes then disagree"
  else if negb (forallb is_strategy_name_char (chars name)) then
    "strategy name '" +:+ shown +:+
    "' (bytes outside [A-Za-z0-9_-] shown as '?') contains a character that is not in " +:+
    "[A-Za-z0-9_-]; a space, '.', '/', ':' or '#' makes the strategy column and every " +:+
    "client_ref it mints unloggable (both are then wholly redacted)"
  else if negb (existsb is_alnum (chars name)) then
    "strategy name '" +:+ shown +:+
    "' has no letter or digit; a name of only '-'/'_' separators renders a strategy " +:+
    "column that attributes an order to nothing at all, exactly as an empty name does"
  else if negb (bool_decide (mixed_segment (chars name) = [])) then
    let msg := "strategy name '" +:+ shown +:+ "': segment '" +:+ str (mixed_segment (chars name)) +:+
      "' mixes letters and digits (every segment of a client_ref must be all " +:+
      "letters or all hex, or the WHOLE ref stops being id-shaped and is redacted " +:+
      "in every alert and ledger entry)" in
    let suggestion := split_mixed_segments name in
    match depth with
    | O => msg
    | S depth =>
        if negb (String.eqb suggestion name) && String.eqb (explain depth suggestion) ""
        then msg +:+ "; use '" +:+ suggestion +:+ "'" else msg
    end
  else if negb (String.eqb (scrub_provenance_column name) name) then
    "strategy name '" +:+ shown +:+
    "' is a single un-separated run that domain::scrub cannot distinguish from a " +:+
    "credential, so the strategy column itself would be redacted; separate it with a '-' " +:+
    "or '_' (a name with two or more segments is exempt as a whole typed column)"
  else "".

Definition explain_invalid_strategy_name (name : string) : string := explain 2 name.
Definition is_valid_strategy_name (name : string) : bool := String.eqb (explain_invalid_strategy_name name) "".

(** ** The provenance block of a free-form body *)

Inductive ColumnKind := IdColumn | SymbolColumn.

Record ProvenanceField := mkField { field_key : string; field_value : string; field_kind : ColumnKind }.

Definition is_block_safe (rendered : string) : bool :=
  forallb (fun c => is_provenance_id_char c || Ascii.eqb c "*") (chars rendered).

Definition is_block_safe_key (key : string) : bool :=
  negb (String.eqb key "") && forallb is_provenance_id_char (chars key).

Definition render_column (f : ProvenanceField) : string :=
  match field_kind f with
  | SymbolColumn => scrub_symbol_column (field_value f)
  | IdColumn => scrub_provenance_column (field_value f)
  end.

Definition render_value (f : ProvenanceField) : string :=
  let rendered := render_column f in
  if (kMaxProvenanceIdChars <? String.length rendered)%nat || negb (is_block_safe rendered)
  then kRedactionMarker else rendered.

Fixpoint render_fields (block : string) (fields : list ProvenanceField) : string :=
  match fields with
  | [] => block
  | f :: rest =>
      if String.eqb (field_value f) "" || negb (is_block_safe_key (field_key f)) then render_fields block rest
      else render_fields
             (block +:+ (if String.eqb block "" then " [" else " ") +:+ field_key f +:+ "=" +:+ render_value f) rest
  end.

Definition render_provenance_block (fields : list ProvenanceField) : string :=
  let block := render_fields "" fields in
  if String.eqb block "" then "" else block +:+ "]".

Example scrub_sample :
  scrub "token=abc, id 240115000012345 otp 1234; mpin is 4321 ok abcdefghij0123456789Z" =
  "token=***REDACTED***, id 240115000012345 otp ***REDACTED***; mpin is ***REDACTED*** ok ***REDACTED***".
Proof. vm_compute. reflexivity. Qed.

Example explain_sample :
  explain_invalid_strategy_name "momentum-v-2" = "" /\
  is_valid_strategy_name "momentum-v2" = false /\ split_mixed_segments "momentum-v2" = "momentum-v-2".
Proof. vm_compute. done. Qed.

(** ** Runs *)

(** The text starts with a character outside the class, or is empty. *)
Definition stops (p : ascii -> bool) (l : list ascii) : Prop :=
  match l with [] => True | c :: _ => p c = false end.

(** Facts about single characters, by cases on the 256 of them. *)
Ltac by_chars c := destruct c as [[][][][][][][][]]; vm_compute; (done || discriminate).

Lemma token_not_space c : is_token_char c = true -> is_space c = false.
Proof. by_chars c. Qed.
Lemma token_not_sep c : is_token_char c = true -> Ascii.eqb c ":" || Ascii.eqb c "=" = false.
Proof. by_chars c. Qed.
Lemma token_not_quote c : is_token_char c = true -> is_quote c = false.
Proof. by_chars c. Qed.
Lemma token_not_delim c : is_token_char c = true -> is_value_delim c = false.
Proof. by_chars c. Qed.
Lemma letter_token c : is_letter c = true -> is_token_char c = true.
Proof. by_chars c. Qed.
Lemma quote_not_space c : is_quote c = true -> is_space c = false.
Proof. by_chars c. Qed.
Lemma sep_not_space c : Ascii.eqb c ":" || Ascii.eqb c "=" = true -> is_space c = false.
Proof. by_chars c. Qed.
Lemma sep_not_quote c : Ascii.eqb c ":" || Ascii.eqb c "=" = true -> is_quote c = false.
Proof. by_chars c. Qed.
Lemma sep_not_token c : Ascii.eqb c ":" || Ascii.eqb c "=" = true -> is_token_char c = false.
Proof. by_chars c. Qed.

Lemma not_token_not_letter c : is_token_char c = false -> is_letter c = false.
Proof. intros H. destruct (is_letter c) eqn:E; [|done]. apply letter_token in E. congruence. Qed.

Lemma space_not_token c : is_space c = true -> is_token_char c = false.
Proof. intros H. destruct (is_token_char c) eqn:E; [|done]. apply token_not_space in E. congruence. Qed.
Lemma quote_not_token c : is_quote c = true -> is_token_char c = false.
Proof. intros H. destruct (is_token_char c) eqn:E; [|done]. apply token_not_quote in E. congruence. Qed.
Lemma delim_not_token c : is_value_delim c = true -> is_token_char c = false.
Proof. intros H. destruct (is_token_char c) eqn:E; [|done]. apply token_not_delim in E. congruence. Qed.

Lemma span_spec p l : forall a b, span p l = (a, b) ->
  l = a ++ b /\ Forall (fun c => p c = true) a /\ stops p b.
Proof.
  induction l as [|c l IH]; simpl; intros a b H; [by injection H as <- <-|].
  destruct (p c) eqn:Ep; [|by injection H as <- <-].
  destruct (span p l) as [a' b']. injection H as <- <-.
  destruct (IH a' b' eq_refl) as (-> & Ha & Hb). by repeat constructor.
Qed.

Lemma span_app p a b : Forall (fun c => p c = true) a -> stops p b -> span p (a ++ b) = (a, b).
Proof.
  intros Ha Hb. induction Ha as [|c a Hc _ IH]; simpl.
  - destruct b as [|c b]; simpl in *; [done|]. by rewrite Hb.
  - by rewrite Hc, IH.
Qed.

(** The two texts start alike. *)
Definition same_head (a b : list ascii) : Prop := hd_error a = hd_error b.

Lemma stops_same_head p a b : same_head a b -> stops p a -> stops p b.
Proof. destruct a, b; simpl; try done. by intros [= ->]. Qed.

(** ** One key and its value, scrubbed again *)

Definition kv_prefix (key q sp1 : list ascii) (sepc : ascii) (sp2 : list ascii) : list ascii :=
  key ++ q ++ sp1 ++ sepc :: sp2.

Record prefix_ok (key q sp1 : list ascii) (sepc : ascii) (sp2 : list ascii) : Prop := {
  po_key : Forall (fun c => is_token_char c = true) key;
  po_sensitive : (bool_decide (key = []) || negb (key_is_sensitive key)) = false;
  po_quote : q = [] \/ exists c, q = [c] /\ is_quote c = true;
  po_sp1 : Forall (fun c => is_space c = true) sp1;
  po_sep : Ascii.eqb sepc ":" || Ascii.eqb sepc "=" = true;
  po_sp2 : Forall (fun c => is_space c = true) sp2;
}.

(** The value part of [try_key_value]. *)
Definition value_part (prefix l5 : list ascii) : list ascii * list ascii * list ascii :=
  match l5 with
  | c :: l6 =>
      if is_quote c then
        let '(value, l7) := span (fun x => negb (Ascii.eqb x c)) l6 in
        (prefix ++ c :: redact_nonempty value, prefix ++ c :: value, l7)
      else
        let '(value, l7) := span (fun x => negb (is_value_delim x)) l5 in
        (prefix ++ redact_nonempty value, prefix ++ value, l7)
  | [] => (prefix, prefix, [])
  end.

Lemma prefix_parsed key q sp1 sepc sp2 l5 : prefix_ok key q sp1 sepc sp2 -> stops is_space l5 ->
  try_key_value (kv_prefix key q sp1 sepc sp2 ++ l5) = Some (value_part (kv_prefix key q sp1 sepc sp2) l5).
Proof.
  intros [Hk Hs Hq Hsp1 Hsep Hsp2] Hl5. unfold try_key_value, kv_prefix. rewrite <- !app_assoc. simpl.
  assert (stops is_token_char (q ++ sp1 ++ sepc :: sp2 ++ l5)) as Hstop.
  { destruct Hq as [->|(c & -> & Hc)]; simpl; [|by apply quote_not_token].
    destruct Hsp1 as [|c sp1 Hc]; simpl; [by apply sep_not_token|by apply space_not_token]. }
  rewrite (span_app _ key) by done. rewrite Hs.
  assert (skip_quote (q ++ sp1 ++ sepc :: sp2 ++ l5) = (q, sp1 ++ sepc :: sp2 ++ l5)) as ->.
  { destruct Hq as [->|(c & -> & Hc)]; simpl; [|by rewrite Hc].
    destruct Hsp1 as [|c sp1 Hc]; simpl; [by rewrite (sep_not_quote _ Hsep)|].
    destruct (is_quote c) eqn:E; [|done]. apply quote_not_space in E. congruence. }
  rewrite (span_app _ sp1) by (done || simpl; by apply sep_not_space). rewrite Hsep. simpl.
  rewrite (span_app _ sp2) by done. unfold value_part.
  destruct l5 as [|c l6]; [done|]. destruct (is_quote c); [by destruct (span _ l6)|by destruct (span _ (c :: l6))].
Qed.

Lemma try_key_value_some l o cns tl : try_key_value l = Some (o, cns, tl) ->
  exists key q sp1 sepc sp2 l5, prefix_ok key q sp1 sepc sp2 /\ stops is_space l5 /\
    l = kv_prefix key q sp1 sepc sp2 ++ l5 /\
    value_part (kv_prefix key q sp1 sepc sp2) l5 = (o, cns, tl).
Proof.
  unfold try_key_value. destruct (span is_token_char l) as [key l1] eqn:E1.
  apply span_spec in E1 as (-> & Hk & _). destruct (_ || _) eqn:Hs; [done|].
  destruct (skip_quote l1) as [q l2] eqn:E2.
  assert (l1 = q ++ l2 /\ (q = [] \/ exists c, q = [c] /\ is_quote c = true)) as [-> Hq].
  { unfold skip_quote in E2. destruct l1 as [|c l1]; [injection E2 as <- <-; auto|].
    destruct (is_quote c) eqn:Ec; injection E2 as <- <-; eauto. }
  destruct (span is_space l2) as [sp1 l3] eqn:E3. apply span_spec in E3 as (-> & Hsp1 & _).
  destruct l3 as [|sepc l4]; [done|]. destruct (Ascii.eqb sepc ":" || Ascii.eqb sepc "=") eqn:Hsep; [|done].
  simpl. destruct (span is_space l4) as [sp2 l5] eqn:E5. apply span_spec in E5 as (-> & Hsp2 & Hl5).
  intros H. exists key, q, sp1, sepc, sp2, l5.
  split; [by constructor|]. split; [done|]. split; [unfold kv_prefix; by rewrite <- !app_assoc|].
  unfold value_part, kv_prefix. destruct l5 as [|c l6]; [by injection H as <- <- <-|].
  destruct (is_quote c); [destruct (span _ l6)|destruct (span _ (c :: l6))]; by injection H as <- <- <-.
Qed.

(** The value scrubbed again, in front of any text that starts like what followed
    it: the same output, and now nothing changes. *)
Lemma value_again prefix l5 o cns tl tl' : stops is_space l5 ->
  value_part prefix l5 = (o, cns, tl) -> same_head tl tl' ->
  cns ++ tl = prefix ++ l5 /\ stops is_token_char tl /\
  (cns = o \/ exists p, o = p ++ marker) /\
  exists r5, o = prefix ++ r5 /\ stops is_space (r5 ++ tl') /\ value_part prefix (r5 ++ tl') = (o, o, tl').
Proof.
  intros Hsp H Hh. destruct l5 as [|c l6].
  { injection H as <- <- <-. destruct tl'; [|done]. split_and!; [done|done|by left|].
    exists []. by rewrite !app_nil_r. }
  unfold value_part in H. destruct (is_quote c) eqn:Hq.
  - destruct (span _ l6) as [value l7] eqn:Ev. apply span_spec in Ev as (-> & _ & Hstop).
    injection H as <- <- <-.
    assert (stops is_token_char l7) as Htok.
    { destruct l7 as [|d l7]; [done|]. simpl in *. apply negb_false_iff, Ascii.eqb_eq in Hstop as ->.
      by apply quote_not_token. }
    assert (Forall (fun x => negb (Ascii.eqb x c) = true) (redact_nonempty value)) as Hm.
    { unfold redact_nonempty. case_bool_decide; [by constructor|].
      unfold marker. repeat constructor; clear -Hq; revert Hq; by_chars c. }
    assert (span (fun x => negb (Ascii.eqb x c)) (redact_nonempty value ++ tl') = (redact_nonempty value, tl')) as Hs
      by (apply span_app; [done|by eapply stops_same_head]).
    split_and!; [by rewrite <- app_assoc|done| |].
    + unfold redact_nonempty. case_bool_decide as Hv; [left; by rewrite Hv|].
      right. exists (prefix ++ [c]). by rewrite <- app_assoc.
    + exists (c :: redact_nonempty value). split_and!; [done|simpl; by apply quote_not_space|].
      unfold value_part. simpl. rewrite Hq, Hs. f_equal. f_equal; do 2 f_equal; unfold redact_nonempty;
        by repeat case_bool_decide.
  - destruct (span _ (c :: l6)) as [value l7] eqn:Ev. apply span_spec in Ev as (Hl & _ & Hstop).
    injection H as <- <- <-.
    assert (stops is_token_char l7) as Htok.
    { destruct l7 as [|d l7]; [done|]. simpl in *. apply negb_false_iff in Hstop. by apply delim_not_token. }
    split_and!; [by rewrite <- app_assoc, <- Hl|done| |].
    { unfold redact_nonempty. case_bool_decide as Hv; [left; by rewrite Hv|right; eauto]. }
    exists (redact_nonempty value). unfold redact_nonempty. case_bool_decide as Hv.
    + subst value. simpl in Hl. subst l7. split_and!; [done|by eapply stops_same_head|].
      destruct tl' as [|d tl']; [done|]. injection Hh as <-. unfold value_part. simpl.
      simpl in Hstop. by rewrite Hq, Hstop.
    + split_and!; [done..|].
      assert (span (fun x => negb (is_value_delim x)) (marker ++ tl') = (marker, tl')) as Hs.
      { apply span_app; [unfold marker; by repeat constructor|by eapply stops_same_head]. }
      unfold value_part. destruct (marker ++ tl') as [|d m] eqn:Em; [by destruct tl'|].
      assert (d = "*"%char) as -> by (by injection Em). change (is_quote "*") with false. cbv iota.
      rewrite Hs. unfold redact_nonempty. by case_bool_decide.
Qed.

(** ** The context of a digit run is the same in both passes *)

(** The text behind the two passes: equal, or equal back to a marker that is
    followed by a character that is not a letter. *)
Inductive ctx : list ascii -> list ascii -> Prop :=
  | ctx_same s : ctx s s
  | ctx_marker w c x y : is_letter c = false -> ctx (w ++ c :: x) (w ++ c :: rev marker ++ y).

Lemma ctx_push c s s' : ctx s s' -> ctx (c :: s) (c :: s').
Proof.
  intros H. inversion H as [|w d x y Hd]; subst; [apply ctx_same|exact (ctx_marker (c :: w) d x y Hd)].
Qed.

Lemma ctx_push_list l s s' : ctx s s' -> ctx (rev l ++ s) (rev l ++ s').
Proof.
  intros H. induction (rev l) as [|c k IH]; [done|]. simpl. by apply ctx_push.
Qed.

Lemma ctx_boundary s s' : ctx s s' -> at_boundary s = at_boundary s'.
Proof. intros [|w d x y Hd]; [done|]. by destruct w. Qed.

Lemma word_skip n p c v : is_letter c = false -> Forall (fun x => is_letter x = true) n -> n <> [] ->
  word_in_window n p (c :: v) = word_in_window n false v.
Proof.
  intros Hc Hn Hne. simpl. rewrite Hc. destruct n as [|x n]; [done|]. simpl.
  assert (Ascii.eqb (fold_char c) x = false) as ->; [|done].
  apply Ascii.eqb_neq. intros <-. apply Forall_cons in Hn as [Hx _]. revert Hc Hx. by_chars c.
Qed.

(** A word that stands after a character that is not a letter is a word of any
    longer window. *)
Lemma word_extend n u c v : is_letter c = false -> Forall (fun x => is_letter x = true) n -> n <> [] ->
  forall p, word_in_window n false v = true -> word_in_window n p (u ++ c :: v) = true.
Proof.
  intros Hc Hn Hne. induction u as [|d u IH]; intros p H; [by rewrite app_nil_l, word_skip|].
  simpl. apply orb_true_iff. right. by apply IH.
Qed.

Definition needle_lists : list (list ascii) := map chars kAuthContextNeedles.

Lemma needles_ok n : n ∈ needle_lists -> Forall (fun x => is_letter x = true) n /\ n <> [].
Proof.
  unfold needle_lists. simpl. intros H. rewrite !elem_of_cons in H.
  destruct H as [->|[->|[->|[->|H]]]]; [by repeat constructor..|by apply elem_of_nil in H].
Qed.

(** A needle does not start inside the end of the marker. *)
Lemma word_after_marker n j c v : n ∈ needle_lists -> is_letter c = false -> (j <= 9)%nat ->
  word_in_window n false (rev (take j (rev marker)) ++ c :: v) = word_in_window n false v.
Proof.
  intros Hn Hc Hj. destruct (needles_ok n Hn) as [Hl Hne]. rewrite <- (word_skip n false c v) by done.
  unfold needle_lists in Hn. simpl in Hn. rewrite !elem_of_cons in Hn.
  destruct Hn as [->|[->|[->|[->|H]]]]; [..|by apply elem_of_nil in H];
    (do 10 (destruct j as [|j]; [reflexivity|]); lia).
Qed.

Lemma auth_context_window s :
  auth_context_before s = true <->
  exists n, n ∈ needle_lists /\ word_in_window n false (rev (take 10 s)) = true.
Proof.
  unfold auth_context_before, needle_lists. rewrite existsb_exists. split.
  - intros (n & Hn & H). exists (chars n). split; [|done]. apply list_elem_of_fmap_2. by apply list_elem_of_In.
  - intros (n & Hn & H). apply list_elem_of_fmap in Hn as (m & -> & Hm). exists m. by rewrite <- list_elem_of_In.
Qed.

Lemma ctx_auth s s' : ctx s s' -> auth_context_before s' = true -> auth_context_before s = true.
Proof.
  intros Hc. rewrite !auth_context_window. intros (n & Hn & H). exists n. split; [done|].
  destruct Hc as [|w c x y Hc]; [done|].
  destruct (decide (10 <= length w)%nat) as [Hw|Hw]; [by rewrite take_app_le in * by done|].
  destruct (needles_ok n Hn) as [Hl Hne].
  assert (forall z, take 10 (w ++ c :: z) = w ++ c :: take (9 - length w) z) as Ht.
  { intros z. rewrite take_app_ge by lia. f_equal.
    replace (10 - length w)%nat with (S (9 - length w)) by lia. done. }
  assert (forall z, rev (w ++ c :: z) = rev z ++ c :: rev w) as Hr
    by (intros z; rewrite rev_app_distr; simpl; by rewrite <- app_assoc).
  rewrite Ht, Hr in H |- *. rewrite take_app_le in H by (unfold marker; simpl; lia).
  rewrite word_after_marker in H by (done || lia). by apply word_extend.
Qed.

(** ** The loop, once and twice *)

(** After the spaces comes a [':'] or ['=']. *)
Definition sep_after (l : list ascii) : bool :=
  match snd (span is_space l) with c :: _ => Ascii.eqb c ":" || Ascii.eqb c "=" | [] => false end.
Definition sep_follows (l : list ascii) : bool := sep_after (snd (skip_quote l)).
Definition plain_key (key : list ascii) : bool := bool_decide (key = []) || negb (key_is_sensitive key).

Lemma try_key_value_none l key l1 : span is_token_char l = (key, l1) ->
  try_key_value l = None <-> plain_key key = true \/ sep_follows l1 = false.
Proof.
  intros E. unfold try_key_value, sep_follows, sep_after, plain_key. rewrite E.
  destruct (_ || _); [by intuition|]. destruct (skip_quote l1) as [q l2]. simpl.
  destruct (span is_space l2) as [sp l3]. simpl. destruct l3 as [|c l4]; [by intuition|].
  destruct (Ascii.eqb c ":" || Ascii.eqb c "="); simpl; [|by intuition].
  destruct (span is_space l4) as [sp2 l5]. destruct l5 as [|d l6]; [by intuition|].
  destruct (is_quote d); [destruct (span _ l6)|destruct (span _ (d :: l6))]; by intuition.
Qed.

Lemma loop_plain f seen c r : is_token_char c = false ->
  scrub_loop (S f) seen (c :: r) = c :: scrub_loop f (c :: seen) r.
Proof. intros H. simpl. by rewrite H. Qed.

Lemma loop_nil f seen : scrub_loop f seen [] = [].
Proof. by destruct f. Qed.

Lemma loop_same_head f seen l : stops is_token_char l -> (length l <= f)%nat ->
  same_head l (scrub_loop f seen l).
Proof.
  destruct l as [|c r]; [by rewrite loop_nil|]. intros H Hf. destruct f as [|f]; [simpl in Hf; lia|].
  by rewrite loop_plain.
Qed.

(** A sensitive key or a run is written as a token character or a marker first. *)
Lemma try_key_value_head c r o cns tl : is_token_char c = true -> try_key_value (c :: r) = Some (o, cns, tl) ->
  (exists o', o = c :: o') /\ (exists cns', cns = c :: cns') /\ c :: r = cns ++ tl /\ stops is_token_char tl.
Proof.
  intros Hc H. apply try_key_value_some in H as (key & q & sp1 & sepc & sp2 & l5 & Hp & Hsp & Hl & Hv).
  destruct (value_again _ _ _ _ _ tl Hsp Hv eq_refl) as (Heq & Hs & Hoc & r5 & Ho & _ & _).
  destruct key as [|k key]; [by destruct Hp|].
  assert (k = c) as -> by (by injection Hl). split_and!; [|..|done].
  - rewrite Ho. by eexists.
  - destruct Hoc as [->|[p _]]; [rewrite Ho; by eexists|].
    destruct cns as [|d cns]; [|injection Heq as <- _; by eexists].
    unfold value_part in Hv. exfalso. destruct l5 as [|d l6]; [by injection Hv|].
    destruct (is_quote d); [destruct (span _ l6)|destruct (span _ (d :: l6))]; by injection Hv.
  - by rewrite Heq, Hl.
Qed.

Lemma loop_token_head f seen c r : is_token_char c = true ->
  exists d out, scrub_loop (S f) seen (c :: r) = d :: out /\ (is_token_char d = true \/ d = "*"%char).
Proof.
  intros Hc. cbn [scrub_loop]. rewrite Hc. destruct (at_boundary seen); simpl; [|eauto].
  destruct (try_key_value (c :: r)) as [[[o cns] tl]|] eqn:E.
  - apply try_key_value_head in E as [[o' ->] _]; [|done]. simpl. eauto.
  - rewrite Hc. destruct (span is_token_char r) as [run tl]. unfold scrub_run.
    destruct (_ && _); [simpl; eauto|]. destruct (_ && _); simpl; eauto.
Qed.

Lemma sep_after_loop l : forall f seen, (length l <= f)%nat -> sep_after (scrub_loop f seen l) = sep_after l.
Proof.
  induction l as [|c l IH]; intros f seen Hf; [by rewrite loop_nil|].
  destruct f as [|f]; [simpl in Hf; lia|]. destruct (is_token_char c) eqn:Hc.
  - destruct (loop_token_head f seen c l Hc) as (d & out & -> & Hd). unfold sep_after. simpl.
    rewrite (token_not_space c) by done. simpl. rewrite token_not_sep by done.
    destruct Hd as [Hd| ->]; [|done]. rewrite (token_not_space d) by done. simpl. by apply token_not_sep.
  - rewrite loop_plain by done. unfold sep_after. simpl. destruct (is_space c); [|done].
    specialize (IH f (c :: seen) ltac:(simpl in Hf; lia)). unfold sep_after in IH.
    destruct (span is_space (scrub_loop f (c :: seen) l)), (span is_space l). done.
Qed.

Lemma sep_follows_loop f seen l : stops is_token_char l -> (length l <= f)%nat ->
  sep_follows (scrub_loop f seen l) = sep_follows l.
Proof.
  intros Hs Hf. unfold sep_follows. destruct l as [|c r]; [by rewrite loop_nil|].
  destruct f as [|f]; [simpl in Hf; lia|]. rewrite loop_plain by done. simpl.
  destruct (is_quote c); simpl; [apply sep_after_loop; simpl in Hf; lia|].
  rewrite <- (loop_plain f seen) by done. by apply sep_after_loop.
Qed.

Lemma marker_again f seen l :
  scrub_loop (7 + f) seen (marker ++ l) = marker ++ scrub_loop f (rev marker ++ seen) l.
Proof. reflexivity. Qed.

(** What the two passes have behind them when the first is at [rest]. *)
Definition behind (seen seen' rest : list ascii) : Prop :=
  (ctx seen seen' /\ (at_boundary seen = true \/ stops is_token_char rest)) \/
  ((exists y, seen' = rev marker ++ y) /\ stops is_token_char rest).

Lemma behind_token c r seen seen' : is_token_char c = true -> behind seen seen' (c :: r) ->
  ctx seen seen' /\ at_boundary seen = true /\ at_boundary seen' = true.
Proof.
  intros Hc [[Hx [Hb|Hs]]|[_ Hs]]; simpl in *; [|congruence..].
  rewrite <- (ctx_boundary _ _ Hx). done.
Qed.

Lemma behind_plain c r seen seen' : is_token_char c = false -> behind seen seen' (c :: r) ->
  behind (c :: seen) (c :: seen') r.
Proof.
  intros Hc H. left. split; [|left; simpl; by rewrite Hc].
  destruct H as [[Hx _]|[[y ->] _]]; [by apply ctx_push|].
  by apply (ctx_marker [] c seen y), not_token_not_letter.
Qed.

Lemma behind_written o cns seen seen' tl : ctx seen seen' -> stops is_token_char tl ->
  (cns = o \/ exists p, o = p ++ marker) -> behind (rev cns ++ seen) (rev o ++ seen') tl.
Proof.
  intros Hx Hs [->|[p ->]]; [left; split; [by apply ctx_push_list|by right]|].
  right. split; [|done]. exists (rev p ++ seen'). by rewrite rev_app_distr, <- app_assoc.
Qed.

Lemma scrub_run_again seen seen' run : ctx seen seen' -> scrub_run seen run = run -> run <> [] ->
  Forall (fun c => is_token_char c = true) run -> scrub_run seen' run = run.
Proof.
  intros Hx H Hne Hr. unfold scrub_run in *. destruct (_ && run_has_letter_and_digit run); [done|].
  destruct (auth_context_before seen) eqn:Ha.
  - destruct (_ && run_is_all_digits run && true) eqn:E; [|by rewrite andb_true_r in E; rewrite E].
    rewrite <- H in Hr. by apply Forall_cons in Hr as [? _].
  - destruct (auth_context_before seen') eqn:Ha'; [|by rewrite andb_false_r].
    apply (ctx_auth _ _ Hx) in Ha'. congruence.
Qed.

Lemma scrub_run_cases seen run : scrub_run seen run = marker \/ scrub_run seen run = run.
Proof. unfold scrub_run. repeat (destruct (_ && _)); auto. Qed.

(** A token in the second pass that is not a key stays as it is. *)
Lemma second_run f' seen' run tl :
  run <> [] -> Forall (fun c => is_token_char c = true) run -> at_boundary seen' = true ->
  stops is_token_char tl -> try_key_value (run ++ tl) = None -> scrub_run seen' run = run ->
  scrub_loop (S f') seen' (run ++ tl) = run ++ scrub_loop f' (rev run ++ seen') tl.
Proof.
  intros Hne Hr Hb Hs Hk Hrun. destruct run as [|c run]; [done|].
  pose proof Hr as Hr'. apply Forall_cons in Hr' as [Hc _].
  cbn [scrub_loop app]. rewrite Hc, Hb. simpl andb. cbv iota.
  change (c :: run ++ tl) with ((c :: run) ++ tl). rewrite Hk, span_app by done. by rewrite Hrun.
Qed.

Lemma second_key f' seen' o tl c o' : o = c :: o' -> is_token_char c = true -> at_boundary seen' = true ->
  try_key_value (o ++ tl) = Some (o, o, tl) ->
  scrub_loop (S f') seen' (o ++ tl) = o ++ scrub_loop f' (rev o ++ seen') tl.
Proof.
  intros -> Hc Hb Hk. cbn [scrub_loop app]. rewrite Hc, Hb. simpl andb. cbv iota.
  change (c :: o' ++ tl) with ((c :: o') ++ tl). by rewrite Hk.
Qed.

Lemma key_value_again l o cns tl tl' : try_key_value l = Some (o, cns, tl) -> same_head tl tl' ->
  try_key_value (o ++ tl') = Some (o, o, tl') /\ (cns = o \/ exists p, o = p ++ marker).
Proof.
  intros H Hh. apply try_key_value_some in H as (key & q & sp1 & sepc & sp2 & l5 & Hp & Hsp & _ & Hv).
  destruct (value_again _ _ _ _ _ tl' Hsp Hv Hh) as (_ & _ & Hoc & r5 & Ho & Hs5 & Hv5).
  split; [|done]. rewrite Ho at 1. rewrite <- app_assoc, prefix_parsed by done. by rewrite Hv5.
Qed.

Lemma scrub_loop_again n : forall rest seen seen' f f',
  (length rest <= n)%nat -> (length rest <= f)%nat -> behind seen seen' rest ->
  (length (scrub_loop f seen rest) <= f')%nat ->
  scrub_loop f' seen' (scrub_loop f seen rest) = scrub_loop f seen rest.
Proof.
  induction n as [|n IH]; intros [|c r] seen seen' f f' Hn Hf Hb; rewrite ?loop_nil; try done; [simpl in Hn; lia|].
  destruct f as [|f]; [simpl in Hf; lia|]. simpl in Hn, Hf.
  destruct (is_token_char c) eqn:Hc.
  2:{ rewrite loop_plain by done. intros Hf'. destruct f' as [|f']; [simpl in Hf'; lia|].
      rewrite loop_plain by done. f_equal. apply IH; [lia|lia|by apply behind_plain|simpl in Hf'; lia]. }
  destruct (behind_token c r seen seen' Hc Hb) as (Hx & Hb1 & Hb2).
  cbn [scrub_loop]. rewrite Hc, Hb1. simpl andb. cbv iota.
  destruct (try_key_value (c :: r)) as [[[o cns] tl]|] eqn:E.
  - destruct (try_key_value_head _ _ _ _ _ Hc E) as ([o' Ho] & [cns' Hcns] & Hl & Hs).
    assert (length tl < S (length r))%nat as Hlen.
    { apply (f_equal length) in Hl. rewrite Hcns in Hl. simpl in Hl. rewrite length_app in Hl. lia. }
    set (out := scrub_loop f (rev cns ++ seen) tl).
    pose proof (loop_same_head f (rev cns ++ seen) tl Hs ltac:(lia)) as Hh. fold out in Hh.
    destruct (key_value_again _ _ _ _ out E Hh) as [Hk Hoc].
    rewrite length_app, Ho. intros Hf'. destruct f' as [|f']; [simpl in Hf'; lia|]. rewrite <- Ho.
    rewrite (second_key f' seen' o out c o') by done. f_equal.
    apply IH; [lia|lia|by apply behind_written|]. simpl in Hf'. fold out. lia.
  - destruct (span is_token_char (c :: r)) as [run tl] eqn:Es.
    pose proof (try_key_value_none _ _ _ Es) as Hnone. apply span_spec in Es as (Hl & Hr & Hs).
    assert (run <> []) as Hne by (intros ->; simpl in Hl; subst tl; simpl in Hs; congruence).
    assert (length tl < S (length r))%nat as Hlen.
    { apply (f_equal length) in Hl. rewrite length_app in Hl. simpl in Hl. destruct run; [done|simpl in Hl; lia]. }
    set (out := scrub_loop f (rev run ++ seen) tl).
    pose proof (loop_same_head f (rev run ++ seen) tl Hs ltac:(lia)) as Hh. fold out in Hh.
    destruct (scrub_run_cases seen run) as [Hm|Hm]; rewrite Hm; intros Hf'; rewrite length_app in Hf'.
    + change (length marker) with 14%nat in Hf'. replace f' with (7 + (f' - 7))%nat by lia.
      rewrite marker_again. f_equal. apply IH; [lia|lia| |fold out; lia].
      right. split; [by eexists|done].
    + assert (try_key_value (run ++ out) = None) as Hk.
      { apply (try_key_value_none _ run out); [apply span_app; [done|by eapply stops_same_head]|].
        unfold out. rewrite sep_follows_loop by (done || lia). by apply Hnone. }
      destruct f' as [|f']; [destruct run; simpl in Hf'; [done|lia]|].
      rewrite (second_run f' seen' run out); try done; [|by eapply stops_same_head|by eapply scrub_run_again].
      f_equal. apply IH; [lia|lia| |fold out; destruct run; simpl in Hf'; [done|lia]].
      apply behind_written; [done|done|by left].
Qed.

(** scrubbing is idempotent: text that went through the scrubber is left
    exactly as it is by every later sink that scrubs again, whatever keys, quotes,
    runs and authentication words it contains. *)
Theorem scrub_idempotent (text : string) : scrub (scrub text) = scrub text.
Proof.
  unfold scrub, scrub_chars. rewrite chars_str. f_equal.
  apply (scrub_loop_again (length (chars text))); try lia. left. split; [apply ctx_same|by left].
Qed.

(** ** The nested call of [explain] never nests again *)

(** Every alphanumeric run is all letters or all hex. *)
Inductive unmixed : list ascii -> Prop :=
  | unmixed_nil : unmixed []
  | unmixed_sep c l : is_alnum c = false -> unmixed l -> unmixed (c :: l)
  | unmixed_seg seg l :
      seg <> [] -> Forall (fun c => is_alnum c = true) seg -> homogeneous seg = true ->
      stops is_alnum l -> unmixed l -> unmixed (seg ++ l).

Lemma unmixed_none l : unmixed l -> forall f, (length l <= f)%nat -> first_mixed_segment f l = [].
Proof.
  induction 1 as [|c l Hc _ IH|seg l Hne Ha Hh Hs _ IH]; intros f Hf; [by destruct f|..].
  - destruct f as [|f]; [done|]. simpl in *. rewrite Hc. simpl. apply IH. lia.
  - rewrite length_app in Hf. destruct seg as [|c seg]; [done|]. destruct f as [|f]; [done|].
    cbn [first_mixed_segment app]. pose proof Ha as Ha'. apply Forall_cons in Ha' as [Hc _]. rewrite Hc.
    simpl negb. cbv iota. change (c :: seg ++ l) with ((c :: seg) ++ l). rewrite span_app by done.
    rewrite Hh. apply IH. simpl in Hf. lia.
Qed.

Lemma same_class_homogeneous seg b : Forall (fun c => is_alnum c = true /\ is_letter c = b) seg ->
  homogeneous seg = true.
Proof.
  intros H. unfold homogeneous. apply orb_true_iff. destruct b; [left|right]; apply forallb_forall;
    intros c Hc; apply list_elem_of_In in Hc; rewrite Forall_forall in H; specialize (H c Hc); revert H.
  - by intros [_ H].
  - intros [H1 H2]. revert H1 H2. by_chars c.
Qed.

Lemma dash_segment_unmixed r tail : stops is_alnum tail -> unmixed tail -> forall acc c,
  Forall (fun x => is_alnum x = true /\ is_letter x = is_letter c) acc ->
  Forall (fun x => is_alnum x = true) (c :: r) ->
  unmixed ((acc ++ [c]) ++ dash_segment c r ++ tail).
Proof.
  intros Hs Ht. induction r as [|d r IH]; intros acc c Hacc Hr; apply Forall_cons in Hr as [Hc Hr].
  - assert (Forall (fun x => is_alnum x = true /\ is_letter x = is_letter c) (acc ++ [c])) as H
      by (apply Forall_app; split; [done|]; by apply Forall_singleton).
    apply (unmixed_seg _ tail); [by destruct acc| |by apply (same_class_homogeneous _ _ H)|done|done].
    eapply Forall_impl; [exact H|]. by intros x [? _].
  - assert (Forall (fun x => is_alnum x = true /\ is_letter x = is_letter c) (acc ++ [c])) as H
      by (apply Forall_app; split; [done|]; by apply Forall_singleton).
    cbn [dash_segment]. destruct (Bool.eqb (is_letter d) (is_letter c)) eqn:E.
    + apply Bool.eqb_prop in E. specialize (IH (acc ++ [c]) d). rewrite E in IH.
      specialize (IH H Hr). by rewrite <- !app_assoc in IH |- *.
    + apply unmixed_seg; [by destruct acc| |by apply (same_class_homogeneous _ _ H)|done|].
      * eapply Forall_impl; [exact H|]. by intros x [? _].
      * apply unmixed_sep; [done|]. by apply (IH [] d).
Qed.

Lemma split_segment_unmixed seg tail : seg <> [] -> Forall (fun c => is_alnum c = true) seg ->
  stops is_alnum tail -> unmixed tail -> unmixed (split_segment seg ++ tail).
Proof.
  intros Hne Ha Hs Ht. unfold split_segment. case_bool_decide as Hm.
  - apply unmixed_seg; try done. unfold mixed_segment in Hm.
    destruct seg as [|c seg]; [done|]. cbn [length first_mixed_segment] in Hm.
    pose proof Ha as Ha'. apply Forall_cons in Ha' as [Hc _]. rewrite Hc in Hm. simpl negb in Hm. cbv iota in Hm.
    rewrite <- (app_nil_r (c :: seg)) in Hm. rewrite span_app in Hm by done.
    by destruct (homogeneous (c :: seg)).
  - destruct seg as [|c seg]; [done|]. by apply (dash_segment_unmixed seg tail Hs Ht [] c).
Qed.

Lemma split_loop_unmixed f : forall l, (length l <= f)%nat ->
  unmixed (split_loop f l) /\ (stops is_alnum l -> stops is_alnum (split_loop f l)).
Proof.
  induction f as [|f IH]; intros [|c r] Hf; try (simpl in Hf; lia); try (split; [constructor|done]).
  simpl in Hf. cbn [split_loop]. destruct (is_alnum c) eqn:Hc; simpl negb; cbv iota.
  - split; [|simpl; congruence]. destruct (span is_alnum (c :: r)) as [seg tail] eqn:E.
    apply span_spec in E as (Hl & Ha & Hs).
    assert (seg <> []) as Hne by (intros ->; simpl in Hl; subst tail; simpl in Hs; congruence).
    assert (length tail <= f)%nat as Hlen.
    { apply (f_equal length) in Hl. rewrite length_app in Hl. destruct seg; [done|simpl in Hl; lia]. }
    destruct (IH tail Hlen) as [H1 H2]. by apply split_segment_unmixed; auto.
  - destruct (IH r ltac:(lia)) as [H1 _]. split; [by constructor|done].
Qed.

Lemma split_mixed_segments_unmixed name : mixed_segment (chars (split_mixed_segments name)) = [].
Proof.
  unfold split_mixed_segments, mixed_segment. rewrite chars_str.
  apply unmixed_none; [|done]. apply split_loop_unmixed. by rewrite chars_length.
Qed.

(** The recursion of the source ends after one nested call: allowing more of them
    changes no answer. *)
Lemma explain_depth d name : explain (S d) name = explain 1 name.
Proof.
  assert (forall n m s, mixed_segment (chars s) = [] -> explain n s = explain m s) as H.
  { intros n m s Hs. destruct n, m; unfold explain; fold explain; by rewrite bool_decide_eq_true_2 by done. }
  unfold explain; fold explain.
  by rewrite (H d 0%nat (split_mixed_segments name)) by apply split_mixed_segments_unmixed.
Qed.

(** A text of an identifier's shape holds an identifier's characters only. *)
Lemma id_shape_chars l : forall n st m, id_shape_loop n st l = Some m -> Forall (fun c => is_provenance_id_char c = true) l.
Proof.
  induction l as [|c l IH]; intros n st m H; [constructor|]. cbn [id_shape_loop] in H.
  destruct (is_provenance_id_char c) eqn:Hc; [|done]. cbn [negb] in H. constructor; [done|].
  repeat (case_match; try done); by eapply IH.
Qed.
