(* ===== verification/RejectReason.v ===== *)
(** * RejectReason: the broker rejection classifier and the session guard

    src/src/brokerreason/rejection_classifier.cpp turns a broker's free text or
    status into a reason, a retry posture and an alert flag by an ordered keyword
    scan; src/src/sessionguard/session_guard.cpp reads its verdict to decide
    whether a session found dead in mid-flight freezes new entries. *)

From Stdlib Require Import Btauto.
From S2P Require Import Prelude Errors Redaction.

(** ** Data *)

Inductive RejectReason :=
  RMargin | RCircuitLimit | RFreezeQuantity | RIlliquid | RRmsBlock | RSessionExpired | RRateLimited
  | ROrderNotFound | RAlreadyComplete | RIndeterminate | RUnknown.

Inductive RetryPosture := RPDoNotRetry | RPReconcileFirst | SafeToRetryReadOnly.

#[export] Instance RejectReason_eq_dec : EqDecision RejectReason.
Proof. solve_decision. Defined.
#[export] Instance RetryPosture_eq_dec : EqDecision RetryPosture.
Proof. solve_decision. Defined.

Record Classification := mkClassification {
  reason : RejectReason;
  posture : RetryPosture;
  should_alert : bool;
  canonical_detail : string;
}.

Definition kClassifierVersion : Z := 1.

Definition reason_to_string (r : RejectReason) : string :=
  match r with
  | RMargin => "margin"
  | RCircuitLimit => "circuit_limit"
  | RFreezeQuantity => "freeze_quantity"
  | RIlliquid => "illiquid"
  | RRmsBlock => "rms_block"
  | RSessionExpired => "session_expired"
  | RRateLimited => "rate_limited"
  | ROrderNotFound => "order_not_found"
  | RAlreadyComplete => "already_complete"
  | RIndeterminate => "indeterminate"
  | RUnknown => "unknown"
  end.

Definition retry_posture_to_string (p : RetryPosture) : string :=
  match p with
  | RPDoNotRetry => "do_not_retry"
  | RPReconcileFirst => "reconcile_first"
  | SafeToRetryReadOnly => "safe_to_retry_read_only"
  end.

Definition to_suggested_action (p : RetryPosture) : SuggestedAction :=
  match p with
  | RPDoNotRetry => DoNotRetry
  | RPReconcileFirst => ReconcileFirst
  | SafeToRetryReadOnly => RetrySafe
  end.

(** ** Text helpers *)

(** [std::tolower] of the C locale on every byte. *)
Definition to_lower_ascii (text : string) : string := fold_string text.

(** ASCII white space of [trim]. *)
Definition is_ws (c : ascii) : bool := Ascii.eqb c " " || in_range 9 13 c.

Fixpoint trim_front (s : string) : string :=
  match s with
  | String c rest => if is_ws c then trim_front rest else s
  | "" => ""
  end.

Fixpoint trim_back (s : string) : string :=
  match s with
  | String c rest =>
      let rest' := trim_back rest in
      if String.eqb rest' "" && is_ws c then "" else String c rest'
  | "" => ""
  end.

Definition trim (s : string) : string := trim_back (trim_front s).

(** [haystack.find(needle) != npos]. *)
Fixpoint contains (haystack needle : string) : bool :=
  String.prefix needle haystack ||
  match haystack with
  | "" => false
  | String _ rest => contains rest needle
  end.

(** ** The rule table *)

Definition rule_for (r : RejectReason) : RejectReason * RetryPosture * bool :=
  match r with
  | RMargin => (RMargin, RPDoNotRetry, true)
  | RCircuitLimit => (RCircuitLimit, RPDoNotRetry, true)
  | RFreezeQuantity => (RFreezeQuantity, RPDoNotRetry, true)
  | RIlliquid => (RIlliquid, RPDoNotRetry, true)
  | RRmsBlock => (RRmsBlock, RPDoNotRetry, true)
  | RSessionExpired => (RSessionExpired, RPReconcileFirst, true)
  | RRateLimited => (RRateLimited, SafeToRetryReadOnly, false)
  | ROrderNotFound => (ROrderNotFound, RPReconcileFirst, true)
  | RAlreadyComplete => (RAlreadyComplete, RPReconcileFirst, false)
  | RIndeterminate => (RIndeterminate, RPReconcileFirst, true)
  | RUnknown => (RUnknown, RPDoNotRetry, true)
  end.

Definition make_detail (r : RejectReason) (p : RetryPosture) : string :=
  scrub ("rejection classified as '" +:+ reason_to_string r +:+ "'; retry posture '" +:+
         retry_posture_to_string p +:+ "' (classifier v" +:+ pretty kClassifierVersion +:+ ")").

Definition make (r : RejectReason) (p : RetryPosture) (alert : bool) : Classification :=
  mkClassification r p alert (make_detail r p).

Definition make_rule (rule : RejectReason * RetryPosture * bool) : Classification :=
  let '(r, p, alert) := rule in make r p alert.

(** ** classify_rejection and classify_status *)

Definition classify_rejection (raw_message : string) : Classification :=
  if String.eqb (trim raw_message) "" then make_rule (rule_for RUnknown)
  else
    let m := to_lower_ascii raw_message in
    let has := contains m in
    if has "margin" || has "insufficient funds" || has "insufficient balance" || has "rms:margin"
    then make_rule (rule_for RMargin)
    else if has "circuit" || has "price out of" || has "lpp" || has "dpr" || has "out of range" ||
            has "outside the daily price"
    then make_rule (rule_for RCircuitLimit)
    else if has "freeze" || has "quantity higher than maximum" || has "max allowed qty" ||
            has "maximum allowed" || has "exceeds the maximum"
    then make_rule (rule_for RFreezeQuantity)
    else if has "no trades in this instrument" || has "illiquid" || has "no liquidity" || has "no trades"
    then make_rule (rule_for RIlliquid)
    else if has "access_token" || has "api_key" || has "token" || has "session" ||
            has "unauthorized" || has "401"
    then make_rule (rule_for RSessionExpired)
    else if has "too many requests" || has "rate limit" || has "rate-limit" || has "ratelimit" ||
            has "throttle" || has "429 too many" || has "http 429" || has "status 429" ||
            has "error 429" || has "code 429" || has "(429)"
    then make_rule (rule_for RRateLimited)
    else if has "already" && (has "complete" || has "executed" || has "cancelled" || has "canceled" ||
            has "filled" || has "traded")
    then make_rule (rule_for RAlreadyComplete)
    else if has "order not found" || has "invalid order" || has "unknown order" ||
            has "order does not exist" || has "no such order"
    then make_rule (rule_for ROrderNotFound)
    else if has "timeout" || has "timed out" || has "no response from oms" || has "no response" ||
            has "kt-oms" || has "gateway timeout" || has "502" || has "503" || has "504"
    then make_rule (rule_for RIndeterminate)
    else if has "rms" || has "blocked" || has "block" || has "not allowed to trade"
    then make_rule (rule_for RRmsBlock)
    else make_rule (rule_for RUnknown).

Definition classify_status (raw_status : string) : Classification :=
  let s := to_lower_ascii (trim raw_status) in
  let eq := String.eqb s in
  if eq "complete" || eq "completed" then make RAlreadyComplete RPReconcileFirst false
  else if eq "cancelled" || eq "canceled" then make RAlreadyComplete RPReconcileFirst false
  else if eq "rejected" then make RUnknown RPDoNotRetry true
  else if eq "open" || eq "open pending" || eq "trigger pending" || eq "update" ||
          eq "modify pending" || eq "validation pending" || eq "put order req received" ||
          eq "amo req received" || eq "after market order req received"
  then make RIndeterminate RPReconcileFirst false
  else make RIndeterminate RPReconcileFirst true.

(** ** The session guard *)

Inductive SessionState := Healthy | NeedsReauth | SessionFailed.
Inductive OpClass := ClassEntry | ClassExit | ClassReconcileRead.

#[export] Instance SessionState_eq_dec : EqDecision SessionState.
Proof. solve_decision. Defined.
#[export] Instance OpClass_eq_dec : EqDecision OpClass.
Proof. solve_decision. Defined.

Record SessionPosture := mkSessionPosture {
  session_state : SessionState;
  freeze_entries : bool;
  allow_exits : bool;
  allow_reconcile_reads : bool;
  session_alert : bool;
  session_detail : string;
}.

Definition session_state_to_string (s : SessionState) : string :=
  match s with Healthy => "Healthy" | NeedsReauth => "NeedsReauth" | SessionFailed => "Failed" end.

Definition op_class_to_string (o : OpClass) : string :=
  match o with ClassEntry => "entry" | ClassExit => "exit" | ClassReconcileRead => "reconcile_read" end.

Definition session_make_detail (s : SessionState) : string :=
  scrub ("session posture '" +:+ session_state_to_string s +:+ "'").

Definition session_posture_for (s : SessionState) : SessionPosture :=
  match s with
  | Healthy => mkSessionPosture Healthy false true true false (session_make_detail s)
  | NeedsReauth => mkSessionPosture NeedsReauth true true true true (session_make_detail s)
  | SessionFailed => mkSessionPosture SessionFailed true true true true (session_make_detail s)
  end.

Definition frozen_entry_error (o : OpClass) : Error :=
  set_action ReEstablishSession
    (make_error SessionExpired
      ("sessionguard: entries frozen; operator must re-establish session (" +:+
       op_class_to_string o +:+ " not allowed)") "").

Definition assess_session (current : SessionState) (broker_error_text : string) : SessionPosture :=
  let c := classify_rejection broker_error_text in
  session_posture_for (if bool_decide (reason c = RSessionExpired) then NeedsReauth else current).

Definition require_session_op (p : SessionPosture) (o : OpClass) : result unit :=
  if bool_decide (o = ClassExit) || bool_decide (o = ClassReconcileRead) then Ok tt
  else if freeze_entries p || negb (bool_decide (session_state p = Healthy))
  then Err (frozen_entry_error o)
  else Ok tt.

Definition is_reauth_needed (p : SessionPosture) : bool := bool_decide (session_state p = NeedsReauth).

(** ** Substring search *)

Lemma prefix_spec n h : String.prefix n h = true <-> exists r, h = n +:+ r.
Proof.
  revert h. induction n as [|c n IH]; intros h.
  { split; [by exists h|by destruct h]. }
  destruct h as [|d h]; [split; [done|by intros [r Hr]]|].
  assert (String.prefix (String c n) (String d h) = if ascii_dec c d then String.prefix n h else false) as -> by done.
  destruct (ascii_dec c d) as [->|Hne].
  - rewrite IH. split; intros [r Hr]; exists r; simpl in *; congruence.
  - split; [done|]. intros [r Hr]. simpl in Hr. congruence.
Qed.

Lemma contains_spec h n : contains h n = true <-> exists pre post, h = pre +:+ n +:+ post.
Proof.
  induction h as [|c h IH]; cbn [contains].
  - rewrite orb_false_r, prefix_spec. split; [intros [r Hr]; by exists "", r|].
    intros (pre & post & H). destruct pre; [by exists post|done].
  - rewrite orb_true_iff, IH, prefix_spec. split.
    + intros [[r ->]|(pre & post & ->)]; [by exists "", r|by exists (String c pre), post].
    + intros ([|d pre] & post & H); simpl in H; [left; by exists post|right].
      exists pre, post. congruence.
Qed.

(** A text that [trim] empties holds white space only. *)
Lemma trim_back_empty s : trim_back s = "" -> Forall (fun c => is_ws c = true) (chars s).
Proof.
  induction s as [|c s IH]; simpl; [by constructor|]. destruct (String.eqb_spec (trim_back s) ""); simpl; [|done].
  destruct (is_ws c) eqn:E; [|done]. intros _. constructor; auto.
Qed.

Lemma trim_empty s : trim s = "" -> Forall (fun c => is_ws c = true) (chars s).
Proof.
  unfold trim. induction s as [|c s IH]; cbn [trim_front]; [by constructor|].
  destruct (is_ws c) eqn:E; [by constructor; auto|]. simpl. by rewrite E, andb_false_r.
Qed.

Lemma fold_char_ws c : is_ws (fold_char c) = is_ws c.
Proof. by destruct c as [[] [] [] [] [] [] [] []]. Qed.

Lemma chars_fold_string s : chars (fold_string s) = fold_char <$> chars s.
Proof. induction s as [|c s IH]; [done|]. cbn. f_equal. exact IH. Qed.

(** ** What the classifier promises *)

(** The text, in lower case, contains one of the phrases. *)
Definition mentions (text : string) (phrases : list string) : Prop :=
  exists k, k ∈ phrases /\ exists pre post, to_lower_ascii text = pre +:+ k +:+ post.

Definition hard_phrases : list string :=
  ["margin"; "insufficient funds"; "insufficient balance"; "circuit"; "price out of"; "lpp"; "dpr";
   "out of range"; "outside the daily price"; "freeze"; "quantity higher than maximum";
   "max allowed qty"; "maximum allowed"; "exceeds the maximum"; "illiquid"; "no liquidity"; "no trades"].

Definition session_phrases : list string :=
  ["token"; "api_key"; "session"; "unauthorized"; "401"].

Definition rate_limit_phrases : list string :=
  ["too many requests"; "rate limit"; "rate-limit"; "ratelimit"; "throttle"; "429 too many";
   "http 429"; "status 429"; "error 429"; "code 429"; "(429)"].

Definition mentionsb (text : string) (phrases : list string) : bool :=
  existsb (contains (to_lower_ascii text)) phrases.

Lemma mentionsb_spec text l : mentionsb text l = true <-> mentions text l.
Proof.
  unfold mentionsb, mentions. rewrite existsb_exists.
  split; intros (k & H1 & H2); exists k; (split; [by apply list_elem_of_In|by apply contains_spec]).
Qed.

(** A phrase with a letter or a digit in it is not in a blank text. *)
Lemma blank_mentions text l : trim text = "" ->
  forallb (fun k => existsb (fun c => negb (is_ws c)) (chars k)) l = true -> ~ mentions text l.
Proof.
  intros H Hl (k & Hk & pre & post & E). rewrite forallb_forall in Hl.
  apply list_elem_of_In in Hk. specialize (Hl k Hk). apply existsb_exists in Hl as (c & Hc & Hws).
  apply list_elem_of_In in Hc. assert (c ∈ chars (to_lower_ascii text)) as Hin.
  { rewrite E, !chars_app. set_solver. }
  unfold to_lower_ascii in Hin. rewrite chars_fold_string in Hin.
  apply list_elem_of_fmap in Hin as (d & -> & Hd). apply trim_empty in H. rewrite Forall_forall in H.
  rewrite fold_char_ws, (H d Hd) in Hws. done.
Qed.

(** A phrase inside a longer phrase. *)
Lemma contains_sub h pre k post :
  contains h (pre +:+ k +:+ post) = contains h (pre +:+ k +:+ post) && contains h k.
Proof.
  destruct (contains h (pre +:+ k +:+ post)) eqn:E; [|done]. symmetry. apply contains_spec.
  apply contains_spec in E as (a & b & ->). exists (a +:+ pre), (post +:+ b). by autorewrite with strs.
Qed.

(** The tests of the scan before the rate-limit one, as phrase groups. *)
Lemma hard_tests text (has := contains (to_lower_ascii text)) :
  mentionsb text hard_phrases =
  (has "margin" || has "insufficient funds" || has "insufficient balance" || has "rms:margin") ||
  (has "circuit" || has "price out of" || has "lpp" || has "dpr" || has "out of range" ||
   has "outside the daily price") ||
  (has "freeze" || has "quantity higher than maximum" || has "max allowed qty" ||
   has "maximum allowed" || has "exceeds the maximum") ||
  (has "no trades in this instrument" || has "illiquid" || has "no liquidity" || has "no trades").
Proof.
  unfold mentionsb, hard_phrases. cbn [existsb]. subst has.
  rewrite (contains_sub _ "rms:" "margin" ""), (contains_sub _ "" "no trades" " in this instrument").
  simpl. generalize (contains (to_lower_ascii text)). intros has. btauto.
Qed.

Lemma session_tests text (has := contains (to_lower_ascii text)) :
  mentionsb text session_phrases =
  has "access_token" || has "api_key" || has "token" || has "session" || has "unauthorized" || has "401".
Proof.
  unfold mentionsb, session_phrases. cbn [existsb]. subst has.
  rewrite (contains_sub _ "access_" "token" ""). simpl.
  generalize (contains (to_lower_ascii text)). intros has. btauto.
Qed.

Lemma rate_limit_tests text (has := contains (to_lower_ascii text)) :
  mentionsb text rate_limit_phrases =
  has "too many requests" || has "rate limit" || has "rate-limit" || has "ratelimit" ||
  has "throttle" || has "429 too many" || has "http 429" || has "status 429" ||
  has "error 429" || has "code 429" || has "(429)".
Proof. unfold mentionsb, rate_limit_phrases. cbn [existsb]. subst has. btauto. Qed.

(** The verdict in terms of the phrase groups. *)
Lemma classify_reason text :
  let c := classify_rejection text in
  c = make_rule (rule_for (reason c)) /\
  (reason c = RSessionExpired <-> mentionsb text session_phrases = true /\ mentionsb text hard_phrases = false) /\
  (reason c = RRateLimited <->
     mentionsb text rate_limit_phrases = true /\ mentionsb text session_phrases = false /\
     mentionsb text hard_phrases = false).
Proof.
  assert (forall r, make_rule (rule_for r) = make_rule (rule_for (reason (make_rule (rule_for r))))) as Hr
    by by intros [].
  cbv zeta. unfold classify_rejection. destruct (String.eqb_spec (trim text) "") as [Hb|_].
  { pose proof (blank_mentions text session_phrases Hb eq_refl) as H1.
    pose proof (blank_mentions text rate_limit_phrases Hb eq_refl) as H2.
    rewrite <- mentionsb_spec in H1, H2. simpl. intuition congruence. }
  rewrite hard_tests, session_tests, rate_limit_tests. cbv zeta.
  generalize (contains (to_lower_ascii text)). intros has.
  repeat (match goal with |- context [if ?b then make_rule _ else _] => destruct b eqn:? end;
    [split; [apply Hr|]; simpl; repeat match goal with H : _ = false |- _ => rewrite H end; simpl; intuition congruence|]).
  split; [apply Hr|]. simpl. intuition congruence.
Qed.

(** The operator-facing text, when no part of it needs redaction. *)
Definition plain_detail (r : RejectReason) (p : RetryPosture) : string :=
  "rejection classified as '" +:+ reason_to_string r +:+ "'; retry posture '" +:+
  retry_posture_to_string p +:+ "' (classifier v1)".

Lemma make_detail_plain r p : make_detail r p = plain_detail r p.
Proof. destruct r, p; vm_compute; reflexivity. Qed.

#[local] Opaque make_detail session_make_detail.

Lemma rule_facts r :
  let c := make_rule (rule_for r) in
  reason c = r /\ (to_suggested_action (posture c) = RetrySafe <-> r = RRateLimited) /\
  (r = RUnknown -> posture c = RPDoNotRetry /\ should_alert c = true) /\
  canonical_detail c = plain_detail (reason c) (posture c).
Proof. destruct r; cbn -[make_detail plain_detail]; rewrite make_detail_plain; intuition congruence. Qed.

Lemma classify_status_reasons text :
  reason (classify_status text) = RUnknown /\ posture (classify_status text) = RPDoNotRetry \/
  posture (classify_status text) = RPReconcileFirst.
Proof.
  unfold classify_status. cbv zeta.
  repeat match goal with |- context [if ?b then make _ _ _ else _] => destruct b; [by auto|] end. by right.
Qed.

(** a broker rejection is never resent by guesswork: whatever the text, the
    verdict is safe to retry exactly when the text has anchored rate-limit
    phrasing and no phrase of a margin, price-band, freeze, illiquidity or
    session rejection; a text that matches nothing is not retried and alerts; a
    status alone is never safe to retry; and the operator's text is the canonical
    one, a function of the verdict that no redaction alters. *)
Theorem retry_safety text :
  let c := classify_rejection text in
  (to_suggested_action (posture c) = RetrySafe <->
     mentions text rate_limit_phrases /\ ~ mentions text session_phrases /\ ~ mentions text hard_phrases) /\
  (reason c = RUnknown -> posture c = RPDoNotRetry /\ should_alert c = true) /\
  to_suggested_action (posture (classify_status text)) <> RetrySafe /\
  canonical_detail c = plain_detail (reason c) (posture c).
Proof.
  cbv zeta. destruct (classify_reason text) as (Hc & _ & Hl). rewrite <- !mentionsb_spec, !not_true_iff_false, <- Hl.
  destruct (rule_facts (reason (classify_rejection text))) as (_ & H1 & H2 & H3).
  rewrite <- Hc in H1, H2, H3.
  by destruct (classify_status_reasons text) as [[_ ->]| ->].
Qed.

(** The session was found dead by the broker's own words. *)
Definition session_dead (text : string) : Prop :=
  mentions text session_phrases /\ ~ mentions text hard_phrases.

Lemma session_dead_reason text :
  session_dead text <-> reason (classify_rejection text) = RSessionExpired.
Proof.
  unfold session_dead. rewrite <- !mentionsb_spec, not_true_iff_false.
  destruct (classify_reason text) as (_ & H & _). by rewrite H.
Qed.

Lemma session_entry_ok s text :
  require_session_op (assess_session s text) ClassEntry = Ok tt <-> s = Healthy /\ ~ session_dead text.
Proof.
  rewrite session_dead_reason. unfold assess_session, require_session_op. cbv zeta.
  generalize (reason (classify_rejection text)) as r. intros r.
  destruct (bool_decide_reflect (r = RSessionExpired)), s; simpl; intuition congruence.
Qed.

Lemma session_exit_ok p o : o <> ClassEntry -> require_session_op p o = Ok tt.
Proof. by destruct o. Qed.

(** the session guard freezes entries and nothing else: an entry passes
    exactly when the last known state is Healthy and the broker's last words do
    not say the session is dead, a refusal asks for the session to be
    re-established, and every frozen posture alerts; exits and reconcile reads
    pass under every posture, hand-made ones included. *)
Theorem session_guard_exact s text p :
  let sp := assess_session s text in
  (require_session_op sp ClassEntry = Ok tt <-> s = Healthy /\ ~ session_dead text) /\
  (forall o e, require_session_op p o = Err e ->
     o = ClassEntry /\ category e = SessionExpired /\ action e = ReEstablishSession) /\
  (forall o, o <> ClassEntry -> require_session_op p o = Ok tt) /\
  (is_reauth_needed sp = true <-> s = NeedsReauth \/ session_dead text) /\
  (session_alert sp = true <-> require_session_op sp ClassEntry <> Ok tt).
Proof.
  cbv zeta. split; [apply session_entry_ok|].
  rewrite session_dead_reason. unfold assess_session, is_reauth_needed, require_session_op. cbv zeta.
  generalize (reason (classify_rejection text)) as r. intros r.
  split; [|split; [|split]].
  - intros [] e; simpl; [case_match|..]; intros; simplify_eq; done.
  - apply session_exit_ok.
  - rewrite bool_decide_eq_true. destruct (bool_decide_reflect (r = RSessionExpired)), s; simpl; intuition congruence.
  - destruct (bool_decide_reflect (r = RSessionExpired)), s; simpl; intuition congruence.
Qed.

(** A digit run of an order id that happens to hold 401 reads as a dead session. *)
Example numeric_id_expires_session :
  reason (classify_rejection "rejected, ref 980401117") = RSessionExpired /\
  require_session_op (assess_session Healthy "rejected, ref 980401117") ClassEntry <> Ok tt.
Proof. by vm_compute. Qed.
