(* ===== verification/Calendar.v ===== *)
(** * Calendar: the trading calendar (src/src/refdata/trading_calendar.cpp)

    The parsed calendar document, the exchange-local date and minute, the trading
    day and session-window tests, and the refresh and reload of the date-versioned
    cache. The JSON parser is a parameter; instants are nanoseconds since the
    epoch; the conversion between days and civil dates is std::chrono's
    proleptic Gregorian calendar. *)

From S2P Require Import Prelude Errors.

(** ** Civil dates (std::chrono::year_month_day, sys_days, weekday) *)

Record ymd := mkYmd { year : Z; month : Z; dom : Z }.

Definition is_leap (y : Z) : bool := (y mod 4 =? 0) && (negb (y mod 100 =? 0) || (y mod 400 =? 0)).

Definition last_day (y m : Z) : Z :=
  if m =? 2 then (if is_leap y then 29 else 28)
  else if (m =? 4) || (m =? 6) || (m =? 9) || (m =? 11) then 30 else 31.

(** [ymd.ok()]. *)
Definition ymd_ok (d : ymd) : bool :=
  (1 <=? month d) && (month d <=? 12) && (1 <=? dom d) && (dom d <=? last_day (year d) (month d)).

(** [sys_days{ymd}]: days since 1970-01-01. *)
Definition days_of (d : ymd) : Z :=
  let y := if month d <=? 2 then year d - 1 else year d in
  let mp := if month d <=? 2 then month d + 9 else month d - 3 in
  let yoe := y mod 400 in
  let doy := (153 * mp + 2) / 5 + dom d - 1 in
  (y / 400) * 146097 + (yoe * 365 + yoe / 4 - yoe / 100 + doy) - 719468.

(** [year_month_day{sys_days}]. *)
Definition ymd_of (days : Z) : ymd :=
  let z := days + 719468 in
  let doe := z mod 146097 in
  let yoe := (doe - doe / 1460 + doe / 36524 - doe / 146096) / 365 in
  let doy := doe - (365 * yoe + yoe / 4 - yoe / 100) in
  let mp := (5 * doy + 2) / 153 in
  let d := doy - (153 * mp + 2) / 5 + 1 in
  let m := if mp <? 10 then mp + 3 else mp - 9 in
  let y := yoe + (z / 146097) * 400 in
  mkYmd (if m <=? 2 then y + 1 else y) m d.

(** [weekday{sys_days}]: Sunday is 0, and 1970-01-01 was a Thursday. *)
Definition weekday (days : Z) : Z := (days + 4) mod 7.

(** ** Dates and times as text *)

Fixpoint pad_loop (fuel : nat) (digits : string) (width : nat) : string :=
  match fuel with
  | O => digits
  | S f => if (String.length digits <? width)%nat then pad_loop f (String "0" digits) width else digits
  end.

Definition pad (value : Z) (width : nat) : string := pad_loop width (pretty value) width.

Definition to_iso (d : ymd) : string :=
  pad (year d) 4 +:+ "-" +:+ pad (month d) 2 +:+ "-" +:+ pad (dom d) 2.

Definition two (a b : ascii) : Z := digit_value a * 10 + digit_value b.

Definition parse_iso_date (s : string) : option Z :=
  match chars s with
  | [y1; y2; y3; y4; h1; m1; m2; h2; d1; d2] =>
      if negb (Ascii.eqb h1 "-") || negb (Ascii.eqb h2 "-") then None
      else if negb (forallb is_ascii_digit [y1; y2; y3; y4; m1; m2; d1; d2]) then None
      else
        let d := mkYmd (digit_value y1 * 1000 + digit_value y2 * 100 + digit_value y3 * 10 + digit_value y4)
                   (two m1 m2) (two d1 d2) in
        if negb (ymd_ok d) then None else Some (days_of d)
  | _ => None
  end.

Definition parse_hhmm (s : string) : option Z :=
  match chars s with
  | [h1; h2; c; m1; m2] =>
      if negb (Ascii.eqb c ":") then None
      else if negb (forallb is_ascii_digit [h1; h2; m1; m2]) then None
      else if (23 <? two h1 h2) || (59 <? two m1 m2) then None
      else Some (two h1 h2 * 60 + two m1 m2)
  | _ => None
  end.

(** ** The calendar document *)

(** A JSON value, as far as the calendar reads it. *)
Inductive json :=
  | JNull
  | JBool (b : bool)
  | JNumber
  | JString (s : string)
  | JArray (l : list json)
  | JObject (fields : list (string * json)).

Fixpoint json_find (key : string) (fields : list (string * json)) : option json :=
  match fields with
  | [] => None
  | (k, v) :: rest => if String.eqb k key then Some v else json_find key rest
  end.

Record CalendarData := mkCalendar {
  holidays : gset string;
  special_sessions : gset string;
  open_min : Z;
  entry_cutoff_min : Z;
  square_off_min : Z;
  close_min : Z;
}.

Definition empty_calendar : CalendarData := mkCalendar ∅ ∅ 0 0 0 0.

(** The double quote. *)
Definition dquote : string := String "034" "".

Definition calendar_invalid (msg : string) : Error := make_error Validation msg "".

Fixpoint load_entries (key : string) (l : list json) (out : gset string) : result (gset string) :=
  match l with
  | [] => Ok out
  | JString entry :: rest =>
      match parse_iso_date entry with
      | None => Err (calendar_invalid ("calendar: '" +:+ key +:+ "' has invalid ISO date " +:+ dquote +:+ entry +:+ dquote))
      | Some _ => load_entries key rest ({[entry]} ∪ out)
      end
  | _ => Err (calendar_invalid ("calendar: '" +:+ key +:+ "' entries must be ISO date strings"))
  end.

Definition load_dates (fields : list (string * json)) (key : string) : result (gset string) :=
  match json_find key fields with
  | None => Ok ∅
  | Some (JArray l) => load_entries key l ∅
  | Some _ => Err (calendar_invalid ("calendar: '" +:+ key +:+ "' must be an array"))
  end.

Definition get_window (windows : list (string * json)) (key : string) : option Z :=
  match json_find key windows with
  | Some (JString s) => parse_hhmm s
  | _ => None
  end.

Section document.

(** [json::parse] without exceptions: [None] is a discarded value. *)
Variable parse_doc : string -> option json.

Definition parse_calendar_json (doc : string) : result CalendarData :=
  match parse_doc doc with
  | Some (JObject fields) =>
      load_dates fields "holidays" ≫= fun hol =>
      load_dates fields "special_sessions" ≫= fun special =>
      match json_find "windows" fields with
      | Some (JObject w) =>
          match get_window w "open", get_window w "entry_cutoff", get_window w "square_off",
                get_window w "close" with
          | Some o, Some e, Some s, Some c => Ok (mkCalendar hol special o e s c)
          | _, _, _, _ => Err (calendar_invalid
              ("calendar: invalid window time (expected " +:+ dquote +:+ "HH:MM" +:+ dquote +:+ ", 00-23:00-59)"))
          end
      | _ => Err (calendar_invalid "calendar: missing or invalid 'windows'")
      end
  | _ => Err (calendar_invalid "calendar: malformed JSON document")
  end.

(** ** TradingCalendar *)

Record TradingCalendar := mkTradingCalendar {
  cache_dir : string;
  broker : string;
  tz_offset_minutes : Z;
  cal : CalendarData;
  cache_date : string;
  loaded : bool;
}.

(** The cache directory: file names to contents. *)
Abbreviation cache_files := (gmap string string).

(** What can go wrong while the cache file is written: a failed write may leave
    any text in the truncated file. *)
Inductive cache_fault := CacheOk | MkdirFails | OpenFails | WriteFails (text : string).

Definition minute_ns : Z := 60 * 10 ^ 9.
Definition day_ns : Z := 1440 * minute_ns.

Definition local_time (c : TradingCalendar) (now : Z) : Z := now + tz_offset_minutes c * minute_ns.
Definition local_day (c : TradingCalendar) (now : Z) : Z := local_time c now / day_ns.

(** [local_now]: the ISO date and the minute of the day. *)
Definition local_now (c : TradingCalendar) (now : Z) : string * Z :=
  let day := local_day c now in
  (to_iso (ymd_of day), Z.quot (local_time c now - day * day_ns) minute_ns).

Definition today_local (c : TradingCalendar) (now : Z) : string := (local_now c now).1.

Definition cache_file_for (c : TradingCalendar) (iso_date : string) : string :=
  broker c +:+ "_calendar_" +:+ iso_date +:+ ".json".

Definition commit (c : TradingCalendar) (data : CalendarData) (date : string) : TradingCalendar :=
  mkTradingCalendar (cache_dir c) (broker c) (tz_offset_minutes c) data date true.

Definition ingest (c : TradingCalendar) (doc iso_date : string) : result unit * TradingCalendar :=
  match parse_calendar_json doc with
  | Err e => (Err e, c)
  | Ok data => (Ok tt, commit c data iso_date)
  end.

Definition cache_internal (msg : string) : Error := make_error Internal msg "".

Definition refresh (c : TradingCalendar) (fetched : result string) (now : Z) (fault : cache_fault)
    (files : cache_files) : result unit * TradingCalendar * cache_files :=
  match fetched with
  | Err e => (Err e, c, files)
  | Ok doc =>
      let today := today_local c now in
      match parse_calendar_json doc with
      | Err e => (Err e, c, files)
      | Ok data =>
          let file := cache_file_for c today in
          match fault with
          | MkdirFails => (Err (cache_internal "calendar: cannot create cache dir"), c, files)
          | OpenFails => (Err (cache_internal "calendar: cannot open cache file for write"), c, files)
          | WriteFails text =>
              (Err (cache_internal "calendar: cache file write failed"), c, <[file := text]> files)
          | CacheOk => (Ok tt, commit c data today, <[file := doc]> files)
          end
      end
  end.

(** [unreadable]: the file exists but cannot be opened. *)
Definition load_cached_for (c : TradingCalendar) (iso_date : string) (unreadable : bool)
    (files : cache_files) : result unit * TradingCalendar :=
  match files !! cache_file_for c iso_date with
  | None => (Err (make_error DataStale ("calendar: no cache for date " +:+ iso_date) ""), c)
  | Some doc =>
      if unreadable
      then (Err (make_error DataStale ("calendar: cannot open cache for date " +:+ iso_date) ""), c)
      else ingest c doc iso_date
  end.

Definition require_fresh (c : TradingCalendar) (now : Z) : result unit :=
  if negb (loaded c) || negb (String.eqb (cache_date c) (today_local c now))
  then Err (make_error DataStale "calendar is stale or undownloaded; trading blocked" "")
  else Ok tt.

Definition is_fresh (c : TradingCalendar) (now : Z) : bool := is_ok (require_fresh c now).

Definition is_trading_day (c : TradingCalendar) (iso_date : string) : bool :=
  if bool_decide (iso_date ∈ special_sessions (cal c)) then true
  else if bool_decide (iso_date ∈ holidays (cal c)) then false
  else match parse_iso_date iso_date with
       | None => false
       | Some day => negb ((weekday day =? 6) || (weekday day =? 0))
       end.

Definition in_entry_window (c : TradingCalendar) (now : Z) : bool :=
  let '(date, minute) := local_now c now in
  is_trading_day c date && (open_min (cal c) <=? minute) && (minute <? entry_cutoff_min (cal c)).

Definition past_square_off (c : TradingCalendar) (now : Z) : bool :=
  square_off_min (cal c) <=? (local_now c now).2.

Definition in_session (c : TradingCalendar) (now : Z) : bool :=
  let '(date, minute) := local_now c now in
  is_trading_day c date && (open_min (cal c) <=? minute) && (minute <? close_min (cal c)).

Definition require_entry_allowed (c : TradingCalendar) (now : Z) : result unit :=
  let '(date, minute) := local_now c now in
  if negb (is_trading_day c date) then Err (make_error MarketClosed "calendar: not a trading day" "")
  else if minute <? open_min (cal c) then Err (make_error MarketClosed "calendar: before open" "")
  else if entry_cutoff_min (cal c) <=? minute
  then Err (make_error MarketClosed "calendar: at or after entry cutoff" "")
  else Ok tt.

End document.

(** ** The civil calendar is one-to-one *)

(** Year-of-era and day-of-year from the day of a 400-year era. *)
Lemma year_of_era yoe doy : 0 <= yoe < 400 -> 0 <= doy <= 365 ->
  (doy = 365 -> (yoe + 1) mod 4 = 0 /\ ((yoe + 1) mod 100 <> 0 \/ (yoe + 1) mod 400 = 0)) ->
  let doe := 365 * yoe + yoe / 4 - yoe / 100 + doy in
  0 <= doe < 146097 /\ (doe - doe / 1460 + doe / 36524 - doe / 146096) / 365 = yoe.
Proof.
  intros Hy Hd Hl. cbv zeta. Z.div_mod_to_equations. lia.
Qed.

Lemma era_year doe : 0 <= doe < 146097 ->
  let yoe := (doe - doe / 1460 + doe / 36524 - doe / 146096) / 365 in
  let doy := doe - (365 * yoe + yoe / 4 - yoe / 100) in
  0 <= yoe < 400 /\ 0 <= doy <= 365 /\
  (doy = 365 -> (yoe + 1) mod 4 = 0 /\ ((yoe + 1) mod 100 <> 0 \/ (yoe + 1) mod 400 = 0)).
Proof. intros H. cbv zeta. Z.div_mod_to_equations. lia. Qed.

(** Month and day from the day of a year that starts in March. *)
Lemma month_of_doy doy : 0 <= doy <= 365 ->
  let mp := (5 * doy + 2) / 153 in
  let d := doy - (153 * mp + 2) / 5 + 1 in
  0 <= mp <= 11 /\ 1 <= d <= 31 /\ (153 * mp + 2) / 5 + d - 1 = doy.
Proof. intros H. cbv zeta. Z.div_mod_to_equations. lia. Qed.

Lemma doy_of_month mp d : 0 <= mp <= 11 -> 1 <= d <= 31 ->
  (mp = 1 \/ mp = 3 \/ mp = 6 \/ mp = 8 -> d <= 30) -> (mp = 11 -> d <= 29) ->
  let doy := (153 * mp + 2) / 5 + d - 1 in
  0 <= doy <= 365 /\ (5 * doy + 2) / 153 = mp /\ (doy = 365 -> mp = 11 /\ d = 29).
Proof. intros H Hd H30 H29. cbv zeta. Z.div_mod_to_equations. lia. Qed.

Lemma is_leap_spec y : is_leap y = true <-> y mod 4 = 0 /\ (y mod 100 <> 0 \/ y mod 400 = 0).
Proof.
  unfold is_leap. rewrite andb_true_iff, orb_true_iff, negb_true_iff, !Z.eqb_eq, Z.eqb_neq. done.
Qed.

Lemma is_leap_era y k : is_leap (y + k * 400) = is_leap y.
Proof.
  apply eq_true_iff_eq. rewrite !is_leap_spec.
  replace (y + k * 400) with (y + (k * 100) * 4) by lia. rewrite Z_mod_plus_full.
  replace (y + k * 100 * 4) with (y + (k * 4) * 100) by lia. rewrite Z_mod_plus_full.
  replace (y + k * 4 * 100) with (y + k * 400) by lia. by rewrite Z_mod_plus_full.
Qed.

(** Lengths of the months, counted from March. *)
Lemma last_day_spec y mp (m := if mp <? 10 then mp + 3 else mp - 9) : 0 <= mp <= 11 ->
  last_day y m = if bool_decide (mp = 11) then (if is_leap y then 29 else 28)
                 else if bool_decide (mp = 1 \/ mp = 3 \/ mp = 6 \/ mp = 8) then 30 else 31.
Proof.
  intros H. assert (mp = 0 \/ mp = 1 \/ mp = 2 \/ mp = 3 \/ mp = 4 \/ mp = 5 \/ mp = 6 \/ mp = 7 \/
    mp = 8 \/ mp = 9 \/ mp = 10 \/ mp = 11) as D by lia.
  by repeat (destruct D as [E|D]; [subst; reflexivity|]); subst.
Qed.

Lemma days_of_ymd z : days_of (ymd_of z) = z /\ ymd_ok (ymd_of z) = true.
Proof.
  unfold ymd_of, days_of, ymd_ok. cbv zeta. cbn [year month dom].
  pose proof (Z.mod_pos_bound (z + 719468) 146097 ltac:(lia)) as Hdoe.
  pose proof (Z.div_mod (z + 719468) 146097 ltac:(lia)) as Hdiv.
  set (era := (z + 719468) / 146097) in *. set (doe := (z + 719468) mod 146097) in *.
  destruct (era_year doe Hdoe) as (Hy & Hd & Hl).
  set (yoe := (doe - doe / 1460 + doe / 36524 - doe / 146096) / 365) in *.
  set (doy := doe - (365 * yoe + yoe / 4 - yoe / 100)) in *.
  destruct (month_of_doy doy Hd) as (Hmp & Hdom & Hback).
  set (mp := (5 * doy + 2) / 153) in *. set (d := doy - (153 * mp + 2) / 5 + 1) in *.
  set (m := if mp <? 10 then mp + 3 else mp - 9).
  assert (1 <= m <= 12 /\ (m <=? 2) = negb (mp <? 10)) as [Hm Hm2].
  { unfold m. destruct (Z.ltb_spec mp 10); simpl; (split; [lia|]); [apply Z.leb_gt|apply Z.leb_le]; lia. }
  rewrite Hm2. split.
  - assert ((if negb (mp <? 10) then (if negb (mp <? 10) then yoe + era * 400 + 1 else yoe + era * 400) - 1
             else if negb (mp <? 10) then yoe + era * 400 + 1 else yoe + era * 400) = yoe + era * 400) as ->
      by (destruct (mp <? 10); simpl; lia).
    assert ((if negb (mp <? 10) then m + 9 else m - 3) = mp) as ->
      by (unfold m; destruct (mp <? 10); simpl; lia).
    rewrite Z_mod_plus_full, Z.mod_small, Z_div_plus_full, Z.div_small by lia. lia.
  - rewrite !andb_true_iff, !Z.leb_le. split_and!; [lia..|]. unfold m. rewrite last_day_spec by done.
    case_bool_decide as H11; [|case_bool_decide as H30; [|lia]].
    + assert (d <= 28 \/ doy = 365) as [|H365] by (subst d; rewrite H11; Z.div_mod_to_equations; lia).
      { destruct (is_leap _); lia. }
      rewrite H11. change (negb (11 <? 10)) with true. cbv iota.
      replace (yoe + era * 400 + 1) with (yoe + 1 + era * 400) by lia. rewrite is_leap_era.
      assert (is_leap (yoe + 1) = true) as -> by (apply is_leap_spec; auto).
      subst d. rewrite H11. Z.div_mod_to_equations. lia.
    + assert (mp = 1 \/ mp = 3 \/ mp = 6 \/ mp = 8 -> d <= 30) as H; [|auto].
      clear H30 H11. subst d mp. clear -Hd. Z.div_mod_to_equations. lia.
Qed.

Lemma ymd_of_days d : ymd_ok d = true -> ymd_of (days_of d) = d.
Proof.
  destruct d as [y m d]. unfold ymd_ok, days_of. cbn [year month dom]. cbv zeta. intros H. to_prop.
  set (mp := if m <=? 2 then m + 9 else m - 3). set (y' := if m <=? 2 then y - 1 else y).
  assert (0 <= mp <= 11 /\ m = (if mp <? 10 then mp + 3 else mp - 9) /\ (m <=? 2) = negb (mp <? 10)) as (Hmp & Hm & Hm2).
  { unfold mp. destruct (Z.leb_spec m 2).
    - rewrite (proj2 (Z.ltb_ge _ _)) by lia. simpl. lia.
    - rewrite (proj2 (Z.ltb_lt _ _)) by lia. simpl. lia. }
  pose proof (last_day_spec y mp Hmp) as Hlast. cbv zeta in Hlast. rewrite <- Hm in Hlast. rewrite Hlast in H0. clear Hlast.
  destruct (doy_of_month mp d Hmp) as (Hdoy & Hmonth & H365).
  { split; [lia|]. revert H0. repeat case_bool_decide; [destruct (is_leap y)|..]; lia. }
  { intros D. revert H0. rewrite (bool_decide_eq_false_2 (mp = 11)), (bool_decide_eq_true_2 (mp = 1 \/ _)) by lia. lia. }
  { intros E. revert H0. rewrite bool_decide_eq_true_2 by done. destruct (is_leap y); lia. }
  set (doy := (153 * mp + 2) / 5 + d - 1) in *.
  pose proof (Z.mod_pos_bound y' 400 ltac:(lia)) as Hyoe. pose proof (Z.div_mod y' 400 ltac:(lia)) as Hy.
  destruct (year_of_era (y' mod 400) doy Hyoe Hdoy) as [Hdoe Hera].
  { intros E. destruct (H365 E) as [E11 E29].
    assert (y = y' mod 400 + 1 + (y' / 400) * 400) as Hyy.
    { assert (y' = y - 1) by (unfold y'; rewrite Hm2, E11; done). lia. }
    revert H0. rewrite bool_decide_eq_true_2 by done. rewrite Hyy, is_leap_era.
    intros Hlast. apply is_leap_spec. destruct (is_leap (y' mod 400 + 1)); [done|lia]. }
  unfold ymd_of. cbv zeta.
  set (doe := 365 * (y' mod 400) + y' mod 400 / 4 - y' mod 400 / 100 + doy) in *.
  replace (y' / 400 * 146097 + (y' mod 400 * 365 + y' mod 400 / 4 - y' mod 400 / 100 + doy) - 719468 + 719468)
    with (doe + (y' / 400) * 146097) by (subst doe; lia).
  rewrite Z_mod_plus_full, (Z.mod_small doe 146097), Z_div_plus_full, (Z.div_small doe 146097), Hera by lia.
  replace (doe - (365 * (y' mod 400) + y' mod 400 / 4 - y' mod 400 / 100)) with doy by (subst doe; lia).
  rewrite Hmonth, <- Hm. f_equal; [|subst doy; lia].
  unfold y' in *. destruct (m <=? 2); lia.
Qed.

(** ** ISO dates read back *)

Definition four_digit_year (days : Z) : Prop := 0 <= year (ymd_of days) <= 9999.

Lemma pad_loop_zeros f : forall s w, (String.length s <= w)%nat -> (w - String.length s <= f)%nat ->
  chars (pad_loop f s w) = replicate (w - String.length s) "0"%char ++ chars s.
Proof.
  induction f as [|f IH]; intros s w Hw Hf; cbn [pad_loop].
  - by replace (w - String.length s)%nat with 0%nat by lia.
  - destruct (Nat.ltb_spec (String.length s) w).
    + rewrite IH by (simpl; lia). simpl.
      replace (w - String.length s)%nat with (S (w - S (String.length s))) by lia.
      by rewrite replicate_S_end, <- app_assoc.
    + by replace (w - String.length s)%nat with 0%nat by lia.
Qed.

(** A padded number: exactly that many digits, of that value. *)
Lemma pad_spec n w : 0 <= n < 10 ^ Z.of_nat w -> (0 < w)%nat ->
  length (chars (pad n w)) = w /\ digits (chars (pad n w)) /\ dec_value (chars (pad n w)) = n.
Proof.
  intros Hn Hw. pose proof (pretty_length w n Hw Hn) as Hl. unfold pad.
  destruct (pretty_Z_digits n ltac:(lia)) as (Hd & _ & Hv).
  rewrite pad_loop_zeros by lia. set (k := (w - String.length (pretty n))%nat).
  rewrite length_app, length_replicate, chars_length. split_and!; [lia|..].
  - apply Forall_app. split; [|done]. by apply Forall_replicate.
  - rewrite dec_value_from_app. assert (dec_value (replicate k "0"%char) = 0) as ->; [|done].
    induction k; [done|]. simpl. done.
Qed.

(** Ten characters of ISO shape and the date they spell. *)
Lemma parse_iso_shape y1 y2 y3 y4 m1 m2 d1 d2 (ys := [y1; y2; y3; y4]) (ms := [m1; m2]) (ds := [d1; d2]) :
  digits ys -> digits ms -> digits ds ->
  let d := mkYmd (dec_value ys) (dec_value ms) (dec_value ds) in
  parse_iso_date (str (ys ++ ["-"%char] ++ ms ++ ["-"%char] ++ ds)) =
  if ymd_ok d then Some (days_of d) else None.
Proof.
  intros Hy Hm Hd. unfold parse_iso_date. rewrite chars_str. cbn [app ys ms ds].
  rewrite !Ascii.eqb_refl. cbn [negb orb].
  assert (forallb is_ascii_digit [y1; y2; y3; y4; m1; m2; d1; d2] = true) as ->.
  { apply forallb_forall. intros c Hc. apply list_elem_of_In in Hc. unfold digits in *.
    rewrite Forall_forall in Hy, Hm, Hd. subst ys ms ds. set_solver. }
  cbn [negb].
  assert (mkYmd (digit_value y1 * 1000 + digit_value y2 * 100 + digit_value y3 * 10 + digit_value y4)
            (two m1 m2) (two d1 d2) = mkYmd (dec_value ys) (dec_value ms) (dec_value ds)) as ->.
  { unfold two, dec_value_from, ys, ms, ds. cbn [fold_left]. f_equal; lia. }
  by destruct (ymd_ok _).
Qed.

(** Every four-digit-year date that is printed reads back. *)
Lemma parse_to_iso days : four_digit_year days -> parse_iso_date (to_iso (ymd_of days)) = Some days.
Proof.
  intros Hy. unfold four_digit_year in Hy. destruct (days_of_ymd days) as [Hd Hok].
  set (d := ymd_of days) in *. pose proof Hok as Hr. unfold ymd_ok in Hr. to_prop.
  assert (last_day (year d) (month d) <= 31) as H31.
  { unfold last_day. repeat case_match; lia. }
  destruct (pad_spec (year d) 4) as (L1 & D1 & V1); [change (10 ^ Z.of_nat 4) with 10000; lia|lia|].
  destruct (pad_spec (month d) 2) as (L2 & D2 & V2); [change (10 ^ Z.of_nat 2) with 100; lia|lia|].
  destruct (pad_spec (dom d) 2) as (L3 & D3 & V3); [change (10 ^ Z.of_nat 2) with 100; lia|lia|].
  unfold to_iso. rewrite <- (str_chars (_ +:+ _)), !chars_app.
  destruct (chars (pad (year d) 4)) as [|y1 [|y2 [|y3 [|y4 [|]]]]]; try done.
  destruct (chars (pad (month d) 2)) as [|m1 [|m2 [|]]]; try done.
  destruct (chars (pad (dom d) 2)) as [|d1 [|d2 [|]]]; try done.
  simpl chars. rewrite parse_iso_shape by done. cbv zeta. rewrite V1, V2, V3.
  destruct d as [y m dd]. simpl in *. by rewrite Hok, Hd.
Qed.

(** Digit strings of one length are told apart by their value. *)
Lemma dec_value_inj l : forall a b k, digits l -> digits k -> length l = length k ->
  dec_value_from a l = dec_value_from b k -> l = k /\ a = b.
Proof.
  induction l as [|c l IH] using rev_ind; intros a b k Hl Hk Hlen E.
  - destruct k; [done|]. simpl in Hlen. lia.
  - destruct k as [|d k _] using rev_ind; [rewrite length_app in Hlen; simpl in Hlen; lia|].
    rewrite !length_app in Hlen. simpl in Hlen.
    apply Forall_app in Hl as [Hl Hc]. apply Forall_app in Hk as [Hk Hd].
    apply Forall_cons in Hc as [Hc _]. apply Forall_cons in Hd as [Hd _].
    rewrite !dec_value_from_app in E. unfold dec_value_from in E at 1 3. cbn [fold_left] in E.
    pose proof (digit_value_range c Hc). pose proof (digit_value_range d Hd).
    assert (digit_value c = digit_value d /\ dec_value_from a l = dec_value_from b k) as [Hv E'] by lia.
    destruct (IH a b k Hl Hk ltac:(lia) E') as [-> ->]. split; [|done]. f_equal. f_equal.
    unfold digit_value in Hv. rewrite <- (ascii_nat_embedding c), <- (ascii_nat_embedding d). f_equal. lia.
Qed.

Lemma pad_digits l : digits l -> l <> [] -> pad (dec_value l) (length l) = str l.
Proof.
  intros Hl Hne. assert (forall l acc, digits l -> 0 <= acc ->
    0 <= dec_value_from acc l < (acc + 1) * 10 ^ Z.of_nat (length l)) as Hb.
  { clear. induction l as [|c l IH]; intros acc Hl Hacc.
    - unfold dec_value_from. simpl. lia.
    - apply Forall_cons in Hl as [Hc Hl]. pose proof (digit_value_range c Hc).
      specialize (IH (10 * acc + digit_value c) Hl ltac:(lia)). cbn [length].
      change (dec_value_from acc (c :: l)) with (dec_value_from (10 * acc + digit_value c) l).
      rewrite Nat2Z.inj_succ, Z.pow_succ_r by lia.
      assert (0 < 10 ^ Z.of_nat (length l)) by (apply Z.pow_pos_nonneg; lia). nia. }
  specialize (Hb l 0 Hl ltac:(lia)).
  destruct (pad_spec (dec_value l) (length l)) as (H1 & H2 & H3); [lia|destruct l; simpl; [done|lia]|].
  apply (inj chars). rewrite chars_str. by apply (dec_value_inj _ 0 0).
Qed.

(** A text that reads as a date is the canonical text of that date. *)
Lemma to_iso_parse s days : parse_iso_date s = Some days ->
  s = to_iso (ymd_of days) /\ four_digit_year days.
Proof.
  intros H. pose proof H as H0. unfold parse_iso_date in H.
  destruct (chars s) as [|y1 [|y2 [|y3 [|y4 [|h1 [|m1 [|m2 [|h2 [|d1 [|d2 [|]]]]]]]]]]] eqn:E; try done.
  destruct (Ascii.eqb_spec h1 "-") as [->|]; [|done]. destruct (Ascii.eqb_spec h2 "-") as [->|]; [|done].
  cbn [negb orb] in H. destruct (forallb is_ascii_digit _) eqn:F in H; [|done]. clear H.
  rewrite forallb_forall in F.
  assert (digits [y1; y2; y3; y4] /\ digits [m1; m2] /\ digits [d1; d2]) as (Hy & Hm & Hd).
  { unfold digits. repeat split; apply Forall_forall; intros c Hc; apply F; apply list_elem_of_In; set_solver. }
  assert (s = str ([y1; y2; y3; y4] ++ ["-"%char] ++ [m1; m2] ++ ["-"%char] ++ [d1; d2])) as Hs
    by by rewrite <- (str_chars s), E.
  rewrite Hs, parse_iso_shape in H0 by done. cbv zeta in H0.
  set (d := mkYmd _ _ _) in H0. destruct (ymd_ok d) eqn:Hok; [|done]. injection H0 as <-.
  unfold four_digit_year. rewrite ymd_of_days by done. split.
  - unfold to_iso, d. cbn [year month dom].
    rewrite (pad_digits [y1; y2; y3; y4] Hy ltac:(done) : pad _ 4 = _), (pad_digits [m1; m2] Hm ltac:(done) : pad _ 2 = _),
      (pad_digits [d1; d2] Hd ltac:(done) : pad _ 2 = _). done.
  - unfold d. cbn [year]. unfold digits in Hy. rewrite Forall_forall in Hy.
    unfold dec_value_from. cbn [fold_left].
    pose proof (digit_value_range y1 ltac:(apply Hy; set_solver)). pose proof (digit_value_range y2 ltac:(apply Hy; set_solver)).
    pose proof (digit_value_range y3 ltac:(apply Hy; set_solver)). pose proof (digit_value_range y4 ltac:(apply Hy; set_solver)). lia.
Qed.

(** Every instant of a 64-bit nanosecond clock has a four-digit year. *)
Lemma clock_year days : - 106752 <= days <= 106752 -> four_digit_year days.
Proof.
  intros H. unfold four_digit_year, ymd_of. cbv zeta. cbn [year].
  pose proof (Z.mod_pos_bound (days + 719468) 146097 ltac:(lia)) as Hdoe.
  destruct (era_year ((days + 719468) mod 146097) Hdoe) as (Hy & _ & _). revert Hy.
  generalize (((days + 719468) mod 146097 - (days + 719468) mod 146097 / 1460 +
    (days + 719468) mod 146097 / 36524 - (days + 719468) mod 146097 / 146096) / 365). intros yoe Hy.
  assert (4 <= (days + 719468) / 146097 <= 5) as Hera by (Z.div_mod_to_equations; lia).
  destruct (_ <=? 2); lia.
Qed.

(** ** What the calendar promises *)

(** The day is listed as a special session, or it is a listed holiday's opposite:
    a Monday to Friday that is not listed. *)
Definition trading_day (data : CalendarData) (day : Z) : Prop :=
  to_iso (ymd_of day) ∈ special_sessions data \/
  (to_iso (ymd_of day) ∉ holidays data /\ weekday day <> 0 /\ weekday day <> 6).

(** The minute of the exchange-local day. *)
Definition local_minute (c : TradingCalendar) (now : Z) : Z :=
  (local_time c now mod day_ns) / minute_ns.

Definition within (lo hi x : Z) : Prop := lo <= x < hi.

Lemma local_now_spec c now : local_now c now = (to_iso (ymd_of (local_day c now)), local_minute c now).
Proof.
  unfold local_now, local_minute. cbv zeta. f_equal. unfold local_day.
  assert (0 < day_ns) as Hd by done. pose proof (Z.mod_pos_bound (local_time c now) day_ns Hd).
  assert (local_time c now - local_time c now / day_ns * day_ns = local_time c now mod day_ns) as ->
    by (rewrite Z.mod_eq by lia; ring).
  apply Z.quot_div_nonneg; [lia|done].
Qed.

Lemma local_minute_range c now : 0 <= local_minute c now < 1440.
Proof.
  unfold local_minute. pose proof (Z.mod_pos_bound (local_time c now) day_ns ltac:(done)) as H.
  split; [apply Z.div_pos; [lia|done]|]. apply Z.div_lt_upper_bound; [done|]. unfold day_ns in *. lia.
Qed.

Lemma is_trading_day_spec c day : four_digit_year day ->
  is_trading_day c (to_iso (ymd_of day)) = true <-> trading_day (cal c) day.
Proof.
  intros Hy. unfold is_trading_day, trading_day. rewrite parse_to_iso by done.
  repeat case_bool_decide; [tauto|intuition congruence|].
  rewrite negb_true_iff, orb_false_iff, !Z.eqb_neq. tauto.
Qed.

Lemma clock_four_digits c now : is_int64 (local_time c now) -> four_digit_year (local_day c now).
Proof.
  unfold is_int64, int64_min, int64_max. intros H. apply clock_year. unfold local_day.
  change day_ns with 86400000000000. Z.div_mod_to_equations. lia.
Qed.

Lemma entry_allowed_ok c now : is_int64 (local_time c now) ->
  require_entry_allowed c now = Ok tt <->
  trading_day (cal c) (local_day c now) /\ within (open_min (cal c)) (entry_cutoff_min (cal c)) (local_minute c now).
Proof.
  intros Hnow. rewrite <- (is_trading_day_spec c _ (clock_four_digits c now Hnow)).
  unfold require_entry_allowed, within. rewrite local_now_spec.
  destruct (is_trading_day c _); simpl; [|intuition congruence].
  destruct (Z.ltb_spec (local_minute c now) (open_min (cal c))), (Z.leb_spec (entry_cutoff_min (cal c)) (local_minute c now));
    intuition (lia || congruence).
Qed.

(** an entry is allowed exactly when the exchange-local day of the instant is a
    trading day (a special session, or a weekday that is no holiday) and its
    minute lies from the open up to, not including, the cutoff; the two window
    predicates are the same test against their own ends; a refusal is
    MarketClosed and blocks the strategy; and a calendar that was never loaded
    admits nothing. *)
Theorem calendar_exact c now (Hnow : is_int64 (local_time c now)) :
  let day := trading_day (cal c) (local_day c now) in
  let m := local_minute c now in
  (require_entry_allowed c now = Ok tt <-> day /\ within (open_min (cal c)) (entry_cutoff_min (cal c)) m) /\
  in_entry_window c now = is_ok (require_entry_allowed c now) /\
  (in_session c now = true <-> day /\ within (open_min (cal c)) (close_min (cal c)) m) /\
  (forall e, require_entry_allowed c now = Err e -> category e = MarketClosed /\ action e = BlockStrategy) /\
  (cal c = empty_calendar -> is_ok (require_entry_allowed c now) = false).
Proof.
  cbv zeta. split; [by apply entry_allowed_ok|]. pose proof (is_trading_day_spec c _ (clock_four_digits c now Hnow)) as Hday.
  pose proof (local_minute_range c now) as Hm. rewrite <- Hday. clear Hday.
  unfold require_entry_allowed, in_entry_window, in_session, within. rewrite local_now_spec.
  set (d := is_trading_day c _). set (m := local_minute c now) in *.
  rewrite !andb_true_iff, !Z.leb_le, !Z.ltb_lt.
  assert ((entry_cutoff_min (cal c) <=? m) = negb (m <? entry_cutoff_min (cal c))) as -> by apply Z.leb_antisym.
  assert ((m <? open_min (cal c)) = negb (open_min (cal c) <=? m)) as -> by apply Z.ltb_antisym.
  split_and!.
  - by destruct d, (_ <=? m), (m <? _).
  - tauto.
  - intros e. destruct d, (_ <=? m), (m <? _); simpl; intros; by simplify_eq.
  - intros ->. simpl. destruct d; [|done]. simpl. rewrite (proj2 (Z.leb_le 0 m)), (proj2 (Z.ltb_ge m 0)) by lia. done.
Qed.

Definition sample_calendar : TradingCalendar :=
  mkTradingCalendar "/c" "kite" 330
    (mkCalendar {["2024-01-26"]} {["2024-03-02"]} 555 920 920 930) "2024-03-02" true.

(** Saturday 2 March 2024, 10:00 IST: a special session. *)
Lemma calendar_exact_witness :
  require_entry_allowed sample_calendar (1709353800 * 10 ^ 9) = Ok tt.
Proof.
  apply (calendar_exact sample_calendar (1709353800 * 10 ^ 9)).
  - split; by vm_compute.
  - split; [|split; by vm_compute]. left. apply (bool_decide_unpack (_ ∈ _)). by vm_compute.
Defined.

(** ** The document and its cache *)

(** A set of dates as a document may give it: canonical texts of real days. *)
Definition real_dates (s : gset string) : Prop :=
  forall d, d ∈ s -> exists day, four_digit_year day /\ d = to_iso (ymd_of day).

Definition minute_of_day (m : Z) : Prop := 0 <= m < 1440.

Record calendar_wf (data : CalendarData) : Prop := {
  cw_holidays : real_dates (holidays data);
  cw_special : real_dates (special_sessions data);
  cw_windows : minute_of_day (open_min data) /\ minute_of_day (entry_cutoff_min data) /\
    minute_of_day (square_off_min data) /\ minute_of_day (close_min data);
}.

Lemma load_entries_real key l : forall out s, real_dates out -> load_entries key l out = Ok s -> real_dates s.
Proof.
  induction l as [|[] l IH]; intros out s0 Ho H; simpl in H; simplify_eq; try done.
  destruct (parse_iso_date s) as [day|] eqn:E; [|done]. apply (IH _ _) in H; [done|].
  intros d [->%elem_of_singleton|Hd]%elem_of_union; [|by apply Ho].
  apply to_iso_parse in E as [-> Hy]. eauto.
Qed.

Lemma load_dates_real fields key s : load_dates fields key = Ok s -> real_dates s.
Proof.
  unfold load_dates. destruct (json_find key fields) as [[]|]; try done.
  - apply load_entries_real. by intros d Hd%not_elem_of_empty.
  - intros [= <-]. by intros d Hd%not_elem_of_empty.
Qed.

Lemma get_window_range w key m : get_window w key = Some m -> minute_of_day m.
Proof.
  unfold get_window, minute_of_day, parse_hhmm. destruct (json_find key w) as [[]|]; try done.
  destruct (chars s) as [|h1 [|h2 [|c [|m1 [|m2 [|]]]]]]; try done.
  destruct (negb _); [done|]. destruct (forallb _ _) eqn:F; [|done]. cbn [negb].
  destruct (_ || _) eqn:R; [done|]. intros [= <-]. to_prop. simpl in F. to_prop.
  repeat match goal with H : is_ascii_digit _ = true |- _ => apply digit_value_range in H end.
  unfold two in *. lia.
Qed.

Lemma parse_calendar_wf parse_doc doc data : parse_calendar_json parse_doc doc = Ok data -> calendar_wf data.
Proof.
  unfold parse_calendar_json. destruct (parse_doc doc) as [[]|]; try done.
  destruct (load_dates fields "holidays") as [hol|] eqn:Eh; [|done]. simpl.
  destruct (load_dates fields "special_sessions") as [sp|] eqn:Es; [|done]. simpl.
  destruct (json_find "windows" fields) as [[]|]; try done.
  destruct (get_window _ "open") eqn:E1; [|done]. destruct (get_window _ "entry_cutoff") eqn:E2; [|done].
  destruct (get_window _ "square_off") eqn:E3; [|done]. destruct (get_window _ "close") eqn:E4; [|done].
  intros [= <-]. split; simpl; [by eapply load_dates_real..|].
  split_and!; by eapply get_window_range.
Qed.

(** the cache is written before the calendar counts as fresh: a refresh that
    succeeds leaves a well-formed calendar, fresh for the rest of the local day,
    and a file from which another process of the same broker and time zone loads
    the very same calendar on that day; one that fails leaves the object as it
    was, and touches at most today's file. *)
Theorem refresh_persists parse_doc c fetched now fault files :
  match refresh parse_doc c fetched now fault files with
  | (Ok _, c', files') =>
      calendar_wf (cal c') /\
      (forall t, local_day c t = local_day c now -> require_fresh c' t = Ok tt) /\
      forall c2 t, broker c2 = broker c -> tz_offset_minutes c2 = tz_offset_minutes c ->
        local_day c t = local_day c now ->
        exists c2', load_cached_for parse_doc c2 (today_local c2 t) false files' = (Ok tt, c2') /\
          cal c2' = cal c' /\ require_fresh c2' t = Ok tt
  | (Err _, c', files') =>
      c' = c /\ forall f, f <> cache_file_for c (today_local c now) -> files' !! f = files !! f
  end.
Proof.
  assert (forall c t, today_local c t = to_iso (ymd_of (local_day c t))) as Htoday.
  { intros c0 t. unfold today_local. by rewrite local_now_spec. }
  unfold refresh. destruct fetched as [doc|e]; [|done].
  destruct (parse_calendar_json parse_doc doc) as [data|e] eqn:E; [|done].
  destruct fault; [|by split..|split; [done|]; intros f Hf; rewrite lookup_insert_ne; done].
  assert (forall c0 t, tz_offset_minutes c0 = tz_offset_minutes c -> local_day c t = local_day c now ->
    require_fresh (commit c0 data (today_local c now)) t = Ok tt) as Hf.
  { intros c0 t Htz Hd. unfold require_fresh. rewrite !Htoday.
    change (local_day (commit c0 data _) t) with (local_day c0 t).
    assert (local_day c0 t = local_day c t) as -> by (unfold local_day, local_time; by rewrite Htz).
    rewrite Hd. simpl. by rewrite String.eqb_refl. }
  split; [by eapply parse_calendar_wf|]. split; [intros t Ht; by apply Hf|].
  intros c2 t Hb Htz Hd. exists (commit c2 data (today_local c now)). split; [|split; [done|by apply Hf]].
  assert (today_local c2 t = today_local c now) as ->.
  { rewrite !Htoday. do 2 f_equal. unfold local_day, local_time in *. by rewrite Htz. }
  unfold load_cached_for, cache_file_for. rewrite Hb, lookup_insert_eq. unfold ingest. by rewrite E.
Qed.
