(* ===== verification/Provenance.v ===== *)
(** * Provenance: a valid strategy name keeps every reference readable

    The contract of [is_valid_strategy_name] (redaction.cpp, redaction.hpp)
    against the reference minter of the idempotency module (ClientRef) and its
    digests (Sha256) and UUIDs. *)

From S2P Require Import Prelude Errors Sha256 ClientRef Utf8 Redaction.

(** The reference [reserve] mints for a signal of a strategy. *)
Definition minted_ref (name signal : string) (hi lo : Z) : string :=
  make_client_ref name (sha256_hex signal) (format_uuid_v4 hi lo).

#[local] Opaque sha256_hex.

Abbreviation id_chars := (Forall (fun c => is_provenance_id_char c = true)).

(** ** The shape loop over segments and separators *)

Lemma alnum_id c : is_alnum c = true -> is_provenance_id_char c = true.
Proof. by_chars c. Qed.
Lemma token_id c : is_token_char c = true -> is_provenance_id_char c = true.
Proof. by_chars c. Qed.
Lemma hex_alnum c : is_hex_digit c = true -> is_alnum c = true.
Proof. by_chars c. Qed.

Lemma loop_seg seg tail : forall n letters hex,
  Forall (fun c => is_alnum c = true) seg ->
  (letters && forallb is_letter seg) || (hex && forallb is_hex_digit seg) = true ->
  id_shape_loop n (Some (letters, hex)) (seg ++ tail) =
  id_shape_loop n (Some (letters && forallb is_letter seg, hex && forallb is_hex_digit seg)) tail.
Proof.
  induction seg as [|c seg IH]; intros n letters hex Ha H; simpl in *; [by rewrite !andb_true_r|].
  apply Forall_cons in Ha as [Hc Ha]. rewrite alnum_id, Hc by done. simpl.
  rewrite !andb_assoc in *. rewrite <- IH by done.
  destruct (letters && is_letter c), (hex && is_hex_digit c); simpl in *; done.
Qed.

Lemma shape_plain n st c r : is_provenance_id_char c = true -> is_alnum c = false ->
  id_shape_loop n st (c :: r) = id_shape_loop n None r.
Proof. intros H1 H2. simpl. by rewrite H1, H2. Qed.

(** One homogeneous segment counts one, whatever follows it. *)
Lemma shape_segment n seg tail : seg <> [] -> Forall (fun c => is_alnum c = true) seg -> homogeneous seg = true ->
  stops is_alnum tail -> id_shape_loop n None (seg ++ tail) = id_shape_loop (S n) None tail.
Proof.
  intros Hne Ha Hh Ht. destruct seg as [|c seg]; [done|]. apply Forall_cons in Ha as [Hc Ha].
  assert (id_shape_loop n None ((c :: seg) ++ tail) = id_shape_loop (S n) (Some (true, true)) ((c :: seg) ++ tail)) as ->
    by (simpl; by rewrite alnum_id, Hc by done).
  rewrite loop_seg by (by constructor || exact Hh). destruct tail as [|d tail]; [done|].
  simpl. simpl in Ht. destruct (is_provenance_id_char d); [|done]. simpl. by rewrite Ht.
Qed.

Lemma shape_sep a c b : is_provenance_id_char c = true -> is_alnum c = false -> forall n st,
  id_shape_loop n st (a ++ c :: b) =
  match id_shape_loop n st a with Some m => id_shape_loop m None b | None => None end.
Proof.
  intros H1 H2. induction a as [|x a IH]; intros n st; [by apply shape_plain|].
  simpl. destruct (is_provenance_id_char x); simpl; [|done]. destruct (is_alnum x); [|apply IH].
  destruct st as [[l h]|]; destruct (_ && _); try done; apply IH.
Qed.

(** A text without mixed segments goes through the loop. *)
Lemma shape_unmixed f : forall l n, (length l <= f)%nat -> id_chars l -> first_mixed_segment f l = [] ->
  exists m, id_shape_loop n None l = Some m /\ (n <= m)%nat /\ (existsb is_alnum l = true -> (n < m)%nat).
Proof.
  induction f as [|f IH]; intros [|c r] n Hf Hid Hm; try (simpl in Hf; lia);
    try (exists n; split; [done|]; split; [lia|done]).
  simpl in Hf. apply Forall_cons in Hid as [Hc Hid]. cbn [first_mixed_segment] in Hm.
  destruct (is_alnum c) eqn:Ha; simpl negb in Hm; cbv iota in Hm.
  - destruct (span is_alnum (c :: r)) as [seg tail] eqn:E. apply span_spec in E as (Hl & Hs & Ht).
    assert (seg <> []) as Hne by (intros ->; simpl in Hl; subst tail; simpl in Ht; congruence).
    destruct (homogeneous seg) eqn:Hh; [|done].
    assert (length (c :: r) = length seg + length tail)%nat as Hlen by (rewrite Hl; apply length_app).
    assert (0 < length seg)%nat by (destruct seg; [done|simpl; lia]). simpl in Hlen.
    assert (id_chars tail) as Hid2.
    { assert (id_chars (c :: r)) as Hall by (by constructor). rewrite Hl in Hall. by apply Forall_app in Hall as [_ ?]. }
    destruct (IH tail (S n) ltac:(lia) Hid2 Hm) as (m & Hm1 & Hm2 & _).
    exists m. rewrite Hl, shape_segment by done. split; [done|]. split; [lia|]. intros _. lia.
  - destruct (IH r n ltac:(lia) Hid Hm) as (m & Hm1 & Hm2 & Hm3). exists m.
    rewrite shape_plain by done. simpl. rewrite Ha. done.
Qed.

(** ** The minted reference *)

Definition hex_digits (l : list ascii) : Prop := l <> [] /\ Forall (fun c => is_hex_digit c = true) l.

Lemma shape_hex n l : hex_digits l -> id_shape_loop n None l = Some (S n).
Proof.
  intros [Hne Hl]. rewrite <- (app_nil_r l), shape_segment; [done|done| |by apply orb_true_iff; right; apply forallb_forall; intros; eapply Forall_forall in Hl; [done|by apply list_elem_of_In]|done].
  eapply Forall_impl; [exact Hl|]. simpl. intros c. apply hex_alnum.
Qed.

Lemma kHex_hex i : is_hex_digit (nth i kHex "0"%char) = true.
Proof. do 16 (destruct i as [|i]; [reflexivity|]). by destruct i. Qed.

Lemma append_hex_app out v n : exists l, append_hex out v n = out ++ l /\ length l = n /\
  Forall (fun c => is_hex_digit c = true) l.
Proof.
  eexists. split; [reflexivity|]. split; [by rewrite length_map, length_rev, length_seq|].
  apply Forall_map, Forall_forall. intros i _. apply kHex_hex.
Qed.

Lemma uuid_groups hi lo : exists a b c d e,
  chars (format_uuid_v4 hi lo) = a ++ "-"%char :: b ++ "-"%char :: c ++ "-"%char :: d ++ "-"%char :: e /\
  Forall hex_digits [a; b; c; d; e] /\ length (chars (format_uuid_v4 hi lo)) = 36%nat.
Proof.
  unfold format_uuid_v4. rewrite chars_str.
  repeat match goal with |- context [append_hex ?o ?v ?n] =>
    let l := fresh "l" in let H := fresh "H" in let Hl := fresh "L" in let Hh := fresh "X" in
    destruct (append_hex_app o v n) as (l & H & Hl & Hh); rewrite H; clear H end.
  rewrite <- !app_assoc. simpl. do 5 eexists. split; [reflexivity|]. split.
  - repeat constructor; try done; match goal with H : length ?l = _ |- ?l <> [] => by destruct l end.
  - rewrite !length_app; simpl. rewrite !length_app; simpl. rewrite !length_app; simpl. rewrite !length_app; simpl. lia.
Qed.

(** ** What an accepted name is *)

Lemma valid_name name : is_valid_strategy_name name = true ->
  name <> "" /\ (String.length name <= 64)%nat /\ Forall (fun c => is_token_char c = true) (chars name) /\
  existsb is_alnum (chars name) = true /\ mixed_segment (chars name) = [] /\ scrub_provenance_column name = name.
Proof.
  unfold is_valid_strategy_name, explain_invalid_strategy_name, explain. rewrite String.eqb_eq.
  destruct (String.eqb_spec name "") as [|Hne]; [done|].
  destruct (Nat.ltb_spec kMaxStrategyNameChars (String.length name)) as [|Hlen]; [done|].
  destruct (String.eqb_spec (canonical_text name) name); simpl negb; cbv iota; [|done].
  destruct (forallb is_strategy_name_char (chars name)) eqn:Hch; simpl negb; cbv iota; [|done].
  destruct (existsb is_alnum (chars name)) eqn:Ha; simpl negb; cbv iota; [|done].
  destruct (bool_decide_reflect (mixed_segment (chars name) = [])) as [Hm|Hm]; simpl negb; cbv iota;
    [|by destruct (_ && _)].
  destruct (String.eqb_spec (scrub_provenance_column name) name) as [Hs|]; simpl negb; cbv iota; [|done].
  intros _. split_and!; try done. apply Forall_forall. intros c Hc.
  eapply forallb_forall in Hch; [exact Hch|]. by apply list_elem_of_In.
Qed.

Lemma sig8_hex x : hex_digits (chars (sig8_of (sha256_hex x))) /\ length (chars (sig8_of (sha256_hex x))) = 8%nat.
Proof.
  destruct (sha256_hex_shape x) as [Hlen Hhex]. unfold sig8_of. rewrite chars_str.
  assert (length (take 8 (chars (sha256_hex x))) = 8%nat) as H8 by (rewrite length_take, chars_length, Hlen; done).
  split; [|done]. split; [intros E; by rewrite E in H8|]. apply Forall_take.
  eapply Forall_impl; [exact Hhex|]. simpl. intros c. by_chars c.
Qed.

Lemma hex_digits_id l : hex_digits l -> id_chars l.
Proof. intros [_ H]. eapply Forall_impl; [exact H|]. intros c Hc. by apply alnum_id, hex_alnum. Qed.

(** The reference as a name and seven hex groups. *)
Lemma minted_shape name x hi lo : is_valid_strategy_name name = true ->
  let ref := make_client_ref name (sha256_hex x) (format_uuid_v4 hi lo) in
  exists m, id_shape_loop 0 None (chars ref) = Some m /\ (2 <= m)%nat /\
    (String.length ref <= 110)%nat /\ ref <> "" /\ "#"%char ∉ chars ref.
Proof.
  intros Hv ref. destruct (valid_name name Hv) as (Hne & Hlen & Htok & Hal & Hm & _).
  destruct (sig8_hex x) as [Hsig H8]. destruct (uuid_groups hi lo) as (a & b & c & d & e & Hu & Hg & H36).
  assert (id_chars (chars name)) as Hid by (eapply Forall_impl; [exact Htok|]; intros ?; apply token_id).
  destruct (shape_unmixed _ (chars name) 0 (le_n _) Hid Hm) as (m & Hm1 & _ & Hm3). specialize (Hm3 Hal).
  assert (chars ref = chars name ++ "-"%char :: chars (sig8_of (sha256_hex x)) ++ "-"%char :: chars (format_uuid_v4 hi lo)) as Href
    by (unfold ref, make_client_ref; rewrite !chars_app; done).
  repeat (apply Forall_cons in Hg as [? Hg]).
  exists (6 + m)%nat. rewrite Href, Hu.
  rewrite shape_sep, Hm1 by done. cbv iota beta.
  do 5 (rewrite shape_sep, shape_hex by done; cbv iota beta). rewrite shape_hex by done. split_and!; [done|lia| | |].
  - rewrite <- chars_length, Href, length_app. cbn [length]. rewrite length_app. cbn [length].
    rewrite H8, H36, chars_length. lia.
  - intros E. rewrite E in Href. by destruct (chars name).
  - intros Hin.
    assert (Forall (fun x => is_token_char x = true)
      (chars name ++ "-"%char :: chars (sig8_of (sha256_hex x)) ++ "-"%char ::
       a ++ "-"%char :: b ++ "-"%char :: c ++ "-"%char :: d ++ "-"%char :: e)) as Hall.
    { assert (forall l, hex_digits l -> Forall (fun x => is_token_char x = true) l) as Hh.
      { intros l [_ Hl]. eapply Forall_impl; [exact Hl|]. simpl. intros z. by_chars z. }
      repeat (apply Forall_app; split; [by auto|apply Forall_cons; split; [done|]]). by auto. }
    rewrite Forall_forall in Hall. by specialize (Hall _ Hin).
Qed.

Lemma id_shape_true l m : id_shape_loop 0 None (chars l) = Some m -> (2 <= m)%nat -> l <> "" ->
  (String.length l <= 128)%nat -> is_provenance_id_shape l = true.
Proof.
  intros Hs Hm Hne Hlen. unfold is_provenance_id_shape.
  rewrite bool_decide_eq_false_2 by (by destruct l). simpl.
  destruct (Nat.ltb_spec kMaxProvenanceIdChars (length (chars l))) as [H|_].
  - rewrite chars_length in H. unfold kMaxProvenanceIdChars in H. lia.
  - rewrite Hs. by apply (Nat.leb_le 2).
Qed.

(** A suffix of letters or digits after a ['#'] keeps the shape. *)
Lemma suffix_shape ref suffix m : id_shape_loop 0 None (chars ref) = Some m -> (2 <= m)%nat ->
  (String.length ref <= 110)%nat -> (String.length suffix <= 17)%nat -> chars suffix <> [] ->
  Forall (fun c => is_alnum c = true) (chars suffix) -> homogeneous (chars suffix) = true ->
  is_provenance_id_shape (ref +:+ "#" +:+ suffix) = true.
Proof.
  intros Hs Hm Hr Hl Hne Ha Hh. apply (id_shape_true _ (S m)).
  - rewrite chars_app. simpl. rewrite shape_sep, Hs by done.
    rewrite <- (app_nil_r (chars suffix)), shape_segment by done. done.
  - lia.
  - destruct ref; done.
  - rewrite str_length_app. simpl. lia.
Qed.

(** for every strategy name the validation accepts, every client reference
    minted from it, whatever the signal and the random UUID, has the identifier
    shape and is therefore rendered verbatim in a provenance column, and so are
    its square-off reference and all its slice references; the name itself
    survives its own column; and the reference is never mistaken for a slice. *)
Theorem valid_name_keeps_refs name signal hi lo (Hvalid : is_valid_strategy_name name = true) :
  let ref := minted_ref name signal hi lo in
  is_provenance_id_shape ref = true /\ scrub_provenance_column ref = ref /\
  scrub_provenance_column name = name /\
  is_provenance_id_shape (ref +:+ "#" +:+ "X") = true /\
  (forall k, 1 <= k < 10 ^ 17 -> is_provenance_id_shape (child_ref ref k) = true) /\
  is_child_ref ref = false.
Proof.
  cbv zeta. unfold minted_ref. set (ref := make_client_ref _ _ _). destruct (minted_shape name signal hi lo Hvalid) as (m & Hs & Hm & Hlen & Hne & Hh). fold ref in Hs, Hlen, Hne, Hh.
  assert (is_provenance_id_shape ref = true) as Hid by (apply (id_shape_true _ m); auto; lia).
  split_and!; [done|unfold scrub_provenance_column; by rewrite Hid|by apply valid_name| | |].
  - by apply (suffix_shape ref "X" m); try done; [simpl; lia|repeat constructor].
  - intros k Hk. unfold child_ref. destruct (Z.ltb_spec k 1); [lia|].
    destruct (pretty_Z_digits k ltac:(lia)) as (Hd & Hnil & _).
    apply (suffix_shape ref (pretty k) m); try done.
    + apply pretty_length; [lia|]. change (Z.of_nat 17) with 17. lia.
    + eapply Forall_impl; [exact Hd|]. simpl. intros c. by_chars c.
    + apply orb_true_iff. right. apply forallb_forall. intros c Hc. apply list_elem_of_In in Hc.
      unfold digits in Hd. rewrite Forall_forall in Hd. specialize (Hd _ Hc). revert Hd. by_chars c.
  - unfold is_child_ref. by rewrite rfind_none.
Qed.

Lemma valid_name_keeps_refs_witness :
  is_valid_strategy_name "momentum-v-2" = true /\
  is_child_ref (minted_ref "momentum-v-2" "s" 1 2) = false.
Proof.
  assert (is_valid_strategy_name "momentum-v-2" = true) as H by (vm_compute; reflexivity).
  split; [exact H|]. apply (valid_name_keeps_refs "momentum-v-2" "s" 1 2 H).
Defined.
