(* ===== verification/Engine.v ===== *)
(** * Engine: the pre-flight chains (src/src/composition/engine_assembly.cpp)

    The composition root: the fail-closed builder [make_engine], the posture with
    the kill switch as its floor, and the three chains every order survives
    before it may be sent. The sources of [EngineDeps] are the answers they give
    during the one call the chain makes to each; the funds view, which the entry
    chain refreshes, is threaded as a state. *)

From S2P Require Import Prelude Errors Domain Risk Gate PriceBand ModifyGuard MarginSafety RejectReason Calendar Modes.

(** ** Data (engine_assembly.hpp) *)

Inductive EngineMode := EntryCapable | EngineExitOnly.

#[export] Instance EngineMode_eq_dec : EqDecision EngineMode.
Proof. solve_decision. Defined.

Definition engine_mode_to_string (m : EngineMode) : string :=
  match m with EntryCapable => "EntryCapable" | EngineExitOnly => "ExitOnly" end.

Definition kEngineMode : string := "engine-mode".
Definition kExitClass : string := "exit-class".
Definition kPosture : string := "posture".
Definition kSession : string := "session".
Definition kInstrument : string := "instrument".
Definition kRiskLimits : string := "risk-limits".
Definition kDuplicateProbe : string := "duplicate-probe".
Definition kGate : string := "gate".
Definition kPriceBand : string := "price-band".
Definition kMargin : string := "margin".
Definition kModifyGuard : string := "modify-guard".

Record SessionSnapshot := mkSnapshot { snap_state : SessionState; last_broker_error : string }.

(** A null pointer is [None] or [false]; the coordinator, the risk engine and
    the funds view are only tested for presence here. *)
Record EngineDeps := mkDeps {
  kill_state : option KillState;
  has_posture : bool;
  detector_signals : option (list DetectorSignal);
  session : option SessionSnapshot;
  has_funds_view : bool;
  dep_calendar : option TradingCalendar;
  has_risk_engine : bool;
  unknown_pause : option bool;
  duplicate_probe : option (OrderIntent -> result bool);
  margin_inputs : option (OrderIntent -> result MarginInputs);
  dep_hedge_check : option (OrderIntent -> result unit);
  is_reducing : option (OrderIntent -> bool);
}.

Record EngineOptions := mkOptions {
  engine_mode : EngineMode;
  opt_exchanges : list string;
  opt_products : list Product;
  opt_slice_mode : bool;
  margin_config : MarginSafetyConfig;
  risk_gates_exits : bool;
  declares_no_hedge_check : bool;
  declares_no_risk_limits : bool;
  block_entry_on_unknown_band : bool;
}.

Record EngineAssembly := mkAssembly { deps : EngineDeps; options : EngineOptions }.

Record PreflightInputs := mkInputs {
  in_instrument : Instrument;
  in_band_data : PriceBand;
  in_limits : RiskLimits;
  in_state : RiskState;
}.

Record ModifyContext := mkModifyContext {
  current_state : OrderModifyState;
  observed_filled : Z;
}.

Record PreflightOutcome := mkOutcome {
  gate_outcome : GateOutcome;
  out_session_alert : bool;
  band_checked : bool;
  out_band : BandCheckResult;
  band_unvalidated : bool;
  exit_clamped : bool;
  margin_checked : bool;
  out_margin : MarginSafetyResult;
  modify_checked : bool;
  out_modify : ModifyResult;
}.

(** The default member values. *)
Definition empty_outcome : PreflightOutcome :=
  mkOutcome Allow false false (mkBandResult BandUnknown false money_zero false money_zero false "")
    false false false (mkMarginResult InsufficientBlocked true money_zero money_zero false false "")
    false (mkModifyResult RejectNotModifiable false "").

Record StageResult := mkStage { stage : string; stage_result : result PreflightOutcome }.

(** The readings of the clock and of the funds source during the entry chain:
    those of the gate's funds check and those of the margin stage. *)
Record FundsIo := mkFundsIo {
  fetch : result FundsSnapshot;
  at_test : Z;
  at_fetch : Z;
  at_retest : Z;
}.

(** ** Errors of the stages *)

Definition wiring_error (msg : string) : Error := set_action DoNotRetry (make_error Validation msg "").

Definition stage_prefix (name detail : string) : string := "preflight[" +:+ name +:+ "]: " +:+ detail.

Definition staged (name : string) (inner : Error) : Error :=
  mkError (category inner) (action inner) (stage_prefix name (message inner)) (broker_code inner).

Definition stage_error (name : string) (c : ErrorCategory) (a : SuggestedAction) (detail : string) : Error :=
  set_action a (make_error c (stage_prefix name detail) "").

Definition failed (name : string) (e : Error) : StageResult := mkStage name (Err e).
Definition passed (name : string) (o : PreflightOutcome) : StageResult := mkStage name (Ok o).

Definition rejection_for (v : ModifyVerdict) : ErrorCategory * SuggestedAction :=
  match v with
  | RejectQtyOnPartial | RejectShrinkBelowFilled => (RiskRejected, DoNotRetry)
  | RejectTerminal => (OrderNotFound, ReconcileFirst)
  | RejectRacedFill | RejectNotModifiable | ModifyAllow => (Validation, ReconcileFirst)
  end.

Definition any_risk_limit_armed (l : RiskLimits) : bool :=
  negb (daily_loss_limit_paise l =? 0) || negb (max_open_positions l =? 0) ||
  negb (max_account_margin_paise l =? 0) || negb (max_order_value_paise l =? 0) ||
  block_market_orders l || negb (max_slippage_bps l =? 0) || negb (max_lots_per_strategy l =? 0) ||
  negb (max_lots_per_instrument l =? 0) || negb (strategy_daily_loss_limit_paise l =? 0).

Definition with_price (p : Price) (i : OrderIntent) : OrderIntent :=
  mkIntent (client_ref i) (symbol i) (side i) (quantity i) p (trigger_price i) (order_type i) (product i) (strategy i).
Definition with_trigger (p : Price) (i : OrderIntent) : OrderIntent :=
  mkIntent (client_ref i) (symbol i) (side i) (quantity i) (price i) (Some p) (order_type i) (product i) (strategy i).

(** The intent after the call and whether anything was applied. *)
Definition apply_clamp (i : OrderIntent) (o : PreflightOutcome) : OrderIntent * bool :=
  if negb (band_checked o) then (i, false)
  else
    let b := out_band o in
    let '(i, applied) :=
      if has_suggestion b then (with_price (from_paise (money_paise (suggested_limit b))) i, true) else (i, false) in
    if has_trigger_suggestion b
    then (with_trigger (from_paise (money_paise (suggested_trigger b))) i, true)
    else (i, applied).

(** ** make_engine *)

Definition absent {A} (o : option A) : bool := match o with None => true | Some _ => false end.

Definition refuse {A} (b : bool) (msg : string) (next : result A) : result A :=
  if b then Err (wiring_error msg) else next.

Definition make_engine (d : EngineDeps) (o : EngineOptions) : result EngineAssembly :=
  let hedge_declared :=
    refuse (absent (dep_hedge_check d) && negb (declares_no_hedge_check o))
      "composition: EngineDeps::hedge_check is empty — an empty hedge check makes the gate's naked-sell / hedge-completion check pass VACUOUSLY. That is correct for a long-only or cash-equity book and fatal for a naked option seller, and this module cannot tell which you are. If the book genuinely needs no hedge check, set EngineOptions::declares_no_hedge_check = true."
      (Ok (mkAssembly d o)) in
  let combinations :=
    refuse (risk_gates_exits o && negb (has_risk_engine d))
      "composition: EngineOptions::risk_gates_exits is set but EngineDeps::risk_engine is null — the exit chain would present NO risk check to the gate, silently giving you the permissive posture you explicitly opted out of. Wire risk_engine, or leave risk_gates_exits false."
      hedge_declared in
  let entry_pieces :=
    if bool_decide (engine_mode o = EntryCapable) then
      refuse (negb (has_funds_view d))
        "composition: EngineDeps::funds_view is required for an EntryCapable engine (risk::FundsView supplies GateContext::funds_check via make_funds_check, and the FRESH available-margin figure the buffered marginsafety stage is tested against; an ABSENT funds_check is treated by the gate as PASS, so entries would be sized against nothing)"
      (refuse (absent (dep_calendar d))
        "composition: EngineDeps::calendar is required for an EntryCapable engine (refdata::TradingCalendar is the gate's entry time-window authority; a NULL calendar makes the gate SKIP the time-window check entirely, so entries would be admitted on a holiday, before open, or past the entry cutoff)"
      (refuse (negb (has_risk_engine d))
        "composition: EngineDeps::risk_engine is required for an EntryCapable engine (risk::RiskEngine supplies GateContext::risk_check via make_risk_check; an EMPTY risk_check is treated by the gate as PASS, so every account/strategy/instrument/order limit would be unenforced)"
      (refuse (absent (unknown_pause d))
        "composition: EngineDeps::unknown_pause is required for an EntryCapable engine (the runtime's UNKNOWN-pause flag; it defaults to false on GateContext, so without a source entries would keep flowing while UNKNOWN orders are still unresolved)"
      (refuse (absent (duplicate_probe d))
        "composition: EngineDeps::duplicate_probe is required for an EntryCapable engine (the idempotency reserve probe behind GateContext::is_duplicate; an empty probe means NO duplicate is ever detected, so one strategy signal could become two live orders)"
      (refuse (absent (margin_inputs d))
        "composition: EngineDeps::margin_inputs is required for an EntryCapable engine (the broker-reported margin figures; without them there is no requirement to buffer and the marginsafety stage would have nothing to check)"
        combinations)))))
    else combinations in
  refuse (absent (kill_state d))
    "composition: EngineDeps::kill_state is required in every mode (modes::KillState gates entries via GateContext::kill_entry_block AND supplies the posture operator_floor — without it a Panic kill would resolve to a Normal posture)"
  (refuse (negb (has_posture d))
    "composition: EngineDeps::posture is required in every mode (modes::PostureCoordinator is the single degradation-posture authority; without it no detector failure could ever block an entry or route an exit to the emergency engine)"
  (refuse (absent (detector_signals d))
    "composition: EngineDeps::detector_signals is required in every mode (the posture signal source; an absent source would resolve every posture from the operator floor alone, so a stale feed, a mute socket, a clock stall or a reconcile mismatch would all read as Normal)"
  (refuse (absent (session d))
    "composition: EngineDeps::session is required in every mode (the mid-session re-auth state; an absent source would silently pass entries against a token that died DURING the session)"
    entry_pieces))).

(** ** Posture *)

(** A dereferenced source; [make_engine] refuses the absent ones. *)
Definition kills (e : EngineAssembly) : KillState := default [] (kill_state (deps e)).
Definition signals (e : EngineAssembly) : list DetectorSignal := default [] (detector_signals (deps e)).
Definition snapshot_now (e : EngineAssembly) : SessionSnapshot :=
  default (mkSnapshot SessionFailed "") (session (deps e)).

Definition evaluate_posture (e : EngineAssembly) (active : list DetectorSignal) : Posture :=
  Modes.evaluate active (kill_posture (kills e)).

Definition evaluate_posture_for_strategy (e : EngineAssembly) (strategy : string) : Posture :=
  Modes.evaluate (signals e)
    (if blocks_strategy (kills e) strategy then kill_posture (kills e) else PNormal).

Definition is_entry_capable (e : EngineAssembly) : bool := bool_decide (engine_mode (options e) = EntryCapable).

(** ** preflight_entry *)

Definition mismatch_detail (i : OrderIntent) (inst : Instrument) : string :=
  "resolved instrument '" +:+ inst_symbol inst +:+ "' does not match the intent's symbol '" +:+ symbol i +:+
  "' — lot, tick, freeze and band would all be checked against the wrong contract".

(** The caller's [RiskState] as the composition root corrects it. *)
Definition corrected_state (entry : bool) (s : RiskState) : RiskState :=
  mkRiskState (account_pnl_paise s) (open_positions s) (used_margin_paise s) (order_value_paise s)
    (order_value_known s && (0 <? order_value_paise s)) (order_lots s) (slippage_bps s) entry
    (strategy_lots s) (strategy_pnl_paise s) (strategy_enabled s) (instrument_lots s) (data_tradable s).

(** The gate's context, its funds check left to be filled in. *)
Definition entry_context (e : EngineAssembly) (now : Z) (i : OrderIntent) (ctx : PreflightInputs)
    (dup : bool) (funds risk hedge : option (result unit)) : GateContext :=
  mkGateContext i (in_instrument ctx) false (blocks_strategy (kills e) (strategy i))
    (default false (unknown_pause (deps e))) (Some dup)
    ((fun c => Calendar.require_entry_allowed c now) <$> dep_calendar (deps e))
    funds risk hedge (opt_exchanges (options e)) (opt_products (options e)) (opt_slice_mode (options e)).

(** The gate runs its duplicate probe only when neither the kill switch nor the
    UNKNOWN pause has spoken, and its funds check, which may refresh the view,
    only when every check before it has passed. *)
Definition run_entry_gate (e : EngineAssembly) (now : Z) (io : FundsIo) (view : FundsView)
    (i : OrderIntent) (ctx : PreflightInputs) (required : Z) :
    option Error * result GateOutcome * FundsView :=
  let probe := match duplicate_probe (deps e) with Some p => p i | None => Ok false end in
  let dup := match probe with Ok b => b | Err _ => true end in
  let asked := negb (blocks_strategy (kills e) (strategy i)) && negb (default false (unknown_pause (deps e))) in
  let '(funds, view') := check_margin view (fetch io) (at_test io) (at_fetch io) (at_retest io) required in
  let risk := check_all i (in_limits ctx) (corrected_state true (in_state ctx)) in
  let hedge := (fun h => h i) <$> dep_hedge_check (deps e) in
  let reached := is_ok (validate (entry_context e now i ctx dup None None None)) in
  (if asked then match probe with Err err => Some err | Ok _ => None end else None,
   validate (entry_context e now i ctx dup (Some funds) (Some risk) hedge),
   if reached then view' else view).

(** The margin stage after the band. *)
Definition margin_stage (e : EngineAssembly) (io : FundsIo) (view : FundsView) (margin : MarginInputs)
    (outcome : PreflightOutcome) : StageResult * FundsView :=
  let '(funds, view') := ensure_fresh view (fetch io) (at_test io) (at_fetch io) (at_retest io) in
  match funds with
  | Err err => (failed kMargin (staged kMargin err), view')
  | Ok f =>
      let m := mkMarginInputs (api_required margin) (summed_leg_margin margin) (available_margin f)
                 (is_multi_leg margin) (benefit_trusted margin) in
      let r := evaluate_margin m (margin_config (options e)) in
      let outcome := mkOutcome (gate_outcome outcome) (out_session_alert outcome) (band_checked outcome)
        (out_band outcome) (band_unvalidated outcome) (exit_clamped outcome) true r
        (modify_checked outcome) (out_modify outcome) in
      match require_margin_ok r with
      | Err err => (failed kMargin (staged kMargin err), view')
      | Ok _ => (passed kMargin outcome, view')
      end
  end.

(** The gate, band and margin stages, once the quote is known. *)
Definition entry_tail (e : EngineAssembly) (now : Z) (io1 io2 : FundsIo) (view : FundsView)
    (i : OrderIntent) (ctx : PreflightInputs) (alert : bool) (margin : MarginInputs) : StageResult * FundsView :=
  let '(probe_error, gated, view) :=
    run_entry_gate e now io1 view i ctx (money_paise (api_required margin)) in
  match probe_error with
  | Some err => (failed kDuplicateProbe (staged kDuplicateProbe err), view)
  | None =>
      match gated with
      | Err err => (failed kGate (staged kGate err), view)
      | Ok g =>
          let band := check_price_band i (in_band_data ctx) false in
          let unvalidated := bool_decide (band_verdict band = BandUnknown) in
          let outcome := mkOutcome g alert true band unvalidated false
            (margin_checked empty_outcome) (out_margin empty_outcome)
            (modify_checked empty_outcome) (out_modify empty_outcome) in
          if band_blocked band then
            match require_band_ok i (in_band_data ctx) false with
            | Err err => (failed kPriceBand (staged kPriceBand err), view)
            | Ok _ => (failed kPriceBand (stage_error kPriceBand Validation DoNotRetry
                ("entry is out of band (verdict " +:+ band_verdict_to_string (band_verdict band) +:+ ")")), view)
            end
          else if block_entry_on_unknown_band (options e) && unvalidated
          then (failed kPriceBand (stage_error kPriceBand DataStale BlockStrategy
                  "the circuit/LPP band is unavailable or malformed and this engine is configured to refuse UNVALIDATED entry prices (EngineOptions::block_entry_on_unknown_band)"), view)
          else margin_stage e io2 view margin outcome
      end
  end.

Definition preflight_entry (e : EngineAssembly) (now : Z) (io1 io2 : FundsIo) (view : FundsView)
    (i : OrderIntent) (ctx : PreflightInputs) : StageResult * FundsView :=
  if negb (is_entry_capable e)
  then (failed kEngineMode (stage_error kEngineMode NotSupported DoNotRetry
          ("this assembly was composed as " +:+ engine_mode_to_string (engine_mode (options e)) +:+
           " and has no entry pipeline (it was permitted to build without a funds view, calendar or risk engine); it can never place an entry")), view)
  else match Modes.require_entry_allowed (evaluate_posture_for_strategy e (strategy i)) with
  | Err err => (failed kPosture (staged kPosture err), view)
  | Ok _ =>
      let sp := assess_session (snap_state (snapshot_now e)) (last_broker_error (snapshot_now e)) in
      match require_session_op sp ClassEntry with
      | Err err => (failed kSession (staged kSession err), view)
      | Ok _ =>
          if negb (String.eqb (symbol i) (inst_symbol (in_instrument ctx)))
          then (failed kInstrument (stage_error kInstrument Validation DoNotRetry
                  (mismatch_detail i (in_instrument ctx))), view)
          else if negb (declares_no_risk_limits (options e)) && negb (any_risk_limit_armed (in_limits ctx))
          then (failed kRiskLimits (stage_error kRiskLimits Validation DoNotRetry
                  "PreflightInputs::risk_limits arms NOTHING (every field is at its 'off' sentinel), so the risk check would be handed to the gate and pass for every order at every size and every loss. If this component's risk is genuinely enforced upstream, set EngineOptions::declares_no_risk_limits = true."), view)
          else
            match (match margin_inputs (deps e) with Some q => q i | None => Err (make_error Internal "" "") end) with
            | Err err =>
                (failed kMargin (stage_error kMargin DataStale BlockStrategy
                   ("the broker margin quote could not be obtained (" +:+ category_to_string (category err) +:+
                    ": " +:+ message err +:+ ")")), view)
            | Ok margin =>
                if money_paise (api_required margin) <=? 0
                then (failed kMargin (stage_error kMargin DataStale BlockStrategy
                        ("margin quote absent or non-positive (api_required " +:+ money_to_string (api_required margin) +:+
                         ") — a zero requirement would pass the funds check against any balance; refusing rather than sizing an entry against nothing")), view)
                else entry_tail e now io1 io2 view i ctx (session_alert sp) margin
            end
      end
  end.

(** ** preflight_exit and preflight_modify *)

(** The gate's context on the exit-legal chain: the entry-only inputs are left
    unset. *)
Definition exit_context (e : EngineAssembly) (i : OrderIntent) (ctx : PreflightInputs) : GateContext :=
  mkGateContext i (in_instrument ctx) true false false None None None
    (if risk_gates_exits (options e)
     then Some (check_all i (in_limits ctx) (corrected_state false (in_state ctx))) else None)
    ((fun h => h i) <$> dep_hedge_check (deps e))
    (opt_exchanges (options e)) (opt_products (options e)) (opt_slice_mode (options e)).

Definition exit_chain (e : EngineAssembly) (i : OrderIntent) (ctx : PreflightInputs)
    (outcome : PreflightOutcome) : StageResult :=
  let posture := evaluate_posture_for_strategy e (strategy i) in
  if negb (posture_allows_exits posture)
  then failed kPosture (stage_error kPosture RiskRejected ActSquareOff
         ("posture " +:+ posture_to_string posture +:+
          " closes the normal exit gate; the emergency engine drives the cancel + square-off OUT OF BAND"))
  else
    let sp := assess_session (snap_state (snapshot_now e)) (last_broker_error (snapshot_now e)) in
    match require_session_op sp ClassExit with
    | Err err => failed kSession (staged kSession err)
    | Ok _ =>
        if negb (String.eqb (symbol i) (inst_symbol (in_instrument ctx)))
        then failed kInstrument (stage_error kInstrument Validation DoNotRetry
               (mismatch_detail i (in_instrument ctx)))
        else
          match validate (exit_context e i ctx) with
          | Err err => failed kGate (staged kGate err)
          | Ok g =>
              let band := check_price_band i (in_band_data ctx) true in
              passed kPriceBand
                (mkOutcome g (session_alert sp) true band (bool_decide (band_verdict band = BandUnknown))
                   (has_suggestion band || has_trigger_suggestion band)
                   (margin_checked outcome) (out_margin outcome) (modify_checked outcome) (out_modify outcome))
          end
    end.

Definition preflight_exit (e : EngineAssembly) (i : OrderIntent) (ctx : PreflightInputs) : StageResult :=
  if match is_reducing (deps e) with Some f => negb (f i) | None => false end
  then failed kExitClass (stage_error kExitClass Validation DoNotRetry
         "preflight_exit was called for an intent that does NOT reduce exposure. The exit chain waives the duplicate, UNKNOWN-pause, entry-cutoff, funds and margin stages and clamps instead of blocking out of band; an opening order must go through preflight_entry")
  else exit_chain e i ctx empty_outcome.

Definition preflight_modify (e : EngineAssembly) (current amended : OrderIntent) (mctx : ModifyContext)
    (ctx : PreflightInputs) : StageResult :=
  let r := evaluate_modify (current_state mctx) (make_modify_request current amended) (observed_filled mctx) in
  let outcome := mkOutcome (gate_outcome empty_outcome) (out_session_alert empty_outcome)
    (band_checked empty_outcome) (out_band empty_outcome) (band_unvalidated empty_outcome)
    (exit_clamped empty_outcome) (margin_checked empty_outcome) (out_margin empty_outcome) true r in
  if negb (modify_allowed r)
  then
    let '(c, a) := rejection_for (modify_verdict r) in
    failed kModifyGuard (stage_error kModifyGuard c a
      (modify_verdict_to_string (modify_verdict r) +:+ ": " +:+ modify_detail r))
  else exit_chain e amended ctx outcome.

(** ** The builder *)

(** What a complete wiring is. *)
Record wired (d : EngineDeps) (o : EngineOptions) : Prop := {
  wi_base : kill_state d <> None /\ has_posture d = true /\ detector_signals d <> None /\ session d <> None;
  wi_entry : engine_mode o = EntryCapable ->
    has_funds_view d = true /\ dep_calendar d <> None /\ has_risk_engine d = true /\
    unknown_pause d <> None /\ duplicate_probe d <> None /\ margin_inputs d <> None;
  wi_exits : risk_gates_exits o = true -> has_risk_engine d = true;
  wi_hedge : dep_hedge_check d = None -> declares_no_hedge_check o = true;
}.

Lemma refuse_ok {A} b msg (next : result A) x : refuse b msg next = Ok x <-> b = false /\ next = Ok x.
Proof. destruct b; simpl; intuition congruence. Qed.

Lemma absent_false {A} (o : option A) : absent o = false <-> o <> None.
Proof. destruct o; simpl; intuition congruence. Qed.

Lemma make_engine_ok d o e : make_engine d o = Ok e <-> wired d o /\ e = mkAssembly d o.
Proof.
  unfold make_engine. cbv zeta.
  assert (forall (b : bool) (x y : result EngineAssembly), (if b then x else y) = Ok e <->
    (b = true -> x = Ok e) /\ (b = false -> y = Ok e)) as Hif by (intros []; intuition congruence).
  repeat match goal with |- context [refuse _ (String ?a ?m) _] => generalize (String a m); intros ? end.
  rewrite !refuse_ok, Hif, !refuse_ok, !absent_false, !negb_false_iff, bool_decide_eq_true, bool_decide_eq_false.
  assert (absent (dep_hedge_check d) && negb (declares_no_hedge_check o) = false <->
    (dep_hedge_check d = None -> declares_no_hedge_check o = true)) as ->
    by (destruct (dep_hedge_check d), (declares_no_hedge_check o); simpl; intuition congruence).
  assert (risk_gates_exits o && negb (has_risk_engine d) = false <->
    (risk_gates_exits o = true -> has_risk_engine d = true)) as ->
    by (destruct (risk_gates_exits o), (has_risk_engine d); simpl; intuition congruence).
  assert (Ok (mkAssembly d o) = Ok e <-> e = mkAssembly d o) as -> by (split; congruence).
  split.
  - intros (H1 & H2 & H3 & H4 & He & Hx). destruct (decide (engine_mode o = EntryCapable)) as [E|E].
    + specialize (He E). split; [split|]; tauto.
    + specialize (Hx E). split; [split|]; tauto.
  - intros [[W1 W2 W3 W4] ->]. split_and!; tauto.
Qed.

Lemma make_engine_refusal d o err : make_engine d o = Err err ->
  category err = Validation /\ action err = DoNotRetry /\ broker_code err = "".
Proof.
  unfold make_engine. cbv zeta.
  assert (forall b msg (next : result EngineAssembly), (forall x, next = Err x -> category x = Validation /\
    action x = DoNotRetry /\ broker_code x = "") -> forall x, refuse b msg next = Err x ->
    category x = Validation /\ action x = DoNotRetry /\ broker_code x = "") as H.
  { intros [] msg next Hn x; simpl; [|apply Hn]. by intros [= <-]. }
  revert err. repeat apply H.
  case_bool_decide; repeat apply H; by intros x [=].
Qed.

(** the builder is fail-closed: it returns an engine exactly when the wiring is
    complete for the mode asked for (posture inputs and session always; funds,
    calendar, risk, UNKNOWN pause, duplicate probe and margin source for an
    entry-capable engine; a risk engine when exits are to be risk-gated; a hedge
    check or the declaration that none is needed), the engine is that wiring
    unchanged, and every refusal is a Validation error that is not retried. *)
Theorem make_engine_exact d o :
  (forall e, make_engine d o = Ok e <-> wired d o /\ e = mkAssembly d o) /\
  (forall err, make_engine d o = Err err ->
     category err = Validation /\ action err = DoNotRetry /\ broker_code err = "") /\
  (wired d o <-> is_ok (make_engine d o) = true).
Proof.
  split; [intros e; apply make_engine_ok|]. split; [apply make_engine_refusal|]. split.
  - intros H. by rewrite (proj2 (make_engine_ok d o (mkAssembly d o)) (conj H eq_refl)).
  - destruct (make_engine d o) as [e|] eqn:E; [|done]. by apply make_engine_ok in E as [H _].
Qed.

(** ** The entry chain *)

(** The part of the gate's contract that concerns the order and its instrument
    alone. *)
Definition order_wf (o : EngineOptions) (i : OrderIntent) (inst : Instrument) : Prop :=
  gate_ok (mkGateContext i inst true false false None None None None None
    (opt_exchanges o) (opt_products o) (opt_slice_mode o)).

(** A source that is absent or answers Ok. *)
Definition hedge_ok (d : EngineDeps) (i : OrderIntent) : Prop :=
  match dep_hedge_check d with Some h => h i = Ok tt | None => True end.

(** The funds as one stage reads them: a snapshot no older than the cadence. *)
Definition funds_read (view : FundsView) (io : FundsIo) (f : FundsSnapshot) (view' : FundsView) : Prop :=
  view' = view_after view (fetch io) (at_test io) (at_fetch io) /\ Risk.is_fresh view' (at_retest io) = true /\
  f = snapshot view'.

(** Every guard of an entry, each on its own source. *)
Record entry_guards (e : EngineAssembly) (now : Z) (io1 io2 : FundsIo) (view view' : FundsView)
    (i : OrderIntent) (ctx : PreflightInputs) : Prop := {
  eg_mode : engine_mode (options e) = EntryCapable;
  eg_kills : forall c, c ∈ kills e -> kill_type c = StrategyKill /\ kill_scope c <> strategy i;
  eg_detectors : signals e = [];
  eg_session : snap_state (snapshot_now e) = Healthy /\ ~ session_dead (last_broker_error (snapshot_now e));
  eg_instrument : symbol i = inst_symbol (in_instrument ctx);
  eg_armed : declares_no_risk_limits (options e) = true \/ any_risk_limit_armed (in_limits ctx) = true;
  eg_pause : unknown_pause (deps e) <> Some true;
  eg_duplicate : forall p, duplicate_probe (deps e) = Some p -> p i = Ok false;
  eg_calendar : forall c, dep_calendar (deps e) = Some c ->
    trading_day (cal c) (local_day c now) /\
    Calendar.within (open_min (cal c)) (entry_cutoff_min (cal c)) (local_minute c now);
  eg_order : order_wf (options e) i (in_instrument ctx);
  eg_risk : risk_ok i (in_limits ctx) (corrected_state true (in_state ctx));
  eg_hedge : hedge_ok (deps e) i;
  eg_band : usable (in_band_data ctx) -> prices_within (in_band_data ctx) i;
  eg_band_known : block_entry_on_unknown_band (options e) = true -> usable (in_band_data ctx);
  eg_margin : exists source quote f1 v1 f2,
    margin_inputs (deps e) = Some source /\ source i = Ok quote /\ 0 < money_paise (api_required quote) /\
    funds_read view io1 f1 v1 /\ money_paise (api_required quote) <= money_paise (available_margin f1) /\
    funds_read v1 io2 f2 view' /\
    money_paise (effective_required (evaluate_margin
      (mkMarginInputs (api_required quote) (summed_leg_margin quote) (available_margin f2)
         (is_multi_leg quote) (benefit_trusted quote)) (margin_config (options e))))
      <= money_paise (available_margin f2);
}.

Lemma posture_entry_ok e s :
  Modes.require_entry_allowed (evaluate_posture_for_strategy e s) = Ok tt <->
  (forall c, c ∈ kills e -> kill_type c = StrategyKill /\ kill_scope c <> s) /\ signals e = [].
Proof.
  unfold evaluate_posture_for_strategy. rewrite entry_open.
  assert ((if blocks_strategy (kills e) s then kill_posture (kills e) else PNormal) = PNormal <->
    blocks_strategy (kills e) s = false) as ->.
  { destruct (blocks_strategy (kills e) s) eqn:E; [|done]. apply blocks_strategy_true in E as (c & Hc & _).
    unfold kill_posture, any_active. destruct (panic_active (kills e)); [done|].
    case_bool_decide as Hn; [|done]. rewrite Hn in Hc. by apply elem_of_nil in Hc. }
  rewrite <- not_true_iff_false, blocks_strategy_true. unfold kill_covers.
  split; intros [H ->]; (split; [|done]).
  - intros c Hc. split; [destruct (decide (kill_type c = StrategyKill)); [done|]|]; [destruct H; eauto|].
    intros Hs. apply H. eauto.
  - intros (c & Hc & Hb). destruct (H c Hc). intuition congruence.
Qed.

Lemma validate_is_ok ctx : is_ok (validate ctx) = true <-> gate_ok ctx.
Proof.
  destruct (validate ctx) as [out|] eqn:E; simpl.
  - apply validate_ok in E as [H _]. done.
  - split; [done|]. intros H. pose proof (proj2 (validate_ok ctx _) (conj H eq_refl)). congruence.
Qed.

Lemma passes_unit (r : result unit) : passes (Some r) <-> is_ok r = true.
Proof. by destruct r as [[]|]. Qed.

Lemma hedge_passes d i : passes ((fun h => h i) <$> dep_hedge_check d) <-> hedge_ok d i.
Proof. unfold hedge_ok. destruct (dep_hedge_check d) as [h|]; [|done]. simpl. by destruct (h i) as [[]|]. Qed.

(** The gate's contract on the entry chain, split by source. *)
Lemma entry_gate_ok e now i ctx dup funds risk hedge :
  gate_ok (entry_context e now i ctx dup funds risk hedge) <->
  order_wf (options e) i (in_instrument ctx) /\
  blocks_strategy (kills e) (strategy i) = false /\ unknown_pause (deps e) <> Some true /\ dup = false /\
  (forall c, dep_calendar (deps e) = Some c -> Calendar.require_entry_allowed c now = Ok tt) /\
  passes funds /\ passes risk /\ passes hedge.
Proof.
  unfold order_wf.
  assert (default false (unknown_pause (deps e)) = false <-> unknown_pause (deps e) <> Some true) as Hp
    by (destruct (unknown_pause (deps e)) as [[]|]; simpl; intuition congruence).
  assert (passes ((fun c => Calendar.require_entry_allowed c now) <$> dep_calendar (deps e)) <->
    (forall c, dep_calendar (deps e) = Some c -> Calendar.require_entry_allowed c now = Ok tt)) as Hc.
  { destruct (dep_calendar (deps e)) as [c|]; simpl; [|by split].
    destruct (Calendar.require_entry_allowed c now) as [[]|] eqn:E; split; intros H; try done.
    - by intros c' [= <-].
    - specialize (H c eq_refl). congruence. }
  split.
  - intros [Hent Hex Hpr Hlot Hsh Hfr Hsl Hr Hh]. destruct (Hent eq_refl) as [K1 K2 K3 K4 K5]. simpl in *.
    split; [split; done|]. split_and!; try tauto; try (by apply Hp); try (by apply Hc). by destruct dup.
  - intros ([_ Hex Hpr Hlot Hsh Hfr Hsl _ _] & K1 & K2 & -> & K4 & K5 & K6 & K7). split; simpl in *; try done.
    intros _. split; simpl; try done; [by apply Hp|by apply Hc].
Qed.

Lemma ensure_fresh_read view io f view' :
  ensure_fresh view (fetch io) (at_test io) (at_fetch io) (at_retest io) = (Ok f, view') <->
  funds_read view io f view'.
Proof.
  unfold funds_read.
  destruct (ensure_fresh_cases view (fetch io) (at_test io) (at_fetch io) (at_retest io)) as [msg ->].
  set (v := view_after _ _ _ _). split.
  - destruct (Risk.is_fresh v (at_retest io)) eqn:E; intros [= <- <-]. by split_and!.
  - intros (-> & -> & ->). done.
Qed.

(** The funds check of the gate. *)
Lemma check_margin_ok view io required view' :
  check_margin view (fetch io) (at_test io) (at_fetch io) (at_retest io) required = (Ok tt, view') <->
  exists f, funds_read view io f view' /\ required <= money_paise (available_margin f).
Proof.
  unfold check_margin. destruct (ensure_fresh _ _ _ _ _) as [[f|err] v] eqn:E; cbv zeta.
  - destruct (Z.leb_spec required (money_paise (available_margin f))) as [Hle|Hlt].
    + split; [intros [= <-]; exists f; split; [by apply ensure_fresh_read|done]|].
      intros (f' & Hf & _). apply ensure_fresh_read in Hf. unfold ok. congruence.
    + split; [done|]. intros (f' & Hf & Hle). apply ensure_fresh_read in Hf.
      rewrite Hf in E. injection E as -> ->. lia.
  - split; [done|]. intros (f' & Hf & _). apply ensure_fresh_read in Hf. congruence.
Qed.

(** A chain that ends in success with the given view. *)
Definition passes_with (x : StageResult * FundsView) (view' : FundsView) : Prop :=
  is_ok (stage_result x.1) = true /\ x.2 = view'.

Lemma passes_failed n err v w : passes_with (failed n err, v) w <-> False.
Proof. split; [by intros []|done]. Qed.

Lemma passes_if (b : bool) n err v y w :
  passes_with (if b then (failed n err, v) else y) w <-> b = false /\ passes_with y w.
Proof. destruct b; [rewrite passes_failed|]; intuition congruence. Qed.

Lemma passes_match {A} (r : result A) (n : Error -> string) (err : Error -> Error) v (y : A -> StageResult * FundsView) w :
  passes_with (match r with Err e => (failed (n e) (err e), v) | Ok x => y x end) w <->
  exists x, r = Ok x /\ passes_with (y x) w.
Proof.
  destruct r as [x|e]; [|rewrite passes_failed]; split; try done.
  - eauto.
  - by intros (? & [= <-] & ?).
  - by intros (? & ? & ?).
Qed.

Definition margin_covers (e : EngineAssembly) (quote : MarginInputs) (f : FundsSnapshot) : Prop :=
  money_paise (effective_required (evaluate_margin
    (mkMarginInputs (api_required quote) (summed_leg_margin quote) (available_margin f)
       (is_multi_leg quote) (benefit_trusted quote)) (margin_config (options e))))
    <= money_paise (available_margin f).

Lemma margin_stage_ok e io view quote o w :
  passes_with (margin_stage e io view quote o) w <->
  exists f, funds_read view io f w /\ margin_covers e quote f.
Proof.
  unfold margin_stage. destruct (ensure_fresh _ _ _ _ _) as [[f|err] v] eqn:E.
  - cbv zeta. rewrite passes_match. apply ensure_fresh_read in E. split.
    + intros ([] & H%require_margin_ok_spec & _ & <-). eauto.
    + intros (f' & Hf & Hm). assert (f' = f /\ w = v) as [-> ->]
        by (unfold funds_read in *; naive_solver).
      exists tt. split; [by apply require_margin_ok_spec|done].
  - rewrite passes_failed. split; [done|]. intros (f & Hf & _). apply ensure_fresh_read in Hf. congruence.
Qed.

(** The band stage lets an entry through. *)
Definition band_ok (o : EngineOptions) (band : PriceBand) (i : OrderIntent) : Prop :=
  (usable band -> prices_within band i) /\ (block_entry_on_unknown_band o = true -> usable band).

Lemma band_stage_ok o band i :
  band_blocked (check_price_band i band false) = false /\
  block_entry_on_unknown_band o && bool_decide (band_verdict (check_price_band i band false) = BandUnknown) = false <->
  band_ok o band i.
Proof.
  unfold band_ok. rewrite andb_false_iff, bool_decide_eq_false, <- not_true_iff_false.
  assert (Decision (usable band)) as D.
  { destruct (known band && (money_paise (lower band) <=? money_paise (upper band))) eqn:E; [left|right];
      rewrite <- usable_true; congruence. }
  destruct (check_price_band_cases i band false) as [(Hu & Hp & -> & _ & _ & _ & _ & ->)|(Hp & -> & _ & _ & ->)].
  - split; [by intros []|]. intros [H _]. by destruct (Hp (H Hu)).
  - split; [|intros [_ H]; split; [done|]; destruct (block_entry_on_unknown_band o); [right; auto|by left]].
    intros [_ H]. split; [done|]. intros Hb. destruct D as [|D]; [done|]. destruct H as [H|H]; [congruence|done].
Qed.

(** The duplicate probe's answer, absent read as "new". *)
Definition probed (e : EngineAssembly) (i : OrderIntent) : result bool :=
  match duplicate_probe (deps e) with Some p => p i | None => Ok false end.

(** What the gate stage admits when no kill covers the strategy. *)
Lemma gate_stage_ok e now io view i ctx required g w :
  blocks_strategy (kills e) (strategy i) = false ->
  run_entry_gate e now io view i ctx required = (None, Ok g, w) <->
  order_wf (options e) i (in_instrument ctx) /\ unknown_pause (deps e) <> Some true /\
  probed e i = Ok false /\
  (forall c, dep_calendar (deps e) = Some c -> Calendar.require_entry_allowed c now = Ok tt) /\
  is_ok (check_all i (in_limits ctx) (corrected_state true (in_state ctx))) = true /\
  hedge_ok (deps e) i /\
  (exists f, funds_read view io f w /\ required <= money_paise (available_margin f)) /\
  g = (if quantity_value (freeze_qty (in_instrument ctx)) <? quantity_value (quantity i)
       then AllowWithSlicing else Allow).
Proof.
  intros Hk. unfold run_entry_gate. fold (probed e i). rewrite Hk. cbn [negb andb].
  destruct (check_margin view (fetch io) _ _ _ required) as [funds v] eqn:Ef.
  set (risk := check_all _ _ _). set (hedge := (fun h => h i) <$> dep_hedge_check (deps e)).
  set (dup := match probed e i with Ok b => b | Err _ => true end). rewrite <- (check_margin_ok view io required w), Ef.
  pose proof (hedge_passes (deps e) i) as Hh. fold hedge in Hh.
  split.
  - intros H. assert (validate (entry_context e now i ctx dup (Some funds) (Some risk) hedge) = Ok g) as Hv by congruence.
    apply validate_ok in Hv as [Hg ->]. pose proof (proj1 (entry_gate_ok _ _ _ _ _ _ _ _) Hg) as (H1 & _ & H3 & H4 & H5 & H6 & H7 & H8).
    assert (is_ok (validate (entry_context e now i ctx dup None None None)) = true) as Hr.
    { apply validate_is_ok, entry_gate_ok. done. }
    rewrite Hr in H. injection H as Hp Hv2 <-. split_and!; try done.
    + unfold dup in H4. destruct (probed e i); congruence.
    + apply passes_unit. done.
    + by apply Hh.
    + apply passes_unit in H6. by destruct funds as [[]|].
  - intros (H1 & H3 & H4 & H5 & H6 & H7 & [= -> ->] & ->). unfold dup. rewrite H4.
    assert (is_ok (validate (entry_context e now i ctx false None None None)) = true) as ->.
    { apply validate_is_ok, entry_gate_ok. done. }
    f_equal; [f_equal; [by destruct (unknown_pause (deps e)) as [[]|]|]].
    apply validate_ok. split; [|done]. apply entry_gate_ok. split_and!; try done; [by apply passes_unit|by apply Hh].
Qed.

Lemma entry_tail_ok e now io1 io2 view i ctx alert quote w :
  blocks_strategy (kills e) (strategy i) = false ->
  passes_with (entry_tail e now io1 io2 view i ctx alert quote) w <->
  exists g v1, run_entry_gate e now io1 view i ctx (money_paise (api_required quote)) = (None, Ok g, v1) /\
    band_ok (options e) (in_band_data ctx) i /\
    exists f, funds_read v1 io2 f w /\ margin_covers e quote f.
Proof.
  intros Hk. unfold entry_tail.
  destruct (run_entry_gate _ _ _ _ _ _ _) as [[[pe|] [g|err]] v1]; cbv beta iota;
    [rewrite passes_failed; split; [done|by intros (? & ? & [=] & _)]|
     rewrite passes_failed; split; [done|by intros (? & ? & [=] & _)]| |
     rewrite passes_failed; split; [done|by intros (? & ? & [=] & _)]].
  cbv zeta. pose proof (band_stage_ok (options e) (in_band_data ctx) i) as Hb. revert Hb.
  set (bd := check_price_band i (in_band_data ctx) false).
  assert (forall y, passes_with (if band_blocked bd
     then match require_band_ok i (in_band_data ctx) false with
          | Ok _ => (failed kPriceBand (stage_error kPriceBand Validation DoNotRetry
                ("entry is out of band (verdict " +:+ band_verdict_to_string (band_verdict bd) +:+ ")")), v1)
          | Err err => (failed kPriceBand (staged kPriceBand err), v1)
          end else y) w <-> band_blocked bd = false /\ passes_with y w) as ->.
  { intros y. destruct (band_blocked bd); [|tauto].
    destruct (require_band_ok _ _ _); rewrite passes_failed; intuition congruence. }
  rewrite passes_if, margin_stage_ok. intros Hb. split.
  - intros (H1 & H2 & H3). exists g, v1. split; [done|]. split; [by apply Hb|done].
  - intros (g' & v' & [= <- <-] & [H1 H2]%Hb & H3). done.
Qed.

Lemma corrected_in_range b s : state_in_range s -> state_in_range (corrected_state b s).
Proof. by intros []. Qed.

Lemma entry_passes e now io1 io2 view i ctx w
    (Hclock : forall c, dep_calendar (deps e) = Some c -> is_int64 (local_time c now))
    (Hl : limits_in_range (in_limits ctx)) (Hs : state_in_range (in_state ctx)) :
  passes_with (preflight_entry e now io1 io2 view i ctx) w <-> entry_guards e now io1 io2 view w i ctx.
Proof.
  assert ((forall c, dep_calendar (deps e) = Some c -> Calendar.require_entry_allowed c now = Ok tt) <->
    (forall c, dep_calendar (deps e) = Some c -> trading_day (cal c) (local_day c now) /\
      Calendar.within (open_min (cal c)) (entry_cutoff_min (cal c)) (local_minute c now))) as Hcal.
  { split; intros H c Hc; specialize (H c Hc); by apply entry_allowed_ok; [apply Hclock|]. }
  assert (probed e i = Ok false <-> (forall p, duplicate_probe (deps e) = Some p -> p i = Ok false)) as Hprobe.
  { unfold probed. destruct (duplicate_probe (deps e)); split; intros H; try done; [by intros ? [= <-]|by apply H]. }
  pose proof (check_all_ok i (in_limits ctx) _ Hl (corrected_in_range true _ Hs)) as Hrisk.
  unfold preflight_entry. rewrite passes_if, passes_match. unfold is_entry_capable.
  rewrite negb_false_iff, bool_decide_eq_true.
  split.
  - intros (Hmode & [] & Hpost & H). apply posture_entry_ok in Hpost as [Hkill Hsig].
    apply passes_match in H as ([] & [Hsess1 Hsess2]%session_entry_ok & H).
    apply passes_if in H as (Hinst & H). apply passes_if in H as (Harm & H).
    apply passes_match in H as (quote & Hquote & H). apply passes_if in H as (Hpos & H).
    assert (blocks_strategy (kills e) (strategy i) = false) as Hk.
    { apply not_true_iff_false. rewrite blocks_strategy_true. intros (c & Hc & Hcov).
      destruct (Hkill c Hc), Hcov; congruence. }
    apply entry_tail_ok in H as (g & v1 & Hg & [Hb1 Hb2] & f2 & Hf2 & Hm); [|done].
    apply gate_stage_ok in Hg as (G1 & G2 & G3 & G4 & G5 & G6 & (f1 & Hf1 & Ha) & _); [|done].
    to_prop. split; try done; try (by apply Hcal); try (by apply Hprobe); try (by apply Hrisk).
    + destruct (declares_no_risk_limits (options e)), (any_risk_limit_armed (in_limits ctx)); auto.
    + destruct (margin_inputs (deps e)) as [source|]; [|done]. exists source, quote, f1, v1, f2. done.
  - intros [Hmode Hkill Hsig [Hs1 Hs2] Hinst Harm Hpause Hdup Hc Hord Hr Hh Hb Hbk (src & quote & f1 & v1 & f2 & Hq & Hq2 & Hpos & Hf1 & Ha & Hf2 & Hm)].
    split; [done|]. exists tt. split; [by apply posture_entry_ok|].
    apply passes_match. exists tt. split; [by apply session_entry_ok|].
    apply passes_if. split; [by apply negb_false_iff, String.eqb_eq|].
    apply passes_if. split; [destruct Harm as [-> | ->]; [done|by rewrite andb_false_r]|].
    apply passes_match. exists quote. split; [by rewrite Hq|].
    apply passes_if. split; [by apply Z.leb_gt|].
    assert (blocks_strategy (kills e) (strategy i) = false) as Hk.
    { apply not_true_iff_false. rewrite blocks_strategy_true. intros (c & Hc' & Hcov).
      destruct (Hkill c Hc'), Hcov; congruence. }
    apply entry_tail_ok; [done|]. eexists _, v1. split; [|split; [by split|eauto]].
    apply gate_stage_ok; [done|]. split_and!; try done; [by apply Hprobe|by apply Hcal|by apply Hrisk|eauto].
Qed.

(** A result whose error, if any, names the stage that decided. *)
Definition names_stage (r : StageResult) : Prop :=
  forall err, stage_result r = Err err -> exists detail, message err = stage_prefix (stage r) detail.

Lemma names_staged n inner : names_stage (failed n (staged n inner)).
Proof. intros err [= <-]. by exists (message inner). Qed.

Lemma names_stage_error n c a d : names_stage (failed n (stage_error n c a d)).
Proof. intros err [= <-]. by exists d. Qed.

Lemma names_passed n o : names_stage (passed n o).
Proof. by intros err [=]. Qed.

Create HintDb stages discriminated.
#[export] Hint Resolve names_staged names_stage_error names_passed : stages.

(** Where the funds view may be after a chain: untouched, or as one or both of its
    two reads left it. *)
Definition view_read (view : FundsView) (io1 io2 : FundsIo) (view' : FundsView) : Prop :=
  let after v io := view_after v (fetch io) (at_test io) (at_fetch io) in
  view' = view \/ view' = after view io1 \/ view' = after view io2 \/ view' = after (after view io1) io2.

Lemma gate_view e now io view i ctx req :
  let v := (run_entry_gate e now io view i ctx req).2 in
  v = view \/ v = view_after view (fetch io) (at_test io) (at_fetch io).
Proof.
  unfold run_entry_gate, check_margin.
  destruct (ensure_fresh_cases view (fetch io) (at_test io) (at_fetch io) (at_retest io)) as [msg ->].
  destruct (Risk.is_fresh _ (at_retest io)); [destruct (_ <=? _)|]; cbv beta iota zeta; simpl;
    by destruct (is_ok _); auto.
Qed.

Lemma margin_stage_view e io view m o : names_stage (margin_stage e io view m o).1 /\
  (margin_stage e io view m o).2 = view_after view (fetch io) (at_test io) (at_fetch io).
Proof.
  unfold margin_stage.
  destruct (ensure_fresh_cases view (fetch io) (at_test io) (at_fetch io) (at_retest io)) as [msg ->].
  destruct (Risk.is_fresh _ _); cbv zeta; [destruct (require_margin_ok _)|]; simpl; auto with stages.
Qed.

Lemma entry_stages e now io1 io2 view i ctx :
  let x := preflight_entry e now io1 io2 view i ctx in
  names_stage x.1 /\ view_read view io1 io2 x.2.
Proof.
  assert (forall n c a d, names_stage (failed n (stage_error n c a d), view).1 /\ view_read view io1 io2 view) as H1.
  { intros. split; [apply names_stage_error|by left]. }
  assert (forall n err, names_stage (failed n (staged n err), view).1 /\ view_read view io1 io2 view) as H2.
  { intros. split; [apply names_staged|by left]. }
  cbv zeta. unfold preflight_entry.
  destruct (negb (is_entry_capable e)); [apply H1|].
  destruct (Modes.require_entry_allowed _); [|apply H2]. cbv zeta.
  destruct (require_session_op _ _); [|apply H2].
  destruct (negb _); [apply H1|]. destruct (negb (declares_no_risk_limits _) && _); [apply H1|].
  destruct (match margin_inputs (deps e) with Some q => q i | None => _ end) as [q|]; [|apply H1].
  destruct (_ <=? 0); [apply H1|]. clear H1 H2. unfold entry_tail.
  pose proof (gate_view e now io1 view i ctx (money_paise (api_required q))) as Hv.
  destruct (run_entry_gate _ _ _ _ _ _ _) as [[pe gated] v1]. simpl in Hv.
  assert (view_read view io1 io2 v1) as Hr by (unfold view_read; tauto).
  destruct pe; [split; [apply names_staged|done]|]. destruct gated as [g|]; [|split; [apply names_staged|done]].
  cbv zeta. destruct (band_blocked _);
    [destruct (require_band_ok _ _ _); (split; [cbn [fst]; auto with stages|done])|].
  match goal with |- context [if ?b then _ else _] => destruct b; [split; [cbn [fst]; auto with stages|done]|] end.
  match goal with |- context [margin_stage e io2 v1 q ?o] => destruct (margin_stage_view e io2 v1 q o) as [M1 M2] end.
  split; [exact M1|]. rewrite M2. unfold view_read. destruct Hv as [-> | ->]; tauto.
Qed.

(** C3: the entry chain is exactly its guards: an order passes when, and only
    when, the engine is entry-capable, no kill covers its strategy, no detector is
    active, the session is healthy and not dead by the broker's words, the
    instrument is the order's own, limits are armed or declared absent, no UNKNOWN
    pause is on, the probe says it is new, the local day trades and the minute is
    inside the entry window, the order is well formed, every armed limit holds,
    the hedge check agrees, the prices are inside a known band, and a fresh funds
    snapshot covers the quote and then the buffered requirement. Every refusal
    names its stage, and the funds view is at most refreshed. *)
Theorem entry_exact e now io1 io2 view i ctx
    (Hclock : forall c, dep_calendar (deps e) = Some c -> is_int64 (local_time c now))
    (Hl : limits_in_range (in_limits ctx)) (Hs : state_in_range (in_state ctx)) :
  let '(r, view') := preflight_entry e now io1 io2 view i ctx in
  (is_ok (stage_result r) = true <-> entry_guards e now io1 io2 view view' i ctx) /\
  names_stage r /\ view_read view io1 io2 view'.
Proof.
  pose proof (entry_stages e now io1 io2 view i ctx) as [Hn Hv].
  destruct (preflight_entry e now io1 io2 view i ctx) as [r view'] eqn:E. simpl in Hn, Hv.
  split; [|by split]. rewrite <- entry_passes, E by done. unfold passes_with. simpl. tauto.
Qed.

(** ** The exit-legal chain *)

(** Every guard an exit meets. *)
Record exit_guards (e : EngineAssembly) (i : OrderIntent) (ctx : PreflightInputs) : Prop := {
  xg_panic : forall c, c ∈ kills e -> kill_type c <> PanicKill;
  xg_instrument : symbol i = inst_symbol (in_instrument ctx);
  xg_order : order_wf (options e) i (in_instrument ctx);
  xg_risk : risk_gates_exits (options e) = true ->
    risk_ok i (in_limits ctx) (corrected_state false (in_state ctx));
  xg_hedge : hedge_ok (deps e) i;
}.

Lemma posture_exit_ok e s :
  posture_allows_exits (evaluate_posture_for_strategy e s) = true <->
  forall c, c ∈ kills e -> kill_type c <> PanicKill.
Proof.
  rewrite <- not_false_iff_true. unfold evaluate_posture_for_strategy. rewrite exit_closed.
  assert ((if blocks_strategy (kills e) s then kill_posture (kills e) else PNormal) = PPanic <->
    panic_active (kills e) = true) as ->.
  { unfold kill_posture. destruct (panic_active (kills e)) eqn:P.
    - split; [done|intros _]. apply panic_active_true in P as (c & Hc & Ht).
      assert (blocks_strategy (kills e) s = true) as ->; [|done].
      apply blocks_strategy_true. exists c. split; [done|]. left. congruence.
    - split; [|done]. by destruct (blocks_strategy (kills e) s), (any_active (kills e)). }
  rewrite panic_active_true. naive_solver.
Qed.

Lemma exit_gate_ok e i ctx :
  gate_ok (exit_context e i ctx) <->
  order_wf (options e) i (in_instrument ctx) /\
  (risk_gates_exits (options e) = true ->
     is_ok (check_all i (in_limits ctx) (corrected_state false (in_state ctx))) = true) /\
  hedge_ok (deps e) i.
Proof.
  unfold order_wf. rewrite <- hedge_passes.
  assert (passes (if risk_gates_exits (options e)
     then Some (check_all i (in_limits ctx) (corrected_state false (in_state ctx))) else None) <->
   (risk_gates_exits (options e) = true ->
     is_ok (check_all i (in_limits ctx) (corrected_state false (in_state ctx))) = true)) as Hr.
  { destruct (risk_gates_exits (options e)); [|by split]. rewrite passes_unit. tauto. }
  split.
  - intros [_ Hex Hpr Hlot Hsh Hfr Hsl Hri Hh]. simpl in *. split; [by split|]. split; [by apply Hr|done].
  - intros ([_ Hex Hpr Hlot Hsh Hfr Hsl _ _] & Hri & Hh). split; simpl in *; try done. by apply Hr.
Qed.

Lemma exit_chain_ok e i ctx o (Hl : limits_in_range (in_limits ctx)) (Hs : state_in_range (in_state ctx)) :
  is_ok (stage_result (exit_chain e i ctx o)) = true <-> exit_guards e i ctx.
Proof.
  pose proof (check_all_ok i (in_limits ctx) _ Hl (corrected_in_range false _ Hs)) as Hrisk.
  pose proof (posture_exit_ok e (strategy i)) as Hp. pose proof (exit_gate_ok e i ctx) as Hg.
  pose proof (validate_is_ok (exit_context e i ctx)) as Hv. unfold exit_chain. cbv zeta.
  destruct (posture_allows_exits _); simpl.
  2: { split; [done|]. intros [H _ _ _ _]. apply Hp in H. done. }
  destruct (String.eqb_spec (symbol i) (inst_symbol (in_instrument ctx))) as [E|E]; simpl;
    [|split; [done|by intros [_ ? _ _ _]]].
  destruct (validate (exit_context e i ctx)) as [g|err]; simpl in *.
  - split; [|done]. intros _. destruct (proj1 Hg (proj1 Hv eq_refl)) as (H1 & H2 & H3).
    split; try done; [by apply Hp|]. intros Hx. by apply Hrisk, H2.
  - split; [done|]. intros [_ _ H3 H4 H5]. apply Hv, Hg. split_and!; try done. intros Hx. by apply Hrisk, H4.
Qed.

(** The outcome of a chain that passed. *)
Lemma exit_chain_outcome e i ctx o out : stage_result (exit_chain e i ctx o) = Ok out ->
  band_checked out = true /\ out_band out = check_price_band i (in_band_data ctx) true /\
  modify_checked out = modify_checked o /\ out_modify out = out_modify o /\
  exit_clamped out = has_suggestion (out_band out) || has_trigger_suggestion (out_band out).
Proof.
  unfold exit_chain. cbv zeta. destruct (negb _); [done|]. destruct (require_session_op _ _); [|done].
  destruct (negb _); [done|]. destruct (validate _); [|done]. by intros [= <-].
Qed.

Lemma exit_chain_names e i ctx o : names_stage (exit_chain e i ctx o).
Proof.
  unfold exit_chain. cbv zeta. destruct (negb _); [auto with stages|].
  destruct (require_session_op _ _); [|auto with stages]. destruct (negb _); [auto with stages|].
  destruct (validate _); auto with stages.
Qed.

(** Applying the clamp of a checked exit brings its prices into a usable band. *)
Lemma apply_clamp_within i band out : band_checked out = true ->
  out_band out = check_price_band i band true -> usable band ->
  prices_within band (apply_clamp i out).1 /\
  ((apply_clamp i out).2 = true <-> ~ prices_within band i) /\
  ((apply_clamp i out).2 = false -> (apply_clamp i out).1 = i).
Proof.
  intros Hc Hb Hu. unfold apply_clamp. rewrite Hc, Hb. cbn [negb].
  destruct (check_price_band_cases i band true) as
    [(_ & Hp & _ & -> & -> & Hl & Ht & _)|(Hp & _ & -> & -> & _)]; [|specialize (Hp Hu); simpl; by split; [|split; [split|]]].
  cbv zeta in Hl, Ht.
  destruct (has_limit_to_check (order_type i)) eqn:El, (has_trigger_to_check (order_type i)) eqn:Et;
    [..|destruct Hp; unfold prices_within; by rewrite El, Et];
    simpl; (split; [unfold prices_within; simpl; rewrite ?El, ?Et, ?Hl, ?Ht by done|by split; [split; [intros _; exact Hp|done]|]]);
    split; intros; (done || by apply clamp_within).
Qed.

(** C6: an exit is never stranded: with its claim to reduce exposure accepted, it
    passes exactly when no Panic kill is active, the instrument is its own, it is
    well formed, the hedge check agrees and, only where the options ask for it,
    the limits hold. Neither detectors, scoped and soft kills, a dead session,
    the calendar, duplicates, the UNKNOWN pause, funds, margin nor the price band
    can stop it; and applying the clamp it comes back with brings every price the
    order uses inside a usable band, changing nothing when they already were. *)
Theorem exit_never_stranded e i ctx
    (Hl : limits_in_range (in_limits ctx)) (Hs : state_in_range (in_state ctx)) :
  (is_ok (stage_result (preflight_exit e i ctx)) = true <->
     (forall f, is_reducing (deps e) = Some f -> f i = true) /\ exit_guards e i ctx) /\
  names_stage (preflight_exit e i ctx) /\
  forall out, stage_result (preflight_exit e i ctx) = Ok out -> usable (in_band_data ctx) ->
    prices_within (in_band_data ctx) (apply_clamp i out).1 /\
    ((apply_clamp i out).2 = true <-> ~ prices_within (in_band_data ctx) i) /\
    ((apply_clamp i out).2 = false -> (apply_clamp i out).1 = i).
Proof.
  assert ((match is_reducing (deps e) with Some f => negb (f i) | None => false end) = false <->
    (forall f, is_reducing (deps e) = Some f -> f i = true)) as Hred.
  { destruct (is_reducing (deps e)) as [f|]; [|by split]. rewrite negb_false_iff. naive_solver. }
  unfold preflight_exit. destruct (match is_reducing (deps e) with Some f => negb (f i) | None => false end).
  - split; [|split; [apply names_stage_error|done]]. split; [done|]. intros [H _]. by apply Hred in H.
  - split; [|split; [apply exit_chain_names|]].
    + rewrite exit_chain_ok by done. rewrite <- Hred. tauto.
    + intros out H Hu. apply exit_chain_outcome in H as (H1 & H2 & _). by apply apply_clamp_within.
Qed.

(** ** The modify chain *)

(** a modify passes exactly when the amendment is allowed (the order works at
    the broker, no fill landed meanwhile, no change of quantity on a partial fill
    and none at or below what is filled) and the amended order meets the
    exit-legal guards, the reducing claim apart; an outcome carries the guard's
    Allow verdict; and a refusal by the guard is typed by its verdict: a terminal
    order as OrderNotFound and a raced fill as Validation, both to be reconciled
    first, a quantity hazard as RiskRejected and not retried. *)
Theorem preflight_modify_exact e current amended m ctx
    (Hl : limits_in_range (in_limits ctx)) (Hs : state_in_range (in_state ctx)) :
  let r := preflight_modify e current amended m ctx in
  let verdict := modify_verdict (evaluate_modify (current_state m) (make_modify_request current amended) (observed_filled m)) in
  (is_ok (stage_result r) = true <->
     amendable (current_state m) (observed_filled m) current amended /\ exit_guards e amended ctx) /\
  (forall out, stage_result r = Ok out -> modify_checked out = true /\ modify_verdict (out_modify out) = ModifyAllow) /\
  (verdict <> ModifyAllow -> stage r = kModifyGuard /\
     exists err, stage_result r = Err err /\ category err = (rejection_for verdict).1 /\
       action err = (rejection_for verdict).2) /\
  names_stage r.
Proof.
  cbv zeta. rewrite <- modify_allowed_ok. unfold preflight_modify.
  set (v := evaluate_modify (current_state m) (make_modify_request current amended) (observed_filled m)).
  pose proof (modify_allowed_verdict (current_state m) (make_modify_request current amended) (observed_filled m)) as Hv.
  cbv zeta in Hv. fold v in Hv. destruct (modify_allowed v); cbn [negb].
  - rewrite exit_chain_ok by done. split; [tauto|]. split; [|split].
    + intros out (_ & _ & H1 & H2 & _)%exit_chain_outcome. rewrite H1, H2. split; [done|]. by apply Hv.
    + intros H. destruct H. by apply Hv.
    + apply exit_chain_names.
  - destruct (rejection_for (modify_verdict v)) as [c a]. split; [split; [done|by intros [? _]]|].
    split; [done|]. split; [intros _; split; [done|eauto]|apply names_stage_error].
Qed.

(** ** Concrete runs *)

Definition sample_inst : Instrument :=
  mkInstrument "NIFTY" 1 "NFO" (quantity_of 25) (from_paise 5) (quantity_of 1800) "".
Definition sample_intent : OrderIntent :=
  mkIntent "" "NIFTY" Buy (quantity_of 50) (from_paise 10000) None Limit Intraday "alpha".
Definition sample_band : PriceBand := mkBand (from_paise_money 9000) (from_paise_money 11000) true.
Definition sample_quote : MarginInputs :=
  mkMarginInputs (from_paise_money 100000) (from_paise_money 0) (from_paise_money 0) false true.
Definition sample_deps : EngineDeps :=
  mkDeps (Some [mkKill StrategyKill "beta"]) true (Some []) (Some (mkSnapshot Healthy "")) true
    (Some sample_calendar) true (Some false) (Some (fun _ => Ok false)) (Some (fun _ => Ok sample_quote)) None None.
Definition sample_options : EngineOptions :=
  mkOptions EntryCapable [] [] true sample_margin_config false true false true.
Definition sample_engine : EngineAssembly := mkAssembly sample_deps sample_options.
Definition sample_inputs : PreflightInputs :=
  mkInputs sample_inst sample_band sample_limits sample_risk_state.
Definition sample_funds : FundsSnapshot :=
  mkFunds (from_paise_money 200000) (from_paise_money 0).
Definition sample_view : FundsView := mkFundsView 30 sample_funds 0 false.
Definition sample_io : FundsIo := mkFundsIo (Ok sample_funds) 10 10 10.
Definition sample_now : Z := 1709353800 * 10 ^ 9.

Lemma sample_ranges : limits_in_range sample_limits /\ state_in_range sample_risk_state.
Proof. split; split; unfold_ints; simpl; lia. Qed.

Lemma sample_clock : forall c, dep_calendar (deps sample_engine) = Some c -> is_int64 (local_time c sample_now).
Proof. intros c [= <-]. split; by vm_compute. Qed.

(** An entry that passes: every guard of the conjunction holds at once. *)
Lemma entry_exact_witness :
  let '(_, view') := preflight_entry sample_engine sample_now sample_io sample_io sample_view sample_intent sample_inputs in
  entry_guards sample_engine sample_now sample_io sample_io sample_view view' sample_intent sample_inputs.
Proof.
  pose proof (entry_exact sample_engine sample_now sample_io sample_io sample_view sample_intent sample_inputs
    sample_clock (proj1 sample_ranges) (proj2 sample_ranges)) as H.
  assert (is_ok (stage_result (preflight_entry sample_engine sample_now sample_io sample_io sample_view sample_intent sample_inputs).1) = true)
    as E by (vm_compute; reflexivity).
  destruct (preflight_entry sample_engine sample_now sample_io sample_io sample_view sample_intent sample_inputs) as [r v].
  exact (proj1 (proj1 H) E).
Defined.

(** An exit under a Soft kill, with every detector on and a dead session. *)
Definition stressed_engine : EngineAssembly :=
  mkAssembly (mkDeps (Some [mkKill SoftKillType ""]) true (Some [BrokerDown; RiskBreach]) (Some (mkSnapshot SessionFailed "token expired"))
    false None false None None None None None) (mkOptions EngineExitOnly [] [] true sample_margin_config false true false true).
Definition sample_exit : OrderIntent :=
  mkIntent "" "NIFTY" Sell (quantity_of 50) (from_paise 8000) (Some (from_paise 8500)) StopLoss Intraday "alpha".

Lemma exit_never_stranded_witness :
  exit_guards stressed_engine sample_exit sample_inputs.
Proof.
  apply (exit_never_stranded stressed_engine sample_exit sample_inputs (proj1 sample_ranges) (proj2 sample_ranges)).
  vm_compute. reflexivity.
Defined.

Lemma preflight_modify_exact_witness :
  amendable (mkModifyState Acknowledged 0 50) 0 sample_exit (with_price (from_paise 8400) sample_exit) /\
  exit_guards stressed_engine (with_price (from_paise 8400) sample_exit) sample_inputs.
Proof.
  apply (preflight_modify_exact stressed_engine sample_exit (with_price (from_paise 8400) sample_exit)
    (mkModifyContext (mkModifyState Acknowledged 0 50) 0) sample_inputs (proj1 sample_ranges) (proj2 sample_ranges)).
  vm_compute. reflexivity.
Defined.

(** A negative limit counts as armed, and arms nothing: the stage that refuses
    limits which enforce nothing lets it through. *)
Example negative_limit_counts_as_armed :
  let limits := mkLimits (-1) 0 0 0 false 0 0 0 0 in
  any_risk_limit_armed limits = true /\
  forall i s, strategy_enabled s = true -> data_tradable s = true -> check_all i limits s = ok.
Proof.
  split; [done|]. intros i s H1 H2. unfold check_all, check_account, check_strategy, check_instrument, check_order.
  simpl. by rewrite H1, H2.
Qed.
