(* ===== verification/Wiring.v ===== *)
(** * Wiring: the engine's documented duplicate probe in front of the dispatcher

    include/broker_exec/composition/engine_assembly.hpp describes how to wire the
    duplicate probe of the entry chain: ask idempotency::reserve over the
    runtime's index and store and answer "not new". This file models that recipe
    and composes it with the dispatcher, which reserves again over the same index
    when the order is placed. *)

From S2P Require Import Prelude Errors Domain ClientRef Lifecycle Json IntentLog WriteAhead Idempotency Store Dispatcher.

(** The recipe, with the index it leaves. *)
Definition documented_probe (ix : gmap string string) (find : string -> result (option Order)) (uuid : string)
    (i : OrderIntent) : result bool * gmap string string :=
  let '(reserved, ix') := reserve ix find uuid (strategy i) i in
  (match reserved with
   | Err e => Err e
   | Ok r => Ok (negb (is_new r))
   end, ix').

Section wiring.
Context `{J : JsonLib} `{W : WriteAheadLog}.

(** the probe is not a question but a reservation. Once it has answered "new"
    for a signal, it answers "duplicate" to every later chain of that signal,
    even if the first was then refused for want of funds; and the dispatcher that
    shares the index, asked to place the very order the chain let through,
    returns it UNKNOWN without writing a record, without touching the store and
    without sending anything. *)
Theorem documented_probe_starves_place d env strat uuid i ix'
    (ref := make_client_ref (strategy i) (signal_signature i) uuid)
    (Hprobe : documented_probe (d_index d) (find_order None (d_orders d)) uuid i = (Ok false, ix'))
    (Hunsent : ref ∉ d_unsent d) (Hread : env_find_fault env = None) :
  place env strat i (set_index ix' d) =
    (Ok (make_order (with_client_ref ref i) Unknown), set_index ix' d) /\
  forall find' uuid' i', order_key i' = order_key i ->
    forall answer, (documented_probe ix' find' uuid' i').1 = Ok answer -> answer = true.
Proof.
  unfold documented_probe, reserve in Hprobe.
  destruct (existing_ref_for_signature (d_index d) (signal_signature i)) as [prior|] eqn:Ep;
    [by destruct (find_order None (d_orders d) prior)|].
  fold ref in Hprobe. destruct (find_order None (d_orders d) ref) as [[o|]|] eqn:Ef; simpl in Hprobe; try done.
  injection Hprobe as <-.
  assert (existing_ref_for_signature (register_signature (d_index d) (signal_signature i) ref) (signal_signature i) = Some ref) as Hr.
  { unfold existing_ref_for_signature in *. by rewrite register_signature_lookup, Ep, bool_decide_eq_true_2. }
  split.
  - assert (forall uuid', reserve (register_signature (d_index d) (signal_signature i) ref)
        (find_order None (d_orders d)) uuid' strat i =
      (Ok (mkReservation ref false None), register_signature (d_index d) (signal_signature i) ref)) as Hagain.
    { intros uuid'. unfold reserve. by rewrite Hr, Ef. }
    unfold place, reserve_call, mbind, M_bind. cbn [set_index d_index d_orders]. rewrite Hread, Hagain.
    cbn. by rewrite bool_decide_eq_true_2.
  - intros find' uuid' i' Hk answer. unfold documented_probe, reserve. rewrite (signature_key i' i Hk), Hr.
    destruct (find' ref); simpl; [by intros [= <-]|done].
Qed.

End wiring.

(** The first order of an empty process, probed and then placed. *)
Lemma documented_probe_starves_place_witness :
  exists ix' o, documented_probe ∅ (find_order None ∅) "u0" (sample_signal "") = (Ok false, ix') /\
    place timed_out_env "s" (sample_signal "") (set_index (W := intent_log) ix' run0) =
      (Ok o, set_index (W := intent_log) ix' run0) /\ state o = Unknown.
Proof.
  eexists _, _. split; [reflexivity|].
  destruct (documented_probe_starves_place (W := intent_log) run0 timed_out_env "s" "u0" (sample_signal "")
    (register_signature ∅ (signal_signature (sample_signal ""))
       (make_client_ref "s" (signal_signature (sample_signal "")) "u0")) eq_refl) as [H _];
    [apply not_elem_of_empty|reflexivity|].
  split; [exact H|reflexivity].
Defined.
