(* ===== verification/Ledger.v ===== *)
(** * Ledger: the tamper-evident audit ledger (src/src/ledger/ledger.cpp)

    The hash chain, the all-or-nothing append with its rollback and seal, the
    reload, and the signed checkpoint. OpenSSL is third-party code: [OpenSsl] is
    the part of it the ledger calls and [OpenSslLaws] its documented behaviour;
    each call may also fail. Files are their contents; [LedgerDisk] runs a ledger
    through appends with any failures and restarts. *)

From S2P Require Import Prelude Errors Utf8 Json Redaction Calendar.

(** ** OpenSSL *)

(** [std::vector<unsigned char>]. *)
Abbreviation bytes := (list ascii).

(** [digest_hex] is the SHA-256 digest rendered by [to_hex]; a key is its raw
    bytes. *)
Class OpenSsl := {
  digest_hex : string -> string;
  ed25519_public : bytes -> bytes;
  ed25519_sign : bytes -> string -> bytes;
  ed25519_verify : bytes -> bytes -> string -> bool;
}.

Definition kEd25519KeyBytes : nat := 32.

Class OpenSslLaws (O : OpenSsl) : Prop := {
  digest_shape x : String.length (digest_hex x) = 64%nat /\ is_utf8 (digest_hex x);
  public_length sk : length sk = kEd25519KeyBytes -> length (ed25519_public sk) = kEd25519KeyBytes;
  verify_signed sk m : length sk = kEd25519KeyBytes ->
    ed25519_verify (ed25519_public sk) (ed25519_sign sk m) m = true;
}.

(** ** Hexadecimal *)

Definition kDigits : list ascii := chars "0123456789abcdef".

Definition to_hex_char (c : ascii) : string :=
  str [nth (N.to_nat (N.shiftr (N_of_ascii c) 4)) kDigits "0"%char;
       nth (N.to_nat (N.land (N_of_ascii c) 15)) kDigits "0"%char].

Fixpoint to_hex (data : bytes) : string :=
  match data with
  | [] => ""
  | c :: r => to_hex_char c +:+ to_hex r
  end.

Definition nibble (c : ascii) : option N :=
  let n := N_of_ascii c in
  if ((48 <=? n) && (n <=? 57))%N then Some (n - 48)%N
  else if ((97 <=? n) && (n <=? 102))%N then Some (n - 97 + 10)%N
  else if ((65 <=? n) && (n <=? 70))%N then Some (n - 65 + 10)%N
  else None.

Fixpoint from_hex_chars (l : list ascii) : option bytes :=
  match l with
  | [] => Some []
  | h :: l' :: r =>
      match nibble h, nibble l' with
      | Some hi, Some lo => cons (ascii_of_N (N.lor (N.shiftl hi 4) lo)) <$> from_hex_chars r
      | _, _ => None
      end
  | [_] => None
  end.

Definition from_hex (hex : string) : option bytes := from_hex_chars (chars hex).

(** Both digits of a byte, by inspection of the 256 bytes. *)
Definition hex_char_test (c : ascii) : bool :=
  match chars (to_hex_char c) with
  | [h; l] =>
      match nibble h, nibble l with
      | Some hi, Some lo => Ascii.eqb (ascii_of_N (N.lor (N.shiftl hi 4) lo)) c
      | _, _ => false
      end && (byte h <=? 0x7F) && (byte l <=? 0x7F)
  | _ => false
  end.

Lemma hex_char_tested c : hex_char_test c = true.
Proof. by_chars c. Qed.

Lemma to_hex_char_back c r : from_hex_chars (chars (to_hex_char c) ++ r) = cons c <$> from_hex_chars r.
Proof.
  pose proof (hex_char_tested c) as H. unfold hex_char_test in H.
  destruct (chars (to_hex_char c)) as [|h [|l [|]]]; try discriminate.
  apply andb_true_iff in H as [[H _]%andb_true_iff _]. simpl.
  destruct (nibble h), (nibble l); try discriminate. by apply Ascii.eqb_eq in H as ->.
Qed.

Lemma from_to_hex b : from_hex (to_hex b) = Some b.
Proof.
  unfold from_hex. induction b as [|c b IH]; [done|].
  cbn [to_hex]. by rewrite chars_app, to_hex_char_back, IH.
Qed.

Lemma to_hex_utf8 b : is_utf8 (to_hex b).
Proof.
  induction b as [|c b IH]; [constructor|]. apply is_utf8_app; [|done]. apply ascii_utf8.
  pose proof (hex_char_tested c) as H. unfold hex_char_test in H.
  destruct (chars (to_hex_char c)) as [|h [|l [|]]]; try discriminate.
  apply andb_true_iff in H as [[_ Hh]%andb_true_iff Hl]. apply Z.leb_le in Hh, Hl.
  by repeat constructor.
Qed.

(** ** Entries and the ledger *)

Record LedgerEntry := mkEntry { le_seq : Z; le_prev_hash : string; le_payload : string; le_hash : string }.

Record ProvenanceContext := mkProvenance { pv_client_ref : string; pv_broker_order_id : string; pv_strategy : string }.

Definition no_provenance : ProvenanceContext := mkProvenance "" "" "".

Record Ledger := mkLedger { led_path : string; entries : list LedgerEntry; poisoned : bool }.

Definition new_ledger (path : string) : Ledger := mkLedger path [] false.

Definition crypto_error (message : string) : Error := make_error Internal message "".
Definition refuse_ledger (message : string) : Error := make_error Validation message "".

Definition provenance_block (p : ProvenanceContext) : string :=
  render_provenance_block
    [mkField "client_ref" (pv_client_ref p) IdColumn;
     mkField "broker_order_id" (pv_broker_order_id p) IdColumn;
     mkField "strategy" (pv_strategy p) IdColumn].

(** The hash of the last entry, [""] of an empty ledger. *)
Definition hash_of_last (es : list LedgerEntry) : string :=
  match last es with Some e => le_hash e | None => "" end.

Definition head_hash (l : Ledger) : string := hash_of_last (entries l).

Definition ledger_size (l : Ledger) : Z := Z.of_nat (length (entries l)).

Section ledger.
Context `{J : JsonLib} `{O : OpenSsl}.

(** [sha256_hex]: [""] when a call of the library failed. *)
Definition ledger_sha256 (ok : bool) (data : string) : string := if ok then digest_hex data else "".

Definition entry_object (e : LedgerEntry) : gmap string jvalue :=
  <["seq" := of_int (le_seq e)]>
  (<["prev_hash" := of_string (le_prev_hash e)]>
  (<["payload" := of_string (le_payload e)]>
  (<["hash" := of_string (le_hash e)]> ∅))).

Definition entry_to_line (e : LedgerEntry) : string := json_dump (entry_object e).

(** ** append *)

(** What the file system answers to the restore. *)
Record RestoreIo := mkRestoreIo {
  r_size_ok : bool; r_resize_ok : bool; r_reopen_ok : bool; r_sync_ok : bool; r_close_ok : bool }.

(** How the write ends: complete, a short write or failed flush that left [k]
    bytes of the line in the file, or a failed sync or close after the flush. *)
Inductive WriteEnd := Written | WriteFailed (k : nat) | SyncLost | CloseLost.

(** The answers of one append: the digest, the measure, the reading of the last
    byte, [fopen], the write and the restore. *)
Record AppendIo := mkAppendIo {
  io_digest : bool; io_measure : bool; io_boundary : bool; io_open : bool;
  io_write : WriteEnd; io_restore : RestoreIo }.

Definition file_text (file : option string) : string := default "" file.

Definition ends_on_record_boundary (readable : bool) (text : string) : bool :=
  readable && bool_decide (last (chars text) = Some newline).

Definition restore_to_size (io : RestoreIo) (text : string) (target : nat) : bool * string :=
  if negb (r_size_ok io) then (false, text)
  else if (String.length text =? target)%nat then (true, text)
  else if (String.length text <? target)%nat then (false, text)
  else if negb (r_resize_ok io) then (false, text)
  else
    let text := str_take target text in
    if negb (r_reopen_ok io) then (false, text)
    else (r_sync_ok io && r_close_ok io, text).

Definition poison (l : Ledger) : Ledger := mkLedger (led_path l) (entries l) true.

Definition build_entry (digest_ok : bool) (l : Ledger) (payload : string) (p : ProvenanceContext) : LedgerEntry :=
  let prev := match last (entries l) with Some e => le_hash e | None => "" end in
  let text := canonical_text (scrub payload +:+ provenance_block p) in
  mkEntry (to_i64 (ledger_size l)) prev text (ledger_sha256 digest_ok (prev +:+ text)).

(** What the write left after [before], and [flushed]. *)
Definition write_line (w : WriteEnd) (line : string) : string * bool :=
  match w with
  | WriteFailed k => (str_take k line, false)
  | _ => (line, true)
  end.

Definition append (io : AppendIo) (l : Ledger) (file : option string) (payload : string) (p : ProvenanceContext) :
    result LedgerEntry * Ledger * option string :=
  if poisoned l
  then (Err (refuse_ledger "ledger: sealed by an earlier failed append; refusing to write onto unaccounted bytes"), l, file)
  else
    let entry := build_entry (io_digest io) l payload p in
    if String.eqb (le_hash entry) ""
    then (Err (crypto_error "ledger: SHA-256 hashing failed"), l, file)
    else
      let line := entry_to_line entry +:+ str [newline] in
      if negb (io_measure io)
      then (Err (crypto_error "ledger: failed to measure ledger file before append"), l, file)
      else
        let before := String.length (file_text file) in
        if (0 <? before)%nat && negb (ends_on_record_boundary (io_boundary io) (file_text file))
        then (Err (refuse_ledger "ledger: refusing to append onto a torn ledger file (the last record has no line terminator)"),
              poison l, file)
        else if negb (io_open io)
        then (Err (crypto_error "ledger: failed to open ledger file for append"), l, file)
        else
          let '(written, flushed) := write_line (io_write io) line in
          let text := file_text file +:+ written in
          match io_write io with
          | Written => (Ok entry, mkLedger (led_path l) (entries l ++ [entry]) (poisoned l), Some text)
          | _ =>
              let '(restored, text) := restore_to_size (io_restore io) text before in
              if negb restored
              then (Err (refuse_ledger "ledger: failed to write ledger entry AND could not restore the file to its pre-append size; ledger sealed"),
                    poison l, Some text)
              else (Err (crypto_error (if flushed then "ledger: failed to durably sync ledger entry"
                                       else "ledger: failed to write ledger entry")), l, Some text)
          end.

(** ** verify_chain *)

(** [payload.find(kUtf8Replacement) != npos]. *)
Definition mentions_replacement (payload : string) : bool :=
  match String.index 0 (str kUtf8Replacement) payload with Some _ => true | None => false end.

(** [evp i]: the digest of entry [i] did not fail. *)
Fixpoint verify_loop (evp : nat -> bool) (i : nat) (previous : option LedgerEntry) (es : list LedgerEntry) :
    result unit :=
  match es with
  | [] => Ok tt
  | entry :: rest =>
      let expected := ledger_sha256 (evp i) (le_prev_hash entry +:+ le_payload entry) in
      let hash_ok := negb (String.eqb expected "") && String.eqb (le_hash entry) expected in
      let link_ok := match previous with
                     | None => String.eqb (le_prev_hash entry) ""
                     | Some q => String.eqb (le_prev_hash entry) (le_hash q)
                     end in
      let seq_ok := le_seq entry =? to_i64 (Z.of_nat i) in
      if negb hash_ok || negb link_ok || negb seq_ok then
        let message := "ledger chain broken at seq " +:+ pretty (Z.of_nat i) in
        let message :=
          if negb hash_ok && link_ok && seq_ok && mentions_replacement (le_payload entry)
          then message +:+ " (observed: payload hash mismatch; link and seq intact; stored payload contains U+FFFD. These are facts for the runbook to interpret, NOT an exoneration — the entry is BROKEN and still blocks safe start.)"
          else message in
        Err (refuse_ledger message)
      else verify_loop evp (S i) (Some entry) rest
  end.

Definition verify_chain (evp : nat -> bool) (l : Ledger) : result unit := verify_loop evp 0 None (entries l).

(** ** load *)

Inductive LoadIo := LoadOk | LoadNotOpened | LoadBad.

(** [std::getline] until the end. *)
Definition getlines (text : string) : list string := (fun c => str c.1) <$> chunks (chars text).

(** The index of the last line that is not empty; the number of lines when there
    is none. *)
Fixpoint last_content_from (reversed : list string) : option nat :=
  match reversed with
  | [] => None
  | l :: rest => if String.eqb l "" then last_content_from rest else Some (length rest)
  end.

Definition last_content (lines : list string) : nat :=
  default (length lines) (last_content_from (rev lines)).

(** [contains(key) && is_...]: [get] cannot throw behind the type test. *)
Definition int_field_of (m : gmap string jvalue) (key : string) : option Z :=
  v ← m !! key; if is_number_integer v then Some (default 0 (as_int64 v)) else None.
Definition string_field_of (m : gmap string jvalue) (key : string) : option string :=
  v ← m !! key; if is_string v then Some (default "" (as_string v)) else None.

Definition entry_of_line (line : string) : option LedgerEntry :=
  match json_parse line with
  | Object m =>
      s ← int_field_of m "seq"; ph ← string_field_of m "prev_hash";
      pl ← string_field_of m "payload"; h ← string_field_of m "hash";
      Some (mkEntry s ph pl h)
  | _ => None
  end.

Fixpoint load_lines (last : nat) (i : nat) (lines : list string) (acc : list LedgerEntry) :
    result unit * list LedgerEntry :=
  match lines with
  | [] => (Ok tt, acc)
  | line :: rest =>
      if String.eqb line "" then load_lines last (S i) rest acc
      else match entry_of_line line with
           | None =>
               if (i =? last)%nat then load_lines last (S i) rest acc
               else (Err (refuse_ledger ("ledger: malformed entry on line " +:+ pretty (Z.of_nat i + 1))), acc)
           | Some e => load_lines last (S i) rest (acc ++ [e])
           end
  end.

Definition set_entries (es : list LedgerEntry) (l : Ledger) : Ledger := mkLedger (led_path l) es (poisoned l).

Definition load (io : LoadIo) (l : Ledger) (file : option string) : result unit * Ledger :=
  match io, file with
  | LoadNotOpened, _ | _, None => (Err (refuse_ledger "ledger: ledger file not found"), set_entries [] l)
  | LoadBad, Some _ => (Err (crypto_error "ledger: failed to read ledger file"), set_entries [] l)
  | LoadOk, Some text =>
      let lines := getlines text in
      let '(r, es) := load_lines (last_content lines) 0 lines [] in (r, set_entries es l)
  end.

(** ** Signing and the checkpoint *)

(** The step of an OpenSSL sequence that fails, if any. *)
Inductive SignIo := SignDone | SignImport | SignContext | SignInit | SignProbe | SignFinal.
Inductive VerifyIo := VerifyDone | VerifyImport | VerifyContext | VerifyInit.

Definition sign_head (io : SignIo) (l : Ledger) (private_key : bytes) : result bytes :=
  let head := head_hash l in
  if String.eqb head "" then Err (refuse_ledger "ledger empty, nothing to sign")
  else if negb (length private_key =? kEd25519KeyBytes)%nat
  then Err (refuse_ledger "ledger: Ed25519 private key must be 32 bytes")
  else match io with
       | SignImport => Err (crypto_error "ledger: Ed25519 private key import failed")
       | SignContext => Err (crypto_error "ledger: sign context allocation failed")
       | SignInit => Err (crypto_error "ledger: sign init failed")
       | SignProbe => Err (crypto_error "ledger: signature length probe failed")
       | SignFinal => Err (crypto_error "ledger: signing failed")
       | SignDone => Ok (ed25519_sign private_key head)
       end.

Definition verify_head (io : VerifyIo) (head : string) (signature public_key : bytes) : result unit :=
  if negb (length public_key =? kEd25519KeyBytes)%nat
  then Err (refuse_ledger "ledger: Ed25519 public key must be 32 bytes")
  else match io with
       | VerifyImport => Err (crypto_error "ledger: Ed25519 public key import failed")
       | VerifyContext => Err (crypto_error "ledger: verify context allocation failed")
       | VerifyInit => Err (crypto_error "ledger: verify init failed")
       | VerifyDone =>
           if ed25519_verify public_key signature head then Ok tt
           else Err (refuse_ledger "ledger: signature verification failed (wrong key or tampered head)")
       end.

Definition require_key_match (expected actual : bytes) : result unit :=
  if negb (bool_decide (expected = actual)) then Err (make_error Auth "ledger signing key mismatch" "") else Ok tt.

Record EodReport := mkReport { entry_count : Z; rep_head_hash : string; rep_signature : bytes; rep_public_key : bytes }.

Definition eod_report (io : SignIo) (l : Ledger) (private_key public_key : bytes) : result EodReport :=
  match sign_head io l private_key with
  | Err e => Err e
  | Ok signature => Ok (mkReport (to_i64 (ledger_size l)) (head_hash l) signature public_key)
  end.

Definition report_object (r : EodReport) : gmap string jvalue :=
  <["entry_count" := of_int (entry_count r)]>
  (<["head_hash" := of_string (rep_head_hash r)]>
  (<["signature" := of_string (to_hex (rep_signature r))]>
  (<["public_key" := of_string (to_hex (rep_public_key r))]> ∅))).

Definition report_to_json (r : EodReport) : string := json_dump (report_object r).

Definition checkpoint_path (l : Ledger) : string := led_path l +:+ ".checkpoint".

(** What the file system answers while the checkpoint is written: [cp_write] is
    [None] when the whole bundle is written and flushed, else how much of it is. *)
Record CheckpointIo := mkCheckpointIo {
  cp_open : bool; cp_write : option nat; cp_sync : bool; cp_close : bool; cp_rename : bool }.

Definition write_checkpoint (sio : SignIo) (io : CheckpointIo) (l : Ledger) (private_key public_key : bytes)
    (files : gmap string string) : result unit * gmap string string :=
  if String.eqb (head_hash l) "" then (Err (refuse_ledger "ledger empty, nothing to checkpoint"), files)
  else match eod_report sio l private_key public_key with
  | Err e => (Err e, files)
  | Ok report =>
      let bundle := report_to_json report in
      let target := checkpoint_path l in
      let tmp := target +:+ ".tmp" in
      if negb (cp_open io) then (Err (crypto_error "ledger: failed to open checkpoint temp file"), files)
      else match cp_write io with
      | Some k => (Err (crypto_error "ledger: failed to write checkpoint"), <[tmp := str_take k bundle]> files)
      | None =>
          let files := <[tmp := bundle]> files in
          if negb (cp_close io) || negb (cp_sync io)
          then (Err (crypto_error "ledger: failed to durably sync checkpoint"), files)
          else if negb (cp_rename io)
          then (Err (crypto_error "ledger: failed to atomically publish checkpoint"), files)
          else (Ok tt, <[target := bundle]> (delete tmp files))
      end
  end.

(** The key pair the library draws, or the step that failed. *)
Inductive KeygenIo := KeyDrawn (public private : bytes) | KeyContext | KeyInit | KeyGeneration | KeyExport.

Definition generate_keypair (io : KeygenIo) : result (bytes * bytes) :=
  match io with
  | KeyContext => Err (crypto_error "ledger: Ed25519 key context allocation failed")
  | KeyInit => Err (crypto_error "ledger: Ed25519 keygen init failed")
  | KeyGeneration => Err (crypto_error "ledger: Ed25519 key generation failed")
  | KeyExport => Err (crypto_error "ledger: Ed25519 raw key export failed")
  | KeyDrawn public private => Ok (public, private)
  end.

(** [mkdir_ok], [open_ok]; [written]: [None] when everything reached the stream. *)
Definition write_public_key (mkdir_ok open_ok : bool) (written : option nat) (public_key : bytes) (dir : string)
    (files : gmap string string) : result unit * gmap string string :=
  let file := dir +:+ "/ledger_public_key.hex" in
  if negb mkdir_ok then (Err (crypto_error "ledger: failed to create public-key directory"), files)
  else if negb open_ok then (Err (crypto_error "ledger: failed to open public-key file"), files)
  else match written with
       | Some k => (Err (crypto_error "ledger: failed to write public-key file"), <[file := str_take k (to_hex public_key)]> files)
       | None => (Ok tt, <[file := to_hex public_key]> files)
       end.

(** ** The position heartbeat *)

Record PositionHeartbeat := mkHeartbeat { hb_ts : string; hb_exposure : string }.

Definition to_iso8601_utc (tp : Z) : string :=
  let day := tp / day_ns in
  let tod := (tp - day * day_ns) / 1000000000 in
  to_iso (ymd_of day) +:+ "T" +:+ pad (tod / 3600) 2 +:+ ":" +:+ pad (tod / 60 mod 60) 2 +:+ ":" +:+
  pad (tod mod 60) 2 +:+ "Z".

Definition make_heartbeat (exposure_summary : string) (ts : Z) (p : ProvenanceContext) : PositionHeartbeat :=
  mkHeartbeat (to_iso8601_utc ts) (canonical_text (scrub exposure_summary +:+ provenance_block p)).

Definition heartbeat_to_json (h : PositionHeartbeat) : string :=
  json_dump (<["ts" := of_string (canonical_text (hb_ts h))]>
            (<["exposure" := of_string (canonical_text (hb_exposure h))]> ∅)).

Inductive ReadCheckpoint := CpRead | CpStatFailed | CpNotOpened | CpBad.

(** The fields of a well-formed bundle, the two byte strings still in hex. *)
Definition bundle_of (text : string) : option (Z * string * string * string) :=
  match json_parse text with
  | Object m =>
      n ← int_field_of m "entry_count"; h ← string_field_of m "head_hash";
      s ← string_field_of m "signature"; k ← string_field_of m "public_key";
      Some (n, h, s, k)
  | _ => None
  end.

Definition check_bundle (vio : VerifyIo) (l : Ledger) (pinned : bytes) (cp_size : Z) (cp_head : string)
    (signature public_key : bytes) : result unit :=
  if cp_size <? 1 then Err (refuse_ledger "ledger: checkpoint records a non-positive size")
  else if negb (is_ok (require_key_match pinned public_key))
  then Err (refuse_ledger "checkpoint public key does not match the pinned key (substitution)")
  else if negb (is_ok (verify_head vio cp_head signature pinned))
  then Err (refuse_ledger "checkpoint signature invalid")
  else if to_i64 (ledger_size l) <? cp_size
  then Err (refuse_ledger ("ledger TRUNCATED: have " +:+ pretty (ledger_size l) +:+
         " entries, checkpoint signed " +:+ pretty cp_size))
  else match entries l !! Z.to_nat (cp_size - 1) with
       | Some at_mark =>
           if negb (String.eqb (le_hash at_mark) cp_head)
           then Err (refuse_ledger ("ledger ROLLED BACK/SUBSTITUTED: entry " +:+ pretty (cp_size - 1) +:+
                  " hash diverges from the signed checkpoint"))
           else Ok tt
       | None => Err (refuse_ledger "") (* not reached: 1 <= cp_size <= size *)
       end.

Definition verify_against_checkpoint (rio : ReadCheckpoint) (vio : VerifyIo) (l : Ledger) (pinned : bytes)
    (files : gmap string string) : result unit :=
  match rio, files !! checkpoint_path l with
  | CpStatFailed, _ => Err (crypto_error "ledger: failed to stat checkpoint file")
  | _, None => Ok tt
  | CpNotOpened, Some _ => Err (crypto_error "ledger: failed to open checkpoint file")
  | CpBad, Some _ => Err (crypto_error "ledger: failed to read checkpoint file")
  | CpRead, Some text =>
      match bundle_of text with
      | None => Err (refuse_ledger "ledger: checkpoint file malformed or unparseable")
      | Some (n, head, s, k) =>
          match from_hex s, from_hex k with
          | Some signature, Some public_key => check_bundle vio l pinned n head signature public_key
          | _, _ => Err (refuse_ledger "ledger: checkpoint file malformed or unparseable")
          end
      end
  end.

End ledger.

(** ** What a good chain is *)

Section chains.
Context `{O : OpenSsl} {OL : OpenSslLaws O}.

Fixpoint chained (i : Z) (prev : string) (es : list LedgerEntry) : Prop :=
  match es with
  | [] => True
  | e :: rest =>
      le_seq e = i /\ le_prev_hash e = prev /\ le_hash e = digest_hex (prev +:+ le_payload e) /\
      chained (i + 1) (le_hash e) rest
  end.

Lemma digest_nonempty x : digest_hex x <> "".
Proof. intros H. destruct (digest_shape x) as [Hl _]. by rewrite H in Hl. Qed.

Lemma chained_snoc i prev es e : chained i prev (es ++ [e]) <->
  chained i prev es /\ le_seq e = i + Z.of_nat (length es) /\
  le_prev_hash e = match last es with Some q => le_hash q | None => prev end /\
  le_hash e = digest_hex (le_prev_hash e +:+ le_payload e).
Proof.
  revert i prev. induction es as [|q es IH]; intros i prev; simpl.
  - rewrite Z.add_0_r. split; intros (H1 & H2 & H3 & H4); split_and!; congruence || done.
  - rewrite IH. replace (i + Z.of_nat (S (length es))) with (i + 1 + Z.of_nat (length es)) by lia.
    destruct es as [|a es]; [simpl; tauto|]. rewrite last_cons_cons. destruct (last (a :: es)) eqn:E; [tauto|]. by apply last_None in E.
Qed.

Lemma chained_app i prev es fs : chained i prev (es ++ fs) -> chained i prev es.
Proof. revert i prev. induction es; intros i prev; simpl; [done|]. naive_solver. Qed.

Lemma verify_sound evp es : forall i previous, Z.of_nat (i + length es) <= int64_max + 1 ->
  verify_loop evp i previous es = Ok tt ->
  chained (Z.of_nat i) (match previous with Some q => le_hash q | None => "" end) es.
Proof.
  induction es as [|e es IH]; intros i previous Hi H; [done|]. cbn [verify_loop] in H. cbn [length] in Hi.
  match goal with H : (if ?b then _ else _) = _ |- _ => destruct b eqn:E; [discriminate|] end.
  apply orb_false_iff in E as [[Eh%negb_false_iff El%negb_false_iff]%orb_false_iff Es%negb_false_iff].
  apply andb_true_iff in Eh as [Hne Hh]. apply negb_true_iff, String.eqb_neq in Hne. apply String.eqb_eq in Hh.
  apply Z.eqb_eq in Es. rewrite to_i64_small in Es by (unfold_ints; lia).
  assert (le_prev_hash e = match previous with Some q => le_hash q | None => "" end) as Hp
    by (destruct previous; by apply String.eqb_eq in El).
  apply IH in H; [|lia]. simpl. rewrite <- Hp. replace (Z.of_nat i + 1) with (Z.of_nat (S i)) by lia.
  split_and!; try done. unfold ledger_sha256 in *. by destruct (evp i).
Qed.

Lemma verify_complete es : forall i previous, Z.of_nat (i + length es) <= int64_max + 1 ->
  chained (Z.of_nat i) (match previous with Some q => le_hash q | None => "" end) es ->
  verify_loop (fun _ => true) i previous es = Ok tt.
Proof.
  induction es as [|e es IH]; intros i previous Hi H; [done|]. cbn [length] in Hi.
  destruct H as (Hs & Hp & Hh & Hc). cbn [verify_loop].
  rewrite to_i64_small by (unfold_ints; lia). rewrite Hs, Z.eqb_refl. unfold ledger_sha256. rewrite Hp, <- Hh, String.eqb_refl.
  rewrite (proj2 (String.eqb_neq _ _)) by (rewrite Hh; apply digest_nonempty).
  replace (match previous with Some q => _ | None => _ end) with true
    by (by destruct previous; rewrite String.eqb_refl).
  cbn [negb andb orb]. apply IH; [lia|]. by replace (Z.of_nat (S i)) with (Z.of_nat i + 1) by lia.
Qed.

(** Two chains of one length with one head are one chain, or two texts with one
    digest have been found. *)
Definition digest_collision : Prop := exists x y, x <> y /\ digest_hex x = digest_hex y.

Lemma chained_same es : forall fs, length es = length fs -> chained 0 "" es -> chained 0 "" fs ->
  hash_of_last es = hash_of_last fs -> es = fs \/ digest_collision.
Proof.
  induction es as [|e es IH] using rev_ind; intros fs Hlen He Hf Hh.
  { destruct fs; [by left|done]. }
  destruct fs as [|f fs _] using rev_ind; [rewrite length_app in Hlen; simpl in Hlen; lia|].
  rewrite !length_app in Hlen. simpl in Hlen. assert (length es = length fs) as Hl by lia.
  unfold hash_of_last in Hh. rewrite !last_snoc in Hh.
  apply chained_snoc in He as (He & Se & Pe & De), Hf as (Hf & Sf & Pf & Df).
  destruct (decide (le_prev_hash e +:+ le_payload e = le_prev_hash f +:+ le_payload f)) as [E|E];
    [|right; exists (le_prev_hash e +:+ le_payload e), (le_prev_hash f +:+ le_payload f); split; congruence].
  assert (String.length (le_prev_hash e) = String.length (le_prev_hash f)) as Hll.
  { rewrite Pe, Pf. destruct es as [|a es _] using rev_ind; destruct fs as [|b fs _] using rev_ind; try done;
      try (rewrite length_app in Hl; simpl in Hl; lia).
    rewrite !last_snoc. apply chained_snoc in He as (_ & _ & _ & ->), Hf as (_ & _ & _ & ->).
    by rewrite !(proj1 (digest_shape _)). }
  apply str_app_inv_len in E as [E1 E2]; [|done].
  destruct (IH fs Hl He Hf) as [->|]; [|left|by right].
  - unfold hash_of_last. rewrite Pe, Pf in E1. by destruct (last es), (last fs).
  - f_equal. f_equal. destruct e, f. simpl in *. congruence.
Qed.

End chains.
