(* ===== verification/LedgerDisk.v ===== *)
(** * LedgerDisk: what the audit ledger promises across failures and restarts

    The file under [Ledger]: lines written and read back, failed writes rolled
    back or sealed, restarts over a torn tail; and the retained checkpoint. *)

From S2P Require Import Prelude Errors Utf8 Json Redaction Calendar Ledger.

Section lines.
Context `{J : JsonLib} {L : JsonLaws J} `{O : OpenSsl} {OL : OpenSslLaws O}.

(** Every field survives the JSON projection. *)
Definition entry_ok (e : LedgerEntry) : Prop :=
  is_int64 (le_seq e) /\ is_utf8 (le_prev_hash e) /\ is_utf8 (le_payload e) /\ is_utf8 (le_hash e).

Lemma text_plain s : is_utf8 s -> plain_value (of_string s).
Proof. right; right; eauto. Qed.
Lemma int_plain z : is_int64 z -> plain_value (of_int z).
Proof. left; eauto. Qed.

Lemma entry_object_plain e : entry_ok e -> plain_object (entry_object e).
Proof.
  intros (Hs & Hp & Hl & Hh). unfold plain_object, entry_object.
  repeat (apply map_Forall_insert_2; [split; [by apply identifier_b|by auto using text_plain, int_plain]|]).
  apply map_Forall_empty.
Qed.

Lemma int_field_int m k z : m !! k = Some (of_int z) -> is_int64 z -> int_field_of m k = Some z.
Proof. intros H Hz. unfold int_field_of. rewrite H. simpl. by rewrite is_number_integer_of, as_int64_of. Qed.

Lemma string_field_string m k s : m !! k = Some (of_string s) -> is_utf8 s -> string_field_of m k = Some s.
Proof. intros H Hs. unfold string_field_of. rewrite H. simpl. by rewrite is_string_of, as_string_of. Qed.

Lemma entry_roundtrip e : entry_ok e -> entry_of_line (entry_to_line e) = Some e.
Proof.
  intros Hok. unfold entry_of_line, entry_to_line. rewrite parse_dump by by apply entry_object_plain.
  destruct Hok as (Hs & Hp & Hl & Hh).
  rewrite (int_field_int _ "seq" (le_seq e)), (string_field_string _ "prev_hash" (le_prev_hash e)),
    (string_field_string _ "payload" (le_payload e)), (string_field_string _ "hash" (le_hash e)) by first [reflexivity|done].
  by destruct e.
Qed.

Definition line_chars (e : LedgerEntry) : list ascii := chars (entry_to_line e) ++ [newline].

Lemma line_one e : newline ∉ chars (entry_to_line e).
Proof. apply dump_one_line. Qed.
Lemma line_nonempty e : chars (entry_to_line e) <> [].
Proof. apply chars_nonempty, dump_nonempty. Qed.

(** The first [k] bytes of a line. *)
Definition torn (k : nat) (e : LedgerEntry) : list ascii := take k (line_chars e).

Lemma torn_short k e : (k <= length (chars (entry_to_line e)))%nat -> torn k e = take k (chars (entry_to_line e)).
Proof. intros. unfold torn, line_chars. by rewrite take_app_le. Qed.

Lemma torn_whole k e : (length (chars (entry_to_line e)) < k)%nat -> torn k e = line_chars e.
Proof. intros. unfold torn. apply take_ge. unfold line_chars. rewrite length_app. simpl. lia. Qed.

(** A line cut short is no entry. *)
Lemma torn_unreadable k e : entry_ok e -> (0 < k < length (chars (entry_to_line e)))%nat ->
  entry_of_line (str (take k (chars (entry_to_line e)))) = None.
Proof.
  intros Hok Hk. unfold entry_of_line. set (t := chars (entry_to_line e)) in *.
  rewrite (parse_prefix (entry_object e) _ (str (drop k t))); [done|by apply entry_object_plain|..].
  - apply (inj chars). rewrite chars_app, !chars_str. by rewrite take_drop.
  - intros H. apply (f_equal chars), (f_equal length) in H. rewrite chars_str, length_take in H. simpl in H. lia.
  - intros H. apply (f_equal chars), (f_equal length) in H. rewrite chars_str, length_drop in H. simpl in H. lia.
Qed.

Definition file_chars (es : list LedgerEntry) : list ascii := es ≫= line_chars.

Lemma file_chars_snoc es e : file_chars (es ++ [e]) = file_chars es ++ line_chars e.
Proof. unfold file_chars. rewrite bind_app. simpl. by rewrite app_nil_r. Qed.

Lemma getlines_file es rest :
  getlines (str (file_chars es ++ rest)) = (entry_to_line <$> es) ++ getlines (str rest).
Proof.
  unfold getlines. rewrite !chars_str. induction es as [|e es IH]; [done|].
  unfold file_chars. simpl. unfold line_chars at 1. rewrite <- !app_assoc. cbn [app].
  rewrite chunks_line by apply line_one. simpl. f_equal; [apply str_chars|exact IH].
Qed.

Lemma getlines_torn k e : (k <= length (chars (entry_to_line e)))%nat ->
  getlines (str (torn k e)) = if (k =? 0)%nat then [] else [str (take k (chars (entry_to_line e)))].
Proof.
  intros Hk. rewrite torn_short by done. unfold getlines. rewrite chars_str.
  destruct (Nat.eqb_spec k 0) as [->|Hk0]; [done|]. rewrite chunks_tail; [done|..].
  - intros H. apply (line_one e). eapply elem_of_take in H as (i & Hi & _). by eapply list_elem_of_lookup_2.
  - intros H. apply (f_equal length) in H. rewrite length_take in H. simpl in H.
    pose proof (line_nonempty e). destruct (chars (entry_to_line e)); [done|]. simpl in *. lia.
Qed.

Lemma load_lines_good last es : forall i rest acc, Forall entry_ok es ->
  load_lines last i ((entry_to_line <$> es) ++ rest) acc = load_lines last (i + length es) rest (acc ++ es).
Proof.
  induction es as [|e es IH]; intros i rest acc H; simpl.
  - by rewrite Nat.add_0_r, app_nil_r.
  - apply Forall_cons in H as [He Hes]. rewrite (proj2 (String.eqb_neq _ _)) by apply dump_nonempty.
    rewrite entry_roundtrip by done. rewrite IH by done. rewrite <- app_assoc.
    by replace (S i + length es)%nat with (i + S (length es))%nat by lia.
Qed.

Lemma last_content_snoc ls l : l <> "" -> last_content (ls ++ [l]) = length ls.
Proof.
  intros Hl. unfold last_content. rewrite rev_app_distr. simpl. apply String.eqb_neq in Hl. rewrite Hl. simpl.
  apply length_rev.
Qed.

(** What a reload of complete lines and a torn one yields. *)
Definition reloaded (k : nat) (e : LedgerEntry) (es : list LedgerEntry) : list LedgerEntry :=
  if (length (chars (entry_to_line e)) <=? k)%nat then es ++ [e] else es.

Lemma load_torn l k e es : Forall entry_ok es -> (k <> 0%nat -> entry_ok e) ->
  load LoadOk l (Some (str (file_chars es ++ torn k e))) = (Ok tt, set_entries (reloaded k e es) l).
Proof.
  intros Hes He. unfold load, reloaded. set (t := chars (entry_to_line e)) in *.
  assert (t <> []) as Hne by apply line_nonempty.
  assert (length t <> 0%nat) as Hn0 by (by destruct t).
  assert (forall r, t = chars r -> r <> "") as Htne by (intros r -> ->; done).
  destruct (decide (length t < k)%nat) as [Hk|Hk].
  - rewrite torn_whole by done. rewrite <- file_chars_snoc, <- (app_nil_r (file_chars _)), getlines_file.
    change (getlines (str [])) with (@nil string). rewrite load_lines_good.
    + rewrite (proj2 (Nat.leb_le _ _)) by lia. done.
    + apply Forall_app. split; [done|]. constructor; [apply He; lia|constructor].
  - rewrite getlines_file, getlines_torn by (fold t; lia). fold t. destruct (Nat.eqb_spec k 0) as [->|Hk0].
    + rewrite load_lines_good by done. simpl. destruct (length t); [done|]. done.
    + rewrite load_lines_good by done. rewrite last_content_snoc, length_fmap.
      2: { intros H. apply (f_equal chars), (f_equal length) in H. rewrite chars_str, length_take in H. simpl in H. lia. }
      cbn [load_lines app]. rewrite (proj2 (String.eqb_neq _ _)).
      2: { intros H. apply (f_equal chars), (f_equal length) in H. rewrite chars_str, length_take in H. simpl in H. lia. }
      destruct (decide (k = length t)) as [->|Hkt].
      * rewrite firstn_all. unfold t. rewrite str_chars, entry_roundtrip by (apply He; lia). fold t.
        by rewrite Nat.leb_refl.
      * unfold t. rewrite (torn_unreadable k e) by (fold t; first [lia|apply He; lia]). fold t. rewrite Nat.eqb_refl.
        rewrite (proj2 (Nat.leb_gt _ _)) by lia. done.
Qed.
End lines.

(** ** One append *)

Section append_spec.
Context `{J : JsonLib} `{O : OpenSsl}.

Lemma restore_cases io a b ok t : restore_to_size io (a +:+ b) (String.length a) = (ok, t) ->
  t = a \/ (ok = false /\ t = a +:+ b).
Proof.
  unfold restore_to_size. rewrite str_length_app.
  destruct (r_size_ok io); simpl; [|intros [= <- <-]; auto].
  destruct (Nat.eqb_spec (String.length a + String.length b) (String.length a)) as [E|E].
  { intros [= <- <-]. left. destruct b; [apply str_app_nil_r|simpl in E; lia]. }
  rewrite (proj2 (Nat.ltb_ge _ _)) by lia.
  destruct (r_resize_ok io); simpl; [|intros [= <- <-]; auto].
  rewrite str_take_app_length. destruct (r_reopen_ok io); simpl; intros [= <- <-]; auto.
Qed.

(** The four ways an append ends. *)
Inductive append_view (io : AppendIo) (l : Ledger) (file : option string) (e : LedgerEntry) :
    result LedgerEntry * Ledger * option string -> Prop :=
  | append_refused err : append_view io l file e (Err err, l, file)
  | append_torn err : poisoned l = false -> file_text file <> "" ->
      ends_on_record_boundary (io_boundary io) (file_text file) = false ->
      append_view io l file e (Err err, poison l, file)
  | append_done : poisoned l = false -> le_hash e <> "" ->
      (file_text file = "" \/ ends_on_record_boundary (io_boundary io) (file_text file) = true) ->
      append_view io l file e
        (Ok e, mkLedger (led_path l) (entries l ++ [e]) (poisoned l),
         Some (file_text file +:+ entry_to_line e +:+ str [newline]))
  | append_failed err k l' t : poisoned l = false -> le_hash e <> "" ->
      (file_text file = "" \/ ends_on_record_boundary (io_boundary io) (file_text file) = true) ->
      (t = file_text file /\ (l' = l \/ l' = poison l) \/
       t = file_text file +:+ str_take k (entry_to_line e +:+ str [newline]) /\ l' = poison l) ->
      append_view io l file e (Err err, l', Some t).

Lemma append_spec io l file payload p :
  append_view io l file (build_entry (io_digest io) l payload p) (append io l file payload p).
Proof.
  unfold append. destruct (poisoned l) eqn:Hp; [constructor|]. cbv zeta.
  set (e := build_entry _ _ _ _). destruct (String.eqb_spec (le_hash e) "") as [Hh|Hh]; [constructor|].
  destruct (io_measure io); simpl negb; cbn iota; [|constructor].
  destruct ((0 <? String.length (file_text file))%nat && negb (ends_on_record_boundary (io_boundary io) (file_text file))) eqn:Hb.
  { apply andb_true_iff in Hb as [Hb Hn%negb_true_iff]. constructor; try done. intros E. by rewrite E in Hb. }
  destruct (io_open io); simpl negb; cbn iota; [|constructor].
  assert (file_text file = "" \/ ends_on_record_boundary (io_boundary io) (file_text file) = true) as Hend.
  { apply andb_false_iff in Hb as [Hb|Hb%negb_false_iff]; [left|by right].
    by destruct (file_text file). }
  destruct (io_write io) as [|k| |] eqn:Hw; unfold write_line; [rewrite <- Hp; by constructor|..].
  all: match goal with |- context [restore_to_size ?r (_ +:+ ?b) _] =>
         destruct (restore_to_size r (file_text file +:+ b) (String.length (file_text file))) as [[] t] eqn:Er end;
       apply restore_cases in Er as [->|[? ->]]; try discriminate; cbn [negb]; cbn iota;
       try by eapply (append_failed _ _ _ _ _ k); eauto.
  all: eapply (append_failed _ _ _ _ _ (String.length (entry_to_line e +:+ str [newline]))); try done; auto.
  all: right; split; [|done]; f_equal; symmetry; unfold str_take; rewrite <- chars_length, firstn_all; apply str_chars.
  Unshelve. all: exact 0%nat.
Qed.
End append_spec.

(** ** Runs *)

(** A ledger over its file, with the entries its appends returned. *)
Record Disk := mkDisk { d_ledger : Ledger; d_file : option string; d_acked : list LedgerEntry }.

Definition disk_init (path : string) : Disk := mkDisk (new_ledger path) None [].

Section runs.
Context `{J : JsonLib} `{O : OpenSsl}.

(** An append with any failures; a reload by the object or by a new process. The
    bytes a process that died in an append left are those of a write whose
    restore failed. *)
Inductive disk_step : Disk -> Disk -> Prop :=
  | disk_append io payload p d r l' file' :
      ledger_size (d_ledger d) <= int64_max ->
      append io (d_ledger d) (d_file d) payload p = (r, l', file') ->
      disk_step d (mkDisk l' file' (d_acked d ++ match r with Ok e => [e] | Err _ => [] end))
  | disk_load base path d l' :
      base = d_ledger d \/ base = new_ledger path ->
      load LoadOk base (d_file d) = (Ok tt, l') ->
      disk_step d (mkDisk l' (d_file d) (d_acked d)).
End runs.

Section durable.
Context `{J : JsonLib} {L : JsonLaws J} `{O : OpenSsl} {OL : OpenSslLaws O}.

(** The file is the lines of a good chain, then [k] bytes of the line of an entry
    that would continue it. *)
Definition on_disk (es : list LedgerEntry) (k : nat) (e : LedgerEntry) (file : option string) : Prop :=
  chained 0 "" es /\ Forall entry_ok es /\ file_text file = str (file_chars es ++ torn k e) /\
  (k <> 0%nat -> entry_ok e /\ chained 0 "" (es ++ [e])).

Definition text_size (e : LedgerEntry) : nat := length (chars (entry_to_line e)).

Definition disk_inv (d : Disk) : Prop := exists es k e,
  on_disk es k e (d_file d) /\ d_acked d `sublist_of` entries (d_ledger d) /\
  ((entries (d_ledger d) = es /\ (k = 0%nat \/ poisoned (d_ledger d) = true \/ (k <= text_size e)%nat)) \/
   (entries (d_ledger d) = es ++ [e] /\ k = text_size e)).

Lemma Forall_snoc_ok es e : Forall entry_ok es -> entry_ok e -> Forall entry_ok (es ++ [e]).
Proof. intros. apply Forall_app. split; [done|]. by constructor. Qed.

Lemma chained_length es : chained 0 "" es -> Forall entry_ok es -> Z.of_nat (length es) <= int64_max + 1.
Proof.
  destruct es as [|e es _] using rev_ind; [unfold_ints; simpl; lia|].
  intros (_ & Hs & _)%chained_snoc [_ [[Hi _] _]%Forall_cons]%Forall_app.
  rewrite length_app. simpl. unfold_ints. unfold is_int64 in Hi. unfold_ints. lia.
Qed.

Lemma prev_utf8 es : Forall entry_ok es -> is_utf8 (hash_of_last es).
Proof.
  intros H. unfold hash_of_last. destruct (last es) as [q|] eqn:E; [|constructor].
  apply last_Some_elem_of in E. rewrite Forall_forall in H. apply (H _ E).
Qed.

Lemma built_entry io_digest l payload p (e := build_entry io_digest l payload p) :
  chained 0 "" (entries l) -> Forall entry_ok (entries l) -> ledger_size l <= int64_max -> le_hash e <> "" ->
  entry_ok e /\ chained 0 "" (entries l ++ [e]).
Proof.
  intros Hc Hok Hs Hh. assert (to_i64 (ledger_size l) = ledger_size l) as Hi
    by (apply to_i64_small; unfold ledger_size in *; unfold_ints; lia).
  subst e. unfold build_entry in *. cbn [le_hash] in Hh. destruct io_digest; [|done]. simpl in *. split.
  - split_and!; simpl.
    + rewrite Hi. unfold ledger_size in *. unfold_ints. lia.
    + by apply prev_utf8.
    + apply canonical_text_utf8.
    + apply digest_shape.
  - apply chained_snoc. split_and!; done.
Qed.

(** A torn line, or a whole one without its end, does not end on a boundary. *)
Lemma torn_no_boundary b es k e : (0 < k <= text_size e)%nat ->
  ends_on_record_boundary b (str (file_chars es ++ torn k e)) = false.
Proof.
  intros Hk. unfold ends_on_record_boundary. apply andb_false_iff. right. apply bool_decide_eq_false.
  rewrite chars_str, torn_short by (fold (text_size e); lia). intros H.
  destruct (take k (chars (entry_to_line e))) as [|c t _] eqn:E using rev_ind.
  { apply (f_equal length) in E. rewrite length_take in E. unfold text_size in Hk. simpl in E. lia. }
  rewrite app_assoc, last_snoc in H. injection H as ->. apply (line_one e).
  assert (newline ∈ take k (chars (entry_to_line e))) as Hin by (rewrite E; set_solver).
  apply elem_of_take in Hin as (i & Hi & _). by eapply list_elem_of_lookup_2.
Qed.

Lemma on_disk_clean es e file : on_disk es 0 e file -> file_text file = str (file_chars es).
Proof. intros (_ & _ & -> & _). unfold torn. by rewrite take_0, app_nil_r. Qed.

Lemma clean_on_disk es e file :
  chained 0 "" es -> Forall entry_ok es -> file_text file = str (file_chars es) -> on_disk es 0 e file.
Proof. intros. split_and!; try done. unfold torn. by rewrite take_0, app_nil_r. Qed.

(** An append that gets past the boundary test stands at the end of a line. *)
Lemma appendable d es k e b : on_disk es k e (d_file d) ->
  ((entries (d_ledger d) = es /\ (k = 0%nat \/ poisoned (d_ledger d) = true \/ (k <= text_size e)%nat)) \/
   (entries (d_ledger d) = es ++ [e] /\ k = text_size e)) ->
  poisoned (d_ledger d) = false ->
  (file_text (d_file d) = "" \/ ends_on_record_boundary b (file_text (d_file d)) = true) ->
  k = 0%nat /\ entries (d_ledger d) = es.
Proof.
  intros (_ & _ & Hf & _) He Hp Hb. assert (text_size e <> 0%nat) as Hn.
  { unfold text_size. pose proof (line_nonempty e). by destruct (chars (entry_to_line e)). }
  destruct (decide (k = 0%nat)) as [->|Hk]; [destruct He as [[? _]|[_ ?]]; [auto|lia]|].
  assert (k <= text_size e)%nat by (destruct He as [[_ [?|[?|?]]]|[_ ?]]; [lia|congruence|lia|lia]).
  exfalso. destruct Hb as [Hb|Hb].
  - rewrite Hf in Hb. apply (f_equal chars), (f_equal length) in Hb. unfold text_size in *.
    rewrite chars_str, length_app, torn_short, length_take in Hb by lia. simpl in Hb. lia.
  - rewrite Hf, torn_no_boundary in Hb; [done|lia].
Qed.

Lemma append_inv io payload p d r l' file' : disk_inv d -> ledger_size (d_ledger d) <= int64_max ->
  append io (d_ledger d) (d_file d) payload p = (r, l', file') ->
  disk_inv (mkDisk l' file' (d_acked d ++ match r with Ok e => [e] | Err _ => [] end)).
Proof.
  intros (es & k & e & Hd & Ha & He) Hs E.
  pose proof (append_spec io (d_ledger d) (d_file d) payload p) as V. rewrite E in V.
  inversion V as [err H1|err Hp Hne Hb H1|Hp Hh Hb H1|err k' l2 t Hp Hh Hb Ht H1]; subst.
  - exists es, k, e. rewrite app_nil_r. done.
  - exists es, k, e. rewrite app_nil_r. simpl. split_and!; try done. naive_solver.
  - destruct (appendable d es k e _ Hd He Hp Hb) as [-> <-]. pose proof (on_disk_clean _ _ _ Hd) as Hf.
    destruct Hd as (Hc & Hok & _). destruct (built_entry _ _ _ _ Hc Hok Hs Hh) as [Hnew Hc'].
    set (e' := build_entry _ _ _ _) in *. exists (entries (d_ledger d) ++ [e']), 0%nat, e'. split_and!.
    + apply clean_on_disk; [done|by apply Forall_snoc_ok|]. cbn [d_file file_text default from_option id].
      rewrite Hf, file_chars_snoc. apply (inj chars). unfold line_chars. by rewrite !chars_app, !chars_str.
    + simpl. by apply sublist_app.
    + left. simpl. auto.
  - destruct (appendable d es k e _ Hd He Hp Hb) as [-> <-]. pose proof (on_disk_clean _ _ _ Hd) as Hf.
    destruct Hd as (Hc & Hok & _). destruct (built_entry _ _ _ _ Hc Hok Hs Hh) as [Hnew Hc'].
    set (e' := build_entry _ _ _ _) in *. rewrite app_nil_r.
    assert (entries l' = entries (d_ledger d)) as El by (destruct Ht as [[_ [-> | ->]]|[_ ->]]; done).
    destruct Ht as [[-> Hl]|[-> ->]].
    + exists (entries (d_ledger d)), 0%nat, e'. split_and!; [|simpl; by rewrite El|left; simpl; auto].
      by apply clean_on_disk.
    + exists (entries (d_ledger d)), k', e'. split_and!; [|done|left; simpl; auto].
      split_and!; try done. cbn [d_file file_text default from_option id]. rewrite Hf. unfold torn, line_chars, str_take.
      apply (inj chars). by rewrite chars_app, !chars_str, chars_app, chars_str.
Qed.

Lemma load_inv base d l' : disk_inv d -> load LoadOk base (d_file d) = (Ok tt, l') ->
  disk_inv (mkDisk l' (d_file d) (d_acked d)) /\ entries (d_ledger d) `prefix_of` entries l' /\
  (length (entries l') <= S (length (entries (d_ledger d))))%nat.
Proof.
  intros (es & k & e & Hd & Ha & He) H. pose proof Hd as (Hc & Hok & Hf & Hk).
  destruct (d_file d) as [text|] eqn:Ed; [|discriminate]. simpl in Hf. subst text.
  rewrite load_torn in H; [|done|intros; by apply Hk]. injection H as <-. simpl.
  assert (entries (d_ledger d) `prefix_of` reloaded k e es) as Hpre.
  { unfold reloaded. fold (text_size e). destruct He as [[-> _]|[-> ->]];
      [destruct (_ <=? _)%nat; [by exists [e]|done]|by rewrite Nat.leb_refl]. }
  assert (length (reloaded k e es) <= S (length (entries (d_ledger d))))%nat as Hlen.
  { unfold reloaded. destruct He as [[-> _]|[-> ->]], (_ <=? _)%nat; rewrite ?length_app; simpl; lia. }
  split; [|done].
  assert (d_acked d `sublist_of` reloaded k e es) as Ha'.
  { etrans; [exact Ha|]. destruct Hpre as [m ->]. by apply sublist_inserts_r. }
  unfold reloaded in *. fold (text_size e) in *. destruct (Nat.leb_spec (text_size e) k) as [Hle|Hlt].
  - destruct (decide (k = text_size e)) as [->|Hne]; [exists es, (text_size e), e; split_and!; auto|].
    exists (es ++ [e]), 0%nat, e. split_and!; [|done|left; simpl; auto].
    destruct (Hk ltac:(unfold text_size in *; lia)) as [He1 He2].
    apply clean_on_disk; [done|by apply Forall_snoc_ok|]. simpl. f_equal.
    rewrite file_chars_snoc. f_equal. apply torn_whole. unfold text_size in *. lia.
  - exists es, k, e. split_and!; [done|done|left; simpl; split; [done|lia]].
Qed.

Lemma disk_reachable path d : rtc disk_step (disk_init path) d -> disk_inv d.
Proof.
  intros H. assert (disk_inv (disk_init path)) as Hinit.
  { exists [], 0%nat, (mkEntry 0 "" "" ""). split_and!; [by apply clean_on_disk|done|left; auto]. }
  induction H as [d|d1 d2 d3 Hs _ IH]; [done|]. apply IH. destruct Hs as [io payload p d r l' file' Hn E|base q d l' _ E].
  - by eapply append_inv.
  - by eapply load_inv.
Qed.

Lemma inv_verified d : disk_inv d -> verify_chain (fun _ => true) (d_ledger d) = Ok tt.
Proof.
  intros (es & k & e & (Hc & Hok & _ & Hk) & _ & He). unfold verify_chain.
  assert (chained 0 "" (entries (d_ledger d)) /\ Forall entry_ok (entries (d_ledger d))) as [H1 H2].
  { destruct He as [[-> _]|[-> ->]]; [done|]. destruct Hk as [? ?].
    - unfold text_size. pose proof (line_nonempty e). by destruct (chars (entry_to_line e)).
    - split; [done|]. by apply Forall_snoc_ok. }
  apply verify_complete; [by apply chained_length|done].
Qed.
End durable.

(** ** The checkpoint *)

Section checkpoint.
Context `{J : JsonLib} {L : JsonLaws J} `{O : OpenSsl} {OL : OpenSslLaws O}.

Lemma bundle_roundtrip r : is_int64 (entry_count r) -> is_utf8 (rep_head_hash r) ->
  bundle_of (report_to_json r) =
  Some (entry_count r, rep_head_hash r, to_hex (rep_signature r), to_hex (rep_public_key r)).
Proof.
  intros Hn Hh. unfold bundle_of, report_to_json. rewrite parse_dump.
  - rewrite (int_field_int _ "entry_count" (entry_count r)), (string_field_string _ "head_hash" (rep_head_hash r)),
      (string_field_string _ "signature" (to_hex (rep_signature r))),
      (string_field_string _ "public_key" (to_hex (rep_public_key r))) by first [reflexivity|done|apply to_hex_utf8].
    done.
  - unfold plain_object, report_object.
    repeat (apply map_Forall_insert_2;
      [split; [by apply identifier_b|by auto using text_plain, int_plain, to_hex_utf8]|]).
    apply map_Forall_empty.
Qed.

Lemma check_bundle_ok vio l pinned n head signature key : ledger_size l <= int64_max ->
  (check_bundle vio l pinned n head signature key = Ok tt) <->
  1 <= n <= ledger_size l /\ pinned = key /\ verify_head vio head signature pinned = Ok tt /\
  hash_of_last (take (Z.to_nat n) (entries l)) = head.
Proof.
  intros Hs. unfold check_bundle, require_key_match. rewrite to_i64_small by (unfold ledger_size in *; unfold_ints; lia).
  destruct (Z.ltb_spec n 1) as [Hn|Hn]; [split; [discriminate|lia]|].
  case_bool_decide as Hk; simpl negb; cbn iota; [|split; [discriminate|naive_solver]].
  cbn [is_ok negb]. destruct (verify_head vio head signature pinned) as [[]|err]; cbn [is_ok negb]; cbn iota;
    [|split; [discriminate|naive_solver]].
  destruct (Z.ltb_spec (ledger_size l) n) as [Hm|Hm]; [split; [discriminate|lia]|].
  destruct (entries l !! Z.to_nat (n - 1)) as [q|] eqn:E.
  - unfold hash_of_last. replace (Z.to_nat n) with (S (Z.to_nat (n - 1))) by lia.
    rewrite (take_S_r _ _ _ E), last_snoc.
    destruct (String.eqb_spec (le_hash q) head); simpl; split; try discriminate; naive_solver.
  - apply lookup_ge_None in E. unfold ledger_size in *. lia.
Qed.

Lemma chained_head_utf8 es : chained 0 "" es -> is_utf8 (hash_of_last es).
Proof.
  destruct es as [|e es _] using rev_ind; [constructor|]. intros (_ & _ & _ & Hh)%chained_snoc.
  unfold hash_of_last. rewrite last_snoc. rewrite Hh. apply digest_shape.
Qed.

Lemma verified_chained evp l : ledger_size l <= int64_max -> verify_chain evp l = Ok tt -> chained 0 "" (entries l).
Proof. intros Hs H. apply verify_sound in H; [done|]. unfold ledger_size in Hs. simpl. lia. Qed.

Lemma write_checkpoint_cases sio io l sk pk files r files' : write_checkpoint sio io l sk pk files = (r, files') ->
  match r with
  | Err _ => files' !! checkpoint_path l = files !! checkpoint_path l
  | Ok _ => length sk = kEd25519KeyBytes /\ head_hash l <> "" /\
  files' !! checkpoint_path l = Some (report_to_json
        (mkReport (to_i64 (ledger_size l)) (head_hash l) (ed25519_sign sk (head_hash l)) pk))
  end.
Proof.
  assert (checkpoint_path l +:+ ".tmp" <> checkpoint_path l) as Hne.
  { intros H. apply (f_equal String.length) in H. rewrite str_length_app in H. simpl in H. lia. }
  unfold write_checkpoint, eod_report, sign_head.
  destruct (String.eqb_spec (head_hash l) "") as [Hh|Hh]; [intros [= <- <-]; done|].
  destruct (Nat.eqb_spec (length sk) kEd25519KeyBytes) as [Hk|Hk]; [|intros [= <- <-]; done].
  destruct sio; cbn [negb]; try (intros [= <- <-]; done).
  destruct (cp_open io); cbn [negb]; [|intros [= <- <-]; done].
  destruct (cp_write io); [intros [= <- <-]; by rewrite lookup_insert_ne|].
  destruct (cp_close io), (cp_sync io), (cp_rename io); cbn [negb orb]; intros [= <- <-];
    try (by rewrite lookup_insert_ne).
  split_and!; [done|done|]. by rewrite lookup_insert_eq.
Qed.

(** A bundle signed over this head, as [verify_against_checkpoint] reads it. *)
Lemma verify_bundle l l' sk n files pinned :
  length sk = kEd25519KeyBytes -> is_utf8 (head_hash l) -> is_int64 n -> ledger_size l' <= int64_max ->
  files !! checkpoint_path l' = Some (report_to_json
    (mkReport n (head_hash l) (ed25519_sign sk (head_hash l)) (ed25519_public sk))) ->
  (verify_against_checkpoint CpRead VerifyDone l' pinned files = Ok tt) <->
  1 <= n <= ledger_size l' /\ pinned = ed25519_public sk /\
  hash_of_last (take (Z.to_nat n) (entries l')) = head_hash l.
Proof.
  intros Hsk Hu Hn Hs Hf. unfold verify_against_checkpoint. rewrite Hf, bundle_roundtrip by done. simpl.
  rewrite !from_to_hex. rewrite check_bundle_ok by done. split; [naive_solver|].
  intros (? & -> & ?). split_and!; try done; try lia. unfold verify_head.
  by rewrite public_length, verify_signed by done.
Qed.

(** Dropping the first entry by folding its hash into the second one's payload. *)
Definition renumber (e : LedgerEntry) : LedgerEntry :=
  mkEntry (le_seq e - 1) (le_prev_hash e) (le_payload e) (le_hash e).

Definition splice (es : list LedgerEntry) : list LedgerEntry :=
  match es with
  | e1 :: e2 :: rest =>
      mkEntry 0 "" (le_hash e1 +:+ le_payload e2) (le_hash e2) :: (renumber <$> rest)
  | _ => es
  end.

Lemma chained_renumber es : forall i prev, chained i prev es -> chained (i - 1) prev (renumber <$> es).
Proof.
  induction es as [|e es IH]; intros i prev; simpl; [done|]. intros (Hs & Hp & Hh & Hc).
  split_and!; [lia|done|done|]. replace (i - 1 + 1) with (i + 1 - 1) by lia. by apply IH.
Qed.

Lemma splice_chained es : (2 <= length es)%nat -> chained 0 "" es ->
  chained 0 "" (splice es) /\ S (length (splice es)) = length es /\ hash_of_last (splice es) = hash_of_last es.
Proof.
  destruct es as [|e1 [|e2 rest]]; simpl; [lia..|]. intros _ (H1 & H2 & H3 & H4 & H5 & H6 & H7).
  split_and!; try done.
  - by apply (chained_renumber rest 2).
  - by rewrite length_fmap.
  - unfold hash_of_last. destruct rest as [|q rest _] using rev_ind; [done|].
    rewrite fmap_app. simpl. rewrite !app_comm_cons, !last_snoc. done.
Qed.
End checkpoint.

(** ** The properties *)

(** C17: The audit trail survives: after any run of appends with any failure of the
    digest, the disk or the rollback, process deaths and reloads, the chain in
    memory verifies and holds, in order, every entry an append returned; and any
    reload of the file succeeds, verifies, and holds the entries in memory plus
    at most the one whose append died after its last byte. *)
Theorem ledger_durable `{J : JsonLib} `{!JsonLaws J} `{O : OpenSsl} `{!OpenSslLaws O} path d base text
    (Hrun : rtc disk_step (disk_init path) d) (Hfile : d_file d = Some text) :
  verify_chain (fun _ => true) (d_ledger d) = Ok tt /\ d_acked d `sublist_of` entries (d_ledger d) /\
  exists l', load LoadOk base (d_file d) = (Ok tt, l') /\ verify_chain (fun _ => true) l' = Ok tt /\
    entries (d_ledger d) `prefix_of` entries l' /\
    (length (entries l') <= S (length (entries (d_ledger d))))%nat.
Proof.
  pose proof (disk_reachable _ _ Hrun) as Hinv. split_and!.
  - by apply inv_verified.
  - by destruct Hinv as (es & k & e & _ & Ha & _).
  - destruct (load LoadOk base (d_file d)) as [r l'] eqn:E. assert (r = Ok tt) as ->.
    { destruct Hinv as (es & k & e & (_ & Hok & Hf & Hk) & _). rewrite Hfile in *. simpl in Hf. subst text.
      rewrite load_torn in E; [by injection E as <- _|done|intros; by apply Hk]. }
    destruct (load_inv base d l' Hinv E) as (Hi & Hp & Hl). exists l'. split_and!; try done.
    exact (inv_verified (mkDisk l' (d_file d) (d_acked d)) Hi).
Qed.

(** The file ends at the end of a line, or is empty. *)
Definition ends_line (file : option string) : Prop :=
  file_text file = "" \/ last (chars (file_text file)) = Some newline.

(** The ledger stands up to the published checkpoint under the pinned key. *)
Definition accepted_under `{J : JsonLib} `{O : OpenSsl} (l : Ledger) (pinned : bytes) (files : gmap string string) : Prop :=
  verify_against_checkpoint CpRead VerifyDone l pinned files = Ok tt.

(** All or nothing, and sealed on doubt: a successful append adds exactly one
    line, the entry's, to a file that is empty or ends at the end of a line; a
    failed one leaves the chain in memory alone and the file byte for byte as it
    was, unless the ledger is now sealed; and a sealed ledger never writes. *)
Theorem append_all_or_nothing `{J : JsonLib} `{O : OpenSsl} io l file payload p :
  let '(r, l', file') := append io l file payload p in
  match r with
  | Ok e =>
      poisoned l = false /\ entries l' = entries l ++ [e] /\ poisoned l' = false /\
      file_text file' = file_text file +:+ entry_to_line e +:+ str [newline] /\
      ends_line file /\
      le_payload e = canonical_text (scrub payload +:+ provenance_block p) /\ le_prev_hash e = head_hash l
  | Err _ =>
      entries l' = entries l /\ (poisoned l = true -> l' = l /\ file' = file) /\
      (file_text file' = file_text file \/
       poisoned l' = true /\ exists rest, file_text file' = file_text file +:+ rest)
  end.
Proof.
  destruct (append_spec io l file payload p) as [err|err Hp _ _|Hp _ Hb|err k l' t Hp _ _ Ht].
  - auto.
  - split_and!; [done|congruence|by left].
  - split_and!; try done. destruct Hb as [Hb|Hb]; [by left|right].
    apply andb_true_iff in Hb as [_ Hb]. by apply bool_decide_eq_true in Hb.
  - split_and!; [|congruence|]; destruct Ht as [[-> [-> | ->]]|[-> ->]]; auto. right. split; [done|]. simpl. eauto.
Qed.

(** The retained checkpoint pins the past: once it is written, a ledger of the
    same path whose chain verifies is accepted under the pinned key when the
    signed entries are still its beginning, and only then, unless two texts with
    one SHA-256 digest have been found; another pinned key accepts nothing. A
    checkpoint that could not be written leaves the published one in place. *)
Theorem checkpoint_pins_prefix `{J : JsonLib} `{!JsonLaws J} `{O : OpenSsl} `{!OpenSslLaws O}
    sio cio l l' sk files files' pinned
    (Hwrite : write_checkpoint sio cio l sk (ed25519_public sk) files = (Ok tt, files'))
    (Hpath : led_path l' = led_path l)
    (Hl : verify_chain (fun _ => true) l = Ok tt) (Hl' : verify_chain (fun _ => true) l' = Ok tt)
    (Hs : ledger_size l <= int64_max) (Hs' : ledger_size l' <= int64_max) :
  let accepted := accepted_under l' pinned files' in
  (accepted -> pinned = ed25519_public sk /\ (entries l `prefix_of` entries l' \/ digest_collision)) /\
  (pinned = ed25519_public sk -> entries l `prefix_of` entries l' -> accepted) /\
  forall sio cio pk err files'', write_checkpoint sio cio l sk pk files' = (Err err, files'') ->
    files'' !! checkpoint_path l = files' !! checkpoint_path l.
Proof.
  apply verified_chained in Hl, Hl'; [|done..]. apply write_checkpoint_cases in Hwrite as (Hsk & Hne & Hf).
  assert (checkpoint_path l' = checkpoint_path l) as Hcp by (unfold checkpoint_path; by rewrite Hpath).
  rewrite to_i64_small in Hf by (unfold ledger_size in *; unfold_ints; lia).
  pose proof (verify_bundle l l' sk (ledger_size l) files' pinned Hsk (chained_head_utf8 _ Hl)
    ltac:(unfold ledger_size in *; unfold_ints; lia) Hs' ltac:(by rewrite Hcp)) as Hv.
  assert (Z.to_nat (ledger_size l) = length (entries l)) as Hlen by (unfold ledger_size; lia).
  rewrite Hlen in Hv. unfold accepted_under. cbv zeta. split_and!.
  - intros (Hn & -> & Hh)%Hv. split; [done|].
    destruct (chained_same (entries l) (take (length (entries l)) (entries l'))) as [E|E]; [|done| |done| |by right].
    + rewrite length_take. unfold ledger_size in *. lia.
    + apply (chained_app _ _ _ (drop (length (entries l)) (entries l'))). by rewrite take_drop.
    + left. exists (drop (length (entries l)) (entries l')). by rewrite E, take_drop at 1.
  - intros -> [m Em]. apply Hv. rewrite Em, take_app_length. split_and!; try done.
    + unfold head_hash, hash_of_last in Hne. unfold ledger_size. destruct (entries l); [done|]. simpl. lia.
    + unfold ledger_size. rewrite Em, length_app. lia.
  - intros sio2 cio2 pk err files'' H. by apply write_checkpoint_cases in H.
Qed.

(** The signature covers the head alone: the entry count beside it and the split
    between a previous hash and a payload are not authenticated. For every ledger
    of two or more entries that verifies, there is a shorter one, with the first
    entry folded away, that verifies and that the genuine signature accepts once
    the count in the checkpoint file is lowered by one. *)
Theorem checkpoint_count_unauthenticated `{J : JsonLib} `{!JsonLaws J} `{O : OpenSsl} `{!OpenSslLaws O} l sk files
    (Hl : verify_chain (fun _ => true) l = Ok tt) (Hs : 2 <= ledger_size l <= int64_max)
    (Hsk : length sk = kEd25519KeyBytes)
    (Hfile : files !! checkpoint_path l = Some (report_to_json
       (mkReport (ledger_size l - 1) (head_hash l) (ed25519_sign sk (head_hash l)) (ed25519_public sk)))) :
  let l' := set_entries (splice (entries l)) l in
  ledger_size l' = ledger_size l - 1 /\ verify_chain (fun _ => true) l' = Ok tt /\
  verify_against_checkpoint CpRead VerifyDone l' (ed25519_public sk) files = Ok tt.
Proof.
  apply verified_chained in Hl; [|lia].
  destruct (splice_chained (entries l)) as (Hc & Hlen & Hh); [unfold ledger_size in Hs; lia|done|].
  intros l'. assert (ledger_size l' = ledger_size l - 1) as Hsz by (unfold ledger_size; simpl; lia).
  split_and!; [done|apply verify_complete; [unfold ledger_size in *; simpl in *; lia|done]|].
  apply (verify_bundle l l' sk (ledger_size l - 1)); try done.
  - by apply chained_head_utf8.
  - unfold_ints. lia.
  - lia.
  - split_and!; [lia|lia|done|]. simpl.
    rewrite take_ge by (unfold ledger_size; lia). exact Hh.
Qed.

(** ** Witnesses *)

(** A concrete library that satisfies the laws. *)
Definition toy_digest (x : string) : string :=
  str (replicate 63 "0"%char ++ [nth (String.length x mod 16) kDigits "0"%char]).

#[local] Instance toy_ssl : OpenSsl := {|
  digest_hex := toy_digest;
  ed25519_public sk := sk;
  ed25519_sign sk m := (sk ++ chars m)%list;
  ed25519_verify pk signature m := bool_decide (signature = pk ++ chars m)%list;
|}.

#[local] Instance toy_ssl_laws : OpenSslLaws toy_ssl.
Proof.
  split; simpl.
  - intros x. unfold toy_digest. generalize (String.length x). intros n.
    split; [done|].
    apply ascii_utf8. rewrite chars_str. apply Forall_app. split; [by apply Forall_replicate|].
    constructor; [|constructor].
    pose proof (Nat.mod_upper_bound n 16 ltac:(lia)) as H.
    generalize dependent (n mod 16)%nat. clear n. intros n H.
    do 16 (destruct n as [|n]; [vm_compute; discriminate|]). lia.
  - done.
  - intros sk m _. by apply bool_decide_eq_true.
Qed.

Definition good_io : AppendIo := mkAppendIo true true true true Written (mkRestoreIo true true true true true).
(** Nine bytes reach the file, and the rollback cannot reopen it. *)
Definition bad_io : AppendIo := mkAppendIo true true true true (WriteFailed 9) (mkRestoreIo true false true true true).

Definition do_append (io : AppendIo) (payload : string) (d : Disk) : Disk :=
  let '(r, l', file') := append (J := bit_json) io (d_ledger d) (d_file d) payload no_provenance in
  mkDisk l' file' (d_acked d ++ match r with Ok e => [e] | Err _ => [] end).

Lemma ledger_append_step io payload d : ledger_size (d_ledger d) <= int64_max ->
  disk_step (J := bit_json) d (do_append io payload d).
Proof.
  intros Hs. unfold do_append. destruct (append _ _ _ _ _) as [[r l'] file'] eqn:E. by eapply disk_append.
Qed.

Definition trail1 : Disk := do_append good_io "first" (disk_init "audit").
Definition trail2 : Disk := do_append good_io "second" trail1.
Definition trail : Disk := do_append bad_io "third" trail2.

Lemma trail_sizes : ledger_size (d_ledger trail1) = 1 /\ ledger_size (d_ledger trail2) = 2.
Proof. split; vm_compute; reflexivity. Qed.

Lemma trail_run : rtc (disk_step (J := bit_json)) (disk_init "audit") trail.
Proof.
  destruct trail_sizes as [H1 H2].
  eapply rtc_l; [apply (ledger_append_step good_io "first"); change (0 <= int64_max); unfold_ints; lia|].
  eapply rtc_l; [apply (ledger_append_step good_io "second" trail1); rewrite H1; unfold_ints; lia|].
  apply rtc_once. apply (ledger_append_step bad_io "third" trail2). rewrite H2. unfold_ints. lia.
Qed.

Lemma ledger_durable_witness : exists l',
  load (J := bit_json) LoadOk (new_ledger "audit") (d_file trail) = (Ok tt, l') /\
  d_acked trail `sublist_of` entries l' /\ length (d_acked trail) = 2%nat /\ poisoned (d_ledger trail) = true.
Proof.
  assert (exists text, d_file trail = Some text) as [text Ht] by (eexists; vm_compute; reflexivity).
  destruct (ledger_durable (J := bit_json) "audit" trail (new_ledger "audit") text trail_run Ht)
    as (_ & Ha & l' & Hl & _ & [m Hm] & _).
  exists l'. split_and!; [exact Hl| |vm_compute; reflexivity|vm_compute; reflexivity].
  rewrite Hm. apply sublist_inserts_r. exact Ha.
Defined.

Definition sample_key : bytes := replicate 32 "k"%char.

Definition checkpointed : gmap string string :=
  (write_checkpoint (J := bit_json) SignDone (mkCheckpointIo true None true true true) (d_ledger trail)
     sample_key (ed25519_public sample_key) ∅).2.

Lemma checkpoint_pins_prefix_witness :
  verify_against_checkpoint (J := bit_json) CpRead VerifyDone (d_ledger trail) (ed25519_public sample_key) checkpointed = Ok tt.
Proof.
  assert (write_checkpoint (J := bit_json) SignDone (mkCheckpointIo true None true true true) (d_ledger trail)
     sample_key (ed25519_public sample_key) ∅ = (Ok tt, checkpointed)) as Hw by (apply surjective_pairing).
  assert (verify_chain (fun _ => true) (d_ledger trail) = Ok tt) as Hv by (vm_compute; reflexivity).
  assert (ledger_size (d_ledger trail) = 2) as H2 by (vm_compute; reflexivity).
  assert (ledger_size (d_ledger trail) <= int64_max) as Hs by (rewrite H2; unfold_ints; lia).
  exact (proj1 (proj2 (checkpoint_pins_prefix (J := bit_json) _ _ (d_ledger trail) (d_ledger trail) sample_key ∅ checkpointed
    (ed25519_public sample_key) Hw eq_refl Hv Hv Hs Hs)) eq_refl (reflexivity _)).
Defined.

(** The same checkpoint with its count lowered by one. *)
Definition forged : gmap string string :=
  {[ checkpoint_path (d_ledger trail) := report_to_json (J := bit_json)
       (mkReport (ledger_size (d_ledger trail) - 1) (head_hash (d_ledger trail))
          (ed25519_sign sample_key (head_hash (d_ledger trail))) (ed25519_public sample_key)) ]}.

Lemma checkpoint_count_unauthenticated_witness :
  ledger_size (d_ledger trail) = 2 /\
  verify_against_checkpoint (J := bit_json) CpRead VerifyDone
    (set_entries (splice (entries (d_ledger trail))) (d_ledger trail)) (ed25519_public sample_key) forged = Ok tt.
Proof.
  assert (ledger_size (d_ledger trail) = 2) as Hs by (vm_compute; reflexivity). split; [exact Hs|].
  apply (checkpoint_count_unauthenticated (J := bit_json) (d_ledger trail) sample_key forged).
  - vm_compute. reflexivity.
  - rewrite Hs. split; [lia|]. unfold_ints. lia.
  - reflexivity.
  - unfold forged. apply lookup_singleton_eq.
Defined.
