(* ===== verification/Reconcile.v ===== *)
(** * Reconcile: broker truth folded into local orders, and recovery after a crash
    (src/src/reconcile/reconciler.cpp, recovery.cpp)

    [fetch] performs the four broker reads; [reconcile] is
    [ReconcileApplier::apply], the only writer; [recover] is the
    reconcile-before-resume state machine. The broker is what it answers to the
    reads: none of these functions has any other call to make on it. *)

From S2P Require Import Prelude Errors Domain Lifecycle Risk Modes Resolver.

(** ** The fetch side *)

Record ReconcileResult := mkReconcileResult {
  rr_orders : list Order;
  rr_trades : list Trade;
  rr_positions : list Position;
  rr_funds : FundsSnapshot;
  rr_ordering_key : Z;
  rr_fetched_at : Z;
}.

(** What the broker answers to [fetch_orders], [fetch_trades],
    [fetch_positions] and [fetch_funds]. *)
Record BrokerReads := mkBrokerReads {
  read_orders : result (list Order);
  read_trades : result (list Trade);
  read_positions : result (list Position);
  read_funds : result FundsSnapshot;
}.

Definition fetch (broker : BrokerReads) (snapshot_seq now : Z) : result ReconcileResult :=
  match read_orders broker with
  | Err e => Err e
  | Ok orders =>
      match read_trades broker with
      | Err e => Err e
      | Ok trades =>
          match read_positions broker with
          | Err e => Err e
          | Ok positions =>
              match read_funds broker with
              | Err e => Err e
              | Ok funds => Ok (mkReconcileResult orders trades positions funds snapshot_seq now)
              end
          end
      end
  end.

(** ** The apply side *)

Definition same_order (l b : Order) : bool :=
  if negb (String.eqb (client_ref (intent l)) "") && String.eqb (client_ref (intent l)) (client_ref (intent b))
  then true
  else negb (String.eqb (broker_order_id l) "") && String.eqb (broker_order_id l) (broker_order_id b).

Record ReconcileOutcome := mkReconcileOutcome {
  applied : Z; advanced : Z; dropped_stale : Z; mismatches : Z; block_new_orders : bool }.

Abbreviation alert := (AlertLevel * string * AlertContext)%type.

(** The engine, the local orders, the outcome and the alerts sent so far. *)
Record Pass := mkPass {
  ps_engine : LifecycleEngine;
  ps_locals : list Order;
  ps_outcome : ReconcileOutcome;
  ps_alerts : list alert;
}.

Definition contradiction_body (believed observed : OrderState) : string :=
  "reconcile: broker contradicts local order state (local=" +:+ order_state_to_string believed +:+
  " broker=" +:+ order_state_to_string observed +:+ ")".

(** [++mismatches; block_new_orders = true;] and the Warning alert. *)
Definition mismatch (body : string) (ctx : AlertContext) (p : Pass) : Pass :=
  let o := ps_outcome p in
  mkPass (ps_engine p) (ps_locals p)
    (mkReconcileOutcome (applied o) (advanced o) (dropped_stale o) (mismatches o + 1) true)
    (ps_alerts p ++ [(AlertWarning, body, ctx)]).

Definition count_outcome (a : ApplyOutcome) (o : ReconcileOutcome) : ReconcileOutcome :=
  mkReconcileOutcome (applied o + 1)
    (if bool_decide (a = Applied) then advanced o + 1 else advanced o)
    (if bool_decide (a = DroppedStale) then dropped_stale o + 1 else dropped_stale o)
    (mismatches o) (block_new_orders o).

(** The first local order a broker row matches, with its index. *)
Definition find_local (locals : list Order) (b : Order) : option (nat * Order) :=
  list_find (fun l => Is_true (same_order l b)) locals.

Definition row_view (m b : Order) (key : Z) : BrokerView :=
  mkView (if negb (String.eqb (client_ref (intent m)) "") then client_ref (intent m) else broker_order_id m)
    (broker_order_id b) (state b) (filled_qty b) (avg_price b) key.

Definition same_fills (m b : Order) : bool :=
  bool_decide (filled_qty b = filled_qty m) && bool_decide (avg_price b = avg_price m).

(** Did the engine refuse broker truth that differs from what was believed? *)
Definition contradicts (a : ApplyOutcome) (key_after : option Z) (m b : Order) (key : Z) : bool :=
  match a with
  | Applied | DroppedStale => false
  | DroppedTerminal => negb (bool_decide (state b = state m) && same_fills m b)
  | NoChange => match key_after with Some k => negb (k =? key) | None => true end
  end.

Definition apply_row (stale : bool) (key : Z) (p : Pass) (b : Order) : Pass :=
  match find_local (ps_locals p) b with
  | None =>
      if negb stale then mismatch "reconcile: unmatched broker order" (provenance_of b) p else p
  | Some (i, m) =>
      let view := row_view m b key in
      let key_before := last_key (ps_engine p) (view_client_ref view) in
      let '(a, m', e') := apply (ps_engine p) m view in
      let p := mkPass e' (<[i := m']> (ps_locals p)) (count_outcome a (ps_outcome p)) (ps_alerts p) in
      let contradiction := contradicts a (last_key e' (view_client_ref view)) m b key in
      let view_is_older := match key_before with Some k => key <? k | None => false end in
      if contradiction && negb stale && negb view_is_older
      then mismatch (if negb (bool_decide (state b = state m)) then contradiction_body (state m) (state b)
                     else "reconcile: broker fill correction refused by a terminal local order")
             (provenance_of b) p
      else p
  end.

(** A working order the broker has acknowledged that the snapshot lacks. *)
Definition vanished (rows : list Order) (l : Order) : bool :=
  negb (is_terminal (state l) || String.eqb (broker_order_id l) "") && negb (existsb (same_order l) rows).

Definition check_vanished (rows : list Order) (p : Pass) (l : Order) : Pass :=
  if vanished rows l
  then mismatch "reconcile: local order missing from broker snapshot" (provenance_of l) p else p.

Definition start_pass (e : LifecycleEngine) (locals : list Order) : Pass :=
  mkPass e locals (mkReconcileOutcome 0 0 0 0 false) [].

Definition apply_rows (stale : bool) (key : Z) (rows : list Order) (p : Pass) : Pass :=
  fold_left (apply_row stale key) rows p.

(** [ReconcileApplier::apply]: [last] is [last_snapshot_key_]. *)
Definition reconcile (e : LifecycleEngine) (last : Z) (r : ReconcileResult) (locals : list Order) : Pass * Z :=
  let stale := rr_ordering_key r <=? last in
  let last := if stale then last else rr_ordering_key r in
  let p := apply_rows stale (rr_ordering_key r) (rr_orders r) (start_pass e locals) in
  let p := if negb stale then fold_left (check_vanished (rr_orders r)) (ps_locals p) p else p in
  (p, last).

(** ** Adaptive cadence *)

Record ReconcileState := mkReconcileState { any_inflight : bool; any_open_position : bool }.

Definition next_cadence (s : ReconcileState) (tight loose : Z) : Z :=
  if any_inflight s || any_open_position s then tight else loose.

Definition is_inflight (s : OrderState) : bool :=
  match s with
  | PendingSend | Sent | Acknowledged | PartiallyFilled | Unknown | PartiallyPlaced => true
  | Created | Validated | Reconciled | ManualInterventionRequired | Filled | Rejected | Cancelled => false
  end.

Definition derive_state (orders : list Order) (positions : list Position) : ReconcileState :=
  mkReconcileState (existsb (fun o => is_inflight (state o)) orders)
    (existsb (fun p => negb (bool_decide (net_qty p = quantity_of 0))) positions).

(** ** Recovery *)

Inductive RecoveryStatus := ResumedSafe | RecoveryBlocked | RecoveryManual.

Definition recovery_status_to_string (s : RecoveryStatus) : string :=
  match s with
  | ResumedSafe => "RESUMED_SAFE"
  | RecoveryBlocked => "BLOCKED"
  | RecoveryManual => "MANUAL_INTERVENTION_REQUIRED"
  end.

Record RecoveryOutcome := mkRecovery {
  rec_status : RecoveryStatus;
  rec_orders : list Order;
  unknowns_resolved : Z;
  unknowns_unresolved : Z;
  escalated : bool;
  rec_detail : string;
  rec_mismatches : Z;
}.

Definition broker_answered (e : Error) : bool :=
  bool_decide (category e = DataStale) || bool_decide (category e = Validation).

Definition is_unknown (o : Order) : bool := bool_decide (state o = Unknown).

Definition count_unknown (orders : list Order) : Z := Z.of_nat (length (List.filter is_unknown orders)).

Definition escalate_unknown (o : Order) : Order :=
  if is_unknown o then with_state ManualInterventionRequired o else o.

(** A plain [send], without provenance. *)
Abbreviation plain_alert := (AlertLevel * string)%type.

Definition blocked_recovery (orders : list Order) (detail : string) : RecoveryOutcome :=
  mkRecovery RecoveryBlocked orders 0 0 false detail 0.

(** The seams and the broker, as what they answer. *)
Record RecoveryEnv := mkRecoveryEnv {
  env_load_state : result (list Order);
  env_check_session : result unit;
  env_reads : BrokerReads;
  env_now : Z;
  env_safe_start : result unit;
}.

(** The last steps, once broker truth is in. *)
Definition conclude (env : RecoveryEnv) (before : list Order) (p : Pass) : RecoveryOutcome :=
  let orders := ps_locals p in
  let after := count_unknown orders in
  let resolved := if after <? count_unknown before then count_unknown before - after else 0 in
  let outcome status detail := mkRecovery status orders resolved after false detail (mismatches (ps_outcome p)) in
  if negb (is_ok (env_safe_start env)) then outcome RecoveryBlocked "safe-start gate blocked"
  else if 0 <? after then outcome RecoveryBlocked "open UNKNOWN orders; not safe to resume"
  else if block_new_orders (ps_outcome p) || (0 <? mismatches (ps_outcome p))
  then outcome RecoveryBlocked "reconciliation mismatch (phantom/vanished order); not safe to resume"
  else outcome ResumedSafe "reconciled clean; safe to resume".

Definition recover (env : RecoveryEnv) (e : LifecycleEngine) :
    RecoveryOutcome * LifecycleEngine * list plain_alert * list alert :=
  match env_load_state env with
  | Err _ =>
      (blocked_recovery [] "could not load state", e, [(AlertWarning, "recovery: could not load state")], [])
  | Ok loaded =>
      if negb (is_ok (env_check_session env))
      then (blocked_recovery loaded "session not established", e, [], [])
      else match fetch (env_reads env) 1 (env_now env) with
      | Err err =>
          if broker_answered err
          then (blocked_recovery loaded "broker reachable but its reply was unreadable; cannot reconcile yet", e, [], [])
          else if 0 <? count_unknown loaded
          then (mkRecovery RecoveryManual (escalate_unknown <$> loaded) 0 (count_unknown loaded) true
                  "double fault: UNKNOWN order + broker unreachable" 0, e,
                [(AlertCritical, "recovery: double fault (UNKNOWN order + broker unreachable) -> MANUAL_INTERVENTION_REQUIRED; human intervention required, no auto-square-off")], [])
          else (blocked_recovery loaded "broker unreachable; cannot reconcile yet", e, [], [])
      | Ok r =>
          let p := (reconcile e (-1) r loaded).1 in
          (conclude env loaded p, ps_engine p, [], ps_alerts p)
      end
  end.

(** ** What a clean pass is *)

(** The reference the engine keeps the order's key under. *)
Definition engine_ref (m : Order) : string :=
  if negb (String.eqb (client_ref (intent m)) "") then client_ref (intent m) else broker_order_id m.

(** The row agrees with the order it matched: the engine has already seen a newer
    view, or the order is terminal and the row reports that state and those fills,
    or the row's state is a legal successor. *)
Definition row_agrees (e : LifecycleEngine) (m b : Order) (key : Z) : Prop :=
  (exists k, last_key e (engine_ref m) = Some k /\ key < k) \/
  if is_terminal (state m) then state b = state m /\ same_fills m b = true
  else is_valid_transition (state m) (canonical_observed (state m) (row_view m b key)) = true.

(** The engine refuses the row as an illegal step, and the pass does not count it:
    it takes a key equal to the snapshot's, recorded before the row's turn, for the
    sign that the row was applied. *)
Definition unheard_refusal (e : LifecycleEngine) (m b : Order) (key : Z) : Prop :=
  is_terminal (state m) = false /\
  is_valid_transition (state m) (canonical_observed (state m) (row_view m b key)) = false /\
  last_key e (engine_ref m) = Some key.

Definition row_clean (key : Z) (p : Pass) (b : Order) : Prop :=
  exists i m, find_local (ps_locals p) b = Some (i, m) /\ row_agrees (ps_engine p) m b key.

(** The row raises no mismatch. *)
Definition row_quiet (key : Z) (p : Pass) (b : Order) : Prop :=
  exists i m, find_local (ps_locals p) b = Some (i, m) /\
    (row_agrees (ps_engine p) m b key \/ unheard_refusal (ps_engine p) m b key).

(** What a pass may do to one local order. *)
Definition progressed (o o' : Order) : Prop :=
  intent o' = intent o /\ (is_terminal (state o) = true -> o' = o) /\
  (at_broker (state o) = true -> at_broker (state o') = true).

#[export] Instance progressed_preorder : PreOrder progressed.
Proof.
  split; [by intros o|]. intros a b c (H1 & H2 & H3) (H4 & H5 & H6). split_and!; [congruence| |auto].
  intros Ht. rewrite <- (H2 Ht). apply H5. by rewrite (H2 Ht).
Qed.

Lemma progressed_refl l : Forall2 progressed l l.
Proof. induction l; by constructor. Qed.

Lemma progressed_insert l i m m' : l !! i = Some m -> progressed m m' -> Forall2 progressed l (<[i := m']> l).
Proof.
  revert i. induction l as [|o l IH]; intros [|i] Hi Hm; simplify_eq/=; constructor; auto using progressed_refl. done.
Qed.

Definition pass_ok (p : Pass) : Prop :=
  mismatches (ps_outcome p) = Z.of_nat (length (ps_alerts p)) /\
  (block_new_orders (ps_outcome p) = true <-> 0 < mismatches (ps_outcome p)).

Lemma mismatch_ok body ctx p : pass_ok p -> pass_ok (mismatch body ctx p).
Proof. intros [H1 H2]. split; simpl; [rewrite length_app; simpl; lia|]. split; [lia|done]. Qed.

(** How the engine answers one view. *)
Lemma apply_outcomes e m v a m' e' : apply e m v = (a, m', e') ->
  (a = DroppedTerminal /\ is_terminal (state m) = true /\ e' = e) \/
  (is_terminal (state m) = false /\
    ((a = DroppedStale /\ e' = e /\ exists k, last_key e (view_client_ref v) = Some k /\ ordering_key v < k) \/
     ~ (exists k, last_key e (view_client_ref v) = Some k /\ ordering_key v < k) /\
     ((a = NoChange /\ e' = e /\ is_valid_transition (state m) (canonical_observed (state m) v) = false) \/
      ((a = Applied \/ a = NoChange) /\ last_key e' (view_client_ref v) = Some (ordering_key v) /\
       is_valid_transition (state m) (canonical_observed (state m) v) = true)))).
Proof.
  unfold apply. destruct (is_terminal (state m)) eqn:Ht; [intros [= <- _ <-]; by left|].
  fold (last_key e (view_client_ref v)). intros H. right. split; [done|].
  destruct (last_key e (view_client_ref v)) as [k|] eqn:Hk.
  - destruct (Z.ltb_spec (ordering_key v) k); [injection H as <- _ <-; eauto 6|]. right. split; [intros (? & [= <-] & ?); lia|].
    destruct (is_valid_transition _ _) eqn:Hv; simpl in H; [|injection H as <- _ <-; auto].
    right. split_match_in H; injection H as <- _ <-; (split_and!; [auto|apply lookup_insert_eq|done]).
  - right. split; [by intros (? & ? & _)|].
    destruct (is_valid_transition _ _) eqn:Hv; simpl in H; [|injection H as <- _ <-; auto].
    right. split_match_in H; injection H as <- _ <-; (split_and!; [auto|apply lookup_insert_eq|done]).
Qed.

Lemma older_spec (ok : option Z) key :
  (match ok with Some k => key <? k | None => false end) = true <-> exists k, ok = Some k /\ key < k.
Proof.
  destruct ok as [k|]; [|naive_solver]. rewrite Z.ltb_lt. split; [eauto|]. by intros (? & [= <-] & ?).
Qed.

(** The pass raises a mismatch for a matched row exactly when it disagrees. *)
Lemma contradiction_spec e m b key a m' e' : apply e m (row_view m b key) = (a, m', e') ->
  contradicts a (last_key e' (view_client_ref (row_view m b key))) m b key &&
    negb (match last_key e (view_client_ref (row_view m b key)) with Some k => key <? k | None => false end) = false <->
  row_agrees e m b key \/ unheard_refusal e m b key.
Proof.
  intros Ha. unfold row_agrees, unheard_refusal. change (engine_ref m) with (view_client_ref (row_view m b key)).
  set (v := row_view m b key) in *.
  pose proof (older_spec (last_key e (view_client_ref v)) key) as Ho.
  set (older := match last_key e (view_client_ref v) with Some k => key <? k | None => false end) in *.
  apply apply_outcomes in Ha as [(-> & -> & ->)|(-> & [(-> & -> & Hk)|(Hk & [(-> & -> & Hv)|(Ha & Hk' & Hv)])])].
  - cbn [contradicts]. rewrite andb_false_iff, !negb_false_iff, andb_true_iff, bool_decide_eq_true.
    intuition congruence.
  - cbn [contradicts andb]. split; [|done]. intros _. left. by left.
  - cbn [contradicts]. change (ordering_key v) with key in Hk. rewrite Hv. destruct older; [tauto|]. rewrite andb_true_r.
    destruct (last_key e (view_client_ref v)) as [k|].
    + rewrite negb_false_iff, Z.eqb_eq. split; [intros ->; auto|]. intros [[?|?]|(_ & _ & [= ->])]; done.
    + split; [done|]. intros [[?|?]|(_ & _ & ?)]; done.
  - rewrite Hv. change (ordering_key v) with key in Hk'. rewrite Hk'.
    destruct Ha as [-> | ->]; cbn [contradicts]; rewrite ?Z.eqb_refl; cbn [negb andb]; (split; [intros _; left; by right|done]).
Qed.

(** One row. *)
Lemma apply_row_facts stale key p b (p' := apply_row stale key p b) : pass_ok p ->
  pass_ok p' /\ Forall2 progressed (ps_locals p) (ps_locals p') /\ keys_le (ps_engine p) (ps_engine p') /\
  (stale = true -> mismatches (ps_outcome p') = mismatches (ps_outcome p)) /\
  (stale = false -> (row_quiet key p b /\ mismatches (ps_outcome p') = mismatches (ps_outcome p)) \/
                    (~ row_quiet key p b /\ mismatches (ps_outcome p') = mismatches (ps_outcome p) + 1)).
Proof.
  intros Hok. subst p'. unfold apply_row, row_quiet. destruct (find_local (ps_locals p) b) as [[i m]|] eqn:Hf.
  - pose proof Hf as (Hi & _ & _)%list_find_Some.
    destruct (apply _ _ _) as [[a m'] e'] eqn:Ha. pose proof (contradiction_spec _ _ _ _ _ _ _ Ha) as Hc.
    destruct (apply_step_facts (ps_engine p) m e' m' ltac:(by econstructor)) as (Ht & Hb & Hk).
    destruct (apply_facts _ _ _ _ _ _ Ha) as (Hno & Hyes & _).
    assert (Forall2 progressed (ps_locals p) (<[i := m']> (ps_locals p))) as Hl.
    { apply (progressed_insert _ _ m); [done|]. split_and!; [|done|done].
      destruct (decide (a = Applied)) as [->|Hne]; [by apply Hyes|by rewrite Hno]. }
    set (cond := contradicts _ _ _ _ _ && _) in Hc |- *.
    assert (forall s, contradicts a (last_key e' (view_client_ref (row_view m b key))) m b key && negb s &&
      negb match last_key (ps_engine p) (view_client_ref (row_view m b key)) with Some k => key <? k | None => false end
      = cond && negb s) as Hcomm by (intros s; subst cond; by rewrite <- !andb_assoc, (andb_comm (negb s))).
    rewrite Hcomm. destruct cond, stale; simpl; split_and!; try done; try (by apply mismatch_ok).
    all: intros _; simpl; first [right; split; [|done]|left; split; [|done]].
    + intros (j & x & [= <- <-] & Hx). by apply Hc in Hx.
    + exists i, m. split; [done|]. by apply Hc.
  - destruct stale; simpl; split_and!; try done; try (by apply mismatch_ok); try (by apply progressed_refl).
    intros _. right. split; [|done]. by intros (? & ? & ? & _).
Qed.

(** ** The whole pass *)

Lemma rows_facts stale key rows : forall p (p' := apply_rows stale key rows p), pass_ok p ->
  pass_ok p' /\ Forall2 progressed (ps_locals p) (ps_locals p') /\ keys_le (ps_engine p) (ps_engine p') /\
  (stale = true -> mismatches (ps_outcome p') = mismatches (ps_outcome p)) /\
  (stale = false -> mismatches (ps_outcome p) <= mismatches (ps_outcome p') /\
     (mismatches (ps_outcome p') = mismatches (ps_outcome p) <->
      forall i b, rows !! i = Some b -> row_quiet key (apply_rows stale key (take i rows) p) b)).
Proof.
  induction rows as [|b rows IH]; intros p p' Hok.
  { subst p'. simpl. split_and!; try done; apply progressed_refl. }
  destruct (apply_row_facts stale key p b Hok) as (Hok1 & Hl1 & Hk1 & Hs1 & Hm1).
  destruct (IH (apply_row stale key p b) Hok1) as (Hok2 & Hl2 & Hk2 & Hs2 & Hm2).
  subst p'. change (apply_rows stale key (b :: rows) p) with (apply_rows stale key rows (apply_row stale key p b)).
  split_and!; [done|by etrans|by etrans|intros Hs; rewrite Hs2, Hs1; done|]. intros Hs.
  destruct (Hm2 Hs) as [Hle Heq]. specialize (Hm1 Hs).
  assert ((forall i x, (b :: rows) !! i = Some x -> row_quiet key (apply_rows stale key (take i (b :: rows)) p) x) <->
    row_quiet key p b /\
    forall i x, rows !! i = Some x -> row_quiet key (apply_rows stale key (take i rows) (apply_row stale key p b)) x) as ->.
  { split; [intros H; split; [exact (H 0%nat b eq_refl)|intros i x; exact (H (S i) x)]|].
    intros [H0 HS] [|i] x; [by intros [= <-]|exact (HS i x)]. }
  rewrite <- Heq. destruct Hm1 as [[Hc Hm]|[Hc Hm]].
  - split; [lia|]. rewrite Hm. tauto.
  - split; [lia|]. split; [lia|tauto].
Qed.

Lemma vanished_facts rows ls : forall p (p' := fold_left (check_vanished rows) ls p), pass_ok p ->
  pass_ok p' /\ ps_locals p' = ps_locals p /\ ps_engine p' = ps_engine p /\
  mismatches (ps_outcome p) <= mismatches (ps_outcome p') /\
  (mismatches (ps_outcome p') = mismatches (ps_outcome p) <-> Forall (fun l => vanished rows l = false) ls).
Proof.
  induction ls as [|l ls IH]; intros p p' Hok; subst p'; cbn [fold_left]; [split_and!; try done; lia|].
  assert (pass_ok (check_vanished rows p l)) as Hok1 by (unfold check_vanished; destruct (vanished rows l); [by apply mismatch_ok|done]).
  destruct (IH _ Hok1) as (H1 & H2 & H3 & H4 & H5). rewrite Forall_cons, <- H5. unfold check_vanished in *.
  destruct (vanished rows l); simpl in *; split_and!; try done; try lia; split; intros; try tauto; lia.
Qed.

Lemma vanished_false rows l : vanished rows l = false <->
  (is_terminal (state l) = false -> broker_order_id l <> "" -> exists b, b ∈ rows /\ same_order l b = true).
Proof.
  unfold vanished. rewrite andb_false_iff, !negb_false_iff, orb_true_iff, String.eqb_eq, existsb_exists.
  setoid_rewrite list_elem_of_In. destruct (is_terminal (state l)); [naive_solver|].
  destruct (decide (broker_order_id l = "")); naive_solver.
Qed.

(** Everything one application promises. *)
Lemma reconcile_facts e last r locals p last' : reconcile e last r locals = (p, last') ->
  pass_ok p /\ Forall2 progressed locals (ps_locals p) /\ keys_le e (ps_engine p) /\ last' = Z.max last (rr_ordering_key r) /\
  (rr_ordering_key r <= last -> mismatches (ps_outcome p) = 0) /\
  (last < rr_ordering_key r ->
     (mismatches (ps_outcome p) = 0 <->
      (forall i b, rr_orders r !! i = Some b ->
         row_quiet (rr_ordering_key r) (apply_rows false (rr_ordering_key r) (take i (rr_orders r)) (start_pass e locals)) b) /\
      forall l, l ∈ ps_locals p -> is_terminal (state l) = false -> broker_order_id l <> "" ->
        exists b, b ∈ rr_orders r /\ same_order l b = true)).
Proof.
  unfold reconcile. intros [= <- <-].
  assert (pass_ok (start_pass e locals)) as Hok by (split; simpl; [done|lia]).
  set (stale := rr_ordering_key r <=? last).
  destruct (rows_facts stale (rr_ordering_key r) (rr_orders r) _ Hok) as (H1 & H2 & H3 & H4 & H5).
  set (p1 := apply_rows _ _ _ _) in *. simpl in H2, H3.
  destruct (Z.leb_spec (rr_ordering_key r) last) as [Hs|Hs]; subst stale; simpl.
  - split_and!; try done; try lia. intros _. by apply H4.
  - destruct (vanished_facts (rr_orders r) (ps_locals p1) p1 H1) as (V1 & V2 & V3 & V4 & V5).
    set (p2 := fold_left _ _ _) in *. destruct (H5 eq_refl) as [Hle Heq]. simpl in Hle, Heq.
    rewrite V2, V3. split_and!; try done; try lia. intros _. rewrite <- Heq.
    setoid_rewrite <- vanished_false. rewrite <- Forall_forall, <- V5. split; [lia|]. intros [-> ->]; lia.
Qed.

(** ** When no refusal goes unheard *)

Lemma apply_keys e m v a m' e' ref : apply e m v = (a, m', e') -> ref <> view_client_ref v ->
  last_key e' ref = last_key e ref.
Proof.
  unfold apply, last_key. intros H Hne. repeat (split_match_in H; [by injection H as _ _ <-|]).
  split_match_in H; injection H as _ _ <-; cbn [last_keys]; by rewrite ?lookup_insert_ne.
Qed.

(** The local order row [i] is matched to when its turn comes. *)
Definition matched (key : Z) (rows : list Order) (p : Pass) (i : nat) (m : Order) : Prop :=
  exists b n, rows !! i = Some b /\ find_local (ps_locals (apply_rows false key (take i rows) p)) b = Some (n, m).

(** No two rows are matched to one order. *)
Definition one_row_each (key : Z) (rows : list Order) (p : Pass) : Prop :=
  forall i j m m', matched key rows p i m -> matched key rows p j m' -> engine_ref m = engine_ref m' -> i = j.

(** Every key recorded is older than the snapshot. *)
Definition keys_before (e : LifecycleEngine) (key : Z) : Prop := forall ref k, last_key e ref = Some k -> k < key.

(** A key found at a row's turn was there before the pass, or an earlier row of the
    same order put it there. *)
Lemma key_origin key rows p i : (i <= length rows)%nat -> forall ref k,
  last_key (ps_engine (apply_rows false key (take i rows) p)) ref = Some k ->
  last_key (ps_engine p) ref = Some k \/ exists j m, (j < i)%nat /\ matched key rows p j m /\ engine_ref m = ref.
Proof.
  induction i as [|i IH]; intros Hi ref k; [by left|].
  destruct (lookup_lt_is_Some_2 rows i) as [b Hb]; [lia|].
  rewrite (take_S_r _ _ b) by done. unfold apply_rows at 1. rewrite fold_left_app. cbn [fold_left].
  fold (apply_rows false key (take i rows) p). set (q := apply_rows false key (take i rows) p) in *.
  assert (last_key (ps_engine (apply_row false key q b)) ref = last_key (ps_engine q) ref \/
          exists n m, find_local (ps_locals q) b = Some (n, m) /\ engine_ref m = ref) as [->|(n & m & Hf & Hr)].
  { unfold apply_row. destruct (find_local (ps_locals q) b) as [[n m]|]; [|by left].
    destruct (apply _ _ _) as [[a m'] e'] eqn:Ha. destruct (decide (ref = engine_ref m)) as [->|Hne]; [right; eauto|].
    left. rewrite <- (apply_keys _ _ _ _ _ _ ref Ha Hne). by split_match. }
  - intros H. destruct (IH ltac:(lia) ref k H) as [?|(j & m & Hj & ?)]; [by left|]. right. exists j, m. split; [lia|done].
  - intros _. right. exists i, m. split; [lia|]. split; [|done]. by exists b, n.
Qed.

Lemma quiet_is_clean key rows p i b : keys_before (ps_engine p) key -> one_row_each key rows p -> rows !! i = Some b ->
  row_quiet key (apply_rows false key (take i rows) p) b -> row_clean key (apply_rows false key (take i rows) p) b.
Proof.
  intros Hk Hone Hb (n & m & Hf & [Ha|(_ & _ & Hl)]); exists n, m; split; [done|done|done|].
  apply lookup_lt_Some in Hb as Hi. destruct (key_origin key rows p i ltac:(lia) _ _ Hl) as [Hl'|(j & m' & Hj & Hm & Hr)].
  - apply Hk in Hl'. lia.
  - assert (j = i) by (eapply Hone; [exact Hm| |exact Hr]; by exists b, n). lia.
Qed.

(** C15: Broker truth beats local state, and a human hears of every disagreement the
    pass counts. Whatever the snapshot, the local orders stay the same orders in the
    same places, a terminal one is never rewritten, one at the broker never goes
    back, and no ordering key drops. New orders are blocked exactly when a
    disagreement was counted, with one alert for each. A stale snapshot never blocks.
    A fresh one leaves trading open exactly when every working order the broker had
    acknowledged is in it and every row, when its turn came, matched a local order
    and either agreed with it or was refused by the engine as an illegal step under a
    key already recorded for that order. The last case is a disagreement the code
    does not report ([equal_key_hides_refusal]); it cannot arise when every recorded
    key is older than the snapshot and no two rows are matched to one order, and
    then trading stays open only if every row agreed. *)
Theorem reconcile_exact e last r locals :
  let '(p, last') := reconcile e last r locals in
  let key := rr_ordering_key r in
  let turn i := apply_rows false key (take i (rr_orders r)) (start_pass e locals) in
  Forall2 progressed locals (ps_locals p) /\ keys_le e (ps_engine p) /\ last' = Z.max last key /\
  mismatches (ps_outcome p) = Z.of_nat (length (ps_alerts p)) /\
  (block_new_orders (ps_outcome p) = true <-> 0 < mismatches (ps_outcome p)) /\
  (key <= last -> block_new_orders (ps_outcome p) = false) /\
  (last < key ->
     (block_new_orders (ps_outcome p) = false <->
      (forall i b, rr_orders r !! i = Some b -> row_quiet key (turn i) b) /\
      forall l, l ∈ ps_locals p -> is_terminal (state l) = false -> broker_order_id l <> "" ->
        exists b, b ∈ rr_orders r /\ same_order l b = true)) /\
  (last < key -> keys_before e key -> one_row_each key (rr_orders r) (start_pass e locals) ->
     block_new_orders (ps_outcome p) = false ->
     forall i b, rr_orders r !! i = Some b -> row_clean key (turn i) b).
Proof.
  destruct (reconcile e last r locals) as [p last'] eqn:E.
  destruct (reconcile_facts _ _ _ _ _ _ E) as ([Hm Hb] & Hl & Hk & Hlast & Hstale & Hfresh). cbv zeta.
  assert (block_new_orders (ps_outcome p) = false <-> mismatches (ps_outcome p) = 0) as Hb'.
  { rewrite <- not_true_iff_false, Hb. lia. }
  split; [done|]. split; [done|]. split; [done|]. split; [done|]. split; [done|].
  split; [intros; by apply Hb', Hstale|]. split; [intros; rewrite Hb'; by apply Hfresh|].
  intros Hlt Hkeys Hone Hopen i b Hi. apply quiet_is_clean; [done..|].
  by apply (proj1 (Hfresh Hlt) (proj1 Hb' Hopen)).
Qed.

Lemma count_unknown_pos l : 0 < count_unknown l <-> exists o, o ∈ l /\ state o = Unknown.
Proof.
  unfold count_unknown. induction l as [|o l IH]; simpl; [split; [lia|set_solver]|].
  unfold is_unknown at 1. case_bool_decide as H; simpl.
  - split; [intros _; exists o; set_solver|lia].
  - rewrite IH. split; intros (x & Hx & Hs); exists x; set_solver.
Qed.

Lemma escalated_none (l : list Order) o : o ∈ escalate_unknown <$> l -> state o <> Unknown.
Proof.
  intros (x & -> & _)%list_elem_of_fmap. unfold escalate_unknown, is_unknown. by case_bool_decide.
Qed.

Lemma fetch_key broker key now r : fetch broker key now = Ok r -> rr_ordering_key r = key.
Proof.
  unfold fetch. destruct (read_orders broker), (read_trades broker), (read_positions broker), (read_funds broker);
    try discriminate. by intros [= <-].
Qed.

(** The verdict of the last steps. *)
Lemma conclude_status env before p : pass_ok p ->
  rec_status (conclude env before p) <> RecoveryManual /\ escalated (conclude env before p) = false /\
  rec_orders (conclude env before p) = ps_locals p /\
  (rec_status (conclude env before p) = ResumedSafe <->
     is_ok (env_safe_start env) = true /\ (forall o, o ∈ ps_locals p -> state o <> Unknown) /\
     mismatches (ps_outcome p) = 0).
Proof.
  intros [Hm Hb]. pose proof (count_unknown_pos (ps_locals p)) as Hu. unfold conclude. cbv zeta.
  destruct (is_ok (env_safe_start env)); cbn [negb]; [|split_and!; try done; simpl; naive_solver].
  destruct (Z.ltb_spec 0 (count_unknown (ps_locals p))) as [Hc|Hc].
  { apply Hu in Hc as (o & Ho & Hs). split_and!; try done. simpl. split; [done|]. intros (_ & H & _). by destruct (H o Ho). }
  assert (forall o, o ∈ ps_locals p -> state o <> Unknown) as Hnone.
  { intros o Ho Hs. assert (0 < count_unknown (ps_locals p)); [apply Hu; eauto|lia]. }
  destruct (Z.ltb_spec 0 (mismatches (ps_outcome p))) as [Hp|Hp].
  - rewrite orb_true_r. split_and!; try done. simpl. split; [done|lia].
  - destruct (block_new_orders (ps_outcome p)); [exfalso; pose proof (proj1 Hb eq_refl); lia|].
    simpl. split_and!; try done. split; [|done]. intros _. split_and!; try done. lia.
Qed.

(** The verdict of a recovery, and the double fault. *)
Lemma recover_facts env e :
  let '(out, e', sent, alerts) := recover env e in
  (rec_status out = ResumedSafe <-> exists loaded r,
     env_load_state env = Ok loaded /\ is_ok (env_check_session env) = true /\
     fetch (env_reads env) 1 (env_now env) = Ok r /\ is_ok (env_safe_start env) = true /\
     (forall o, o ∈ rec_orders out -> state o <> Unknown) /\
     (forall i b, rr_orders r !! i = Some b ->
        row_quiet 1 (apply_rows false 1 (take i (rr_orders r)) (start_pass e loaded)) b) /\
     (forall l, l ∈ rec_orders out -> is_terminal (state l) = false -> broker_order_id l <> "" ->
        exists b, b ∈ rr_orders r /\ same_order l b = true)) /\
  (rec_status out = RecoveryManual <-> exists loaded err,
     env_load_state env = Ok loaded /\ is_ok (env_check_session env) = true /\
     fetch (env_reads env) 1 (env_now env) = Err err /\ broker_answered err = false /\
     exists o, o ∈ loaded /\ state o = Unknown) /\
  (escalated out = true <-> rec_status out = RecoveryManual) /\
  (rec_status out = RecoveryManual -> exists loaded, env_load_state env = Ok loaded /\
     rec_orders out = escalate_unknown <$> loaded /\ (forall o, o ∈ rec_orders out -> state o <> Unknown) /\
     e' = e /\ exists message, sent = [(AlertCritical, message)]).
Proof.
  unfold recover. destruct (env_load_state env) as [loaded|err]; [|split_and!; simpl; naive_solver].
  destruct (is_ok (env_check_session env)); cbn [negb]; [|split_and!; simpl; naive_solver].
  destruct (fetch (env_reads env) 1 (env_now env)) as [r|err] eqn:Ef.
  - apply fetch_key in Ef as Hkey. destruct (reconcile e (-1) r loaded) as [p last'] eqn:Er. cbn [fst].
    destruct (reconcile_facts _ _ _ _ _ _ Er) as (Hok & _ & _ & _ & _ & Hclean).
    rewrite Hkey in Hclean. specialize (Hclean ltac:(lia)).
    destruct (conclude_status env loaded p Hok) as (Hman & Hesc & -> & ->). rewrite Hclean, Hesc.
    split_and!; try done; split; try (naive_solver).
  - destruct (broker_answered err) eqn:Ea; [split_and!; simpl; try done; split; try done|].
    { by intros (? & ? & _ & _ & ? & _). }
    { intros (? & ? & _ & _ & [= <-] & ? & _). congruence. }
    pose proof (count_unknown_pos loaded) as Hu. destruct (Z.ltb_spec 0 (count_unknown loaded)) as [Hc|Hc].
    + split_and!; simpl; try done; [split; [done|naive_solver]|split; [|done]; intros _|].
      * exists loaded, err. split_and!; try done. by apply Hu.
      * intros _. exists loaded. split_and!; try done; [apply escalated_none|eauto].
    + split_and!; simpl; try done; split; try done.
      * by intros (? & ? & _ & _ & ? & _).
      * intros (l & err' & El & _ & _ & _ & Hx). injection El as <-. apply Hu in Hx. lia.
Qed.

(** A recovery that resumes has heard of every row. *)
Lemma resumed_rows env e : let '(out, _, _, _) := recover env e in
  rec_status out = ResumedSafe -> keys_before e 1 -> forall loaded r,
     env_load_state env = Ok loaded -> fetch (env_reads env) 1 (env_now env) = Ok r ->
     one_row_each 1 (rr_orders r) (start_pass e loaded) ->
     forall i b, rr_orders r !! i = Some b ->
       row_clean 1 (apply_rows false 1 (take i (rr_orders r)) (start_pass e loaded)) b.
Proof.
  unfold recover. destruct (env_load_state env) as [loaded|]; [|done].
  destruct (is_ok (env_check_session env)); cbn [negb]; [|done].
  destruct (fetch (env_reads env) 1 (env_now env)) as [r|err] eqn:Ef; [|by repeat split_match].
  apply fetch_key in Ef as Hkey. destruct (reconcile e (-1) r loaded) as [p last'] eqn:Er. cbn [fst].
  destruct (reconcile_facts _ _ _ _ _ _ Er) as (Hok & _ & _ & _ & _ & Hclean).
  rewrite Hkey in Hclean. specialize (Hclean ltac:(lia)). destruct (conclude_status env loaded p Hok) as (_ & _ & _ & Hst).
  intros (_ & _ & Hz)%Hst Hkeys l r' [= <-] [= <-] Hone i b Hi. apply quiet_is_clean; [done..|]. by apply Hclean.
Qed.

(** C16: Recovery resumes exactly when the state was loaded, the session is alive, the
    broker answered all four reads, every row of its snapshot matched a local order
    without raising a mismatch, no acknowledged working order is missing, none is
    UNKNOWN any more, and the safe-start gate agrees. A row raises no mismatch when it
    agrees with its order, or when the engine refused it as an illegal step under the
    key 1 that every recovery uses, already recorded for that order: a second recovery
    on one engine does not hear of such a row. When the engine has recorded no key
    from 1 on, as at a boot, and no two rows are matched to one order, a recovery
    resumes only if every row agreed. A human is called, once, exactly on the double
    fault: the broker cannot be reached while an order is UNKNOWN; those orders, and
    no others, are then handed over. *)
Theorem recover_exact env e :
  let '(out, e', sent, alerts) := recover env e in
  (rec_status out = ResumedSafe <-> exists loaded r,
     env_load_state env = Ok loaded /\ is_ok (env_check_session env) = true /\
     fetch (env_reads env) 1 (env_now env) = Ok r /\ is_ok (env_safe_start env) = true /\
     (forall o, o ∈ rec_orders out -> state o <> Unknown) /\
     (forall i b, rr_orders r !! i = Some b ->
        row_quiet 1 (apply_rows false 1 (take i (rr_orders r)) (start_pass e loaded)) b) /\
     (forall l, l ∈ rec_orders out -> is_terminal (state l) = false -> broker_order_id l <> "" ->
        exists b, b ∈ rr_orders r /\ same_order l b = true)) /\
  (rec_status out = ResumedSafe -> keys_before e 1 -> forall loaded r,
     env_load_state env = Ok loaded -> fetch (env_reads env) 1 (env_now env) = Ok r ->
     one_row_each 1 (rr_orders r) (start_pass e loaded) ->
     forall i b, rr_orders r !! i = Some b ->
       row_clean 1 (apply_rows false 1 (take i (rr_orders r)) (start_pass e loaded)) b) /\
  (rec_status out = RecoveryManual <-> exists loaded err,
     env_load_state env = Ok loaded /\ is_ok (env_check_session env) = true /\
     fetch (env_reads env) 1 (env_now env) = Err err /\ broker_answered err = false /\
     exists o, o ∈ loaded /\ state o = Unknown) /\
  (escalated out = true <-> rec_status out = RecoveryManual) /\
  (rec_status out = RecoveryManual -> exists loaded, env_load_state env = Ok loaded /\
     rec_orders out = escalate_unknown <$> loaded /\ (forall o, o ∈ rec_orders out -> state o <> Unknown) /\
     e' = e /\ exists message, sent = [(AlertCritical, message)]).
Proof.
  pose proof (recover_facts env e) as H. pose proof (resumed_rows env e) as Hr.
  destruct (recover env e) as [[[out e'] sent] alerts]. destruct H as (H1 & H2).
  split; [exact H1|]. split; [exact Hr|exact H2].
Qed.

(** A refusal at a key the engine has already recorded for the order is silent:
    the second row here reports an illegal step back and nobody hears of it. *)
Example equal_key_hides_refusal :
  let i := mkIntent "r-1" "NIFTY" Buy (quantity_of 50) (from_paise 100) None Limit Intraday "s" in
  let row s q := mkOrder i s "B1" (quantity_of q) (from_paise 100) in
  let snapshot := mkReconcileResult [row PartiallyFilled 10; row Acknowledged 0] [] []
    (mkFunds (from_paise_money 0) (from_paise_money 0)) 1 0 in
  is_valid_transition PartiallyFilled Acknowledged = false /\
  block_new_orders (ps_outcome (reconcile engine_init (-1) snapshot [row Acknowledged 0]).1) = false.
Proof. vm_compute. done. Qed.
