(* ===== verification/Intervention.v ===== *)
(** * Intervention: manual interventions and corporate actions
    (src/src/reconcile/manual_intervention.cpp, corporate_actions.cpp)

    What a human did at the broker behind the program's back, positions taken
    from broker truth, and position changes a corporate action explains. *)

From S2P Require Import Prelude Errors Domain Lifecycle Modes Resolver Reconcile.

(** ** Manual interventions *)

Inductive InterventionKind := PositionClosedManually | PositionReducedManually | OrderCancelledManually.

Definition intervention_to_string (k : InterventionKind) : string :=
  match k with
  | PositionClosedManually => "PositionClosedManually"
  | PositionReducedManually => "PositionReducedManually"
  | OrderCancelledManually => "OrderCancelledManually"
  end.

Record ManualInterventionEvent := mkIntervention {
  mi_kind : InterventionKind;
  mi_symbol : string;
  mi_client_ref : string;
  believed_qty : Z;
  broker_qty : Z;
  mi_detail : string;
}.

(** [-value] is undefined for [INT64_MIN]; two's complement wraps it. *)
Definition abs_qty (v : Z) : Z := if v <? 0 then to_i64 (- v) else v.

Definition find_position (positions : list Position) (symbol : string) : option Position :=
  List.find (fun p => String.eqb (pos_symbol p) symbol) positions.

Definition broker_net_for (truth : ReconcileResult) (symbol : string) : Z :=
  match find_position (rr_positions truth) symbol with
  | Some p => quantity_value (net_qty p)
  | None => 0
  end.

Definition qty_tag (believed broker : Z) : string := "believed=" +:+ pretty believed +:+ " broker=" +:+ pretty broker.

Definition symbol_provenance (symbol : string) : AlertContext := mkAlertContext "" "" "" symbol.

(** The symbols a live or filled order of the program explains. *)
Definition explains (o : Order) : bool :=
  negb (String.eqb (symbol (intent o)) "") &&
  (negb (is_terminal (state o)) || bool_decide (state o = Filled)).

Definition bot_intent_symbols (orders : list Order) : gset string :=
  list_to_set ((fun o => symbol (intent o)) <$> List.filter explains orders).

Definition position_event (k : InterventionKind) (symbol : string) (believed broker : Z) :
    ManualInterventionEvent * alert :=
  (mkIntervention k symbol "" believed broker
     (intervention_to_string k +:+ " " +:+ symbol +:+ " " +:+ qty_tag believed broker),
   (AlertWarning, intervention_to_string k +:+ " " +:+ qty_tag believed broker, symbol_provenance symbol)).

Definition detect_position (bots : gset string) (truth : ReconcileResult) (believed : Position) :
    option (ManualInterventionEvent * alert) :=
  let believed_qty := quantity_value (net_qty believed) in
  if believed_qty =? 0 then None
  else if bool_decide (pos_symbol believed ∈ bots) then None
  else
    let broker_qty := broker_net_for truth (pos_symbol believed) in
    if broker_qty =? 0 then Some (position_event PositionClosedManually (pos_symbol believed) believed_qty 0)
    else
      let sign_flipped := xorb (broker_qty <? 0) (believed_qty <? 0) in
      let same_sign_reduced := negb sign_flipped && (abs_qty broker_qty <? abs_qty believed_qty) in
      if sign_flipped || same_sign_reduced
      then Some (position_event PositionReducedManually (pos_symbol believed) believed_qty broker_qty)
      else None.

Definition detect_order (truth : ReconcileResult) (local : Order) : option (ManualInterventionEvent * alert) :=
  if is_terminal (state local) || String.eqb (broker_order_id local) "" then None
  else
    let cancelled_or_absent :=
      match List.find (same_order local) (rr_orders truth) with
      | Some b => bool_decide (state b = Cancelled)
      | None => true
      end in
    if cancelled_or_absent then
      let i := intent local in
      Some (mkIntervention OrderCancelledManually (symbol i) (client_ref i) 0 0
              (intervention_to_string OrderCancelledManually +:+ " ref=" +:+ client_ref i +:+ " symbol=" +:+ symbol i),
            (AlertWarning, intervention_to_string OrderCancelledManually, provenance_of local))
    else None.

(** [detect]: the events, each with the alert sent for it, in order. *)
Definition detect (believed_positions : list Position) (local_orders : list Order) (truth : ReconcileResult) :
    list (ManualInterventionEvent * alert) :=
  omap (detect_position (bot_intent_symbols local_orders) truth) believed_positions ++
  omap (detect_order truth) local_orders.

Definition reconcile_position (truth : ReconcileResult) (local : Position) : Position :=
  match find_position (rr_positions truth) (pos_symbol local) with
  | Some m => mkPosition (pos_symbol local) (net_qty m) (pos_avg_price m)
  | None => mkPosition (pos_symbol local) (quantity_of 0) (from_paise 0)
  end.

Definition reconcile_positions (truth : ReconcileResult) (locals : list Position) : list Position :=
  reconcile_position truth <$> locals.

Definition needs_exit (p : Position) : bool := negb (quantity_value (net_qty p) =? 0).

(** ** Corporate actions *)

Inductive CorporateActionKind := Split | Bonus | SymbolChange | FnoAdjustment.

Definition corporate_to_string (k : CorporateActionKind) : string :=
  match k with
  | Split => "Split"
  | Bonus => "Bonus"
  | SymbolChange => "SymbolChange"
  | FnoAdjustment => "FnoAdjustment"
  end.

Record CorporateAction := mkCorporateAction {
  ca_symbol : string;
  ca_kind : CorporateActionKind;
  qty_num : Z;
  qty_den : Z;
  new_symbol : string;
  new_token : Z;
}.

Record CorporateActionOutcome := mkCorporateOutcome {
  is_corporate_action : bool;
  source_missing : bool;
  rebased : option Position;
  ca_detail : string;
}.

Definition no_corporate_action : CorporateActionOutcome := mkCorporateOutcome false false None "".

Definition ratio_tag (num den : Z) : string := pretty num +:+ ":" +:+ pretty den.

(** The products are [std::int64_t]: out of range they are undefined, here they
    wrap. Division truncates towards zero. *)
Definition divides_exactly (value num den : Z) : bool :=
  if den =? 0 then true else Z.rem (to_i64 (value * num)) den =? 0.

Definition rebase (p : Position) (ca : CorporateAction) : Position :=
  let qty := quantity_value (net_qty p) in
  let paise := price_paise (pos_avg_price p) in
  let '(qty, paise) :=
    if (0 <? qty_num ca) && (0 <? qty_den ca)
    then (Z.quot (to_i64 (qty * qty_num ca)) (qty_den ca), Z.quot (to_i64 (paise * qty_den ca)) (qty_num ca))
    else (qty, paise) in
  mkPosition (if String.eqb (new_symbol ca) "" then pos_symbol p else new_symbol ca)
    (quantity_of qty) (from_paise paise).

(** [source]: [None] when no source is configured, else what it answers. *)
Definition classify_change (source : option (string -> option CorporateAction)) (believed observed : Position) :
    CorporateActionOutcome * list alert :=
  if bool_decide (believed = observed) then (no_corporate_action, [])
  else match source with
  | None =>
      (mkCorporateOutcome false true None
         ("corporate-action source not configured; cannot classify position change on " +:+ pos_symbol believed),
       [(AlertError, "corporate-action source not configured; cannot classify position change",
         symbol_provenance (pos_symbol believed))])
  | Some action_for =>
      match action_for (pos_symbol believed) with
      | None => (no_corporate_action, [])
      | Some ca =>
          let r := rebase believed ca in
          if String.eqb (pos_symbol r) (pos_symbol observed) && bool_decide (net_qty r = net_qty observed) &&
             (price_paise (pos_avg_price r) =? price_paise (pos_avg_price observed))
          then
            let tag := corporate_to_string (ca_kind ca) +:+ " " +:+ ratio_tag (qty_num ca) (qty_den ca) in
            let note := if negb (divides_exactly (quantity_value (net_qty believed)) (qty_num ca) (qty_den ca))
                        then " (qty truncated: non-divisible re-base)" else "" in
            (mkCorporateOutcome true false (Some r) (tag +:+ " on " +:+ pos_symbol believed +:+ note),
             [(AlertInfo, tag +:+ note, symbol_provenance (pos_symbol believed))])
          else (no_corporate_action, [])
      end
  end.

(** ** What is flagged *)

(** The broker's net is strictly on the flat side of the believed one, or beyond. *)
Definition moved_off (believed broker : Z) : Prop :=
  (0 < believed /\ broker < believed) \/ (believed < 0 /\ believed < broker).

(** A live or filled order of the program on the symbol. *)
Definition bot_explains (orders : list Order) (symbol : string) : Prop :=
  exists o, o ∈ orders /\ Domain.symbol (intent o) = symbol /\ symbol <> "" /\
    (is_terminal (state o) = false \/ state o = Filled).

Lemma bot_intent_spec orders symbol : symbol ∈ bot_intent_symbols orders <-> bot_explains orders symbol.
Proof.
  unfold bot_intent_symbols, bot_explains. rewrite elem_of_list_to_set, list_elem_of_fmap.
  setoid_rewrite list_elem_of_In. setoid_rewrite filter_In. unfold explains.
  setoid_rewrite andb_true_iff. setoid_rewrite orb_true_iff. setoid_rewrite negb_true_iff.
  setoid_rewrite String.eqb_neq. setoid_rewrite bool_decide_eq_true. naive_solver.
Qed.

Definition in_range (p : Position) : Prop := int64_min < quantity_value (net_qty p) <= int64_max.

Lemma abs_qty_spec v : int64_min < v <= int64_max -> abs_qty v = Z.abs v.
Proof. intros. unfold abs_qty. destruct (Z.ltb_spec v 0); [rewrite to_i64_small by (unfold_ints; lia)|]; lia. Qed.

Lemma reduced_spec b q : b <> 0 -> q <> 0 -> int64_min < b <= int64_max -> int64_min < q <= int64_max ->
  xorb (q <? 0) (b <? 0) || negb (xorb (q <? 0) (b <? 0)) && (abs_qty q <? abs_qty b) = true <-> moved_off b q.
Proof.
  intros Hb Hq Rb Rq. rewrite !abs_qty_spec by done. unfold moved_off.
  destruct (Z.ltb_spec q 0), (Z.ltb_spec b 0); simpl; rewrite ?Z.ltb_lt; split; intros; try done; lia.
Qed.

Lemma broker_net_range truth symbol : Forall in_range (rr_positions truth) ->
  int64_min < broker_net_for truth symbol <= int64_max.
Proof.
  intros H. unfold broker_net_for, find_position. destruct (List.find _ _) as [p|] eqn:E; [|unfold_ints; lia].
  apply find_some in E as [E _]. rewrite Forall_forall in H. apply H. by apply list_elem_of_In.
Qed.

Lemma detect_position_spec orders truth p (b := quantity_value (net_qty p))
    (q := broker_net_for truth (pos_symbol p)) : in_range p -> Forall in_range (rr_positions truth) ->
  (is_Some (detect_position (bot_intent_symbols orders) truth p) <->
   moved_off b q /\ ~ bot_explains orders (pos_symbol p)) /\
  forall ev a, detect_position (bot_intent_symbols orders) truth p = Some (ev, a) ->
    mi_symbol ev = pos_symbol p /\ believed_qty ev = b /\ broker_qty ev = q /\
    (mi_kind ev = PositionClosedManually <-> q = 0) /\ mi_kind ev <> OrderCancelledManually.
Proof.
  intros Hp Ht. pose proof (broker_net_range truth (pos_symbol p) Ht) as Hq. unfold in_range in Hp. fold b in Hp. fold q in Hq.
  unfold detect_position. fold b q. destruct (Z.eqb_spec b 0) as [H0|H0].
  { split; [|done]. split; [by intros [? ?]|]. unfold moved_off. lia. }
  destruct (bool_decide_reflect (pos_symbol p ∈ bot_intent_symbols orders)) as [Hs|Hs]; rewrite bot_intent_spec in Hs.
  { split; [|done]. split; [by intros [? ?]|naive_solver]. }
  destruct (Z.eqb_spec q 0) as [H1|H1].
  { split; [split; [|eauto]; intros _; split; [unfold moved_off; lia|done]|]. by intros ev a [= <- <-]. }
  pose proof (reduced_spec b q H0 H1 Hp Hq) as Hr. cbv zeta. destruct (_ || _).
  - split; [split; [|eauto]; intros _; split; [by apply Hr|done]|]. intros ev a [= <- <-]. by split_and!.
  - split; [|done]. split; [by intros [? ?]|]. intros [Hm _]. by apply Hr in Hm.
Qed.

Lemma detect_order_spec truth o : is_Some (detect_order truth o) <->
  is_terminal (state o) = false /\ broker_order_id o <> "" /\
  (forall b, List.find (same_order o) (rr_orders truth) = Some b -> state b = Cancelled).
Proof.
  unfold detect_order. destruct (is_terminal (state o)); simpl; [split; [by intros [? ?]|naive_solver]|].
  destruct (String.eqb_spec (broker_order_id o) ""); [split; [by intros [? ?]|naive_solver]|].
  destruct (List.find _ _) as [b|]; [case_bool_decide|]; split; try (by intros [? ?]); naive_solver.
Qed.

Lemma reconciled_net truth p : quantity_value (net_qty (reconcile_position truth p)) = broker_net_for truth (pos_symbol p) /\
  pos_symbol (reconcile_position truth p) = pos_symbol p.
Proof. unfold reconcile_position, broker_net_for. by destruct (find_position _ _). Qed.

(** Manual interventions: with magnitudes that have an absolute value in 64 bits,
    a believed position is reported exactly when the broker's net is nearer to
    flat or beyond it and no live or filled order of the program is on the
    symbol, as closed exactly when the broker is flat; a working order the broker
    had acknowledged is reported exactly when the first row it matches is
    cancelled or there is none. Once positions are taken from broker truth,
    whatever they were, nothing is reported of them again. *)
Theorem detect_exact orders truth p o believed
    (Hp : in_range p) (Ht : Forall in_range (rr_positions truth)) :
  (is_Some (detect_position (bot_intent_symbols orders) truth p) <->
   moved_off (quantity_value (net_qty p)) (broker_net_for truth (pos_symbol p)) /\ ~ bot_explains orders (pos_symbol p)) /\
  (forall ev a, detect_position (bot_intent_symbols orders) truth p = Some (ev, a) ->
     mi_symbol ev = pos_symbol p /\ believed_qty ev = quantity_value (net_qty p) /\
     broker_qty ev = broker_net_for truth (pos_symbol p) /\
     (mi_kind ev = PositionClosedManually <-> broker_net_for truth (pos_symbol p) = 0) /\
     mi_kind ev <> OrderCancelledManually) /\
  (is_Some (detect_order truth o) <->
   is_terminal (state o) = false /\ broker_order_id o <> "" /\
   (forall b, List.find (same_order o) (rr_orders truth) = Some b -> state b = Cancelled)) /\
  detect (reconcile_positions truth believed) [] truth = [].
Proof.
  destruct (detect_position_spec orders truth p Hp Ht) as [H1 H2]. split_and!; [done|done|apply detect_order_spec|].
  unfold detect. simpl. rewrite app_nil_r. unfold reconcile_positions.
  induction believed as [|q l IH]; [done|]. simpl. destruct (reconciled_net truth q) as [En Es].
  unfold detect_position. rewrite En, Es. set (n := broker_net_for truth (pos_symbol q)).
  destruct (Z.eqb_spec n 0) as [Hz|Hz]; [done|]. case_bool_decide; [set_solver|].
  rewrite xorb_nilpotent, Z.ltb_irrefl. done.
Qed.

Lemma detect_exact_witness :
  let p := mkPosition "NIFTY" (quantity_of 50) (from_paise 10000) in
  let truth := mkReconcileResult [] [] [mkPosition "NIFTY" (quantity_of (-25)) (from_paise 9900)]
    (Risk.mkFunds (from_paise_money 0) (from_paise_money 0)) 1 0 in
  is_Some (detect_position (bot_intent_symbols []) truth p).
Proof.
  intros p truth.
  apply (detect_exact [] truth p (make_order (mkIntent "" "" Buy (quantity_of 0) (from_paise 0) None Market Intraday "") Sent) []).
  - unfold in_range. unfold_ints. simpl. lia.
  - repeat constructor; unfold_ints; simpl; lia.
  - split; [left; vm_compute; split; reflexivity|]. intros (o & Ho & _). by apply elem_of_nil in Ho.
Defined.

(** ** Re-basing *)

Lemma same_position a b :
  String.eqb (pos_symbol a) (pos_symbol b) && bool_decide (net_qty a = net_qty b) &&
  (price_paise (pos_avg_price a) =? price_paise (pos_avg_price b)) = true <-> a = b.
Proof.
  rewrite !andb_true_iff, String.eqb_eq, bool_decide_eq_true, Z.eqb_eq. destruct a as [? ? [?]], b as [? ? [?]]; simpl.
  split; [by intros [[-> ->] ->]|by intros [= -> -> ->]].
Qed.

Lemma quot_abs_le a b : 0 < b -> b * Z.abs (Z.quot a b) <= Z.abs a.
Proof.
  intros. rewrite <- Z.quot_abs by lia. rewrite (Z.abs_eq b) by lia. apply Z.mul_quot_le; lia.
Qed.

Lemma rescaled_le q p n d : 0 < n -> 0 < d ->
  Z.abs (Z.quot (q * n) d * Z.quot (p * d) n) <= Z.abs (q * p).
Proof.
  intros Hn Hd. pose proof (quot_abs_le (q * n) d Hd) as H1. pose proof (quot_abs_le (p * d) n Hn) as H2.
  rewrite !Z.abs_mul in *. rewrite (Z.abs_eq n), (Z.abs_eq d) in * by lia.
  set (a := Z.abs (Z.quot (q * n) d)) in *. set (b := Z.abs (Z.quot (p * d) n)) in *.
  assert (0 <= a /\ 0 <= b) as [Ha Hb] by (subst a b; lia).
  assert (0 <= d * a) by (apply Z.mul_nonneg_nonneg; lia). assert (0 <= n * b) by (apply Z.mul_nonneg_nonneg; lia).
  assert (0 < n * d) as Hnd by (apply Z.mul_pos_pos; lia).
  apply (Z.mul_le_mono_pos_r _ _ _ Hnd).
  replace (a * b * (n * d)) with (d * a * (n * b)) by ring.
  replace (Z.abs q * Z.abs p * (n * d)) with (Z.abs q * n * (Z.abs p * d)) by ring.
  by apply Z.mul_le_mono_nonneg.
Qed.

Lemma rescaled_exact a d : 0 < d -> Z.rem a d = 0 <-> Z.quot a d * d = a.
Proof. intros. pose proof (Z.quot_rem' a d). nia. Qed.

Lemma rescaled_value q p n d : 0 < n -> 0 < d ->
  Z.quot (q * n) d * d = q * n -> Z.quot (p * d) n * n = p * d -> Z.quot (q * n) d * Z.quot (p * d) n = q * p.
Proof.
  intros Hn Hd H1 H2. apply (Z.mul_reg_r _ _ (n * d)); [nia|].
  transitivity ((Z.quot (q * n) d * d) * (Z.quot (p * d) n * n)); [ring|]. rewrite H1, H2. ring.
Qed.

(** Corporate actions: a change is called one exactly when a configured source
    has an action whose re-basing is what the broker now shows; without a source
    an Error alert says that nothing can be classified. For a strictly positive
    ratio whose products fit in 64 bits the re-based position is never worth more
    than the believed one, and exactly as much when both divisions are exact;
    the outcome says when the quantity was not. Any other ratio changes nothing. *)
Theorem classify_exact source believed observed ca
    (Hq : is_int64 (quantity_value (net_qty believed) * qty_num ca))
    (Hp : is_int64 (price_paise (pos_avg_price believed) * qty_den ca)) :
  let q := quantity_value (net_qty believed) in
  let p := price_paise (pos_avg_price believed) in
  let r := rebase believed ca in
  (is_corporate_action (classify_change source believed observed).1 = true <->
     believed <> observed /\ exists f a, source = Some f /\ f (pos_symbol believed) = Some a /\ rebase believed a = observed) /\
  (source_missing (classify_change source believed observed).1 = true <-> source = None /\ believed <> observed) /\
  (0 < qty_num ca -> 0 < qty_den ca ->
     Z.abs (quantity_value (net_qty r) * price_paise (pos_avg_price r)) <= Z.abs (q * p) /\
     (divides_exactly q (qty_num ca) (qty_den ca) = true <-> quantity_value (net_qty r) * qty_den ca = q * qty_num ca) /\
     (divides_exactly q (qty_num ca) (qty_den ca) = true -> (qty_num ca | p * qty_den ca) ->
        quantity_value (net_qty r) * price_paise (pos_avg_price r) = q * p)) /\
  (qty_num ca <= 0 \/ qty_den ca <= 0 -> net_qty r = net_qty believed /\ pos_avg_price r = pos_avg_price believed).
Proof.
  intros q p r. split_and!.
  - unfold classify_change. destruct (bool_decide_reflect (believed = observed)) as [->|Hne]; [simpl; naive_solver|].
    destruct source as [f|]; [|simpl; naive_solver]. destruct (f (pos_symbol believed)) as [a|] eqn:Ea; [|simpl; naive_solver].
    pose proof (same_position (rebase believed a) observed) as Hs. cbv zeta. destruct (_ && _ && _); simpl; [|naive_solver].
    split; [|done]. intros _. split; [done|]. exists f, a. split_and!; try done. by apply Hs.
  - unfold classify_change. destruct (bool_decide_reflect (believed = observed)) as [->|Hne]; [simpl; naive_solver|].
    destruct source as [f|]; [|simpl; naive_solver]. destruct (f (pos_symbol believed)) as [a|]; [|simpl; naive_solver].
    cbv zeta. destruct (_ && _ && _); simpl; naive_solver.
  - intros Hn Hd. assert (quantity_value (net_qty r) = Z.quot (q * qty_num ca) (qty_den ca) /\
      price_paise (pos_avg_price r) = Z.quot (p * qty_den ca) (qty_num ca)) as [-> ->].
    { subst r. unfold rebase. cbv zeta. rewrite (proj2 (Z.ltb_lt _ _) Hn), (proj2 (Z.ltb_lt _ _) Hd), !to_i64_small by done. done. }
    unfold divides_exactly. rewrite (proj2 (Z.eqb_neq (qty_den ca) 0)), to_i64_small, Z.eqb_eq by (done || lia).
    split_and!; [by apply rescaled_le|by apply rescaled_exact|]. intros H1 H2.
    apply rescaled_value; [done..|by apply rescaled_exact|]. apply rescaled_exact; [done|]. apply Z.rem_divide; [lia|done].
  - intros Hbad. subst r. unfold rebase. cbv zeta.
    replace ((0 <? qty_num ca) && (0 <? qty_den ca)) with false; [by destruct believed as [? [?] [?]]|].
    symmetry. apply andb_false_iff. rewrite !Z.ltb_ge. lia.
Qed.

Lemma classify_exact_witness :
  let believed := mkPosition "INFY" (quantity_of 15) (from_paise 3000) in
  let ca := mkCorporateAction "INFY" Bonus 3 2 "" 0 in
  (classify_change (Some (fun _ => Some ca)) believed (mkPosition "INFY" (quantity_of 22) (from_paise 2000))).1 =
  mkCorporateOutcome true false (Some (mkPosition "INFY" (quantity_of 22) (from_paise 2000)))
    "Bonus 3:2 on INFY (qty truncated: non-divisible re-base)" /\
  Z.abs (quantity_value (net_qty (rebase believed ca)) * price_paise (pos_avg_price (rebase believed ca))) <= 15 * 3000.
Proof.
  intros believed ca. split; [vm_compute; reflexivity|].
  apply (classify_exact None believed believed ca); unfold_ints; simpl; lia.
Defined.
