(* ===== verification/Supervisor.v ===== *)
(** * Supervisor: restart decisions for many accounts
    (src/src/supervisor/supervisor_policy.cpp, supervisor_plan.cpp)

    The policy for one exit and the plan that keeps a record per account. *)

From S2P Require Import Prelude.

(** ** The policy *)

Inductive ExitReason := CleanShutdown | Crash | FailClosedNeedsHuman.
Inductive SupervisorAction := RestartWithBackoff | NoRestartCleanShutdown | NoRestartEscalate.

#[export] Instance ExitReason_eq_dec : EqDecision ExitReason.
Proof. solve_decision. Defined.
#[export] Instance SupervisorAction_eq_dec : EqDecision SupervisorAction.
Proof. solve_decision. Defined.

Definition kExitClean : Z := 0.
Definition kExitFailClosedNeedsHuman : Z := 70.

Record BackoffConfig := mkBackoff { base_seconds : Z; max_seconds : Z; max_consecutive_restarts : Z }.

Record SupervisorDecision := mkDecision {
  sd_action : SupervisorAction; backoff_seconds : Z; raise_absence_alarm : bool; sd_detail : string }.

Definition exit_reason_from_code (exit_code : Z) : ExitReason :=
  if exit_code =? kExitClean then CleanShutdown
  else if exit_code =? kExitFailClosedNeedsHuman then FailClosedNeedsHuman
  else Crash.

Definition exit_reason_to_string (r : ExitReason) : string :=
  match r with
  | CleanShutdown => "clean_shutdown"
  | Crash => "crash"
  | FailClosedNeedsHuman => "fail_closed_needs_human"
  end.

Definition supervisor_action_to_string (a : SupervisorAction) : string :=
  match a with
  | RestartWithBackoff => "restart_with_backoff"
  | NoRestartCleanShutdown => "no_restart_clean_shutdown"
  | NoRestartEscalate => "no_restart_escalate"
  end.

Definition backoff_for (consecutive_crashes : Z) (cfg : BackoffConfig) : Z :=
  let base := if 0 <? base_seconds cfg then base_seconds cfg else 1 in
  let cap := if base <=? max_seconds cfg then max_seconds cfg else base in
  if consecutive_crashes <=? 1 then base
  else capped_doubling (Z.to_nat (consecutive_crashes - 1)) cap base.

Definition decide (reason : ExitReason) (consecutive_crashes : Z) (cfg : BackoffConfig) : SupervisorDecision :=
  match reason with
  | CleanShutdown =>
      mkDecision NoRestartCleanShutdown 0 false "clean shutdown - intended stop, no restart"
  | FailClosedNeedsHuman =>
      mkDecision NoRestartEscalate 0 true "fail-closed: human required - no auto-restart, absence alarm raised"
  | Crash =>
      if max_consecutive_restarts cfg <? consecutive_crashes
      then mkDecision NoRestartEscalate 0 true
             ("crash-loop circuit-breaker tripped after " +:+ pretty consecutive_crashes +:+
              " consecutive crashes - escalated")
      else
        let backoff := backoff_for consecutive_crashes cfg in
        mkDecision RestartWithBackoff backoff false ("crash - restarting after " +:+ pretty backoff +:+ "s backoff")
  end.

(** ** The plan *)

(** Times are monotonic nanoseconds. *)
Record AccountSupervision := mkAccount {
  consecutive_crashes : Z;
  down : bool;
  absence_alarm : bool;
  sup_escalated : bool;
  last_exit_code : Z;
  last_reason : ExitReason;
  restart_due : option Z;
}.

Definition fresh_account : AccountSupervision := mkAccount 0 true false false 0 CleanShutdown None.

Abbreviation accounts_map := (gmap string AccountSupervision).

Record SupervisorPlan := mkPlan { backoff : BackoffConfig; accounts : accounts_map }.

Definition second_ns : Z := 10 ^ 9.

Definition set_accounts (m : accounts_map) (p : SupervisorPlan) : SupervisorPlan := mkPlan (backoff p) m.

Definition register_account (p : SupervisorPlan) (id : string) : bool * SupervisorPlan :=
  if String.eqb id "" then (false, p)
  else (true, match accounts p !! id with
              | Some _ => p
              | None => set_accounts (<[id := fresh_account]> (accounts p)) p
              end).

(** The record after an exit, and the decision. [++consecutive_crashes] is on an
    [int] in the code and here on an unbounded one: they part only after 2^31 crash
    exits of one account without a reset, where the code's increment overflows. *)
Definition account_exit (cfg : BackoffConfig) (a : AccountSupervision) (exit_code now : Z) :
    SupervisorDecision * AccountSupervision :=
  let reason := exit_reason_from_code exit_code in
  let crashes := match reason with
                 | Crash => consecutive_crashes a + 1
                 | CleanShutdown => 0
                 | FailClosedNeedsHuman => consecutive_crashes a
                 end in
  let d := decide reason crashes cfg in
  (d, mkAccount crashes true
        (if raise_absence_alarm d then true else absence_alarm a)
        (if bool_decide (sd_action d = NoRestartEscalate) then true else sup_escalated a)
        exit_code reason
        (if bool_decide (sd_action d = RestartWithBackoff) then Some (now + backoff_seconds d * second_ns) else None)).

Definition on_exit (p : SupervisorPlan) (id : string) (exit_code now : Z) : SupervisorDecision * SupervisorPlan :=
  if String.eqb id ""
  then (mkDecision NoRestartEscalate 0 true "empty account id - cannot attribute exit, escalated", p)
  else
    let a := default fresh_account (accounts p !! id) in
    let '(d, a') := account_exit (backoff p) a exit_code now in
    (d, set_accounts (<[id := a']> (accounts p)) p).

Definition note_started (p : SupervisorPlan) (id : string) : SupervisorPlan :=
  if String.eqb id "" then p
  else
    let a := default fresh_account (accounts p !! id) in
    set_accounts (<[id := mkAccount (consecutive_crashes a) false (absence_alarm a) (sup_escalated a)
                            (last_exit_code a) (last_reason a) None]> (accounts p)) p.

Definition note_healthy (p : SupervisorPlan) (id : string) : SupervisorPlan :=
  match accounts p !! id with
  | None => p
  | Some a => set_accounts (<[id := mkAccount 0 (down a) false false (last_exit_code a) (last_reason a) (restart_due a)]> (accounts p)) p
  end.

Definition clear_alarm (p : SupervisorPlan) (id : string) : SupervisorPlan :=
  match accounts p !! id with
  | None => p
  | Some a => set_accounts (<[id := mkAccount (consecutive_crashes a) (down a) false false (last_exit_code a)
                                      (last_reason a) (restart_due a)]> (accounts p)) p
  end.

Definition may_restart (p : SupervisorPlan) (id : string) (now : Z) : bool :=
  match accounts p !! id with
  | None => false
  | Some a =>
      if negb (down a) || sup_escalated a then false
      else match restart_due a with
           | None => false
           | Some due => due <=? now
           end
  end.

Definition state_of (p : SupervisorPlan) (id : string) : option AccountSupervision := accounts p !! id.

Record PlanSummary := mkSummary {
  accounts_total : Z; accounts_down : Z; accounts_alarmed : Z; accounts_escalated : Z; any_escalated : bool }.

Definition count_accounts (f : AccountSupervision -> bool) (p : SupervisorPlan) : Z :=
  Z.of_nat (length (List.filter f (map_to_list (accounts p)).*2)).

Definition summary (p : SupervisorPlan) : PlanSummary :=
  let escalated := count_accounts sup_escalated p in
  mkSummary (Z.of_nat (size (accounts p))) (count_accounts down p) (count_accounts absence_alarm p) escalated
    (0 <? escalated).

(** ** The backoff *)

Lemma backoff_for_spec n cfg (base := Z.max 1 (base_seconds cfg)) (cap := Z.max base (max_seconds cfg)) :
  backoff_for n cfg = if n <=? 1 then base else Z.min cap (base * 2 ^ (n - 1)).
Proof.
  unfold backoff_for. cbv zeta.
  replace (if 0 <? base_seconds cfg then base_seconds cfg else 1) with base by (subst base; destruct (Z.ltb_spec 0 (base_seconds cfg)); lia).
  replace (if base <=? max_seconds cfg then max_seconds cfg else base) with cap by (subst cap; destruct (Z.leb_spec base (max_seconds cfg)); lia).
  destruct (Z.leb_spec n 1); [done|]. rewrite capped_doubling_spec by (subst base cap; lia). by rewrite Z2Nat.id by lia.
Qed.

(** ** Runs of the plan *)

Inductive plan_op :=
  | OpRegister (id : string)
  | OpExit (id : string) (code now : Z)
  | OpStarted (id : string)
  | OpHealthy (id : string)
  | OpClear (id : string).

Definition op_account (o : plan_op) : string :=
  match o with
  | OpRegister id | OpExit id _ _ | OpStarted id | OpHealthy id | OpClear id => id
  end.

(** One call and the decision it returned, if it is one that decides. *)
Definition run_op (p : SupervisorPlan) (o : plan_op) : option SupervisorDecision * SupervisorPlan :=
  match o with
  | OpRegister id => (None, (register_account p id).2)
  | OpExit id code now => let '(d, p') := on_exit p id code now in (Some d, p')
  | OpStarted id => (None, note_started p id)
  | OpHealthy id => (None, note_healthy p id)
  | OpClear id => (None, clear_alarm p id)
  end.

Fixpoint run_ops (p : SupervisorPlan) (ops : list plan_op) : list (plan_op * option SupervisorDecision) * SupervisorPlan :=
  match ops with
  | [] => ([], p)
  | o :: rest =>
      let '(d, p1) := run_op p o in
      let '(ds, p2) := run_ops p1 rest in ((o, d) :: ds, p2)
  end.

Definition for_account (id : string) (o : plan_op) : bool := String.eqb (op_account o) id.

(** The plans agree on the account. *)
Definition same_account (id : string) (p q : SupervisorPlan) : Prop :=
  backoff p = backoff q /\ accounts p !! id = accounts q !! id.

#[local] Ltac by_account :=
  repeat match goal with
  | |- context [String.eqb ?a ""] => destruct (String.eqb_spec a ""); simpl; try done
  | |- context [match ?m !! ?k with _ => _ end] => destruct (m !! k) eqn:?; simpl; try done
  end.

#[local] Ltac destruct_all := try destruct (account_exit _ _ _ _).

Lemma op_other p o id : op_account o <> id ->
  backoff (run_op p o).2 = backoff p /\ accounts (run_op p o).2 !! id = accounts p !! id.
Proof.
  intros Hne. destruct o as [i|i c n|i|i|i]; simpl in *;
    unfold register_account, on_exit, note_started, note_healthy, clear_alarm; by_account;
    destruct_all; simpl; (split; [done|]); by rewrite ?lookup_insert_ne.
Qed.

Lemma op_same p q o : same_account (op_account o) p q ->
  (run_op p o).1 = (run_op q o).1 /\ same_account (op_account o) (run_op p o).2 (run_op q o).2.
Proof.
  intros [Hb Ha]. unfold same_account. destruct o as [i|i c n|i|i|i]; simpl in *;
    unfold register_account, on_exit, note_started, note_healthy, clear_alarm; rewrite <- ?Hb, <- ?Ha; by_account;
    destruct_all; simpl in *; rewrite ?lookup_insert_eq; split_and!; congruence.
Qed.

(** The other accounts have no say: an account's record and the decisions
    for it are those of the run of its own calls alone. *)
Lemma run_ops_filter id ops : forall p q, same_account id p q ->
  List.filter (fun od => for_account id od.1) (run_ops p ops).1 = (run_ops q (List.filter (for_account id) ops)).1
  /\ same_account id (run_ops p ops).2 (run_ops q (List.filter (for_account id) ops)).2.
Proof.
  induction ops as [|o ops IH]; intros p q Hs; [done|]. cbn [run_ops List.filter].
  destruct (run_op p o) as [d p1] eqn:Ep. destruct (run_ops p1 ops) as [ds p2] eqn:Er.
  cbn [fst snd List.filter]. destruct (for_account id o) eqn:Hf.
  - apply String.eqb_eq in Hf. subst id. destruct (op_same p q o Hs) as [Hd Hs1]. rewrite Ep in Hd, Hs1.
    cbn [run_ops]. destruct (run_op q o) as [d' q1]. simpl in Hd, Hs1. subst d'.
    specialize (IH p1 q1 Hs1). rewrite Er in IH. destruct (run_ops q1 _) as [ds' q2]. simpl in *.
    by destruct IH as [-> ?].
  - apply String.eqb_neq in Hf. destruct (op_other p o id Hf) as [Hb Ha]. rewrite Ep in Hb, Ha.
    specialize (IH p1 q). rewrite Er in IH. apply IH. destruct Hs. simpl in *. split; congruence.
Qed.

(** ** Crash loops *)

Definition restarts (d : option SupervisorDecision) : bool :=
  match d with Some d => bool_decide (sd_action d = RestartWithBackoff) | None => false end.

(** The calls on an account that reset its crash counter. *)
Definition resets (id : string) (o : plan_op) : bool :=
  match o with
  | OpExit i code _ => String.eqb i id && (code =? kExitClean)
  | OpHealthy i => String.eqb i id
  | OpRegister _ | OpStarted _ | OpClear _ => false
  end.

Definition crash_count (p : SupervisorPlan) (id : string) : Z :=
  default 0 (consecutive_crashes <$> accounts p !! id).

Definition restart_count (id : string) (ds : list (plan_op * option SupervisorDecision)) : Z :=
  Z.of_nat (length (List.filter (fun od => for_account id od.1 && restarts od.2) ds)).

Lemma crash_count_insert id a p : crash_count (set_accounts (<[id := a]> (accounts p)) p) id = consecutive_crashes a.
Proof. unfold crash_count. simpl. by rewrite lookup_insert_eq. Qed.

Lemma crash_count_default p id : consecutive_crashes (default fresh_account (accounts p !! id)) = crash_count p id.
Proof. unfold crash_count. by destruct (accounts p !! id). Qed.

(** A call on the account moves the counter by at most the restart it orders. *)
Lemma op_crash_count p o id : resets id o = false -> op_account o = id ->
  (crash_count (run_op p o).2 id = crash_count p id /\ restarts (run_op p o).1 = false)
  \/ (crash_count (run_op p o).2 id = crash_count p id + 1
      /\ (restarts (run_op p o).1 = true -> crash_count p id < max_consecutive_restarts (backoff p))).
Proof.
  intros Hr <-. destruct o as [i|i c n|i|i|i]; simpl in *.
  - left. split; [|done]. unfold register_account. destruct (String.eqb i ""); [done|].
    destruct (accounts p !! i) eqn:E; [done|]. cbn [snd]. rewrite crash_count_insert. unfold crash_count. by rewrite E.
  - rewrite String.eqb_refl in Hr. unfold on_exit. destruct (String.eqb i ""); [by left|].
    unfold account_exit. rewrite crash_count_default. unfold exit_reason_from_code.
    simpl in Hr. rewrite Hr. destruct (c =? kExitFailClosedNeedsHuman); cbn [fst snd].
    + left. by rewrite crash_count_insert.
    + right. rewrite crash_count_insert. split; [done|]. unfold decide.
      destruct (Z.ltb_spec (max_consecutive_restarts (backoff p)) (crash_count p i + 1)); [done|]. intros _. lia.
  - left. split; [|done]. unfold note_started. destruct (String.eqb i ""); [done|].
    by rewrite crash_count_insert, crash_count_default.
  - by rewrite String.eqb_refl in Hr.
  - left. split; [|done]. unfold clear_alarm. destruct (accounts p !! i) eqn:E; [|done].
    rewrite crash_count_insert. unfold crash_count. by rewrite E.
Qed.

Lemma run_op_backoff p o : backoff (run_op p o).2 = backoff p.
Proof.
  destruct o as [i|i c n|i|i|i]; simpl;
    unfold register_account, on_exit, note_started, note_healthy, clear_alarm; by_account; destruct_all; done.
Qed.

(** ** Properties *)

(** The backoff after [n] consecutive crashes is the base doubled [n - 1]
    times and capped, with a base below 1 s read as 1 s and a cap below the
    base read as the base; in between, no [int] overflows: every value the
    loop assigns stays between the base and the cap. *)
Theorem backoff_exact n cfg (base := Z.max 1 (base_seconds cfg)) (cap := Z.max base (max_seconds cfg)) :
  backoff_for n cfg = (if n <=? 1 then base else Z.min cap (base * 2 ^ (n - 1)))
  /\ base <= backoff_for n cfg <= cap
  /\ forall k, base <= capped_doubling k cap base <= cap.
Proof.
  assert (Hb : 0 < base <= cap) by (subst base cap; lia).
  assert (Hp : forall k, 0 <= k -> base <= Z.min cap (base * 2 ^ k) <= cap).
  { intros k Hk. assert (1 <= 2 ^ k) by (apply (Z.pow_le_mono_r 2 0); lia). nia. }
  rewrite backoff_for_spec. fold base cap. split_and!; [done|..].
  1,2: destruct (Z.leb_spec n 1); [lia|]; apply (Hp (n - 1)); lia.
  intros k. rewrite capped_doubling_spec by done. apply Hp. lia.
Qed.

(** The accounts are isolated: however the calls of many accounts are
    interleaved, the decisions for one account and the record it ends with
    are those of its own calls run alone. *)
Theorem plan_isolated p ops id :
  List.filter (fun od => for_account id od.1) (run_ops p ops).1 = (run_ops p (List.filter (for_account id) ops)).1
  /\ state_of (run_ops p ops).2 id = state_of (run_ops p (List.filter (for_account id) ops)).2 id.
Proof. edestruct (run_ops_filter id ops p p) as [? [? ?]]; [done|]. by split. Qed.

(** C29: A crash loop is broken: as long as the account neither exits cleanly
    nor is reported healthy, the plan orders at most as many restarts as the
    configured maximum leaves above the crashes already counted, whatever the
    other accounts do and however often the alarm is cleared by hand. *)
Theorem crash_loop_bounded p ops id : forallb (fun o => negb (resets id o)) ops = true ->
  restart_count id (run_ops p ops).1 <= Z.max 0 (max_consecutive_restarts (backoff p) - crash_count p id).
Proof.
  revert p. induction ops as [|o ops IH]; intros p Hr; [unfold restart_count; simpl; lia|].
  simpl in Hr. apply andb_prop in Hr as [Ho Hr]. apply negb_true_iff in Ho.
  pose proof (run_op_backoff p o) as Hbk. specialize (IH (run_op p o).2 Hr). cbn [run_ops].
  pose proof (op_crash_count p o id Ho) as Hstep. pose proof (op_other p o id) as Hother.
  destruct (run_op p o) as [d p1]. cbn [fst snd] in *. destruct (run_ops p1 ops) as [ds p2].
  cbn [fst snd] in *. rewrite Hbk in IH. unfold restart_count in *. cbn [List.filter fst snd].
  unfold for_account at 1. destruct (String.eqb_spec (op_account o) id) as [He|He]; cbn [andb].
  - destruct (Hstep He) as [[Hc Hd]|[Hc Hd]].
    + rewrite Hd. lia.
    + destruct (restarts d); cbn [length]; [specialize (Hd eq_refl)|]; lia.
  - assert (crash_count p1 id = crash_count p id) as <- by (unfold crash_count; destruct (Hother He) as [_ ->]; done).
    done.
Qed.

Lemma crash_loop_bounded_witness (p := mkPlan (mkBackoff 1 60 2) ∅)
    (ops := [OpExit "a" 1 0; OpExit "a" 1 10; OpClear "a"; OpExit "b" 0 5; OpExit "a" 139 20]) :
  forallb (fun o => negb (resets "a" o)) ops = true
  /\ restart_count "a" (run_ops p ops).1 <= Z.max 0 (max_consecutive_restarts (backoff p) - crash_count p "a")
  /\ restart_count "a" (run_ops p ops).1 = 2.
Proof. split; [reflexivity|]. split; [apply (crash_loop_bounded p ops "a"); reflexivity|vm_compute; reflexivity]. Defined.

(** An account still inside its window may not be restarted; one past it may. *)
Example restart_window (p := mkPlan (mkBackoff 2 60 2) ∅) (q := (on_exit p "a" 1 0).2) :
  map (may_restart q "a") [0; 2 * second_ns - 1; 2 * second_ns] = [false; false; true]
  /\ map (fun ops => may_restart (run_ops q ops).2 "a" (10 ^ 12))
       [[OpStarted "a"]; [OpExit "a" 70 0]; [OpExit "a" 70 0; OpClear "a"]; [OpExit "b" 70 0]]
     = [false; false; false; true].
Proof. by vm_compute. Qed.
