(* ===== verification/RateLimit.v ===== *)
(** * RateLimit: the token bucket with an exit lane, the circuit breaker and
    the endpoint limiter (src/src/ratelimit/rate_limiter.cpp,
    endpoint_limiter.cpp)

    The clock is an argument: an operation takes the monotonic times, in
    nanoseconds, that it reads. *)

From S2P Require Import Prelude Errors.

(** ** The token bucket *)

Definition ms_ns : Z := 10 ^ 6.
Definition second_of_ns : Z := 10 ^ 9.

(** [refill_period] is in milliseconds. *)
Record RateLimiter := mkLimiter {
  capacity : Z; reserved_exit : Z; refill_period : Z; tokens : Z; last_refill : Z }.

Definition clamp_reserved (r cap : Z) : Z :=
  if r <? 0 then 0 else if cap <? r then cap else r.

Definition new_limiter (cap period reserved now : Z) : RateLimiter :=
  let c := if cap <? 0 then 0 else cap in
  mkLimiter c (clamp_reserved reserved c) (if 0 <? period then period else 0) c now.

Definition refill_ (b : RateLimiter) (now : Z) : RateLimiter :=
  if refill_period b <=? 0 then b
  else
    let elapsed := now - last_refill b in
    if elapsed <=? 0 then b
    else
      let whole_periods := Z.quot elapsed (refill_period b * ms_ns) in
      if whole_periods <=? 0 then b
      else
        let headroom := capacity b - tokens b in
        let gain := if 0 <? headroom then if whole_periods <? headroom then whole_periods else headroom else 0 in
        mkLimiter (capacity b) (reserved_exit b) (refill_period b) (tokens b + gain)
          (last_refill b + whole_periods * (refill_period b * ms_ns)).

Definition lane_floor (b : RateLimiter) (is_exit : bool) : Z := if is_exit then 0 else reserved_exit b.

Definition take_token (b : RateLimiter) : RateLimiter :=
  mkLimiter (capacity b) (reserved_exit b) (refill_period b) (tokens b - 1) (last_refill b).

Definition try_acquire (b : RateLimiter) (is_exit : bool) (now : Z) : bool * RateLimiter :=
  let b := refill_ b now in
  if lane_floor b is_exit <? tokens b then (true, take_token b) else (false, b).

Definition bucket_acquire (b : RateLimiter) (is_exit : bool) (now : Z) : result unit * RateLimiter :=
  let '(granted, b') := try_acquire b is_exit now in
  if granted then (Ok tt, b')
  else (Err (set_action RetrySafe
               (make_error RateLimited
                  (if is_exit then "rate limiter: throttled (exit lane)" else "rate limiter: throttled (entry lane)")
                  "")), b').

Definition available (b : RateLimiter) (is_exit : bool) : Z :=
  let avail := tokens b - lane_floor b is_exit in if 0 <? avail then avail else 0.

Definition peek (b : RateLimiter) (is_exit : bool) (now : Z) : Z * RateLimiter :=
  let b := refill_ b now in (available b is_exit, b).

(** ** The circuit breaker *)

Record BreakerConfig := mkBreakerConfig {
  trip_after_consecutive_429 : Z; base_cooldown_seconds : Z; max_cooldown_seconds : Z }.

Record CircuitBreaker := mkBreaker {
  br_cfg : BreakerConfig; consecutive_429 : Z; trips : Z; open_until : Z }.

Definition int_max : Z := 2 ^ 31 - 1.

Definition new_breaker (cfg : BreakerConfig) (now : Z) : CircuitBreaker := mkBreaker cfg 0 0 now.

Definition cooldown_seconds_for (cfg : BreakerConfig) (n : Z) : Z :=
  let base := if 0 <? base_cooldown_seconds cfg then base_cooldown_seconds cfg else 1 in
  let cap := if base <=? max_cooldown_seconds cfg then max_cooldown_seconds cfg else base in
  if n <=? 1 then base else capped_doubling (Z.to_nat (n - 1)) cap base.

Definition saturating_succ (n : Z) : Z := if n <? int_max then n + 1 else n.

Definition record_429 (b : CircuitBreaker) (now : Z) : CircuitBreaker :=
  let threshold := if 0 <? trip_after_consecutive_429 (br_cfg b) then trip_after_consecutive_429 (br_cfg b) else 1 in
  let c := saturating_succ (consecutive_429 b) in
  if threshold <=? c then
    let t := saturating_succ (trips b) in
    mkBreaker (br_cfg b) c t (now + cooldown_seconds_for (br_cfg b) t * second_of_ns)
  else mkBreaker (br_cfg b) c (trips b) (open_until b).

Definition record_success (b : CircuitBreaker) (now : Z) : CircuitBreaker := mkBreaker (br_cfg b) 0 0 now.

Definition is_open (b : CircuitBreaker) (now : Z) : bool := now <? open_until b.

(** ** The endpoint limiter *)

Inductive EndpointClass := EpOrder | EpQuote | EpHistorical | EpOther.

#[export] Instance EndpointClass_eq_dec : EqDecision EndpointClass.
Proof. solve_decision. Defined.

Definition endpoint_to_string (ep : EndpointClass) : string :=
  match ep with EpOrder => "order" | EpQuote => "quote" | EpHistorical => "historical" | EpOther => "other" end.

Record EndpointLimits := mkLimits {
  order_per_sec : Z; quote_per_sec : Z; historical_per_sec : Z; other_per_sec : Z; reserved_exit_order : Z }.

Definition refill_period_for (per_sec : Z) : Z := if per_sec <=? 0 then 0 else Z.quot 1000 per_sec.

Definition order_capacity (l : EndpointLimits) : Z :=
  let reserved_floor := if 0 <? reserved_exit_order l then reserved_exit_order l else 0 in
  let cap := if reserved_floor <? order_per_sec l then order_per_sec l else reserved_floor in
  if 0 <? cap then cap else 1.

(** A bucket and a breaker per class; [bucket_for] and [breaker_for] select
    them by the class. *)
Record EndpointRateLimiter := mkEndpoint {
  bucket_for : EndpointClass -> RateLimiter; breaker_for : EndpointClass -> CircuitBreaker }.

Definition new_endpoint (l : EndpointLimits) (cfg : BreakerConfig) (now : Z) : EndpointRateLimiter :=
  mkEndpoint
    (fun ep => match ep with
               | EpOrder => new_limiter (order_capacity l) (refill_period_for (order_capacity l)) (reserved_exit_order l) now
               | EpQuote => new_limiter (quote_per_sec l) (refill_period_for (quote_per_sec l)) 0 now
               | EpHistorical => new_limiter (historical_per_sec l) (refill_period_for (historical_per_sec l)) 0 now
               | EpOther => new_limiter (other_per_sec l) (refill_period_for (other_per_sec l)) 0 now
               end)
    (fun _ => new_breaker cfg now).

Definition set_bucket (ep : EndpointClass) (b : RateLimiter) (e : EndpointRateLimiter) : EndpointRateLimiter :=
  mkEndpoint (fun k => if bool_decide (k = ep) then b else bucket_for e k) (breaker_for e).

Definition set_breaker (ep : EndpointClass) (b : CircuitBreaker) (e : EndpointRateLimiter) : EndpointRateLimiter :=
  mkEndpoint (bucket_for e) (fun k => if bool_decide (k = ep) then b else breaker_for e k).

(** The breaker and the bucket read the clock one after the other. *)
Definition acquire (e : EndpointRateLimiter) (ep : EndpointClass) (is_exit : bool) (now_breaker now_bucket : Z) :
    result unit * EndpointRateLimiter :=
  if negb is_exit && is_open (breaker_for e ep) now_breaker then
    (Err (set_action DoNotRetry
            (make_error RiskRejected
               ("endpoint rate limiter: circuit breaker open for endpoint '" +:+ endpoint_to_string ep +:+
                "' - entry blocked") "")), e)
  else
    let '(r, b) := bucket_acquire (bucket_for e ep) is_exit now_bucket in (r, set_bucket ep b e).

Definition endpoint_429 (e : EndpointRateLimiter) (ep : EndpointClass) (now : Z) : EndpointRateLimiter :=
  set_breaker ep (record_429 (breaker_for e ep) now) e.

Definition endpoint_success (e : EndpointRateLimiter) (ep : EndpointClass) (now : Z) : EndpointRateLimiter :=
  set_breaker ep (record_success (breaker_for e ep) now) e.

Definition breaker_open (e : EndpointRateLimiter) (ep : EndpointClass) (now : Z) : bool :=
  is_open (breaker_for e ep) now.

(** ** The bucket's invariant *)

Definition bucket_ok (b : RateLimiter) : Prop :=
  0 <= reserved_exit b <= capacity b /\ 0 <= refill_period b /\ 0 <= tokens b <= capacity b.

(** What a refill does, without its early returns. *)
Lemma refill_view b now : bucket_ok b ->
  exists k, 0 <= k /\ refill_ b now
    = mkLimiter (capacity b) (reserved_exit b) (refill_period b)
        (Z.min (capacity b) (tokens b + k)) (last_refill b + k * (refill_period b * ms_ns))
    /\ (0 < k -> 0 < refill_period b /\ last_refill b + k * (refill_period b * ms_ns) <= now).
Proof.
  intros (Hr & Hp & Ht). unfold refill_.
  assert (Hid : b = mkLimiter (capacity b) (reserved_exit b) (refill_period b)
      (Z.min (capacity b) (tokens b + 0)) (last_refill b + 0 * (refill_period b * ms_ns))).
  { destruct b; simpl in *. f_equal; lia. }
  destruct (Z.leb_spec (refill_period b) 0); [exists 0; split_and!; [lia|done|lia]|].
  destruct (Z.leb_spec (now - last_refill b) 0); [exists 0; split_and!; [lia|done|lia]|].
  set (q := Z.quot _ _). destruct (Z.leb_spec q 0); [exists 0; split_and!; [lia|done|lia]|].
  exists q. split_and!; [lia| |].
  - f_equal. destruct (Z.ltb_spec 0 (capacity b - tokens b)); [destruct (Z.ltb_spec q (capacity b - tokens b))|]; lia.
  - intros _. split; [done|]. assert (0 < refill_period b * ms_ns) by (unfold ms_ns; lia).
    pose proof (Z.mul_quot_le (now - last_refill b) (refill_period b * ms_ns)). fold q in H3. lia.
Qed.

Lemma refill_ok b now : bucket_ok b -> bucket_ok (refill_ b now).
Proof.
  intros Hb. destruct (refill_view b now Hb) as (k & Hk & -> & _). destruct Hb as (? & ? & ?).
  unfold bucket_ok. simpl. lia.
Qed.

Lemma try_acquire_ok b x now : bucket_ok b -> bucket_ok (try_acquire b x now).2.
Proof.
  intros Hb. pose proof (refill_ok b now Hb) as (? & ? & ?). unfold try_acquire.
  destruct (Z.ltb_spec (lane_floor (refill_ b now) x) (tokens (refill_ b now))) as [Hl|]; [|by simpl].
  unfold bucket_ok, lane_floor in *. simpl. destruct x; lia.
Qed.

Lemma new_limiter_ok cap period reserved now : bucket_ok (new_limiter cap period reserved now).
Proof.
  unfold bucket_ok, new_limiter, clamp_reserved. simpl.
  destruct (Z.ltb_spec cap 0), (Z.ltb_spec 0 period), (Z.ltb_spec reserved 0);
    repeat case_match; lia.
Qed.

(** The constants of a bucket never change. *)
Lemma try_acquire_consts b x now :
  capacity (try_acquire b x now).2 = capacity b /\ reserved_exit (try_acquire b x now).2 = reserved_exit b
  /\ refill_period (try_acquire b x now).2 = refill_period b.
Proof. unfold try_acquire, refill_. repeat case_match; done. Qed.

(** ** Runs of a bucket *)

Fixpoint run_bucket (b : RateLimiter) (reqs : list (bool * Z)) : list bool * RateLimiter :=
  match reqs with
  | [] => ([], b)
  | (x, now) :: rest =>
      let '(g, b1) := try_acquire b x now in
      let '(gs, b2) := run_bucket b1 rest in (g :: gs, b2)
  end.

Definition granted (gs : list bool) : Z := Z.of_nat (length (List.filter id gs)).

(** The latest time of a run, or [t]. *)
Definition latest (t : Z) (reqs : list (bool * Z)) : Z := fold_right (fun r m => Z.max (snd r) m) t reqs.

Lemma granted_cons g gs : granted (g :: gs) = (if g then 1 else 0) + granted gs.
Proof. unfold granted. destruct g; cbn [List.filter id length]; lia. Qed.

(** A grant costs a token and a refill costs the time it is for: the
    potential [tokens * period - last_refill] only falls. *)
Definition potential (b : RateLimiter) : Z := tokens b * (refill_period b * ms_ns) - last_refill b.

Lemma try_acquire_potential b x now : bucket_ok b ->
  potential (try_acquire b x now).2 + (if (try_acquire b x now).1 then refill_period b * ms_ns else 0) <= potential b
  /\ last_refill (try_acquire b x now).2 <= Z.max now (last_refill b).
Proof.
  intros Hb. destruct (refill_view b now Hb) as (k & Hk & Hre & Hlast). destruct Hb as (? & Hp & ?).
  assert (0 <= refill_period b * ms_ns) by (unfold ms_ns; lia).
  assert (Hl : last_refill b + k * (refill_period b * ms_ns) <= Z.max now (last_refill b))
    by (destruct (Z.eq_dec k 0) as [->|]; [lia|]; destruct Hlast; lia).
  unfold try_acquire. rewrite Hre. unfold potential.
  destruct (_ <? _); cbn [fst snd tokens take_token refill_period last_refill]; split; try done; nia.
Qed.

Lemma run_bucket_potential reqs : forall b, bucket_ok b ->
  potential (run_bucket b reqs).2 + granted (run_bucket b reqs).1 * (refill_period b * ms_ns) <= potential b
  /\ last_refill (run_bucket b reqs).2 <= latest (last_refill b) reqs
  /\ bucket_ok (run_bucket b reqs).2 /\ refill_period (run_bucket b reqs).2 = refill_period b.
Proof.
  induction reqs as [|[x now] reqs IH]; intros b Hb; [unfold granted; simpl; split_and!; [lia|lia|done|done]|].
  cbn [run_bucket]. pose proof (try_acquire_potential b x now Hb) as [Hpot Hl].
  pose proof (try_acquire_ok b x now Hb) as Hok. pose proof (try_acquire_consts b x now) as (_ & _ & Hper).
  destruct (try_acquire b x now) as [g b1]. cbn [fst snd] in *. specialize (IH b1 Hok) as (IH1 & IH2 & IH3 & IH4).
  destruct (run_bucket b1 reqs) as [gs b2]. cbn [fst snd] in *. rewrite granted_cons, Hper in *.
  split_and!; [destruct g; lia| |done|done].
  cbn [latest fold_right snd]. clear - IH2 Hl. revert IH2. unfold latest. generalize (last_refill b2).
  induction reqs as [|r reqs IHr]; simpl; intros z; [lia|].
  destruct (Z.le_gt_cases z (snd r)); [lia|]. intros. specialize (IHr z). lia.
Qed.

(** Entries stop at the reserve: the tokens plus the exits asked for so far
    never fall below it. *)
Definition exits (reqs : list (bool * Z)) : Z := Z.of_nat (length (List.filter fst reqs)).

Definition lane_kept (b : RateLimiter) (n : Z) : Prop := bucket_ok b /\ reserved_exit b <= tokens b + n.

Lemma exits_cons x now reqs : exits ((x, now) :: reqs) = (if x then 1 else 0) + exits reqs.
Proof. unfold exits. destruct x; cbn [List.filter fst length]; lia. Qed.

Lemma try_acquire_lane b x now n : 0 <= n -> lane_kept b n ->
  lane_kept (try_acquire b x now).2 (n + if x then 1 else 0).
Proof.
  intros Hn [Hb Hlane]. split; [by apply try_acquire_ok|]. pose proof Hb as (Hr & _ & _).
  destruct (refill_view b now Hb) as (k & Hk & Hre & _). unfold try_acquire. rewrite Hre. unfold lane_floor.
  cbn [tokens reserved_exit]. destruct x; case_match; cbn [snd take_token tokens reserved_exit]; lia.
Qed.

Lemma run_bucket_lane reqs : forall b n, 0 <= n -> lane_kept b n ->
  lane_kept (run_bucket b reqs).2 (n + exits reqs).
Proof.
  induction reqs as [|[x now] reqs IH]; intros b n Hn Hb; [unfold exits; simpl; by rewrite Z.add_0_r|].
  cbn [run_bucket]. pose proof (try_acquire_lane b x now n Hn Hb) as H1. destruct (try_acquire b x now) as [g b1].
  specialize (IH b1 (n + if x then 1 else 0)). destruct (run_bucket b1 reqs) as [gs b2]. cbn [snd] in *.
  rewrite exits_cons, Z.add_assoc. apply IH; [|done]. destruct x; lia.
Qed.

Lemma new_limiter_lane cap period reserved now : lane_kept (new_limiter cap period reserved now) 0.
Proof. split; [apply new_limiter_ok|]. pose proof (new_limiter_ok cap period reserved now) as (? & _ & _). simpl in *. lia. Qed.

Lemma lane_grants b n now : lane_kept b n -> n < reserved_exit b -> (try_acquire b true now).1 = true.
Proof.
  intros [Hb Hl] Hn. destruct (refill_view b now Hb) as (k & Hk & Hre & _). pose proof Hb as (? & _ & ?).
  unfold try_acquire. rewrite Hre. unfold lane_floor. cbn [tokens].
  destruct (Z.ltb_spec 0 (Z.min (capacity b) (tokens b + k))); [done|lia].
Qed.

(** ** Runs of the endpoint limiter *)

Inductive limiter_op :=
  | OpAcquire (ep : EndpointClass) (is_exit : bool) (now_breaker now_bucket : Z)
  | Op429 (ep : EndpointClass) (now : Z)
  | OpSuccess (ep : EndpointClass) (now : Z).

Definition limiter_step (e : EndpointRateLimiter) (o : limiter_op) : EndpointRateLimiter :=
  match o with
  | OpAcquire ep x t1 t2 => (acquire e ep x t1 t2).2
  | Op429 ep now => endpoint_429 e ep now
  | OpSuccess ep now => endpoint_success e ep now
  end.

(** The exits asked of a class. *)
Definition exits_on (ep : EndpointClass) (ops : list limiter_op) : Z :=
  Z.of_nat (length (List.filter (fun o => match o with OpAcquire k x _ _ => bool_decide (k = ep) && x | _ => false end) ops)).

Lemma bucket_acquire_state b x now : (bucket_acquire b x now).2 = (try_acquire b x now).2.
Proof. unfold bucket_acquire. destruct (try_acquire b x now) as [g ?]. by destruct g. Qed.

Lemma limiter_step_lane e o ep n : 0 <= n -> lane_kept (bucket_for e ep) n ->
  lane_kept (bucket_for (limiter_step e o) ep) (n + exits_on ep [o])
  /\ reserved_exit (bucket_for (limiter_step e o) ep) = reserved_exit (bucket_for e ep).
Proof.
  intros Hn Hl. assert (H0 : lane_kept (bucket_for e ep) (n + 0)) by by rewrite Z.add_0_r.
  destruct o as [k x t1 t2|k now|k now]; [|split; [exact H0|done]..].
  unfold limiter_step, acquire, exits_on. cbn [List.filter length].
  destruct (negb x && is_open _ t1) eqn:Ho.
  { apply andb_prop in Ho as [Hx _]. destruct x; [done|]. rewrite andb_false_r. by split. }
  pose proof (bucket_acquire_state (bucket_for e k) x t2) as Hs. destruct (bucket_acquire _ _ _) as [r b].
  cbn [snd bucket_for set_bucket] in *. subst b. destruct (decide (k = ep)) as [->|Hne].
  - rewrite !bool_decide_eq_true_2 by done. pose proof (try_acquire_consts (bucket_for e ep) x t2) as (_ & Hres & _).
    split; [|done]. pose proof (try_acquire_lane _ x t2 n Hn Hl) as H. by destruct x.
  - rewrite !bool_decide_eq_false_2 by congruence. cbn [andb length]. by split.
Qed.

Lemma exits_on_cons ep o ops : exits_on ep (o :: ops) = exits_on ep [o] + exits_on ep ops.
Proof. unfold exits_on. cbn [List.filter]. case_match; cbn [length]; lia. Qed.

Lemma limiter_run_lane ops ep : forall e n, 0 <= n -> lane_kept (bucket_for e ep) n ->
  lane_kept (bucket_for (foldl limiter_step e ops) ep) (n + exits_on ep ops)
  /\ reserved_exit (bucket_for (foldl limiter_step e ops) ep) = reserved_exit (bucket_for e ep).
Proof.
  induction ops as [|o ops IH]; intros e n Hn Hl; [split; [unfold exits_on; simpl; by rewrite Z.add_0_r|done]|].
  destruct (limiter_step_lane e o ep n Hn Hl) as [H1 H2]. cbn [foldl]. rewrite exits_on_cons, Z.add_assoc, <- H2.
  apply IH; [unfold exits_on; lia|done].
Qed.

(** ** Properties *)

(** A bucket is well formed from construction on: the reserve and the
    tokens stay between zero and the capacity through every refill and
    acquisition, and what [available] reports, for either lane, is what that
    lane can still take. *)
Theorem bucket_invariant cap period reserved now0 reqs (b := (run_bucket (new_limiter cap period reserved now0) reqs).2) :
  bucket_ok b /\ 0 <= available b true <= capacity b /\ 0 <= available b false <= capacity b - reserved_exit b
  /\ forall x now, (try_acquire b x now).1 = bool_decide (0 < (peek b x now).1).
Proof.
  destruct (run_bucket_potential reqs (new_limiter cap period reserved now0)) as (_ & _ & Hok & _);
    [apply new_limiter_ok|]. fold b in Hok. split; [done|]. destruct Hok as (? & ? & ?).
  unfold peek, available, try_acquire. cbn [fst]. split_and!;
    [unfold lane_floor; case_match; lia..|]. intros x now.
  destruct (Z.ltb_spec (lane_floor (refill_ b now) x) (tokens (refill_ b now)));
    destruct (Z.ltb_spec 0 (tokens (refill_ b now) - lane_floor (refill_ b now) x)); cbn [fst];
    symmetry; (apply bool_decide_eq_true_2 || apply bool_decide_eq_false_2); lia.
Qed.

(** The rate is bounded on every window: whatever is asked, and even if
    the clock steps back, a run that starts with [tokens] in the bucket grants
    at most those and one more per whole period up to its latest request. *)
Theorem rate_bound b reqs : bucket_ok b -> 0 < refill_period b ->
  granted (run_bucket b reqs).1
    <= tokens b + (latest (last_refill b) reqs - last_refill b) / (refill_period b * ms_ns).
Proof.
  intros Hb Hp. destruct (run_bucket_potential reqs b Hb) as (Hpot & Hlast & (_ & _ & Htok) & Hper).
  unfold potential in Hpot. rewrite Hper in Hpot.
  assert (Hpos : 0 < refill_period b * ms_ns) by (unfold ms_ns; lia).
  enough (granted (run_bucket b reqs).1 - tokens b <= (latest (last_refill b) reqs - last_refill b) / (refill_period b * ms_ns))
    by lia.
  apply Z.div_le_lower_bound; nia.
Qed.

Lemma rate_bound_witness (b := new_limiter 2 100 1 0) (reqs := [(false, 0); (false, 0); (true, 0); (true, 100 * ms_ns); (false, 100 * ms_ns)]) :
  bucket_ok b /\ 0 < refill_period b
  /\ granted (run_bucket b reqs).1 <= tokens b + (latest (last_refill b) reqs - last_refill b) / (refill_period b * ms_ns)
  /\ (run_bucket b reqs).1 = [true; false; true; true; false].
Proof.
  split; [apply new_limiter_ok|]. split; [reflexivity|]. split; [|reflexivity].
  apply (rate_bound b reqs); [apply new_limiter_ok|reflexivity].
Defined.

(** C28: A storm leaves the exit lane open: after any sequence of requests,
    429 answers and successes on every class, in any order and at any times,
    an exit on the order class is granted as long as fewer exits than the
    configured reserve have been asked of it, whatever the breakers say. *)
Theorem storm_leaves_exit_lane l cfg now0 ops t1 t2 : exits_on EpOrder ops < reserved_exit_order l ->
  (acquire (foldl limiter_step (new_endpoint l cfg now0) ops) EpOrder true t1 t2).1 = Ok tt.
Proof.
  intros Hn. destruct (limiter_run_lane ops EpOrder (new_endpoint l cfg now0) 0) as [Hl Hres];
    [done|apply new_limiter_lane|]. unfold acquire. cbn [negb andb].
  unfold bucket_acquire. pose proof (lane_grants _ _ t2 Hl) as Hg. destruct (try_acquire _ true t2) as [g b].
  cbn [fst] in Hg. rewrite Hg; [done|]. rewrite Hres. cbn [bucket_for new_endpoint].
  unfold new_limiter, clamp_reserved, order_capacity. cbn [reserved_exit].
  assert (0 <= exits_on EpOrder ops) by (unfold exits_on; lia).
  repeat case_match; lia.
Qed.

Lemma storm_leaves_exit_lane_witness (l := mkLimits 3 1 3 10 1) (cfg := mkBreakerConfig 2 1 300)
    (ops := [OpAcquire EpOrder false 0 0; OpAcquire EpOrder false 0 0; OpAcquire EpOrder false 0 0; Op429 EpOrder 0;
             Op429 EpOrder 0]) :
  exits_on EpOrder ops < reserved_exit_order l
  /\ (acquire (foldl limiter_step (new_endpoint l cfg 0) ops) EpOrder true 1 1).1 = Ok tt
  /\ breaker_open (foldl limiter_step (new_endpoint l cfg 0) ops) EpOrder 1 = true.
Proof. split; [reflexivity|]. split; [apply (storm_leaves_exit_lane l cfg 0 ops 1 1); reflexivity|reflexivity]. Defined.

(** A class configured above 1000 per second starves: its period
    truncates to zero, so its bucket never refills and grants its capacity
    once in its life; after that the exits are refused as well. *)
Theorem fast_class_starves cap reserved now0 reqs : 1000 < cap ->
  granted (run_bucket (new_limiter cap (refill_period_for cap) reserved now0) reqs).1 <= cap.
Proof.
  intros Hcap. set (b := new_limiter _ _ _ _).
  assert (Hp : refill_period b = 0).
  { subst b. unfold new_limiter, refill_period_for. cbn [refill_period].
    destruct (Z.leb_spec cap 0); [lia|]. by rewrite Z.quot_small by lia. }
  enough (H : forall reqs b, refill_period b = 0 -> bucket_ok b -> granted (run_bucket b reqs).1 <= tokens b).
  { pose proof (new_limiter_ok cap (refill_period_for cap) reserved now0) as Hok. fold b in Hok.
    etransitivity; [by apply H|]. destruct Hok as (_ & _ & [_ Ht]). etransitivity; [apply Ht|].
    subst b. cbn. destruct (Z.ltb_spec cap 0); lia. }
  clear. intros reqs. induction reqs as [|[x now] reqs IH]; intros b Hp Hb; [unfold granted; destruct Hb as (_ & _ & ?); simpl; lia|].
  pose proof (try_acquire_ok b x now Hb) as Hok. pose proof (try_acquire_consts b x now) as (_ & _ & Hper).
  cbn [run_bucket]. specialize (IH (try_acquire b x now).2).
  assert (Ht : (if (try_acquire b x now).1 then 1 else 0) + tokens (try_acquire b x now).2 = tokens b).
  { unfold try_acquire. replace (refill_ b now) with b by (unfold refill_; by rewrite Hp). by destruct (_ <? _); simpl; lia. }
  destruct (try_acquire b x now) as [g b1]. cbn [fst snd] in *. specialize (IH ltac:(congruence) Hok).
  destruct (run_bucket b1 reqs) as [gs b2]. cbn [fst] in *. rewrite granted_cons. lia.
Qed.

Lemma fast_class_starves_witness (reqs := [(true, 0); (true, 10 ^ 18)]) :
  1000 < 1001 /\ granted (run_bucket (new_limiter 1001 (refill_period_for 1001) 2 0) reqs).1 <= 1001
  /\ (try_acquire (mkLimiter 1001 2 (refill_period_for 1001) 0 0) true (10 ^ 18)).1 = false.
Proof. split; [reflexivity|]. split; [apply (fast_class_starves 1001 2 0 reqs); reflexivity|reflexivity]. Defined.

(** Between the two, truncation makes the class faster than configured: at
    600 per second a drained bucket grants 100 requests in 100 ms. *)
Example truncated_period_is_permissive :
  granted (run_bucket (mkLimiter 600 0 (refill_period_for 600) 0 0)
             (map (fun k => (false, Z.of_nat k * ms_ns)) (seq 1 100))).1 = 100.
Proof. by vm_compute. Qed.
