(* ===== verification/Capabilities.v ===== *)
(** * Capabilities: what a broker is certified to do
    (src/src/capabilities/capabilities.cpp, capabilities.hpp)

    A set is the array the code keeps, indexed by the enumerators; anything
    not certified is Unknown and reads as unsupported. *)

From S2P Require Import Prelude Errors.

Inductive Capability :=
  | PlaceOrder | ModifyOrder | CancelOrder | SquareOff | BasketMargin | OrderUpdateWebsocket
  | HeadlessSessionRefresh | GttOrders | AmoOrders | CoverOrder | BracketOrder | TagCarry | MarginShockSim.

Inductive Support := SupUnknown | Supported | Unsupported.

#[export] Instance Capability_eq_dec : EqDecision Capability.
Proof. solve_decision. Defined.
#[export] Instance Support_eq_dec : EqDecision Support.
Proof. solve_decision. Defined.
#[export] Instance Support_inhabited : Inhabited Support := populate SupUnknown.

Definition capability_to_string (c : Capability) : string :=
  match c with
  | PlaceOrder => "place_order"
  | ModifyOrder => "modify_order"
  | CancelOrder => "cancel_order"
  | SquareOff => "square_off"
  | BasketMargin => "basket_margin"
  | OrderUpdateWebsocket => "order_update_websocket"
  | HeadlessSessionRefresh => "headless_session_refresh"
  | GttOrders => "gtt_orders"
  | AmoOrders => "amo_orders"
  | CoverOrder => "cover_order"
  | BracketOrder => "bracket_order"
  | TagCarry => "tag_carry"
  | MarginShockSim => "margin_shock_sim"
  end.

Definition support_to_string (s : Support) : string :=
  match s with Supported => "supported" | Unsupported => "unsupported" | SupUnknown => "unknown" end.

(** [static_cast<std::size_t>]. *)
Definition index_of (c : Capability) : nat :=
  match c with
  | PlaceOrder => 0 | ModifyOrder => 1 | CancelOrder => 2 | SquareOff => 3 | BasketMargin => 4
  | OrderUpdateWebsocket => 5 | HeadlessSessionRefresh => 6 | GttOrders => 7 | AmoOrders => 8
  | CoverOrder => 9 | BracketOrder => 10 | TagCarry => 11 | MarginShockSim => 12
  end%nat.

Definition kCapabilityCount : nat := S (index_of MarginShockSim).

Record CapabilitySet := mkCapabilities { support_ : list Support }.

Definition empty_capabilities : CapabilitySet := mkCapabilities (replicate kCapabilityCount SupUnknown).

Definition set_support (c : Capability) (s : Support) (set : CapabilitySet) : CapabilitySet :=
  mkCapabilities (<[index_of c := s]> (support_ set)).

Definition capabilities_of (entries : list (Capability * Support)) : CapabilitySet :=
  foldl (fun set e => set_support (fst e) (snd e) set) empty_capabilities entries.

Definition support_of (set : CapabilitySet) (c : Capability) : Support := support_ set !!! index_of c.

Definition supports (set : CapabilitySet) (c : Capability) : bool := bool_decide (support_of set c = Supported).

Definition not_supported_error (c : Capability) : Error :=
  set_action DoNotRetry
    (make_error NotSupported
       ("capability '" +:+ capability_to_string c +:+ "' is not supported by this broker (reject-only; no substitution)") "").

Definition require (set : CapabilitySet) (c : Capability) : result unit :=
  if supports set c then Ok tt else Err (not_supported_error c).

Fixpoint require_all (set : CapabilitySet) (cs : list Capability) : result unit :=
  match cs with
  | [] => Ok tt
  | c :: rest => if supports set c then require_all set rest else Err (not_supported_error c)
  end.

Definition kite_capabilities : CapabilitySet :=
  capabilities_of [(PlaceOrder, Supported); (ModifyOrder, Supported); (CancelOrder, Supported); (SquareOff, Supported);
                   (HeadlessSessionRefresh, Unsupported)].

(** ** Lemmas *)

#[export] Instance index_of_inj : Inj (=) (=) index_of.
Proof. intros c d H. by destruct c, d. Qed.

Lemma capabilities_length entries : length (support_ (capabilities_of entries)) = kCapabilityCount.
Proof.
  unfold capabilities_of. assert (length (support_ empty_capabilities) = kCapabilityCount) as H by done.
  revert H. generalize empty_capabilities. induction entries as [|e entries IH]; intros set H; [done|].
  apply IH. simpl. by rewrite length_insert.
Qed.

Lemma index_below c : (index_of c < kCapabilityCount)%nat.
Proof. destruct c; unfold kCapabilityCount; simpl; lia. Qed.

Lemma support_set_support set c d s : length (support_ set) = kCapabilityCount ->
  support_of (set_support c s set) d = if decide (c = d) then s else support_of set d.
Proof.
  intros H. unfold support_of, set_support. simpl. destruct (decide (c = d)) as [<-|Hne].
  - rewrite list_lookup_total_insert_eq; [done|]. rewrite H. apply index_below.
  - rewrite list_lookup_total_insert_ne; [done|]. by intros ?%(inj index_of).
Qed.

Lemma empty_support c : support_of empty_capabilities c = SupUnknown.
Proof. unfold support_of, empty_capabilities. cbn [support_]. by rewrite lookup_total_replicate_2 by apply index_below. Qed.

(** The last entry for a capability decides, and one without an entry is
    unknown. *)
Theorem capabilities_last_entry entries c :
  support_of (capabilities_of entries) c
  = default SupUnknown (snd <$> List.find (fun e => bool_decide (fst e = c)) (rev entries)).
Proof.
  induction entries as [|[d s] entries IH] using rev_ind; [apply empty_support|].
  unfold capabilities_of. rewrite foldl_app. simpl. rewrite rev_app_distr. simpl. rewrite support_set_support by apply capabilities_length.
  case_decide; case_bool_decide; done.
Qed.

(** [require_all] stops at the first capability that is not certified. *)
Theorem require_all_exact set cs :
  require_all set cs = match List.find (fun c => negb (supports set c)) cs with
                       | Some c => Err (not_supported_error c) | None => Ok tt end.
Proof. induction cs as [|c cs IH]; [done|]. simpl. by destruct (supports set c). Qed.
