(* ===== verification/LegOrder.v ===== *)
(** * LegOrder: the dependency order of a basket's legs
    (src/src/options/basket.cpp, topological_order)

    Kahn's algorithm as the code runs it, and its correctness: it accepts
    exactly the well-formed baskets, and orders every leg after the legs it
    depends on. *)

From S2P Require Import Prelude.

Record BasketLeg := mkLeg { leg_id : string; depends_on : list string }.

(** ** The dependency order *)

(** [id_to_index.emplace] refuses an empty and a repeated id. *)
Fixpoint index_ids (legs : list BasketLeg) (i : nat) (ids : gmap string nat) : option (gmap string nat) :=
  match legs with
  | [] => Some ids
  | leg :: rest =>
      if String.eqb (leg_id leg) "" then None
      else match ids !! leg_id leg with
           | Some _ => None
           | None => index_ids rest (S i) (<[leg_id leg := i]> ids)
           end
  end.

(** The in-degrees and the dependents of every leg. *)
Record DepGraph := mkGraph { in_degree : list Z; dependents : list (list nat) }.

Definition add_edge (u v : nat) (g : DepGraph) : DepGraph :=
  mkGraph (alter (fun d => d + 1) v (in_degree g)) (alter (fun l => l ++ [v]) u (dependents g)).

Fixpoint add_deps (ids : gmap string nat) (i : nat) (deps : list string) (g : DepGraph) : option DepGraph :=
  match deps with
  | [] => Some g
  | d :: rest =>
      match ids !! d with
      | None => None
      | Some u => add_deps ids i rest (add_edge u i g)
      end
  end.

Fixpoint build_graph (ids : gmap string nat) (legs : list BasketLeg) (i : nat) (g : DepGraph) : option DepGraph :=
  match legs with
  | [] => Some g
  | leg :: rest =>
      match add_deps ids i (depends_on leg) g with
      | None => None
      | Some g' => build_graph ids rest (S i) g'
      end
  end.

(** The inner loop over the dependents of a leg. *)
Fixpoint release (vs : list nat) (deg : list Z) (queue : list nat) : list Z * list nat :=
  match vs with
  | [] => (deg, queue)
  | v :: rest =>
      let d := deg !!! v - 1 in
      release rest (<[v := d]> deg) (if d =? 0 then queue ++ [v] else queue)
  end.

(** [queue] is what the code's queue holds from [head] on. *)
Fixpoint kahn (fuel : nat) (deps : list (list nat)) (deg : list Z) (queue order : list nat) : list nat :=
  match fuel, queue with
  | S fuel, u :: queue =>
      let '(deg, queue) := release (deps !!! u) deg queue in kahn fuel deps deg queue (order ++ [u])
  | _, _ => order
  end.

Definition topological_order (legs : list BasketLeg) : option (list nat) :=
  let n := length legs in
  match index_ids legs 0 ∅ with
  | None => None
  | Some ids =>
      match build_graph ids legs 0 (mkGraph (replicate n 0) (replicate n [])) with
      | None => None
      | Some g =>
          let queue := List.filter (fun i => in_degree g !!! i =? 0) (seq 0 n) in
          let order := kahn n (dependents g) (in_degree g) queue [] in
          if bool_decide (length order = n) then Some order else None
      end
  end.

(** ** The graph as a list of edges *)

(** The edges in the order the code adds them, from the prerequisite to the
    leg that needs it. *)
Definition leg_edges (ids : gmap string nat) (leg : BasketLeg) (i : nat) : list (nat * nat) :=
  omap (fun d => (fun u => (u, i)) <$> ids !! d) (depends_on leg).

Fixpoint edges_from (ids : gmap string nat) (legs : list BasketLeg) (i : nat) : list (nat * nat) :=
  match legs with
  | [] => []
  | leg :: rest => leg_edges ids leg i ++ edges_from ids rest (S i)
  end.

Definition targets (E : list (nat * nat)) (u : nat) : list nat := (List.filter (fun e => fst e =? u)%nat E).*2.
Definition in_edges (E : list (nat * nat)) (v : nat) : Z := Z.of_nat (length (List.filter (fun e => snd e =? v)%nat E)).

(** The in-edges whose source is not in [O]. *)
Definition waiting (E : list (nat * nat)) (O : list nat) (v : nat) : Z :=
  Z.of_nat (length (List.filter (fun e => (snd e =? v)%nat && negb (bool_decide (fst e ∈ O))) E)).

Definition graph_of (n : nat) (E : list (nat * nat)) (g : DepGraph) : Prop :=
  length (in_degree g) = n /\ length (dependents g) = n
  /\ forall v, (v < n)%nat -> in_degree g !!! v = in_edges E v /\ dependents g !!! v = targets E v.

Lemma graph_of_empty n : graph_of n [] (mkGraph (replicate n 0) (replicate n [])).
Proof.
  unfold graph_of. simpl. rewrite !length_replicate. split_and!; [done..|]. intros v Hv.
  by rewrite !lookup_total_replicate_2 by done.
Qed.

Lemma add_edge_graph n E g u v : (u < n)%nat -> (v < n)%nat -> graph_of n E g ->
  graph_of n (E ++ [(u, v)]) (add_edge u v g).
Proof.
  intros Hu Hv (H1 & H2 & H3). unfold graph_of, add_edge. simpl. rewrite !length_alter. split_and!; [done..|].
  intros w Hw. destruct (H3 w Hw) as [Hd Ht]. unfold in_edges, targets. rewrite !List.filter_app, length_app, fmap_app.
  simpl. split.
  - destruct (Nat.eqb_spec v w) as [->|Hne].
    + rewrite list_lookup_total_alter_eq by lia. rewrite Hd. unfold in_edges. simpl. lia.
    + rewrite list_lookup_total_alter_ne by done. rewrite Hd. unfold in_edges. simpl. lia.
  - destruct (Nat.eqb_spec u w) as [->|Hne].
    + rewrite list_lookup_total_alter_eq by lia. by rewrite Ht.
    + rewrite list_lookup_total_alter_ne by done. rewrite Ht. simpl. by rewrite app_nil_r.
Qed.

(** Every index the id map holds is below [n]. *)
Definition ids_below (ids : gmap string nat) (n : nat) : Prop := forall d u, ids !! d = Some u -> (u < n)%nat.

Definition deps_known (ids : gmap string nat) (leg : BasketLeg) : Prop := Forall (fun d => is_Some (ids !! d)) (depends_on leg).

Lemma add_deps_spec ids n i : ids_below ids n -> (i < n)%nat -> forall deps E g, graph_of n E g ->
  match add_deps ids i deps g with
  | Some g' => Forall (fun d => is_Some (ids !! d)) deps
               /\ graph_of n (E ++ omap (fun d => (fun u => (u, i)) <$> ids !! d) deps) g'
  | None => ~ Forall (fun d => is_Some (ids !! d)) deps
  end.
Proof.
  intros Hids Hi. induction deps as [|d deps IH]; intros E g Hg; simpl; [by rewrite app_nil_r|].
  destruct (ids !! d) as [u|] eqn:Eu; simpl.
  - specialize (IH (E ++ [(u, i)]) (add_edge u i g) (add_edge_graph n E g u i (Hids d u Eu) Hi Hg)).
    destruct (add_deps _ _ _ _).
    + destruct IH as [IH1 IH2]. rewrite <- app_assoc in IH2. split; [|done]. constructor; [by rewrite Eu|done].
    + intros Hf. by inversion Hf.
  - intros Hf. inversion Hf as [|? ? [x Hx]]. congruence.
Qed.

Lemma build_graph_spec ids n : ids_below ids n -> forall legs i E g, (i + length legs = n)%nat -> graph_of n E g ->
  match build_graph ids legs i g with
  | Some g' => Forall (deps_known ids) legs /\ graph_of n (E ++ edges_from ids legs i) g'
  | None => ~ Forall (deps_known ids) legs
  end.
Proof.
  intros Hids. induction legs as [|leg legs IH]; intros i E g Hn Hg; simpl in *; [by rewrite app_nil_r|].
  pose proof (add_deps_spec ids n i Hids ltac:(lia) (depends_on leg) E g Hg) as Hd.
  destruct (add_deps _ _ _ _) as [g'|].
  - destruct Hd as [Hk Hd]. specialize (IH (S i) _ g' ltac:(lia) Hd). destruct (build_graph _ _ _ _).
    + destruct IH as [IH1 IH2]. rewrite <- app_assoc in IH2. by split; [constructor|].
    + intros Hf. by inversion Hf.
  - intros Hf. by inversion Hf.
Qed.

(** ** The loop of Kahn's algorithm *)

Definition occ (v : nat) (l : list nat) : Z := Z.of_nat (length (List.filter (fun x => x =? v)%nat l)).

Lemma occ_cons v x l : occ v (x :: l) = (if (x =? v)%nat then 1 else 0) + occ v l.
Proof. unfold occ. cbn [List.filter]. destruct (x =? v)%nat; cbn [length]; lia. Qed.

(** Processing a leg releases exactly its out-edges. *)
Lemma waiting_snoc E O u v : u ∉ O -> waiting E O v = waiting E (O ++ [u]) v + occ v (targets E u).
Proof.
  intros Hu. unfold waiting, occ, targets. induction E as [|[a b] E IH]; [done|]. cbn [List.filter fst snd].
  assert (bool_decide (a ∈ O ++ [u]) = bool_decide (a ∈ O) || (a =? u)%nat) as ->.
  { apply eq_true_iff_eq. rewrite bool_decide_eq_true, orb_true_iff, bool_decide_eq_true, Nat.eqb_eq, elem_of_app.
    rewrite list_elem_of_singleton. done. }
  destruct (Nat.eqb_spec a u) as [->|Hne]; cbn [fmap list_fmap map List.filter snd].
  - rewrite bool_decide_eq_false_2 by done. destruct (b =? v)%nat; cbn [andb orb negb length] in *; lia.
  - rewrite orb_false_r. destruct ((b =? v)%nat && _); cbn [length] in *; lia.
Qed.

Lemma waiting_zero E O v : waiting E O v = 0 <-> forall s, (s, v) ∈ E -> s ∈ O.
Proof.
  unfold waiting. split.
  - intros Hz s Hs. destruct (decide (s ∈ O)) as [|Hn]; [done|].
    assert (In (s, v) (List.filter (fun e => (snd e =? v)%nat && negb (bool_decide (fst e ∈ O))) E)) as Hin.
    { apply filter_In. split; [by apply list_elem_of_In|]. simpl. by rewrite Nat.eqb_refl, bool_decide_eq_false_2. }
    destruct (List.filter _ E); [done|simpl in Hz; lia].
  - intros H. replace (List.filter _ E) with (@nil (nat * nat)); [done|]. symmetry.
    induction E as [|[a b] E IH]; [done|]. cbn [List.filter fst snd]. destruct (Nat.eqb_spec b v) as [->|]; cbn [andb].
    + rewrite bool_decide_eq_true_2 by (apply H; left). apply IH. intros s Hs. apply H. by right.
    + apply IH. intros s Hs. apply H. by right.
Qed.

Section kahn.
Context (n : nat) (E : list (nat * nat)) (deps : list (list nat)).
Context (HE : Forall (fun e => (fst e < n)%nat /\ (snd e < n)%nat) E).
Context (Hdeps : forall u, (u < n)%nat -> deps !!! u = targets E u).

(** [R] holds the releases still to do for the last leg of [O]. *)
Record kahn_inv (deg : list Z) (O Q R : list nat) : Prop := mkKahnInv {
  ki_len : length deg = n;
  ki_deg : forall v, (v < n)%nat -> deg !!! v = waiting E O v + occ v R;
  ki_zero : forall v, (v < n)%nat -> (v ∈ O ++ Q <-> deg !!! v = 0);
  ki_nodup : NoDup (O ++ Q);
  ki_below : Forall (fun v => (v < n)%nat) (O ++ Q) }.

Definition order_respected (O : list nat) : Prop :=
  forall O1 v O2, O = O1 ++ v :: O2 -> forall s, (s, v) ∈ E -> s ∈ O1.

Lemma waiting_nonneg O v : 0 <= waiting E O v.
Proof. unfold waiting. lia. Qed.

Lemma release_inv O R : forall deg Q, Forall (fun v => (v < n)%nat) R -> kahn_inv deg O Q R ->
  kahn_inv (release R deg Q).1 O (release R deg Q).2 [].
Proof.
  induction R as [|v R IH]; intros deg Q HR [H1 H2 H3 H4 H5]; [done|]. cbn [release].
  apply Forall_cons in HR as [Hv HR]. apply IH; [done|].
  pose proof (H2 v Hv) as Hdv. rewrite occ_cons, Nat.eqb_refl in Hdv.
  assert (Hnot : v ∉ O ++ Q).
  { rewrite H3 by done. pose proof (waiting_nonneg O v). unfold occ in *. lia. }
  assert (Hdeg : forall w, (w < n)%nat -> <[v:=deg !!! v - 1]> deg !!! w = waiting E O w + occ w R).
  { intros w Hw. destruct (decide (v = w)) as [->|Hne].
    - rewrite list_lookup_total_insert_eq by lia. lia.
    - rewrite list_lookup_total_insert_ne by done. rewrite H2, occ_cons by done.
      destruct (Nat.eqb_spec v w); [done|lia]. }
  assert (Hsame : forall w, w <> v -> <[v:=deg !!! v - 1]> deg !!! w = deg !!! w)
    by (intros; by rewrite list_lookup_total_insert_ne).
  assert (Hnew : <[v:=deg !!! v - 1]> deg !!! v = deg !!! v - 1) by (by rewrite list_lookup_total_insert_eq by lia).
  destruct (Z.eqb_spec (deg !!! v - 1) 0) as [Hz|Hz]; constructor; rewrite ?length_insert; try done.
  - intros w Hw. rewrite app_assoc, elem_of_app, list_elem_of_singleton. destruct (decide (w = v)) as [->|Hne].
    + rewrite Hnew. tauto.
    + rewrite Hsame, H3 by done. tauto.
  - rewrite app_assoc. apply NoDup_app. split_and!; [done| |apply NoDup_singleton].
    intros x Hx ->%list_elem_of_singleton. done.
  - rewrite app_assoc. apply Forall_app. split; [done|by constructor].
  - intros w Hw. destruct (decide (w = v)) as [->|Hne]; [rewrite Hnew; split; [done|lia]|by rewrite Hsame, H3].
Qed.

Lemma targets_below u : Forall (fun v => (v < n)%nat) (targets E u).
Proof.
  unfold targets. rewrite Forall_fmap. apply Forall_forall. intros e He.
  apply list_elem_of_In, filter_In in He as [He _]. apply list_elem_of_In in He.
  by apply (proj1 (Forall_forall _ _) HE e He).
Qed.

Lemma pop_inv deg O u Q : kahn_inv deg O (u :: Q) [] -> order_respected O ->
  kahn_inv deg (O ++ [u]) Q (targets E u) /\ order_respected (O ++ [u]) /\ (u < n)%nat.
Proof.
  intros [H1 H2 H3 H4 H5] Ho.
  assert (Hu : (u < n)%nat) by (apply Forall_app in H5 as [_ H5]; by inversion H5).
  assert (Hn : u ∉ O).
  { intros Hin. apply NoDup_app in H4 as (_ & H4 & _). apply (H4 u Hin). left. }
  split_and!; [|intros O1 v O2 Heq s Hs|done].
  - constructor; rewrite <- ?app_assoc; try done. intros v Hv. rewrite H2 by done.
    rewrite (waiting_snoc E O u v Hn). unfold occ. simpl. lia.
  - destruct O2 as [|w O2 _] using rev_ind.
    + apply app_inj_tail in Heq as [<- <-]. assert (Hz : deg !!! u = 0) by (apply H3; [done|apply elem_of_app; right; left]).
      rewrite H2 in Hz by done. unfold occ in Hz. simpl in Hz. rewrite Z.add_0_r in Hz.
      by apply (proj1 (waiting_zero E O u) Hz).
    + rewrite app_comm_cons, app_assoc in Heq. apply app_inj_tail in Heq as [Heq _]. by apply (Ho O1 v O2).
Qed.

Lemma below_length (l : list nat) : NoDup l -> Forall (fun v => (v < n)%nat) l -> (length l <= n)%nat.
Proof.
  intros Hd Hb. rewrite <- (length_seq n 0). apply submseteq_length, NoDup_submseteq; [done|].
  intros x Hx. apply elem_of_seq. apply (proj1 (Forall_forall _ _) Hb) in Hx. lia.
Qed.

(** [n] rounds empty the queue. *)
Lemma kahn_spec fuel : forall deg Q O, (n <= fuel + length O)%nat -> kahn_inv deg O Q [] -> order_respected O ->
  order_respected (kahn fuel deps deg Q O) /\ exists deg', kahn_inv deg' (kahn fuel deps deg Q O) [] [].
Proof.
  induction fuel as [|fuel IH]; intros deg Q O Hf Hi Ho.
  - destruct Q as [|u Q]; [by eauto|]. destruct Hi as [_ _ _ H4 H5].
    pose proof (below_length _ H4 H5) as Hl. rewrite length_app in Hl. simpl in *. lia.
  - destruct Q as [|u Q]; [by eauto|]. cbn [kahn]. destruct (pop_inv deg O u Q Hi Ho) as (Hi' & Ho' & Hu).
    rewrite Hdeps by done. pose proof (release_inv _ _ deg Q (targets_below u) Hi') as Hr.
    destruct (release (targets E u) deg Q) as [deg' Q']. apply IH; [rewrite length_app; simpl; lia|done|done].
Qed.

(** A rank that grows along the edges is what acyclic means. *)
Definition ranked (rank : nat -> nat) : Prop := forall s v, (s, v) ∈ E -> (rank s < rank v)%nat.

Lemma kahn_complete deg O rank : kahn_inv deg O [] [] -> ranked rank -> length O = n.
Proof.
  intros [H1 H2 H3 H4 H5] Hr. rewrite app_nil_r in *.
  assert (Hall : forall r v, (v < n)%nat -> (rank v < r)%nat -> v ∈ O).
  { induction r as [|r IH]; intros v Hv Hlt; [lia|]. apply H3; [done|].
    rewrite H2 by done. unfold occ. simpl. rewrite Z.add_0_r. apply waiting_zero. intros s Hs.
    apply IH; [|specialize (Hr s v Hs); lia]. by apply (proj1 (Forall_forall _ _) HE (s, v)). }
  apply Nat.le_antisymm; [by apply below_length|]. rewrite <- (length_seq n 0) at 1.
  apply submseteq_length, NoDup_submseteq; [apply NoDup_seq|]. intros v Hv%elem_of_seq. apply (Hall (S (rank v))); lia.
Qed.

Lemma full_order deg O : kahn_inv deg O [] [] -> length O = n -> O ≡ₚ seq 0 n.
Proof.
  intros [_ _ _ H4 H5] Hl. rewrite app_nil_r in *. symmetry.
  apply submseteq_length_Permutation; [|by rewrite length_seq, Hl].
  assert (O ⊆+ seq 0 n) as Hsub.
  { apply NoDup_submseteq; [done|]. intros x Hx. apply elem_of_seq. apply (proj1 (Forall_forall _ _) H5) in Hx. lia. }
  apply submseteq_length_Permutation in Hsub; [by rewrite Hsub|by rewrite length_seq, Hl].
Qed.

(** The position in a respected order is a rank. *)
Lemma order_ranked O : O ≡ₚ seq 0 n -> order_respected O ->
  exists rank, ranked rank.
Proof.
  intros Hp Ho. set (pos v := default 0%nat (fst <$> list_find (eq v) O)). exists pos. intros s v Hs.
  assert (Hnd : NoDup O) by (rewrite Hp; apply NoDup_seq).
  assert (Hpos : forall i x, O !! i = Some x -> pos x = i).
  { intros i x Hx. unfold pos. destruct (list_find (eq x) O) as [[j y]|] eqn:Ef.
    - apply list_find_Some in Ef as (Hj & <- & _). simpl. by eapply NoDup_lookup.
    - apply list_find_None in Ef. apply list_elem_of_lookup_2 in Hx.
      exfalso. by apply (proj1 (Forall_forall _ _) Ef x Hx). }
  assert (Hv : v ∈ O).
  { rewrite Hp. apply elem_of_seq. apply (proj1 (Forall_forall _ _) HE) in Hs as [_ ?]. simpl in *. lia. }
  apply list_elem_of_split in Hv as (O1 & O2 & ->). specialize (Ho O1 v O2 eq_refl s Hs).
  apply list_elem_of_lookup in Ho as [i Hi]. rewrite (Hpos i s) by (by apply lookup_app_l_Some).
  rewrite (Hpos (length O1) v) by (by rewrite lookup_app_r, Nat.sub_diag). by apply lookup_lt_Some in Hi.
Qed.
End kahn.

(** ** Well-formed baskets *)

Definition leg_ids (legs : list BasketLeg) : list string := leg_id <$> legs.

(** Ids are present and unique, dependencies name legs of the basket, and
    some rank grows from every leg to the legs that need it: no cycle. *)
Record well_formed_basket (legs : list BasketLeg) : Prop := mkWellFormed {
  wf_ids : Forall (fun leg => leg_id leg <> "") legs;
  wf_unique : NoDup (leg_ids legs);
  wf_known : Forall (fun leg => Forall (fun d => d ∈ leg_ids legs) (depends_on leg)) legs;
  wf_acyclic : exists rank : string -> nat,
    Forall (fun leg => Forall (fun d => rank d < rank (leg_id leg))%nat (depends_on leg)) legs }.

(** Every prerequisite stands before the legs that need it. *)
Definition prerequisites_first (legs : list BasketLeg) (order : list nat) : Prop :=
  forall O1 v O2 leg d, order = O1 ++ v :: O2 -> legs !! v = Some leg -> d ∈ depends_on leg ->
    exists u dep, u ∈ O1 /\ legs !! u = Some dep /\ leg_id dep = d.

Lemma index_ids_spec legs : forall i ids,
  match index_ids legs i ids with
  | Some ids' =>
      Forall (fun leg => leg_id leg <> "" /\ ids !! leg_id leg = None) legs /\ NoDup (leg_ids legs)
      /\ forall d u, ids' !! d = Some u <->
           ids !! d = Some u \/ exists k leg, legs !! k = Some leg /\ leg_id leg = d /\ u = (i + k)%nat
  | None => ~ (Forall (fun leg => leg_id leg <> "" /\ ids !! leg_id leg = None) legs /\ NoDup (leg_ids legs))
  end.
Proof.
  induction legs as [|leg legs IH]; intros i ids; cbn [index_ids leg_ids].
  { split_and!; [constructor|constructor|]. intros d u. split; [by left|intros [?|(k & l & Hk & _)]; [done|by destruct k]]. }
  destruct (String.eqb_spec (leg_id leg) "") as [He|He]; [intros [Hf _]; by inversion Hf as [|? ? [? ?]]|].
  destruct (ids !! leg_id leg) as [j|] eqn:Ej; [intros [Hf _]; inversion Hf as [|? ? [? ?]]; congruence|].
  specialize (IH (S i) (<[leg_id leg := i]> ids)).
  assert (Hins : forall l, <[leg_id leg := i]> ids !! leg_id l = None <-> leg_id l <> leg_id leg /\ ids !! leg_id l = None).
  { intros l. rewrite lookup_insert_None. naive_solver. }
  assert (Hhead : Forall (fun l => leg_id l <> "" /\ <[leg_id leg := i]> ids !! leg_id l = None) legs
      <-> Forall (fun l => leg_id l <> "" /\ ids !! leg_id l = None) legs /\ leg_id leg ∉ leg_ids legs).
  { rewrite !Forall_forall. unfold leg_ids. rewrite list_elem_of_fmap. split.
    - intros H. split; [intros x Hx; destruct (H x Hx) as [? ?%Hins]; tauto|].
      intros (y & Hy & Hin). destruct (H y Hin) as [_ [? _]%Hins]. congruence.
    - intros [H Hn] x Hx. destruct (H x Hx). split; [done|]. apply Hins. split; [|done].
      intros Heq. apply Hn. by exists x. }
  destruct (index_ids legs (S i) _) as [ids'|].
  - destruct IH as ([Hf Hnot]%Hhead & Hnd & Hl). split_and!; [by constructor|by constructor|].
    intros d u. rewrite Hl, lookup_insert_Some. split.
    + intros [[[<- <-]|[Hne Hd]]|(k & l & Hk & <- & ->)]; [right; exists 0%nat, leg; rewrite Nat.add_0_r; done|by left|].
      right. exists (S k), l. split_and!; [done..|lia].
    + intros [Hd|([|k] & l & Hk & <- & ->)].
      * left. right. split; [congruence|done].
      * left. left. injection Hk as ->. split; [done|lia].
      * right. exists k, l. split_and!; [done..|lia].
  - intros [Hf Hnd]. apply IH. apply Forall_cons in Hf as [_ Hf]. apply NoDup_cons in Hnd as [Hni Hnd].
    split; [by apply Hhead|done].
Qed.

Lemma edges_from_spec ids legs s v : forall i,
  (s, v) ∈ edges_from ids legs i <->
  exists k leg d, legs !! k = Some leg /\ v = (i + k)%nat /\ d ∈ depends_on leg /\ ids !! d = Some s.
Proof.
  induction legs as [|leg legs IH]; intros i; cbn [edges_from].
  { rewrite elem_of_nil. split; [done|]. by intros (k & l & d & Hk & _). }
  rewrite elem_of_app, IH. unfold leg_edges. rewrite list_elem_of_omap. split.
  - intros [(d & Hd & Hs)|(k & l & d & Hk & -> & Hd & Hs)].
    + destruct (ids !! d) as [u|] eqn:Eu; [|done]. injection Hs as -> ->.
      exists 0%nat, leg, d. rewrite Nat.add_0_r. done.
    + exists (S k), l, d. split_and!; [done|lia|done|done].
  - intros ([|k] & l & d & Hk & -> & Hd & Hs).
    + injection Hk as ->. left. exists d. rewrite Hs, Nat.add_0_r. done.
    + right. exists k, l, d. split_and!; [done|lia|done|done].
Qed.

Lemma waiting_nil E v : waiting E [] v = in_edges E v.
Proof.
  unfold waiting, in_edges. do 2 f_equal. induction E as [|[a b] E IH]; [done|]. cbn [List.filter fst snd].
  rewrite bool_decide_eq_false_2 by (by intros ?%elem_of_nil). rewrite andb_true_r. case_match; by rewrite ?IH.
Qed.

Lemma kahn_start n E g : graph_of n E g ->
  kahn_inv n E (in_degree g) [] (List.filter (fun i => in_degree g !!! i =? 0) (seq 0 n)) [].
Proof.
  intros (H1 & H2 & H3). assert (Hin : forall v, v ∈ List.filter (fun i => in_degree g !!! i =? 0) (seq 0 n) <->
    (v < n)%nat /\ in_degree g !!! v = 0).
  { intros v. rewrite list_elem_of_In, filter_In, <- list_elem_of_In, elem_of_seq, Z.eqb_eq. lia. }
  constructor; [done|..].
  - intros v Hv. rewrite waiting_nil. destruct (H3 v Hv) as [-> _]. unfold occ. simpl. lia.
  - intros v Hv. simpl. rewrite Hin. tauto.
  - simpl. apply NoDup_ListNoDup, List.NoDup_filter, seq_NoDup.
  - apply Forall_forall. intros v. simpl. rewrite Hin. tauto.
Qed.

Lemma leg_rank_index (legs : list BasketLeg) (rank : nat -> nat) : NoDup (leg_ids legs) ->
  exists srank : string -> nat, forall k leg, legs !! k = Some leg -> srank (leg_id leg) = rank k.
Proof.
  intros Hnd. exists (fun d => rank (default 0%nat (fst <$> list_find (eq d) (leg_ids legs)))).
  intros k leg Hk. f_equal. assert (Hd : leg_ids legs !! k = Some (leg_id leg)) by (unfold leg_ids; by rewrite list_lookup_fmap, Hk).
  destruct (list_find _ _) as [[j y]|] eqn:Ef.
  - apply list_find_Some in Ef as (Hj & <- & _). simpl. by eapply NoDup_lookup.
  - apply list_find_None in Ef. apply list_elem_of_lookup_2 in Hd. exfalso.
    by apply (proj1 (Forall_forall _ _) Ef (leg_id leg) Hd).
Qed.

(** ** A basket whose ids and dependencies are sound *)

Section sound.
Context (legs : list BasketLeg) (ids : gmap string nat).
Context (Hne : Forall (fun leg => leg_id leg <> "") legs) (Hnd : NoDup (leg_ids legs)).
Context (Hids : forall d u, ids !! d = Some u <-> exists leg, legs !! u = Some leg /\ leg_id leg = d).

Lemma ids_known d : is_Some (ids !! d) <-> d ∈ leg_ids legs.
Proof.
  unfold leg_ids. rewrite list_elem_of_fmap. split.
  - intros [u (leg & Hu & <-)%Hids]. exists leg. split; [done|by eapply list_elem_of_lookup_2].
  - intros (leg & -> & [u Hu]%list_elem_of_lookup). exists u. apply Hids. eauto.
Qed.

Lemma deps_known_wf :
  Forall (deps_known ids) legs <-> Forall (fun leg => Forall (fun d => d ∈ leg_ids legs) (depends_on leg)) legs.
Proof.
  split; intros H; (eapply Forall_impl; [exact H|]); intros leg Hk; (eapply Forall_impl; [exact Hk|]); intros d; apply ids_known.
Qed.

Lemma ids_below_length : ids_below ids (length legs).
Proof. intros d u (leg & Hu%lookup_lt_Some & _)%Hids. done. Qed.

Context (Hknown : Forall (deps_known ids) legs).

Lemma sound_edges_below :
  Forall (fun e => (fst e < length legs)%nat /\ (snd e < length legs)%nat) (edges_from ids legs 0).
Proof.
  apply Forall_forall. intros [s v] (k & leg & d & Hk & -> & _ & Hs)%edges_from_spec. simpl.
  split; [by eapply ids_below_length|by eapply lookup_lt_Some].
Qed.

(** A dependency is an edge. *)
Lemma dep_edge v leg d : legs !! v = Some leg -> d ∈ depends_on leg ->
  exists s dep, (s, v) ∈ edges_from ids legs 0 /\ legs !! s = Some dep /\ leg_id dep = d.
Proof.
  intros Hv Hd. assert (is_Some (ids !! d)) as [s Hs].
  { apply list_elem_of_lookup_2 in Hv. by apply (proj1 (Forall_forall _ _) (proj1 (Forall_forall _ _) Hknown leg Hv)). }
  pose proof (proj1 (Hids d s) Hs) as (dep & Hdep & <-). exists s, dep. split; [|done].
  apply edges_from_spec. exists v, leg, (leg_id dep). done.
Qed.

Lemma respected_first order : order_respected (edges_from ids legs 0) order -> prerequisites_first legs order.
Proof.
  intros Ho O1 v O2 leg d Hsplit Hv Hd. destruct (dep_edge v leg d Hv Hd) as (s & dep & Hs & ? & ?).
  exists s, dep. split; [by eapply Ho|done].
Qed.

Lemma ranked_wf rank : ranked (edges_from ids legs 0) rank -> well_formed_basket legs.
Proof.
  intros Hr. destruct (leg_rank_index legs rank Hnd) as [srank Hsr].
  constructor; [done|done|by apply deps_known_wf|exists srank].
  apply Forall_forall. intros leg Hleg. apply Forall_forall. intros d Hd.
  apply list_elem_of_lookup in Hleg as [k Hk]. destruct (dep_edge k leg d Hk Hd) as (s & dep & Hs & Hdep & <-).
  rewrite (Hsr s dep Hdep), (Hsr k leg Hk). by apply Hr.
Qed.

Lemma wf_ranked : well_formed_basket legs -> exists rank, ranked (edges_from ids legs 0) rank.
Proof.
  intros [_ _ _ [srank Hsr]]. exists (fun k => default 0%nat ((fun leg => srank (leg_id leg)) <$> legs !! k)).
  intros s v (k & leg & d & Hk & -> & Hd & Hs)%edges_from_spec. apply Hids in Hs as (dep & Hdep & <-).
  simpl. rewrite Hk, Hdep. simpl. apply list_elem_of_lookup_2 in Hk.
  by apply (proj1 (Forall_forall _ _) (proj1 (Forall_forall _ _) Hsr leg Hk)).
Qed.
End sound.

(** The accepted baskets, and the order they get. *)
Lemma topological_order_spec legs :
  (is_Some (topological_order legs) <-> well_formed_basket legs)
  /\ forall order, topological_order legs = Some order ->
       order ≡ₚ seq 0 (length legs) /\ prerequisites_first legs order.
Proof.
  unfold topological_order. pose proof (index_ids_spec legs 0 ∅) as Hi.
  destruct (index_ids legs 0 ∅) as [ids|]; cycle 1.
  { split; [|done]. split; [by intros [? ?]|]. intros [H1 H2 _ _]. exfalso. apply Hi. split; [|done].
    eapply Forall_impl; [exact H1|]. intros leg ?. by rewrite lookup_empty. }
  destruct Hi as (Hne & Hnd & Hl). assert (Forall (fun leg => leg_id leg <> "") legs) as Hne'
    by (eapply Forall_impl; [exact Hne|by intros ? []]).
  assert (Hids : forall d u, ids !! d = Some u <-> exists leg, legs !! u = Some leg /\ leg_id leg = d).
  { intros d u. rewrite Hl, lookup_empty. naive_solver. }
  pose proof (build_graph_spec ids _ (ids_below_length legs ids Hids) legs 0 [] _ eq_refl (graph_of_empty _)) as Hg.
  destruct (build_graph _ _ _ _) as [g|]; cycle 1.
  { split; [|done]. split; [by intros [? ?]|]. intros [_ _ H3 _]. by apply (deps_known_wf legs ids Hids) in H3. }
  destruct Hg as [Hknown Hg]. simpl in Hg. set (order := kahn _ _ _ _ _).
  pose proof (sound_edges_below legs ids Hids) as HE.
  destruct (kahn_spec _ _ (dependents g) HE (fun u Hu => proj2 (proj2 (proj2 Hg) u Hu)) (length legs) (in_degree g) _ []
    ltac:(lia) (kahn_start _ _ g Hg)) as [Ho [deg Hk]]; [intros O1 v O2 Hnil; by destruct O1|].
  fold order in Ho, Hk. pose proof (respected_first legs ids Hids Hknown order Ho) as Hfirst.
  case_bool_decide as Hlen; split; [|intros order' [= <-]; split; [by eapply full_order|done]| |done].
  - split; [intros _|by eexists]. destruct (order_ranked _ _ HE order (full_order _ _ _ _ Hk Hlen) Ho) as [rank Hr].
    by apply (ranked_wf legs ids Hne' Hnd Hids Hknown rank).
  - split; [by intros [? ?]|]. intros [rank Hr]%(wf_ranked legs ids Hids). exfalso. apply Hlen.
    by apply (kahn_complete _ _ HE deg order rank).
Qed.

(** ** Property *)

(** Being well formed does not depend on the order of the legs. *)
Lemma well_formed_permuted legs legs' : legs ≡ₚ legs' -> well_formed_basket legs -> well_formed_basket legs'.
Proof.
  intros Hp [H1 H2 H3 [rank H4]]. assert (leg_ids legs ≡ₚ leg_ids legs') as Hi by by apply fmap_Permutation.
  split; [by rewrite <- Hp|by rewrite <- Hi| |exists rank; by rewrite <- Hp].
  rewrite <- Hp. eapply Forall_impl; [exact H3|]. intros leg Hd. eapply Forall_impl; [exact Hd|]. intros d Hin. by rewrite <- Hi.
Qed.

(** The dependency order is exact, cycles included: the code accepts
    precisely the baskets whose ids are present and unique, whose dependencies
    name legs of the basket and whose dependencies have no cycle; the order it
    then gives is a permutation of the legs in which every leg comes after all
    its prerequisites. The loop needs no more rounds than there are legs.
    Listing the legs in another order changes neither. *)
Theorem topological_order_exact legs :
  (is_Some (topological_order legs) <-> well_formed_basket legs)
  /\ (forall order, topological_order legs = Some order ->
       order ≡ₚ seq 0 (length legs) /\ prerequisites_first legs order)
  /\ forall legs', legs ≡ₚ legs' -> is_Some (topological_order legs) <-> is_Some (topological_order legs').
Proof.
  destruct (topological_order_spec legs) as [Hw Ho]. split; [done|]. split; [done|]. intros legs' Hp.
  rewrite Hw, (proj1 (topological_order_spec legs')). split; apply well_formed_permuted; [done|by symmetry].
Qed.

Example diamond_order (legs := [mkLeg "d" ["b"; "c"]; mkLeg "b" ["a"]; mkLeg "c" ["a"; "a"]; mkLeg "a" []]) :
  topological_order legs = Some [3; 1; 2; 0]%nat
  /\ topological_order (mkLeg "x" ["x"] :: legs) = None /\ topological_order (mkLeg "a" [] :: legs) = None.
Proof. by vm_compute. Qed.
