(* ===== verification/Basket.v ===== *)
(** * Basket: multi-leg orders as one unit (src/src/options/basket.cpp)

    The placement in the dependency order of LegOrder.v and the remediation of
    a partial basket. The seams answer from
    the history of the calls made so far, so a seam may depend on anything
    that happened in the basket. *)

From S2P Require Import Prelude Errors Dispatcher Modes LegOrder.

(** ** Data *)

Inductive LegFailurePolicy := UnwindExecuted | LeaveAndAlert.

Record BasketConfig := mkBasketConfig {
  on_leg_failure : LegFailurePolicy; track_as_single_unit : bool; cfg_basket_id : string }.

Inductive LegStatus := Executed | LegFailed | SkippedUnmetDependency | Unwound | AmbiguousMayBeLive.

#[export] Instance LegStatus_eq_dec : EqDecision LegStatus.
Proof. solve_decision. Defined.
#[export] Instance LegStatus_inhabited : Inhabited LegStatus := populate SkippedUnmetDependency.

Record LegResult := mkLegResult { lr_id : string; lr_status : LegStatus; lr_order_id : string; lr_detail : string }.

Inductive BasketOutcome := Complete | PartiallyExecutedUnwound | PartiallyExecutedLeft | Blocked | ReconcileRequired.

#[export] Instance BasketOutcome_eq_dec : EqDecision BasketOutcome.
Proof. solve_decision. Defined.

Record BasketResult := mkBasketResult {
  bk_outcome : BasketOutcome; bk_id : string; bk_legs : list LegResult; bk_single_unit : bool; bk_detail : string }.

Definition leg_status_to_string (s : LegStatus) : string :=
  match s with
  | Executed => "Executed"
  | LegFailed => "Failed"
  | SkippedUnmetDependency => "SkippedUnmetDependency"
  | Unwound => "Unwound"
  | AmbiguousMayBeLive => "AmbiguousMayBeLive"
  end.

Definition outcome_to_string (o : BasketOutcome) : string :=
  match o with
  | Complete => "Complete"
  | PartiallyExecutedUnwound => "PartiallyExecutedUnwound"
  | PartiallyExecutedLeft => "PartiallyExecutedLeft"
  | Blocked => "Blocked"
  | ReconcileRequired => "ReconcileRequired"
  end.

(** A call of a seam with its answer, or an alert (whose result is
    swallowed). *)
Inductive BasketEvent :=
  | PlaceLeg (leg : string) (answer : result BrokerAck)
  | UnwindLeg (order_id : string) (answer : result unit)
  | BasketAlert (level : AlertLevel) (message : string).

Record BasketSeams := mkSeams {
  place_leg : option (list BasketEvent -> BasketLeg -> result BrokerAck);
  unwind_leg : option (list BasketEvent -> string -> result unit) }.

(** ** Execution *)

Definition error_tag (e : Error) : string := category_to_string (category e).

Definition is_ambiguous (e : Error) : bool :=
  if bool_decide (action e = ReconcileFirst) then true
  else bool_decide (category e = Timeout) || bool_decide (category e = Network) || bool_decide (category e = CatUnknown).

Definition fallback_basket_id (leg_count : nat) : string := "basket-" +:+ pretty leg_count.

Record BasketRun := mkRun {
  run_status : list LegStatus; run_order_id : list string; run_detail : list string; run_events : list BasketEvent }.

(** The map the executor rebuilds: [emplace] keeps the first index. *)
Fixpoint emplace_ids (legs : list BasketLeg) (i : nat) (ids : gmap string nat) : gmap string nat :=
  match legs with
  | [] => ids
  | leg :: rest =>
      emplace_ids rest (S i)
        (match ids !! leg_id leg with Some _ => ids | None => <[leg_id leg := i]> ids end)
  end.

Definition prerequisites_met (ids : gmap string nat) (status : list LegStatus) (leg : BasketLeg) : bool :=
  forallb (fun dep => match ids !! dep with
                      | Some j => bool_decide (status !! j = Some Executed)
                      | None => false
                      end) (depends_on leg).

Definition set_leg (i : nat) (s : LegStatus) (order_id detail : string) (events : list BasketEvent) (r : BasketRun) : BasketRun :=
  mkRun (<[i := s]> (run_status r)) (<[i := order_id]> (run_order_id r)) (<[i := detail]> (run_detail r)) events.

Definition place_step (place : list BasketEvent -> BasketLeg -> result BrokerAck) (legs : list BasketLeg)
    (ids : gmap string nat) (r : BasketRun) (i : nat) : BasketRun :=
  match legs !! i with
  | None => r
  | Some leg =>
      if negb (prerequisites_met ids (run_status r) leg)
      then set_leg i SkippedUnmetDependency (run_order_id r !!! i)
             "skipped: a prerequisite leg was not Executed (never orphaned)" (run_events r) r
      else
        let answer := place (run_events r) leg in
        let events := run_events r ++ [PlaceLeg (leg_id leg) answer] in
        match answer with
        | Err e =>
            if is_ambiguous e
            then set_leg i AmbiguousMayBeLive (run_order_id r !!! i)
                   ("leg placement AMBIGUOUS, order MAY be LIVE (no order_id): " +:+ error_tag e +:+
                    "; reconcile before any unwind") events r
            else set_leg i LegFailed (run_order_id r !!! i)
                   ("leg placement rejected (definitive, order not placed): " +:+ error_tag e) events r
        | Ok ack => set_leg i Executed (ack_broker_order_id ack) "leg executed" events r
        end
  end.

(** One leg of the unwind loop; [live] is the text of the legs still live. *)
Definition unwind_step (unwind : option (list BasketEvent -> string -> result unit)) (legs : list BasketLeg)
    (st : BasketRun * string) (i : nat) : BasketRun * string :=
  let '(r, live) := st in
  if negb (bool_decide (run_status r !! i = Some Executed)) then st
  else
    let still_live detail events :=
      (set_leg i Executed (run_order_id r !!! i) detail events r,
       (if String.eqb live "" then "" else live +:+ ",") +:+ default "" (leg_id <$> legs !! i)) in
    match unwind with
    | None => still_live "CRITICAL: unwind seam not configured, leg still LIVE" (run_events r)
    | Some f =>
        let answer := f (run_events r) (run_order_id r !!! i) in
        let events := run_events r ++ [UnwindLeg (run_order_id r !!! i) answer] in
        match answer with
        | Ok _ => (set_leg i Unwound (run_order_id r !!! i) "leg unwound during remediation" events r, live)
        | Err e => still_live ("CRITICAL: unwind failed, leg still LIVE: " +:+ error_tag e) events
        end
    end.

(** The names of the ambiguous legs, and the details of the executed ones
    that stay live beside them. *)
Fixpoint join_comma (names : list string) (acc : string) : string :=
  match names with
  | [] => acc
  | x :: rest => join_comma rest ((if String.eqb acc "" then acc else acc +:+ ",") +:+ x)
  end.

Definition ambiguous_legs (legs : list BasketLeg) (status : list LegStatus) : string :=
  join_comma (map (fun p => leg_id p.1)
    (List.filter (fun p => bool_decide (p.2 = AmbiguousMayBeLive)) (zip legs status))) "".

Definition left_live_details (status : list LegStatus) (details : list string) : list string :=
  zip_with (fun s d => if bool_decide (s = Executed)
                       then "leg LEFT LIVE: unwind SUPPRESSED while an ambiguous leg may be live" else d) status details.

Definition alert_event (level : AlertLevel) (message : string) (r : BasketRun) : BasketRun :=
  mkRun (run_status r) (run_order_id r) (run_detail r) (run_events r ++ [BasketAlert level message]).

(** What follows the placements. *)
Definition conclude_basket (legs : list BasketLeg) (config : BasketConfig) (seams : BasketSeams) (order : list nat)
    (r : BasketRun) : BasketOutcome * string * BasketRun :=
  if existsb (fun s => bool_decide (s = AmbiguousMayBeLive)) (run_status r) then
    let names := ambiguous_legs legs (run_status r) in
    (ReconcileRequired,
     "basket RECONCILE REQUIRED: ambiguous leg(s) may be LIVE at the broker: " +:+ names +:+ "; NO leg was unwound",
     alert_event AlertCritical
       ("BASKET RECONCILE REQUIRED: leg placement was AMBIGUOUS and MAY be LIVE at the broker: " +:+ names +:+
        "; NO leg was unwound - reconcile before cancelling anything")
       (mkRun (run_status r) (run_order_id r) (left_live_details (run_status r) (run_detail r)) (run_events r)))
  else if negb (existsb (fun s => bool_decide (s = LegFailed \/ s = SkippedUnmetDependency)) (run_status r)) then
    (Complete, "basket complete: all legs executed", r)
  else
    match on_leg_failure config with
    | UnwindExecuted =>
        let '(r, live) := foldl (unwind_step (unwind_leg seams) legs) (r, "") (rev order) in
        if String.eqb live "" then
          (PartiallyExecutedUnwound, "basket partial: executed legs unwound per policy",
           alert_event AlertCritical "BASKET PARTIAL: a leg failed; all executed legs unwound per policy" r)
        else
          (PartiallyExecutedUnwound, "basket partial: unwind attempted; legs still LIVE: " +:+ live,
           alert_event AlertCritical
             ("BASKET PARTIAL: a leg failed and one or more executed legs could NOT be unwound and remain LIVE: " +:+
              live) r)
    | LeaveAndAlert =>
        (PartiallyExecutedLeft, "basket partial: executed legs left in place per policy; operator alerted",
         alert_event AlertWarning "BASKET PARTIAL: a leg failed; executed legs LEFT in place per policy" r)
    end.

Definition leg_results (legs : list BasketLeg) (r : BasketRun) : list LegResult :=
  imap (fun i leg => mkLegResult (leg_id leg) (run_status r !!! i) (run_order_id r !!! i) (run_detail r !!! i)) legs.

(** The result and the events, in order. *)
Definition execute_basket (legs : list BasketLeg) (config : BasketConfig) (seams : BasketSeams) :
    BasketResult * list BasketEvent :=
  let id := if String.eqb (cfg_basket_id config) "" then fallback_basket_id (length legs) else cfg_basket_id config in
  let blocked detail :=
    (mkBasketResult Blocked id
       (map (fun leg => mkLegResult (leg_id leg) SkippedUnmetDependency "" "basket blocked pre-flight") legs)
       (track_as_single_unit config) detail, []) in
  match place_leg seams with
  | None => blocked "basket blocked: place_leg seam not configured (nothing placed)"
  | Some place =>
      match topological_order legs with
      | None => blocked "basket blocked: invalid basket (empty/duplicate leg_id, unknown dependency, or cycle); nothing placed"
      | Some order =>
          let n := length legs in
          let start := mkRun (replicate n SkippedUnmetDependency) (replicate n "") (replicate n "") [] in
          let placed := foldl (place_step place legs (emplace_ids legs 0 ∅)) start order in
          let '(outcome, detail, r) := conclude_basket legs config seams order placed in
          (mkBasketResult outcome id (leg_results legs r) (track_as_single_unit config) detail, run_events r)
      end
  end.

(** ** What the events say of a leg *)

Definition placement (e : BasketEvent) : option (string * result BrokerAck) :=
  match e with PlaceLeg id r => Some (id, r) | _ => None end.

Definition unwind_of (e : BasketEvent) : option (string * result unit) :=
  match e with UnwindLeg id r => Some (id, r) | _ => None end.

Definition placements (events : list BasketEvent) : list (string * result BrokerAck) := omap placement events.

(** The answer to the placement of a leg, if it was placed. *)
Definition answer_of (id : string) (events : list BasketEvent) : option (result BrokerAck) :=
  snd <$> List.find (fun p => String.eqb (fst p) id) (placements events).

Definition status_from (answer : option (result BrokerAck)) : LegStatus :=
  match answer with
  | None => SkippedUnmetDependency
  | Some (Ok _) => Executed
  | Some (Err e) => if is_ambiguous e then AmbiguousMayBeLive else LegFailed
  end.

Definition order_id_from (answer : option (result BrokerAck)) : string :=
  match answer with Some (Ok ack) => ack_broker_order_id ack | _ => "" end.

(** The order ids acknowledged, in the order of the placements. *)
Definition acked_ids (events : list BasketEvent) : list string :=
  omap (fun p => match snd p with Ok ack => Some (ack_broker_order_id ack) | Err _ => None end) (placements events).

Definition may_be_live (events : list BasketEvent) : bool :=
  existsb (fun p => match snd p with Err e => is_ambiguous e | Ok _ => false end) (placements events).

Definition acknowledged (id : string) (events : list BasketEvent) : Prop := exists ack, PlaceLeg id (Ok ack) ∈ events.

(** A placement is the seam's answer to a leg of the basket, given after all
    its prerequisites were acknowledged. *)
Definition never_orphaned (place : list BasketEvent -> BasketLeg -> result BrokerAck) (legs : list BasketLeg)
    (events : list BasketEvent) : Prop :=
  forall pre id r post, events = pre ++ PlaceLeg id r :: post ->
    exists leg, leg ∈ legs /\ leg_id leg = id /\ r = place pre leg
                /\ Forall (fun d => acknowledged d pre) (depends_on leg).

Lemma placements_snoc events id r : placements (events ++ [PlaceLeg id r]) = placements events ++ [(id, r)].
Proof. unfold placements. by rewrite omap_app. Qed.

Lemma find_app' {A} (f : A -> bool) l k :
  List.find f (l ++ k) = match List.find f l with Some x => Some x | None => List.find f k end.
Proof. induction l as [|x l IH]; simpl; [done|]. by destruct (f x). Qed.

Lemma answer_of_snoc id events id' r :
  answer_of id (events ++ [PlaceLeg id' r]) =
  match answer_of id events with Some a => Some a | None => if String.eqb id' id then Some r else None end.
Proof.
  unfold answer_of. rewrite placements_snoc, find_app'. destruct (List.find _ _); [done|]. simpl.
  by destruct (String.eqb id' id).
Qed.

Lemma answer_of_None id events : answer_of id events = None <-> id ∉ (placements events).*1.
Proof.
  unfold answer_of. rewrite fmap_None. split.
  - intros Hf (p & -> & Hp%list_elem_of_In)%list_elem_of_fmap. apply (find_none _ _ Hf) in Hp. by rewrite String.eqb_refl in Hp.
  - intros Hn. destruct (List.find _ _) as [p|] eqn:E; [|done]. apply find_some in E as [Hp He].
    apply String.eqb_eq in He as <-. exfalso. apply Hn. apply list_elem_of_fmap. exists p. split; [done|]. by apply list_elem_of_In.
Qed.

Lemma answer_of_elem id r events : answer_of id events = Some r -> PlaceLeg id r ∈ events.
Proof.
  unfold answer_of. intros H. apply fmap_Some in H as ([id' r'] & [Hin He]%find_some & ->). simpl in *.
  apply String.eqb_eq in He as ->. apply list_elem_of_In in Hin. unfold placements in Hin.
  apply list_elem_of_omap in Hin as ([] & Hin & Hp); simplify_eq/=. done.
Qed.

Lemma elem_answer_of id r events : PlaceLeg id r ∈ events -> answer_of id events <> None.
Proof.
  rewrite answer_of_None. intros Hin Hn. apply Hn. apply list_elem_of_fmap. exists (id, r). split; [done|].
  unfold placements. apply list_elem_of_omap. by exists (PlaceLeg id r).
Qed.

(** Without repeated placements the answer is the only one. *)
Lemma answer_of_unique id r events : NoDup (placements events).*1 -> PlaceLeg id r ∈ events -> answer_of id events = Some r.
Proof.
  intros Hnd Hin. destruct (answer_of id events) as [r'|] eqn:E; [|by apply elem_answer_of in Hin].
  apply answer_of_elem in E. assert (H1 : (id, r) ∈ placements events) by (apply list_elem_of_omap; by exists (PlaceLeg id r)).
  assert (H2 : (id, r') ∈ placements events) by (apply list_elem_of_omap; by exists (PlaceLeg id r')).
  apply list_elem_of_lookup in H1 as [i Hi], H2 as [j Hj].
  assert (i = j) as -> by (eapply (NoDup_lookup (placements events).*1); [done|by rewrite list_lookup_fmap, Hi|by rewrite list_lookup_fmap, Hj]).
  congruence.
Qed.

Lemma acknowledged_spec id events : NoDup (placements events).*1 ->
  acknowledged id events <-> status_from (answer_of id events) = Executed.
Proof.
  intros Hnd. split.
  - intros [ack Hin]. by rewrite (answer_of_unique _ _ _ Hnd Hin).
  - destruct (answer_of id events) as [[ack|e]|] eqn:E; simpl; [|by destruct (is_ambiguous e)|done].
    intros _. exists ack. by apply answer_of_elem.
Qed.

(** ** The placement loop *)

Section placing.
Context (place : list BasketEvent -> BasketLeg -> result BrokerAck) (legs : list BasketLeg) (ids : gmap string nat).
Context (Hnd : NoDup (leg_ids legs)).
Context (Hids : forall d u, ids !! d = Some u <-> exists leg, legs !! u = Some leg /\ leg_id leg = d).

(** [O] is what of the order was gone through. *)
Record placing_inv (O : list nat) (r : BasketRun) : Prop := mkPlacing {
  pl_len : length (run_status r) = length legs /\ length (run_order_id r) = length legs /\ length (run_detail r) = length legs;
  pl_legs : forall i leg, legs !! i = Some leg ->
    run_status r !! i = Some (status_from (answer_of (leg_id leg) (run_events r)))
    /\ run_order_id r !! i = Some (order_id_from (answer_of (leg_id leg) (run_events r)));
  pl_done : forall id, id ∈ (placements (run_events r)).*1 -> exists i leg, i ∈ O /\ legs !! i = Some leg /\ leg_id leg = id;
  pl_nodup : NoDup (placements (run_events r)).*1;
  pl_orphan : never_orphaned place legs (run_events r);
  pl_only : Forall (fun e => is_Some (placement e)) (run_events r);
  pl_skipped : forall i leg, i ∈ O -> legs !! i = Some leg -> answer_of (leg_id leg) (run_events r) = None ->
    exists u dep, u ∈ O /\ legs !! u = Some dep /\ leg_id dep ∈ depends_on leg
                  /\ ~ acknowledged (leg_id dep) (run_events r);
  pl_acked : acked_ids (run_events r) =
    omap (fun i => if bool_decide (run_status r !! i = Some Executed) then Some (run_order_id r !!! i) else None) O }.

Lemma prerequisites_spec O r leg : placing_inv O r -> Forall (fun d => d ∈ leg_ids legs) (depends_on leg) ->
  prerequisites_met ids (run_status r) leg = true <-> Forall (fun d => acknowledged d (run_events r)) (depends_on leg).
Proof.
  intros Hi Hk. unfold prerequisites_met. rewrite forallb_forall, Forall_forall. setoid_rewrite <- list_elem_of_In.
  apply forall_proper. intros d. split; intros H Hd; specialize (H Hd);
    pose proof (proj1 (Forall_forall _ _) Hk d Hd) as (dep & -> & [j Hj]%list_elem_of_lookup)%list_elem_of_fmap;
    assert (ids !! leg_id dep = Some j) as Hidx by (apply Hids; eauto);
    destruct (pl_legs _ _ Hi j dep Hj) as [Hs _]; rewrite Hidx, Hs in *;
    rewrite acknowledged_spec in * by apply Hi.
  - apply bool_decide_eq_true in H. congruence.
  - apply bool_decide_eq_true. congruence.
Qed.

Lemma omap_ext_elem {A B} (f g : A -> option B) (l : list A) : (forall x, x ∈ l -> f x = g x) -> omap f l = omap g l.
Proof.
  induction l as [|x l IH]; intros H; [done|]. simpl. rewrite (H x) by left.
  assert (omap f l = omap g l) as IHl by (apply IH; intros y Hy; apply H; by right). unfold omap in IHl. by rewrite IHl.
Qed.

Lemma acked_ids_snoc events id a :
  acked_ids (events ++ [PlaceLeg id a]) = acked_ids events ++ match a with Ok ack => [ack_broker_order_id ack] | Err _ => [] end.
Proof. unfold acked_ids. rewrite placements_snoc, omap_app. by destruct a. Qed.

(** The leg at [i] is untouched before its turn. *)
Lemma not_placed O r i leg : placing_inv O r -> i ∉ O -> legs !! i = Some leg ->
  answer_of (leg_id leg) (run_events r) = None /\ run_order_id r !!! i = "".
Proof.
  intros Hi Hni Hleg. assert (answer_of (leg_id leg) (run_events r) = None) as Hn.
  { apply answer_of_None. intros (j & leg' & Hj & Hleg' & He)%(pl_done _ _ Hi). apply Hni.
    replace i with j; [done|]. eapply (NoDup_lookup (leg_ids legs)); [done|unfold leg_ids; by rewrite list_lookup_fmap, Hleg'|].
    unfold leg_ids. by rewrite list_lookup_fmap, Hleg, He. }
  split; [done|]. destruct (pl_legs _ _ Hi i leg Hleg) as [_ Ho]. rewrite Hn in Ho. by apply list_lookup_total_correct.
Qed.

Lemma acked_same (O : list nat) r i s o d events : i ∉ O ->
  omap (fun k => if bool_decide (run_status r !! k = Some Executed) then Some (run_order_id r !!! k) else None) O =
  omap (fun k => if bool_decide (run_status (set_leg i s o d events r) !! k = Some Executed)
                 then Some (run_order_id (set_leg i s o d events r) !!! k) else None) O.
Proof.
  intros Hni. apply omap_ext_elem. intros k Hk. simpl. assert (i <> k) by (by intros ->).
  by rewrite list_lookup_insert_ne, list_lookup_total_insert_ne.
Qed.

Lemma other_leg i j leg leg' : legs !! i = Some leg -> legs !! j = Some leg' -> i <> j -> leg_id leg <> leg_id leg'.
Proof.
  intros Hi Hj Hne He. apply Hne. eapply (NoDup_lookup (leg_ids legs)); [done|unfold leg_ids; by rewrite list_lookup_fmap, Hi|].
  unfold leg_ids. by rewrite list_lookup_fmap, Hj, He.
Qed.

(** The prerequisites of the leg have had their turn. *)
Definition deps_done (O : list nat) (leg : BasketLeg) : Prop :=
  Forall (fun d => exists u dep, u ∈ O /\ legs !! u = Some dep /\ leg_id dep = d) (depends_on leg).

Lemma unmet_dep O r leg : placing_inv O r -> deps_done O leg ->
  ~ Forall (fun d => acknowledged d (run_events r)) (depends_on leg) ->
  exists u dep, u ∈ O /\ legs !! u = Some dep /\ leg_id dep ∈ depends_on leg /\ ~ acknowledged (leg_id dep) (run_events r).
Proof.
  intros Hi Hdone Hn.
  destruct (decide (Forall (fun d => status_from (answer_of d (run_events r)) = Executed) (depends_on leg))) as [H|H].
  - exfalso. apply Hn. eapply Forall_impl; [exact H|]. intros d. by apply acknowledged_spec, Hi.
  - apply not_Forall_Exists, Exists_exists in H as (d & Hd & Ha); [|apply _]. destruct (proj1 (Forall_forall _ _) Hdone d Hd) as (u & dep & Hu & Hdep & <-).
    exists u, dep. split_and!; [done..|]. by rewrite acknowledged_spec by apply Hi.
Qed.

Lemma skip_inv O r i leg detail : placing_inv O r -> i ∉ O -> legs !! i = Some leg -> deps_done O leg ->
  ~ Forall (fun d => acknowledged d (run_events r)) (depends_on leg) ->
  placing_inv (O ++ [i]) (set_leg i SkippedUnmetDependency (run_order_id r !!! i) detail (run_events r) r).
Proof.
  intros Hi Hni Hleg Hdone Hpre. destruct (not_placed O r i leg Hi Hni Hleg) as [Hn Ho].
  pose proof (unmet_dep O r leg Hi Hdone Hpre) as (w & dep & Hw & Hdep).
  pose proof (lookup_lt_Some _ _ _ Hleg) as Hlt. destruct Hi as [(L1 & L2 & L3) H2 H3 H4 H5 H6 H7 H8].
  constructor; try done; cbn [set_leg run_status run_order_id run_detail run_events].
  - by rewrite !length_insert.
  - intros j leg' Hj. destruct (decide (i = j)) as [<-|Hne].
    + rewrite Hleg in Hj. injection Hj as <-. rewrite Hn, Ho, !list_lookup_insert_eq by lia. done.
    + rewrite !list_lookup_insert_ne by done. by apply H2.
  - intros id (j & leg' & Hj & Hl)%H3. exists j, leg'. rewrite elem_of_app. by split; [left|].
  - intros j leg' [Hj|Hj%list_elem_of_singleton]%elem_of_app Hleg' Ha.
    + destruct (H7 j leg' Hj Hleg' Ha) as (u & dep' & Hu & Hd). exists u, dep'. rewrite elem_of_app. by split; [left|].
    + subst j. rewrite Hleg in Hleg'. injection Hleg' as <-. exists w, dep. rewrite elem_of_app. by split; [left|].
  - rewrite omap_app. rewrite H8, (acked_same O r i SkippedUnmetDependency (run_order_id r !!! i) detail (run_events r) Hni).
    simpl. rewrite list_lookup_insert_eq by lia. by rewrite app_nil_r.
Qed.

Lemma never_orphaned_snoc events leg : never_orphaned place legs events -> leg ∈ legs ->
  Forall (fun d => acknowledged d events) (depends_on leg) ->
  never_orphaned place legs (events ++ [PlaceLeg (leg_id leg) (place events leg)]).
Proof.
  intros H Hleg Hpre pre id r post Heq. destruct post as [|e post _] using rev_ind.
  - apply app_inj_tail in Heq as [<- [= <- <-]]. by exists leg.
  - rewrite app_comm_cons, app_assoc in Heq. apply app_inj_tail in Heq as [Heq _]. by apply (H pre id r post).
Qed.

Lemma placed_inv O r i leg detail (a := place (run_events r) leg) : placing_inv O r -> i ∉ O -> legs !! i = Some leg ->
  Forall (fun d => acknowledged d (run_events r)) (depends_on leg) ->
  placing_inv (O ++ [i]) (set_leg i (status_from (Some a)) (order_id_from (Some a)) detail
                            (run_events r ++ [PlaceLeg (leg_id leg) a]) r).
Proof.
  intros Hi Hni Hleg Hpre. destruct (not_placed O r i leg Hi Hni Hleg) as [Hn _].
  pose proof (lookup_lt_Some _ _ _ Hleg) as Hlt. destruct Hi as [(L1 & L2 & L3) H2 H3 H4 H5 H6 H7 H8].
  constructor; cbn [set_leg run_status run_order_id run_detail run_events].
  - by rewrite !length_insert.
  - intros j leg' Hj. rewrite answer_of_snoc. destruct (decide (i = j)) as [<-|Hne].
    + rewrite Hleg in Hj. injection Hj as <-. rewrite Hn, String.eqb_refl, !list_lookup_insert_eq by lia. done.
    + rewrite !list_lookup_insert_ne by done. destruct (H2 j leg' Hj) as [-> ->].
      destruct (answer_of (leg_id leg') (run_events r)); [done|].
      destruct (String.eqb_spec (leg_id leg) (leg_id leg')) as [He|]; [|done]. by apply (other_leg i j leg leg') in He.
  - intros id. rewrite placements_snoc, fmap_app, elem_of_app. intros [(j & l & Hj & Hl)%H3|Hid].
    + exists j, l. rewrite elem_of_app. by split; [left|].
    + apply list_elem_of_singleton in Hid as ->. exists i, leg. rewrite elem_of_app. split; [right; left|done].
  - rewrite placements_snoc, fmap_app. apply NoDup_app. split_and!; [done| |apply NoDup_singleton].
    apply answer_of_None in Hn. intros x Hx ->%list_elem_of_singleton. done.
  - apply never_orphaned_snoc; [done|by eapply list_elem_of_lookup_2|done].
  - apply Forall_app. split; [done|]. by repeat constructor.
  - intros j leg' Hj Hleg'. rewrite answer_of_snoc. destruct (answer_of (leg_id leg') (run_events r)) eqn:E; [done|].
    destruct (String.eqb_spec (leg_id leg) (leg_id leg')) as [He|He]; [done|]. intros _.
    apply elem_of_app in Hj as [Hj|Hj%list_elem_of_singleton]; [|congruence].
    destruct (H7 j leg' Hj Hleg' E) as (u & dep & Hu & Hdep & Hin & Hna). exists u, dep.
    rewrite elem_of_app. split_and!; [by left|done|done|].
    intros [ack [Hack|[= Heq _]%list_elem_of_singleton]%elem_of_app]; [apply Hna; by exists ack|].
    assert (u <> i) as Hne by congruence. by apply (other_leg u i dep leg Hdep Hleg Hne).
  - rewrite acked_ids_snoc, omap_app, H8.
    rewrite (acked_same O r i (status_from (Some a)) (order_id_from (Some a)) detail
      (run_events r ++ [PlaceLeg (leg_id leg) a]) Hni). f_equal. cbn [omap list_omap set_leg run_status run_order_id].
    rewrite list_lookup_insert_eq, list_lookup_total_insert_eq by lia.
    destruct a as [ack|e]; simpl; [done|]. by destruct (is_ambiguous e).
Qed.

Lemma place_step_inv O r i leg : placing_inv O r -> i ∉ O -> legs !! i = Some leg -> deps_done O leg ->
  placing_inv (O ++ [i]) (place_step place legs ids r i).
Proof.
  intros Hi Hni Hleg Hdone. unfold place_step. rewrite Hleg.
  assert (Hk : Forall (fun d => d ∈ leg_ids legs) (depends_on leg)).
  { eapply Forall_impl; [exact Hdone|]. intros d (u & dep & _ & Hu & <-). unfold leg_ids.
    apply list_elem_of_fmap. exists dep. split; [done|by eapply list_elem_of_lookup_2]. }
  pose proof (prerequisites_spec O r leg Hi Hk) as Hp.
  destruct (prerequisites_met ids (run_status r) leg); cbn [negb].
  - pose proof (placed_inv O r i leg) as Hplaced. destruct (not_placed O r i leg Hi Hni Hleg) as [_ Ho].
    destruct (place (run_events r) leg) as [ack|e] eqn:Ea; simpl in Hplaced.
    + by apply Hplaced; [..|apply Hp].
    + rewrite Ho. destruct (is_ambiguous e) eqn:Eamb; by apply Hplaced; [..|apply Hp].
  - apply (skip_inv O r i leg); try done. by intros ?%Hp.
Qed.

Lemma placing_loop order : NoDup order -> Forall (fun i => (i < length legs)%nat) order ->
  prerequisites_first legs order ->
  forall O rest r, order = O ++ rest -> placing_inv O r -> placing_inv order (foldl (place_step place legs ids) r rest).
Proof.
  intros Hno Hb Hfirst O rest. revert O. induction rest as [|i rest IH]; intros O r Heq Hi.
  { rewrite app_nil_r in Heq. by subst. }
  cbn [foldl]. apply (IH (O ++ [i])); [by rewrite <- app_assoc|].
  assert (i < length legs)%nat as [leg Hleg]%lookup_lt_is_Some.
  { apply (proj1 (Forall_forall _ _) Hb). subst. apply elem_of_app. right. left. }
  apply (place_step_inv O r i leg); [done| |done|].
  - subst. apply NoDup_app in Hno as (_ & Hno & _). intros Hin. apply (Hno i Hin). left.
  - apply Forall_forall. intros d Hd. by apply (Hfirst O i rest leg d).
Qed.

Lemma start_inv (n := length legs) :
  placing_inv [] (mkRun (replicate n SkippedUnmetDependency) (replicate n "") (replicate n "") []).
Proof.
  subst n. constructor; simpl; try done.
  - by rewrite !length_replicate.
  - intros i leg Hleg. apply lookup_lt_Some in Hleg. by rewrite !lookup_replicate_2.
  - intros id. by intros ?%elem_of_nil.
  - constructor.
  - intros [|] ? ? ? [=].
  - by intros i leg ?%elem_of_nil.
Qed.
End placing.

Lemma emplace_index legs : forall i ids, match index_ids legs i ids with
  | Some ids' => emplace_ids legs i ids = ids' | None => True end.
Proof.
  induction legs as [|leg legs IH]; intros i ids; cbn [index_ids emplace_ids]; [done|].
  destruct (String.eqb (leg_id leg) ""); [done|]. destruct (ids !! leg_id leg); [done|]. apply IH.
Qed.

(** What the executor knows of a basket that passed the pre-flight. *)
Lemma accepted_basket legs order place (n := length legs) : topological_order legs = Some order ->
  NoDup order /\ order ≡ₚ seq 0 n /\
  placing_inv place legs order
    (foldl (place_step place legs (emplace_ids legs 0 ∅))
       (mkRun (replicate n SkippedUnmetDependency) (replicate n "") (replicate n "") []) order).
Proof.
  intros Ho. destruct (topological_order_spec legs) as [Hwf Hex]. destruct (Hex order Ho) as [Hp Hfirst].
  assert (well_formed_basket legs) as [H1 H2 H3 _] by (apply Hwf; by eexists).
  assert (NoDup order) as Hno by (rewrite Hp; apply NoDup_seq). split_and!; [done..|].
  pose proof (index_ids_spec legs 0 ∅) as Hi. pose proof (emplace_index legs 0 ∅) as He.
  unfold topological_order in Ho. destruct (index_ids legs 0 ∅) as [ids|]; [|done]. rewrite He.
  destruct Hi as (_ & _ & Hl). assert (Hids : forall d u, ids !! d = Some u <-> exists leg, legs !! u = Some leg /\ leg_id leg = d).
  { intros d u. rewrite Hl, lookup_empty. naive_solver. }
  apply (placing_loop place legs ids H2 Hids order Hno) with (O := []); [|done|done|apply start_inv].
  apply Forall_forall. intros i. rewrite Hp. intros ?%elem_of_seq. lia.
Qed.

(** ** The unwind loop *)

Definition to_unwind (r : BasketRun) (i : nat) : option string :=
  if bool_decide (run_status r !! i = Some Executed) then Some (run_order_id r !!! i) else None.

Definition unwind_events (ps : list (string * result unit)) : list BasketEvent := map (fun p => UnwindLeg (fst p) (snd p)) ps.

Lemma insert_same_total (l : list string) i j : <[i := l !!! i]> l !!! j = l !!! j.
Proof.
  destruct (decide (i = j)) as [->|Hne]; [|by rewrite list_lookup_total_insert_ne].
  destruct (decide (j < length l)%nat); [by rewrite list_lookup_total_insert_eq|].
  by rewrite list_insert_ge by lia.
Qed.

(** What one turn of the loop does to the leg [i]. *)
Record unwind_turn (legs : list BasketLeg) (unwind : option (list BasketEvent -> string -> result unit)) (i : nat)
    (r : BasketRun) (live : string) (r' : BasketRun) (live' : string) (ps : list (string * result unit)) : Prop := mkTurn {
  ut_events : run_events r' = run_events r ++ unwind_events ps;
  ut_calls : ps.*1 = match unwind with Some _ => option_list (to_unwind r i) | None => [] end;
  ut_ids : forall j, run_order_id r' !!! j = run_order_id r !!! j;
  ut_other : forall j, j <> i -> run_status r' !! j = run_status r !! j;
  ut_self : run_status r' !! i = run_status r !! i
            \/ run_status r !! i = Some Executed /\ run_status r' !! i = Some Unwound /\ (run_order_id r !!! i, Ok tt) ∈ ps;
  ut_len : length (run_status r') = length (run_status r);
  ut_live : live' = "" <-> live = "" /\ run_status r' !! i <> Some Executed }.

Lemma unwind_step_turn unwind legs r live i leg : legs !! i = Some leg -> leg_id leg <> "" -> length (run_status r) = length legs ->
  exists ps, unwind_turn legs unwind i r live (unwind_step unwind legs (r, live) i).1 (unwind_step unwind legs (r, live) i).2 ps.
Proof.
  intros Hleg Hne Hlen. unfold unwind_step. pose proof (lookup_lt_Some _ _ _ Hleg) as Hlt.
  case_bool_decide as Hs; cbn [negb fst snd].
  2: { exists []. constructor; try done; [by rewrite app_nil_r| |by left|tauto].
       unfold to_unwind. rewrite bool_decide_eq_false_2 by done. by destruct unwind. }
  assert (Hcall : to_unwind r i = Some (run_order_id r !!! i)) by (unfold to_unwind; by rewrite bool_decide_eq_true_2).
  assert (Hlive : (if String.eqb live "" then "" else live +:+ ",") +:+ default "" (leg_id <$> legs !! i) <> "").
  { rewrite Hleg. simpl. destruct (String.eqb_spec live "") as [|Hl]; [done|]. by destruct live. }
  assert (Hexec : <[i := Executed]> (run_status r) !! i = run_status r !! i) by (by rewrite list_lookup_insert_eq by lia).
  destruct unwind as [f|]; [destruct (f _ _) as [[]|e] eqn:Ea|]; cbn [fst snd].
  - exists [(run_order_id r !!! i, Ok tt)]. constructor; cbn; try done.
    + by rewrite Hcall.
    + apply insert_same_total.
    + intros j Hj. by rewrite list_lookup_insert_ne.
    + right. rewrite list_lookup_insert_eq by lia. split_and!; [done..|left].
    + by rewrite length_insert.
    + rewrite list_lookup_insert_eq by lia. split; [done|by intros [? _]].
  - exists [(run_order_id r !!! i, Err e)]. constructor; cbn; try done.
    + by rewrite Hcall.
    + apply insert_same_total.
    + intros j Hj. by rewrite list_lookup_insert_ne.
    + left. by rewrite Hexec.
    + by rewrite length_insert.
    + rewrite Hexec, Hs. tauto.
  - exists []. constructor; cbn; try done.
    + by rewrite app_nil_r.
    + apply insert_same_total.
    + intros j Hj. by rewrite list_lookup_insert_ne.
    + left. by rewrite Hexec.
    + by rewrite length_insert.
    + rewrite Hexec, Hs. tauto.
Qed.

(** The loop calls the seam once per executed leg, in the order it goes
    through them, and changes no leg but those it unwinds. *)
Lemma unwind_loop unwind legs rest : Forall (fun leg => leg_id leg <> "") legs -> NoDup rest ->
  Forall (fun i => (i < length legs)%nat) rest -> forall r live, length (run_status r) = length legs ->
  let '(r', live') := foldl (unwind_step unwind legs) (r, live) rest in
  exists ps, run_events r' = run_events r ++ unwind_events ps
    /\ ps.*1 = match unwind with Some _ => omap (to_unwind r) rest | None => [] end
    /\ (forall j, run_order_id r' !!! j = run_order_id r !!! j)
    /\ (forall j, run_status r' !! j = run_status r !! j
         \/ j ∈ rest /\ run_status r !! j = Some Executed /\ run_status r' !! j = Some Unwound
            /\ (run_order_id r !!! j, Ok tt) ∈ ps)
    /\ (live' = "" <-> live = "" /\ forall i, i ∈ rest -> run_status r' !! i <> Some Executed).
Proof.
  intros Hne Hnd Hb. induction rest as [|i rest IH]; intros r live Hlen.
  { exists []. simpl. rewrite app_nil_r. split_and!; [done|by destruct unwind|done|by left|].
    split; [|tauto]. split; [done|]. by intros i ?%elem_of_nil. }
  apply Forall_cons in Hb as [Hi Hb]. apply NoDup_cons in Hnd as [Hni Hnd].
  apply lookup_lt_is_Some in Hi as [leg Hleg].
  assert (leg_id leg <> "") as Hid by (apply list_elem_of_lookup_2 in Hleg; by apply (proj1 (Forall_forall _ _) Hne)).
  destruct (unwind_step_turn unwind legs r live i leg Hleg Hid Hlen) as [ps1 T]. cbn [foldl].
  destruct (unwind_step unwind legs (r, live) i) as [r1 live1]. cbn [fst snd] in T.
  specialize (IH Hnd Hb r1 live1 ltac:(by rewrite (ut_len _ _ _ _ _ _ _ _ T))).
  destruct (foldl _ (r1, live1) rest) as [r' live']. destruct IH as (ps2 & E1 & E2 & E3 & E4 & E5).
  assert (Hr1 : run_status r' !! i = run_status r1 !! i) by (destruct (E4 i) as [|[? _]]; done).
  exists (ps1 ++ ps2). destruct T as [T1 T2 T3 T4 T5 _ T7]. split_and!.
  - rewrite E1, T1. unfold unwind_events. by rewrite map_app, app_assoc.
  - rewrite fmap_app, T2, E2. destruct unwind; [|done]. simpl.
    assert (omap (to_unwind r1) rest = omap (to_unwind r) rest) as ->.
    { apply omap_ext_elem. intros k Hk. unfold to_unwind. by rewrite T3, T4 by (by intros ->). }
    by destruct (to_unwind r i).
  - intros j. by rewrite E3.
  - intros j. destruct (decide (j = i)) as [->|Hji].
    + rewrite Hr1. destruct T5 as [->|(? & ? & ?)]; [by left|right]. split_and!; [left|done..|]. apply elem_of_app. by left.
    + rewrite <- (T4 j Hji), <- (T3 j). destruct (E4 j) as [->|(? & ? & ? & ?)]; [by left|right].
      split_and!; [by right|done..|]. apply elem_of_app. by right.
  - rewrite E5, T7. setoid_rewrite elem_of_cons. split.
    + intros [[? Hi] Hall]. split; [done|]. intros k [->|Hk]; [by rewrite Hr1|by apply Hall].
    + intros [? Hall]. split_and!; [done|rewrite <- Hr1; apply Hall; by left|]. intros k Hk. apply Hall. by right.
Qed.

(** ** After the placements *)

Definition all_acknowledged (legs : list BasketLeg) (events : list BasketEvent) : bool :=
  forallb (fun leg => match answer_of (leg_id leg) events with Some (Ok _) => true | _ => false end) legs.

(** The reaction to the placements. *)
Definition remediated (legs : list BasketLeg) (config : BasketConfig) (seams : BasketSeams)
    (placed rest : list BasketEvent) (outcome : BasketOutcome) : Prop :=
  if may_be_live placed
  then outcome = ReconcileRequired /\ exists m, rest = [BasketAlert AlertCritical m]
  else if all_acknowledged legs placed
  then outcome = Complete /\ rest = []
  else match on_leg_failure config with
       | UnwindExecuted =>
           outcome = PartiallyExecutedUnwound
           /\ exists ps m, rest = unwind_events ps ++ [BasketAlert AlertCritical m]
                /\ ps.*1 = match unwind_leg seams with Some _ => rev (acked_ids placed) | None => [] end
       | LeaveAndAlert => outcome = PartiallyExecutedLeft /\ exists m, rest = [BasketAlert AlertWarning m]
       end.

(** A leg is reported as it was answered, or as unwound if its order was. *)
Definition reported (placed rest : list BasketEvent) (id : string) (status : LegStatus) (order_id : string) : Prop :=
  order_id = order_id_from (answer_of id placed)
  /\ (status = status_from (answer_of id placed)
      \/ status_from (answer_of id placed) = Executed /\ status = Unwound /\ UnwindLeg order_id (Ok tt) ∈ rest).

Section concluding.
Context (place : list BasketEvent -> BasketLeg -> result BrokerAck) (legs : list BasketLeg) (order : list nat) (r : BasketRun).
Context (Hi : placing_inv place legs order r).
Context (Hne : Forall (fun leg => leg_id leg <> "") legs) (Hnd : NoDup order) (Hp : order ≡ₚ seq 0 (length legs)).

Lemma placed_status : run_status r = map (fun leg => status_from (answer_of (leg_id leg) (run_events r))) legs.
Proof.
  apply list_eq. intros i. destruct (pl_len _ _ _ _ Hi) as (L1 & _ & _).
  change (map ?f legs) with (f <$> legs). rewrite list_lookup_fmap. destruct (legs !! i) as [leg|] eqn:E.
  - by destruct (pl_legs _ _ _ _ Hi i leg E) as [-> _].
  - apply lookup_ge_None. apply lookup_ge_None in E. lia.
Qed.

Lemma existsb_map {A B} (f : A -> B) (g : B -> bool) l : existsb g (map f l) = existsb (fun x => g (f x)) l.
Proof. induction l as [|x l IH]; simpl; [done|by rewrite IH]. Qed.

Lemma ambiguous_scan : existsb (fun s => bool_decide (s = AmbiguousMayBeLive)) (run_status r) = may_be_live (run_events r).
Proof.
  rewrite placed_status, existsb_map. apply eq_true_iff_eq. unfold may_be_live. rewrite !existsb_exists. split.
  - intros (leg & _ & Hs%bool_decide_eq_true). destruct (answer_of _ _) as [[|e]|] eqn:E; [done| |done].
    apply answer_of_elem in E. exists (leg_id leg, Err e). split.
    + apply list_elem_of_In, list_elem_of_omap. by exists (PlaceLeg (leg_id leg) (Err e)).
    + simpl in *. by destruct (is_ambiguous e).
  - intros ([id a] & Hin & Ha). simpl in Ha. destruct a as [|e]; [done|]. apply list_elem_of_In in Hin.
    assert (id ∈ (placements (run_events r)).*1) as Hid by (apply list_elem_of_fmap; by exists (id, Err e)).
    apply (pl_done _ _ _ _ Hi) in Hid as (i & leg & _ & Hleg & <-). exists leg.
    split; [apply list_elem_of_In; by eapply list_elem_of_lookup_2|].
    apply list_elem_of_omap in Hin as ([] & Hin & Hpl); simplify_eq/=.
    rewrite (answer_of_unique _ _ _ (pl_nodup _ _ _ _ Hi) Hin). simpl. rewrite Ha. done.
Qed.

Lemma complete_scan : may_be_live (run_events r) = false ->
  existsb (fun s => bool_decide (s = LegFailed \/ s = SkippedUnmetDependency)) (run_status r)
  = negb (all_acknowledged legs (run_events r)).
Proof.
  rewrite <- ambiguous_scan, placed_status, !existsb_map. unfold all_acknowledged.
  clear Hi Hne Hp. induction legs as [|leg l IH]; [done|]. cbn [existsb forallb].
  intros [Ha Hl]%orb_false_elim. rewrite (IH Hl), negb_andb. f_equal.
  destruct (answer_of _ _) as [[|e]|]; simpl in *; [done| |done]. by destruct (is_ambiguous e).
Qed.

Lemma acked_order : omap (to_unwind r) (rev order) = rev (acked_ids (run_events r)).
Proof.
  rewrite (pl_acked _ _ _ _ Hi). change (fun i => _) with (to_unwind r). clear. induction order as [|i l IH]; [done|].
  cbn [rev]. rewrite omap_app, IH. change (i :: l) with ([i] ++ l). rewrite omap_app, rev_app_distr. f_equal.
  simpl. by destruct (to_unwind r i).
Qed.

Lemma reported_same j leg rest r' : legs !! j = Some leg ->
  run_status r' !! j = run_status r !! j -> run_order_id r' !!! j = run_order_id r !!! j ->
  reported (run_events r) rest (leg_id leg) (run_status r' !!! j) (run_order_id r' !!! j).
Proof.
  intros Hleg Hs Ho. destruct (pl_legs _ _ _ _ Hi j leg Hleg) as [H1 H2]. split.
  - rewrite Ho. by apply list_lookup_total_correct.
  - left. apply list_lookup_total_correct. by rewrite Hs.
Qed.

#[local] Ltac settled := split_and!; [done|done|done|done|by eauto|by intros; apply reported_same|split; [done|by intros [? _]]|done].

Lemma conclude_spec config seams : let '(outcome, detail, r') := conclude_basket legs config seams order r in
  exists rest, run_events r' = run_events r ++ rest /\ placements rest = [] /\ outcome <> Blocked
    /\ remediated legs config seams (run_events r) rest outcome
    /\ (forall j leg, legs !! j = Some leg -> reported (run_events r) rest (leg_id leg) (run_status r' !!! j) (run_order_id r' !!! j))
    /\ (detail = "basket partial: executed legs unwound per policy" <->
        outcome = PartiallyExecutedUnwound /\ forall j, run_status r' !! j <> Some Executed)
    /\ (forall j, run_status r' !! j = Some Executed -> (j < length legs)%nat).
Proof.
  assert (Hlt : forall j, run_status r !! j = Some Executed -> (j < length legs)%nat).
  { intros j Hj%lookup_lt_Some. destruct (pl_len _ _ _ _ Hi) as (L & _ & _). lia. }
  unfold conclude_basket, remediated. rewrite ambiguous_scan.
  destruct (may_be_live (run_events r)) eqn:Hlive.
  { eexists [_]. settled. }
  rewrite complete_scan by done. destruct (all_acknowledged legs (run_events r)); cbn [negb].
  { exists []. rewrite app_nil_r. settled. }
  destruct (on_leg_failure config); cycle 1.
  { eexists [_]. settled. }
  pose proof (unwind_loop (unwind_leg seams) legs (rev order) Hne) as Hu.
  assert (Hb : Forall (fun i => (i < length legs)%nat) (rev order)).
  { apply Forall_forall. intros i Hin. apply list_elem_of_In, in_rev, list_elem_of_In in Hin. rewrite Hp in Hin.
    apply elem_of_seq in Hin. lia. }
  specialize (Hu ltac:(by apply NoDup_ListNoDup, NoDup_rev, NoDup_ListNoDup) Hb r "" (proj1 (pl_len _ _ _ _ Hi))).
  destruct (foldl _ _ _) as [r' live']. destruct Hu as (ps & E1 & E2 & E3 & E4 & E5). rewrite acked_order in E2.
  assert (Hrep : forall rest j leg, (forall e, e ∈ unwind_events ps -> e ∈ rest) -> legs !! j = Some leg ->
    reported (run_events r) rest (leg_id leg) (run_status r' !!! j) (run_order_id r' !!! j)).
  { intros rest j leg Hsub Hleg. destruct (E4 j) as [Hs|(_ & Hs & Hun & Hin)]; [by apply reported_same|].
    destruct (pl_legs _ _ _ _ Hi j leg Hleg) as [H1 H2]. split; [rewrite E3; by apply list_lookup_total_correct|].
    right. split_and!; [congruence|by apply list_lookup_total_correct|]. apply Hsub. unfold unwind_events.
    change (map ?f ps) with (f <$> ps). apply list_elem_of_fmap. rewrite E3. eexists. by split; [|done]. }
  assert (Hnone : (forall i, i ∈ rev order -> run_status r' !! i <> Some Executed) <-> forall j, run_status r' !! j <> Some Executed).
  { split; [|by intros H i _]. intros H j Hj. apply (H j); [|done]. apply list_elem_of_In, in_rev.
    rewrite rev_involutive. apply list_elem_of_In. rewrite Hp. apply elem_of_seq.
    assert (run_status r !! j = Some Executed) as Hj' by (destruct (E4 j) as [?|(_ & ? & ? & _)]; congruence).
    apply Hlt in Hj'. lia. }
  assert (Hlt' : forall j, run_status r' !! j = Some Executed -> (j < length legs)%nat).
  { intros j Hj. apply Hlt. destruct (E4 j) as [?|(_ & ? & ? & _)]; congruence. }
  rewrite Hnone in E5. assert (forall m, run_events r' ++ [BasketAlert AlertCritical m] =
    run_events r ++ unwind_events ps ++ [BasketAlert AlertCritical m]) as E1' by (intros; by rewrite E1, <- app_assoc).
  assert (forall m, placements (unwind_events ps ++ [BasketAlert AlertCritical m]) = []) as Hpl.
  { intros m. unfold placements. rewrite omap_app, app_nil_r. clear. by induction ps as [|p ps IH]; [|simpl]. }
  destruct (String.eqb_spec live' "") as [Hl|Hl]; (eexists; split; [apply E1'|]); (split; [apply Hpl|]);
    (split; [done|]); (split; [split; [done|]; exists ps; eexists; split; [done|exact E2]|]);
    (split; [intros j leg; apply Hrep; intros e He; apply elem_of_app; by left|]); (split; [|exact Hlt']); cbn.
  - split; [intros _; split; [done|]; by apply E5|done].
  - split; [done|]. intros [_ H]. exfalso. apply Hl. by apply E5.
Qed.
End concluding.

(** ** Events after the placements *)

Lemma place_not_in rest id a : placements rest = [] -> PlaceLeg id a ∉ rest.
Proof.
  intros Hr Hin. assert ((id, a) ∈ placements rest) as H by (apply list_elem_of_omap; by exists (PlaceLeg id a)).
  rewrite Hr in H. by apply elem_of_nil in H.
Qed.

Lemma acknowledged_app id placed rest : placements rest = [] -> acknowledged id (placed ++ rest) <-> acknowledged id placed.
Proof.
  intros Hr. unfold acknowledged. setoid_rewrite elem_of_app. split; intros [ack H]; exists ack; [|by left].
  destruct H as [H|H]; [done|by apply place_not_in in H].
Qed.

Lemma never_orphaned_app place legs placed rest : placements rest = [] ->
  never_orphaned place legs placed -> never_orphaned place legs (placed ++ rest).
Proof.
  intros Hr H pre id a post Heq. apply app_eq_app in Heq as [l [[-> Hl]|[-> Hl]]].
  - destruct l as [|e l]; simpl in Hl.
    + exfalso. apply (place_not_in rest id a Hr). rewrite <- Hl. left.
    + injection Hl as <- Hl. by apply (H pre id a l).
  - exfalso. apply (place_not_in rest id a Hr). rewrite Hl. apply elem_of_app. right. left.
Qed.

(** The statuses of the results and those of the run. *)
Lemma results_executed legs r : (forall j, run_status r !! j = Some Executed -> (j < length legs)%nat) ->
  (forall j, run_status r !! j <> Some Executed) <-> Forall (fun lr => lr_status lr <> Executed) (leg_results legs r).
Proof.
  intros Hlt. rewrite Forall_lookup. unfold leg_results. split.
  - intros H j lr Hj He. rewrite list_lookup_imap in Hj. apply fmap_Some in Hj as (leg & _ & ->). simpl in He.
    apply (H j). rewrite list_lookup_total_alt in He. by destruct (run_status r !! j) as [s|]; [simpl in He; subst|].
  - intros H j Hj. specialize (Hlt j Hj). apply lookup_lt_is_Some in Hlt as [leg Hleg].
    eapply (H j); [by rewrite list_lookup_imap, Hleg|]. simpl. by apply list_lookup_total_correct.
Qed.

Lemma basket_reports legs r (P : BasketLeg -> LegResult -> Prop) :
  (forall j leg, legs !! j = Some leg ->
     P leg (mkLegResult (leg_id leg) (run_status r !!! j) (run_order_id r !!! j) (run_detail r !!! j))) ->
  Forall2 P legs (leg_results legs r).
Proof.
  intros H. apply Forall2_same_length_lookup. unfold leg_results. split; [by rewrite length_imap|].
  intros j leg lr Hleg Hj. rewrite list_lookup_imap, Hleg in Hj. injection Hj as <-. by apply H.
Qed.

(** ** Properties *)

(** C25: No leg is ever orphaned: whatever the seams answer, a leg is sent only
    after every leg it depends on was acknowledged, and each leg at most once;
    a basket that is ill formed, or has no placement seam, is blocked and sends
    nothing; in any other, a leg is sent if and only if all its prerequisites
    were acknowledged, so nothing is held back without a reason. *)
Theorem basket_never_orphans legs config seams :
  let '(res, events) := execute_basket legs config seams in
  match place_leg seams with
  | None => bk_outcome res = Blocked /\ events = []
  | Some place =>
      never_orphaned place legs events /\ NoDup (placements events).*1
      /\ (bk_outcome res = Blocked <-> ~ well_formed_basket legs) /\ (bk_outcome res = Blocked -> events = [])
      /\ (bk_outcome res <> Blocked -> forall leg, leg ∈ legs ->
            (exists r, PlaceLeg (leg_id leg) r ∈ events) <-> Forall (fun d => acknowledged d events) (depends_on leg))
  end.
Proof.
  unfold execute_basket. destruct (place_leg seams) as [place|]; [|done].
  destruct (topological_order_spec legs) as [Hwf _].
  destruct (topological_order legs) as [order|] eqn:Ho; cycle 1.
  { split_and!; [by intros []|constructor| |done|done]. split; [|done]. intros _ H. apply Hwf in H as [? ?]. done. }
  assert (well_formed_basket legs) as Hw by (apply Hwf; by eexists).
  destruct (accepted_basket legs order place Ho) as (Hnd & Hp & Hi). set (r := foldl _ _ _) in *.
  pose proof (conclude_spec place legs order r Hi (wf_ids _ Hw) Hnd Hp config seams) as Hc.
  destruct (conclude_basket _ _ _ _ _) as [[outcome detail] r']. destruct Hc as (rest & -> & Hr & Hout & _).
  cbn [bk_outcome]. split_and!; [by apply never_orphaned_app, Hi| |by split|done|].
  - unfold placements in *. rewrite omap_app, Hr, app_nil_r. apply Hi.
  - intros _ leg Hleg. setoid_rewrite acknowledged_app; [|done]. split.
    + intros [a Ha]. apply elem_of_app in Ha as [Ha|Ha]; [|by apply place_not_in in Ha].
      apply list_elem_of_split in Ha as (pre & post & Hsplit).
      destruct (pl_orphan _ _ _ _ Hi pre (leg_id leg) a post Hsplit) as (leg' & Hleg' & Heq & _ & Hall).
      assert (leg' = leg) as ->.
      { apply list_elem_of_lookup in Hleg as [i Hl], Hleg' as [k Hl']. destruct (decide (k = i)) as [->|Hki]; [congruence|].
        by apply (other_leg legs (wf_unique _ Hw) k i leg' leg) in Heq. }
      eapply Forall_impl; [exact Hall|]. intros d [ack Hin]. exists ack. rewrite Hsplit. apply elem_of_app. by left.
    + intros Hall. destruct (answer_of (leg_id leg) (run_events r)) as [a|] eqn:Ea.
      * exists a. apply elem_of_app. left. by apply answer_of_elem.
      * apply list_elem_of_lookup in Hleg as [i Hl].
        destruct (pl_skipped _ _ _ _ Hi i leg) as (u & dep & _ & _ & Hd & Hna); [|done|done|].
        { rewrite Hp. apply elem_of_seq. apply lookup_lt_Some in Hl. lia. }
        exfalso. apply Hna. by apply (proj1 (Forall_forall _ _) Hall).
Qed.

(** The remediation is exact: if a placement was ambiguous nothing is
    unwound, one Critical alert is sent and the basket must be reconciled,
    under either policy; if every leg was acknowledged nothing follows; otherwise
    the policy decides: every acknowledged order is unwound once, newest first,
    with a Critical alert, or all are left with a Warning. Each leg is reported
    as it was answered, or as unwound if the unwinding of its order succeeded;
    the result says all were unwound exactly when no leg is left executed. *)
Theorem basket_remediation legs config seams :
  let '(res, events) := execute_basket legs config seams in
  bk_outcome res = Blocked \/
  exists placed rest, events = placed ++ rest /\ placements rest = [] /\ Forall (fun e => is_Some (placement e)) placed
    /\ remediated legs config seams placed rest (bk_outcome res)
    /\ Forall2 (fun leg lr => lr_id lr = leg_id leg /\ reported placed rest (leg_id leg) (lr_status lr) (lr_order_id lr))
         legs (bk_legs res)
    /\ (bk_detail res = "basket partial: executed legs unwound per policy" <->
        bk_outcome res = PartiallyExecutedUnwound /\ Forall (fun lr => lr_status lr <> Executed) (bk_legs res)).
Proof.
  unfold execute_basket. destruct (place_leg seams) as [place|]; [|by left].
  destruct (topological_order_spec legs) as [Hwf _].
  destruct (topological_order legs) as [order|] eqn:Ho; [|by left].
  assert (well_formed_basket legs) as Hw by (apply Hwf; by eexists).
  destruct (accepted_basket legs order place Ho) as (Hnd & Hp & Hi). set (r := foldl _ _ _) in *.
  pose proof (conclude_spec place legs order r Hi (wf_ids _ Hw) Hnd Hp config seams) as Hc.
  destruct (conclude_basket _ _ _ _ _) as [[outcome detail] r'].
  destruct Hc as (rest & -> & Hr & _ & Hrem & Hrep & Hdet & Hlt). right. exists (run_events r), rest.
  cbn [bk_outcome bk_legs bk_detail]. split_and!; [done|done|apply Hi|done| |].
  - apply basket_reports. intros j leg Hleg. split; [done|]. by apply Hrep.
  - by rewrite <- results_executed.
Qed.

Example basket_unwinds (legs := [mkLeg "short" ["hedge"]; mkLeg "hedge" []; mkLeg "other" ["short"]])
    (seams := mkSeams (Some (fun _ leg => if String.eqb (leg_id leg) "short" then Err (make_error InsufficientFunds "no" "")
                                          else Ok (mkAck ("o-" +:+ leg_id leg) ""))) (Some (fun _ _ => Ok tt))) :
  let '(res, events) := execute_basket legs (mkBasketConfig UnwindExecuted true "") seams in
  bk_outcome res = PartiallyExecutedUnwound
  /\ map lr_status (bk_legs res) = [LegFailed; Unwound; SkippedUnmetDependency]
  /\ omap unwind_of events = [("o-hedge", Ok tt)].
Proof. by vm_compute. Qed.
