(* ===== verification/Options.v ===== *)
(** * Options: hedge first, sliced legs, margin shock
    (src/src/options/hedge_first.cpp, sliced_leg.cpp, margin_shock.cpp)

    As in Basket.v, a seam answers from the history of the calls made so far,
    and a run returns the calls it made, with their answers, in order. *)

From S2P Require Import Prelude Errors Domain Slicer Dispatcher Modes Resolver Capabilities Basket.

(** ** Hedge first *)

Inductive HedgeFirstOutcome :=
  | HedgedShortLive | HedgePlacementFailed | HedgeUnconfirmed | ShortPlacementFailed | NakedShortRemediated
  | ShortAmbiguousReconcileRequired.

#[export] Instance HedgeFirstOutcome_eq_dec : EqDecision HedgeFirstOutcome.
Proof. solve_decision. Defined.

Definition hedge_outcome_to_string (o : HedgeFirstOutcome) : string :=
  match o with
  | HedgedShortLive => "HedgedShortLive"
  | HedgePlacementFailed => "HedgePlacementFailed"
  | HedgeUnconfirmed => "HedgeUnconfirmed"
  | ShortPlacementFailed => "ShortPlacementFailed"
  | NakedShortRemediated => "NakedShortRemediated"
  | ShortAmbiguousReconcileRequired => "ShortAmbiguousReconcileRequired"
  end.

Inductive HedgeEvent :=
  | CallPlaceHedge (answer : result BrokerAck)
  | CallConfirm (hedge : string) (answer : result bool)
  | CallPlaceShort (answer : result BrokerAck)
  | CallRecheck (hedge : string) (answer : result bool)
  | CallEmergency (answer : result unit)
  | HedgeAlert (level : AlertLevel) (message : string).

Record HedgeFirstResult := mkHedgeResult {
  hf_outcome : HedgeFirstOutcome; hf_hedge_id : string; hf_short_id : string; emergency_action_ran : bool;
  hf_detail : string }.

Record HedgeFirstSeams := mkHedgeSeams {
  place_hedge : option (list HedgeEvent -> result BrokerAck);
  confirm_hedge : option (list HedgeEvent -> string -> result bool);
  place_short : option (list HedgeEvent -> result BrokerAck);
  recheck_hedge_live : option (list HedgeEvent -> string -> result bool);
  emergency_action : option (list HedgeEvent -> result unit) }.

(** After the short was acknowledged: the recheck and the remediation. *)
Definition recheck_short (seams : HedgeFirstSeams) (hedge short : string) (h : list HedgeEvent) :
    HedgeFirstResult * list HedgeEvent :=
  let '(hedge_live, h) :=
    match recheck_hedge_live seams with
    | None => (false, h)
    | Some f => let a := f h hedge in
                (match a with Ok b => b | Err _ => false end, h ++ [CallRecheck hedge a])
    end in
  if hedge_live then (mkHedgeResult HedgedShortLive hedge short false "hedge re-verified live after short", h)
  else
    let '(ran, detail, h) :=
      match emergency_action seams with
      | Some f =>
          let a := f h in
          (is_ok a,
           match a with
           | Ok _ => "naked short remediated: emergency action ran"
           | Err e => "naked short: emergency action returned error: " +:+ error_tag e
           end, h ++ [CallEmergency a])
      | None => (false, "naked short: no emergency action configured; operator alerted", h)
      end in
    (mkHedgeResult NakedShortRemediated hedge short ran detail,
     h ++ [HedgeAlert AlertCritical
             "NAKED SHORT: hedge no longer verifiable after short placement; emergency action invoked"]).

Definition try_short (seams : HedgeFirstSeams) (hedge : string) (h : list HedgeEvent) :
    HedgeFirstResult * list HedgeEvent :=
  match place_short seams with
  | None => (mkHedgeResult ShortPlacementFailed hedge "" false "short placement seam not configured (hedge stands)", h)
  | Some f =>
      let a := f h in
      let h := h ++ [CallPlaceShort a] in
      match a with
      | Err e =>
          if is_ambiguous e then
            (mkHedgeResult ShortAmbiguousReconcileRequired hedge "" false
               ("short placement AMBIGUOUS, short MAY be LIVE (no order id): " +:+ error_tag e +:+
                "; hedge LEFT in place, reconcile first"),
             h ++ [HedgeAlert AlertCritical
                     "SHORT AMBIGUOUS: short placement outcome is UNKNOWN and the short may be LIVE at the broker; the hedge was LEFT in place - do NOT close it before reconciling"])
          else
            (mkHedgeResult ShortPlacementFailed hedge "" false
               ("short placement failed (hedge stands): " +:+ error_tag e), h)
      | Ok ack => recheck_short seams hedge (ack_broker_order_id ack) h
      end
  end.

Definition execute_hedge_first (seams : HedgeFirstSeams) : HedgeFirstResult * list HedgeEvent :=
  match place_hedge seams with
  | None => (mkHedgeResult HedgePlacementFailed "" "" false "hedge placement seam not configured", [])
  | Some f =>
      let a := f [] in
      let h := [CallPlaceHedge a] in
      match a with
      | Err e => (mkHedgeResult HedgePlacementFailed "" "" false ("hedge placement failed: " +:+ error_tag e), h)
      | Ok ack =>
          let hedge := ack_broker_order_id ack in
          match confirm_hedge seams with
          | None => (mkHedgeResult HedgeUnconfirmed hedge "" false "hedge confirmation seam not configured", h)
          | Some g =>
              let c := g h hedge in
              let h := h ++ [CallConfirm hedge c] in
              match c with
              | Err e => (mkHedgeResult HedgeUnconfirmed hedge "" false ("hedge confirmation check failed: " +:+ error_tag e), h)
              | Ok false => (mkHedgeResult HedgeUnconfirmed hedge "" false "hedge not confirmed live", h)
              | Ok true => try_short seams hedge h
              end
          end
      end
  end.

(** ** Sliced legs *)

Inductive ChildPlacement := Acked | AlreadyPlaced | PlacementUnknown.

#[export] Instance ChildPlacement_eq_dec : EqDecision ChildPlacement.
Proof. solve_decision. Defined.

Definition child_placement_to_string (p : ChildPlacement) : string :=
  match p with Acked => "Acked" | AlreadyPlaced => "AlreadyPlaced" | PlacementUnknown => "Unknown" end.

Inductive SlicedLegOutcome := FilledSliced | UnknownPaused | SliceRejected.

Definition sliced_outcome_to_string (o : SlicedLegOutcome) : string :=
  match o with FilledSliced => "FilledSliced" | UnknownPaused => "UnknownPaused" | SliceRejected => "SliceRejected" end.

Record ChildResult := mkChildResult { ch_ref : string; ch_placement : ChildPlacement; ch_order_id : string }.

Record SlicedLegResult := mkSlicedResult {
  sg_outcome : SlicedLegOutcome; sg_children : list ChildResult; placed_count : Z; deduped_count : Z;
  paused_at_ref : string; sg_detail : string }.

Inductive SlicedEvent :=
  | AskPlaced (ref : string) (answer : result bool)
  | PlaceChild (ref : string) (answer : result (ChildPlacement * string))
  | SlicedAlert (level : AlertLevel) (message : string) (context : AlertContext).

Record SlicedLegSeams := mkSlicedSeams {
  already_placed : option (list SlicedEvent -> string -> result bool);
  place_child : option (list SlicedEvent -> OrderIntent -> result (ChildPlacement * string)) }.

Definition pause_for_unknown (parent : OrderIntent) (r : SlicedLegResult) (ref reason : string) (h : list SlicedEvent) :
    SlicedLegResult * list SlicedEvent :=
  (mkSlicedResult UnknownPaused (sg_children r ++ [mkChildResult ref PlacementUnknown ""]) (placed_count r)
     (deduped_count r) ref
     ("sliced leg UNKNOWN at " +:+ ref +:+ " (" +:+ reason +:+ "): placement STOPPED, reconcile before resume"),
   h ++ [SlicedAlert AlertCritical
           "SLICED LEG UNKNOWN: child order is ambiguous; placement STOPPED, reconcile before resume"
           (mkAlertContext ref "" (strategy parent) (symbol parent))]).

Definition add_child (c : ChildResult) (placed deduped : Z) (r : SlicedLegResult) : SlicedLegResult :=
  mkSlicedResult (sg_outcome r) (sg_children r ++ [c]) (placed_count r + placed) (deduped_count r + deduped)
    (paused_at_ref r) (sg_detail r).

(** The loop over the children; [all] is how many there are. *)
Fixpoint place_children (seams : SlicedLegSeams) (place : list SlicedEvent -> OrderIntent -> result (ChildPlacement * string))
    (parent : OrderIntent) (all : nat) (children : list OrderIntent) (r : SlicedLegResult) (h : list SlicedEvent) :
    SlicedLegResult * list SlicedEvent :=
  match children with
  | [] =>
      (mkSlicedResult FilledSliced (sg_children r) (placed_count r) (deduped_count r) (paused_at_ref r)
         ("sliced leg complete: " +:+ pretty (Z.of_nat all) +:+ " children (placed " +:+ pretty (placed_count r) +:+
          ", deduped " +:+ pretty (deduped_count r) +:+ ")"), h)
  | child :: rest =>
      let ref := client_ref child in
      let send h :=
        let a := place h child in
        let h := h ++ [PlaceChild ref a] in
        match a with
        | Err _ => pause_for_unknown parent r ref "place_child errored" h
        | Ok (state, id) =>
            if bool_decide (state = Acked)
            then place_children seams place parent all rest (add_child (mkChildResult ref Acked id) 1 0 r) h
            else pause_for_unknown parent r ref "place_child returned Unknown" h
        end in
      match already_placed seams with
      | None => send h
      | Some f =>
          let k := f h ref in
          let h := h ++ [AskPlaced ref k] in
          match k with
          | Err _ => pause_for_unknown parent r ref "already_placed check errored" h
          | Ok true => place_children seams place parent all rest (add_child (mkChildResult ref AlreadyPlaced "") 0 1 r) h
          | Ok false => send h
          end
      end
  end.

(** [h] is what happened before this run. *)
Definition execute_sliced_leg (parent : OrderIntent) (inst : Instrument) (seams : SlicedLegSeams) (h : list SlicedEvent) :
    SlicedLegResult * list SlicedEvent :=
  let start detail := mkSlicedResult SliceRejected [] 0 0 "" detail in
  match place_child seams with
  | None => (start "sliced leg rejected: place_child seam not configured (nothing placed)", h)
  | Some place =>
      match slice parent inst with
      | Err e => (start ("sliced leg rejected: slicer error: " +:+ error_tag e), h)
      | Ok children => place_children seams place parent (length children) children (start "") h
      end
  end.

(** ** Margin shock *)

Record ShockMarginModel := mkShockModel { model_now : Money; model_under_shock : Money }.
Record MarginShockInputs := mkShockInputs { shock_available : Money; basket_is_net_short : bool }.

Inductive MarginShockOutcome :=
  | WithinShockLimit | BlockedMarginShock | BlockedUnavailableNetShort | AllowedUnavailableBounded.

#[export] Instance MarginShockOutcome_eq_dec : EqDecision MarginShockOutcome.
Proof. solve_decision. Defined.

Record MarginShockResult := mkShockResult {
  ms_outcome : MarginShockOutcome; span_available : bool; margin_now : Money; margin_under_shock : Money;
  ms_available : Money; blocked : bool; ms_detail : string }.

Definition is_blocking (o : MarginShockOutcome) : bool :=
  bool_decide (o = BlockedMarginShock) || bool_decide (o = BlockedUnavailableNetShort).

Definition shock_outcome_to_string (o : MarginShockOutcome) : string :=
  match o with
  | WithinShockLimit => "WithinShockLimit"
  | BlockedMarginShock => "BlockedMarginShock"
  | BlockedUnavailableNetShort => "BlockedUnavailableNetShort"
  | AllowedUnavailableBounded => "AllowedUnavailableBounded"
  end.

(** The result; the audit seam, when there is one, receives exactly it. *)
Definition evaluate_margin_shock (span_support : Support) (inputs : MarginShockInputs)
    (span_margin_source : option (result ShockMarginModel)) : MarginShockResult :=
  let finish outcome available now shocked detail :=
    mkShockResult outcome available now shocked (shock_available inputs) (is_blocking outcome) detail in
  let unavailable :=
    if basket_is_net_short inputs
    then finish BlockedUnavailableNetShort false (from_paise_money 0) (from_paise_money 0)
           "SPAN/basket-margin unavailable on this broker; net-short basket blocked - no summed-legs fallback"
    else finish AllowedUnavailableBounded false (from_paise_money 0) (from_paise_money 0)
           "SPAN unavailable; basket is not net-short (bounded risk) - allowed" in
  if bool_decide (span_support = Supported) then
    match span_margin_source with
    | Some (Ok m) =>
        let avail := shock_available inputs in
        if (money_paise avail <? money_paise (model_under_shock m)) || (money_paise avail <? money_paise (model_now m))
        then finish BlockedMarginShock true (model_now m) (model_under_shock m)
               ("SPAN shock CROSSES auto-square-off: required margin (now " +:+ money_to_string (model_now m) +:+
                ", shocked " +:+ money_to_string (model_under_shock m) +:+ ") exceeds available " +:+
                money_to_string avail +:+ " - basket BLOCKED pre-submission")
        else finish WithinShockLimit true (model_now m) (model_under_shock m)
               ("SPAN shock within limit: shocked margin " +:+ money_to_string (model_under_shock m) +:+
                " fits within available " +:+ money_to_string avail +:+ " - basket allowed")
    | _ => unavailable
    end
  else unavailable.

(** ** Properties *)

Definition short_sent (h : list HedgeEvent) : Prop := exists a, CallPlaceShort a ∈ h.

(** The calls of a run, by its outcome. *)
Definition hedge_run (o : HedgeFirstOutcome) (r : HedgeFirstResult) (h : list HedgeEvent) : Prop :=
  match o with
  | HedgePlacementFailed => h = [] \/ exists e, h = [CallPlaceHedge (Err e)]
  | HedgeUnconfirmed =>
      exists ack, hf_hedge_id r = ack_broker_order_id ack
        /\ (h = [CallPlaceHedge (Ok ack)] \/
            exists c, c <> Ok true /\ h = [CallPlaceHedge (Ok ack); CallConfirm (hf_hedge_id r) c])
  | ShortPlacementFailed =>
      exists ack, hf_hedge_id r = ack_broker_order_id ack
        /\ exists tail, h = CallPlaceHedge (Ok ack) :: CallConfirm (hf_hedge_id r) (Ok true) :: tail
             /\ (tail = [] \/ exists e, is_ambiguous e = false /\ tail = [CallPlaceShort (Err e)])
  | ShortAmbiguousReconcileRequired =>
      exists ack e m, hf_hedge_id r = ack_broker_order_id ack /\ is_ambiguous e = true
        /\ h = [CallPlaceHedge (Ok ack); CallConfirm (hf_hedge_id r) (Ok true); CallPlaceShort (Err e);
                HedgeAlert AlertCritical m]
  | HedgedShortLive =>
      exists ack short, hf_hedge_id r = ack_broker_order_id ack /\ hf_short_id r = ack_broker_order_id short
        /\ h = [CallPlaceHedge (Ok ack); CallConfirm (hf_hedge_id r) (Ok true); CallPlaceShort (Ok short);
                CallRecheck (hf_hedge_id r) (Ok true)]
  | NakedShortRemediated =>
      exists ack short recheck emergency m, hf_hedge_id r = ack_broker_order_id ack
        /\ hf_short_id r = ack_broker_order_id short
        /\ h = [CallPlaceHedge (Ok ack); CallConfirm (hf_hedge_id r) (Ok true); CallPlaceShort (Ok short)]
               ++ recheck ++ emergency ++ [HedgeAlert AlertCritical m]
        /\ (recheck = [] \/ exists c, c <> Ok true /\ recheck = [CallRecheck (hf_hedge_id r) c])
        /\ (emergency = [] \/ exists a, emergency = [CallEmergency a] /\ emergency_action_ran r = is_ok a)
  end.

#[local] Ltac no_short :=
  intros [a Ha]; repeat (apply elem_of_cons in Ha as [[=]|Ha]); by apply elem_of_nil in Ha.

(** What happens once the short is acknowledged. *)
Lemma recheck_exact seams hedge short h0 :
  let '(r, h) := recheck_short seams hedge short h0 in
  hf_hedge_id r = hedge /\ hf_short_id r = short /\
  ((hf_outcome r = HedgedShortLive /\ h = h0 ++ [CallRecheck hedge (Ok true)]) \/
   (hf_outcome r = NakedShortRemediated /\ exists recheck emergency m,
      h = h0 ++ recheck ++ emergency ++ [HedgeAlert AlertCritical m]
      /\ (recheck = [] \/ exists c, c <> Ok true /\ recheck = [CallRecheck hedge c])
      /\ (emergency = [] \/ exists a, emergency = [CallEmergency a] /\ emergency_action_ran r = is_ok a)
      /\ (is_Some (emergency_action seams) -> exists a, emergency = [CallEmergency a]))).
Proof.
  unfold recheck_short.
  assert (exists recheck live, (match recheck_hedge_live seams with None => (false, h0) | Some f =>
      (match f h0 hedge with Ok b => b | Err _ => false end, h0 ++ [CallRecheck hedge (f h0 hedge)]) end) = (live, h0 ++ recheck)
      /\ (live = true -> recheck = [CallRecheck hedge (Ok true)])
      /\ (live = false -> recheck = [] \/ exists c, c <> Ok true /\ recheck = [CallRecheck hedge c]))
    as (recheck & live & -> & Htrue & Hfalse).
  { destruct (recheck_hedge_live seams) as [f|]; [|exists [], false; rewrite app_nil_r; split_and!; [done|done|by left]].
    eexists _, _. split; [done|]. destruct (f h0 hedge) as [[]|e]; split; intros; try done; right; eexists; by split; [|done]. }
  destruct live; [split_and!; [done..|left]; by rewrite (Htrue eq_refl)|].
  destruct (emergency_action seams) as [f|]; (split_and!; [done..|right]; split; [done|]); exists recheck.
  - exists [CallEmergency (f (h0 ++ recheck))]. eexists. split; [by rewrite <- (app_assoc (h0 ++ recheck)), <- (app_assoc h0)|].
    split_and!; [by apply Hfalse|right; by eexists|by eexists].
  - exists []. eexists. split; [by rewrite <- (app_assoc h0)|]. split_and!; [by apply Hfalse|by left|by intros []].
Qed.

(** Hedge first, and never a silent naked short: the calls of every run are
    those its outcome names. The short is sent only after the hedge was
    acknowledged and confirmed live; an ambiguous answer to the short stops
    every further call, so the hedge stays, and raises a Critical alert; once a
    short is acknowledged either the hedge was seen live again, or the
    emergency action, when there is one, was run and a Critical alert sent. *)
Theorem hedge_first_exact seams :
  let '(r, h) := execute_hedge_first seams in
  hedge_run (hf_outcome r) r h
  /\ (hf_outcome r = NakedShortRemediated -> is_Some (emergency_action seams) -> exists a, CallEmergency a ∈ h)
  /\ (short_sent h -> exists ack tail, h = CallPlaceHedge (Ok ack) :: CallConfirm (hf_hedge_id r) (Ok true) :: tail).
Proof.
  unfold execute_hedge_first, short_sent.
  destruct (place_hedge seams) as [f|]; [|split_and!; [by left|done|by no_short]].
  destruct (f []) as [ack|e]; [|split_and!; [right; by eexists|done|by no_short]].
  destruct (confirm_hedge seams) as [g|]; [|split_and!; [by eexists; split; [|left]|done|by no_short]].
  destruct (g _ _) as [[]|e]; [|split_and!; [by eexists; split; [|right; eexists; split; [|done]]|done|by no_short]..].
  unfold try_short.
  destruct (place_short seams) as [p|]; [|split_and!; [by eexists; split; [|eexists; split; [done|left]]|done|by no_short]].
  destruct (p _) as [short|e]; cycle 1.
  { destruct (is_ambiguous e) eqn:Ea; (split_and!; [|done|intros _; by do 2 eexists]); [by do 3 eexists|].
    eexists. split; [done|]. eexists. split; [done|]. right. by eexists. }
  pose proof (recheck_exact seams (ack_broker_order_id ack) (ack_broker_order_id short)
    [CallPlaceHedge (Ok ack); CallConfirm (ack_broker_order_id ack) (Ok true); CallPlaceShort (Ok short)]) as Hr.
  simpl app. destruct (recheck_short _ _ _ _) as [r h]. destruct Hr as (Hid & Hsh & Hr).
  destruct Hr as [[Ho Hh]|(Ho & recheck & emergency & m & Hh & Hre & Hem & Hran)]; rewrite Ho, Hid; subst h; cbn [hedge_run].
  - split_and!; [by exists ack, short; rewrite Hid, Hsh|done|intros _; by do 2 eexists].
  - split_and!; [by exists ack, short, recheck, emergency, m; rewrite Hid, Hsh in *| |intros _; by do 2 eexists].
    intros _ He. destruct (Hran He) as [a ->]. exists a. rewrite !elem_of_app. right. right. left. left.
Qed.

(** The refs acknowledged so far. *)
Definition acked_ref (e : SlicedEvent) : option string :=
  match e with PlaceChild ref (Ok (Acked, _)) => Some ref | _ => None end.

Definition acked_refs (h : list SlicedEvent) : list string := omap acked_ref h.

Definition is_paused (e : SlicedEvent) : bool :=
  match e with SlicedAlert AlertCritical _ _ => true | _ => false end.

(** The seam never denies an acknowledged child. *)
Definition truthful (seams : SlicedLegSeams) : Prop :=
  exists f, already_placed seams = Some f /\ forall h ref, ref ∈ acked_refs h -> f h ref <> Ok false.

(** What a run adds to the history, child by child. *)
Inductive sliced_run (parent : OrderIntent) : list OrderIntent -> SlicedLegOutcome -> list ChildResult -> list SlicedEvent -> Prop :=
  | run_done : sliced_run parent [] FilledSliced [] []
  | run_dedup child rest o cs h : sliced_run parent rest o cs h ->
      sliced_run parent (child :: rest) o (mkChildResult (client_ref child) AlreadyPlaced "" :: cs)
        (AskPlaced (client_ref child) (Ok true) :: h)
  | run_acked child rest asked id o cs h : Forall (fun e => e = AskPlaced (client_ref child) (Ok false)) asked ->
      sliced_run parent rest o cs h ->
      sliced_run parent (child :: rest) o (mkChildResult (client_ref child) Acked id :: cs)
        (asked ++ PlaceChild (client_ref child) (Ok (Acked, id)) :: h)
  | run_paused child rest tried m : (forall e, e ∈ tried -> acked_ref e = None /\ is_paused e = false) ->
      sliced_run parent (child :: rest) UnknownPaused [mkChildResult (client_ref child) PlacementUnknown ""]
        (tried ++ [SlicedAlert AlertCritical m (mkAlertContext (client_ref child) "" (strategy parent) (symbol parent))]).

Lemma place_children_run seams place parent all children : forall r h,
  let '(r', h') := place_children seams place parent all children r h in
  exists cs es, sliced_run parent children (sg_outcome r') cs es /\ sg_children r' = sg_children r ++ cs /\ h' = h ++ es.
Proof.
  induction children as [|child children IH]; intros r h.
  { exists [], []. simpl. rewrite !app_nil_r. split_and!; [constructor|done..]. }
  assert (Hpause : forall tried reason, (forall e, e ∈ tried -> acked_ref e = None /\ is_paused e = false) ->
    let '(r', h') := pause_for_unknown parent r (client_ref child) reason (h ++ tried) in
    exists cs es, sliced_run parent (child :: children) (sg_outcome r') cs es /\ sg_children r' = sg_children r ++ cs /\ h' = h ++ es).
  { intros tried reason Ht. simpl. eexists [_], (tried ++ [_]). split_and!; [by constructor|done|by rewrite app_assoc]. }
  assert (Hsend : forall asked, Forall (fun e => e = AskPlaced (client_ref child) (Ok false)) asked ->
    let '(r', h') :=
      (match place (h ++ asked) child with
       | Err _ => pause_for_unknown parent r (client_ref child) "place_child errored"
                    ((h ++ asked) ++ [PlaceChild (client_ref child) (place (h ++ asked) child)])
       | Ok (state, id) =>
           if bool_decide (state = Acked)
           then place_children seams place parent all children (add_child (mkChildResult (client_ref child) Acked id) 1 0 r)
                  ((h ++ asked) ++ [PlaceChild (client_ref child) (place (h ++ asked) child)])
           else pause_for_unknown parent r (client_ref child) "place_child returned Unknown"
                  ((h ++ asked) ++ [PlaceChild (client_ref child) (place (h ++ asked) child)])
       end) in
    exists cs es, sliced_run parent (child :: children) (sg_outcome r') cs es /\ sg_children r' = sg_children r ++ cs /\ h' = h ++ es).
  { intros asked Hasked. assert (Htried : forall a, acked_ref (PlaceChild (client_ref child) a) = None ->
      forall e, e ∈ asked ++ [PlaceChild (client_ref child) a] -> acked_ref e = None /\ is_paused e = false).
    { intros a Ha e [He|He]%elem_of_app; [by rewrite (proj1 (Forall_forall _ _) Hasked e He)|].
      apply list_elem_of_singleton in He as ->. by split. }
    destruct (place (h ++ asked) child) as [[state id]|err] eqn:Ep; rewrite <- (app_assoc h asked); cycle 1.
    { apply Hpause. by apply Htried. }
    case_bool_decide as Hs.
    - subst state. pose proof (IH (add_child (mkChildResult (client_ref child) Acked id) 1 0 r)
        (h ++ asked ++ [PlaceChild (client_ref child) (Ok (Acked, id))])) as Hr.
      destruct (place_children _ _ _ _ _ _ _) as [r' h']. destruct Hr as (cs & es & H1 & H2 & ->).
      eexists (_ :: cs), (asked ++ PlaceChild (client_ref child) (Ok (Acked, id)) :: es). split_and!.
      + by constructor.
      + rewrite H2. simpl. by rewrite <- app_assoc.
      + by rewrite <- !app_assoc.
    - apply Hpause, Htried. by destruct state. }
  cbn [place_children]. destruct (already_placed seams) as [f|].
  - destruct (f h (client_ref child)) as [[]|err] eqn:Ef.
    + pose proof (IH (add_child (mkChildResult (client_ref child) AlreadyPlaced "") 0 1 r)
        (h ++ [AskPlaced (client_ref child) (Ok true)])) as Hr.
      destruct (place_children _ _ _ _ _ _ _) as [r' h']. destruct Hr as (cs & es & H1 & H2 & ->).
      eexists (_ :: cs), (_ :: es). split_and!; [by constructor| |by rewrite <- app_assoc].
      rewrite H2. simpl. by rewrite <- app_assoc.
    + apply Hsend. by constructor.
    + apply Hpause. intros e ->%list_elem_of_singleton. done.
  - specialize (Hsend []). rewrite app_nil_r in Hsend. by apply Hsend.
Qed.

Lemma acked_refs_snoc h e : acked_refs (h ++ [e]) = acked_refs h ++ option_list (acked_ref e).
Proof. unfold acked_refs. rewrite omap_app. simpl. by destruct (acked_ref e). Qed.

Lemma place_children_nodup seams place parent all children : truthful seams -> forall r h,
  NoDup (acked_refs h) -> NoDup (acked_refs (place_children seams place parent all children r h).2).
Proof.
  intros (f & Hf & Htrue). induction children as [|child children IH]; intros r h Hnd; [done|].
  cbn [place_children]. rewrite Hf. set (ref := client_ref child).
  assert (Hask : forall k, acked_refs (h ++ [AskPlaced ref k]) = acked_refs h)
    by (intros; rewrite acked_refs_snoc; apply app_nil_r).
  assert (Hpause : forall reason h, NoDup (acked_refs h) -> NoDup (acked_refs (pause_for_unknown parent r ref reason h).2))
    by (intros; cbn [pause_for_unknown snd]; by rewrite acked_refs_snoc, app_nil_r).
  destruct (f h ref) as [[]|err] eqn:Ef; [apply IH; by rewrite Hask| |apply Hpause; by rewrite Hask].
  assert (ref ∉ acked_refs h) as Hni by (intros Hin; by apply (Htrue h ref)).
  destruct (place _ child) as [[state id]|err]; [|apply Hpause; by rewrite acked_refs_snoc, Hask, app_nil_r].
  case_bool_decide as Hs; [subst state; apply IH|apply Hpause]; rewrite acked_refs_snoc, Hask.
  - apply NoDup_app. split_and!; [done| |apply NoDup_singleton]. by intros x Hx ->%list_elem_of_singleton.
  - destruct state; simpl; by rewrite ?app_nil_r.
Qed.

(** A sliced leg goes through its children in order and stops at the first
    doubt: a run without a placement seam, or whose order the slicer refuses,
    makes no call; otherwise each child is skipped as already placed, or sent
    and acknowledged, until one is uncertain, which is reported UNKNOWN with
    one Critical alert naming it, and nothing after it is sent. *)
Theorem sliced_leg_exact parent inst seams h :
  let '(r, h') := execute_sliced_leg parent inst seams h in
  match place_child seams, slice parent inst with
  | Some _, Ok children => exists es, sliced_run parent children (sg_outcome r) (sg_children r) es /\ h' = h ++ es
  | _, _ => sg_outcome r = SliceRejected /\ sg_children r = [] /\ h' = h
  end.
Proof.
  unfold execute_sliced_leg. destruct (place_child seams) as [place|]; [|done].
  destruct (slice parent inst) as [children|e]; [|done].
  match goal with |- context [place_children ?s ?p ?q ?n ?c ?r ?h] => pose proof (place_children_run s p q n c r h) as H end.
  destruct (place_children _ _ _ _ _ _ _) as [r' h']. destruct H as (cs & es & H1 & H2 & H3). simpl in H2. subst cs. by exists es.
Qed.

(** Resuming never doubles an order: with a seam that does not deny a child
    that was acknowledged, any number of runs, of this leg or of others, over
    one history acknowledges each child reference at most once. *)
Theorem sliced_resume_no_duplicates seams runs : truthful seams ->
  NoDup (acked_refs (foldl (fun h run => (execute_sliced_leg (fst run) (snd run) seams h).2) [] runs)).
Proof.
  intros Ht. assert (forall h, NoDup (acked_refs h) ->
    NoDup (acked_refs (foldl (fun h run => (execute_sliced_leg (fst run) (snd run) seams h).2) h runs))) as H.
  { induction runs as [|[parent inst] runs IH]; intros h Hh; [done|]. cbn [foldl]. apply IH. unfold execute_sliced_leg.
    destruct (place_child seams); [|done]. destruct (slice _ _); [|done]. by apply place_children_nodup. }
  apply H. constructor.
Qed.

(** A broker that fails on the second child the first time round. *)
Definition flaky_seams : SlicedLegSeams :=
  mkSlicedSeams (Some (fun h ref => Ok (bool_decide (ref ∈ acked_refs h))))
    (Some (fun h child => if (length h =? 3)%nat then Err (make_error Timeout "" "") else Ok (Acked, "o" +:+ client_ref child))).

Lemma flaky_truthful : truthful flaky_seams.
Proof. eexists. split; [reflexivity|]. intros h ref H. cbn. by rewrite bool_decide_eq_true_2. Qed.

Definition five_lots : OrderIntent * Instrument :=
  (mkIntent "p" "NIFTY" Buy (quantity_of 5) (from_paise 10000) None Limit Intraday "s",
   mkInstrument "NIFTY" 1 "NFO" (quantity_of 1) (from_paise 5) (quantity_of 2) "").

Lemma sliced_resume_no_duplicates_witness (run := five_lots) :
  truthful flaky_seams
  /\ NoDup (acked_refs (foldl (fun h run => (execute_sliced_leg (fst run) (snd run) flaky_seams h).2) [] [run; run]))
  /\ acked_refs (foldl (fun h run => (execute_sliced_leg (fst run) (snd run) flaky_seams h).2) [] [run; run]) = ["p#1"; "p#2"; "p#3"].
Proof.
  split; [apply flaky_truthful|]. split; [apply (sliced_resume_no_duplicates flaky_seams [run; run]), flaky_truthful|].
  vm_compute. reflexivity.
Defined.

(** The margin shock blocks exactly what it must: with a supported and
    answering SPAN model the basket is blocked iff the margin now or under
    shock exceeds what is available; without one it is blocked iff it is net
    short, and the margins are reported as zero. *)
Theorem margin_shock_exact support inputs source :
  let r := evaluate_margin_shock support inputs source in
  ms_available r = shock_available inputs /\
  match (if decide (support = Supported) then source else None) with
  | Some (Ok m) =>
      span_available r = true /\ margin_now r = model_now m /\ margin_under_shock r = model_under_shock m
      /\ (blocked r = true <-> money_paise (shock_available inputs) < Z.max (money_paise (model_now m)) (money_paise (model_under_shock m)))
      /\ ms_outcome r = if blocked r then BlockedMarginShock else WithinShockLimit
  | _ =>
      span_available r = false /\ money_paise (margin_now r) = 0 /\ money_paise (margin_under_shock r) = 0
      /\ blocked r = basket_is_net_short inputs
      /\ ms_outcome r = if blocked r then BlockedUnavailableNetShort else AllowedUnavailableBounded
  end.
Proof.
  unfold evaluate_margin_shock. cbv zeta. destruct (decide (support = Supported)) as [Hs|Hs].
  - rewrite bool_decide_eq_true_2 by done. destruct source as [[m|e]|]; cycle 1.
    1,2: by destruct (basket_is_net_short inputs).
    destruct (Z.ltb_spec (money_paise (shock_available inputs)) (money_paise (model_under_shock m))),
      (Z.ltb_spec (money_paise (shock_available inputs)) (money_paise (model_now m))); simpl; split_and!; try done; split; try done; lia.
  - rewrite bool_decide_eq_false_2 by done. by destruct (basket_is_net_short inputs).
Qed.
