(* ===== verification/FillNorm.v ===== *)
(** * FillNorm: one broker order event as a canonical fill
    (src/src/fillnorm/fill_normalizer.cpp)

    Driven by the quantities first and the status text second; an exit may
    only be sized from a reconcile read. *)

From S2P Require Import Prelude Errors Domain Redaction RejectReason.

Record FillSnapshot := mkFill {
  canonical_state : OrderState;
  fill_filled_qty : Z;
  fill_pending_qty : Z;
  authoritative : bool;
  exit_qty_trustworthy : bool;
  fill_detail : string }.

Definition clamp_non_negative (q : Z) : Z := if 0 <? q then q else 0.

Definition make_detail (s : OrderState) (filled pending : Z) : string :=
  scrub ("fill normalized to '" +:+ order_state_to_string s +:+ "' (filled=" +:+ pretty filled +:+ ", pending=" +:+
         pretty pending +:+ ")").

(** [contains(to_lower_ascii(raw), keyword)], the keyword in lower case. *)
Definition status_mentions (raw keyword : string) : bool := contains_ci raw keyword.

Definition fill_state (raw_status : string) (filled pending : Z) : OrderState :=
  if status_mentions raw_status "reject" then Rejected
  else if status_mentions raw_status "cancel" then Cancelled
  else if (0 <? filled) && (0 <? pending) then PartiallyFilled
  else if (0 <? filled) && (pending =? 0) then Filled
  else if (filled =? 0) && (0 <? pending) then Acknowledged
  else
    let c := classify_status raw_status in
    if bool_decide (reason c = RIndeterminate) && negb (should_alert c) then Acknowledged else Unknown.

Definition normalize_fill (raw_status : string) (filled_qty total_qty : Z) (from_reconcile : bool) : FillSnapshot :=
  let filled := clamp_non_negative filled_qty in
  let total := clamp_non_negative total_qty in
  let pending := if filled <? total then total - filled else 0 in
  let s := fill_state raw_status filled pending in
  mkFill s filled pending from_reconcile (from_reconcile && (0 <? filled)) (make_detail s filled pending).

Definition exit_qty_for (snap : FillSnapshot) : Z := if exit_qty_trustworthy snap then fill_filled_qty snap else 0.

Definition is_authoritative (snap : FillSnapshot) : bool := authoritative snap.

Definition working_status (raw : string) : bool :=
  bool_decide (reason (classify_status raw) = RIndeterminate) && negb (should_alert (classify_status raw)).

(** Quantities first: the counts are clamped at zero and the pending one
    never exceeds what remains; unless the text is a rejection or a
    cancellation, an event with a positive fill is PartiallyFilled or Filled
    whatever its text or its total says, one without a fill is Acknowledged
    while something is pending, and with no count at all only a recognised
    working status is; an exit is sized from a reconcile read with a positive
    fill and from nothing else. *)
Theorem normalize_fill_exact raw filled total rec :
  let s := normalize_fill raw filled total rec in
  fill_filled_qty s = Z.max 0 filled
  /\ fill_pending_qty s = Z.max 0 (Z.max 0 total - Z.max 0 filled)
  /\ canonical_state s =
       (if status_mentions raw "reject" then Rejected
        else if status_mentions raw "cancel" then Cancelled
        else if decide (0 < filled) then (if decide (filled < total) then PartiallyFilled else Filled)
        else if decide (0 < total) then Acknowledged
        else if working_status raw then Acknowledged else Unknown)
  /\ exit_qty_for s = (if rec then Z.max 0 filled else 0)
  /\ is_authoritative s = rec.
Proof.
  unfold normalize_fill, exit_qty_for, is_authoritative. cbn [fill_filled_qty fill_pending_qty canonical_state authoritative exit_qty_trustworthy].
  assert (Hc : forall q, clamp_non_negative q = Z.max 0 q) by (intros q; unfold clamp_non_negative; destruct (Z.ltb_spec 0 q); lia).
  rewrite !Hc. unfold fill_state. fold (working_status raw).
  split; [done|]. split; [destruct (Z.ltb_spec (Z.max 0 filled) (Z.max 0 total)); lia|]. split.
  - destruct (status_mentions raw "reject"); [done|]. destruct (status_mentions raw "cancel"); [done|].
    destruct (decide (0 < filled)); [destruct (decide (filled < total))|destruct (decide (0 < total))];
      repeat match goal with
      | |- context [?a <? ?b] => destruct (Z.ltb_spec a b); try lia
      | |- context [?a =? ?b] => destruct (Z.eqb_spec a b); try lia
      end; done.
  - split; [|done]. destruct rec; [|done]. destruct (Z.ltb_spec 0 (Z.max 0 filled)); simpl; lia.
Qed.

(** An order whose cancellation is only requested is read as cancelled. *)
Example cancel_pending_reads_cancelled :
  map (fun raw => canonical_state (normalize_fill raw 0 50 false)) ["OPEN"; "CANCEL PENDING"; "CANCELLED"]
  = [Acknowledged; Cancelled; Cancelled].
Proof. by vm_compute. Qed.
