(* ===== verification/Protection.v ===== *)
(** * Protection: the library-owned protective stop
    (src/src/protection/stop_supervisor.cpp)

    One decision per tick over the reconciled position; the alerts it sends
    are part of the answer. *)

From S2P Require Import Prelude Domain Modes Resolver.

Record StopBand := mkStopBand { band_lower : Money; band_upper : Money; band_valid : bool }.

Record ProtectiveStop := mkStop {
  position_id : string; stop_symbol : string; position_qty : Z; stop_trigger : Money; protective_limit : Money }.

Inductive ProtectionState := Armed | Closed | ReArmNeeded | Unprotected.

#[export] Instance ProtectionState_eq_dec : EqDecision ProtectionState.
Proof. solve_decision. Defined.

Record ExitOrder := mkExit { exit_symbol : string; exit_side : Side; exit_qty : Z; exit_limit : Money }.

Record ProtectionDecision := mkProtection {
  prot_state : ProtectionState; emit_exit : bool; prot_exit : ExitOrder; prot_alert : bool; prot_detail : string }.

Record StopInputs := mkStopInputs {
  last_price : Money; trigger_crossed : bool; protective_order_state : OrderState; protective_order_known : bool;
  stop_band : StopBand }.

Definition protection_state_to_string (s : ProtectionState) : string :=
  match s with
  | Armed => "Armed" | Closed => "Closed" | ReArmNeeded => "ReArmNeeded" | Unprotected => "Unprotected"
  end.

Definition clamp_into_band (side : Side) (limit : Money) (band : StopBand) : Money :=
  let raise out := if money_paise out <? money_paise (band_lower band) then band_lower band else out in
  let cut out := if money_paise (band_upper band) <? money_paise out then band_upper band else out in
  match side with
  | Sell => cut (raise limit)
  | Buy => raise (cut limit)
  end.

(** The magnitude, negated in 64-bit unsigned arithmetic. *)
Definition exit_magnitude (qty : Z) : Z := if 0 <? qty then qty else to_i64 (to_u64 (0 - to_u64 qty)).

Definition no_exit : ExitOrder := mkExit "" Sell 0 (from_paise_money 0).

Abbreviation protection_alert := (AlertLevel * string * AlertContext)%type.

Definition best_effort_alert (message symbol : string) : list protection_alert :=
  [(AlertCritical, message, mkAlertContext "" "" "" symbol)].

Definition evaluate_protection (stop : ProtectiveStop) (inp : StopInputs) : ProtectionDecision * list protection_alert :=
  let sym := stop_symbol stop in
  if position_qty stop =? 0
  then (mkProtection Closed false no_exit false ("flat position (" +:+ sym +:+ "): nothing to protect"), [])
  else
    let side := if 0 <? position_qty stop then Sell else Buy in
    let qty := exit_magnitude (position_qty stop) in
    if qty <=? 0 then
      (mkProtection Unprotected false no_exit true ("non-positive exit qty for " +:+ sym +:+ ": cannot form protective exit"),
       best_effort_alert
         "PROTECTION: non-positive exit quantity; cannot arm a protective exit — manual intervention required" sym)
    else if negb (trigger_crossed inp) then
      (mkProtection Armed false no_exit false ("armed for " +:+ sym +:+ ": trigger not crossed"), [])
    else
      let side_tag := side_to_string side in
      let band := stop_band inp in
      let band_usable := band_valid band && (money_paise (band_lower band) <=? money_paise (band_upper band)) in
      if band_usable then
        (mkProtection ReArmNeeded true (mkExit sym side qty (clamp_into_band side (protective_limit stop) band)) true
           ("re-arm protective " +:+ side_tag +:+ " for " +:+ sym +:+ ": stop fired-but-unfilled; limit clamped into band"),
         best_effort_alert
           ("PROTECTION: re-arming protective " +:+ side_tag +:+
            " exit — stop trigger crossed but protective order did NOT fill") sym)
      else
        (mkProtection ReArmNeeded true (mkExit sym side qty (protective_limit stop)) true
           ("re-arm protective " +:+ side_tag +:+ " for " +:+ sym +:+
            ": stop fired-but-unfilled; band unknown — protective limit unclamped"),
         best_effort_alert
           ("PROTECTION: re-arming protective " +:+ side_tag +:+
            " exit — band unknown; protective limit UNCLAMPED (price not made safe)") sym).

(** ** Properties *)

Definition usable (band : StopBand) : Prop := band_valid band = true /\ money_paise (band_lower band) <= money_paise (band_upper band).

Lemma exit_magnitude_spec q : is_int64 q -> q <> 0 ->
  exit_magnitude q = if decide (q = int64_min) then int64_min else Z.abs q.
Proof.
  intros Hq Hne. unfold exit_magnitude. destruct (Z.ltb_spec 0 q).
  - rewrite decide_False by (unfold_ints; lia). lia.
  - assert (to_u64 (0 - to_u64 q) = - q) as ->.
    { unfold to_u64. rewrite Zminus_mod_idemp_r. replace (0 - q) with (- q) by lia.
      apply Z.mod_small. unfold_ints. lia. }
    destruct (decide (q = int64_min)) as [->|]; [by vm_compute|].
    rewrite to_i64_small by (unfold_ints; lia). lia.
Qed.

Lemma clamp_into_band_spec side limit band : usable band ->
  money_paise (clamp_into_band side limit band)
  = Z.max (money_paise (band_lower band)) (Z.min (money_paise (band_upper band)) (money_paise limit)).
Proof.
  intros [_ Hb]. unfold clamp_into_band. destruct side; cbv zeta;
    repeat case_match; repeat match goal with
    | H : (_ <? _) = true |- _ => apply Z.ltb_lt in H
    | H : (_ <? _) = false |- _ => apply Z.ltb_ge in H
    end; lia.
Qed.

(** Splits a decision that is already a constructor. *)
#[local] Ltac decision :=
  split_and!; try done;
  try (split; intros; repeat match goal with H : _ \/ _ |- _ => destruct H | H : _ /\ _ |- _ => destruct H end;
       split_and?; try discriminate; try congruence; try (by left); try (by right); try (unfold_ints; lia); try done).

(** Exposure is never left naked: a flat position is closed; on an open one
    whose trigger has crossed the decision emits an exit of the whole remaining
    size on the opposite side, with a Critical alert, whatever the broker says
    of the protective order; its price is the protective limit brought into
    the band when the band is usable and the limit itself otherwise. The one
    size that has no 64-bit magnitude is Unprotected, with the alert. Nothing
    is emitted or alerted while the trigger has not crossed. *)
Theorem protection_exact stop inp (q := position_qty stop) : is_int64 q ->
  let '(d, alerts) := evaluate_protection stop inp in
  let crossed := trigger_crossed inp = true in
  (prot_state d = Closed <-> q = 0)
  /\ (prot_state d = Unprotected <-> q = int64_min)
  /\ (prot_state d = Armed <-> q <> 0 /\ q <> int64_min /\ ~ crossed)
  /\ (emit_exit d = true <-> prot_state d = ReArmNeeded)
  /\ (prot_alert d = true <-> prot_state d = ReArmNeeded \/ prot_state d = Unprotected)
  /\ (if prot_alert d then exists m, alerts = [(AlertCritical, m, mkAlertContext "" "" "" (stop_symbol stop))] else alerts = [])
  /\ (prot_state d = ReArmNeeded ->
        exit_symbol (prot_exit d) = stop_symbol stop
        /\ exit_side (prot_exit d) = (if decide (0 < q) then Sell else Buy) /\ exit_qty (prot_exit d) = Z.abs q
        /\ let lo := money_paise (band_lower (stop_band inp)) in
           let hi := money_paise (band_upper (stop_band inp)) in
           let want := money_paise (protective_limit stop) in
           let got := money_paise (exit_limit (prot_exit d)) in
           (usable (stop_band inp) -> got = Z.max lo (Z.min hi want))
           /\ (~ usable (stop_band inp) -> got = want)).
Proof.
  intros Hq. unfold evaluate_protection. fold q. assert (Hmin : 0 <> int64_min) by (unfold_ints; lia).
  destruct (Z.eqb_spec q 0) as [Hz|Hz]; [cbn; decision|].
  rewrite exit_magnitude_spec by done. destruct (decide (q = int64_min)) as [He|He].
  { rewrite (proj2 (Z.leb_le int64_min 0)) by (unfold_ints; lia). cbn. decision. by eexists. }
  destruct (Z.leb_spec (Z.abs q) 0); [lia|]. destruct (trigger_crossed inp); cbn [negb]; [|cbn; decision].
  assert (Hside : (if 0 <? q then Sell else Buy) = if decide (0 < q) then Sell else Buy)
    by (destruct (Z.ltb_spec 0 q), (decide (0 < q)); done || lia).
  assert (Hu : usable (stop_band inp) <->
    band_valid (stop_band inp) && (money_paise (band_lower (stop_band inp)) <=? money_paise (band_upper (stop_band inp))) = true)
    by (unfold usable; rewrite andb_true_iff, Z.leb_le; done).
  destruct (_ && _); cbn; decision; try by eexists.
  - intros _. by apply clamp_into_band_spec, Hu.
  - intros Hn. exfalso. by apply Hn, Hu.
  - intros Hn. by apply Hu in Hn.
Qed.

Lemma protection_exact_witness
    (stop := mkStop "p" "NIFTY" (-75) (from_paise_money 9900) (from_paise_money 10500))
    (inp := mkStopInputs (from_paise_money 10000) true Filled true (mkStopBand (from_paise_money 9000) (from_paise_money 10200) true)) :
  is_int64 (position_qty stop)
  /\ (prot_state (evaluate_protection stop inp).1 = Closed <-> position_qty stop = 0)
  /\ prot_exit (evaluate_protection stop inp).1 = mkExit "NIFTY" Buy 75 (from_paise_money 10200).
Proof.
  split; [change (is_int64 (-75)); unfold_ints; lia|]. split; [|reflexivity].
  assert (is_int64 (position_qty stop)) as H by (change (is_int64 (-75)); unfold_ints; lia).
  pose proof (protection_exact stop inp H) as Hp. destruct (evaluate_protection stop inp). apply Hp.
Defined.
