(* ===== verification/StrategyBook.v ===== *)
(** * StrategyBook: one virtual book per strategy
    (src/src/isolation/strategy_book.cpp)

    Positions, tag and active flag of every strategy, fills and square-offs,
    and the account-wide exposure check. Machine arithmetic is written out: a
    signed overflow wraps, as in the compiled code. *)

From S2P Require Import Prelude Errors Domain.

Record VirtualPosition := mkVirtual { vnet : Z; avg_cost : Z; realized_pnl : Z }.

Definition flat_position : VirtualPosition := mkVirtual 0 0 0.

Record FlattenLeg := mkFlatten { fl_symbol : string; fl_qty : Z; fl_side : Side }.

Record StrategyState := mkStrategy { positions : gmap string VirtualPosition; tag : string; active : bool }.

Definition fresh_strategy : StrategyState := mkStrategy ∅ "" true.

(** [std::map<std::string, StrategyState>]. *)
Abbreviation strategy_book := (gmap string StrategyState).

Definition abs64 (x : Z) : Z := if x <? 0 then to_i64 (- x) else x.

Definition rejected (message : string) : Error := set_action BlockStrategy (make_error RiskRejected message "").

(** A fill of signed size [f] on one position. *)
Definition fill_position (pos : VirtualPosition) (f price : Z) : VirtualPosition :=
  let n := vnet pos in
  let opening := (n =? 0) || Bool.eqb (0 <? n) (0 <? f) in
  if opening then
    let mag_n := abs64 n in
    let mag_f := abs64 f in
    let blended := Z.quot (to_i64 (to_i64 (mag_n * avg_cost pos) + to_i64 (mag_f * price))) (to_i64 (mag_n + mag_f)) in
    mkVirtual (to_i64 (n + f)) blended (realized_pnl pos)
  else
    let closed := Z.min (abs64 f) (abs64 n) in
    let sign := if 0 <? n then 1 else -1 in
    let realized := to_i64 (realized_pnl pos + to_i64 (to_i64 (to_i64 (price - avg_cost pos) * closed) * sign)) in
    let net := to_i64 (n + f) in
    mkVirtual net
      (if net =? 0 then 0 else if abs64 n <? abs64 f then price else avg_cost pos)
      realized.

(** [strategies_[id]] creates the strategy, [positions[symbol]] the position. *)
Definition strategy_of (b : strategy_book) (id : string) : StrategyState := default fresh_strategy (b !! id).

Definition set_position (s : StrategyState) (symbol : string) (p : VirtualPosition) : StrategyState :=
  mkStrategy (<[symbol := p]> (positions s)) (tag s) (active s).

Definition signed_fill (side : Side) (qty : Quantity) : Z :=
  match side with Buy => quantity_value qty | Sell => to_i64 (- quantity_value qty) end.

Definition apply_fill (b : strategy_book) (id symbol : string) (side : Side) (qty : Quantity) (price : Money) : strategy_book :=
  let f := signed_fill side qty in
  if f =? 0 then b
  else
    let s := strategy_of b id in
    let pos := default flat_position (positions s !! symbol) in
    <[id := set_position s symbol (fill_position pos f (money_paise price))]> b.

Definition position_of (b : strategy_book) (id symbol : string) : VirtualPosition :=
  match b !! id with
  | None => flat_position
  | Some s => default flat_position (positions s !! symbol)
  end.

Definition set_tag (b : strategy_book) (id t : string) : strategy_book :=
  let s := strategy_of b id in <[id := mkStrategy (positions s) t (active s)]> b.

Definition tag_of (b : strategy_book) (id : string) : string :=
  match b !! id with None => "" | Some s => tag s end.

Definition flatten_leg (symbol : string) (net : Z) : FlattenLeg :=
  mkFlatten symbol (abs64 net) (if 0 <? net then Sell else Buy).

Definition flatten_position (p : VirtualPosition) : VirtualPosition :=
  if vnet p =? 0 then p else mkVirtual 0 0 (realized_pnl p).

Definition flatten_strategy (s : StrategyState) : StrategyState :=
  mkStrategy (flatten_position <$> positions s) (tag s) (active s).

(** The legs of a map of net quantities. *)
Definition legs_of (nets : gmap string Z) : list FlattenLeg :=
  omap (fun p => if snd p =? 0 then None else Some (flatten_leg (fst p) (snd p))) (by_key nets).

(** [account_net[symbol] += net_qty]. *)
Definition add_net (acc : gmap string Z) (symbol : string) (net : Z) : gmap string Z :=
  <[symbol := to_i64 (default 0 (acc !! symbol) + net)]> acc.

Definition account_net (b : strategy_book) : gmap string Z :=
  foldl (fun acc s => foldl (fun acc p => add_net acc (fst p) (vnet (snd p))) acc (by_key (positions (snd s))))
    ∅ (by_key b).

Definition square_off (b : strategy_book) (id : string) (netting_enabled : bool) : list FlattenLeg * strategy_book :=
  if negb netting_enabled then
    match b !! id with
    | None => ([], b)
    | Some s => (legs_of (vnet <$> positions s), <[id := flatten_strategy s]> b)
    end
  else (legs_of (account_net b), flatten_strategy <$> b).

(** The double loop of [account_exposure], on the open positions. *)
Definition account_exposure (b : strategy_book) (mark_price : string -> Money) : Z :=
  foldl (fun total s =>
    foldl (fun total p => if vnet (snd p) =? 0 then total
                          else to_i64 (total + to_i64 (abs64 (vnet (snd p)) * money_paise (mark_price (fst p)))))
      total (by_key (positions (snd s)))) 0 (by_key b).

Definition is_active (b : strategy_book) (id : string) : bool :=
  match b !! id with None => true | Some s => active s end.

Definition check_new_order (b : strategy_book) (id symbol : string) (qty : Quantity) (price account_max_exposure : Money)
    (mark_price : string -> Money) : result unit :=
  if negb (is_active b id)
  then Err (rejected ("strategy '" +:+ id +:+ "' is stopped: new orders blocked"))
  else if money_paise account_max_exposure <? 0
  then Err (rejected ("negative account exposure cap is a misconfiguration for '" +:+ symbol +:+ "': blocked (fail-closed)"))
  else if money_paise account_max_exposure =? 0 then Ok tt
  else
    let combined := to_i64 (account_exposure b mark_price + to_i64 (abs64 (quantity_value qty) * money_paise price)) in
    if money_paise account_max_exposure <? combined
    then Err (rejected ("combined account exposure would exceed cap for strategy '" +:+ id +:+ "' on '" +:+ symbol +:+ "'"))
    else Ok tt.

Definition stop_strategy (b : strategy_book) (id : string) : strategy_book :=
  let s := strategy_of b id in <[id := mkStrategy (positions s) (tag s) false]> b.

Definition resume_strategy (b : strategy_book) (id : string) : strategy_book :=
  let s := strategy_of b id in <[id := mkStrategy (positions s) (tag s) true]> b.

(** ** Lemmas *)

Lemma abs64_spec x : is_int64 x -> x <> int64_min -> abs64 x = Z.abs x.
Proof. intros Hx Hm. unfold abs64. destruct (Z.ltb_spec x 0); [|lia]. rewrite to_i64_small by (unfold_ints; lia). lia. Qed.

Lemma to_i64_add a b : to_i64 (to_i64 a + b) = to_i64 (a + b).
Proof.
  unfold to_i64. f_equal. replace ((a + 2 ^ 63) mod 2 ^ 64 - 2 ^ 63 + b + 2 ^ 63) with ((a + 2 ^ 63) mod 2 ^ 64 + b) by lia.
  rewrite Zplus_mod_idemp_l. f_equal. lia.
Qed.

(** ** The cost model *)

(** A position whose arithmetic stays far from the machine's limits. *)
Definition moderate (p : VirtualPosition) : Prop :=
  Z.abs (vnet p) < 2 ^ 30 /\ 0 <= avg_cost p < 2 ^ 31 /\ Z.abs (realized_pnl p) < 2 ^ 62.

(** What the position has banked, less what it cost to hold. *)
Definition book_value (p : VirtualPosition) : Z := realized_pnl p - vnet p * avg_cost p.

Definition opening (p : VirtualPosition) (f : Z) : bool := (vnet p =? 0) || Bool.eqb (0 <? vnet p) (0 <? f).

Lemma opening_spec p f : f <> 0 -> opening p f = true <-> 0 <= vnet p * f.
Proof.
  intros Hf. unfold opening. destruct (Z.eqb_spec (vnet p) 0) as [->|]; [split; [lia|done]|]. simpl.
  destruct (Z.ltb_spec 0 (vnet p)), (Z.ltb_spec 0 f); simpl; split; try done; nia.
Qed.

Lemma fill_opening p f price : moderate p -> f <> 0 -> Z.abs f < 2 ^ 30 -> 0 <= price < 2 ^ 31 -> 0 <= vnet p * f ->
  let M := Z.abs (vnet p) + Z.abs f in
  let S := Z.abs (vnet p) * avg_cost p + Z.abs f * price in
  fill_position p f price = mkVirtual (vnet p + f) (S / M) (realized_pnl p) /\ 0 < M /\ Z.abs (vnet p + f) = M.
Proof.
  intros (Hn & Ha & Hr) Hf0 Hf Hp Hs. cbv zeta. unfold fill_position.
  fold (opening p f). rewrite (proj2 (opening_spec p f Hf0)) by done.
  rewrite !abs64_spec by (unfold_ints; lia).
  assert (0 <= Z.abs (vnet p) * avg_cost p < 2 ^ 61) by nia. assert (0 <= Z.abs f * price < 2 ^ 61) by nia.
  rewrite (to_i64_small (_ * avg_cost p)), (to_i64_small (_ * price)) by (unfold_ints; lia).
  rewrite !to_i64_small by (unfold_ints; lia). rewrite Z.quot_div_nonneg by lia. split_and!; [done|lia|nia].
Qed.

Lemma fill_closing p f price : moderate p -> Z.abs f < 2 ^ 30 -> 0 <= price < 2 ^ 31 -> vnet p * f < 0 ->
  let closed := Z.min (Z.abs f) (Z.abs (vnet p)) in
  fill_position p f price =
    mkVirtual (vnet p + f)
      (if decide (vnet p + f = 0) then 0 else if decide (Z.abs (vnet p) < Z.abs f) then price else avg_cost p)
      (realized_pnl p + (price - avg_cost p) * closed * Z.sgn (vnet p)).
Proof.
  intros (Hn & Ha & Hr) Hf Hp Hs. cbv zeta. unfold fill_position. fold (opening p f).
  destruct (opening p f) eqn:Ho; [apply opening_spec in Ho; lia|].
  rewrite !abs64_spec by (unfold_ints; lia).
  assert ((if 0 <? vnet p then 1 else -1) = Z.sgn (vnet p)) as -> by (destruct (Z.ltb_spec 0 (vnet p)); lia).
  set (c := Z.min (Z.abs f) (Z.abs (vnet p))). assert (0 <= c < 2 ^ 30) by lia.
  set (d := price - avg_cost p). assert (- 2 ^ 31 < d < 2 ^ 31) by lia.
  assert (- 2 ^ 61 < d * c < 2 ^ 61) by nia. assert (- 2 ^ 61 < d * c * Z.sgn (vnet p) < 2 ^ 61) by nia.
  rewrite (to_i64_small d) by (unfold_ints; lia). rewrite (to_i64_small (d * c)) by (unfold_ints; lia).
  rewrite (to_i64_small (d * c * Z.sgn (vnet p))) by (unfold_ints; lia).
  rewrite !to_i64_small by (unfold_ints; lia). f_equal.
  destruct (Z.eqb_spec (vnet p + f) 0), (decide (vnet p + f = 0)); try done.
  destruct (Z.ltb_spec (Z.abs (vnet p)) (Z.abs f)), (decide (Z.abs (vnet p) < Z.abs f)); done || lia.
Qed.

(** ** The gross exposure *)

(** A sum over pairs, in any order. *)
Definition sum_over {A} (f : A -> Z) (l : list A) : Z := foldr (fun x n => f x + n) 0 l.

Lemma sum_over_perm {A} (f : A -> Z) l k : l ≡ₚ k -> sum_over f l = sum_over f k.
Proof. induction 1; simpl; lia. Qed.

Lemma sum_over_nonneg {A} (f : A -> Z) l : (forall x, x ∈ l -> 0 <= f x) -> 0 <= sum_over f l.
Proof.
  induction l as [|x l IH]; intros H; simpl; [lia|]. specialize (IH ltac:(intros y Hy; apply H; by right)).
  specialize (H x ltac:(left)). lia.
Qed.

(** What the open positions are worth at the marks. *)
Definition position_exposure (mark : string -> Money) (p : string * VirtualPosition) : Z :=
  Z.abs (vnet (snd p)) * money_paise (mark (fst p)).

Definition gross_exposure (b : strategy_book) (mark : string -> Money) : Z :=
  sum_over (fun s => sum_over (position_exposure mark) (map_to_list (positions (snd s)))) (map_to_list b).

(** A fold of guarded 64-bit additions is the sum when nothing overflows. *)
Lemma fold_sum64 {A} (step : Z -> A -> Z) (f : A -> Z) l : forall total,
  (forall total x, x ∈ l -> 0 <= total -> total + f x <= int64_max -> step total x = total + f x) ->
  (forall x, x ∈ l -> 0 <= f x) -> 0 <= total -> total + sum_over f l <= int64_max ->
  foldl step total l = total + sum_over f l.
Proof.
  induction l as [|x l IH]; intros total Hstep Hf Ht Hm; simpl in *; [lia|].
  assert (0 <= f x) by (apply Hf; left). assert (0 <= sum_over f l) by (apply sum_over_nonneg; intros y Hy; apply Hf; by right).
  rewrite Hstep; [|left|done|lia]. rewrite IH; [lia| | |lia|lia].
  - intros t y Hy. apply Hstep. by right.
  - intros y Hy. apply Hf. by right.
Qed.

Definition sane_positions (b : strategy_book) : Prop :=
  forall id s symbol p, b !! id = Some s -> positions s !! symbol = Some p -> is_int64 (vnet p) /\ vnet p <> int64_min.

Lemma exposure_spec b mark : sane_positions b -> (forall symbol, 0 <= money_paise (mark symbol)) ->
  gross_exposure b mark <= int64_max -> account_exposure b mark = gross_exposure b mark.
Proof.
  intros Hs Hm Hg. unfold account_exposure, gross_exposure in *.
  rewrite <- (sum_over_perm _ _ _ (by_key_Permutation b)) in *.
  set (f := fun s : string * StrategyState => sum_over (position_exposure mark) (map_to_list (positions (snd s)))) in *.
  assert (Hpos : forall p, 0 <= position_exposure mark p).
  { intros p. unfold position_exposure. specialize (Hm (fst p)). nia. }
  rewrite (fold_sum64 _ f); [lia| | |done|lia].
  2: { intros s _. apply sum_over_nonneg. intros p _. apply Hpos. }
  intros total [id s] Hin Ht Hle. apply elem_of_by_key in Hin. unfold f in *. cbn [fst snd] in *.
  rewrite <- (sum_over_perm _ _ _ (by_key_Permutation (positions s))) in *.
  apply fold_sum64; [|intros p _; apply Hpos|done|done].
  intros t [symbol p] Hp Ht' Hle'. apply elem_of_by_key in Hp. specialize (Hpos (symbol, p)).
  unfold position_exposure in *. cbn [fst snd] in *. destruct (Hs id s symbol p Hin Hp) as [Hi Hmin].
  destruct (Z.eqb_spec (vnet p) 0) as [Hz|Hz]; [rewrite Hz in *; lia|].
  rewrite abs64_spec by done. rewrite (to_i64_small (_ * _)) by (unfold_ints; lia). apply to_i64_small. unfold_ints. lia.
Qed.

(** ** Runs of the book *)

(** The calls that belong to one strategy; a square-off that nets across
    strategies does not. *)
Inductive book_op :=
  | OpFill (id symbol : string) (side : Side) (qty : Quantity) (price : Money)
  | OpTag (id t : string)
  | OpSquareOff (id : string)
  | OpStop (id : string)
  | OpResume (id : string).

Definition op_strategy (o : book_op) : string :=
  match o with OpFill id _ _ _ _ | OpTag id _ | OpSquareOff id | OpStop id | OpResume id => id end.

Definition book_step (b : strategy_book) (o : book_op) : strategy_book :=
  match o with
  | OpFill id symbol side qty price => apply_fill b id symbol side qty price
  | OpTag id t => set_tag b id t
  | OpSquareOff id => (square_off b id false).2
  | OpStop id => stop_strategy b id
  | OpResume id => resume_strategy b id
  end.

Definition of_strategy (id : string) (o : book_op) : bool := String.eqb (op_strategy o) id.

Lemma book_step_other b o id : op_strategy o <> id -> book_step b o !! id = b !! id.
Proof.
  destruct o; simpl; intros Hne; unfold apply_fill, set_tag, square_off, stop_strategy, resume_strategy; simpl;
    repeat case_match; simpl; by rewrite ?lookup_insert_ne.
Qed.

Lemma book_step_same b c o : b !! op_strategy o = c !! op_strategy o -> book_step b o !! op_strategy o = book_step c o !! op_strategy o.
Proof.
  destruct o; simpl; intros Heq; unfold apply_fill, set_tag, square_off, stop_strategy, resume_strategy, strategy_of; simpl;
    rewrite ?Heq; repeat case_match; simpl; rewrite ?lookup_insert_eq; congruence.
Qed.

Lemma book_run_filter id ops : forall b c, b !! id = c !! id ->
  foldl book_step b ops !! id = foldl book_step c (List.filter (of_strategy id) ops) !! id.
Proof.
  induction ops as [|o ops IH]; intros b c Heq; [done|]. cbn [foldl List.filter].
  destruct (of_strategy id o) eqn:Ho; apply IH.
  - apply String.eqb_eq in Ho. subst id. by apply book_step_same.
  - apply String.eqb_neq in Ho. by rewrite book_step_other.
Qed.

Lemma legs_of_spec (nets : gmap string Z) leg :
  leg ∈ legs_of nets <-> exists symbol net, nets !! symbol = Some net /\ net <> 0 /\ leg = flatten_leg symbol net.
Proof.
  unfold legs_of. rewrite list_elem_of_omap. split.
  - intros ([symbol net] & Hin & Hl). apply elem_of_by_key in Hin. simpl in Hl.
    destruct (Z.eqb_spec net 0); [done|]. injection Hl as <-. eauto.
  - intros (symbol & net & Hl & Hne & ->). exists (symbol, net). split; [by apply elem_of_by_key|]. simpl.
    by destruct (Z.eqb_spec net 0).
Qed.

Lemma flatten_position_flat p : vnet (flatten_position p) = 0 /\ realized_pnl (flatten_position p) = realized_pnl p.
Proof. unfold flatten_position. by destruct (Z.eqb_spec (vnet p) 0). Qed.

(** ** Properties *)

(** Strategies never interfere: however the fills, tags, square-offs, stops
    and resumes of many strategies are interleaved, what one strategy then
    shows, its positions, its tag and whether it is active, is what its own
    calls alone would have produced. *)
Theorem strategies_isolated b ops id (b1 := foldl book_step b ops) (b2 := foldl book_step b (List.filter (of_strategy id) ops)) :
  (forall symbol, position_of b1 id symbol = position_of b2 id symbol)
  /\ tag_of b1 id = tag_of b2 id /\ is_active b1 id = is_active b2 id.
Proof.
  pose proof (book_run_filter id ops b b eq_refl) as H. fold b1 b2 in H. unfold position_of, tag_of, is_active. by rewrite H.
Qed.

(** A fill accounts for its cash: on a position and a fill of moderate size
    the net moves by the fill, and what the position has banked less what it
    cost moves by exactly the cash of the fill when it reduces, closes or
    crosses the position; when it opens, by at most the rounding of one
    average, less than one paisa per unit held. *)
Theorem fill_accounts_for_cash p f price (p' := fill_position p f price) :
  moderate p -> f <> 0 -> Z.abs f < 2 ^ 30 -> 0 <= price < 2 ^ 31 ->
  vnet p' = vnet p + f
  /\ (vnet p * f < 0 -> book_value p' = book_value p - f * price)
  /\ (0 <= vnet p * f -> Z.abs (book_value p' - (book_value p - f * price)) < Z.abs (vnet p')).
Proof.
  intros Hm Hf0 Hf Hp. subst p'. destruct (Z.lt_ge_cases (vnet p * f) 0) as [Hs|Hs].
  - rewrite fill_closing by done. cbn [vnet]. split; [done|]. split; [intros _|lia].
    unfold book_value. cbn [realized_pnl vnet avg_cost].
    destruct (decide (vnet p + f = 0)) as [Hz|]; [|destruct (decide (Z.abs (vnet p) < Z.abs f))].
    + replace (Z.min (Z.abs f) (Z.abs (vnet p))) with (Z.abs (vnet p)) by lia. replace f with (- vnet p) by lia. nia.
    + replace (Z.min (Z.abs f) (Z.abs (vnet p))) with (Z.abs (vnet p)) by lia. nia.
    + replace (Z.min (Z.abs f) (Z.abs (vnet p))) with (Z.abs f) by lia.
      assert (Z.abs f * Z.sgn (vnet p) = - f) by nia. nia.
  - destruct (fill_opening p f price) as (-> & HM & Habs); [done..|]. cbn [vnet]. split; [done|]. split; [lia|intros _].
    unfold book_value. cbn [realized_pnl vnet avg_cost]. rewrite Habs.
    set (M := Z.abs (vnet p) + Z.abs f) in *. set (S := Z.abs (vnet p) * avg_cost p + Z.abs f * price).
    pose proof (Z.div_mod S M ltac:(lia)) as Hd. pose proof (Z.mod_pos_bound S M HM) as Hr.
    assert (Hsg : vnet p * avg_cost p + f * price = S \/ vnet p * avg_cost p + f * price = - S) by (unfold S; nia).
    assert (Hnn : vnet p + f = M /\ vnet p * avg_cost p + f * price = S \/
                  vnet p + f = - M /\ vnet p * avg_cost p + f * price = - S).
    { unfold S, M. destruct (Z.le_gt_cases 0 f); 
        [left; assert (0 <= vnet p) by nia; rewrite !Z.abs_eq by lia|right; assert (vnet p <= 0) by nia; rewrite !Z.abs_neq by lia]; lia. }
    destruct Hnn as [[-> He]|[-> He]]; rewrite <- ?He in *; nia.
Qed.

Lemma fill_accounts_for_cash_witness (p := mkVirtual 3 101 0) :
  (moderate p /\ -5 <> 0 /\ Z.abs (-5) < 2 ^ 30 /\ 0 <= 110 < 2 ^ 31)
  /\ vnet (fill_position p (-5) 110) = 3 + -5
  /\ fill_position p (-5) 110 = mkVirtual (-2) 110 27.
Proof.
  assert (moderate p /\ -5 <> 0 /\ Z.abs (-5) < 2 ^ 30 /\ 0 <= 110 < 2 ^ 31) as H by (subst p; unfold moderate; simpl; lia).
  split; [exact H|]. destruct H as (H1 & H2 & H3 & H4).
  split; [apply (fill_accounts_for_cash p (-5) 110 H1 H2 H3 H4)|reflexivity].
Defined.

(** A square-off is exact: a strategy's own emits one leg per open symbol, of
    the whole size on the opposite side, leaves it flat with its realised
    profit, and touches no other strategy; a netting one emits one leg per
    symbol whose account-wide net is not zero and leaves every strategy flat. *)
Theorem square_off_exact b id netting (legs := (square_off b id netting).1) (b' := (square_off b id netting).2) :
  (forall leg, leg ∈ legs <-> exists symbol net,
     net <> 0 /\ leg = flatten_leg symbol net
     /\ (if netting then account_net b !! symbol = Some net
         else exists p, (strategy_of b id).(positions) !! symbol = Some p /\ vnet p = net))
  /\ (forall k symbol,
        realized_pnl (position_of b' k symbol) = realized_pnl (position_of b k symbol)
        /\ if netting || String.eqb k id then vnet (position_of b' k symbol) = 0
           else position_of b' k symbol = position_of b k symbol)
  /\ (forall k, tag_of b' k = tag_of b k /\ is_active b' k = is_active b k).
Proof.
  subst legs b'. unfold square_off. destruct netting; cbn [negb fst snd orb].
  - split_and!.
    + intros leg. rewrite legs_of_spec. naive_solver.
    + intros k symbol. unfold position_of. rewrite lookup_fmap. destruct (b !! k) as [s|]; simpl; [|done].
      rewrite lookup_fmap. destruct (positions s !! symbol); simpl; [|done]. split; apply flatten_position_flat.
    + intros k. unfold tag_of, is_active. rewrite lookup_fmap. by destruct (b !! k).
  - destruct (b !! id) as [s|] eqn:Es; cbn [fst snd].
    + split_and!.
      * intros leg. rewrite legs_of_spec. unfold strategy_of. rewrite Es. simpl. setoid_rewrite lookup_fmap_Some. naive_solver.
      * intros k symbol. unfold position_of. destruct (String.eqb_spec k id) as [->|Hne]; [|by rewrite lookup_insert_ne].
        rewrite lookup_insert_eq, Es. simpl. rewrite lookup_fmap. destruct (positions s !! symbol); simpl; [|done].
        split; apply flatten_position_flat.
      * intros k. unfold tag_of, is_active. destruct (decide (k = id)) as [->|Hne]; [|by rewrite lookup_insert_ne].
        by rewrite lookup_insert_eq, Es.
    + split_and!; [|intros k symbol; split; [done|]|done].
      * intros leg. unfold strategy_of. rewrite Es. simpl. split; [by intros ?%elem_of_nil|].
        intros (symbol & net & _ & _ & p & Hp & _). by rewrite lookup_empty in Hp.
      * destruct (String.eqb_spec k id) as [->|]; [|done]. unfold position_of. by rewrite Es.
Qed.

(** The account cap is the backstop: as long as nothing overflows, an order
    is admitted if and only if its strategy is active and the cap is zero, or
    positive and not exceeded by the gross value of every strategy's open
    positions at the marks together with the order's own. *)
Theorem check_new_order_exact b id symbol qty price cap mark (value := Z.abs (quantity_value qty) * money_paise price)
    (Hpos : sane_positions b) (Hmark : forall s, 0 <= money_paise (mark s)) (Hprice : 0 <= money_paise price)
    (Hqty : is_int64 (quantity_value qty) /\ quantity_value qty <> int64_min)
    (Hfits : gross_exposure b mark + value <= int64_max) :
  is_ok (check_new_order b id symbol qty price cap mark) = true <->
  is_active b id = true /\ 0 <= money_paise cap /\ (money_paise cap = 0 \/ gross_exposure b mark + value <= money_paise cap).
Proof.
  assert (Hv : 0 <= value) by (subst value; nia). assert (Hg : 0 <= gross_exposure b mark).
  { unfold gross_exposure. apply sum_over_nonneg. intros s _. apply sum_over_nonneg. intros p _.
    unfold position_exposure. specialize (Hmark (fst p)). nia. }
  unfold check_new_order. destruct (is_active b id); cbn [negb]; [|split; [done|by intros [? _]]].
  rewrite exposure_spec by (done || lia). destruct Hqty as [Hq1 Hq2]. rewrite abs64_spec by done. fold value.
  rewrite (to_i64_small value) by (unfold_ints; lia). rewrite to_i64_small by (unfold_ints; lia).
  destruct (Z.ltb_spec (money_paise cap) 0); [simpl; split; [done|lia]|].
  destruct (Z.eqb_spec (money_paise cap) 0); [simpl; split; [intros _; split_and!; [done|lia|by left]|done]|].
  destruct (Z.ltb_spec (money_paise cap) (gross_exposure b mark + value)); simpl; split; try done; try lia.
Qed.

(** Beyond 64 bits the product wraps, and an order far above the cap is
    admitted. *)
Example overflowing_order_admitted (cap := from_paise_money 1000) (mark := fun _ : string => from_paise_money 0) :
  is_ok (check_new_order ∅ "s" "NIFTY" (quantity_of (2 ^ 32)) (from_paise_money (2 ^ 32)) cap mark) = true
  /\ is_ok (check_new_order ∅ "s" "NIFTY" (quantity_of (2 ^ 31)) (from_paise_money (2 ^ 31)) cap mark) = false.
Proof. by vm_compute. Qed.

Lemma check_new_order_exact_witness (b := apply_fill ∅ "a" "NIFTY" Buy (quantity_of 5) (from_paise_money 100))
    (mark := fun _ : string => from_paise_money 100) (cap := from_paise_money 700) :
  gross_exposure b mark + 3 * 100 <= int64_max
  /\ (is_ok (check_new_order b "z" "NIFTY" (quantity_of 3) (from_paise_money 100) cap mark) = true <->
      is_active b "z" = true /\ 0 <= 700 /\ (700 = 0 \/ gross_exposure b mark + 3 * 100 <= 700))
  /\ is_ok (check_new_order b "z" "NIFTY" (quantity_of 3) (from_paise_money 100) cap mark) = false.
Proof.
  assert (gross_exposure b mark + 3 * 100 <= int64_max) as Hf by (vm_compute; discriminate).
  split; [exact Hf|]. split; [|vm_compute; reflexivity].
  apply (check_new_order_exact b "z" "NIFTY" (quantity_of 3) (from_paise_money 100) cap mark); [| | | |exact Hf].
  - intros id s symbol p Hs Hp.
    assert (b = {["a" := mkStrategy {["NIFTY" := mkVirtual 5 100 0]} "" true]}) as Hb by (vm_compute; reflexivity).
    rewrite Hb in Hs. apply lookup_singleton_Some in Hs as [_ Hs]. rewrite <- Hs in Hp. cbn [positions] in Hp.
    apply lookup_singleton_Some in Hp as [_ Hp]. rewrite <- Hp.
    change (is_int64 5 /\ 5 <> int64_min). unfold_ints. lia.
  - intros s. simpl. lia.
  - simpl. lia.
  - change (is_int64 3 /\ 3 <> int64_min). unfold_ints. lia.
Defined.
