(* ===== verification/Health.v ===== *)
(** * Health: feed freshness, resubscription, clock sanity, the watchdog
    (src/src/marketdata/market_data.cpp, src/src/feedsub/resubscribe_guard.cpp,
    src/src/clock/skew_stall_detector.cpp, src/src/health/watchdog.cpp)

    Times are nanoseconds; an operation takes the clock readings it makes. *)

From S2P Require Import Prelude Errors Domain Modes.

(** ** Market data *)

Inductive MarketDataState := MdUnknown | MdLive | MdStale | MdDelayed | MdDisconnected.

#[export] Instance MarketDataState_eq_dec : EqDecision MarketDataState.
Proof. solve_decision. Defined.

Definition market_state_to_string (s : MarketDataState) : string :=
  match s with
  | MdUnknown => "Unknown" | MdLive => "Live" | MdStale => "Stale" | MdDelayed => "Delayed"
  | MdDisconnected => "Disconnected"
  end.

Inductive ReconnectResult := Reconnected | TransportFailure | AuthFailure.

Record Tick := mkTick { tick_symbol : string; tick_ltp : Price; tick_exchange_ts : Z }.

Record FeedEntry := mkFeed { entry_ltp : Price; exchange_ts : Z; received_at : Z; seen : bool }.

Definition fresh_entry : FeedEntry := mkFeed (from_paise 0) 0 0 false.

Definition md_ms : Z := 10 ^ 6.

(** The thresholds are in milliseconds. *)
Record MarketDataView := mkView {
  staleness_threshold : Z; delay_threshold : Z; entries : gmap string FeedEntry; connected : bool }.

Definition new_view (staleness delay : Z) : MarketDataView := mkView staleness delay ∅ false.

Definition set_entries (m : gmap string FeedEntry) (v : MarketDataView) : MarketDataView :=
  mkView (staleness_threshold v) (delay_threshold v) m (connected v).

(** [entries_[t.symbol]] creates the entry before the guard. *)
Definition on_tick (v : MarketDataView) (t : Tick) (now_steady : Z) : MarketDataView :=
  let e := default fresh_entry (entries v !! tick_symbol t) in
  set_entries
    (<[tick_symbol t :=
         if seen e && (tick_exchange_ts t <=? exchange_ts e) then e
         else mkFeed (tick_ltp t) (tick_exchange_ts t) now_steady true]> (entries v)) v.

Definition set_connected (c : bool) (v : MarketDataView) : MarketDataView :=
  mkView (staleness_threshold v) (delay_threshold v) (entries v) c.

Definition on_disconnect (v : MarketDataView) : MarketDataView := set_connected false v.
Definition on_connect (v : MarketDataView) : MarketDataView := set_connected true v.

Definition state_for (v : MarketDataView) (symbol : string) (now_steady now_wall : Z) : MarketDataState :=
  if negb (connected v) then MdDisconnected
  else match entries v !! symbol with
       | None => MdUnknown
       | Some e =>
           if negb (seen e) then MdUnknown
           else if staleness_threshold v * md_ms <? now_steady - received_at e then MdStale
           else if delay_threshold v * md_ms <? now_wall - exchange_ts e then MdDelayed
           else MdLive
       end.

Definition md_is_tradable (v : MarketDataView) (symbol : string) (now_steady now_wall : Z) : bool :=
  bool_decide (state_for v symbol now_steady now_wall = MdLive).

Definition require_tradable (v : MarketDataView) (symbol : string) (now_steady now_wall : Z) : result unit :=
  let s := state_for v symbol now_steady now_wall in
  if bool_decide (s = MdLive) then Ok tt
  else Err (make_error DataStale ("market data not tradable for " +:+ symbol +:+ ": " +:+ market_state_to_string s) "").

Definition ltp (v : MarketDataView) (symbol : string) : option Price :=
  match entries v !! symbol with
  | None => None
  | Some e => if negb (seen e) then None else Some (entry_ltp e)
  end.

Abbreviation plain_alert := (AlertLevel * string)%type.

Definition handle_reconnect (v : MarketDataView) (r : ReconnectResult) : result unit * list plain_alert * MarketDataView :=
  match r with
  | Reconnected => (Ok tt, [], on_connect v)
  | TransportFailure => (Ok tt, [], on_disconnect v)
  | AuthFailure =>
      (Err (make_error SessionExpired "market-data WS auth failed; re-establish session" ""),
       [(AlertError, "market-data reconnect failed on auth; routing to session re-establishment (no socket retry)")],
       on_disconnect v)
  end.

(** ** The resubscribe guard *)

Inductive TokenFeedState := Subscribed | AwaitingFirstTick | Live | MuteAfterResubscribe.

#[export] Instance TokenFeedState_eq_dec : EqDecision TokenFeedState.
Proof. solve_decision. Defined.

Definition feed_state_to_string (s : TokenFeedState) : string :=
  match s with
  | Subscribed => "subscribed" | AwaitingFirstTick => "awaiting_first_tick" | Live => "live"
  | MuteAfterResubscribe => "mute_after_resubscribe"
  end.

Record TokenEntry := mkToken { phase : TokenFeedState; tick_deadline : Z }.

Definition fresh_token : TokenEntry := mkToken Subscribed 0.

Definition kMinDeadline : Z := 1.

Record ResubscribeGuard := mkGuard { first_tick_deadline : Z; tokens : gmap string TokenEntry }.

Definition new_guard (deadline : Z) : ResubscribeGuard := mkGuard (Z.max deadline kMinDeadline) ∅.

Definition resolve_token (e : TokenEntry) (now : Z) : TokenFeedState :=
  if bool_decide (phase e = AwaitingFirstTick) && (tick_deadline e <? now) then MuteAfterResubscribe else phase e.

(** [emplace] leaves a token that is there alone. *)
Definition subscribe (g : ResubscribeGuard) (token : string) : ResubscribeGuard :=
  mkGuard (first_tick_deadline g)
    (match tokens g !! token with Some _ => tokens g | None => <[token := fresh_token]> (tokens g) end).

Definition unsubscribe (g : ResubscribeGuard) (token : string) : ResubscribeGuard :=
  mkGuard (first_tick_deadline g) (delete token (tokens g)).

(** The tokens to subscribe again, and the guard. *)
Definition on_reconnect (g : ResubscribeGuard) (now : Z) : list string * ResubscribeGuard :=
  let deadline := now + first_tick_deadline g * md_ms in
  ((map_to_list (tokens g)).*1,
   mkGuard (first_tick_deadline g) ((fun _ => mkToken AwaitingFirstTick deadline) <$> tokens g)).

Definition record_tick (g : ResubscribeGuard) (token : string) : ResubscribeGuard :=
  match tokens g !! token with
  | None => g
  | Some e => mkGuard (first_tick_deadline g) (<[token := mkToken Live (tick_deadline e)]> (tokens g))
  end.

Definition token_state_of (g : ResubscribeGuard) (token : string) (now : Z) : TokenFeedState :=
  match tokens g !! token with
  | None => Subscribed
  | Some e => resolve_token e now
  end.

Definition mute_tokens (g : ResubscribeGuard) (now : Z) : list string :=
  (List.filter (fun p => bool_decide (resolve_token (snd p) now = MuteAfterResubscribe)) (map_to_list (tokens g))).*1.

Definition token_is_tradable (g : ResubscribeGuard) (token : string) (now : Z) : bool :=
  bool_decide (token_state_of g token now = Live).

(** ** The skew and stall detector *)

Inductive ClockStatus := ClockHealthy | ClockStalled | ClockSkewed.

#[export] Instance ClockStatus_eq_dec : EqDecision ClockStatus.
Proof. solve_decision. Defined.

Definition clock_status_to_string (s : ClockStatus) : string :=
  match s with ClockHealthy => "Healthy" | ClockStalled => "Stalled" | ClockSkewed => "Skewed" end.

Record SkewStallConfig := mkSkewConfig { stall_threshold : Z; skew_threshold : Z }.

Record SkewStallDetector := mkDetector {
  det_config : SkewStallConfig; det_status : ClockStatus; det_reason : string; have_baseline : bool;
  last_steady : Z; last_wall : Z }.

Definition new_detector (cfg : SkewStallConfig) : SkewStallDetector := mkDetector cfg ClockHealthy "" false 0 0.

Definition ms_text (ns : Z) : string := pretty (Z.quot ns md_ms) +:+ "ms".

Definition sample (d : SkewStallDetector) (steady_now wall_now : Z) : ClockStatus * SkewStallDetector :=
  let cfg := det_config d in
  if negb (have_baseline d)
  then (det_status d, mkDetector cfg (det_status d) (det_reason d) true steady_now wall_now)
  else
    let steady_elapsed := steady_now - last_steady d in
    let wall_elapsed := wall_now - last_wall d in
    if stall_threshold cfg <? steady_elapsed then
      (ClockStalled,
       mkDetector cfg ClockStalled
         ("main-loop stall: steady gap " +:+ ms_text steady_elapsed +:+ " exceeds threshold " +:+
          ms_text (stall_threshold cfg)) true steady_now wall_now)
    else
      let divergence := Z.abs (wall_elapsed - steady_elapsed) in
      if skew_threshold cfg <? divergence then
        (ClockSkewed,
         mkDetector cfg ClockSkewed
           ("clock skew: wall/steady divergence " +:+ ms_text divergence +:+ " exceeds threshold " +:+
            ms_text (skew_threshold cfg)) true steady_now wall_now)
      else (det_status d, mkDetector cfg (det_status d) (det_reason d) true steady_now wall_now).

Definition reset_detector (d : SkewStallDetector) : SkewStallDetector :=
  mkDetector (det_config d) ClockHealthy "" false 0 0.

(** ** The watchdog *)

Inductive HealthSignal := MuteFeed | DiskPressure | MemoryPressure | HandlePressure | ClockSkew | ClockStall.

#[export] Instance HealthSignal_eq_dec : EqDecision HealthSignal.
Proof. solve_decision. Defined.

Definition signal_to_string (s : HealthSignal) : string :=
  match s with
  | MuteFeed => "MuteFeed" | DiskPressure => "DiskPressure" | MemoryPressure => "MemoryPressure"
  | HandlePressure => "HandlePressure" | ClockSkew => "ClockSkew" | ClockStall => "ClockStall"
  end.

Record ResourceUsage := mkUsage { disk_bytes : Z; mem_bytes : Z; handle_count : Z }.
Record ResourceLimits := mkResourceLimits { max_disk_bytes : Z; max_mem_bytes : Z; max_handles : Z }.
Record WatchdogInputs := mkWatchdogInputs {
  usage : ResourceUsage; feed_mute : bool; clock_skew : bool; clock_stall : bool }.

(** The verdict with the alerts sent on the way. *)
Record WatchdogVerdict := mkVerdict { breaches : list HealthSignal; wd_detail : string; wd_alerts : list plain_alert }.

Definition normalize_limits (l : ResourceLimits) : ResourceLimits :=
  let up z := if z <? 0 then 0 else z in
  mkResourceLimits (up (max_disk_bytes l)) (up (max_mem_bytes l)) (up (max_handles l)).

Definition flag (s : HealthSignal) (level : AlertLevel) (note : string) (v : WatchdogVerdict) : WatchdogVerdict :=
  mkVerdict (breaches v ++ [s])
    ((if String.eqb (wd_detail v) "" then "" else wd_detail v +:+ "; ") +:+ note) (wd_alerts v ++ [(level, note)]).

Definition flag_if (c : bool) (s : HealthSignal) (level : AlertLevel) (note : string) (v : WatchdogVerdict) : WatchdogVerdict :=
  if c then flag s level note v else v.

Definition usage_tag (u limit : Z) : string := "usage=" +:+ pretty u +:+ " limit=" +:+ pretty limit.

Definition over (limit u : Z) : bool := (0 <? limit) && (limit <? u).

Definition watchdog_check (limits : ResourceLimits) (w : WatchdogInputs) : WatchdogVerdict :=
  let l := normalize_limits limits in
  let u := usage w in
  let pressure s limit used v := flag_if (over limit used) s AlertError (signal_to_string s +:+ " " +:+ usage_tag used limit) v in
  flag_if (clock_stall w) ClockStall AlertCritical (signal_to_string ClockStall +:+ " main-loop clock stall detected")
   (flag_if (clock_skew w) ClockSkew AlertCritical (signal_to_string ClockSkew +:+ " wall clock skew detected")
     (pressure HandlePressure (max_handles l) (handle_count u)
       (pressure MemoryPressure (max_mem_bytes l) (mem_bytes u)
         (pressure DiskPressure (max_disk_bytes l) (disk_bytes u)
           (flag_if (feed_mute w) MuteFeed AlertCritical
              (signal_to_string MuteFeed +:+ " feed connected but no fresh tick past threshold")
              (mkVerdict [] "" [])))))).

Definition wd_healthy (v : WatchdogVerdict) : bool := match breaches v with [] => true | _ => false end.
Definition degrade_to_exit_only (v : WatchdogVerdict) : bool := match breaches v with [] => false | _ => true end.

Definition feed_connected_but_mute (view : MarketDataView) (symbol : string) (now_steady now_wall : Z) : bool :=
  bool_decide (state_for view symbol now_steady now_wall = MdStale).

(** ** Properties *)

Definition feed_run (v : MarketDataView) (ticks : list (Tick * Z)) : MarketDataView :=
  foldl (fun v t => on_tick v (fst t) (snd t)) v ticks.

(** The entry of a symbol is a newest tick of those seen. *)
Definition newest (symbol : string) (ticks : list (Tick * Z)) (e : FeedEntry) : Prop :=
  exists t now, (t, now) ∈ ticks /\ tick_symbol t = symbol /\ entry_ltp e = tick_ltp t /\ exchange_ts e = tick_exchange_ts t
    /\ received_at e = now /\ forall t' now', (t', now') ∈ ticks -> tick_symbol t' = symbol -> tick_exchange_ts t' <= exchange_ts e.

Lemma feed_run_spec staleness delay ticks symbol :
  match entries (feed_run (new_view staleness delay) ticks) !! symbol with
  | None => forall t now, (t, now) ∈ ticks -> tick_symbol t <> symbol
  | Some e => seen e = true /\ newest symbol ticks e
  end.
Proof.
  unfold feed_run. induction ticks as [|[t now] ticks IH] using rev_ind.
  { cbn. rewrite lookup_empty. by intros t now ?%elem_of_nil. }
  rewrite foldl_app. cbn [foldl fst snd]. set (v := foldl _ _ ticks) in *. unfold on_tick. cbn [entries set_entries].
  assert (Hin : forall t' now', (t', now') ∈ ticks ++ [(t, now)] <-> (t', now') ∈ ticks \/ t' = t /\ now' = now).
  { intros. rewrite elem_of_app, list_elem_of_singleton. naive_solver. }
  destruct (decide (tick_symbol t = symbol)) as [<-|Hne].
  - rewrite lookup_insert_eq. destruct (entries v !! tick_symbol t) as [e|]; simpl.
    + destruct IH as [Hs (t0 & n0 & Hin0 & H1 & H2 & H3 & H4 & H5)]. rewrite Hs. cbn [andb].
      destruct (Z.leb_spec (tick_exchange_ts t) (exchange_ts e)).
      * split; [done|]. exists t0, n0. setoid_rewrite Hin. split_and!; try done; [by left|].
        intros t' n' [Hold|[-> ->]] Hsym; [by eapply H5|done].
      * split; [done|]. exists t, now. setoid_rewrite Hin. simpl. split_and!; try done; [by right|].
        intros t' n' [Hold|[-> ->]] Hsym; [|lia]. specialize (H5 t' n' Hold Hsym). lia.
    + split; [done|]. exists t, now. setoid_rewrite Hin. simpl. split_and!; try done; [by right|].
      intros t' n' [Hold|[-> ->]] Hsym; [by apply IH in Hold|lia].
  - rewrite lookup_insert_ne by done. destruct (entries v !! symbol) as [e|].
    + destruct IH as [Hs (t0 & n0 & Hin0 & H1 & H2 & H3 & H4 & H5)]. split; [done|]. exists t0, n0. setoid_rewrite Hin.
      split_and!; try done; [by left|]. intros t' n' [Hold|[-> ->]] Hsym; [by eapply H5|done].
    + intros t' n' [Hold|[-> ->]]%Hin; [by eapply IH|done].
Qed.

(** Prices never go back: after any ticks, in any order, the price of a
    symbol is that of a tick no older on the exchange clock than any other of
    the symbol; there is one exactly when a tick was seen; and the symbol is
    tradable exactly when the feed is connected, that tick was received within
    the staleness threshold, and it lags the exchange by no more than the delay
    threshold. *)
Theorem market_data_exact staleness delay ticks symbol up now wall
    (v := set_connected up (feed_run (new_view staleness delay) ticks)) :
  (ltp v symbol = None <-> forall t n, (t, n) ∈ ticks -> tick_symbol t <> symbol)
  /\ (forall p, ltp v symbol = Some p -> exists t n, (t, n) ∈ ticks /\ tick_symbol t = symbol /\ tick_ltp t = p
        /\ forall t' n', (t', n') ∈ ticks -> tick_symbol t' = symbol -> tick_exchange_ts t' <= tick_exchange_ts t)
  /\ (md_is_tradable v symbol now wall = true <->
      up = true /\ exists e, newest symbol ticks e /\ entries v !! symbol = Some e
        /\ now - received_at e <= staleness * md_ms /\ wall - exchange_ts e <= delay * md_ms)
  /\ (is_ok (require_tradable v symbol now wall) = md_is_tradable v symbol now wall).
Proof.
  pose proof (feed_run_spec staleness delay ticks symbol) as H.
  assert (Hth : staleness_threshold v = staleness /\ delay_threshold v = delay).
  { subst v. cbn. unfold feed_run. clear. induction ticks as [|t ticks IH] using rev_ind; [done|]. by rewrite foldl_app. }
  destruct Hth as [Ht1 Ht2]. assert (He : entries v = entries (feed_run (new_view staleness delay) ticks)) by done.
  unfold ltp, md_is_tradable, require_tradable, state_for. rewrite He, Ht1, Ht2.
  assert (connected v = up) as -> by done.
  destruct (entries (feed_run (new_view staleness delay) ticks) !! symbol) as [e|].
  - destruct H as [Hs Hn]. rewrite Hs. cbn [negb]. split_and!.
    + split; [done|]. destruct Hn as (t & n & Hin & Hsym & _). intros Hnone. by apply Hnone in Hin.
    + intros p [= <-]. destruct Hn as (t & n & Hin & Hsym & Hp & Hx & _ & Hall). exists t, n. rewrite <- Hx. done.
    + destruct up; cbn [negb]; [|split; [done|by intros [? _]]].
      destruct (Z.ltb_spec (staleness * md_ms) (now - received_at e)); [split; [done|intros (_ & e' & _ & [= <-] & ? & _); lia]|].
      destruct (Z.ltb_spec (delay * md_ms) (wall - exchange_ts e)); [split; [done|intros (_ & e' & _ & [= <-] & _ & ?); lia]|].
      split; [intros _|done]. split; [done|]. by exists e.
    + by case_bool_decide.
  - split_and!; [by split|done| |by case_bool_decide].
    destruct up; cbn [negb]; (split; [done|]); [by intros (_ & e & _ & ? & _)|by intros [? _]].
Qed.

(** After a reconnect silence is not health: for ticks recorded since, a
    token that was subscribed is live exactly when it ticked; otherwise it is
    awaited until the deadline and reported mute after it; nothing else is
    tradable. *)
Theorem resubscribe_exact g t ticks token now (g' := foldl record_tick (on_reconnect g t).2 ticks) :
  token_state_of g' token now =
    (if decide (is_Some (tokens g !! token)) then
       if decide (token ∈ ticks) then Live
       else if decide (now <= t + first_tick_deadline g * md_ms) then AwaitingFirstTick else MuteAfterResubscribe
     else Subscribed)
  /\ (token_is_tradable g' token now = true <-> is_Some (tokens g !! token) /\ token ∈ ticks)
  /\ (token ∈ mute_tokens g' now <->
      is_Some (tokens g !! token) /\ token ∉ ticks /\ t + first_tick_deadline g * md_ms < now)
  /\ (token ∈ (on_reconnect g t).1 <-> is_Some (tokens g !! token)).
Proof.
  set (d := t + first_tick_deadline g * md_ms).
  assert (Hg : forall k, tokens g' !! k = (fun _ => mkToken (if decide (k ∈ ticks) then Live else AwaitingFirstTick) d) <$> tokens g !! k).
  { subst g'. induction ticks as [|x ticks IH] using rev_ind; intros k.
    - simpl. rewrite lookup_fmap. by destruct (tokens g !! k).
    - rewrite foldl_app. simpl. unfold record_tick at 1. rewrite IH.
      destruct (tokens g !! x) as [ex|] eqn:Ex; cbn [fmap option_fmap option_map tokens tick_deadline].
      + destruct (decide (x = k)) as [->|Hne].
        * rewrite lookup_insert_eq, Ex. simpl. rewrite decide_True; [done|]. apply elem_of_app. right. left.
        * rewrite lookup_insert_ne, IH by done. destruct (tokens g !! k); simpl; [|done]. do 2 f_equal.
          apply decide_ext. rewrite elem_of_app, list_elem_of_singleton. naive_solver.
      + rewrite IH. destruct (tokens g !! k) eqn:Ek; simpl; [|done]. do 2 f_equal.
        apply decide_ext. rewrite elem_of_app, list_elem_of_singleton. split; [by left|]. intros [?| ->]; congruence. }
  assert (Hs : token_state_of g' token now = if decide (is_Some (tokens g !! token)) then
      if decide (token ∈ ticks) then Live else if decide (now <= d) then AwaitingFirstTick else MuteAfterResubscribe
      else Subscribed).
  { unfold token_state_of. rewrite Hg. destruct (tokens g !! token); simpl; [|done].
    unfold resolve_token. simpl. destruct (decide (token ∈ ticks)); [done|].
    rewrite bool_decide_eq_true_2 by done. cbn [andb].
    destruct (Z.ltb_spec d now), (decide (now <= d)); done || lia. }
  split_and!; [exact Hs| | |].
  - unfold token_is_tradable. rewrite bool_decide_eq_true, Hs. repeat case_decide; naive_solver.
  - unfold mute_tokens. rewrite list_elem_of_fmap. setoid_rewrite list_elem_of_In. setoid_rewrite filter_In.
    setoid_rewrite <- list_elem_of_In. split.
    + intros ([k e] & -> & Hin & Hm%bool_decide_eq_true). apply elem_of_map_to_list in Hin. simpl in *.
      assert (token_state_of g' k now = MuteAfterResubscribe) as Hk by (unfold token_state_of; by rewrite Hin).
      rewrite Hk in Hs. repeat case_decide; try done. split_and!; [done..|lia].
    + intros (Hsome & Hni & Hlt). assert (token_state_of g' token now = MuteAfterResubscribe) as Hm by (rewrite Hs; repeat case_decide; done || lia). clear Hs. rename Hm into Hs.
      unfold token_state_of in Hs. destruct (tokens g' !! token) as [e|] eqn:Ee; [|done].
      exists (token, e). split_and!; [done|by apply elem_of_map_to_list|]. by apply bool_decide_eq_true.
  - simpl. rewrite list_elem_of_fmap. split.
    + intros ([k e] & -> & Hin%elem_of_map_to_list). simpl. by eexists.
    + intros [e He]. exists (token, e). split; [done|]. by apply elem_of_map_to_list.
Qed.

(** The samples of a run, each with the one before. *)
Fixpoint faulty (cfg : SkewStallConfig) (last : Z * Z) (samples : list (Z * Z)) : bool :=
  match samples with
  | [] => false
  | s :: rest =>
      (stall_threshold cfg <? fst s - fst last)
      || (skew_threshold cfg <? Z.abs ((snd s - snd last) - (fst s - fst last))) || faulty cfg s rest
  end.

Definition run_samples (d : SkewStallDetector) (samples : list (Z * Z)) : SkewStallDetector :=
  foldl (fun d s => (sample d (fst s) (snd s)).2) d samples.

Lemma run_samples_status samples : forall d, have_baseline d = true ->
  det_status (run_samples d samples) = ClockHealthy <->
  det_status d = ClockHealthy /\ faulty (det_config d) (last_steady d, last_wall d) samples = false.
Proof.
  induction samples as [|[s w] samples IH]; intros d Hb; [by simpl; split; [|intros []]|].
  unfold run_samples in *. cbn [foldl fst snd faulty]. rewrite IH by (unfold sample; rewrite Hb; repeat case_match; done).
  unfold sample. rewrite Hb. cbn [negb fst snd].
  destruct (stall_threshold (det_config d) <? s - last_steady d); [cbn; by split; intros []|].
  destruct (skew_threshold (det_config d) <? _); cbn; [by split; intros []|done].
Qed.

(** A clock fault latches: after a first sample the detector is healthy if
    and only if no interval since was stalled or skewed, however many good
    samples follow; only a reset clears it. *)
Theorem clock_fault_latches cfg s0 samples :
  det_status (run_samples (new_detector cfg) (s0 :: samples)) = ClockHealthy <-> faulty cfg s0 samples = false.
Proof.
  destruct s0 as [s w]. unfold run_samples. cbn [foldl fst snd]. fold (run_samples (sample (new_detector cfg) s w).2 samples).
  rewrite run_samples_status by done. cbn. naive_solver.
Qed.

(** The status that latches is the latest fault, not the worst. *)
Example skew_replaces_stall (cfg := mkSkewConfig (2 * 10 ^ 9) (5 * 10 ^ 8)) :
  map (fun samples => det_status (run_samples (new_detector cfg) samples))
    [[(0, 0); (3 * 10 ^ 9, 3 * 10 ^ 9)]; [(0, 0); (3 * 10 ^ 9, 3 * 10 ^ 9); (3 * 10 ^ 9, 5 * 10 ^ 9)]]
  = [ClockStalled; ClockSkewed].
Proof. by vm_compute. Qed.

Definition breached (limits : ResourceLimits) (w : WatchdogInputs) (s : HealthSignal) : bool :=
  match s with
  | MuteFeed => feed_mute w
  | DiskPressure => over (max_disk_bytes limits) (disk_bytes (usage w))
  | MemoryPressure => over (max_mem_bytes limits) (mem_bytes (usage w))
  | HandlePressure => over (max_handles limits) (handle_count (usage w))
  | ClockSkew => clock_skew w
  | ClockStall => clock_stall w
  end.

(** The watchdog reports every breach once: the signals listed are exactly
    those whose condition holds, in a fixed order, each with one alert, and it
    degrades to exit-only exactly when there is one; a limit that is zero or
    negative is not armed. *)
Theorem watchdog_exact limits w (v := watchdog_check limits w) :
  breaches v = List.filter (breached limits w) [MuteFeed; DiskPressure; MemoryPressure; HandlePressure; ClockSkew; ClockStall]
  /\ length (wd_alerts v) = length (breaches v)
  /\ degrade_to_exit_only v = existsb (breached limits w) [MuteFeed; DiskPressure; MemoryPressure; HandlePressure; ClockSkew; ClockStall].
Proof.
  assert (Hover : forall z u, over (if z <? 0 then 0 else z) u = over z u).
  { intros z u. unfold over. destruct (Z.ltb_spec z 0); [|done]. rewrite (proj2 (Z.ltb_ge 0 z)) by lia. done. }
  subst v. unfold watchdog_check, degrade_to_exit_only, breached. cbn [normalize_limits max_disk_bytes max_mem_bytes max_handles].
  rewrite !Hover. cbn [List.filter existsb].
  destruct (feed_mute w), (over (max_disk_bytes limits) _), (over (max_mem_bytes limits) _), (over (max_handles limits) _),
    (clock_skew w), (clock_stall w); done.
Qed.
