(* ===== verification/Config.v ===== *)
(** * Config: the layered configuration (src/src/config/config.cpp)

    The TOML reader (toml++) and the file system are parameters: a file is a tree
    of nodes. The environment is a function; each field takes the environment's
    value, else the file's, else the default, and keys shaped like secrets refuse
    the whole file before any value is read. *)

From S2P Require Import Prelude Errors Redaction.

(** ** Data *)

Inductive RunProfile := DryRun | Paper | LiveProfile | Replay.
Inductive LogLevel := Trace | Debug | Info | Warn | LogError.

#[export] Instance RunProfile_eq_dec : EqDecision RunProfile.
Proof. solve_decision. Defined.
#[export] Instance LogLevel_eq_dec : EqDecision LogLevel.
Proof. solve_decision. Defined.

Definition profile_to_string (p : RunProfile) : string :=
  match p with DryRun => "dry-run" | Paper => "paper" | LiveProfile => "live" | Replay => "replay" end.

Definition level_to_string (l : LogLevel) : string :=
  match l with Trace => "trace" | Debug => "debug" | Info => "info" | Warn => "warn" | LogError => "error" end.

Record EngineConfig := mkEngineConfig { mode : RunProfile; cfg_account_id : string }.
Record BrokerConfig := mkBrokerConfig { broker_name : string; base_url : string; timeout_ms : Z }.
Record RiskConfig := mkRiskConfig { cfg_max_order_value_paise : Z; cfg_max_open_positions : Z }.
Record PathsConfig := mkPathsConfig { data_dir : string; log_dir : string }.
Record LoggingConfig := mkLoggingConfig { level : LogLevel }.
Record StrategiesConfig := mkStrategiesConfig { names : list string }.

Record Config := mkConfig {
  engine : EngineConfig;
  broker : BrokerConfig;
  risk : RiskConfig;
  paths : PathsConfig;
  logging : LoggingConfig;
  strategies : StrategiesConfig;
}.

Definition default_config : Config :=
  mkConfig (mkEngineConfig DryRun "") (mkBrokerConfig "" "" 5000) (mkRiskConfig 0 0)
    (mkPathsConfig "" "") (mkLoggingConfig Info) (mkStrategiesConfig []).

Definition EnvLookup := string -> option string.

(** A parsed TOML document: the nodes toml++ hands back. Values the loader never
    reads (floats, booleans, dates) keep only their type. *)
Inductive toml_node :=
  | TTable (entries : list (string * toml_node))
  | TArray (elements : list toml_node)
  | TString (s : string)
  | TInteger (z : Z)
  | TFloat | TBool | TDate | TTime | TDateTime.

Abbreviation toml_table := (list (string * toml_node)).

(** ** Text *)

Definition to_lower_ascii (c : ascii) : ascii := fold_char c.

(** [needle] at offset [i] of [haystack], the haystack folded. *)
Definition matches_at (haystack needle : list ascii) (i : nat) : bool :=
  bool_decide (to_lower_ascii <$> take (length needle) (drop i haystack) = needle).

Definition key_contains_ci (haystack needle : string) : bool :=
  if String.eqb needle "" then true else
  if (String.length haystack <? String.length needle)%nat then false else
  existsb (matches_at (chars haystack) (chars needle))
    (seq 0 (S (String.length haystack - String.length needle))).

Definition equals_ci (a b : string) : bool :=
  if negb (String.length a =? String.length b)%nat then false else
  bool_decide (to_lower_ascii <$> chars a = to_lower_ascii <$> chars b).

Definition parse_run_profile (text : string) : option RunProfile :=
  if equals_ci text "dry-run" || equals_ci text "dryrun" || equals_ci text "dry_run" then Some DryRun else
  if equals_ci text "paper" then Some Paper else
  if equals_ci text "live" then Some LiveProfile else
  if equals_ci text "replay" then Some Replay else None.

Definition parse_log_level (text : string) : option LogLevel :=
  if equals_ci text "trace" then Some Trace else
  if equals_ci text "debug" then Some Debug else
  if equals_ci text "info" then Some Info else
  if equals_ci text "warn" || equals_ci text "warning" then Some Warn else
  if equals_ci text "error" then Some LogError else None.

(** [std::toupper] in the C locale. *)
Definition upper_char (c : ascii) : ascii :=
  let n := nat_of_ascii c in
  if (97 <=? n)%nat && (n <=? 122)%nat then ascii_of_nat (n - 32) else c.

Definition upper (s : string) : string := str (upper_char <$> chars s).

Definition env_key (section field : string) : string :=
  "BROKER_EXEC_" +:+ upper section +:+ "_" +:+ upper field.

(** ** Errors *)

Definition field_error (section field reason : string) : Error :=
  make_error Validation ("config: field '" +:+ section +:+ "." +:+ field +:+ "' " +:+ reason) "".

Definition secret_error (key_path : string) : Error :=
  make_error Validation
    ("config: secret-shaped key '" +:+ key_path +:+
     "' is forbidden in the TOML; provide secrets via the env seam / SecretProvider, never the config file") "".

Definition first_error {A} (f : A -> option Error) : list A -> option Error :=
  fix go l := match l with
              | [] => None
              | x :: rest => match f x with Some e => Some e | None => go rest end
              end.

(** ** The secret scan *)

Definition kSecretNeedles : list string :=
  ["token"; "secret"; "password"; "passwd"; "pwd"; "api_key"; "api-key"; "apikey"; "mpin"; "totp";
   "bearer"; "credential"].

Definition matches_secret (key path : string) : option Error :=
  first_error (fun needle => if key_contains_ci key needle then Some (secret_error path) else None)
    kSecretNeedles.

Definition key_path (prefix key : string) : string :=
  if String.eqb prefix "" then key else prefix +:+ "." +:+ key.

Fixpoint scan_node (path : string) (node : toml_node) : option Error :=
  match node with
  | TTable entries =>
      first_error (fun kn : string * toml_node =>
        let p := key_path path kn.1 in
        match matches_secret kn.1 p with Some e => Some e | None => scan_node p kn.2 end) entries
  | TArray elements => first_error (scan_node path) elements
  | _ => None
  end.

Definition scan_secrets (table : toml_table) (prefix : string) : option Error :=
  scan_node prefix (TTable table).

(** ** Reading one field *)

Fixpoint table_get (table : toml_table) (key : string) : option toml_node :=
  match table with
  | [] => None
  | (k, n) :: rest => if String.eqb k key then Some n else table_get rest key
  end.

(** [table[section][field]]. *)
Definition field_node (table : toml_table) (section field : string) : option toml_node :=
  match table_get table section with Some (TTable sub) => table_get sub field | _ => None end.

Definition as_string (n : toml_node) : option string := match n with TString s => Some s | _ => None end.
Definition as_integer (n : toml_node) : option Z := match n with TInteger z => Some z | _ => None end.
Definition as_strings (n : toml_node) : option (list string) :=
  match n with TArray l => mapM as_string l | _ => None end.

Definition toml_type_name (n : toml_node) : string :=
  match n with
  | TTable _ => "a table"
  | TArray _ => "an array"
  | TString _ => "a string"
  | TInteger _ => "an integer"
  | TFloat => "a floating-point value"
  | TBool => "a boolean"
  | TDate => "a date"
  | TTime => "a time"
  | TDateTime => "a date-time"
  end.

Section Fields.
  Context (table : toml_table) (env : EnvLookup) (section field : string).
  Abbreviation node := (field_node table section field).
  Abbreviation env_value := (env (env_key section field)).
  Abbreviation bad reason := (Err (field_error section field reason)).

Definition apply_string (out : string) : result string :=
  out ← match node with
        | Some n => match as_string n with Some v => Ok v | None => bad "must be a string" end
        | None => Ok out
        end;
  match env_value with Some v => Ok v | None => Ok out end.

Definition apply_int64 (out : Z) : result Z :=
  out ← match node with
        | Some n => match as_integer n with
                    | Some v => Ok v
                    | None => bad ("must be an integer, not " +:+ toml_type_name n)
                    end
        | None => Ok out
        end;
  match env_value with
  | Some text => match from_chars_int64 text with
                 | Some parsed => Ok parsed
                 | None => bad "must be an integer"
                 end
  | None => Ok out
  end.

(** [raw] and [present] of the three text-valued readers below. *)
Definition raw_text (type_error : string) : result (option string) :=
  raw ← match node with
        | Some n => match as_string n with Some v => Ok (Some v) | None => bad type_error end
        | None => Ok None
        end;
  match env_value with Some v => Ok (Some v) | None => Ok raw end.

Definition apply_path (out : string) : result string :=
  raw ← raw_text "must be a string path";
  match raw with
  | Some text => if str_contains_char zero text then bad "is not a well-formed path" else Ok text
  | None => Ok out
  end.

Definition apply_run_profile (out : RunProfile) : result RunProfile :=
  raw ← raw_text "must be a string";
  match raw with
  | Some text => match parse_run_profile text with
                 | Some p => Ok p
                 | None => bad "is not a valid mode (expected dry-run|paper|live|replay)"
                 end
  | None => Ok out
  end.

Definition apply_log_level (out : LogLevel) : result LogLevel :=
  raw ← raw_text "must be a string";
  match raw with
  | Some text => match parse_log_level text with
                 | Some l => Ok l
                 | None => bad "is not a valid level (expected trace|debug|info|warn|error)"
                 end
  | None => Ok out
  end.
End Fields.

(** The segments between commas, the last one included. *)
Fixpoint split_commas (l : list ascii) : list (list ascii) :=
  match l with
  | [] => [[]]
  | c :: rest =>
      if Ascii.eqb c "," then [] :: split_commas rest
      else match split_commas rest with seg :: segs => (c :: seg) :: segs | [] => [[c]] end
  end.

(** The loop over a comma-separated variable: every entry is kept trimmed, but a
    blank one that is the whole variable. *)
Fixpoint list_loop (parsed : list string) (segments : list (list ascii)) : list string :=
  match segments with
  | [] => parsed
  | [last] =>
      if bool_decide (parsed = []) && bool_decide (trim_blanks last = [])
      then parsed else parsed ++ [str (trim_blanks last)]
  | seg :: rest => list_loop (parsed ++ [str (trim_blanks seg)]) rest
  end.

Definition parse_env_list (text : string) : list string := list_loop [] (split_commas (chars text)).

Definition apply_string_list (table : toml_table) (env : EnvLookup) (section field : string)
    (out : list string) : result (list string) :=
  out ← match field_node table section field with
        | Some n => match as_strings n with
                    | Some v => Ok v
                    | None => Err (field_error section field "must be an array of strings")
                    end
        | None => Ok out
        end;
  match env (env_key section field) with Some text => Ok (parse_env_list text) | None => Ok out end.

(** ** Validation and load *)

(** The loop over strategy names, [i] the index of the first. *)
Fixpoint validate_names (i : Z) (l : list string) : option Error :=
  match l with
  | [] => None
  | name :: rest =>
      let reason := explain_invalid_strategy_name name in
      if String.eqb reason "" then validate_names (i + 1) rest
      else Some (field_error "strategies" "names" ("entry #" +:+ pretty (i + 1) +:+ " is invalid: " +:+ reason))
  end.

Definition validate (cfg : Config) : option Error :=
  if String.eqb (cfg_account_id (engine cfg)) "" then Some (field_error "engine" "account_id" "is required") else
  if String.eqb (broker_name (broker cfg)) "" then Some (field_error "broker" "name" "is required") else
  if timeout_ms (broker cfg) <=? 0 then Some (field_error "broker" "timeout_ms" "must be > 0") else
  if cfg_max_order_value_paise (risk cfg) <? 0
  then Some (field_error "risk" "max_order_value_paise" "must be >= 0") else
  if cfg_max_open_positions (risk cfg) <? 0
  then Some (field_error "risk" "max_open_positions" "must be >= 0") else
  if String.eqb (data_dir (paths cfg)) "" then Some (field_error "paths" "data_dir" "is required") else
  validate_names 0 (names (strategies cfg)).

Section Load.
  (** The file system's [exists] and toml++'s [parse_file]. *)
  Context (file_exists : string -> bool) (parse_file : string -> toml_table + string).

Definition read_table (toml_path : string) : result toml_table :=
  if String.eqb toml_path "" then Ok [] else
  if negb (file_exists toml_path)
  then Err (make_error Validation ("config: TOML file not found: " +:+ toml_path) "") else
  match parse_file toml_path with
  | inr description => Err (make_error Validation ("config: TOML parse error: " +:+ description) "")
  | inl table => match scan_secrets table "" with Some e => Err e | None => Ok table end
  end.

Definition load (toml_path : string) (env : EnvLookup) : result Config :=
  table ← read_table toml_path;
  mode ← apply_run_profile table env "engine" "mode" (mode (engine default_config));
  account ← apply_string table env "engine" "account_id" (cfg_account_id (engine default_config));
  name ← apply_string table env "broker" "name" (broker_name (broker default_config));
  url ← apply_string table env "broker" "base_url" (base_url (broker default_config));
  timeout ← apply_int64 table env "broker" "timeout_ms" (timeout_ms (broker default_config));
  max_value ← apply_int64 table env "risk" "max_order_value_paise"
                (cfg_max_order_value_paise (risk default_config));
  max_open ← apply_int64 table env "risk" "max_open_positions" (cfg_max_open_positions (risk default_config));
  data ← apply_path table env "paths" "data_dir" (data_dir (paths default_config));
  log ← apply_path table env "paths" "log_dir" (log_dir (paths default_config));
  lvl ← apply_log_level table env "logging" "level" (level (logging default_config));
  strats ← apply_string_list table env "strategies" "names" (names (strategies default_config));
  let cfg := mkConfig (mkEngineConfig mode account) (mkBrokerConfig name url timeout)
               (mkRiskConfig max_value max_open) (mkPathsConfig data log) (mkLoggingConfig lvl)
               (mkStrategiesConfig strats) in
  match validate cfg with Some e => Err e | None => Ok cfg end.
End Load.

(** ** Text lemmas *)

Lemma fold_string_chars s : chars (fold_string s) = to_lower_ascii <$> chars s.
Proof. induction s; simpl; [done|]. by f_equal. Qed.

Lemma matches_at_spec h n i :
  (i + length n <= length h)%nat ->
  matches_at h n i = true <->
  exists pre post, length pre = i /\ to_lower_ascii <$> h = pre ++ n ++ post.
Proof.
  intros Hle. unfold matches_at. rewrite bool_decide_eq_true, fmap_take, fmap_drop. split.
  - intros E. exists (take i (to_lower_ascii <$> h)), (drop (length n) (drop i (to_lower_ascii <$> h))). split.
    + rewrite length_take, length_fmap. lia.
    + rewrite <- E at 1. by rewrite !take_drop.
  - intros (pre & post & <- & ->). by rewrite drop_app_length, take_app_length.
Qed.

(** [contains_ci] of this file finds what the shared one finds. *)
Lemma key_contains_ci_spec h n :
  key_contains_ci h n = true <-> exists pre post, fold_string h = pre +:+ n +:+ post.
Proof.
  assert (Hstr : (exists pre post, fold_string h = pre +:+ n +:+ post) <->
                 exists pre post, to_lower_ascii <$> chars h = pre ++ chars n ++ post).
  { rewrite <- fold_string_chars. split.
    - intros (pre & post & ->). exists (chars pre), (chars post). by rewrite !chars_app.
    - intros (pre & post & E). exists (str pre), (str post). apply (inj chars).
      by rewrite !chars_app, !chars_str. }
  rewrite Hstr. clear Hstr. unfold key_contains_ci.
  destruct (String.eqb_spec n "") as [->|Hn].
  { split; [|done]. intros _. by exists [], (to_lower_ascii <$> chars h). }
  destruct (Nat.ltb_spec (String.length h) (String.length n)) as [Hlt|Hle].
  { split; [done|]. intros (pre & post & E). apply (f_equal length) in E.
    rewrite length_fmap, !length_app, !chars_length in E. lia. }
  rewrite existsb_exists. split.
  - intros (i & Hi & E). apply in_seq in Hi.
    apply matches_at_spec in E as (pre & post & _ & E); [eauto|]. rewrite !chars_length. lia.
  - intros (pre & post & E). exists (length pre).
    pose proof (f_equal length E) as L. rewrite length_fmap, !length_app, !chars_length in L.
    split; [apply in_seq; lia|]. apply matches_at_spec; [rewrite !chars_length; lia|]. eauto.
Qed.

Lemma equals_ci_spec a b : equals_ci a b = true <-> fold_string a = fold_string b.
Proof.
  assert (H : fold_string a = fold_string b <-> to_lower_ascii <$> chars a = to_lower_ascii <$> chars b).
  { rewrite <- !fold_string_chars. split; [congruence | apply (inj chars)]. }
  rewrite H. unfold equals_ci. destruct (Nat.eqb_spec (String.length a) (String.length b)) as [|Hne]; simpl.
  - by rewrite bool_decide_eq_true.
  - split; [done|]. intros E. apply (f_equal length) in E. rewrite !length_fmap, !chars_length in E. done.
Qed.

(** ** The secret scan *)

Lemma first_error_None {A} (f : A -> option Error) l : first_error f l = None <-> Forall (fun x => f x = None) l.
Proof.
  induction l as [|x l IH]; simpl; [by split|]. rewrite Forall_cons, <- IH.
  destruct (f x); naive_solver.
Qed.

Section toml_ind.
  Context (P : toml_node -> Prop)
    (Htable : forall es, Forall (fun kn => P kn.2) es -> P (TTable es))
    (Harray : forall l, Forall P l -> P (TArray l))
    (Hleaf : forall n, (forall es, n <> TTable es) -> (forall l, n <> TArray l) -> P n).

Fixpoint toml_rect (n : toml_node) : P n.
Proof.
  destruct n as [es|l|s|z| | | | |]; [| |by apply Hleaf..].
  - apply Htable. induction es as [|kn es IH]; constructor; [apply toml_rect|exact IH].
  - apply Harray. induction l as [|n l IH]; constructor; [apply toml_rect|exact IH].
Qed.
End toml_ind.

(** A key at any depth, inside tables and arrays of tables. *)
Inductive key_occurs (k : string) : toml_node -> Prop :=
  | key_here es n : (k, n) ∈ es -> key_occurs k (TTable es)
  | key_in_table es k' n : (k', n) ∈ es -> key_occurs k n -> key_occurs k (TTable es)
  | key_in_array l n : n ∈ l -> key_occurs k n -> key_occurs k (TArray l).

(** Some needle occurs in the lower-cased key. *)
Definition secret_key (k : string) : Prop :=
  exists needle pre post, needle ∈ kSecretNeedles /\ fold_string k = pre +:+ needle +:+ post.

Lemma matches_secret_None k p : matches_secret k p = None <-> ~ secret_key k.
Proof.
  unfold matches_secret, secret_key. rewrite first_error_None, Forall_forall. split.
  - intros H (needle & pre & post & Hin & E). specialize (H _ Hin).
    destruct (key_contains_ci k needle) eqn:C; [done|].
    assert (key_contains_ci k needle = true) by (apply key_contains_ci_spec; eauto). congruence.
  - intros H needle Hin. destruct (key_contains_ci k needle) eqn:C; [|done].
    apply key_contains_ci_spec in C as (pre & post & E). destruct H. eauto 6.
Qed.

Lemma scan_node_None n : forall path, scan_node path n = None <-> forall k, key_occurs k n -> ~ secret_key k.
Proof.
  induction n as [es IH|l IH|n Ht Ha] using toml_rect; intros path.
  - rewrite Forall_forall in IH. simpl. rewrite first_error_None, Forall_forall. split.
    + intros H k Hk. inversion Hk as [? n Hin|? k' n Hin Hocc|]; subst.
      * specialize (H _ Hin). simpl in H. destruct (matches_secret _ _) eqn:M; [done|].
        by eapply matches_secret_None.
      * specialize (H _ Hin). simpl in H. destruct (matches_secret _ _); [done|].
        by eapply (IH _ Hin).
    + intros H [k n] Hin. simpl.
      rewrite (proj2 (matches_secret_None k _)) by (eapply H, key_here, Hin).
      apply (IH _ Hin). intros k' Hk'. by eapply H, key_in_table.
  - rewrite Forall_forall in IH. simpl. rewrite first_error_None, Forall_forall. split.
    + intros H k Hk. inversion Hk; subst. by eapply IH; [|eapply H|].
    + intros H n Hin. apply (IH _ Hin). intros k Hk. by eapply H, key_in_array.
  - split.
    + intros _ k Hk. inversion Hk; subst; [by destruct (Ht es)..|by destruct (Ha l)].
    + intros _. destruct n; [by destruct (Ht entries)|by destruct (Ha elements)|done..].
Qed.

(** ** Fields: the environment beats the file beats the default *)

(** The value of a field: a node of the wrong type refuses the load even when the
    environment overrides it; the text that wins is the one that must parse. *)
Definition effective {R A} (of_node : toml_node -> option R) (of_env : string -> option R) (fin : R -> option A)
    (table : toml_table) (env : EnvLookup) (section field : string) (default : A) : option A :=
  match field_node table section field ≫= Some ∘ of_node, env (env_key section field) with
  | Some None, _ => None
  | _, Some text => of_env text ≫= fin
  | Some (Some raw), None => fin raw
  | None, None => Some default
  end.

Definition text_field {A} (fin : string -> option A) :
    toml_table -> EnvLookup -> string -> string -> A -> option A := effective as_string Some fin.
Definition int_field : toml_table -> EnvLookup -> string -> string -> Z -> option Z :=
  effective as_integer from_chars_int64 Some.
Definition list_field : toml_table -> EnvLookup -> string -> string -> list string -> option (list string) :=
  effective as_strings (Some ∘ parse_env_list) Some.
Definition path_text (text : string) : option string :=
  if str_contains_char zero text then None else Some text.

Ltac field_cases :=
  unfold text_field, int_field, list_field, path_text, effective, raw_text; simpl;
  repeat (match goal with
          | |- context [match ?x with _ => _ end] => destruct x eqn:?
          | H : context [match ?x with _ => _ end] |- _ => destruct x eqn:?
          end; simplify_eq/=); try done; try naive_solver.

Lemma apply_string_ok t env s f d v : apply_string t env s f d = Ok v <-> text_field Some t env s f d = Some v.
Proof. unfold apply_string. field_cases. Qed.

Lemma apply_int64_ok t env s f d v : apply_int64 t env s f d = Ok v <-> int_field t env s f d = Some v.
Proof. unfold apply_int64. field_cases. Qed.

Lemma apply_path_ok t env s f d v : apply_path t env s f d = Ok v <-> text_field path_text t env s f d = Some v.
Proof. unfold apply_path. field_cases. Qed.

Lemma apply_run_profile_ok t env s f d v :
  apply_run_profile t env s f d = Ok v <-> text_field parse_run_profile t env s f d = Some v.
Proof. unfold apply_run_profile. field_cases. Qed.

Lemma apply_log_level_ok t env s f d v :
  apply_log_level t env s f d = Ok v <-> text_field parse_log_level t env s f d = Some v.
Proof. unfold apply_log_level. field_cases. Qed.

Lemma apply_string_list_ok t env s f d v :
  apply_string_list t env s f d = Ok v <-> list_field t env s f d = Some v.
Proof. unfold apply_string_list. field_cases. Qed.

(** ** Load *)

(** What [validate] demands of a configuration. *)
Definition well_formed (cfg : Config) : Prop :=
  cfg_account_id (engine cfg) <> "" /\ broker_name (broker cfg) <> "" /\ 0 < timeout_ms (broker cfg) /\
  0 <= cfg_max_order_value_paise (risk cfg) /\ 0 <= cfg_max_open_positions (risk cfg) /\
  data_dir (paths cfg) <> "" /\ Forall (fun n => is_valid_strategy_name n = true) (names (strategies cfg)).

Lemma validate_names_None l : forall i,
  validate_names i l = None <-> Forall (fun n => is_valid_strategy_name n = true) l.
Proof.
  induction l as [|n l IH]; intros i; simpl; [by split|].
  rewrite Forall_cons, <- (IH (i + 1)). unfold is_valid_strategy_name.
  destruct (String.eqb _ _); naive_solver.
Qed.

Lemma validate_None cfg : validate cfg = None <-> well_formed cfg.
Proof.
  unfold validate, well_formed. rewrite <- (validate_names_None _ 0).
  repeat (split_match; to_prop); split; intros; try done; repeat split; try lia; try done; naive_solver lia.
Qed.

(** The nodes the loader starts from: none without a path, else a file that
    exists, parses and holds no secret-shaped key. *)
Definition source_table (file_exists : string -> bool) (parse_file : string -> toml_table + string)
    (path : string) (table : toml_table) : Prop :=
  (path = "" /\ table = []) \/
  (path <> "" /\ file_exists path = true /\ parse_file path = inl table /\
   forall k, key_occurs k (TTable table) -> ~ secret_key k).

Lemma read_table_ok fe pf path table : read_table fe pf path = Ok table <-> source_table fe pf path table.
Proof.
  unfold read_table, source_table. destruct (String.eqb_spec path "") as [->|Hp]; [naive_solver|].
  destruct (fe path); simpl; [|naive_solver].
  destruct (pf path) as [t|d]; [|naive_solver].
  pose proof (scan_node_None (TTable t) "") as Hs. unfold scan_secrets.
  destruct (scan_node "" (TTable t)); naive_solver.
Qed.

(** Each field of the configuration is the effective value of its key. *)
Definition layered (table : toml_table) (env : EnvLookup) (cfg : Config) : Prop :=
  text_field parse_run_profile table env "engine" "mode" DryRun = Some (mode (engine cfg)) /\
  text_field Some table env "engine" "account_id" "" = Some (cfg_account_id (engine cfg)) /\
  text_field Some table env "broker" "name" "" = Some (broker_name (broker cfg)) /\
  text_field Some table env "broker" "base_url" "" = Some (base_url (broker cfg)) /\
  int_field table env "broker" "timeout_ms" 5000 = Some (timeout_ms (broker cfg)) /\
  int_field table env "risk" "max_order_value_paise" 0 = Some (cfg_max_order_value_paise (risk cfg)) /\
  int_field table env "risk" "max_open_positions" 0 = Some (cfg_max_open_positions (risk cfg)) /\
  text_field path_text table env "paths" "data_dir" "" = Some (data_dir (paths cfg)) /\
  text_field path_text table env "paths" "log_dir" "" = Some (log_dir (paths cfg)) /\
  text_field parse_log_level table env "logging" "level" Info = Some (level (logging cfg)) /\
  list_field table env "strategies" "names" [] = Some (names (strategies cfg)).

Lemma bind_ok {A B} (m : result A) (f : A -> result B) b :
  m ≫= f = Ok b <-> exists a, m = Ok a /\ f a = Ok b.
Proof. destruct m; simpl; naive_solver. Qed.

(** A configuration is loaded exactly when its source is acceptable (no
    path, or a file that exists, parses, and has at no depth, arrays of tables
    included, a key in which one of the secret needles occurs in any letter
    case), every field has the value of its layers (the environment's text if set,
    else the file's node, else the default; a file node of the wrong type refuses
    the load even when the environment overrides it) and the result is well
    formed: account, broker and data directory present, a positive timeout, limits
    not negative, every strategy name valid. *)
Theorem load_exact fe pf path env cfg :
  load fe pf path env = Ok cfg <->
  (exists table, source_table fe pf path table /\ layered table env cfg) /\ well_formed cfg.
Proof.
  unfold load. rewrite <- validate_None. split.
  - intros H.
    repeat match goal with
      | H : _ ≫= _ = Ok _ |- _ => apply bind_ok in H as (? & ? & H)
      end.
    destruct (validate _) eqn:V; [done|]. injection H as <-. split; [|done].
    eexists. split; [by apply read_table_ok|].
    repeat split; first [by apply apply_run_profile_ok | by apply apply_string_ok | by apply apply_int64_ok
      | by apply apply_path_ok | by apply apply_log_level_ok | by apply apply_string_list_ok].
  - intros [(t & Hs & H1 & H2 & H3 & H4 & H5 & H6 & H7 & H8 & H9 & H10 & H11) V].
    rewrite (proj2 (read_table_ok _ _ _ _) Hs). simpl.
    apply apply_run_profile_ok in H1. apply apply_string_ok in H2, H3, H4. apply apply_int64_ok in H5, H6, H7.
    apply apply_path_ok in H8, H9. apply apply_log_level_ok in H10. apply apply_string_list_ok in H11.
    rewrite H1. simpl. rewrite H2. simpl. rewrite H3. simpl. rewrite H4. simpl. rewrite H5. simpl.
    rewrite H6. simpl. rewrite H7. simpl. rewrite H8. simpl. rewrite H9. simpl. rewrite H10. simpl.
    rewrite H11. simpl. destruct cfg as [[] [] [] [] [] []]. simpl in *. by rewrite V.
Qed.

(** ** Environment values read back *)

(** Names joined with commas. *)
Fixpoint join_commas (l : list (list ascii)) : list ascii :=
  match l with [] => [] | [x] => x | x :: rest => x ++ ","%char :: join_commas rest end.

(** No comma, no blank at either end. *)
Definition listable (n : string) : Prop := ","%char ∉ chars n /\ trim_blanks (chars n) = chars n.

Lemma split_commas_free l rest :
  ","%char ∉ l -> split_commas (l ++ ","%char :: rest) = l :: split_commas rest.
Proof.
  induction l as [|c l IH]; intros H; [done|]. apply not_elem_of_cons in H as [Hc Hl]. simpl.
  destruct (Ascii.eqb_spec c ","); [by destruct Hc|]. by rewrite IH.
Qed.

Lemma split_commas_last l : ","%char ∉ l -> split_commas l = [l].
Proof.
  induction l as [|c l IH]; intros H; [done|]. apply not_elem_of_cons in H as [Hc Hl]. simpl.
  destruct (Ascii.eqb_spec c ","); [by destruct Hc|]. by rewrite IH.
Qed.

Lemma split_join l : l <> [] -> Forall (fun x => ","%char ∉ x) l -> split_commas (join_commas l) = l.
Proof.
  induction l as [|x l IH]; [done|]. intros _ H. apply Forall_cons in H as [Hx Hl].
  destruct l as [|y l]; [by apply split_commas_last|].
  change (join_commas (x :: y :: l)) with (x ++ ","%char :: join_commas (y :: l)).
  rewrite split_commas_free by done. by rewrite IH.
Qed.

Lemma list_loop_app l : forall parsed, l <> [[]] \/ parsed <> [] ->
  Forall (fun x => trim_blanks x = x) l -> list_loop parsed l = parsed ++ (str <$> l).
Proof.
  induction l as [|x l IH]; intros parsed Hp H; [by rewrite app_nil_r|].
  apply Forall_cons in H as [Hx Hl]. destruct l as [|y l].
  - simpl. rewrite Hx. do 2 case_bool_decide; simpl; try done. subst. by destruct Hp.
  - change (list_loop parsed (x :: y :: l)) with (list_loop (parsed ++ [str (trim_blanks x)]) (y :: l)).
    rewrite IH; [|right; by destruct parsed|done]. rewrite Hx, <- app_assoc. done.
Qed.

(** What is written to an environment variable is read back: a run profile
    and a log level by name, an int64 by its decimal text, and a list of strategy
    names joined with commas, provided no name has a comma or a blank edge and the
    list is not the one that holds a single empty name (that variable means the
    empty list). *)
Theorem env_values_roundtrip :
  (forall p, parse_run_profile (profile_to_string p) = Some p) /\
  (forall l, parse_log_level (level_to_string l) = Some l) /\
  (forall z, is_int64 z -> from_chars_int64 (pretty z) = Some z) /\
  (forall l : list string, l <> [""] -> Forall listable l ->
     parse_env_list (str (join_commas (chars <$> l))) = l) /\
  parse_env_list "" = [].
Proof.
  split; [by intros []|]. split; [by intros []|]. split; [exact from_chars_pretty|]. split; [|done].
  intros l Hne Hl. unfold parse_env_list. rewrite chars_str.
  destruct (decide (l = [])) as [->|Hnil]; [done|].
  rewrite split_join.
  - rewrite list_loop_app; simpl.
    + rewrite <- list_fmap_compose. rewrite <- (list_fmap_id l) at 2. apply list_fmap_ext.
      intros i x _. apply str_chars.
    + left. destruct l as [|x [|y l]]; try done. simpl. intros E. injection E as E. destruct Hne.
      f_equal. by apply (inj chars).
    + rewrite Forall_fmap. eapply Forall_impl; [done|]. by intros x [_ H].
  - by destruct l.
  - rewrite Forall_fmap. eapply Forall_impl; [done|]. by intros x [H _].
Qed.

Example load_sample :
  load (fun _ => true)
    (fun _ => inl [("engine", TTable [("account_id", TString "AB1234")]);
                   ("broker", TTable [("name", TString "kite"); ("timeout_ms", TInteger 2500)]);
                   ("paths", TTable [("data_dir", TString "/var/lib/x")])])
    "broker.toml" (fun k => if String.eqb k "BROKER_EXEC_STRATEGIES_NAMES" then Some " alpha , beta" else None) =
  Ok (mkConfig (mkEngineConfig DryRun "AB1234") (mkBrokerConfig "kite" "" 2500) (mkRiskConfig 0 0)
       (mkPathsConfig "/var/lib/x" "") (mkLoggingConfig Info) (mkStrategiesConfig ["alpha"; "beta"])).
Proof. vm_compute. reflexivity. Qed.
