(* ===== verification/BrokerFactory.v ===== *)
(** * BrokerFactory: composing the broker port
    (src/src/composition/broker_factory.cpp)

    The broker is chosen by its exact name, the declared capabilities are checked
    against the certified profile before anything is built, and every mutation of
    the built port is gated again. The adapters behind the port are an interface:
    the state they keep and what they answer is theirs. *)

From S2P Require Import Prelude Errors Domain Risk Dispatcher Capabilities Config.

(** ** The port (ports/broker_port.hpp) *)

(** The operations of a broker whose adapter and transport keep the state [S]. *)
Record BrokerPort (S : Type) := mkPort {
  port_place : OrderIntent -> S -> result BrokerAck * S;
  port_modify : string -> OrderIntent -> S -> result BrokerAck * S;
  port_cancel : string -> S -> result unit * S;
  port_square_off : string -> S -> result unit * S;
  fetch_orders : S -> result (list Order) * S;
  fetch_trades : S -> result (list Trade) * S;
  fetch_positions : S -> result (list Position) * S;
  fetch_funds : S -> result FundsSnapshot * S;
}.
Arguments mkPort {S}.
Arguments port_place {S}.
Arguments port_modify {S}.
Arguments port_cancel {S}.
Arguments port_square_off {S}.
Arguments fetch_orders {S}.
Arguments fetch_trades {S}.
Arguments fetch_positions {S}.
Arguments fetch_funds {S}.

(** ** Data *)

Inductive BrokerChoice := Kite | Kotak.

#[export] Instance BrokerChoice_eq_dec : EqDecision BrokerChoice.
Proof. solve_decision. Defined.

Definition kKiteName : string := "kite".
Definition kKotakName : string := "kotak".

Definition choice_to_string (c : BrokerChoice) : string :=
  match c with Kite => kKiteName | Kotak => kKotakName end.

(** Null pointers and empty functions are [false]; the adapters they build are
    the two stacks. *)
Record BrokerDeps (S : Type) := mkBrokerDeps {
  kite_http : bool;
  kite_secrets : bool;
  kite_api_key_secret : string;
  kite_access_token_secret : string;
  kite_adapter : string -> string -> BrokerPort S;
  kotak_http : bool;
  kotak_session : bool;
  kotak_adapter : BrokerPort S;
}.
Arguments mkBrokerDeps {S}.
Arguments kite_http {S}.
Arguments kite_secrets {S}.
Arguments kite_api_key_secret {S}.
Arguments kite_access_token_secret {S}.
Arguments kite_adapter {S}.
Arguments kotak_http {S}.
Arguments kotak_session {S}.
Arguments kotak_adapter {S}.

Record FixtureCertification := mkFixture { asserted : CapabilitySet }.

Record BrokerOptions := mkBrokerOptions {
  required_capabilities : list Capability;
  declares_no_capabilities : bool;
  capability_override : option FixtureCertification;
}.

Record BrokerAssembly (S : Type) := mkBrokerAssembly {
  choice : BrokerChoice;
  assembled_broker : BrokerPort S;
  capability_set : CapabilitySet;
  override_in_effect : bool;
}.
Arguments mkBrokerAssembly {S}.
Arguments choice {S}.
Arguments assembled_broker {S}.
Arguments capability_set {S}.
Arguments override_in_effect {S}.

(** ** Choosing the broker *)

Definition kMaxEchoedValueChars : nat := 16.

Definition is_ascii_alpha (c : ascii) : bool := Redaction.is_letter c.

Definition safe_echo (raw : string) : string :=
  if String.eqb raw "" then "<empty>" else
  let echoable := (String.length raw <=? kMaxEchoedValueChars)%nat && forallb is_ascii_alpha (chars raw) in
  if negb echoable then "<invalid broker name, " +:+ Redaction.nat_str (String.length raw) +:+ " chars>"
  else raw.

Definition validation_error (message : string) : Error :=
  set_action DoNotRetry (make_error Validation message "").

Definition quote : string := String "034" "".

Definition parse_broker_choice (name : string) : result BrokerChoice :=
  if String.eqb name kKiteName then Ok Kite else
  if String.eqb name kKotakName then Ok Kotak else
  Err (validation_error
    ("composition: config broker.name is not a supported broker: '" +:+ safe_echo name +:+ "' (expected exactly " +:+
     quote +:+ kKiteName +:+ quote +:+ " or " +:+ quote +:+ kKotakName +:+ quote +:+ ", case-sensitive)")).

(** Kotak: [CapabilitySet::builder().build()], nothing certified. *)
Definition kotak_capabilities : CapabilitySet := capabilities_of [].

Definition real_capabilities (c : BrokerChoice) : CapabilitySet :=
  match c with Kite => kite_capabilities | Kotak => kotak_capabilities end.

(** ** The owning stacks: every mutation is gated per call, reads are not *)

Section Owned.
  Context {S : Type} (admitted : CapabilitySet) (adapter : BrokerPort S).

(** [if (auto gate = admitted_.require(c); !gate) return fail(gate.error())]. *)
Definition gated {A} (c : Capability) (call : S -> result A * S) (s : S) : result A * S :=
  match require admitted c with Err e => (Err e, s) | Ok _ => call s end.

Definition OwnedKiteBroker : BrokerPort S :=
  mkPort
    (fun intent => gated PlaceOrder (port_place adapter intent))
    (fun id intent => gated ModifyOrder (port_modify adapter id intent))
    (fun id => gated CancelOrder (port_cancel adapter id))
    (fun id => gated SquareOff (port_square_off adapter id))
    (fetch_orders adapter) (fetch_trades adapter) (fetch_positions adapter) (fetch_funds adapter).

Definition OwnedKotakBroker : BrokerPort S :=
  mkPort
    (fun intent => gated PlaceOrder (port_place adapter intent))
    (fun id intent => gated ModifyOrder (port_modify adapter id intent))
    (fun id => gated CancelOrder (port_cancel adapter id))
    (fun id => gated SquareOff (port_square_off adapter id))
    (fetch_orders adapter) (fetch_trades adapter) (fetch_positions adapter) (fetch_funds adapter).
End Owned.

(** ** make_broker *)

Definition validate_deps {S} (c : BrokerChoice) (deps : BrokerDeps S) : result unit :=
  match c with
  | Kite =>
      if negb (kite_http deps) then
        Err (validation_error ("composition: broker " +:+ quote +:+ "kite" +:+ quote +:+
          " requires BrokerDeps::kite_http (HTTP transport)")) else
      if negb (kite_secrets deps) then
        Err (validation_error ("composition: broker " +:+ quote +:+ "kite" +:+ quote +:+
          " requires BrokerDeps::kite_secrets (SecretProvider)")) else
      if String.eqb (kite_api_key_secret deps) "" || String.eqb (kite_access_token_secret deps) "" then
        Err (validation_error ("composition: broker " +:+ quote +:+ "kite" +:+ quote +:+
          " requires non-empty api_key/access_token secret NAMES"))
      else Ok tt
  | Kotak =>
      if negb (kotak_http deps) then
        Err (validation_error ("composition: broker " +:+ quote +:+ "kotak" +:+ quote +:+
          " requires BrokerDeps::kotak_http (HTTP transport)")) else
      if negb (kotak_session deps) then
        Err (validation_error ("composition: broker " +:+ quote +:+ "kotak" +:+ quote +:+
          " requires BrokerDeps::kotak_session (bundle provider)"))
      else Ok tt
  end.

Definition validate_declaration (options : BrokerOptions) : result unit :=
  if negb (bool_decide (required_capabilities options = [])) then Ok tt else
  if declares_no_capabilities options then Ok tt else
  Err (validation_error "composition: BrokerOptions::required_capabilities is empty — declare what this component needs from the broker (an empty list would pass the capability gate vacuously and hand back an UNGATED port). If it genuinely performs no mutation, set BrokerOptions::declares_no_capabilities = true.").

Definition make_broker_for {S} (c : BrokerChoice) (deps : BrokerDeps S) (options : BrokerOptions) :
    result (BrokerAssembly S) :=
  _ ← validate_declaration options;
  let profile := match capability_override options with
                 | Some fixture => asserted fixture
                 | None => real_capabilities c
                 end in
  _ ← require_all profile (required_capabilities options);
  _ ← validate_deps c deps;
  let port := match c with
              | Kite => OwnedKiteBroker profile
                          (kite_adapter deps (kite_api_key_secret deps) (kite_access_token_secret deps))
              | Kotak => OwnedKotakBroker profile (kotak_adapter deps)
              end in
  Ok (mkBrokerAssembly c port profile (bool_decide (is_Some (capability_override options)))).

Definition make_broker {S} (cfg : Config) (deps : BrokerDeps S) (options : BrokerOptions) :
    result (BrokerAssembly S) :=
  c ← parse_broker_choice (broker_name (Config.broker cfg));
  make_broker_for c deps options.

Definition assert_production_posture {S} (assembly : BrokerAssembly S) : result unit :=
  if override_in_effect assembly then
    Err (validation_error "composition: this BrokerAssembly was composed with a FixtureCertification — its capabilities are a TEST FIXTURE assertion, not a broker's certified profile. A process that can reach a live broker must not start on one.")
  else Ok tt.

Definition require_capabilities {S} (assembly : BrokerAssembly S) (required : list Capability) : result unit :=
  _ ← assert_production_posture assembly;
  require_all (capability_set assembly) required.

(** ** The mutations of a port *)

Inductive Mutation :=
  | MutPlace (i : OrderIntent)
  | MutModify (id : string) (i : OrderIntent)
  | MutCancel (id : string)
  | MutSquareOff (id : string).

Definition capability_of (m : Mutation) : Capability :=
  match m with
  | MutPlace _ => PlaceOrder
  | MutModify _ _ => ModifyOrder
  | MutCancel _ => CancelOrder
  | MutSquareOff _ => SquareOff
  end.

(** The acknowledgement of a placement or a change; the other two have none. *)
Definition answered {A S} (ack : A -> option BrokerAck) (r : result A * S) : result (option BrokerAck) * S :=
  (match r.1 with Ok a => Ok (ack a) | Err e => Err e end, r.2).

Definition mutate {S} (p : BrokerPort S) (m : Mutation) (s : S) : result (option BrokerAck) * S :=
  match m with
  | MutPlace i => answered Some (port_place p i s)
  | MutModify id i => answered Some (port_modify p id i s)
  | MutCancel id => answered (fun _ => None) (port_cancel p id s)
  | MutSquareOff id => answered (fun _ => None) (port_square_off p id s)
  end.

(** The stack of a choice under a profile, and the adapter inside it. *)
Definition adapter_of {S} (c : BrokerChoice) (deps : BrokerDeps S) : BrokerPort S :=
  match c with
  | Kite => kite_adapter deps (kite_api_key_secret deps) (kite_access_token_secret deps)
  | Kotak => kotak_adapter deps
  end.

Definition owned {S} (c : BrokerChoice) : CapabilitySet -> BrokerPort S -> BrokerPort S :=
  match c with Kite => OwnedKiteBroker | Kotak => OwnedKotakBroker end.

Definition deps_wired {S} (c : BrokerChoice) (deps : BrokerDeps S) : Prop :=
  match c with
  | Kite => kite_http deps = true /\ kite_secrets deps = true /\
            kite_api_key_secret deps <> "" /\ kite_access_token_secret deps <> ""
  | Kotak => kotak_http deps = true /\ kotak_session deps = true
  end.

Definition profile_of (c : BrokerChoice) (options : BrokerOptions) : CapabilitySet :=
  match capability_override options with Some f => asserted f | None => real_capabilities c end.

Lemma validate_deps_ok {S} c (deps : BrokerDeps S) : validate_deps c deps = Ok tt <-> deps_wired c deps.
Proof.
  destruct c; simpl.
  - destruct (kite_http deps), (kite_secrets deps); simpl; try naive_solver.
    destruct (String.eqb_spec (kite_api_key_secret deps) ""), (String.eqb_spec (kite_access_token_secret deps) "");
      naive_solver.
  - destruct (kotak_http deps), (kotak_session deps); naive_solver.
Qed.

Lemma validate_declaration_ok o :
  validate_declaration o = Ok tt <-> required_capabilities o <> [] \/ declares_no_capabilities o = true.
Proof. unfold validate_declaration. case_bool_decide; destruct (declares_no_capabilities o); simpl; naive_solver. Qed.

Lemma require_all_ok set cs : require_all set cs = Ok tt <-> Forall (fun c => supports set c = true) cs.
Proof.
  induction cs as [|c cs IH]; simpl; [by split|]. rewrite Forall_cons, <- IH.
  destruct (supports set c); naive_solver.
Qed.

Lemma parse_broker_choice_ok name c : parse_broker_choice name = Ok c <-> name = choice_to_string c.
Proof.
  unfold parse_broker_choice, choice_to_string.
  destruct (String.eqb_spec name kKiteName), (String.eqb_spec name kKotakName); destruct c; subst; naive_solver.
Qed.

Lemma unit_ok (r : result unit) : (exists u, r = Ok u) <-> r = Ok tt.
Proof. destruct r as [[]|]; naive_solver. Qed.

Lemma make_broker_ok {S} cfg (deps : BrokerDeps S) options a :
  make_broker cfg deps options = Ok a <->
  exists c, broker_name (Config.broker cfg) = choice_to_string c /\
    (required_capabilities options <> [] \/ declares_no_capabilities options = true) /\
    Forall (fun k => supports (profile_of c options) k = true) (required_capabilities options) /\
    deps_wired c deps /\
    a = mkBrokerAssembly c (owned c (profile_of c options) (adapter_of c deps)) (profile_of c options)
          (bool_decide (is_Some (capability_override options))).
Proof.
  unfold make_broker. rewrite bind_ok. setoid_rewrite parse_broker_choice_ok.
  enough (forall c, make_broker_for c deps options = Ok a <->
    (required_capabilities options <> [] \/ declares_no_capabilities options = true) /\
    Forall (fun k => supports (profile_of c options) k = true) (required_capabilities options) /\
    deps_wired c deps /\
    a = mkBrokerAssembly c (owned c (profile_of c options) (adapter_of c deps)) (profile_of c options)
          (bool_decide (is_Some (capability_override options)))) as H by naive_solver.
  intros c. unfold make_broker_for. fold (profile_of c options).
  rewrite <- validate_declaration_ok, <- require_all_ok, <- validate_deps_ok.
  destruct (validate_declaration options) as [[]|]; simpl; [|naive_solver].
  destruct (require_all _ _) as [[]|]; simpl; [|naive_solver].
  destruct (validate_deps c deps) as [[]|]; simpl; [|naive_solver].
  destruct c; simpl; naive_solver.
Qed.

Lemma mutate_owned {S} c (set : CapabilitySet) (p : BrokerPort S) m s :
  mutate (owned c set p) m s =
  if supports set (capability_of m) then mutate p m s
  else (Err (not_supported_error (capability_of m)), s).
Proof.
  destruct c, m; simpl; unfold gated, require;
    by destruct (supports set _).
Qed.

(** C24: A broker is composed exactly when the configured name is literally one of
    the two brokers, the component declares what it needs (or says that it needs
    nothing), the profile in force supports every declared capability and the
    chosen stack's dependencies are wired; the result is that stack. A composed
    broker that passes the production check is gated by its certified profile: a
    mutation the profile does not support is refused as NotSupported without the
    adapter being reached, its state unchanged, every other mutation and each of the
    four reads is the adapter's own; and on Kotak, for which nothing is certified, no
    mutation reaches the adapter and no declaration of a need is admitted. *)
Theorem broker_certified {S} cfg (deps : BrokerDeps S) options :
  (forall a, make_broker cfg deps options = Ok a <->
    exists c, broker_name (Config.broker cfg) = choice_to_string c /\
      (required_capabilities options <> [] \/ declares_no_capabilities options = true) /\
      Forall (fun k => supports (profile_of c options) k = true) (required_capabilities options) /\
      deps_wired c deps /\
      a = mkBrokerAssembly c (owned c (profile_of c options) (adapter_of c deps)) (profile_of c options)
            (bool_decide (is_Some (capability_override options)))) /\
  (forall a m s, make_broker cfg deps options = Ok a -> assert_production_posture a = Ok tt ->
    mutate (assembled_broker a) m s =
      (if supports (real_capabilities (choice a)) (capability_of m) then mutate (adapter_of (choice a) deps) m s
       else (Err (not_supported_error (capability_of m)), s)) /\
    fetch_orders (assembled_broker a) s = fetch_orders (adapter_of (choice a) deps) s /\
    fetch_trades (assembled_broker a) s = fetch_trades (adapter_of (choice a) deps) s /\
    fetch_positions (assembled_broker a) s = fetch_positions (adapter_of (choice a) deps) s /\
    fetch_funds (assembled_broker a) s = fetch_funds (adapter_of (choice a) deps) s /\
    (choice a = Kotak -> mutate (assembled_broker a) m s = (Err (not_supported_error (capability_of m)), s) /\
       required_capabilities options = [])).
Proof.
  split; [intros a; apply make_broker_ok|].
  intros a m s (c & Hn & Hd & Hr & Hw & ->)%make_broker_ok Hp.
  unfold assert_production_posture in Hp. cbn [override_in_effect choice assembled_broker] in *.
  unfold profile_of in *. destruct (capability_override options) as [f|]; [done|].
  split; [apply mutate_owned|]. do 4 (split; [by destruct c|]). intros ->. split; [by destruct m|].
  destruct (required_capabilities options) as [|k l]; [done|].
  apply Forall_cons in Hr as [Hk _]. by destruct k.
Qed.
