(* ===== verification/AccountDir.v ===== *)
(** * AccountDir: paths and the per-account data tree
    (src/src/accounts/account_data_dir.cpp)

    POSIX paths of [std::filesystem] as texts: joining, lexical normalisation and
    the components of a path; account ids, the five files of an account, and the
    creation of its directory, whose system calls are parameters. *)

From S2P Require Import Prelude Errors.

(** ** std::filesystem::path on POSIX *)

Definition slash : ascii := "/".

(** [operator/]: an absolute right side replaces, a separator is added unless the
    left side is empty or ends with one. *)
Definition path_join (a b : string) : string :=
  match chars b with
  | c :: _ => if Ascii.eqb c slash then b else
              if bool_decide (a = "") || bool_decide (last (chars a) = Some slash) then a +:+ b
              else a +:+ String slash b
  | [] => if bool_decide (a = "") || bool_decide (last (chars a) = Some slash) then a
          else a +:+ String slash ""
  end.

(** The segments between separators, the empty ones included. *)
Fixpoint split_slashes (l : list ascii) : list (list ascii) :=
  match l with
  | [] => [[]]
  | c :: rest =>
      if Ascii.eqb c slash then [] :: split_slashes rest
      else match split_slashes rest with seg :: segs => (c :: seg) :: segs | [] => [[c]] end
  end.

Definition is_absolute (p : string) : bool := bool_decide (head (chars p) = Some slash).

(** The filenames of a path. *)
Definition filenames (p : string) : list string :=
  str <$> filter (fun seg => seg <> []) (split_slashes (chars p)).

(** One filename against the reversed stack of those kept: a dot goes, a dot-dot
    removes the name before it, at the root it goes too. *)
Definition normal_step (absolute : bool) (stack : list string) (name : string) : list string :=
  if String.eqb name "." then stack else
  if String.eqb name ".." then
    match stack with
    | [] => if absolute then [] else [".."]
    | top :: rest => if String.eqb top ".." then ".." :: stack else rest
    end
  else name :: stack.

Definition normal_names (p : string) : list string :=
  reverse (foldl (normal_step (is_absolute p)) [] (filenames p)).

Fixpoint join_slashes (l : list string) : string :=
  match l with [] => "" | [x] => x | x :: rest => x +:+ String slash (join_slashes rest) end.

(** The last component asks for a trailing separator: the text ends with one, or
    its last name is a dot or a dot-dot that was removed. *)
Definition ends_open (p : string) : bool :=
  bool_decide (last (chars p) = Some slash) ||
  match last (filenames p) with Some n => String.eqb n "." || String.eqb n ".." | None => false end.

Definition lexically_normal (p : string) : string :=
  if String.eqb p "" then "" else
  let names := normal_names p in
  let root := if is_absolute p then String slash "" else "" in
  match last names with
  | None => if is_absolute p then root else "."
  | Some n => root +:+ join_slashes names +:+
              (if ends_open p && negb (String.eqb n "..") then String slash "" else "")
  end.

Example lexically_normal_sample :
  lexically_normal "/var//lib/./a/../b" = "/var/lib/b" /\ lexically_normal "a/.." = "." /\
  lexically_normal "a/b/.." = "a/" /\ lexically_normal "/.." = "/" /\ lexically_normal "../x/" = "../x/" /\
  lexically_normal "x/../../y" = "../y" /\ lexically_normal "./" = ".".
Proof. vm_compute. done. Qed.

(** ** Account ids *)

Definition kMaxAccountIdLength : nat := 64.

Definition is_allowed_id_char (c : ascii) : bool :=
  let n := nat_of_ascii c in
  ((97 <=? n) && (n <=? 122))%nat || ((48 <=? n) && (n <=? 57))%nat || Ascii.eqb c "_" || Ascii.eqb c "-".

Definition kReserved : list string :=
  ["con"; "prn"; "aux"; "nul"; "com1"; "com2"; "com3"; "com4"; "com5"; "com6"; "com7";
   "com8"; "com9"; "lpt1"; "lpt2"; "lpt3"; "lpt4"; "lpt5"; "lpt6"; "lpt7"; "lpt8"; "lpt9"].

Definition is_reserved_device_name (id : string) : bool := bool_decide (id ∈ kReserved).

Definition validate_account_id (account_id : string) : result unit :=
  if String.eqb account_id "" then Err (make_error Validation "account id: must not be empty" "") else
  if (kMaxAccountIdLength <? String.length account_id)%nat then
    Err (make_error Validation
      ("account id: longer than " +:+ pretty (Z.of_nat kMaxAccountIdLength) +:+ " characters") "") else
  if negb (forallb is_allowed_id_char (chars account_id)) then
    Err (make_error Validation "account id: only [a-z0-9_-] are allowed - lowercase only, because a case-insensitive filesystem would map two ids onto one directory (an account id is a name, not a path)" "") else
  if is_reserved_device_name account_id then
    Err (make_error Validation "account id: reserved device name (CON/PRN/AUX/NUL/COM1-9/LPT1-9)" "")
  else Ok tt.

(** ** The tree *)

Record AccountDataDir := mkAccountDir { dir_data_root : string; dir_account_id : string; dir_root : string }.

Definition create (data_root account_id : string) : result AccountDataDir :=
  if String.eqb data_root "" then Err (make_error Validation "account data dir: empty data root" "") else
  match validate_account_id account_id with
  | Err e => Err e
  | Ok _ => Ok (mkAccountDir data_root account_id (path_join data_root account_id))
  end.

Inductive AccountFile := IntentLogFile | StoreDb | TokenStore | LedgerFile | KillJournal.

Definition file_name (f : AccountFile) : string :=
  match f with
  | IntentLogFile => "intent.log"
  | StoreDb => "store.sqlite3"
  | TokenStore => "token_store.enc"
  | LedgerFile => "ledger.jsonl"
  | KillJournal => "kill_journal.jsonl"
  end.

(** [intent_log()], [store_db()], [token_store()], [ledger()], [kill_journal()]. *)
Definition account_file (d : AccountDataDir) (f : AccountFile) : string := path_join (dir_root d) (file_name f).

(** [make_dir]: after [create_directories], the root is a directory and could be
    probed; [restrict]: it could be restricted to its owner. Both act on the
    file system. *)
Definition ensure {W} (make_dir restrict : string -> W -> bool * W) (d : AccountDataDir) (w : W) :
    result unit * W :=
  let '(is_dir, w) := make_dir (dir_root d) w in
  if negb is_dir then
    (Err (make_error Internal "account data dir: cannot create the account directory (a non-directory may be in the way, or it is unreadable)" ""), w)
  else
    let '(restricted, w) := restrict (dir_root d) w in
    if negb restricted then
      (Err (make_error Internal "account data dir: cannot restrict the account directory to owner-only" ""), w)
    else (Ok tt, w).

(** ** Distinct accounts stay apart *)

(** What a case-insensitive file system compares. *)
Abbreviation folded := fold_string.

Lemma fold_string_app a b : fold_string (a +:+ b) = fold_string a +:+ fold_string b.
Proof. induction a; simpl; congruence. Qed.

Lemma allowed_id_char_fold c : is_allowed_id_char c = true -> fold_char c = c /\ c <> slash.
Proof.
  destruct c as [[] [] [] [] [] [] [] []]; vm_compute; intros H;
    first [discriminate H | split; [reflexivity | intros E; discriminate E]].
Qed.

Lemma validate_account_id_ok id : validate_account_id id = Ok tt <->
  id <> "" /\ (String.length id <= kMaxAccountIdLength)%nat /\
  Forall (fun c => is_allowed_id_char c = true) (chars id) /\ id ∉ kReserved.
Proof.
  unfold validate_account_id, is_reserved_device_name.
  destruct (String.eqb_spec id "") as [->|Hne]; [naive_solver|].
  destruct (Nat.ltb_spec kMaxAccountIdLength (String.length id)); [split; [done|intros (_ & Hle & _); lia]|].
  destruct (forallb is_allowed_id_char (chars id)) eqn:F; simpl.
  - rewrite forallb_forall in F. case_bool_decide; split; try done.
    { by intros (_ & _ & _ & Hnot). }
    intros _. repeat split; try done. apply Forall_forall. intros c Hc. by apply F, list_elem_of_In.
  - split; [done|]. intros (_ & _ & Hall & _). rewrite (proj2 (forallb_forall _ _)) in F; [done|].
    intros c Hc%list_elem_of_In. by eapply Forall_forall in Hall.
Qed.

Lemma valid_id_plain id : Forall (fun c => is_allowed_id_char c = true) (chars id) ->
  fold_string id = id /\ slash ∉ chars id.
Proof.
  induction id as [|c id IH]; simpl; intros H; [split; [done|by apply not_elem_of_nil]|].
  apply Forall_cons in H as [[-> Hc]%allowed_id_char_fold [-> Hi]%IH].
  split; [done|]. by rewrite not_elem_of_cons.
Qed.

(** Joining below a non-empty root: a separator unless the root ends with one. *)
Lemma path_join_below root name : root <> "" -> name <> "" -> slash ∉ chars name ->
  path_join root name =
  root +:+ (if bool_decide (last (chars root) = Some slash) then "" else String slash "") +:+ name.
Proof.
  intros Hr Hn Hs. unfold path_join. destruct name as [|c name]; [done|].
  cbn [chars] in *. apply not_elem_of_cons in Hs as [Hc _].
  destruct (Ascii.eqb_spec c slash); [by destruct Hc|].
  rewrite (bool_decide_false (root = "")) by done. simpl. by case_bool_decide.
Qed.

Lemma account_file_path r id d f : create r id = Ok d ->
  exists sep, account_file d f = r +:+ sep +:+ id +:+ String slash (file_name f) /\
    sep = (if bool_decide (last (chars r) = Some slash) then "" else String slash "").
Proof.
  unfold create. destruct (String.eqb_spec r "") as [->|Hr]; [done|].
  destruct (validate_account_id id) as [[]|e] eqn:V; [|done]. intros [= <-].
  apply validate_account_id_ok in V as (Hne & _ & Hc & _).
  destruct (valid_id_plain id Hc) as [_ Hs]. eexists. split; [|done].
  unfold account_file. cbn [dir_root]. rewrite (path_join_below r id) by done.
  set (sep := if bool_decide _ then "" else _).
  assert (last (chars (r +:+ sep +:+ id)) <> Some slash) as Hl.
  { destruct id as [|c id] using String.string_rect; [done|].
    rewrite !chars_app, app_assoc. cbn [chars] in *.
    rewrite last_app_cons. intros Hlast. apply Hs.
    by apply last_Some_elem_of in Hlast. }
  rewrite path_join_below; [|by destruct r|by destruct f|].
  - rewrite (bool_decide_false _ Hl). by autorewrite with strs.
  - destruct f; vm_compute; intros H; set_solver.
Qed.

(** A tree is created exactly for a non-empty root and a name of at most 64
    characters of [a-z0-9_-] that is not a reserved device name; and trees keep
    accounts apart: under one root, two of the files (log, store, token store,
    ledger, kill journal) of two trees have the same path, even for a file system
    that ignores letter case, only if they are the same file of the same account. *)
Theorem accounts_apart r :
  (forall id d, create r id = Ok d <->
    r <> "" /\ d = mkAccountDir r id (path_join r id) /\
    id <> "" /\ (String.length id <= kMaxAccountIdLength)%nat /\
    Forall (fun c => is_allowed_id_char c = true) (chars id) /\ id ∉ kReserved) /\
  (forall id1 id2 d1 d2 f1 f2, create r id1 = Ok d1 -> create r id2 = Ok d2 ->
    folded (account_file d1 f1) = folded (account_file d2 f2) -> id1 = id2 /\ f1 = f2).
Proof.
  split.
  - intros id d. rewrite <- (validate_account_id_ok id). unfold create.
    destruct (String.eqb_spec r "") as [->|Hr]; [naive_solver|].
    destruct (validate_account_id id) as [[]|e]; naive_solver.
  - intros id1 id2 d1 d2 f1 f2 H1 H2 E.
    destruct (account_file_path _ _ _ f1 H1) as (sep & -> & ->) in E.
    destruct (account_file_path _ _ _ f2 H2) as (sep & -> & ->) in E.
    rewrite !fold_string_app in E.
    do 2 apply str_app_inv_head in E. simpl in E.
    assert (forall id d, create r id = Ok d -> folded id = id /\ slash ∉ chars id) as Hplain.
    { intros id d. unfold create. destruct (String.eqb r ""); [done|].
      destruct (validate_account_id id) as [[]|] eqn:V; [|done]. intros _.
      apply validate_account_id_ok in V as (_ & _ & Hc & _). by apply valid_id_plain. }
    destruct (Hplain _ _ H1) as [-> Hs1] in E. destruct (Hplain _ _ H2) as [-> Hs2] in E.
    destruct (Hplain _ _ H1) as [_ Hs1']. destruct (Hplain _ _ H2) as [_ Hs2'].
    apply delimited in E as [-> E]; [|done..]. split; [done|]. by destruct f1, f2.
Qed.
