(* ===== verification/SafeStart.v ===== *)
(** * SafeStart: the fail-closed startup gate (src/src/session/safe_start.cpp)

    The ten checks in their order, and the three checks of this file on the order
    projection, the strategy names and the session. A check runs in a world whose
    type is a parameter: it may read and change it. *)

From S2P Require Import Prelude Errors Domain Redaction RejectReason.

(** ** The gate *)

Section Gate.
  Context {W : Type}.

(** An empty [std::function] is [None]. *)
Definition SafeCheck := option (W -> result unit * W).

Record SafeStartContext := mkSafeStart {
  config_check : SafeCheck;
  strategy_name_check : SafeCheck;
  crypto_keys_check : SafeCheck;
  clock_check : SafeCheck;
  session_check : SafeCheck;
  egress_ip_check : SafeCheck;
  instrument_master_check : SafeCheck;
  calendar_check : SafeCheck;
  legacy_stop_check : SafeCheck;
  reconciliation_check : SafeCheck;
}.

Definition named (check detail : string) : string := "safe-start: " +:+ check +:+ " check failed: " +:+ detail.

Definition not_configured_error (check : string) : Error :=
  set_action BlockStrategy (make_error Internal (named check "not configured") "").

Definition wrap_error (check : string) (inner : Error) : Error :=
  mkError (category inner) (action inner) (named check (message inner)) (broker_code inner).

Definition run_check (name : string) (check : SafeCheck) (w : W) : result unit * W :=
  match check with
  | None => (Err (not_configured_error name), w)
  | Some f => match f w with
              | (Ok _, w') => (Ok tt, w')
              | (Err e, w') => (Err (wrap_error name e), w')
              end
  end.

(** The checks with their names, in the order [verify] runs them. *)
Definition checks (ctx : SafeStartContext) : list (string * SafeCheck) :=
  [("config", config_check ctx);
   ("strategy-names", strategy_name_check ctx);
   ("crypto-keys", crypto_keys_check ctx);
   ("clock", clock_check ctx);
   ("session", session_check ctx);
   ("egress-IP", egress_ip_check ctx);
   ("instrument-master", instrument_master_check ctx);
   ("calendar", calendar_check ctx);
   ("legacy-stops", legacy_stop_check ctx);
   ("reconciliation", reconciliation_check ctx)].

(** [if (auto r = run_check(name, check); !r) return r;], one after the other. *)
Fixpoint run_checks (l : list (string * SafeCheck)) (w : W) : result unit * W :=
  match l with
  | [] => (Ok tt, w)
  | (name, check) :: rest =>
      match run_check name check w with
      | (Err e, w') => (Err e, w')
      | (Ok _, w') => run_checks rest w'
      end
  end.

Definition verify (ctx : SafeStartContext) (w : W) : result unit * W := run_checks (checks ctx) w.
End Gate.
Arguments SafeCheck : clear implicits.
Arguments SafeStartContext : clear implicits.

(** ** The checks of this file *)

Definition is_legacy_trigger_less_stop (o : Order) : bool :=
  let is_stop := bool_decide (order_type (intent o) = StopLoss) ||
                 bool_decide (order_type (intent o) = StopLossMarket) in
  if negb is_stop || bool_decide (is_Some (trigger_price (intent o))) then false else
  match state o with
  | Filled | Rejected | Cancelled => false
  | _ => true
  end.

(** The loop's count and first reference: the reference is replaced as long as the
    one kept is empty. *)
Definition count_step (hit : Order -> bool) (acc : Z * string) (o : Order) : Z * string :=
  if hit o then (acc.1 + 1, if String.eqb acc.2 "" then client_ref (intent o) else acc.2) else acc.

Definition legacy_scan (orders : list Order) : Z * string :=
  foldl (count_step is_legacy_trigger_less_stop) (0, "") orders.

Definition or_no_ref (ref : string) : string := if String.eqb ref "" then "<no client_ref>" else ref.

Definition require_no_legacy_stops (orders : list Order) : result unit :=
  let '(count, first_ref) := legacy_scan orders in
  if count =? 0 then Ok tt else
  Err (set_action BlockStrategy (make_error Validation
    ("projection holds " +:+ pretty count +:+ " working stop order(s) with no trigger price — these were placed by a pre-IMP-11 binary, which stored the stop level in `price`. Their signal signatures have changed, so restart dedupe cannot recognize them and they could be placed a SECOND time. Flatten or cancel every outstanding stop before deploying (see docs/upgrade-imp-11-stops.md). First: " +:+
     or_no_ref first_ref) "")).

(** The loop over names: how many are refused, and the first reason. *)
Definition name_step (acc : Z * string) (name : string) : Z * string :=
  let reason := explain_invalid_strategy_name name in
  if String.eqb reason "" then acc else (acc.1 + 1, if String.eqb acc.2 "" then reason else acc.2).

Definition require_valid_strategy_names (names : list string) : result unit :=
  let '(count, first_reason) := foldl name_step (0, "") names in
  if count =? 0 then Ok tt else
  Err (set_action BlockStrategy (make_error Validation
    (pretty count +:+ " of " +:+ pretty (Z.of_nat (length names)) +:+ " configured strategy name(s) would make every client_ref they mint unloggable — an alert or ledger entry about such an order reads client_ref=***REDACTED*** and cannot be linked to the store or the intent log. Fix the name(s) in configuration before trading; renaming changes the signal signature, so do it BETWEEN sessions with no working orders. First: " +:+
     first_reason) "")).

(** [KiteSessionEstablisher::needs_reauth_error]. *)
Definition needs_reauth_error : Error :=
  mkError SessionExpired ReEstablishSession
    "kite: daily session expired; operator must re-establish (no headless refresh)" "".

Definition session_state_to_result (s : SessionState) : result unit :=
  match s with
  | Healthy => Ok tt
  | NeedsReauth | SessionFailed => Err needs_reauth_error
  end.

(** ** Lemmas *)

Section Gate_lemmas.
  Context {W : Type}.

(** The first check that is missing or fails decides; everything before it ran,
    nothing after it did. *)
Inductive stops_at : list (string * SafeCheck W) -> W -> string -> Error -> W -> Prop :=
  | stop_missing name rest w : stops_at ((name, None) :: rest) w name (not_configured_error name) w
  | stop_failed name f rest w e w' : f w = (Err e, w') ->
      stops_at ((name, Some f) :: rest) w name (wrap_error name e) w'
  | stop_later name f rest w w1 n e w' : f w = (Ok tt, w1) -> stops_at rest w1 n e w' ->
      stops_at ((name, Some f) :: rest) w n e w'.

(** Every check is present and passes, the world threaded from each to the next. *)
Inductive all_pass : list (string * SafeCheck W) -> W -> W -> Prop :=
  | pass_nil w : all_pass [] w w
  | pass_cons name f rest w w1 w' : f w = (Ok tt, w1) -> all_pass rest w1 w' ->
      all_pass ((name, Some f) :: rest) w w'.

(** Two answers of one check agree. *)
Ltac same_answer F :=
  match goal with H : _ = _ |- _ => rewrite F in H; simplify_eq end.

Lemma run_checks_ok l : forall w w', run_checks l w = (Ok tt, w') <-> all_pass l w w'.
Proof.
  induction l as [|[name [f|]] l IH]; intros w w'; simpl.
  - split; [intros [= ->]; constructor | inversion 1; by subst].
  - destruct (f w) as [[[]|e] w1] eqn:F; simpl.
    + rewrite IH. split; [by econstructor|]. inversion 1; subst. by same_answer F.
    + split; [done|]. inversion 1; subst. by same_answer F.
  - split; [done|inversion 1].
Qed.

Lemma run_checks_err l : forall w e w', run_checks l w = (Err e, w') <-> exists n, stops_at l w n e w'.
Proof.
  induction l as [|[name [f|]] l IH]; intros w e w'; simpl.
  - split; [done|]. intros [n H]. inversion H.
  - destruct (f w) as [[[]|e'] w1] eqn:F; simpl.
    + rewrite IH. split.
      * intros [n H]. exists n. by eapply stop_later.
      * intros [n H]. inversion H; subst; same_answer F; eauto.
    + split.
      * intros [= <- <-]. eexists. by apply stop_failed.
      * intros [n H]. inversion H; subst; by same_answer F.
  - split.
    + intros [= <- <-]. eexists. by constructor.
    + intros [n H]. by inversion H; subst.
Qed.

Lemma stops_at_named l : forall w n e w', stops_at l w n e w' ->
  n ∈ l.*1 /\ exists detail, message e = named n detail.
Proof.
  induction l as [|[name c] l IH]; intros w n e w' H; inversion H; subst; simpl.
  - split; [left|]. by exists "not configured".
  - split; [left|]. eauto.
  - edestruct IH as [Hn Hd]; [done|]. split; [by right|done].
Qed.
End Gate_lemmas.

Lemma count_step_spec hit l : forall acc, 0 <= acc.1 ->
  (foldl (count_step hit) acc l).1 = acc.1 + Z.of_nat (length (filter (fun o => hit o = true) l)).
Proof.
  induction l as [|o l IH]; intros acc Hacc; simpl; [lia|].
  unfold count_step at 2. rewrite filter_cons. destruct (hit o) eqn:H; simpl.
  - rewrite IH by (simpl; lia). simpl. lia.
  - by rewrite IH.
Qed.

Lemma count_step_zero hit l : (foldl (count_step hit) (0, "") l).1 = 0 <-> Forall (fun o => hit o = false) l.
Proof.
  rewrite count_step_spec by done. simpl. split.
  - intros H. assert (filter (fun o => hit o = true) l = []) as F by (apply nil_length_inv; lia).
    apply Forall_forall. intros o Ho. destruct (hit o) eqn:E; [|done].
    assert (o ∈ filter (fun o => hit o = true) l) as Hf by (by apply list_elem_of_filter).
    rewrite F in Hf. by apply not_elem_of_nil in Hf.
  - induction 1 as [|o l Ho Hl IH]; [done|]. by rewrite filter_cons, decide_False by congruence.
Qed.
