(* ===== verification/BootChecks.v ===== *)
(** * BootChecks: the concrete safe-start checks (src/src/boot/boot_checks.cpp)

    Each of the ten checks on the component it consults, and the context that
    wires them, every check recorded in the audit when it is really invoked. The
    seams act on a world whose type is a parameter; the skew detector and the
    audit are state of the boot itself. *)

From S2P Require Import Prelude Errors Domain Redaction RejectReason Capabilities Health Config.
From S2P Require Import BrokerFactory AccountDir SafeStart.

(** ** Data (boot.hpp) *)

Inductive SafeCheckId :=
  | CkConfig | CkStrategyNames | CkCryptoKeys | CkClock | CkSession | CkEgressIp | CkInstrumentMaster
  | CkCalendar | CkLegacyStops | CkReconciliation.

#[export] Instance SafeCheckId_eq_dec : EqDecision SafeCheckId.
Proof. solve_decision. Defined.

Definition kSafeCheckCount : nat := 10.

Definition check_index (id : SafeCheckId) : nat :=
  match id with
  | CkConfig => 0 | CkStrategyNames => 1 | CkCryptoKeys => 2 | CkClock => 3 | CkSession => 4
  | CkEgressIp => 5 | CkInstrumentMaster => 6 | CkCalendar => 7 | CkLegacyStops => 8 | CkReconciliation => 9
  end%nat.

Definition check_to_string (id : SafeCheckId) : string :=
  match id with
  | CkConfig => "config"
  | CkStrategyNames => "strategy-names"
  | CkCryptoKeys => "crypto-keys"
  | CkClock => "clock"
  | CkSession => "session"
  | CkEgressIp => "egress-IP"
  | CkInstrumentMaster => "instrument-master"
  | CkCalendar => "calendar"
  | CkLegacyStops => "legacy-stops"
  | CkReconciliation => "reconciliation"
  end.

Definition all_checks : list SafeCheckId :=
  [CkConfig; CkStrategyNames; CkCryptoKeys; CkClock; CkSession; CkEgressIp; CkInstrumentMaster;
   CkCalendar; CkLegacyStops; CkReconciliation].

(** The array of invocation counts. *)
Record SafeStartAudit := mkAudit { invocations : list Z }.

Definition empty_audit : SafeStartAudit := mkAudit (replicate kSafeCheckCount 0).

Definition audit_record (id : SafeCheckId) (a : SafeStartAudit) : SafeStartAudit :=
  mkAudit (alter Z.succ (check_index id) (invocations a)).

Definition audit_count (a : SafeStartAudit) (id : SafeCheckId) : Z := default 0 (invocations a !! check_index id).

Definition audit_total (a : SafeStartAudit) : Z := foldl Z.add 0 (invocations a).

Definition first_missing (a : SafeStartAudit) : option SafeCheckId :=
  head (filter (fun id => audit_count a id = 0) all_checks).

Definition all_invoked (a : SafeStartAudit) : bool := negb (bool_decide (is_Some (first_missing a))).

Record BootArgs := mkBootArgs {
  args_account_id : string;
  config_path : string;
  args_data_root : string;
  shared_refdata_root : string;
  health_host : string;
  health_port : Z;
  health_live_budget_ms : Z;
}.

(** ** Errors *)

Definition blocking (c : ErrorCategory) (message : string) : Error :=
  set_action BlockStrategy (make_error c message "").

Definition missing_component (id : SafeCheckId) (component : string) : Error :=
  blocking Internal
    ("boot: the " +:+ check_to_string id +:+ " check has no " +:+ component +:+
     " to consult (composition fault: the component was not wired)").

(** ** Text *)

Definition trim_ascii (text : string) : string := str (trim_blanks (chars text)).

(** Trailing separators removed, the root kept. *)
Fixpoint drop_slashes (rev_text : list ascii) : list ascii :=
  match rev_text with
  | c :: (_ :: _) as rest => if Ascii.eqb c slash then drop_slashes rest else rev_text
  | _ => rev_text
  end.

Definition comparable_path (p : string) : string :=
  str (reverse (drop_slashes (reverse (chars (lexically_normal p))))).

Definition hex_value (c : ascii) : option Z :=
  let n := Z.of_nat (nat_of_ascii c) in
  if (48 <=? n) && (n <=? 57) then Some (n - 48) else
  if (97 <=? n) && (n <=? 102) then Some (n - 97 + 10) else
  if (65 <=? n) && (n <=? 70) then Some (n - 65 + 10) else None.

(** ** The checks *)

Definition token_key_secret_name (account_id : string) : string := account_id +:+ ".token_key".

Definition require_config_consistent (cfg : Config) (args : BootArgs) : result unit :=
  if String.eqb (cfg_account_id (engine cfg)) "" then
    Err (blocking Validation "boot: config engine.account_id is empty — the per-account data tree, the token-store key name and the ledger all key off it") else
  if negb (String.eqb (args_account_id args) "") &&
     negb (String.eqb (cfg_account_id (engine cfg)) (args_account_id args)) then
    Err (blocking Validation "boot: the account this process was started for does not match config engine.account_id — this binary would open a DIFFERENT account's data tree than its configuration describes. Check the systemd instance name (%i) against the configuration file") else
  match parse_broker_choice (broker_name (Config.broker cfg)) with
  | Err e => Err e
  | Ok _ =>
      if String.eqb (data_dir (paths cfg)) "" && String.eqb (args_data_root args) "" then
        Err (blocking Validation "boot: no data root — set config paths.data_dir or pass --data-root")
      else Ok tt
  end.

Definition resolve_data_root (cfg : Config) (args : BootArgs) : result string :=
  let have_arg := negb (String.eqb (args_data_root args) "") in
  let have_config := negb (String.eqb (data_dir (paths cfg)) "") in
  if negb have_arg && negb have_config then
    Err (blocking Validation "boot: no data root — set config paths.data_dir or pass --data-root") else
  if have_arg && have_config &&
     negb (String.eqb (comparable_path (args_data_root args)) (comparable_path (data_dir (paths cfg)))) then
    Err (blocking Validation "boot: --data-root and config paths.data_dir name different directories; they must agree (they select the tree holding the intent log, the projection, the token store and the ledger)")
  else Ok (if have_arg then args_data_root args else data_dir (paths cfg)).

Definition kTokenKeyBytes : nat := 32.
Definition kEd25519PublicKeyBytes : nat := 32.

(** What the stream over the key file answers. *)
Inductive key_file := KeyMissing | KeyUnreadable | KeyText (text : string).

Definition is_key_space (c : ascii) : bool :=
  Ascii.eqb c "010" || Ascii.eqb c "013" || Ascii.eqb c " " || Ascii.eqb c "009".

(** Two characters at a time; the lengths are checked before. *)
Fixpoint hex_bytes (l : list ascii) : option (list Z) :=
  match l with
  | hi :: lo :: rest =>
      match hex_value hi, hex_value lo with
      | Some h, Some l => cons (Z.lor (Z.shiftl h 4) l) <$> hex_bytes rest
      | _, _ => None
      end
  | _ => Some []
  end.

Definition read_pinned_public_key (read : string -> key_file) (path : string) : result (list Z) :=
  if String.eqb path "" then
    Err (blocking Validation "boot: no pinned ledger public key path was configured") else
  match read path with
  | KeyMissing =>
      Err (blocking Validation "boot: the pinned ledger public key is missing. It anchors the ledger's truncation/rollback detection and must be provisioned out-of-band as ledger_public_key.hex under the account directory (see ledger.hpp's trust model)")
  | KeyUnreadable => Err (blocking Internal "boot: failed to read the pinned ledger public key file")
  | KeyText raw =>
      let text := filter (fun c => is_key_space c = false) (chars raw) in
      if negb (length text =? kEd25519PublicKeyBytes * 2)%nat then
        Err (blocking Validation
          ("boot: the pinned ledger public key must be exactly " +:+ pretty (Z.of_nat kEd25519PublicKeyBytes) +:+
           " bytes of hex (Ed25519 raw public key)")) else
      match hex_bytes text with
      | None => Err (blocking Validation "boot: the pinned ledger public key is not valid hex")
      | Some key => Ok key
      end
  end.

Definition require_crypto_keys (secret : string -> result string) (read : string -> key_file)
    (token_key_secret pinned : string) : result unit :=
  if String.eqb token_key_secret "" then
    Err (blocking Internal "boot: no token-store key name was derived for this account") else
  match secret token_key_secret with
  | Err e => Err e
  | Ok resolved =>
      if negb (String.length resolved =? kTokenKeyBytes)%nat then
        Err (blocking Validation
          ("boot: the per-account token-store key must be " +:+ pretty (Z.of_nat kTokenKeyBytes) +:+
           " bytes (AES-256); the configured secret is a different size")) else
      match read_pinned_public_key read pinned with Err e => Err e | Ok _ => Ok tt end
  end.

Definition kEgressIpEnv : string := "BROKER_EXEC_EGRESS_IP".
Definition kEgressAllowlistEnv : string := "BROKER_EXEC_EGRESS_IP_ALLOWLIST".

Definition blank_or_unset (v : option string) : bool :=
  match v with None => true | Some text => String.eqb (trim_ascii text) "" end.

(** The scan over the comma-separated entries: a blank entry never matches. *)
Definition egress_listed (current allowlist : string) : bool :=
  existsb (fun seg => let entry := str (trim_blanks seg) in
                      negb (String.eqb entry "") && String.eqb entry current)
    (split_commas (chars allowlist)).

Definition require_egress_ip_allowed (env : option EnvLookup) : result unit :=
  match env with
  | None => Err (blocking Internal "boot: the egress-IP check has no environment seam to read")
  | Some env_seam =>
      let observed := env_seam kEgressIpEnv in
      if blank_or_unset observed then
        Err (blocking Validation
          ("boot: " +:+ kEgressIpEnv +:+ " is not set, so the egress address this deployment presents to the broker is unknown. A world we cannot verify is not a world we trade in — set it from the out-of-band probe")) else
      let allowlist := env_seam kEgressAllowlistEnv in
      if blank_or_unset allowlist then
        Err (blocking Validation
          ("boot: " +:+ kEgressAllowlistEnv +:+ " is not set. An empty allow-list is not 'allow everything' — it is an unconfigured check, and it blocks the start")) else
      if egress_listed (trim_ascii (default "" observed)) (default "" allowlist) then Ok tt else
      Err (blocking Validation
        ("boot: the observed egress address (" +:+ kEgressIpEnv +:+ ") is not in " +:+ kEgressAllowlistEnv +:+
         ". Orders from an unregistered address are rejected by the broker or, worse, accepted from the wrong host"))
  end.

Definition is_unreconciled (o : Order) : bool :=
  match state o with
  | PendingSend | Sent | Unknown | PartiallyPlaced | ManualInterventionRequired => true
  | Created | Validated | Acknowledged | PartiallyFilled | Filled | Rejected | Cancelled | Reconciled => false
  end.

(** The loop's count, first reference and the state named beside it. *)
Definition unreconciled_step (acc : Z * string * string) (o : Order) : Z * string * string :=
  let '(count, ref, st) := acc in
  if is_unreconciled o then
    if String.eqb ref "" then (count + 1, client_ref (intent o), order_state_to_string (state o))
    else (count + 1, ref, st)
  else acc.

Definition require_no_unreconciled_orders (orders : list Order) : result unit :=
  let '(count, first_ref, first_state) := foldl unreconciled_step (0, "", "") orders in
  if count =? 0 then Ok tt else
  Err (blocking Validation
    ("boot: the projection holds " +:+ pretty count +:+
     " order(s) whose send result was never confirmed (first state " +:+
     (if String.eqb first_state "" then "unknown" else first_state) +:+
     "). Trading on top of one is the duplicate-order hazard this library exists to prevent: it must be resolved against broker truth before a start. First: " +:+
     or_no_ref first_ref)).

(** ** The wiring *)

Section Wiring.
  Context {W : Type}.

(** The world, the skew detector the boot samples (meaningful when one is wired)
    and the audit. *)
Record BootState := mkBootState {
  world : W;
  detector : SkewStallDetector;
  audit : SafeStartAudit;
}.

Definition set_world (w : W) (s : BootState) : BootState := mkBootState w (detector s) (audit s).
Definition set_detector (d : SkewStallDetector) (s : BootState) : BootState :=
  mkBootState (world s) d (audit s).
Definition set_audit (a : SafeStartAudit) (s : BootState) : BootState := mkBootState (world s) (detector s) a.

(** A seam of the world run inside the boot. *)
Definition in_world {A} (f : W -> A * W) (s : BootState) : A * BootState :=
  let '(a, w) := f (world s) in (a, set_world w s).

Record RefdataPort := mkRefdata { require_fresh : W -> result unit; refdata_refresh : W -> result unit * W }.

(** A null pointer or an empty function is [None]. *)
Record SafeStartWiring := mkWiring {
  wire_config : option Config;
  wire_args : option BootArgs;
  wire_env : option EnvLookup;
  wire_files : (W -> string -> bool) * (W -> string -> toml_table + string);
  wire_secrets : option (W -> string -> result string);
  wire_token_key_secret : string;
  wire_pinned : string;
  wire_read : W -> string -> key_file;
  wire_clock : option (W -> (Z * Z) * W);
  wire_clock_detector : bool;
  wire_session_probe : option (W -> result SessionState * W);
  wire_instruments : option RefdataPort;
  wire_calendar : option RefdataPort;
  wire_store : option (W -> result (list Order));
}.

Definition instrumented (id : SafeCheckId) (inner : SafeCheck BootState) (missing_detail : Error) :
    SafeCheck BootState :=
  Some (fun s => match inner with
                 | None => (Err missing_detail, s)
                 | Some check => check (set_audit (audit_record id (audit s)) s)
                 end).

(** [detector->sample] of the clock. *)
Definition sample_clock (read_clock : W -> (Z * Z) * W) (s : BootState) : ClockStatus * BootState :=
  let '((steady, wall), s) := in_world read_clock s in
  let '(status, d) := sample (detector s) steady wall in
  (status, set_detector d s).

Definition config_inner (w : SafeStartWiring) : SafeCheck BootState :=
  match wire_config w, wire_args w, wire_env w with
  | Some cfg, Some args, Some env =>
      Some (fun s =>
        (match load ((wire_files w).1 (world s)) ((wire_files w).2 (world s)) (config_path args) env with
         | Err e => Err e
         | Ok reloaded => match require_config_consistent reloaded args with
                          | Err e => Err e
                          | Ok _ => require_config_consistent cfg args
                          end
         end, s))
  | _, _, _ => None
  end.

Definition strategy_names_inner (w : SafeStartWiring) : SafeCheck BootState :=
  match wire_config w with
  | Some cfg => Some (fun s => (require_valid_strategy_names (names (strategies cfg)), s))
  | None => None
  end.

Definition crypto_keys_inner (w : SafeStartWiring) : SafeCheck BootState :=
  match wire_secrets w with
  | Some secret => Some (fun s =>
      (require_crypto_keys (secret (world s)) (wire_read w (world s)) (wire_token_key_secret w) (wire_pinned w), s))
  | None => None
  end.

Definition clock_inner (w : SafeStartWiring) : SafeCheck BootState :=
  match wire_clock w, wire_clock_detector w with
  | Some read_clock, true => Some (fun s =>
      let '(status, s) := sample_clock read_clock s in
      if bool_decide (status = ClockHealthy) then (Ok tt, s)
      else (Err (blocking DataStale
             ("boot: clock is " +:+ clock_status_to_string status +:+ " — " +:+ det_reason (detector s))), s))
  | _, _ => None
  end.

Definition session_inner (w : SafeStartWiring) : SafeCheck BootState :=
  match wire_session_probe w with
  | Some probe => Some (fun s =>
      match in_world probe s with
      | (Err e, s) => (Err e, s)
      | (Ok st, s) => (session_state_to_result st, s)
      end)
  | None => None
  end.

Definition egress_ip_inner (w : SafeStartWiring) : SafeCheck BootState :=
  match wire_env w with
  | Some env => Some (fun s => (require_egress_ip_allowed (Some env), s))
  | None => None
  end.

(** Fresh as it is, else refreshed and tested again. *)
Definition refdata_inner (port : option RefdataPort) : SafeCheck BootState :=
  match port with
  | Some p => Some (fun s =>
      match require_fresh p (world s) with
      | Ok _ => (Ok tt, s)
      | Err _ =>
          match in_world (refdata_refresh p) s with
          | (Err e, s) => (Err e, s)
          | (Ok _, s) => (require_fresh p (world s), s)
          end
      end)
  | None => None
  end.

Definition projection_inner (w : SafeStartWiring) (require_rows : list Order -> result unit) : SafeCheck BootState :=
  match wire_store w with
  | Some all_orders => Some (fun s =>
      (match all_orders (world s) with Err e => Err e | Ok rows => require_rows rows end, s))
  | None => None
  end.

Definition make_safe_start_context (w : SafeStartWiring) : SafeStartContext BootState :=
  mkSafeStart
    (instrumented CkConfig (config_inner w)
       (missing_component CkConfig "configuration, arguments or environment seam"))
    (instrumented CkStrategyNames (strategy_names_inner w) (missing_component CkStrategyNames "configuration"))
    (instrumented CkCryptoKeys (crypto_keys_inner w) (missing_component CkCryptoKeys "secret provider"))
    (instrumented CkClock (clock_inner w) (missing_component CkClock "clock or skew/stall detector"))
    (instrumented CkSession (session_inner w) (missing_component CkSession "session probe"))
    (instrumented CkEgressIp (egress_ip_inner w) (missing_component CkEgressIp "environment seam"))
    (instrumented CkInstrumentMaster (refdata_inner (wire_instruments w))
       (missing_component CkInstrumentMaster "instrument master"))
    (instrumented CkCalendar (refdata_inner (wire_calendar w)) (missing_component CkCalendar "trading calendar"))
    (instrumented CkLegacyStops (projection_inner w require_no_legacy_stops)
       (missing_component CkLegacyStops "order projection"))
    (instrumented CkReconciliation (projection_inner w require_no_unreconciled_orders)
       (missing_component CkReconciliation "order projection")).
End Wiring.
Arguments BootState : clear implicits.
Arguments RefdataPort : clear implicits.
Arguments SafeStartWiring : clear implicits.

(** ** The checks, exactly *)

Lemma drop_blanks_nil l : drop_blanks l = [] <-> Forall (fun c => is_blank c = true) l.
Proof.
  induction l as [|c l IH]; simpl; [by split|]. rewrite Forall_cons, <- IH.
  destruct (is_blank c); naive_solver.
Qed.

Lemma drop_blanks_head l c r : drop_blanks l = c :: r -> is_blank c = false.
Proof. induction l as [|d l IH]; simpl; [done|]. destruct (is_blank d) eqn:E; naive_solver. Qed.

Lemma trim_blanks_nil l : trim_blanks l = [] <-> Forall (fun c => is_blank c = true) l.
Proof.
  unfold trim_blanks. rewrite <- drop_blanks_nil. split.
  - intros H. destruct (drop_blanks l) as [|c r] eqn:E; [done|].
    apply (f_equal reverse) in H. rewrite reverse_involutive in H. change (reverse []) with (@nil ascii) in H.
    apply drop_blanks_nil in H. rewrite Forall_reverse, Forall_cons in H.
    apply drop_blanks_head in E. naive_solver congruence.
  - by intros ->.
Qed.

Lemma split_commas_elem l seg : seg ∈ split_commas l -> forall c, c ∈ seg -> c ∈ l.
Proof.
  revert seg. induction l as [|d l IH]; intros seg; simpl.
  - rewrite list_elem_of_singleton. by intros ->.
  - destruct (Ascii.eqb d ",").
    + rewrite elem_of_cons. intros [->|H] c Hc; [by apply not_elem_of_nil in Hc|]. right. by eapply IH.
    + destruct (split_commas l) as [|s segs].
      * rewrite list_elem_of_singleton. intros -> c. by rewrite list_elem_of_singleton; intros ->; left.
      * rewrite elem_of_cons. intros [->|H] c Hc.
        -- apply elem_of_cons in Hc as [->|Hc]; [by left|]. right. eapply IH; [left|done].
        -- right. eapply IH; [by right|done].
Qed.

(** The egress check passes exactly when the observed address is set and not
    blank and one entry of the comma-separated allow-list is that address, both
    trimmed of spaces and tabs: an unset or empty list allows nothing, a blank entry
    matches nothing and there is no prefix, range or wildcard. *)
Theorem egress_exact env :
  require_egress_ip_allowed env = Ok tt <->
  exists seam observed allowed seg,
    env = Some seam /\ seam kEgressIpEnv = Some observed /\ seam kEgressAllowlistEnv = Some allowed /\
    seg ∈ split_commas (chars allowed) /\ trim_blanks seg = trim_blanks (chars observed) /\
    trim_blanks (chars observed) <> [].
Proof.
  assert (forall l, str l = "" <-> l = []) as Hstr by (intros []; simpl; split; congruence).
  unfold require_egress_ip_allowed. destruct env as [seam|]; [|naive_solver].
  destruct (seam kEgressIpEnv) as [o|] eqn:Eo; simpl; [|naive_solver].
  destruct (String.eqb_spec (trim_ascii o) "") as [Hb|Hb];
    unfold trim_ascii in Hb; rewrite Hstr in Hb; [naive_solver|].
  destruct (seam kEgressAllowlistEnv) as [a|] eqn:Ea; simpl; [|naive_solver].
  destruct (String.eqb_spec (trim_ascii a) "") as [Ha|Ha]; unfold trim_ascii in Ha; rewrite Hstr in Ha.
  { split; [done|]. intros (? & o' & a' & seg & [= <-] & ? & ? & Hin & E & _). simplify_eq. destruct Hb.
    rewrite <- E. apply trim_blanks_nil, Forall_forall. intros c Hc.
    apply trim_blanks_nil in Ha. eapply Forall_forall in Ha; [done|]. by eapply split_commas_elem. }
  destruct (egress_listed _ _) eqn:L; unfold egress_listed in L.
  - split; [intros _|done]. apply existsb_exists in L as (seg & Hin & E).
    apply andb_true_iff in E as [_ E]. apply String.eqb_eq in E. unfold trim_ascii in E. simpl in E.
    exists seam, o, a, seg. repeat split; try done; [by apply list_elem_of_In|].
    rewrite <- (chars_str (trim_blanks seg)), E. apply chars_str.
  - split; [done|]. intros (? & o' & a' & seg & [= <-] & ? & ? & Hin & E & _). simplify_eq.
    rewrite (proj2 (existsb_exists _ _)) in L; [done|]. exists seg.
    split; [by apply list_elem_of_In|]. simpl. rewrite E. unfold trim_ascii. rewrite String.eqb_refl.
    rewrite andb_true_r. apply negb_true_iff, String.eqb_neq. by rewrite Hstr.
Qed.

(** *** The pinned key *)

Lemma hex_value_range c v : hex_value c = Some v -> 0 <= v < 16.
Proof.
  unfold hex_value. cbv zeta. repeat case_match; intros; simplify_eq; to_prop; lia.
Qed.

Lemma nibbles_byte h l : 0 <= h < 16 -> 0 <= l < 16 ->
  Z.lor (Z.shiftl h 4) l = 16 * h + l.
Proof.
  intros Hh Hl. pose proof (Z.add_lor_land (Z.shiftl h 4) l) as E.
  rewrite Z.shiftl_mul_pow2 in * by lia. enough (Z.land (h * 2 ^ 4) l = 0) by lia.
  apply Z.bits_inj'. intros i Hi. rewrite Z.land_spec, Z.bits_0.
  destruct (Z_lt_dec i 4); [by rewrite Z.mul_pow2_bits_low by lia|].
  replace l with (l mod 2 ^ 4) by (apply Z.mod_small; lia).
  by rewrite (Z.mod_pow2_bits_high l 4 i), andb_false_r by lia.
Qed.

(** The digits of a key, high half first. *)
Definition nibbles (key : list Z) : list Z := key ≫= fun b => [b / 16; b mod 16].

Lemma hex_bytes_spec n : forall l key, length l = (n * 2)%nat ->
  hex_bytes l = Some key <->
  Forall (fun b => 0 <= b < 256) key /\ hex_value <$> l = Some <$> nibbles key.
Proof.
  induction n as [|n IH]; intros l key Hlen.
  - destruct l; [|done]. simpl. split; [by intros [= <-]|].
    intros [_ H]. by destruct key.
  - destruct l as [|h [|lo l]]; [done..|]. simpl in Hlen. specialize (IH l).
    cbn [hex_bytes fmap list_fmap]. split.
    + destruct (hex_value h) as [vh|] eqn:Eh; [|done]. destruct (hex_value lo) as [vl|] eqn:El; [|done].
      destruct (hex_bytes l) as [key'|] eqn:K; [|done]. intros [= <-].
      destruct (proj1 (IH key' ltac:(lia)) eq_refl) as [Hr Hd].
      apply hex_value_range in Eh, El. rewrite nibbles_byte by lia. split; [by constructor; [lia|]|].
      cbn [nibbles mbind list_bind app fmap list_fmap]. fold (nibbles key').
      rewrite <- Hd. rewrite (Z.mul_comm 16 vh), Z.div_add_l, Z.div_small, Z.add_0_r by lia.
      by rewrite (Z.add_comm (vh * 16)), Z_mod_plus_full, Z.mod_small by lia.
    + intros [Hr Hd]. destruct key as [|b key]; [done|]. apply Forall_cons in Hr as [Hb Hr].
      cbn [nibbles mbind list_bind app fmap list_fmap] in Hd. injection Hd as -> -> Hd.
      rewrite (proj2 (IH key ltac:(lia))) by done. simpl. do 2 f_equal.
      rewrite nibbles_byte by (Z.div_mod_to_equations; lia). symmetry. apply Z.div_mod. lia.
Qed.

(** The pinned ledger key is read exactly from a file whose text, spaces, tabs
    and line ends apart, is 64 hex digits of either case; the key is the 32 bytes
    they spell, high digit first. A missing or unreadable file, another length or
    another character refuses. *)
Theorem pinned_key_exact read path key :
  read_pinned_public_key read path = Ok key <->
  path <> "" /\ exists raw, read path = KeyText raw /\
    length key = kEd25519PublicKeyBytes /\ Forall (fun b => 0 <= b < 256) key /\
    hex_value <$> filter (fun c => is_key_space c = false) (chars raw) = Some <$> nibbles key.
Proof.
  unfold read_pinned_public_key. destruct (String.eqb_spec path "") as [->|Hp]; [naive_solver|].
  destruct (read path) as [| |raw]; [naive_solver..|].
  set (text := filter _ (chars raw)). cbv zeta.
  assert (forall k, length (nibbles k) = (length k * 2)%nat) as Hn.
  { intros k. induction k as [|b k IH]; [done|].
    change (nibbles (b :: k)) with (b / 16 :: b mod 16 :: nibbles k). simpl. by rewrite IH. }
  destruct (Nat.eqb_spec (length text) (kEd25519PublicKeyBytes * 2)) as [Hl|Hl]; simpl.
  - pose proof (hex_bytes_spec _ _ key Hl) as Hs. split.
    + intros H. destruct (hex_bytes text) as [k|] eqn:K; [|done]. injection H as ->.
      destruct (proj1 Hs eq_refl) as [Hr Hd]. split; [done|]. exists raw. repeat split; try done.
      apply (f_equal length) in Hd. rewrite !length_fmap, Hn in Hd. unfold kEd25519PublicKeyBytes in *. lia.
    + intros (_ & raw' & [= <-] & _ & Hr & Hd). by rewrite (proj2 Hs).
  - split; [done|]. intros (_ & raw' & [= <-] & Hk & _ & Hd). destruct Hl.
    apply (f_equal length) in Hd. rewrite !length_fmap, Hn, Hk in Hd. done.
Qed.

(** *** The projection *)

Lemma unreconciled_count l : forall acc, (foldl unreconciled_step acc l).1.1 = 
  acc.1.1 + Z.of_nat (length (filter (fun o => is_unreconciled o = true) l)).
Proof.
  induction l as [|o l IH]; intros [[n r] s]; simpl; [lia|]. rewrite filter_cons.
  destruct (is_unreconciled o); simpl; [|by rewrite IH].
  destruct (String.eqb r ""); rewrite IH; simpl; lia.
Qed.

Lemma no_unreconciled_ok orders :
  require_no_unreconciled_orders orders = Ok tt <-> Forall (fun o => is_unreconciled o = false) orders.
Proof.
  unfold require_no_unreconciled_orders. pose proof (unreconciled_count orders (0, "", "")) as H.
  destruct (foldl _ _ orders) as [[n r] s]. cbn [fst] in H. rewrite Z.add_0_l in H. rewrite H. clear n H.
  assert (Z.of_nat (length (filter (fun o => is_unreconciled o = true) orders)) = 0 <->
          Forall (fun o => is_unreconciled o = false) orders) as <-.
  { induction orders as [|o l IH]; [by split|]. rewrite filter_cons, Forall_cons, <- IH.
    destruct (is_unreconciled o); simpl; [split; [lia|by intros [? _]]|]. split; [by split|by intros [_ ?]]. }
  set (n := Z.of_nat _). by destruct (Z.eqb_spec n 0).
Qed.

Lemma no_legacy_ok orders :
  require_no_legacy_stops orders = Ok tt <-> Forall (fun o => is_legacy_trigger_less_stop o = false) orders.
Proof.
  rewrite <- (count_step_zero is_legacy_trigger_less_stop). unfold require_no_legacy_stops, legacy_scan.
  destruct (foldl _ _ orders) as [n r]. simpl. destruct (Z.eqb_spec n 0); by split.
Qed.

(** ** The gate over the wired checks *)

Section Gate_passed.
  Context {W : Type}.

Lemma in_world_audit {A} (f : W -> A * W) s : audit (in_world f s).2 = audit s.
Proof. unfold in_world. by destruct (f (world s)). Qed.

Lemma in_world_detector {A} (f : W -> A * W) s : detector (in_world f s).2 = detector s.
Proof. unfold in_world. by destruct (f (world s)). Qed.

(** A wired check that passed was recorded, and then ran and passed. *)
Lemma all_pass_instrumented id c e name rest (s s' : BootState W) :
  all_pass ((name, instrumented id c e) :: rest) s s' ->
  exists f t, c = Some f /\ f (set_audit (audit_record id (audit s)) s) = (Ok tt, t) /\ all_pass rest t s'.
Proof.
  intros H. inversion H as [|? f ? ? t ? Hf Hr]; subst. destruct c as [f|]; [eauto|done].
Qed.

Lemma refdata_inner_passed p f (s t : BootState W) : refdata_inner p = Some f -> f s = (Ok tt, t) ->
  audit t = audit s /\ detector t = detector s /\
  exists port, p = Some port /\ require_fresh port (world t) = Ok tt.
Proof.
  destruct p as [p|]; [|done]. intros [= <-] H.
  destruct (require_fresh p (world s)) as [[]|] eqn:F; [simplify_eq; eauto|].
  pose proof (in_world_audit (refdata_refresh p) s) as Ha.
  pose proof (in_world_detector (refdata_refresh p) s) as Hd.
  destruct (in_world (refdata_refresh p) s) as [[] t']; simplify_eq/=; eauto.
Qed.

Lemma clock_inner_passed w f (s t : BootState W) : clock_inner w = Some f -> f s = (Ok tt, t) ->
  audit t = audit s /\ det_status (detector t) = ClockHealthy.
Proof.
  unfold clock_inner. destruct (wire_clock w) as [rc|], (wire_clock_detector w); [|done..]. intros [= <-].
  unfold sample_clock. pose proof (in_world_audit rc s) as Ha. pose proof (in_world_detector rc s) as Hd.
  destruct (in_world rc s) as [[st wl] s1]. simpl in *.
  assert ((sample (detector s1) st wl).1 = det_status (sample (detector s1) st wl).2) as Hs.
  { unfold sample. cbv zeta. by repeat split_match. }
  destruct (sample (detector s1) st wl) as [status d]. simpl in Hs. case_bool_decide; [|done].
  intros [= <-]. split; [done|]. simpl. congruence.
Qed.

Lemma session_inner_passed w f (s t : BootState W) : session_inner w = Some f -> f s = (Ok tt, t) ->
  audit t = audit s /\ detector t = detector s /\
  exists probe, wire_session_probe w = Some probe /\ in_world probe s = (Ok Healthy, t).
Proof.
  unfold session_inner. destruct (wire_session_probe w) as [probe|]; [|done]. intros [= <-].
  pose proof (in_world_audit probe s) as Ha. pose proof (in_world_detector probe s) as Hd.
  destruct (in_world probe s) as [[[]|] s1] eqn:E; simpl in *; intros; simplify_eq. eauto.
Qed.

Lemma projection_inner_passed w (req : list Order -> result unit) f (s t : BootState W) :
  projection_inner w req = Some f -> f s = (Ok tt, t) ->
  t = s /\ exists all_orders rows, wire_store w = Some all_orders /\ all_orders (world s) = Ok rows /\ req rows = Ok tt.
Proof.
  unfold projection_inner. destruct (wire_store w) as [rows|]; [|done]. intros [= <-] [= H <-]. split; [done|].
  destruct (rows (world s)) as [r|] eqn:E; [|done]. eauto.
Qed.

Lemma audit_record_count id a i : length (invocations a) = kSafeCheckCount ->
  audit_count (audit_record id a) i = audit_count a i + (if decide (i = id) then 1 else 0).
Proof.
  intros Hl. unfold audit_count, audit_record. simpl.
  destruct (decide (i = id)) as [->|Hne].
  - rewrite list_lookup_alter_eq. destruct (lookup_lt_is_Some_2 (invocations a) (check_index id)) as [x Hx].
    { rewrite Hl. destruct id; unfold kSafeCheckCount; simpl; lia. }
    rewrite Hx. simpl. lia.
  - rewrite list_lookup_alter_ne by (by destruct i, id). lia.
Qed.

Lemma config_inner_passed w f (s t : BootState W) : config_inner w = Some f -> f s = (Ok tt, t) ->
  t = s /\ exists cfg args, wire_config w = Some cfg /\ wire_args w = Some args /\
    require_config_consistent cfg args = Ok tt.
Proof.
  unfold config_inner. destruct (wire_config w) as [cfg|], (wire_args w) as [args|], (wire_env w) as [env|]; try done.
  intros [= <-] [= H <-]. split; [done|]. exists cfg, args. split; [done|]. split; [done|].
  destruct (load _ _ _ _) as [c|]; [|done]. by destruct (require_config_consistent c args).
Qed.

Lemma valid_names_ok l :
  require_valid_strategy_names l = Ok tt -> Forall (fun n => is_valid_strategy_name n = true) l.
Proof.
  unfold require_valid_strategy_names.
  assert (forall acc, 0 <= acc.1 -> acc.1 <= (foldl name_step acc l).1 /\
    ((foldl name_step acc l).1 = acc.1 -> Forall (fun n => is_valid_strategy_name n = true) l)) as H.
  { induction l as [|n l IH]; intros acc Hacc; simpl; [by split|].
    assert (name_step acc n = if String.eqb (explain_invalid_strategy_name n) "" then acc
      else (acc.1 + 1, if String.eqb acc.2 "" then explain_invalid_strategy_name n else acc.2)) as -> by done.
    destruct (String.eqb (explain_invalid_strategy_name n) "") eqn:E.
    - destruct (IH acc Hacc) as [Hle Hf]. split; [done|]. intros Heq. constructor; [done|by apply Hf].
    - destruct (IH (acc.1 + 1, if String.eqb acc.2 "" then explain_invalid_strategy_name n else acc.2)) as [Hle _];
        simpl in *; [lia|]. split; [lia|]. intros Heq. lia. }
  specialize (H (0, "") ltac:(done)). destruct (foldl name_step (0, "") l) as [n r]. simpl in H.
  destruct (Z.eqb_spec n 0); [|done]. intros _. by apply H.
Qed.

Lemma crypto_keys_ok secret read name pinned : require_crypto_keys secret read name pinned = Ok tt ->
  exists text key, secret name = Ok text /\ String.length text = kTokenKeyBytes /\
    read_pinned_public_key read pinned = Ok key.
Proof.
  unfold require_crypto_keys. destruct (String.eqb name ""); [done|]. destruct (secret name) as [text|]; [|done].
  destruct (Nat.eqb_spec (String.length text) kTokenKeyBytes); cbn [negb]; [|done].
  destruct (read_pinned_public_key read pinned); [eauto|done].
Qed.

(** C9: When the wired gate passes, the world it vouches for has been verified:
    each of the ten checks was invoked exactly once; the configuration is consistent
    with the process's arguments and its strategy names are valid; the token key has
    its 32 bytes and the pinned ledger key is readable; the clock detector is
    healthy; the session probe answered Healthy; the egress address is allowed; the
    instrument master was wired and the trading calendar is fresh; and in the
    projection, as it stands when trading would begin, no order has an unconfirmed
    send and none is a working stop without its trigger. *)
Theorem safe_start_verified (w : SafeStartWiring W) s s' :
  length (invocations (audit s)) = kSafeCheckCount ->
  verify (make_safe_start_context w) s = (Ok tt, s') ->
  (forall id, audit_count (audit s') id = audit_count (audit s) id + 1) /\
  (exists cfg args, wire_config w = Some cfg /\ wire_args w = Some args /\
     require_config_consistent cfg args = Ok tt /\
     Forall (fun n => is_valid_strategy_name n = true) (names (strategies cfg))) /\
  (exists secret text key, wire_secrets w = Some secret /\
     secret (world s) (wire_token_key_secret w) = Ok text /\ String.length text = kTokenKeyBytes /\
     read_pinned_public_key (wire_read w (world s)) (wire_pinned w) = Ok key) /\
  det_status (detector s') = ClockHealthy /\
  (exists probe t t', wire_session_probe w = Some probe /\ in_world probe t = (Ok Healthy, t')) /\
  require_egress_ip_allowed (wire_env w) = Ok tt /\
  is_Some (wire_instruments w) /\
  (exists port, wire_calendar w = Some port /\ require_fresh port (world s') = Ok tt) /\
  (exists all_orders rows, wire_store w = Some all_orders /\ all_orders (world s') = Ok rows /\
     Forall (fun o => is_unreconciled o = false /\ is_legacy_trigger_less_stop o = false) rows).
Proof.
  intros Hlen H. unfold verify in H. apply run_checks_ok in H. unfold checks, make_safe_start_context in H.
  cbn [config_check strategy_name_check crypto_keys_check clock_check session_check egress_ip_check
    instrument_master_check calendar_check legacy_stop_check reconciliation_check] in H.
  apply all_pass_instrumented in H as (f1 & t1 & E1 & P1 & H).
  apply config_inner_passed with (1 := E1) in P1 as (-> & cfg & args & Hcfg & Hargs & Hcons).
  apply all_pass_instrumented in H as (f2 & t2 & E2 & P2 & H).
  unfold strategy_names_inner in E2. rewrite Hcfg in E2. injection E2 as <-. injection P2 as Hnames <-.
  apply all_pass_instrumented in H as (f3 & t3 & E3 & P3 & H).
  unfold crypto_keys_inner in E3. destruct (wire_secrets w) as [secret|]; [|done]. injection E3 as <-.
  injection P3 as Hkeys <-. apply crypto_keys_ok in Hkeys as (text & key & Hs & Hl & Hk).
  apply all_pass_instrumented in H as (f4 & t4 & E4 & P4 & H).
  apply clock_inner_passed with (1 := E4) in P4 as [A4 D4].
  apply all_pass_instrumented in H as (f5 & t5 & E5 & P5 & H).
  apply session_inner_passed with (1 := E5) in P5 as (A5 & D5 & probe & Hprobe & Hsess).
  apply all_pass_instrumented in H as (f6 & t6 & E6 & P6 & H).
  assert (t6 = set_audit (audit_record CkEgressIp (audit t5)) t5 /\ require_egress_ip_allowed (wire_env w) = Ok tt)
    as [-> Hegress].
  { unfold egress_ip_inner in E6. destruct (wire_env w) as [env|]; [|done]. injection E6 as <-. by injection P6 as ? <-. }
  apply all_pass_instrumented in H as (f7 & t7 & E7 & P7 & H).
  apply refdata_inner_passed with (1 := E7) in P7 as (A7 & D7 & master & Hmaster & _).
  apply all_pass_instrumented in H as (f8 & t8 & E8 & P8 & H).
  apply refdata_inner_passed with (1 := E8) in P8 as (A8 & D8 & cal & Hcal & Hfresh).
  apply all_pass_instrumented in H as (f9 & t9 & E9 & P9 & H).
  apply projection_inner_passed with (1 := E9) in P9 as (-> & rows & r & Hrows & Hr & Hlegacy).
  apply all_pass_instrumented in H as (f10 & t10 & E10 & P10 & H).
  apply projection_inner_passed with (1 := E10) in P10 as (-> & rows' & r' & Hrows' & Hr' & Hrec).
  inversion H; subst; clear H. simpl in *. simplify_eq.
  split.
  { intros id. rewrite A8, A7. simpl. rewrite A5. simpl. rewrite A4. simpl.
    rewrite !audit_record_count by (unfold audit_record; simpl; by rewrite ?length_alter).
    destruct id; repeat first [rewrite decide_True by done | rewrite decide_False by done]; lia. }
  split; [exists cfg, args; split_and!; [done..|by apply valid_names_ok]|].
  split; [by exists secret, text, key|].
  split; [rewrite D8, D7; simpl; rewrite D5; exact D4|].
  split; [eauto|]. split; [done|]. split; [by eexists|]. split; [eauto|].
  exists rows, r. split; [done|]. split; [done|].
  apply no_legacy_ok in Hlegacy. apply no_unreconciled_ok in Hrec.
  assert (r' = r) as -> by congruence. apply Forall_forall. intros o Ho.
  rewrite Forall_forall in Hlegacy, Hrec. by split; [apply Hrec|apply Hlegacy].
Qed.
End Gate_passed.

(** A world in which everything is in order. *)
Definition sample_config : Config :=
  mkConfig (mkEngineConfig LiveProfile "ab1") (mkBrokerConfig "kite" "" 5000) (mkRiskConfig 0 0)
    (mkPathsConfig "/d" "") (mkLoggingConfig Info) (mkStrategiesConfig ["alpha"]).

Definition sample_env : EnvLookup := fun k =>
  if String.eqb k kEgressIpEnv then Some "10.0.0.1" else
  if String.eqb k kEgressAllowlistEnv then Some "10.0.0.9, 10.0.0.1" else
  if String.eqb k "BROKER_EXEC_ENGINE_ACCOUNT_ID" then Some "ab1" else
  if String.eqb k "BROKER_EXEC_BROKER_NAME" then Some "kite" else
  if String.eqb k "BROKER_EXEC_PATHS_DATA_DIR" then Some "/d" else None.

Definition sample_args : BootArgs := mkBootArgs "ab1" "" "/d/" "" "127.0.0.1" 9110 15000.

Definition sample_port : RefdataPort unit := mkRefdata (fun _ => Ok tt) (fun w => (Ok tt, w)).

Definition sample_key_text : string :=
  "00112233445566778899aabbccddeeff00112233445566778899AABBCCDDEEFF".

Definition sample_wiring : SafeStartWiring unit :=
  mkWiring (Some sample_config) (Some sample_args) (Some sample_env) (fun _ _ => false, fun _ _ => inl [])
    (Some (fun _ _ => Ok "0123456789abcdef0123456789abcdef")) "ab1.token_key" "/d/ab1/k.hex"
    (fun _ _ => KeyText sample_key_text) (Some (fun w => ((5, 7), w))) true
    (Some (fun w => (Ok Healthy, w))) (Some sample_port) (Some sample_port) (Some (fun _ => Ok [])).

Definition sample_state : BootState unit :=
  mkBootState tt (new_detector (mkSkewConfig (10 ^ 9) (10 ^ 9))) empty_audit.

Lemma safe_start_verified_witness :
  let s' := (verify (make_safe_start_context sample_wiring) sample_state).2 in
  audit_count (audit s') CkReconciliation = 0 + 1 /\ det_status (detector s') = ClockHealthy.
Proof.
  destruct (safe_start_verified sample_wiring sample_state
    (verify (make_safe_start_context sample_wiring) sample_state).2) as (H & _ & _ & D & _).
  - reflexivity.
  - vm_compute. reflexivity.
  - split; [exact (H CkReconciliation) | exact D].
Defined.
