(* ===== verification/HealthSurface.v ===== *)
(** * HealthSurface: the served health snapshot
    (src/src/cli/health_snapshot.cpp, health_state.cpp, health_endpoint.cpp)

    The snapshot, its liveness and readiness, the published state behind a mutex
    (each operation one atomic step) and the router. The JSON printer is a
    parameter; the HTTP server that calls the router is not modelled. *)

From S2P Require Import Prelude Errors Redaction RejectReason.

Definition session_to_string (s : SessionState) : string :=
  match s with Healthy => "Healthy" | NeedsReauth => "NeedsReauth" | SessionFailed => "Failed" end.

Record HealthSnapshot := mkHealthSnapshot {
  session_state : SessionState;
  heartbeat_age_ms : Z;
  tick_age_ms : Z;
  in_flight_count : Z;
  clock_sane : bool;
  replay_clean : bool;
}.

Definition is_live (s : HealthSnapshot) (live_budget_ms : Z) : bool :=
  if (live_budget_ms <? 0) || (heartbeat_age_ms s <? 0) then false
  else (heartbeat_age_ms s <=? live_budget_ms) && clock_sane s.

Definition is_ready (s : HealthSnapshot) (live_budget_ms : Z) : bool :=
  is_live s live_budget_ms && replay_clean s && bool_decide (session_state s = Healthy) &&
  (0 <=? in_flight_count s).

Definition fail_closed_default : HealthSnapshot :=
  mkHealthSnapshot SessionFailed int64_max int64_max (-1) false false.

Record HealthState := mkHealthState { latest_ : option HealthSnapshot }.

Definition publish (s : HealthSnapshot) (h : HealthState) : HealthState := mkHealthState (Some s).

Definition latest (h : HealthState) : HealthSnapshot :=
  match latest_ h with Some s => s | None => fail_closed_default end.

Definition has_published (h : HealthState) : bool := bool_decide (is_Some (latest_ h)).

(** ** The router *)

Inductive JsonScalar := JText (s : string) | JInteger (z : Z) | JBoolean (b : bool).

Record HttpReply := mkReply { reply_status : Z; reply_body : string; reply_content_type : string }.

Definition kOk : Z := 200.
Definition kServiceUnavailable : Z := 503.
Definition kNotFound : Z := 404.
Definition kJsonContentType : string := "application/json".

Section Router.
  (** The compact dump of a JSON object given by its members. *)
  Context (dump_compact : list (string * JsonScalar) -> string).

Definition to_json (s : HealthSnapshot) : string :=
  scrub (dump_compact
    [("session_state", JText (session_to_string (session_state s)));
     ("heartbeat_age_ms", JInteger (heartbeat_age_ms s));
     ("tick_age_ms", JInteger (tick_age_ms s));
     ("in_flight_count", JInteger (in_flight_count s));
     ("clock_sane", JBoolean (clock_sane s));
     ("replay_clean", JBoolean (replay_clean s))]).

Definition health_reply (healthy : bool) (s : HealthSnapshot) : HttpReply :=
  mkReply (if healthy then kOk else kServiceUnavailable) (to_json s) kJsonContentType.

Definition kNotFoundBody : string :=
  "{" +:+ String "034" "error" +:+ String "034" ":" +:+ String "034" "not found" +:+ String "034" "}".

Definition not_found_reply : HttpReply := mkReply kNotFound kNotFoundBody kJsonContentType.

Definition route (method path : string) (h : HealthState) (live_budget_ms : Z) : HttpReply :=
  if negb (String.eqb method "GET") then not_found_reply else
  let snapshot := latest h in
  if String.eqb path "/healthz" then health_reply (is_live snapshot live_budget_ms) snapshot else
  if String.eqb path "/ready" then health_reply (is_ready snapshot live_budget_ms) snapshot else
  not_found_reply.

(** [listen] binds the loopback names only; [bind] is the server's answer. *)
Definition listen (bind : string -> Z -> bool) (host : string) (port : Z) : bool :=
  if negb (String.eqb host "127.0.0.1") && negb (String.eqb host "::1") && negb (String.eqb host "localhost")
  then false else bind host port.

(** The state after the snapshots published, in order. *)
Definition published (l : list HealthSnapshot) : HealthState := foldl (fun h s => publish s h) (mkHealthState None) l.

Lemma latest_published l : latest (published l) = default fail_closed_default (last l).
Proof.
  unfold published. destruct l as [|s l _] using rev_ind; [done|].
  by rewrite foldl_app, last_snoc.
Qed.

(** A probe is answered from the last snapshot published, and from the closed
    default before the first: 200 on /healthz exactly if some snapshot was published
    and the last one has its heartbeat within a budget that is not negative and a
    sane clock, 200 on /ready exactly if in addition its replay was clean, its
    session healthy and its in-flight count not negative; so a process that is ready
    is live, a process that never published is neither, for any budget, and any
    other method or path is 404. *)
Theorem probes_exact l method path budget :
  let status p := reply_status (route "GET" p (published l) budget) in
  (status "/healthz" = kOk <-> exists s, last l = Some s /\ 0 <= heartbeat_age_ms s <= budget /\ clock_sane s = true) /\
  (status "/ready" = kOk <-> status "/healthz" = kOk /\ exists s, last l = Some s /\
     replay_clean s = true /\ session_state s = Healthy /\ 0 <= in_flight_count s) /\
  (status "/healthz" = kOk \/ status "/healthz" = kServiceUnavailable) /\
  (status "/ready" = kOk \/ status "/ready" = kServiceUnavailable) /\
  (reply_status (route method path (published l) budget) <> kNotFound <->
     method = "GET" /\ (path = "/healthz" \/ path = "/ready")).
Proof.
  assert (forall s, is_live s budget = true <-> 0 <= heartbeat_age_ms s <= budget /\ clock_sane s = true) as Hlive.
  { intros s. unfold is_live.
    destruct ((budget <? 0) || (heartbeat_age_ms s <? 0)) eqn:B; to_prop; [split; [done|lia]|].
    rewrite andb_true_iff, Z.leb_le. intuition lia. }
  assert (forall b s, reply_status (health_reply b s) = kOk <-> b = true) as Hk by (intros [] s; by split).
  cbv beta zeta. set (h := published l).
  change (route "GET" "/healthz" h budget) with (health_reply (is_live (latest h) budget) (latest h)).
  change (route "GET" "/ready" h budget) with (health_reply (is_ready (latest h) budget) (latest h)).
  subst h. rewrite !Hk, latest_published. split_and!.
  - rewrite Hlive. destruct (last l) as [s|]; simpl; [naive_solver|].
    split; [intros [_ H]; discriminate H|naive_solver].
  - unfold is_ready. rewrite !andb_true_iff, bool_decide_eq_true, Z.leb_le.
    destruct (last l) as [s|]; simpl; naive_solver.
  - by destruct (is_live _ _); [left|right].
  - by destruct (is_ready _ _); [left|right].
  - assert (forall b s, reply_status (health_reply b s) <> kNotFound) as Hn by (by intros []).
    unfold route. destruct (String.eqb_spec method "GET") as [->|Hm]; cbn [negb]; [|by split; [|intros [? _]]].
    destruct (String.eqb_spec path "/healthz") as [->|Hp]; [split; [by auto|done]|].
    destruct (String.eqb_spec path "/ready") as [->|Hr]; [split; [by auto|done]|].
    by split; [|intros [_ [|]]].
Qed.
End Router.
