(* ===== verification/Boot.v ===== *)
(** * Boot: the cold-boot sequence (src/src/boot/boot.cpp)

    The ten steps of [boot], each as the block of code that may return early, over
    the same world as the safe-start checks. What a step consults is a seam of
    [BootDeps]; the configuration, the account tree, the gate, the broker factory
    and the engine assembly are the models of their own files. *)

From S2P Require Import Prelude Errors Domain Engine Modes RejectReason Supervisor Health Config BrokerFactory.
From S2P Require Import AccountDir SafeStart BootChecks HealthSurface.

(** ** Data *)

Inductive ExitClass := ClassClean | ClassFailClosed | ClassCrash.

#[export] Instance ExitClass_eq_dec : EqDecision ExitClass.
Proof. solve_decision. Defined.

Definition kExitCrash : Z := 1.

Definition exit_class_to_string (c : ExitClass) : string :=
  match c with ClassClean => "clean" | ClassFailClosed => "fail-closed-needs-human" | ClassCrash => "crash" end.

Definition exit_code_for (c : ExitClass) : Z :=
  match c with
  | ClassClean => kExitClean
  | ClassFailClosed => kExitFailClosedNeedsHuman
  | ClassCrash => kExitCrash
  end.

Inductive BootStep :=
  | LoadConfig | ResolveDataDir | OpenLedger | EstablishSession | StepSafeStart | ComposeBroker
  | ComposeEngine | PublishHealth | StartHealthEndpoint | StepRun.

#[export] Instance BootStep_eq_dec : EqDecision BootStep.
Proof. solve_decision. Defined.

Definition step_to_string (s : BootStep) : string :=
  match s with
  | LoadConfig => "load-config"
  | ResolveDataDir => "resolve-data-dir"
  | OpenLedger => "open-ledger"
  | EstablishSession => "establish-session"
  | StepSafeStart => "safe-start"
  | ComposeBroker => "compose-broker"
  | ComposeEngine => "compose-engine"
  | PublishHealth => "publish-health"
  | StartHealthEndpoint => "start-health-endpoint"
  | StepRun => "run"
  end.

Definition exit_class_for (e : Error) : ExitClass :=
  match category e with
  | Transient | RateLimited | Network | Timeout => ClassCrash
  | _ => match action e with
         | RetrySafe | ReconcileFirst => ClassCrash
         | _ => ClassFailClosed
         end
  end.

Definition not_wired (what : string) : Error :=
  set_action BlockStrategy (make_error Internal ("boot: " +:+ what +:+ " was not wired") "").

Definition is_in_flight (o : Order) : bool :=
  match state o with Filled | Rejected | Cancelled => false | _ => true end.

Definition kLedgerPublicKeyFile : string := "ledger_public_key.hex".
Definition kNoTickYet : Z := int64_max.

(** What [fs::exists] answers: a verdict, or none when the probe itself failed. *)
Definition ledger_chain_present (exists_ : string -> option bool) (path : string) : result bool :=
  if String.eqb path "" then
    Err (blocking Internal "boot: no ledger chain path was resolved for this account") else
  match exists_ path with
  | None => Err (blocking Internal "boot: could not determine whether the ledger chain file exists. The account tree could not be probed, so this process refuses to assume there is no chain and start on an empty ledger")
  | Some present => Ok present
  end.

(** [unimplemented_run_phase()]. *)
Definition unimplemented_run_phase {W} : W -> result unit * W :=
  fun w => (Err (blocking Internal "boot: the trading run phase is not implemented. IMP-20 builds the process entrypoint and the cold-boot sequence ONLY; the synchronous main loop (dispatcher pumping, reconcile scheduling, market-data ingest) is a separate story and is deliberately NOT stubbed into a fake loop. The world was verified safe and the health surface is up; there is nothing yet to run"), w).

Record BootOutcome (W : Type) := mkOutcome {
  boot_ok : bool;
  boot_step : BootStep;
  exit_class : ExitClass;
  boot_error : option Error;
  out_config : Config;
  out_data_dir : option AccountDataDir;
  out_session : option SessionState;
  out_broker : option (BrokerAssembly W);
  out_engine : option EngineAssembly;
  health_published : bool;
  health_endpoint_started : bool;
  run_phase_entered : bool;
  absence_alarm_fired : bool;
  absence_alarm_delivered : bool;
}.
Arguments mkOutcome {W}.
Arguments boot_ok {W}.
Arguments boot_step {W}.
Arguments exit_class {W}.
Arguments boot_error {W}.
Arguments out_config {W}.
Arguments out_data_dir {W}.
Arguments out_session {W}.
Arguments out_broker {W}.
Arguments out_engine {W}.
Arguments health_published {W}.
Arguments health_endpoint_started {W}.
Arguments run_phase_entered {W}.
Arguments absence_alarm_fired {W}.
Arguments absence_alarm_delivered {W}.

Section Boot.
  Context {W : Type}.
  Abbreviation Outcome := (BootOutcome W).
  Abbreviation St := (BootState W).

(** The seams; a null pointer or an empty function is [None]. *)
Record LedgerPort := mkLedgerPort {
  ledger_load : W -> result unit * W;
  ledger_verify_chain : W -> result unit;
  verify_against_checkpoint : W -> list Z -> result unit;
}.

Record HealthPort := mkHealthPort {
  health_publish : HealthSnapshot -> W -> W;
  health_has_published : W -> bool;
}.

Record BootDeps := mkBootDeps {
  args : BootArgs;
  env : option EnvLookup;
  files : (W -> string -> bool) * (W -> string -> toml_table + string);
  clock : option (W -> (Z * Z) * W);
  clock_detector : bool;
  secrets : option (W -> string -> result string);
  alerts : option (AlertLevel -> string -> W -> result unit * W);
  projection : option (W -> result (list Order));
  ledger : option LedgerPort;
  key_files : W -> string -> key_file;
  instruments : option (RefdataPort W);
  calendar : option (RefdataPort W);
  health : option HealthPort;
  session_probe : option (W -> result SessionState * W);
  start_health_endpoint : option (W -> result unit * W);
  run_phase : option (W -> result unit * W);
  make_dir : string -> W -> bool * W;
  restrict_dir : string -> W -> bool * W;
  chain_present : option (W -> string -> result bool);
  chain_exists : W -> string -> option bool;
  broker_deps : BrokerDeps W;
  broker_options : BrokerOptions;
  engine_deps : EngineDeps;
  engine_options : EngineOptions;
  deps_replay_clean : bool;
}.

(** ** The outcome *)

Definition initial_outcome : Outcome :=
  mkOutcome false LoadConfig ClassCrash None default_config None None None None false false false false false.

Definition failed_outcome (step : BootStep) (c : ExitClass) (e : Error) (o : Outcome) : Outcome :=
  mkOutcome false step c (Some e) (out_config o) (out_data_dir o) (out_session o) (out_broker o) (out_engine o)
    (health_published o) (health_endpoint_started o) (run_phase_entered o) (absence_alarm_fired o)
    (absence_alarm_delivered o).
Definition alarmed (fired delivered : bool) (o : Outcome) : Outcome :=
  mkOutcome (boot_ok o) (boot_step o) (exit_class o) (boot_error o) (out_config o) (out_data_dir o) (out_session o)
    (out_broker o) (out_engine o) (health_published o) (health_endpoint_started o) (run_phase_entered o)
    fired delivered.
Definition with_config (cfg : Config) (o : Outcome) : Outcome :=
  mkOutcome (boot_ok o) (boot_step o) (exit_class o) (boot_error o) cfg (out_data_dir o) (out_session o)
    (out_broker o) (out_engine o) (health_published o) (health_endpoint_started o) (run_phase_entered o)
    (absence_alarm_fired o) (absence_alarm_delivered o).
Definition with_dir (d : AccountDataDir) (o : Outcome) : Outcome :=
  mkOutcome (boot_ok o) (boot_step o) (exit_class o) (boot_error o) (out_config o) (Some d) (out_session o)
    (out_broker o) (out_engine o) (health_published o) (health_endpoint_started o) (run_phase_entered o)
    (absence_alarm_fired o) (absence_alarm_delivered o).
Definition with_session (s : SessionState) (o : Outcome) : Outcome :=
  mkOutcome (boot_ok o) (boot_step o) (exit_class o) (boot_error o) (out_config o) (out_data_dir o) (Some s)
    (out_broker o) (out_engine o) (health_published o) (health_endpoint_started o) (run_phase_entered o)
    (absence_alarm_fired o) (absence_alarm_delivered o).
Definition with_broker (a : BrokerAssembly W) (o : Outcome) : Outcome :=
  mkOutcome (boot_ok o) (boot_step o) (exit_class o) (boot_error o) (out_config o) (out_data_dir o) (out_session o)
    (Some a) (out_engine o) (health_published o) (health_endpoint_started o) (run_phase_entered o)
    (absence_alarm_fired o) (absence_alarm_delivered o).
Definition with_engine (a : EngineAssembly) (o : Outcome) : Outcome :=
  mkOutcome (boot_ok o) (boot_step o) (exit_class o) (boot_error o) (out_config o) (out_data_dir o) (out_session o)
    (out_broker o) (Some a) (health_published o) (health_endpoint_started o) (run_phase_entered o)
    (absence_alarm_fired o) (absence_alarm_delivered o).
(** The three flags of the last steps. *)
Definition with_flags (published started entered : bool) (o : Outcome) : Outcome :=
  mkOutcome (boot_ok o) (boot_step o) (exit_class o) (boot_error o) (out_config o) (out_data_dir o) (out_session o)
    (out_broker o) (out_engine o) published started entered (absence_alarm_fired o) (absence_alarm_delivered o).
Definition finished (o : Outcome) : Outcome :=
  mkOutcome true StepRun ClassClean (boot_error o) (out_config o) (out_data_dir o) (out_session o) (out_broker o)
    (out_engine o) (health_published o) (health_endpoint_started o) (run_phase_entered o) (absence_alarm_fired o)
    (absence_alarm_delivered o).

(** ** Failing a step *)

Variable deps : BootDeps.

Definition absence_message (o : Outcome) (e : Error) : string :=
  "broker-exec FAILED CLOSED during boot at step '" +:+ step_to_string (boot_step o) +:+ "' for account '" +:+
  args_account_id (args deps) +:+ "'. Exit " +:+ pretty (exit_code_for (exit_class o)) +:+
  ": there will be NO automatic restart and this account is now ABSENT until a human intervenes. Reason: " +:+
  message e.

Definition fire_absence_alarm (e : Error) (o : Outcome) (s : St) : Outcome * St :=
  match alerts deps with
  | None => (alarmed true (absence_alarm_delivered o) o, s)
  | Some send =>
      let '(sent, s) := in_world (send AlertCritical (absence_message o e)) s in
      (alarmed true (is_ok sent) o, s)
  end.

Definition fail_step (step : BootStep) (c : ExitClass) (e : Error) (o : Outcome) (s : St) : Outcome * St :=
  let o := failed_outcome step c e o in
  if bool_decide (c = ClassFailClosed) then fire_absence_alarm e o s else (o, s).

(** A block either returns the outcome or falls through. *)
Definition Block := Outcome -> St -> (Outcome * St) + (Outcome * St).

Definition returns (r : Outcome * St) : (Outcome * St) + (Outcome * St) := inl r.
Definition continues (o : Outcome) (s : St) : (Outcome * St) + (Outcome * St) := inr (o, s).

Definition then_block (b1 b2 : Block) : Block := fun o s =>
  match b1 o s with inl r => inl r | inr (o, s) => b2 o s end.

(** ** The steps *)

Definition first_sample (s : St) : St :=
  match clock deps, clock_detector deps with
  | Some read_clock, true => (sample_clock read_clock s).2
  | _, _ => s
  end.

Definition load_config : Block := fun o s =>
  match env deps with
  | None => returns (fail_step LoadConfig ClassFailClosed (not_wired "the environment seam") o s)
  | Some e =>
      match load ((files deps).1 (world s)) ((files deps).2 (world s)) (config_path (args deps)) e with
      | Err err => returns (fail_step LoadConfig ClassFailClosed err o s)
      | Ok cfg => continues (with_config cfg o) s
      end
  end.

Definition resolve_data_dir : Block := fun o s =>
  match require_config_consistent (out_config o) (args deps) with
  | Err err => returns (fail_step ResolveDataDir ClassFailClosed err o s)
  | Ok _ =>
      match resolve_data_root (out_config o) (args deps) with
      | Err err => returns (fail_step ResolveDataDir ClassFailClosed err o s)
      | Ok root =>
          let account_id := if String.eqb (args_account_id (args deps)) ""
                            then cfg_account_id (Config.engine (out_config o))
                            else args_account_id (args deps) in
          match create root account_id with
          | Err err => returns (fail_step ResolveDataDir ClassFailClosed err o s)
          | Ok dir =>
              let o := with_dir dir o in
              match in_world (ensure (make_dir deps) (restrict_dir deps) dir) s with
              | (Err err, s) => returns (fail_step ResolveDataDir ClassCrash err o s)
              | (Ok _, s) => continues o s
              end
          end
      end
  end.

(** The directory is set by the step before. *)
Definition the_dir (o : Outcome) : AccountDataDir := default (mkAccountDir "" "" "") (out_data_dir o).

Definition pinned_path (o : Outcome) : string := path_join (dir_root (the_dir o)) kLedgerPublicKeyFile.

Definition open_ledger : Block := fun o s =>
  match ledger deps with
  | None => returns (fail_step OpenLedger ClassFailClosed (not_wired "the ledger") o s)
  | Some l =>
      match read_pinned_public_key (key_files deps (world s)) (pinned_path o) with
      | Err err => returns (fail_step OpenLedger ClassFailClosed err o s)
      | Ok pinned =>
          let path := account_file (the_dir o) LedgerFile in
          match (match chain_present deps with
                 | Some probe => probe (world s) path
                 | None => ledger_chain_present (chain_exists deps (world s)) path
                 end) with
          | Err err => returns (fail_step OpenLedger ClassCrash err o s)
          | Ok present =>
              let loaded :=
                if present then
                  match in_world (ledger_load l) s with
                  | (Err err, s) => (Err err, s)
                  | (Ok _, s) => (ledger_verify_chain l (world s), s)
                  end
                else (Ok tt, s) in
              match loaded with
              | (Err err, s) => returns (fail_step OpenLedger ClassFailClosed err o s)
              | (Ok _, s) =>
                  match verify_against_checkpoint l (world s) pinned with
                  | Err err => returns (fail_step OpenLedger ClassFailClosed err o s)
                  | Ok _ => continues o s
                  end
              end
          end
      end
  end.

Definition establish_session : Block := fun o s =>
  match session_probe deps with
  | None => returns (fail_step EstablishSession ClassFailClosed (not_wired "the broker session probe") o s)
  | Some probe =>
      match in_world probe s with
      | (Err err, s) => returns (fail_step EstablishSession (exit_class_for err) err o s)
      | (Ok st, s) =>
          let o := with_session st o in
          match session_state_to_result st with
          | Err err => returns (fail_step EstablishSession ClassFailClosed err o s)
          | Ok _ => continues o s
          end
      end
  end.

Definition boot_wiring (o : Outcome) : SafeStartWiring W :=
  mkWiring (Some (out_config o)) (Some (args deps)) (env deps) (files deps) (secrets deps)
    (token_key_secret_name (dir_account_id (the_dir o))) (pinned_path o) (key_files deps)
    (clock deps) (clock_detector deps) (session_probe deps) (instruments deps) (calendar deps) (projection deps).

Definition safe_start : Block := fun o s =>
  match verify (make_safe_start_context (boot_wiring o)) s with
  | (Err err, s) => returns (fail_step StepSafeStart ClassFailClosed err o s)
  | (Ok _, s) => continues o s
  end.

Definition compose_broker : Block := fun o s =>
  match make_broker (out_config o) (broker_deps deps) (broker_options deps) with
  | Err err => returns (fail_step ComposeBroker ClassFailClosed err o s)
  | Ok assembly =>
      match assert_production_posture assembly with
      | Err err => returns (fail_step ComposeBroker ClassFailClosed err o s)
      | Ok _ => continues (with_broker assembly o) s
      end
  end.

Definition compose_engine : Block := fun o s =>
  match make_engine (engine_deps deps) (engine_options deps) with
  | Err err => returns (fail_step ComposeEngine ClassFailClosed err o s)
  | Ok assembly => continues (with_engine assembly o) s
  end.

Definition count_in_flight (rows : list Order) : Z :=
  foldl (fun n o => if is_in_flight o then n + 1 else n) 0 rows.

Definition initial_snapshot (o : Outcome) (s : St) (in_flight : Z) : HealthSnapshot :=
  mkHealthSnapshot (default SessionFailed (out_session o)) 0 kNoTickYet in_flight
    (clock_detector deps && bool_decide (det_status (detector s) = ClockHealthy)) (deps_replay_clean deps).

Definition publish_health : Block := fun o s =>
  match health deps with
  | None => returns (fail_step PublishHealth ClassFailClosed (not_wired "the health state") o s)
  | Some h =>
      match (match projection deps with
             | None => Ok 0
             | Some all_orders => match all_orders (world s) with
                                  | Err err => Err err
                                  | Ok rows => Ok (count_in_flight rows)
                                  end
             end) with
      | Err err => returns (fail_step PublishHealth (exit_class_for err) err o s)
      | Ok in_flight =>
          let s := set_world (health_publish h (initial_snapshot o s in_flight) (world s)) s in
          let published := health_has_published h (world s) in
          let o := with_flags published (health_endpoint_started o) (run_phase_entered o) o in
          if negb published then
            returns (fail_step PublishHealth ClassCrash
              (blocking Internal "boot: the health state did not record the initial snapshot") o s)
          else continues o s
      end
  end.

Definition start_endpoint : Block := fun o s =>
  match start_health_endpoint deps with
  | None => returns (fail_step StartHealthEndpoint ClassFailClosed (not_wired "the health endpoint") o s)
  | Some start =>
      match in_world start s with
      | (Err err, s) => returns (fail_step StartHealthEndpoint (exit_class_for err) err o s)
      | (Ok _, s) => continues (with_flags (health_published o) true (run_phase_entered o) o) s
      end
  end.

Definition enter_run_phase : Block := fun o s =>
  match run_phase deps with
  | None => returns (fail_step StepRun ClassFailClosed (not_wired "the run phase") o s)
  | Some run =>
      let o := with_flags (health_published o) (health_endpoint_started o) true o in
      match in_world run s with
      | (Err err, s) => returns (fail_step StepRun (exit_class_for err) err o s)
      | (Ok _, s) => continues o s
      end
  end.

(** Everything before the run phase. *)
Definition preparation : Block :=
  then_block load_config
  (then_block resolve_data_dir
  (then_block open_ledger
  (then_block establish_session
  (then_block safe_start
  (then_block compose_broker
  (then_block compose_engine
  (then_block publish_health start_endpoint))))))).

Definition boot (s : St) : Outcome * St :=
  match then_block preparation enter_run_phase initial_outcome (first_sample s) with
  | inl r => r
  | inr (o, s) => (finished o, s)
  end.
End Boot.
Arguments BootDeps : clear implicits.

(** ** What a failed step leaves *)

Section Boot_lemmas.
  Context {W : Type} (deps : BootDeps W).

(** What every failing block guarantees of the outcome it returns. *)
Record failed_well (o o' : BootOutcome W) (step : BootStep) (c : ExitClass) : Prop := mkFailedWell {
  fw_ok : boot_ok o' = false;
  fw_step : boot_step o' = step;
  fw_class : exit_class o' = c;
  fw_error : is_Some (boot_error o');
  fw_alarm : absence_alarm_fired o' = absence_alarm_fired o || bool_decide (c = ClassFailClosed);
  fw_entered : run_phase_entered o' = run_phase_entered o;
}.

Lemma fail_step_well step c e o s o' s' :
  fail_step deps step c e o s = (o', s') -> failed_well o o' step c.
Proof.
  unfold fail_step, fire_absence_alarm. case_bool_decide as Hc.
  - destruct (alerts deps) as [send|].
    + destruct (in_world _ s) as [r s1]. intros [= <- _].
      split; simpl; try done. by rewrite bool_decide_true, orb_true_r.
    + intros [= <- _]. split; simpl; try done. by rewrite bool_decide_true, orb_true_r.
  - intros [= <- _]. split; simpl; try done. by rewrite bool_decide_false, orb_false_r.
Qed.

(** A block that returns does it through a failed step, of one of the steps and
    classes listed; one that continues leaves the flags listed alone. *)
Definition steady (o o' : BootOutcome W) : Prop :=
  absence_alarm_fired o' = absence_alarm_fired o /\ run_phase_entered o' = run_phase_entered o.

Definition block_ok (b : Block (W := W)) (may : BootStep -> ExitClass -> Prop) : Prop :=
  forall o s, match b o s with
              | inl (o', _) => exists o1 step c, steady o o1 /\ failed_well o1 o' step c /\ may step c
              | inr (o', _) => steady o o'
              end.

Lemma steady_refl o : steady o o.
Proof. done. Qed.

Lemma then_block_ok b1 b2 (may1 may2 : BootStep -> ExitClass -> Prop) :
  block_ok b1 may1 -> block_ok b2 may2 -> block_ok (then_block b1 b2) (fun st c => may1 st c \/ may2 st c).
Proof.
  intros H1 H2 o s. unfold then_block. specialize (H1 o s). destruct (b1 o s) as [[o1 s1]|[o1 s1]].
  - destruct H1 as (? & ? & ? & ? & ? & ?). eauto 8.
  - specialize (H2 o1 s1). destruct (b2 o1 s1) as [[o2 s2]|[o2 s2]].
    + destruct H2 as (o3 & st & c & [Ha Hb] & Hf & Hm). destruct H1 as [Ha1 Hb1].
      exists o3, st, c. split; [split; congruence|]. eauto.
    + destruct H1, H2. split; congruence.
Qed.

(** The exit class a step may fail with: only the steps whose trouble can be the
    machine's or the network's may crash. *)
Definition may_fail (step : BootStep) (c : ExitClass) : Prop :=
  c = ClassFailClosed \/
  (c = ClassCrash /\ step ∈ [ResolveDataDir; OpenLedger; EstablishSession; PublishHealth; StartHealthEndpoint; StepRun]).

Lemma may_class_for step e :
  step ∈ [ResolveDataDir; OpenLedger; EstablishSession; PublishHealth; StartHealthEndpoint; StepRun] ->
  may_fail step (exit_class_for e).
Proof. intros H. unfold may_fail, exit_class_for. destruct (category e), (action e); auto. Qed.

Ltac solve_block :=
  intros o s;
  let E := fresh "E" in
  match goal with |- match ?b with _ => _ end => destruct b as [[? ?]|[? ?]] eqn:E end;
  unfold returns, continues in E;
  repeat match goal with
    | H : _ = inl _ |- _ => split_match_in H; simplify_eq/=
    | H : _ = inr _ |- _ => split_match_in H; simplify_eq/=
    end; try done;
  match goal with F : fail_step _ _ _ _ _ _ = _ |- _ =>
    do 3 eexists; split; [|split; [by eapply fail_step_well, F|]]; [done|]
  end;
  first [by left | by right; split; [done|set_solver] | apply may_class_for; set_solver].

Lemma load_config_ok : block_ok (load_config deps) may_fail.
Proof. unfold load_config. solve_block. Qed.

Lemma resolve_data_dir_ok : block_ok (resolve_data_dir deps) may_fail.
Proof. unfold resolve_data_dir. cbv zeta. solve_block. Qed.

Lemma open_ledger_ok : block_ok (open_ledger deps) may_fail.
Proof. unfold open_ledger. cbv zeta. solve_block. Qed.

Lemma establish_session_ok : block_ok (establish_session deps) may_fail.
Proof. unfold establish_session. cbv zeta. solve_block. Qed.

Lemma safe_start_ok : block_ok (safe_start deps) may_fail.
Proof. unfold safe_start. solve_block. Qed.

Lemma compose_broker_ok : block_ok (compose_broker deps) may_fail.
Proof. unfold compose_broker. solve_block. Qed.

Lemma compose_engine_ok : block_ok (compose_engine deps) may_fail.
Proof. unfold compose_engine. solve_block. Qed.

Lemma publish_health_ok : block_ok (publish_health deps) may_fail.
Proof. unfold publish_health. cbv zeta. solve_block. Qed.

Lemma start_endpoint_ok : block_ok (start_endpoint deps) may_fail.
Proof. unfold start_endpoint. solve_block. Qed.

Lemma enter_run_phase_cases o s :
  match enter_run_phase deps o s with
  | inl (o', _) => (run_phase deps = None /\ failed_well o o' StepRun ClassFailClosed) \/
                   (is_Some (run_phase deps) /\ exists o1 c,
                     absence_alarm_fired o1 = absence_alarm_fired o /\ run_phase_entered o1 = true /\
                     failed_well o1 o' StepRun c /\ may_fail StepRun c)
  | inr (o', _) => is_Some (run_phase deps) /\ absence_alarm_fired o' = absence_alarm_fired o /\
                   run_phase_entered o' = true
  end.
Proof.
  unfold enter_run_phase, returns, continues. destruct (run_phase deps) as [run|].
  - destruct (in_world run s) as [[[]|e] s1]; [done|].
    destruct (fail_step deps StepRun _ e _ s1) as [o' s'] eqn:F. right. split; [done|].
    eexists _, _. split; [|split; [|split; [by eapply fail_step_well|]]]; [done..|].
    apply may_class_for. set_solver.
  - destruct (fail_step deps StepRun _ _ o s) as [o' s'] eqn:F. left. split; [done|]. by eapply fail_step_well.
Qed.

Lemma preparation_ok : block_ok (preparation deps) may_fail.
Proof.
  intros o s.
  pose proof (then_block_ok _ _ _ _ load_config_ok (then_block_ok _ _ _ _ resolve_data_dir_ok
    (then_block_ok _ _ _ _ open_ledger_ok (then_block_ok _ _ _ _ establish_session_ok
    (then_block_ok _ _ _ _ safe_start_ok (then_block_ok _ _ _ _ compose_broker_ok
    (then_block_ok _ _ _ _ compose_engine_ok (then_block_ok _ _ _ _ publish_health_ok start_endpoint_ok))))))) o s) as H.
  unfold preparation. destruct (then_block (load_config deps) _ o s) as [[o' s']|[o' s']]; [|done].
  destruct H as (o1 & st & c & Hs & Hf & Hm). exists o1, st, c. split; [done|]. split; [done|]. tauto.
Qed.

(** The successful preparation, step by step: each premise is what one step asked
    of the world the step before left. *)
Inductive prepared (s : BootState W) : BootOutcome W -> BootState W -> Prop :=
  | prepared_intro e cfg root dir s1 port pinned present s2 probe s3 s4 assembly eng h in_flight s5 start s6
      (s0 := first_sample deps s)
      (account := if String.eqb (args_account_id (args deps)) "" then cfg_account_id (Config.engine cfg)
                  else args_account_id (args deps))
      (o1 := with_dir dir (with_config cfg initial_outcome))
      (o3 := with_session Healthy o1)
      (o5 := with_engine eng (with_broker assembly o3)) :
      (* load-config *)
      env deps = Some e ->
      load ((files deps).1 (world s0)) ((files deps).2 (world s0)) (config_path (args deps)) e = Ok cfg ->
      (* resolve-data-dir *)
      require_config_consistent cfg (args deps) = Ok tt ->
      resolve_data_root cfg (args deps) = Ok root ->
      create root account = Ok dir ->
      in_world (ensure (make_dir deps) (restrict_dir deps) dir) s0 = (Ok tt, s1) ->
      (* open-ledger *)
      ledger deps = Some port ->
      read_pinned_public_key (key_files deps (world s1)) (path_join (dir_root dir) kLedgerPublicKeyFile) = Ok pinned ->
      (match chain_present deps with
       | Some p => p (world s1) (account_file dir LedgerFile)
       | None => ledger_chain_present (chain_exists deps (world s1)) (account_file dir LedgerFile)
       end) = Ok present ->
      (if present then in_world (ledger_load port) s1 = (Ok tt, s2) /\ ledger_verify_chain port (world s2) = Ok tt
       else s2 = s1) ->
      verify_against_checkpoint port (world s2) pinned = Ok tt ->
      (* establish-session *)
      session_probe deps = Some probe ->
      in_world probe s2 = (Ok Healthy, s3) ->
      (* safe-start *)
      all_pass (checks (make_safe_start_context (boot_wiring deps o3))) s3 s4 ->
      (* compose-broker, compose-engine *)
      make_broker cfg (broker_deps deps) (broker_options deps) = Ok assembly ->
      assert_production_posture assembly = Ok tt ->
      make_engine (engine_deps deps) (engine_options deps) = Ok eng ->
      (* publish-health *)
      health deps = Some h ->
      (match projection deps with
       | None => Ok 0
       | Some rows => match rows (world s4) with Err err => Err err | Ok r => Ok (count_in_flight r) end
       end) = Ok in_flight ->
      s5 = set_world (health_publish h (initial_snapshot deps o5 s4 in_flight) (world s4)) s4 ->
      health_has_published h (world s5) = true ->
      (* start-health-endpoint *)
      start_health_endpoint deps = Some start ->
      in_world start s5 = (Ok tt, s6) ->
      prepared s (with_flags true true false o5) s6.

Lemma prepared_runs s o s' : prepared s o s' ->
  preparation deps initial_outcome (first_sample deps s) = inr (o, s').
Proof.
  intros [e cfg root dir s1 port pinned present s2 probe s3 s4 assembly eng h in_flight s5 start s6
    s0 account o1 o3 o5 He Hl Hc Hr Hd Hm Hlp Hk Hp Hload Hv Hsp Hsess Hgate Hb Hpost Heng Hh Hrows Hs5 Hpub Hst Hstart].
  unfold preparation, then_block at 1, load_config, continues. rewrite He. fold s0. rewrite Hl.
  unfold then_block at 1, resolve_data_dir, continues. cbn [out_config with_config]. cbv zeta.
  rewrite Hc, Hr. fold account. rewrite Hd, Hm.
  unfold then_block at 1, open_ledger, continues. rewrite Hlp. unfold pinned_path, the_dir.
  cbn [out_data_dir with_dir default from_option id]. rewrite Hk. cbv zeta. rewrite Hp.
  assert ((if present then match in_world (ledger_load port) s1 with
                           | (Err err, s) => (Err err, s)
                           | (Ok _, s) => (ledger_verify_chain port (world s), s)
                           end else (Ok tt, s1)) = (Ok tt, s2)) as ->
    by (destruct present; [destruct Hload as [-> ->]|subst]; done).
  rewrite Hv.
  unfold then_block at 1, establish_session, continues. rewrite Hsp, Hsess. cbn [session_state_to_result].
  unfold then_block at 1, safe_start, continues, verify. fold o1. cbv zeta. fold o3.
  rewrite (proj2 (run_checks_ok _ _ _) Hgate).
  unfold then_block at 1, compose_broker, continues. cbn [out_config with_session with_dir with_config o3 o1].
  rewrite Hb, Hpost. unfold then_block at 1, compose_engine, continues. rewrite Heng.
  unfold then_block at 1, publish_health, continues. rewrite Hh, Hrows. cbv zeta. fold o5. rewrite <- Hs5, Hpub.
  cbn [negb]. unfold start_endpoint, continues. by rewrite Hst, Hstart.
Qed.

(** *** A preparation that goes through was prepared *)

Lemma then_block_inr (b1 b2 : Block (W := W)) o s r :
  then_block b1 b2 o s = inr r <-> exists o1 s1, b1 o s = inr (o1, s1) /\ b2 o1 s1 = inr r.
Proof. unfold then_block. destruct (b1 o s) as [?|[o1 s1]]; naive_solver. Qed.

(** Follow one block down the branch that continues. *)
Ltac passed H :=
  unfold returns, continues in H; cbv zeta in H;
  repeat match type of H with
    | context [match ?x with _ => _ end] => destruct x eqn:?; try discriminate H
    end;
  simplify_eq H; clear H; intros; subst;
  repeat match goal with u : unit |- _ => destruct u end.

Lemma load_config_inr o s o' s' : load_config deps o s = inr (o', s') ->
  exists e cfg, env deps = Some e /\
    load ((files deps).1 (world s)) ((files deps).2 (world s)) (config_path (args deps)) e = Ok cfg /\
    o' = with_config cfg o /\ s' = s.
Proof. unfold load_config. intros H. passed H. eauto 6. Qed.

Lemma resolve_data_dir_inr o s o' s' : resolve_data_dir deps o s = inr (o', s') ->
  exists root dir, require_config_consistent (out_config o) (args deps) = Ok tt /\
    resolve_data_root (out_config o) (args deps) = Ok root /\
    create root (if String.eqb (args_account_id (args deps)) "" then cfg_account_id (Config.engine (out_config o))
                 else args_account_id (args deps)) = Ok dir /\
    in_world (ensure (make_dir deps) (restrict_dir deps) dir) s = (Ok tt, s') /\ o' = with_dir dir o.
Proof. unfold resolve_data_dir. intros H. passed H. eauto 8. Qed.

Lemma open_ledger_inr o s o' s' : open_ledger deps o s = inr (o', s') ->
  exists port pinned present, ledger deps = Some port /\
    read_pinned_public_key (key_files deps (world s)) (pinned_path o) = Ok pinned /\
    (match chain_present deps with
     | Some p => p (world s) (account_file (the_dir o) LedgerFile)
     | None => ledger_chain_present (chain_exists deps (world s)) (account_file (the_dir o) LedgerFile)
     end) = Ok present /\
    (if present then in_world (ledger_load port) s = (Ok tt, s') /\ ledger_verify_chain port (world s') = Ok tt
     else s' = s) /\
    verify_against_checkpoint port (world s') pinned = Ok tt /\ o' = o.
Proof.
  unfold open_ledger, returns, continues. cbv zeta. intros H.
  destruct (ledger deps) as [port|]; [|done].
  destruct (read_pinned_public_key _ _) as [pinned|] eqn:Hk; [|done].
  destruct (match chain_present deps with Some _ => _ | None => _ end) as [present|] eqn:Hp; [|done].
  exists port, pinned, present. destruct present.
  - destruct (in_world (ledger_load port) s) as [[[]|] s1]; [|done].
    destruct (ledger_verify_chain port (world s1)) as [[]|] eqn:Hv; [|done].
    destruct (verify_against_checkpoint port (world s1) pinned) as [[]|] eqn:Hc; [|done]. by simplify_eq.
  - destruct (verify_against_checkpoint port (world s) pinned) as [[]|] eqn:Hc; [|done]. by simplify_eq.
Qed.

Lemma establish_session_inr o s o' s' : establish_session deps o s = inr (o', s') ->
  exists probe, session_probe deps = Some probe /\ in_world probe s = (Ok Healthy, s') /\ o' = with_session Healthy o.
Proof. unfold establish_session. intros H. passed H. destruct a; simplify_eq/=. eauto. Qed.

Lemma safe_start_inr o s o' s' : safe_start deps o s = inr (o', s') ->
  all_pass (checks (make_safe_start_context (boot_wiring deps o))) s s' /\ o' = o.
Proof. unfold safe_start, verify. intros H. passed H. split; [by apply run_checks_ok|done]. Qed.

Lemma compose_broker_inr o s o' s' : compose_broker deps o s = inr (o', s') ->
  exists assembly, make_broker (out_config o) (broker_deps deps) (broker_options deps) = Ok assembly /\
    assert_production_posture assembly = Ok tt /\ o' = with_broker assembly o /\ s' = s.
Proof. unfold compose_broker. intros H. passed H. eauto. Qed.

Lemma compose_engine_inr o s o' s' : compose_engine deps o s = inr (o', s') ->
  exists eng, make_engine (engine_deps deps) (engine_options deps) = Ok eng /\ o' = with_engine eng o /\ s' = s.
Proof. unfold compose_engine. intros H. passed H. eauto. Qed.

Lemma publish_health_inr o s o' s' : publish_health deps o s = inr (o', s') ->
  exists h in_flight, health deps = Some h /\
    (match projection deps with
     | None => Ok 0
     | Some rows => match rows (world s) with Err err => Err err | Ok r => Ok (count_in_flight r) end
     end) = Ok in_flight /\
    s' = set_world (health_publish h (initial_snapshot deps o s in_flight) (world s)) s /\
    health_has_published h (world s') = true /\
    o' = with_flags true (health_endpoint_started o) (run_phase_entered o) o.
Proof.
  unfold publish_health, returns, continues. cbv zeta. intros H. destruct (health deps) as [h|]; [|done].
  destruct (match projection deps with Some _ => _ | None => _ end) as [n|] eqn:Hn; [|done].
  destruct (health_has_published _ _) eqn:Hp; cbn [negb] in H; [|done]. simplify_eq. eauto 8.
Qed.

Lemma start_endpoint_inr o s o' s' : start_endpoint deps o s = inr (o', s') ->
  exists start, start_health_endpoint deps = Some start /\ in_world start s = (Ok tt, s') /\
    o' = with_flags (health_published o) true (run_phase_entered o) o.
Proof. unfold start_endpoint. intros H. passed H. eauto. Qed.

Lemma prepared_exact s o s' :
  preparation deps initial_outcome (first_sample deps s) = inr (o, s') <-> prepared s o s'.
Proof.
  split; [|apply prepared_runs]. unfold preparation. intros H.
  apply then_block_inr in H as (? & ? & (e & cfg & ? & ? & -> & ->)%load_config_inr & Ha).
  apply then_block_inr in Ha as (? & ? & (root & dir & ? & ? & ? & ? & ->)%resolve_data_dir_inr & Hb).
  apply then_block_inr in Hb as (? & ? & (port & pinned & present & ? & ? & ? & ? & ? & ->)%open_ledger_inr & Hc).
  apply then_block_inr in Hc as (? & ? & (probe & ? & ? & ->)%establish_session_inr & Hd).
  apply then_block_inr in Hd as (? & ? & [? ->]%safe_start_inr & He).
  apply then_block_inr in He as (? & ? & (assembly & ? & ? & -> & ->)%compose_broker_inr & Hf).
  apply then_block_inr in Hf as (? & ? & (eng & ? & -> & ->)%compose_engine_inr & Hg).
  apply then_block_inr in Hg as (? & ? & (h & n & ? & ? & -> & ? & ->)%publish_health_inr & Hh).
  apply start_endpoint_inr in Hh as (start & ? & ? & ->).
  by eapply prepared_intro.
Qed.
End Boot_lemmas.

(** ** The boot, as a whole *)

Section Boot_whole.
  Context {W : Type}.

Definition with_run_phase (f : option (W -> result unit * W)) (d : BootDeps W) : BootDeps W :=
  mkBootDeps (args d) (env d) (files d) (clock d) (clock_detector d) (secrets d) (alerts d) (projection d) (ledger d)
    (key_files d) (instruments d) (calendar d) (health d) (session_probe d) (start_health_endpoint d) f
    (make_dir d) (restrict_dir d) (chain_present d) (chain_exists d) (broker_deps d) (broker_options d)
    (engine_deps d) (engine_options d) (deps_replay_clean d).

Lemma preparation_run_phase (d : BootDeps W) f : preparation (with_run_phase f d) = preparation d.
Proof. reflexivity. Qed.

(** The flags of the outcome, from those of the two halves. *)
Lemma boot_cases (d : BootDeps W) (s : BootState W) :
  match preparation d initial_outcome (first_sample d s) with
  | inl (o, s') => boot d s = (o, s') /\ exists step c, failed_well (initial_outcome (W := W)) o step c /\ may_fail step c
  | inr (o, s') =>
      absence_alarm_fired o = false /\ run_phase_entered o = false /\
      (run_phase d = None -> run_phase_entered (boot d s).1 = false /\
         failed_well (initial_outcome (W := W)) (boot d s).1 StepRun ClassFailClosed) /\
      (is_Some (run_phase d) -> run_phase_entered (boot d s).1 = true /\
         ((boot_ok (boot d s).1 = true /\ boot_step (boot d s).1 = StepRun /\ exit_class (boot d s).1 = ClassClean /\
           absence_alarm_fired (boot d s).1 = false) \/
          exists o1 c, absence_alarm_fired o1 = false /\ failed_well o1 (boot d s).1 StepRun c /\ may_fail StepRun c))
  end.
Proof.
  unfold boot, then_block. pose proof (preparation_ok d initial_outcome (first_sample d s)) as H.
  destruct (preparation d initial_outcome (first_sample d s)) as [[o s']|[o s']].
  - destruct H as (o1 & st & c & [Ha He] & [? ? ? ? Hal Hen] & Hm). split; [done|]. exists st, c.
    split; [|done]. split; try done; [by rewrite Hal, Ha|by rewrite Hen, He].
  - destruct H as [Ha He]. simpl in Ha, He. split; [done|]. split; [done|].
    pose proof (enter_run_phase_cases d o s') as R.
    destruct (enter_run_phase d o s') as [[o' s'']|[o' s'']]; simpl.
    + destruct R as [[HN [? ? ? ? Hal Hen]]|[HS (o1 & c & Ha1 & He1 & Hf & Hm)]].
      * split; [intros _; split; [congruence|]; split; try done; [by rewrite Hal, Ha|by rewrite Hen, He]|].
        intros [f Hf]. congruence.
      * split; [intros HN; rewrite HN in HS; by destruct HS|]. intros _. destruct Hf.
        split; [congruence|]. right. exists o1, c. split; [congruence|]. by split.
    + destruct R as (HS & Ha2 & He2). split; [intros HN; rewrite HN in HS; by destruct HS|]. intros _.
      split; [done|]. left. split_and!; try done. congruence.
Qed.

(** C7: The run phase is entered exactly when it is wired and the whole preparation
    went through, each step on the world the step before left: configuration loaded
    and consistent with the arguments, data directory resolved and created, ledger
    loaded, verified and anchored to the pinned key, session healthy, all ten
    safe-start checks passed, broker composed on its certified profile, engine
    assembled, health published and served. If it was not entered, no trading code
    can have run: every other run phase in its place gives the same outcome and the
    same world. *)
Theorem run_phase_gated (d : BootDeps W) s :
  (run_phase_entered (boot d s).1 = true <-> is_Some (run_phase d) /\ exists o s', prepared d s o s') /\
  (run_phase_entered (boot d s).1 = false -> is_Some (run_phase d) ->
     forall f, boot (with_run_phase (Some f) d) s = boot d s).
Proof.
  pose proof (boot_cases d s) as H. pose proof (prepared_exact d s) as P. split.
  - destruct (preparation d initial_outcome (first_sample d s)) as [[o s']|[o s']].
    + destruct H as (-> & st & c & [? ? ? ? _ He] & _). simpl in *. split; [congruence|].
      intros (_ & o' & s'' & Hp). by apply P in Hp.
    + destruct H as (_ & _ & HN & HS). destruct (run_phase d) as [f|].
      * split; [|by intros _; apply HS]. intros _. split; [by eexists|]. exists o, s'. by apply P.
      * split; [|by intros [[] _]]. destruct HN as [HN _]; [done|]. congruence.
  - intros He HS f.
    destruct (preparation d initial_outcome (first_sample d s)) as [[o s']|[o s']] eqn:E.
    + destruct H as [-> _]. unfold boot, then_block. rewrite preparation_run_phase. simpl.
      change (first_sample (with_run_phase (Some f) d) s) with (first_sample d s). by rewrite E.
    + destruct H as (_ & _ & _ & H). destruct (H HS) as [Ht _]. congruence.
Qed.

(** How a boot ends, and what the supervisor then does. It succeeds exactly when
    it ends Clean, in the run phase; otherwise it reports an error and its step, and
    the absence alarm is raised exactly when it fails closed, whichever step it was.
    Only the steps whose trouble can be the machine's, the network's or the run
    phase's own may end as a crash: a wrong configuration, a failed safe-start check
    or a refused composition never does. Through its exit code the supervisor never
    restarts a boot that failed closed, and restarts one that crashed until the
    crash-loop bound. *)
Theorem boot_exit (d : BootDeps W) s (cfg : BackoffConfig) crashes :
  let out := (boot d s).1 in
  (boot_ok out = true <-> exit_class out = ClassClean) /\
  (boot_ok out = true -> boot_step out = StepRun /\ run_phase_entered out = true) /\
  (boot_ok out = false -> is_Some (boot_error out)) /\
  (absence_alarm_fired out = true <-> exit_class out = ClassFailClosed) /\
  (boot_step out ∈ [LoadConfig; StepSafeStart; ComposeBroker; ComposeEngine] -> exit_class out = ClassFailClosed) /\
  sd_action (decide (exit_reason_from_code (exit_code_for (exit_class out))) crashes cfg) =
    match exit_class out with
    | ClassClean => NoRestartCleanShutdown
    | ClassFailClosed => NoRestartEscalate
    | ClassCrash => if max_consecutive_restarts cfg <? crashes then NoRestartEscalate else RestartWithBackoff
    end.
Proof.
  cbv zeta. pose proof (boot_cases d s) as H.
  assert (forall o o' st c, absence_alarm_fired o = false -> failed_well (W := W) o o' st c -> may_fail st c ->
    (boot_ok o' = true <-> exit_class o' = ClassClean) /\
    (boot_ok o' = true -> boot_step o' = StepRun /\ run_phase_entered o' = true) /\
    (boot_ok o' = false -> is_Some (boot_error o')) /\
    (absence_alarm_fired o' = true <-> exit_class o' = ClassFailClosed) /\
    (boot_step o' ∈ [LoadConfig; StepSafeStart; ComposeBroker; ComposeEngine] -> exit_class o' = ClassFailClosed))
    as Hfail.
  { intros o o' st c Ho [Hk Hst Hc Her Hal _] Hm. rewrite Hk, Hc, Hst, Hal, Ho. simpl.
    rewrite bool_decide_eq_true. split_and!; try done.
    - split; [done|]. intros ->. destruct Hm as [?|[? _]]; done.
    - destruct Hm as [->|[-> Hin]]; [done|]. intros Hin'. exfalso.
      apply (bool_decide_pack _) in Hin, Hin'. by destruct st. }
  assert (forall c, sd_action (decide (exit_reason_from_code (exit_code_for c)) crashes cfg) =
    match c with
    | ClassClean => NoRestartCleanShutdown
    | ClassFailClosed => NoRestartEscalate
    | ClassCrash => if max_consecutive_restarts cfg <? crashes then NoRestartEscalate else RestartWithBackoff
    end) as Hsup by (intros []; simpl; try done; by destruct (_ <? _)).
  rewrite Hsup. clear Hsup.
  destruct (preparation d initial_outcome (first_sample d s)) as [[o s']|[o s']].
  - destruct H as (-> & st & c & Hf & Hm). simpl.
    destruct (Hfail initial_outcome o st c) as (H1 & H2 & H3 & H4 & H5); [done..|]. by split_and!.
  - destruct H as (_ & _ & HN & HS). destruct (run_phase d) as [f|].
    + destruct HS as [He [(Hk & Hst & Hc & Ha)|(o1 & c & Ha & Hf & Hm)]]; [by eexists|..].
      * rewrite Hk, Hst, Hc, Ha. split_and!; try done. intros Hin.
        repeat (apply elem_of_cons in Hin as [Hin|Hin]; [done|]). by apply not_elem_of_nil in Hin.
      * destruct (Hfail o1 (boot d s).1 StepRun c) as (H1 & H2 & H3 & H4 & H5); [done..|]. by split_and!.
    + destruct HN as [_ Hf]; [done|].
      destruct (Hfail initial_outcome (boot d s).1 StepRun ClassFailClosed) as (H1 & H2 & H3 & H4 & H5); [done|done|by left|].
      by split_and!.
Qed.
End Boot_whole.
