(* ===== verification/WireJson.v ===== *)
(** * WireJson: broker payloads as JSON values

    The values nlohmann::json hands the adapters, the lookups the adapters make,
    and the exit references of include/broker_exec/adapters/square_off_exit.hpp.
    Parsing a body into a value and dumping one are the library's. *)

From S2P Require Import Prelude Errors Domain Decimal.

(** A number is an integer, kept with its sign as nlohmann's signed or unsigned
    kind, or a float, kept as the text it dumps to. *)
Inductive json :=
  | JNull
  | JBool (b : bool)
  | JInt (z : Z)
  | JFloat (text : string)
  | JString (s : string)
  | JArray (elements : list json)
  | JObject (fields : list (string * json)).

Fixpoint field_get (fields : list (string * json)) (key : string) : option json :=
  match fields with
  | [] => None
  | (k, v) :: rest => if String.eqb k key then Some v else field_get rest key
  end.

(** Assigning a key of an object, which keeps its keys in byte order. *)
Fixpoint put_field (fields : list (string * json)) (key : string) (v : json) : list (string * json) :=
  match fields with
  | [] => [(key, v)]
  | (k, w) :: rest =>
      if String.eqb key k then (k, v) :: rest
      else if String.ltb key k then (key, v) :: (k, w) :: rest
      else (k, w) :: put_field rest key v
  end.

Lemma field_get_put fields key v k :
  field_get (put_field fields key v) k = if String.eqb key k then Some v else field_get fields k.
Proof.
  induction fields as [|[k0 w] fields IH]; cbn [put_field field_get]; [done|].
  destruct (String.eqb_spec key k0) as [->|Hk]; cbn [field_get]; [by destruct (String.eqb k0 k)|].
  destruct (String.ltb key k0); cbn [field_get]; [done|]. rewrite IH.
  destruct (String.eqb_spec k0 k) as [->|]; [|done]. by rewrite (proj2 (String.eqb_neq key k) Hk).
Qed.

(** [find]: nothing in a value that is not an object. *)
Definition find_key (j : json) (key : string) : option json :=
  match j with JObject fields => field_get fields key | _ => None end.

Definition is_object (j : json) : bool := match j with JObject _ => true | _ => false end.

(** The text [dump] gives a number. *)
Definition number_text (j : json) : option string :=
  match j with JInt z => Some (pretty z) | JFloat text => Some text | _ => None end.

(** A text field: strings as they are, numbers by their text, the rest empty. *)
Definition json_str (obj : json) (key : string) : string :=
  match find_key obj key with
  | Some (JString s) => s
  | Some v => default "" (number_text v)
  | None => ""
  end.

(** ** Exit references (square_off_exit.hpp) *)

Definition kExitRefSuffix : string := "#X".

Definition exit_client_ref (parent_anchor : string) : string :=
  if String.eqb parent_anchor "" then "" else parent_anchor +:+ kExitRefSuffix.

Definition is_exit_ref (r : string) : bool :=
  (String.length kExitRefSuffix <? String.length r)%nat &&
  bool_decide (drop (String.length r - String.length kExitRefSuffix) (chars r) = chars kExitRefSuffix).

(** An exit's reference is recognised, and names its anchor. *)
Lemma exit_ref_recognised a : a <> "" -> is_exit_ref (exit_client_ref a) = true.
Proof.
  intros Ha. unfold exit_client_ref, is_exit_ref. destruct (String.eqb_spec a ""); [done|].
  rewrite str_length_app, chars_app. change (String.length kExitRefSuffix) with 2%nat.
  rewrite Nat.add_sub, <- chars_length, drop_app_length, bool_decide_true, andb_true_r by done.
  apply Nat.ltb_lt. destruct a; [done|]. simpl. lia.
Qed.
