(* ===== verification/KiteAdapter.v ===== *)
(** * KiteAdapter: the Kite broker adapter
    (src/src/adapters/kite/kite_broker_adapter.cpp)

    Field readers, mappings, correlation tags, the order operations with the
    flatten, and the four reads. The REST client is a seam: what it answers to a
    call may depend on every call made before, so that the broker, its faults and
    other processes are all within it. *)

From S2P Require Import Prelude Errors Domain Decimal Risk FillNorm Dispatcher WireJson.

(** ** Field readers: absent, parsed or garbage *)

(** A value with the [malformed] flag its reading raises. *)
Definition reading (A : Type) : Type := A * bool.

Definition numeric_text (obj : json) (key : string) : reading (option string) :=
  match find_key obj key with
  | None | Some JNull => (None, false)
  | Some (JString "") => (None, false)
  | Some (JString text) => (Some text, false)
  | Some v => match number_text v with Some text => (Some text, false) | None => (None, true) end
  end.

Definition json_paise_opt (obj : json) (key : string) : reading (option Z) :=
  match numeric_text obj key with
  | (None, bad) => (None, bad)
  | (Some text, bad) => match parse_decimal_paise text with
                        | Some paise => (Some paise, bad)
                        | None => (None, true)
                        end
  end.

Definition json_paise (obj : json) (key : string) : reading Z :=
  let '(v, bad) := json_paise_opt obj key in (default 0 v, bad).

Definition json_int_opt (obj : json) (key : string) : reading (option Z) :=
  match numeric_text obj key with
  | (None, bad) => (None, bad)
  | (Some text, bad) =>
      match parse_int64 text with
      | Some v => (Some v, bad)
      | None =>
          match parse_decimal_paise text with
          | Some paise => if Z.rem paise 100 =? 0 then (Some (Z.quot paise 100), bad) else (None, true)
          | None => (None, true)
          end
      end
  end.

Definition json_int (obj : json) (key : string) : reading Z :=
  let '(v, bad) := json_int_opt obj key in (default 0 v, bad).

Definition json_trigger_paise (obj : json) (key : string) : reading (option Z) :=
  let '(v, bad) := json_paise_opt obj key in
  (match v with Some paise => if 0 <? paise then Some paise else None | None => None end, bad).

(** ** Correlation tags *)

Definition kOrderTagPrefix : string := "be".
Definition kExitTagPrefix : string := "bx".
Definition kHashedTagLength : nat := 18.

(** FNV-1a at 64 bits. *)
Definition fnv_step (h : Z) (c : ascii) : Z :=
  to_u64 (Z.lxor h (Z.of_nat (nat_of_ascii c)) * 1099511628211).

Definition fnv (material : string) : Z := foldl fnv_step 1469598103934665603 (chars material).

Definition hex_char (d : Z) : ascii :=
  if d <? 10 then ascii_of_nat (Z.to_nat (48 + d)) else ascii_of_nat (Z.to_nat (97 + (d - 10))).

(** The 16 hex digits, from the shift 60 down to 0. *)
Definition hex_digits (h : Z) : list ascii :=
  (fun shift => hex_char (Z.land (Z.shiftr h shift) 15)) <$> [60; 56; 52; 48; 44; 40; 36; 32; 28; 24; 20; 16; 12; 8; 4; 0].

Definition hashed_tag (prefix material : string) : string := prefix +:+ str (hex_digits (fnv material)).

Definition short_tag (client_ref : string) : string := hashed_tag kOrderTagPrefix client_ref.

Definition exit_tag_for (parent_broker_order_id : string) : string :=
  hashed_tag kExitTagPrefix ("square-off-exit:" +:+ parent_broker_order_id).

Definition is_exit_tag (tag : string) : bool :=
  (String.length tag =? kHashedTagLength)%nat &&
  bool_decide (take (String.length kExitTagPrefix) (chars tag) = chars kExitTagPrefix).

(** ** Errors *)

Definition reconcile_first_error (msg code : string) : Error :=
  set_action ReconcileFirst (make_error CatUnknown msg code).

Definition unreadable_payload_error (msg code : string) : Error :=
  set_action ReconcileFirst (make_error DataStale msg code).

Definition alert_error (c : ErrorCategory) (msg code : string) : Error :=
  set_action RaiseAlert (make_error c msg code).

(** ** Mappings *)

Definition kite_transaction_type (s : Side) : string := match s with Sell => "SELL" | Buy => "BUY" end.

Definition kite_order_type (t : OrderType) : string :=
  match t with Market => "MARKET" | Limit => "LIMIT" | StopLoss => "SL" | StopLossMarket => "SL-M" end.

Definition parse_order_type (text : string) : OrderType :=
  if String.eqb text "LIMIT" then Limit else
  if String.eqb text "SL" then StopLoss else
  if String.eqb text "SL-M" then StopLossMarket else Market.

Definition kite_product (p : Product) : string :=
  match p with Intraday => "MIS" | Delivery => "CNC" | Margin | Normal => "NRML" end.

Definition ends_with (s suffix : string) : bool :=
  (String.length suffix <=? String.length s)%nat &&
  bool_decide (drop (String.length s - String.length suffix) (chars s) = chars suffix).

Definition infer_exchange (symbol : string) : string :=
  let derivative_suffix := ends_with symbol "FUT" || ends_with symbol "CE" || ends_with symbol "PE" in
  let carries_expiry_digits := existsb is_ascii_digit (chars symbol) in
  if derivative_suffix && carries_expiry_digits then "NFO" else "NSE".

Definition map_status (status : string) : OrderState :=
  if String.eqb status "COMPLETE" then Filled else
  if String.eqb status "REJECTED" then Rejected else
  if String.eqb status "CANCELLED" || String.eqb status "CANCELLED AMO" then Cancelled else
  if String.eqb status "OPEN" || String.eqb status "TRIGGER PENDING" || String.eqb status "OPEN PENDING" ||
     String.eqb status "VALIDATION PENDING" || String.eqb status "PUT ORDER REQ RECEIVED" ||
     String.eqb status "MODIFY PENDING" || String.eqb status "MODIFY VALIDATION PENDING"
  then Sent else Unknown.

(** ** Order parameters *)

Abbreviation params := (gmap string json).

Definition build_place_params (i : OrderIntent) (tag exchange : string) : params :=
  let p : params :=
    <["tradingsymbol" := JString (symbol i)]>
    (<["exchange" := JString exchange]>
    (<["transaction_type" := JString (kite_transaction_type (side i))]>
    (<["order_type" := JString (kite_order_type (order_type i))]>
    (<["product" := JString (kite_product (product i))]>
    (<["quantity" := JInt (quantity_value (quantity i))]>
    (<["validity" := JString "DAY"]>
    (<["tag" := JString tag]> ∅))))))) in
  let p := if bool_decide (order_type i = Limit) || bool_decide (order_type i = StopLoss)
           then <["price" := JString (paise_to_decimal (price_paise (price i)))]> p else p in
  match trigger_price i with
  | Some t => if bool_decide (order_type i = StopLoss) || bool_decide (order_type i = StopLossMarket)
              then <["trigger_price" := JString (paise_to_decimal (price_paise t))]> p else p
  | None => p
  end.

Definition extract_order_id (data : json) : string :=
  if is_object data then json_str data "order_id" else "".

(** ** A row of the orderbook, as the flatten reads it *)

Record BrokerRow := mkRow {
  row_order_id : string;
  row_tag : string;
  row_symbol : string;
  row_side : string;
  row_status : string;
  row_product : string;
  row_exchange : string;
  row_quantity : option Z;
  row_filled : Z;
  row_malformed : bool;
}.

Definition read_broker_row (row : json) : BrokerRow :=
  let '(q, bad_q) := json_int_opt row "quantity" in
  let '(f, bad_f) := json_int row "filled_quantity" in
  let negative := match q with Some v => v <? 0 | None => false end in
  let q := if negative then None else q in
  let f := if f <? 0 then 0 else f in
  let f := match q with Some v => if (0 <? v) && (v <? f) then v else f | None => f end in
  mkRow (json_str row "order_id") (json_str row "tag") (json_str row "tradingsymbol")
    (json_str row "transaction_type") (json_str row "status") (json_str row "product")
    (json_str row "exchange") q f (bad_q || bad_f || negative).

Definition exit_side_for (parent_side : string) : option Side :=
  if String.eqb parent_side "SELL" then Some Buy else
  if String.eqb parent_side "BUY" then Some Sell else None.

(** ** The adapter *)

Record KiteAdapter := mkKite {
  exchange_resolver : option (string -> result string);
  tag_to_ref : gmap string string;
  id_to_ref : gmap string string;
}.

Definition new_adapter (r : option (string -> result string)) : KiteAdapter := mkKite r ∅ ∅.
Definition set_tag (tag ref : string) (a : KiteAdapter) : KiteAdapter :=
  mkKite (exchange_resolver a) (<[tag := ref]> (tag_to_ref a)) (id_to_ref a).
Definition set_id (id ref : string) (a : KiteAdapter) : KiteAdapter :=
  mkKite (exchange_resolver a) (tag_to_ref a) (<[id := ref]> (id_to_ref a)).

Definition has_exchange_resolver (a : KiteAdapter) : bool := bool_decide (is_Some (exchange_resolver a)).

Definition resolve_exchange (a : KiteAdapter) (symbol : string) : result string :=
  match exchange_resolver a with
  | None => Ok (infer_exchange symbol)
  | Some resolver =>
      match resolver symbol with
      | Err e => Err e
      | Ok exchange =>
          if String.eqb exchange "" then
            Err (make_error Validation "kite: the exchange resolver returned an empty exchange for the symbol"
                   "KITE-EXCHANGE-EMPTY")
          else Ok exchange
      end
  end.

Definition exit_exchange (a : KiteAdapter) (symbol parent_exchange : string) : result string :=
  if negb (has_exchange_resolver a)
  then Ok (if String.eqb parent_exchange "" then infer_exchange symbol else parent_exchange)
  else
    match resolve_exchange a symbol with
    | Err e => Err e
    | Ok resolved =>
        if negb (String.eqb parent_exchange "") && negb (String.eqb resolved parent_exchange) then
          Err (alert_error DataStale "kite: the exchange resolver and the parent order row disagree about where this position is; a flatten must route where the position actually is, so nothing was sent" "KITE-SQUAREOFF-EXCHANGEMISMATCH")
        else Ok resolved
    end.

Definition register_tag (client_ref : string) (a : KiteAdapter) : string * KiteAdapter :=
  (short_tag client_ref, set_tag (short_tag client_ref) client_ref a).

Definition recover_client_ref (a : KiteAdapter) (broker_order_id tag : string) : string :=
  match (if String.eqb broker_order_id "" then None else id_to_ref a !! broker_order_id) with
  | Some r => r
  | None => match (if String.eqb tag "" then None else tag_to_ref a !! tag) with Some r => r | None => "" end
  end.

(** ** The REST seam *)

Inductive KiteCall :=
  | CallPlace (p : params)
  | CallModify (id : string) (p : params)
  | CallCancel (id : string)
  | CallOrders
  | CallTrades
  | CallPositions
  | CallMargins (segment : string).

Section Adapter.
  (** What the client answers to a call, given the calls made before it. *)
  Context (rest : list KiteCall -> KiteCall -> result json).

(** The calls made so far; one more call. *)
Abbreviation history := (list KiteCall).

Definition issue (c : KiteCall) (h : history) : result json * history := (rest h c, h ++ [c]).

Definition place (i : OrderIntent) (a : KiteAdapter) (h : history) : result BrokerAck * KiteAdapter * history :=
  match resolve_exchange a (symbol i) with
  | Err e => (Err e, a, h)
  | Ok exchange =>
      let '(tag, a) := register_tag (client_ref i) a in
      match issue (CallPlace (build_place_params i tag exchange)) h with
      | (Err e, h) => (Err e, a, h)
      | (Ok data, h) =>
          let order_id := extract_order_id data in
          if String.eqb order_id "" then
            (Err (make_error CatUnknown "kite: place succeeded but response carried no order_id" "KITE-PLACE-NOID"), a, h)
          else (Ok (mkAck order_id (client_ref i)), set_id order_id (client_ref i) a, h)
      end
  end.

Definition modify (broker_order_id : string) (i : OrderIntent) (a : KiteAdapter) (h : history) :
    result BrokerAck * KiteAdapter * history :=
  match resolve_exchange a (symbol i) with
  | Err e => (Err e, a, h)
  | Ok exchange =>
      let '(tag, a) := register_tag (client_ref i) a in
      match issue (CallModify broker_order_id (build_place_params i tag exchange)) h with
      | (Err e, h) => (Err e, a, h)
      | (Ok data, h) =>
          let order_id := if String.eqb (extract_order_id data) "" then broker_order_id else extract_order_id data in
          (Ok (mkAck order_id (client_ref i)), set_id order_id (client_ref i) a, h)
      end
  end.

Definition cancel (broker_order_id : string) (h : history) : result unit * history :=
  match issue (CallCancel broker_order_id) h with
  | (Err e, h) => (Err e, h)
  | (Ok _, h) => (Ok tt, h)
  end.


(** ** The flatten *)

(** The last row with the parent's id, and the last other row with the exit's
    tag. *)
Definition scan_row (id tag : string) (found : option BrokerRow * option BrokerRow) (row : json) :
    option BrokerRow * option BrokerRow :=
  if is_object row then
    let raw := read_broker_row row in
    if negb (String.eqb (row_order_id raw) "") && String.eqb (row_order_id raw) id then (Some raw, found.2)
    else if negb (String.eqb (row_tag raw) "") && String.eqb (row_tag raw) tag then (found.1, Some raw)
    else found
  else found.

Definition scan_book (id : string) (rows : list json) : option BrokerRow * option BrokerRow :=
  foldl (scan_row id (exit_tag_for id)) (None, None) rows.

(** What the flatten decides from the read, before it changes anything. *)
Record FlattenPlan := mkPlan {
  plan_parent : BrokerRow;
  plan_exit : option BrokerRow;
  plan_qty : Z;
  plan_route : option (Side * string);
  plan_terminal : bool;
}.

Definition exit_route (a : KiteAdapter) (parent : BrokerRow) : result (Side * string) :=
  match exit_side_for (row_side parent) with
  | None => Err (reconcile_first_error "kite: square_off could not read the order's transaction type; reconcile before flattening" "KITE-SQUAREOFF-NOSIDE")
  | Some s =>
      match exit_exchange a (row_symbol parent) (row_exchange parent) with
      | Err e => Err e
      | Ok exchange => Ok (s, exchange)
      end
  end.

Definition malformed_exit (e : option BrokerRow) : bool := match e with Some r => row_malformed r | None => false end.

Definition flatten_plan (a : KiteAdapter) (id : string) (rows : list json) : result FlattenPlan :=
  let '(parent, existing_exit) := scan_book id rows in
  match parent with
  | None => Err (reconcile_first_error "kite: square_off could not find the order in broker truth; reconcile before flattening" "KITE-SQUAREOFF-NOPARENT")
  | Some parent =>
      if is_exit_tag (row_tag parent) then
        Err (set_action DoNotRetry (make_error Validation "kite: square_off was asked to flatten a square-off EXIT order; flattening an exit re-opens the position it closed, so nothing was sent" "KITE-SQUAREOFF-SELFEXIT"))
      else if row_malformed parent then
        Err (reconcile_first_error "kite: square_off read an unparseable field on the order; reconcile before flattening" "KITE-SQUAREOFF-MALFORMED")
      else if malformed_exit existing_exit then
        Err (alert_error DataStale "kite: the square-off exit already at the broker carries an unparseable field, so it cannot be shown to cover the position; nothing was sent and an operator is needed" "KITE-SQUAREOFF-EXITMALFORMED")
      else
        let reported := map_status (row_status parent) in
        if bool_decide (reported = Unknown) then
          Err (reconcile_first_error "kite: square_off read an unrecognized order status; reconcile before flattening" "KITE-SQUAREOFF-UNKNOWNSTATE")
        else
          match row_quantity parent with
          | None => Err (reconcile_first_error "kite: square_off could not read the order quantity; reconcile before flattening" "KITE-SQUAREOFF-NOQTY")
          | Some ordered =>
              let neutral_status := if bool_decide (reported = Filled) then "complete" else "open" in
              let snap := normalize_fill neutral_status (row_filled parent) ordered true in
              let exit_qty := exit_qty_for snap in
              let terminal := bool_decide (reported = Cancelled) || bool_decide (reported = Rejected) ||
                              bool_decide (canonical_state snap = Filled) in
              if 0 <? exit_qty then
                match exit_route a parent with
                | Err e => Err e
                | Ok route => Ok (mkPlan parent existing_exit exit_qty (Some route) terminal)
                end
              else Ok (mkPlan parent existing_exit exit_qty None terminal)
          end
  end.

(** The answer when an exit is already at the broker: never a second one. *)
Definition existing_exit_verdict (e : BrokerRow) (exit_qty : Z) : result unit :=
  match map_status (row_status e) with
  | Rejected => Err (alert_error BrokerRejected "kite: a prior square-off exit for this order was REJECTED by the broker; the position is still open and needs an operator" "KITE-SQUAREOFF-EXITREJECTED")
  | Cancelled => Err (alert_error BrokerRejected "kite: a prior square-off exit for this order was CANCELLED; the position is still open and needs an operator" "KITE-SQUAREOFF-EXITCANCELLED")
  | Unknown => Err (reconcile_first_error "kite: square_off read an unrecognized status on the exit already at the broker; reconcile before flattening" "KITE-SQUAREOFF-EXITUNKNOWNSTATE")
  | _ =>
      match row_quantity e with
      | None => Err (reconcile_first_error "kite: square_off could not read the quantity of the exit already at the broker; reconcile before flattening" "KITE-SQUAREOFF-EXITNOQTY")
      | Some q =>
          if q <? exit_qty then
            Err (alert_error DataStale "kite: the square-off exit already at the broker is SMALLER than the position now reported filled; the remainder is still open and needs an operator" "KITE-SQUAREOFF-EXITSHORT")
          else Ok tt
      end
  end.

(** The exit's intent: market, or a limit at the band's edge the exit crosses. *)
Definition exit_intent (exit_ref symbol : string) (s : Side) (qty : Z) (band_lower band_upper : option Price) : OrderIntent :=
  let '(t, p) :=
    match band_lower, band_upper with
    | Some lower, Some upper =>
        if price_paise lower <=? price_paise upper
        then (Limit, if bool_decide (s = Buy) then upper else lower) else (Market, from_paise 0)
    | _, _ => (Market, from_paise 0)
    end in
  mkIntent exit_ref symbol s (quantity_of qty) p None t Intraday "square_off".

Definition exit_params (i : OrderIntent) (tag exchange parent_product : string) : params :=
  let p := build_place_params i tag exchange in
  if String.eqb parent_product "" then p else <["product" := JString parent_product]> p.

Definition place_exit (id : string) (plan : FlattenPlan) (s : Side) (exchange : string)
    (band_lower band_upper : option Price) (a : KiteAdapter) (h : history) : result unit * KiteAdapter * history :=
  let parent := plan_parent plan in
  let exit_tag := exit_tag_for id in
  let parent_ref := recover_client_ref a id (row_tag parent) in
  let exit_ref := exit_client_ref (if String.eqb parent_ref "" then id else parent_ref) in
  let i := exit_intent exit_ref (row_symbol parent) s (plan_qty plan) band_lower band_upper in
  let a := set_tag exit_tag exit_ref a in
  match issue (CallPlace (exit_params i exit_tag exchange (row_product parent))) h with
  | (Err e, h) => (Err e, a, h)
  | (Ok data, h) =>
      let exit_id := extract_order_id data in
      (Ok tt, if String.eqb exit_id "" then a else set_id exit_id exit_ref a, h)
  end.

(** The working remainder: nothing to pull when terminal; a cancel answered
    OrderNotFound is tolerated. *)
Definition cancel_remainder (id : string) (plan : FlattenPlan) (h : history) : result unit * history :=
  if plan_terminal plan then (Ok tt, h) else
  match issue (CallCancel id) h with
  | (Err e, h) => if bool_decide (category e = OrderNotFound) then (Ok tt, h) else (Err e, h)
  | (Ok _, h) => (Ok tt, h)
  end.

Definition square_off_banded (id : string) (band_lower band_upper : option Price) (a : KiteAdapter) (h : history) :
    result unit * KiteAdapter * history :=
  if String.eqb id "" then
    (Err (make_error Validation "kite: square_off requires a broker order id" "KITE-SQUAREOFF-NOID"), a, h)
  else
    match issue CallOrders h with
    | (Err e, h) => (Err e, a, h)
    | (Ok (JArray rows), h) =>
        match flatten_plan a id rows with
        | Err e => (Err e, a, h)
        | Ok plan =>
            match cancel_remainder id plan h with
            | (Err e, h) => (Err e, a, h)
            | (Ok _, h) =>
                match plan_route plan with
                | None => (Ok tt, a, h)
                | Some (s, exchange) =>
                    match plan_exit plan with
                    | Some e => (existing_exit_verdict e (plan_qty plan), a, h)
                    | None => place_exit id plan s exchange band_lower band_upper a h
                    end
                end
            end
        end
    | (Ok _, h) => (Err (reconcile_first_error "kite: the orderbook payload was not an array" "KITE-SQUAREOFF-BOOKSHAPE"), a, h)
    end.

Definition square_off (id : string) (a : KiteAdapter) (h : history) : result unit * KiteAdapter * history :=
  square_off_banded id None None a h.

(** ** The reads *)

Definition reports_stop (t : OrderType) : bool := bool_decide (t = StopLoss) || bool_decide (t = StopLossMarket).

Definition positive_or_zero (v : Z) : Z := if 0 <? v then v else 0.

(** One order row, and whether a number on it was unreadable: the trigger is
    consulted on stop rows only. *)
Definition read_order (a : KiteAdapter) (ko : json) : reading Order :=
  let id := json_str ko "order_id" in
  let tag := json_str ko "tag" in
  let '(filled, bad_filled) := json_int ko "filled_quantity" in
  let '(price, bad_price) := json_paise ko "average_price" in
  let t := parse_order_type (json_str ko "order_type") in
  let '(trigger, bad_trigger) := if reports_stop t then json_trigger_paise ko "trigger_price" else (None, false) in
  let i := mkIntent (recover_client_ref a id tag) (json_str ko "tradingsymbol") Buy (quantity_of 0) (from_paise 0)
             (from_paise <$> trigger) t Intraday "" in
  (mkOrder i (map_status (json_str ko "status")) id (quantity_of (positive_or_zero filled)) (from_paise price),
   bad_filled || bad_price || bad_trigger).

(** An unreadable row asserts no lifecycle state. *)
Definition order_row (a : KiteAdapter) (ko : json) : Order :=
  let '(o, malformed) := read_order a ko in if malformed then with_state Unknown o else o.

Definition fetch_orders (a : KiteAdapter) (h : history) : result (list Order) * history :=
  match issue CallOrders h with
  | (Err e, h) => (Err e, h)
  | (Ok (JArray rows), h) => (Ok (order_row a <$> filter is_object rows), h)
  | (Ok _, h) => (Err (unreadable_payload_error "kite: the orderbook payload was not an array" "KITE-ORDERS-SHAPE"), h)
  end.

(** A fill that cannot be read is reported, and not attributed. *)
Definition trade_row (a : KiteAdapter) (kt : json) : Trade :=
  let id := json_str kt "order_id" in
  let '(qty, bad_qty) := json_int kt "quantity" in
  let '(price, bad_price) := json_paise kt "average_price" in
  let ref := if bad_qty || bad_price then "" else recover_client_ref a id (json_str kt "tag") in
  mkTrade (json_str kt "trade_id") ref id (quantity_of (positive_or_zero qty)) (from_paise price).

Definition fetch_trades (a : KiteAdapter) (h : history) : result (list Trade) * history :=
  match issue CallTrades h with
  | (Err e, h) => (Err e, h)
  | (Ok (JArray rows), h) => (Ok (trade_row a <$> filter is_object rows), h)
  | (Ok _, h) => (Err (unreadable_payload_error "kite: the tradebook payload was not an array" "KITE-TRADES-SHAPE"), h)
  end.

Definition position_row (kp : json) : reading Position :=
  let '(qty, bad_qty) := json_int kp "quantity" in
  let '(price, bad_price) := json_paise kp "average_price" in
  (mkPosition (json_str kp "tradingsymbol") (quantity_of qty) (from_paise price), bad_qty || bad_price).

(** One unreadable number refuses the whole book. *)
Definition fetch_positions (h : history) : result (list Position) * history :=
  match issue CallPositions h with
  | (Err e, h) => (Err e, h)
  | (Ok data, h) =>
      match (if is_object data then find_key data "net" else None) with
      | Some (JArray rows) =>
          let read := position_row <$> filter is_object rows in
          (if existsb snd read
           then Err (unreadable_payload_error "kite: positions payload carried an unparseable quantity or amount" "KITE-POSITIONS-MALFORMED")
           else Ok (fst <$> read), h)
      | _ => (Err (unreadable_payload_error "kite: the positions payload was not the expected {net:[...]} shape" "KITE-POSITIONS-SHAPE"), h)
      end
  end.

(** [live_balance], then [net] when it is absent, unreadable or zero. *)
Definition read_available (seg : json) : reading (option Z) :=
  let '(live, bad_live) :=
    match find_key seg "available" with
    | Some (JObject av) => json_paise_opt (JObject av) "live_balance"
    | _ => (None, false)
    end in
  let '(available, garbage) :=
    if negb (bool_decide (is_Some live)) || bool_decide (live = Some 0)
    then let '(net, bad_net) := json_paise_opt seg "net" in
         (match net with Some v => Some v | None => live end, bad_live || bad_net)
    else (live, bad_live) in
  (available, negb (bool_decide (is_Some available)) && garbage).

Definition read_used (seg : json) : reading (option Z) :=
  match find_key seg "utilised" with
  | Some (JObject ut) => json_paise_opt (JObject ut) "debits"
  | _ => (None, false)
  end.

Definition fetch_funds (h : history) : result FundsSnapshot * history :=
  match issue (CallMargins "equity") h with
  | (Err e, h) => (Err e, h)
  | (Ok seg, h) =>
      if negb (is_object seg) then (Err (unreadable_payload_error "kite: the margins payload was not an object" "KITE-FUNDS-SHAPE"), h)
      else
        let '(available, bad_available) := read_available seg in
        let '(used, bad_used) := read_used seg in
        if bad_available || bad_used
        then (Err (unreadable_payload_error "kite: funds payload carried an unparseable amount" "KITE-FUNDS-MALFORMED"), h)
        else (Ok (mkFunds (from_paise_money (default 0 available)) (from_paise_money (default 0 used))), h)
  end.
End Adapter.

(** ** Tags *)

Lemma hashed_tag_chars p m : chars (hashed_tag p m) = (chars p ++ hex_digits (fnv m))%list.
Proof. unfold hashed_tag. by rewrite chars_app, chars_str. Qed.

Lemma is_exit_tag_hashed p m : String.length p = 2%nat -> is_exit_tag (hashed_tag p m) = bool_decide (p = kExitTagPrefix).
Proof.
  intros Hp. unfold is_exit_tag. rewrite <- chars_length, hashed_tag_chars, length_app, chars_length, Hp.
  rewrite take_app_length' by (by rewrite chars_length). simpl.
  apply bool_decide_ext. split; [by intros E; apply (inj chars)|by intros ->].
Qed.

Lemma exit_tag_is id : is_exit_tag (exit_tag_for id) = true.
Proof. unfold exit_tag_for. by rewrite is_exit_tag_hashed. Qed.

Lemma short_tag_is_not r : is_exit_tag (short_tag r) = false.
Proof. unfold short_tag. by rewrite is_exit_tag_hashed. Qed.

(** ** The book's rows *)

Definition row_with_id (id : string) (row : json) : bool := is_object row && String.eqb (json_str row "order_id") id.
Definition other_row_with_tag (id tag : string) (row : json) : bool :=
  is_object row && negb (String.eqb (json_str row "order_id") id) && String.eqb (json_str row "tag") tag.

Lemma read_broker_row_texts row :
  let r := read_broker_row row in
  row_order_id r = json_str row "order_id" /\ row_tag r = json_str row "tag".
Proof. unfold read_broker_row. by destruct (json_int_opt row "quantity"), (json_int row "filled_quantity"). Qed.

Lemma scan_row_spec id found row :
  id <> "" ->
  scan_row id (exit_tag_for id) found row =
  (if row_with_id id row then (Some (read_broker_row row), found.2)
   else if other_row_with_tag id (exit_tag_for id) row then (found.1, Some (read_broker_row row)) else found).
Proof.
  intros Hid. unfold scan_row, row_with_id, other_row_with_tag.
  destruct (is_object row); [|done]. destruct (read_broker_row_texts row) as [-> ->]. simpl.
  destruct (String.eqb_spec (json_str row "order_id") id) as [->|Hne]; simpl.
  - by destruct (String.eqb_spec id "").
  - rewrite andb_false_r. destruct (String.eqb_spec (json_str row "tag") (exit_tag_for id)) as [->|]; [|by rewrite andb_false_r].
    by destruct (String.eqb_spec (exit_tag_for id) "").
Qed.

Lemma last_filter_snoc {A} (f : A -> bool) l x :
  last (filter f (l ++ [x])) = if f x then Some x else last (filter f l).
Proof.
  rewrite filter_app. destruct (f x) eqn:E.
  - rewrite filter_cons_True by (rewrite E; exact I). apply last_snoc.
  - rewrite filter_cons_False by (rewrite E; exact id). by rewrite app_nil_r.
Qed.

Lemma scan_book_spec id rows :
  id <> "" ->
  scan_book id rows = (read_broker_row <$> last (filter (row_with_id id) rows),
                       read_broker_row <$> last (filter (other_row_with_tag id (exit_tag_for id)) rows)).
Proof.
  intros Hid. unfold scan_book. induction rows as [|row rows IH] using rev_ind; [done|].
  rewrite foldl_app, !last_filter_snoc. cbn [foldl]. rewrite IH, scan_row_spec by done.
  destruct (row_with_id id row) eqn:E1; [|by destruct (other_row_with_tag _ _ row)].
  assert (other_row_with_tag id (exit_tag_for id) row = false) as ->; [|done].
  unfold row_with_id in E1. unfold other_row_with_tag. apply andb_true_iff in E1 as [-> ->]. done.
Qed.

(** What a readable row's counts satisfy. *)
Lemma read_broker_row_counts row :
  0 <= row_filled (read_broker_row row)
  /\ (forall q, row_quantity (read_broker_row row) = Some q -> 0 <= q /\ (0 < q -> row_filled (read_broker_row row) <= q)).
Proof.
  unfold read_broker_row. destruct (json_int_opt row "quantity") as [[q|] ?], (json_int row "filled_quantity") as [f ?]; cbn;
  repeat match goal with |- context [?a <? ?b] => destruct (Z.ltb_spec a b); cbn end; split; intros; simplify_eq; lia.
Qed.

Lemma mentions_neutral s : s = "complete" \/ s = "open" -> status_mentions s "reject" = false /\ status_mentions s "cancel" = false.
Proof. by intros [-> | ->]. Qed.

(** The size of an exit and the canonical state, from the counts alone. *)
Lemma neutral_fill (b : bool) filled ordered :
  let snap := normalize_fill (if b then "complete" else "open") filled ordered true in
  exit_qty_for snap = Z.max 0 filled /\ (canonical_state snap = Filled <-> 0 < filled /\ ordered <= filled).
Proof.
  intros snap. destruct (normalize_fill_exact (if b then "complete" else "open") filled ordered true) as (_ & _ & Hs & He & _).
  fold snap in Hs, He. split; [done|]. rewrite Hs.
  destruct (mentions_neutral (if b then "complete" else "open") ltac:(destruct b; auto)) as [-> ->].
  destruct (decide (0 < filled)), (decide (filled < ordered)), (decide (0 < ordered)); try (split; [done|lia]); try (split; [lia|done]).
  all: destruct (working_status _); (split; [done|lia]).
Qed.

(** ** What a flatten promises *)

Section Flatten.
  Context (rest : list KiteCall -> KiteCall -> result json).

Definition parent_in (id : string) (rows : list json) : option BrokerRow :=
  read_broker_row <$> last (filter (row_with_id id) rows).
Definition exit_in (id : string) (rows : list json) : option BrokerRow :=
  read_broker_row <$> last (filter (other_row_with_tag id (exit_tag_for id)) rows).

(** Nothing of the order is left working. *)
Definition over (parent : BrokerRow) (ordered : Z) : Prop :=
  map_status (row_status parent) = Cancelled \/ map_status (row_status parent) = Rejected
  \/ (0 < row_filled parent /\ ordered <= row_filled parent).

(** A parent the flatten may act on. *)
Record actionable (a : KiteAdapter) (id : string) (rows : list json) (parent : BrokerRow) (ordered : Z) : Prop := {
  act_id : id <> "";
  act_parent : parent_in id rows = Some parent;
  act_not_exit : is_exit_tag (row_tag parent) = false;
  act_readable : row_malformed parent = false;
  act_exit_readable : malformed_exit (exit_in id rows) = false;
  act_known : map_status (row_status parent) <> Unknown;
  act_ordered : row_quantity parent = Some ordered;
}.

(** The working remainder is gone before anything opposite is sent. *)
Definition pulled (id : string) (parent : BrokerRow) (ordered : Z) (h cs : list KiteCall) : Prop :=
  (over parent ordered /\ cs = [CallOrders])
  \/ (~ over parent ordered /\ cs = [CallOrders; CallCancel id] /\
      match rest (h ++ [CallOrders]) (CallCancel id) with Ok _ => True | Err e => category e = OrderNotFound end).

(** The exit at the broker closes the position. *)
Definition covering (e : BrokerRow) (filled : Z) : Prop :=
  map_status (row_status e) <> Rejected /\ map_status (row_status e) <> Cancelled /\
  map_status (row_status e) <> Unknown /\ exists q, row_quantity e = Some q /\ filled <= q.

(** The parameters of an order that closes [filled] of the parent. *)
Record closing (id : string) (parent : BrokerRow) (s : Side) (exchange : string) (p : params) : Prop := {
  cl_quantity : p !! "quantity" = Some (JInt (row_filled parent));
  cl_side : exit_side_for (row_side parent) = Some s;
  cl_transaction : p !! "transaction_type" = Some (JString (kite_transaction_type s));
  cl_symbol : p !! "tradingsymbol" = Some (JString (row_symbol parent));
  cl_exchange : p !! "exchange" = Some (JString exchange);
  cl_product : p !! "product" = Some (JString (if decide (row_product parent = "") then "MIS" else row_product parent));
  cl_tag : p !! "tag" = Some (JString (exit_tag_for id));
}.

(** The outcomes of a flatten: its answer and the calls it made. *)
Inductive flattened (id : string) (a : KiteAdapter) (h : list KiteCall) : result unit -> list KiteCall -> Prop :=
  | flat_refused e cs :
      (cs = [] /\ id = "" \/ cs = [CallOrders] /\
       forall rows parent ordered, rest h CallOrders = Ok (JArray rows) -> actionable a id rows parent ordered ->
         0 < row_filled parent /\ (exit_side_for (row_side parent) = None \/ exists e', exit_exchange a (row_symbol parent) (row_exchange parent) = Err e')) ->
      flattened id a h (Err e) cs
  | flat_remainder_kept rows parent ordered e :
      rest h CallOrders = Ok (JArray rows) -> actionable a id rows parent ordered -> ~ over parent ordered ->
      rest (h ++ [CallOrders]) (CallCancel id) = Err e -> category e <> OrderNotFound ->
      flattened id a h (Err e) [CallOrders; CallCancel id]
  | flat_nothing_filled rows parent ordered cs :
      rest h CallOrders = Ok (JArray rows) -> actionable a id rows parent ordered -> row_filled parent = 0 ->
      pulled id parent ordered h cs ->
      flattened id a h (Ok tt) cs
  | flat_exit_present rows parent ordered cs e r :
      rest h CallOrders = Ok (JArray rows) -> actionable a id rows parent ordered -> 0 < row_filled parent ->
      pulled id parent ordered h cs -> exit_in id rows = Some e -> (r = Ok tt <-> covering e (row_filled parent)) ->
      flattened id a h r cs
  | flat_exit_sent rows parent ordered cs s exchange p r :
      rest h CallOrders = Ok (JArray rows) -> actionable a id rows parent ordered -> 0 < row_filled parent ->
      pulled id parent ordered h cs -> exit_in id rows = None ->
      exit_exchange a (row_symbol parent) (row_exchange parent) = Ok exchange -> closing id parent s exchange p ->
      r = match rest (h ++ cs) (CallPlace p) with Ok _ => Ok tt | Err e => Err e end ->
      flattened id a h r (cs ++ [CallPlace p]).

Lemma exit_params_closing id parent s exchange ref lower upper :
  exit_side_for (row_side parent) = Some s ->
  closing id parent s exchange
    (exit_params (exit_intent ref (row_symbol parent) s (row_filled parent) lower upper) (exit_tag_for id) exchange (row_product parent)).
Proof.
  intros Hs.
  assert (exists t pr, exit_intent ref (row_symbol parent) s (row_filled parent) lower upper
            = mkIntent ref (row_symbol parent) s (quantity_of (row_filled parent)) pr None t Intraday "square_off") as (t & pr & ->).
  { unfold exit_intent. destruct lower as [l|], upper as [u|]; [destruct (price_paise l <=? price_paise u)|..]; eauto. }
  unfold exit_params, build_place_params. cbn [order_type symbol side product quantity price trigger_price quantity_value].
  destruct (String.eqb_spec (row_product parent) "") as [Ep|Ep], (bool_decide (t = Limit) || bool_decide (t = StopLoss));
    split; rewrite ?Ep; try done;
    rewrite ?(decide_False (P := row_product parent = "")) by done; by simplify_map_eq.
Qed.

Lemma verdict_covering e q : (existing_exit_verdict e q = Ok tt) <-> covering e q.
Proof.
  unfold existing_exit_verdict, covering.
  destruct (map_status (row_status e)), (row_quantity e) as [x|]; try destruct (Z.ltb_spec x q);
    (split; [intros Hv; try discriminate Hv; repeat split; try discriminate; eauto
            |intros (? & ? & ? & y & Hy & Hle); simplify_eq; first [done|lia]]).
Qed.

Lemma parent_counts id rows parent :
  parent_in id rows = Some parent ->
  0 <= row_filled parent /\ (forall q, row_quantity parent = Some q -> 0 <= q /\ (0 < q -> row_filled parent <= q)).
Proof.
  unfold parent_in. destruct (last _) as [row|]; [|done]. intros [= <-]. apply read_broker_row_counts.
Qed.

Lemma flatten_plan_actionable a id rows plan :
  id <> "" -> flatten_plan a id rows = Ok plan ->
  exists ordered, actionable a id rows (plan_parent plan) ordered
    /\ plan_exit plan = exit_in id rows /\ plan_qty plan = row_filled (plan_parent plan)
    /\ (plan_terminal plan = true <-> over (plan_parent plan) ordered)
    /\ match plan_route plan with
       | None => row_filled (plan_parent plan) = 0
       | Some route => 0 < row_filled (plan_parent plan) /\ exit_route a (plan_parent plan) = Ok route
       end.
Proof.
  intros Hid. unfold flatten_plan. rewrite scan_book_spec by done. fold (parent_in id rows) (exit_in id rows).
  destruct (parent_in id rows) as [parent|] eqn:Ep; [|done].
  destruct (is_exit_tag (row_tag parent)) eqn:Et; [done|]. destruct (row_malformed parent) eqn:Em; [done|].
  destruct (malformed_exit (exit_in id rows)) eqn:Ee; [done|]. case_bool_decide as Hk; [done|].
  destruct (row_quantity parent) as [ordered|] eqn:Eq; [|done].
  destruct (parent_counts id rows parent Ep) as [Hf _]. destruct (neutral_fill (bool_decide (map_status (row_status parent) = Filled)) (row_filled parent) ordered) as [Hq Hc].
  set (snap := normalize_fill _ _ _ _) in *. rewrite Hq, Z.max_r by done. intros Hp.
  assert (Ha : actionable a id rows parent ordered) by by split.
  assert (Ht : bool_decide (map_status (row_status parent) = Cancelled) || bool_decide (map_status (row_status parent) = Rejected)
              || bool_decide (canonical_state snap = Filled) = true <-> over parent ordered).
  { unfold over. rewrite !orb_true_iff, !bool_decide_eq_true, Hc. tauto. }
  destruct (Z.ltb_spec 0 (row_filled parent)).
  - destruct (exit_route a parent) as [route|] eqn:Er; [|done]. simplify_eq. by exists ordered.
  - simplify_eq. exists ordered. cbn. repeat split; try apply Ha; try apply Ht. lia.
Qed.

Lemma actionable_plan a id rows parent ordered e :
  actionable a id rows parent ordered -> flatten_plan a id rows = Err e ->
  0 < row_filled parent /\ (exit_side_for (row_side parent) = None \/ exists e', exit_exchange a (row_symbol parent) (row_exchange parent) = Err e').
Proof.
  intros [Hid Hp Ht Hm He Hk Hq]. unfold flatten_plan. rewrite scan_book_spec by done.
  fold (parent_in id rows) (exit_in id rows). rewrite Hp, Ht, Hm, He, Hq, bool_decide_false by done.
  destruct (parent_counts id rows parent Hp) as [Hf _].
  destruct (neutral_fill (bool_decide (map_status (row_status parent) = Filled)) (row_filled parent) ordered) as [-> _].
  rewrite Z.max_r by done. destruct (Z.ltb_spec 0 (row_filled parent)); [|done].
  unfold exit_route. destruct (exit_side_for (row_side parent)); [|by auto].
  destruct (exit_exchange a _ _) eqn:Ex; [done|]. intros _. split; [done|]. right. eauto.
Qed.

Lemma cancel_remainder_pulled id plan ordered h r h' :
  (plan_terminal plan = true <-> over (plan_parent plan) ordered) ->
  cancel_remainder rest id plan (h ++ [CallOrders]) = (r, h') ->
  exists cs, h' = h ++ cs /\
  match r with
  | Ok _ => pulled id (plan_parent plan) ordered h cs
  | Err e => ~ over (plan_parent plan) ordered /\ cs = [CallOrders; CallCancel id] /\
             rest (h ++ [CallOrders]) (CallCancel id) = Err e /\ category e <> OrderNotFound
  end.
Proof.
  intros Ht. unfold cancel_remainder, issue, pulled. destruct (plan_terminal plan).
  - intros [= <- <-]. exists [CallOrders]. split; [done|]. left. split; [by apply Ht|done].
  - assert (~ over (plan_parent plan) ordered) by (intros Ho; by apply Ht in Ho).
    rewrite <- app_assoc. destruct (rest _ _) as [d|e] eqn:E; [|case_bool_decide]; intros [= <- <-];
      exists [CallOrders; CallCancel id]; (split; [done|]); auto 7.
Qed.

(** The flatten runs through one of the ways of [flattened]. *)
Lemma flatten_run id lower upper a h :
  let '(r, a', h') := square_off_banded rest id lower upper a h in
  exists cs, h' = h ++ cs /\ flattened id a h r cs.
Proof.
  unfold square_off_banded. destruct (String.eqb_spec id "") as [->|Hid].
  { exists []. rewrite app_nil_r. split; [done|]. apply flat_refused. auto. }
  unfold issue at 1. destruct (rest h CallOrders) as [[ | | | | |rows|]|e] eqn:Eo;
    try (exists [CallOrders]; split; [done|]; apply flat_refused; right; split; [done|]; congruence).
  destruct (flatten_plan a id rows) as [plan|e] eqn:Ep.
  2:{ exists [CallOrders]. split; [done|]. apply flat_refused. right. split; [done|].
      rewrite Eo. intros ? parent ordered [= <-] Ha. by eapply actionable_plan. }
  destruct (flatten_plan_actionable a id rows plan Hid Ep) as (ordered & Ha & He & Hq & Ht & Hr).
  destruct (cancel_remainder rest id plan (h ++ [CallOrders])) as [[[]|e] h1] eqn:Ec;
    destruct (cancel_remainder_pulled _ _ _ _ _ _ Ht Ec) as (cs & -> & Hc).
  2:{ destruct Hc as (? & -> & ? & ?). eexists. split; [done|]. by eapply flat_remainder_kept. }
  destruct (plan_route plan) as [[s exchange]|]; [|exists cs; split; [done|]; by eapply flat_nothing_filled].
  destruct Hr as [Hf Hr]. destruct (plan_exit plan) as [ex|] eqn:Ex.
  { exists cs. split; [done|]. eapply flat_exit_present; try done. rewrite Hq. apply verdict_covering. }
  unfold exit_route in Hr. destruct (exit_side_for _) as [s'|] eqn:Es; [|done].
  destruct (exit_exchange a _ _) as [x|] eqn:Ee; [|done]. simplify_eq.
  unfold place_exit, issue. rewrite Hq.
  destruct (rest _ (CallPlace _)) as [d|e] eqn:E; exists (cs ++ [CallPlace (exit_params (exit_intent (exit_client_ref
    (if String.eqb (recover_client_ref a id (row_tag (plan_parent plan))) "" then id else recover_client_ref a id (row_tag (plan_parent plan))))
    (row_symbol (plan_parent plan)) s (row_filled (plan_parent plan)) lower upper) (exit_tag_for id) exchange (row_product (plan_parent plan)))]);
    (split; [by rewrite app_assoc|]); eapply flat_exit_sent; try done; try (by apply exit_params_closing); by rewrite E.
Qed.

(** The calls of a flatten: the book, perhaps a cancel of the parent, perhaps one
    order. *)
Definition flatten_calls (id : string) (cs : list KiteCall) : Prop :=
  exists cancelled placed, (cs = [] \/ cs = CallOrders :: cancelled ++ placed)
    /\ (cancelled = [] \/ cancelled = [CallCancel id]) /\ (placed = [] \/ exists p, placed = [CallPlace p]).

Lemma flattened_calls id a h r cs : flattened id a h r cs -> flatten_calls id cs.
Proof.
  assert (P : forall parent ordered cs, pulled id parent ordered h cs -> exists cancelled, cs = CallOrders :: cancelled /\ (cancelled = [] \/ cancelled = [CallCancel id])).
  { intros ? ? ? [[_ ->]|(_ & -> & _)]; eauto. }
  intros [e c Hc|rows parent ordered e|? ? ? c ? ? ? Hp|? ? ? c ? ? ? ? ? Hp|? ? ? c ? ? p ? ? ? ? Hp];
    try (destruct (P _ _ _ Hp) as (cancelled & -> & ?)).
  - destruct Hc as [[-> _]|[-> _]]; exists [], []; auto.
  - exists [CallCancel id], []. auto.
  - exists cancelled, []. rewrite app_nil_r. auto.
  - exists cancelled, []. rewrite app_nil_r. auto.
  - exists cancelled, [CallPlace p]. split_and!; eauto.
Qed.

(** C19: the Kite flatten refines its contract, whatever the broker answers at
    each call: it reads the book first; without a parent it can act on it
    changes nothing; it cancels a working remainder and goes no further unless
    the cancel was accepted or the order was already gone; with nothing filled
    it is done; an exit already in the book is never followed by a second one,
    and the answer is ok exactly when that exit is alive and at least as large
    as the fill; otherwise exactly one order is sent, of the opposite side, for
    exactly the quantity filled, in the parent's symbol, exchange and product
    and under the exit's tag, and its answer is the broker's. It makes at
    most three calls, in that order, and never modifies anything. *)
Theorem flatten_refines id lower upper a h :
  let '(r, a', h') := square_off_banded rest id lower upper a h in
  exists cs, h' = h ++ cs /\ flattened id a h r cs /\ flatten_calls id cs.
Proof.
  pose proof (flatten_run id lower upper a h) as H. destruct (square_off_banded rest id lower upper a h) as [[r a'] h'].
  destruct H as (cs & -> & Hf). exists cs. split; [done|]. split; [done|]. by eapply flattened_calls.
Qed.
End Flatten.

(** ** Replays *)

(** What a caller does with an adapter; a restart forgets the correlations. *)
Inductive KiteOp :=
  | DoPlace (i : OrderIntent)
  | DoModify (id : string) (i : OrderIntent)
  | DoCancel (id : string)
  | DoSquareOff (id : string) (band_lower band_upper : option Price)
  | DoRead (c : KiteCall)
  | DoRestart.

(** The calls that read. *)
Definition is_read (c : KiteCall) : bool :=
  match c with CallOrders | CallTrades | CallPositions | CallMargins _ => true | _ => false end.

Definition kite_op (rest : list KiteCall -> KiteCall -> result json) (op : KiteOp) (s : KiteAdapter * list KiteCall) :
    KiteAdapter * list KiteCall :=
  let '(a, h) := s in
  match op with
  | DoPlace i => let '(_, a, h) := place rest i a h in (a, h)
  | DoModify id i => let '(_, a, h) := modify rest id i a h in (a, h)
  | DoCancel id => (a, (cancel rest id h).2)
  | DoSquareOff id lower upper => let '(_, a, h) := square_off_banded rest id lower upper a h in (a, h)
  | DoRead c => (a, if is_read c then h ++ [c] else h)
  | DoRestart => (new_adapter (exchange_resolver a), h)
  end.

Definition carries (tag : string) (c : KiteCall) : bool :=
  match c with CallPlace p => match p !! "tag" with Some (JString t) => String.eqb t tag | _ => false end
  | _ => false end.

(** How many of the calls made after [before] put an order with the tag at the
    broker; [booked] tells whether a call took effect, acknowledged or not. *)
Fixpoint bookings (booked : list KiteCall -> KiteCall -> bool) (tag : string) (before calls : list KiteCall) : nat :=
  match calls with
  | [] => 0
  | c :: calls =>
      (if carries tag c && booked before c then 1 else 0) + bookings booked tag (before ++ [c]) calls
  end.

(** A broker that echoes tags: an order it took is in every book it shows
    later, under its tag; rows of one order carry one tag. *)
Class TagEchoingBroker (rest : list KiteCall -> KiteCall -> result json) (booked : list KiteCall -> KiteCall -> bool) := {
  echoes tag h rows :
    (0 < bookings booked tag [] h)%nat -> rest h CallOrders = Ok (JArray rows) ->
    exists row, row ∈ rows /\ is_object row = true /\ json_str row "tag" = tag;
  one_tag h rows r1 r2 :
    rest h CallOrders = Ok (JArray rows) -> r1 ∈ rows -> r2 ∈ rows -> is_object r1 = true -> is_object r2 = true ->
    json_str r1 "order_id" = json_str r2 "order_id" -> json_str r1 "tag" = json_str r2 "tag";
}.

Section Replays.
  Context (rest : list KiteCall -> KiteCall -> result json) (booked : list KiteCall -> KiteCall -> bool).
  Context `{!TagEchoingBroker rest booked}.

Lemma bookings_app tag before c1 c2 :
  bookings booked tag before (c1 ++ c2) = (bookings booked tag before c1 + bookings booked tag (before ++ c1) c2)%nat.
Proof.
  revert before. induction c1 as [|c c1 IH]; intros before; simpl; [by rewrite app_nil_r|].
  by rewrite IH, <- app_assoc, Nat.add_assoc.
Qed.

(** Calls without the tag add nothing. *)
Lemma bookings_quiet tag before cs :
  forallb (fun c => negb (carries tag c)) cs = true -> bookings booked tag before cs = 0%nat.
Proof.
  revert before. induction cs as [|c cs IH]; intros before; simpl; [done|].
  intros [H1 H2]%andb_true_iff. apply negb_true_iff in H1. by rewrite H1, IH.
Qed.

Lemma place_params_tag i tag exchange : build_place_params i tag exchange !! "tag" = Some (JString tag).
Proof.
  unfold build_place_params. destruct (bool_decide (order_type i = Limit) || bool_decide (order_type i = StopLoss)),
    (trigger_price i) as [t|]; try destruct (bool_decide (order_type i = StopLoss) || bool_decide (order_type i = StopLossMarket));
    by simplify_map_eq.
Qed.

(** An order placed by the entry path never wears an exit's tag. *)
Lemma order_call_quiet tag i exchange :
  is_exit_tag tag = true -> carries tag (CallPlace (build_place_params i (short_tag (client_ref i)) exchange)) = false.
Proof.
  intros Ht. unfold carries. rewrite place_params_tag. apply String.eqb_neq. intros <-. by rewrite short_tag_is_not in Ht.
Qed.

Lemma pulled_quiet tag id parent ordered h cs :
  pulled rest id parent ordered h cs -> forallb (fun c => negb (carries tag c)) cs = true.
Proof. intros [[_ ->]|(_ & -> & _)]; done. Qed.

Lemma no_exit_in id rows : exit_in id rows = None -> forall row, row ∈ rows -> is_object row = true ->
  json_str row "tag" = exit_tag_for id -> json_str row "order_id" = id.
Proof.
  unfold exit_in. intros E row Hin Ho Ht. destruct (last _) eqn:El; [done|]. apply last_None in El.
  destruct (String.eqb_spec (json_str row "order_id") id) as [|Hne]; [done|]. exfalso.
  assert (row ∈ filter (other_row_with_tag id (exit_tag_for id)) rows) as Hf; [|rewrite El in Hf; by apply not_elem_of_nil in Hf].
  apply list_elem_of_filter. split; [|done]. unfold other_row_with_tag. rewrite Ho, Ht, String.eqb_refl.
  destruct (String.eqb_spec (json_str row "order_id") id); done.
Qed.

Abbreviation quiet tag cs := (forallb (fun c => negb (carries tag c)) cs = true).

(** While an exit with the parent's tag is booked, its flatten sends nothing. *)
Lemma booked_exit_found id a rows parent ordered h :
  rest h CallOrders = Ok (JArray rows) -> actionable a id rows parent ordered -> exit_in id rows = None ->
  bookings booked (exit_tag_for id) [] h = 0%nat.
Proof.
  intros Ho [_ Hpar Hnot _ _ _ _] He.
  destruct (Nat.eq_dec (bookings booked (exit_tag_for id) [] h) 0%nat) as [|Hnz]; [done|exfalso].
  destruct (echoes (exit_tag_for id) h rows ltac:(lia) Ho) as (row & Hin & Hobj & Htag).
  pose proof (no_exit_in id rows He row Hin Hobj Htag) as Hid.
  unfold parent_in in Hpar. destruct (last _) as [prow|] eqn:El; [|done]. cbn in Hpar. injection Hpar as <-.
  apply last_Some_elem_of, list_elem_of_filter in El as [Hw Hpin]. unfold row_with_id in Hw.
  apply Is_true_true, andb_true_iff in Hw as [Hpo Hpid]. apply String.eqb_eq in Hpid.
  rewrite (proj2 (read_broker_row_texts prow)) in Hnot.
  rewrite (one_tag h rows prow row Ho Hpin Hin Hpo Hobj) in Hnot by congruence.
  by rewrite Htag, exit_tag_is in Hnot.
Qed.

Lemma flattened_bookings id a h r cs tag :
  flattened rest id a h r cs -> quiet tag cs
  \/ bookings booked tag [] h = 0%nat /\ exists cs' c, cs = cs' ++ [c] /\ quiet tag cs'.
Proof.
  intros [e c Hc|rows parent ordered e|rows parent ordered c ? ? ? Hp|rows parent ordered c e r' ? ? ? Hp
         |rows parent ordered c s exchange p r' Ho Ha _ Hp He _ Hcl _];
    try (left; first [by destruct Hc as [[-> _]|[-> _]]|by eapply pulled_quiet|done]).
  destruct (decide (tag = exit_tag_for id)) as [->|Hne].
  - right. split; [by eapply booked_exit_found|]. exists c, (CallPlace p). split; [done|]. by eapply pulled_quiet.
  - left. rewrite forallb_app. rewrite (pulled_quiet _ _ _ _ _ _ Hp). simpl. rewrite (cl_tag _ _ _ _ _ Hcl).
    destruct (String.eqb_spec (exit_tag_for id) tag); [congruence|done].
Qed.

(** One operation books at most one exit, and only the first of its tag. *)
Lemma kite_op_bookings op a h tag :
  is_exit_tag tag = true ->
  exists cs, (kite_op rest op (a, h)).2 = h ++ cs /\
  (quiet tag cs \/ bookings booked tag [] h = 0%nat /\ exists cs' c, cs = cs' ++ [c] /\ quiet tag cs').
Proof.
  intros Ht. destruct op as [i|id i|id|id lower upper|c|]; cbn [kite_op].
  - unfold place. destruct (resolve_exchange a (symbol i)) as [x|e]; [|exists []; by rewrite app_nil_r; auto].
    unfold register_tag, issue. exists [CallPlace (build_place_params i (short_tag (client_ref i)) x)]. split.
    + destruct (rest h _) as [d|e]; [|done]. by destruct (String.eqb (extract_order_id d) "").
    + left. cbn [forallb]. by rewrite order_call_quiet.
  - unfold modify. destruct (resolve_exchange a (symbol i)) as [x|e]; [|exists []; by rewrite app_nil_r; auto].
    unfold register_tag, issue. eexists [_]. split; [by destruct (rest h _)|by left].
  - unfold cancel, issue. exists [CallCancel id]. split; [by destruct (rest h _)|by left].
  - pose proof (flatten_run rest id lower upper a h) as Hr.
    destruct (square_off_banded rest id lower upper a h) as [[r a'] h']. destruct Hr as (cs & -> & Hfl).
    exists cs. split; [done|]. by eapply flattened_bookings.
  - exists (if is_read c then [c] else []). destruct c; cbn; rewrite ?app_nil_r; auto.
  - exists []. rewrite app_nil_r. auto.
Qed.

(** C20: whatever sequence of orders, modifications, cancels, reads, restarts
    and flattens -- the same parent flattened any number of times, under any
    bands, by adapters that remember nothing, with exits whose acknowledgement
    was lost -- at most one exit with a given exit tag is ever put at a broker
    that echoes tags. *)
Theorem one_exit_ever ops a tag :
  is_exit_tag tag = true ->
  (bookings booked tag [] (foldl (fun s op => kite_op rest op s) (a, []) ops).2 <= 1)%nat.
Proof.
  intros Ht. induction ops as [|op ops IH] using rev_ind; [simpl; lia|]. rewrite foldl_app. cbn [foldl].
  destruct (foldl _ _ ops) as [a1 h1]. cbn [snd] in IH.
  destruct (kite_op_bookings op a1 h1 tag Ht) as (cs & -> & [Hq|(Hz & cs' & c & -> & Hq)]).
  - rewrite bookings_app, (bookings_quiet _ _ _ Hq). lia.
  - rewrite !bookings_app, Hz, (bookings_quiet _ _ _ Hq). cbn. destruct (_ && _); lia.
Qed.
End Replays.

(** ** A concrete broker: every order is booked, no acknowledgement arrives *)

Definition sample_parent : json :=
  JObject [("order_id", JString "P1"); ("tag", JString "be0123456789abcdef"); ("tradingsymbol", JString "INFY");
           ("transaction_type", JString "BUY"); ("status", JString "OPEN"); ("product", JString "NRML");
           ("exchange", JString "NSE"); ("quantity", JInt 50); ("filled_quantity", JInt 30)].

Definition echo_row (c : KiteCall) : option json :=
  match c with
  | CallPlace p =>
      match p !! "tag" with
      | Some (JString t) =>
          Some (JObject [("order_id", JString ("E" +:+ t)); ("tag", JString t); ("status", JString "OPEN");
                         ("quantity", default JNull (p !! "quantity"))])
      | _ => None
      end
  | _ => None
  end.

Definition echo_rest (h : list KiteCall) (c : KiteCall) : result json :=
  match c with
  | CallOrders => Ok (JArray (sample_parent :: omap echo_row h))
  | CallPlace _ => Err (make_error Network "no answer" "")
  | _ => Ok (JObject [])
  end.

Definition echo_booked (_ : list KiteCall) (_ : KiteCall) : bool := true.

Lemma bookings_carried booked tag before cs :
  (0 < bookings booked tag before cs)%nat -> exists c, c ∈ cs /\ carries tag c = true.
Proof.
  revert before. induction cs as [|c cs IH]; intros before; simpl; [lia|].
  destruct (carries tag c) eqn:E; [exists c; split; [by left|done]|].
  intros H. destruct (IH (before ++ [c])) as (c' & ? & ?); [done|]. exists c'. split; [by right|done].
Qed.

Lemma echo_row_carried c row : echo_row c = Some row -> is_object row = true /\
  json_str row "order_id" = "E" +:+ json_str row "tag".
Proof.
  unfold echo_row. destruct c as [p| | | | | |]; try done. destruct (p !! "tag") as [[]|]; try done. by intros [= <-].
Qed.

#[export] Instance echo_broker : TagEchoingBroker echo_rest echo_booked.
Proof.
  split.
  - intros tag h rows (c & Hin & Hc)%bookings_carried [= <-]. unfold carries in Hc.
    destruct c as [p| | | | | |]; try done. destruct (p !! "tag") as [[| | | |t| |]|] eqn:E; try done.
    apply String.eqb_eq in Hc as ->.
    exists (JObject [("order_id", JString ("E" +:+ tag)); ("tag", JString tag); ("status", JString "OPEN");
                     ("quantity", default JNull (p !! "quantity"))]).
    split; [|done]. right. apply list_elem_of_omap. exists (CallPlace p). split; [done|]. simpl. by rewrite E.
  - intros tag rows r1 r2 [= <-] H1 H2 _ _ Hid.
    rewrite elem_of_cons, list_elem_of_omap in H1. rewrite elem_of_cons, list_elem_of_omap in H2.
    destruct H1 as [->|(c1 & _ & [_ H1]%echo_row_carried)], H2 as [->|(c2 & _ & [_ H2]%echo_row_carried)]; [done|..].
    + rewrite H2 in Hid. discriminate Hid.
    + rewrite H1 in Hid. discriminate Hid.
    + rewrite H1, H2 in Hid. by injection Hid.
Qed.

Definition panic_walk : list KiteOp :=
  [DoSquareOff "P1" None None; DoRestart; DoSquareOff "P1" None None; DoRead CallOrders; DoSquareOff "P1" None None].

(** Three flattens over a lost acknowledgement: one exit. *)
Example panic_walk_books_one :
  bookings echo_booked (exit_tag_for "P1") []
    (foldl (fun s op => kite_op echo_rest op s) (new_adapter None, []) panic_walk).2 = 1%nat.
Proof. by vm_compute. Qed.

Lemma one_exit_ever_witness :
  is_exit_tag (exit_tag_for "P1") = true /\
  (bookings echo_booked (exit_tag_for "P1") []
    (foldl (fun s op => kite_op echo_rest op s) (new_adapter None, []) panic_walk).2 <= 1)%nat.
Proof.
  split; [apply exit_tag_is|].
  apply (one_exit_ever echo_rest echo_booked panic_walk (new_adapter None) (exit_tag_for "P1") (exit_tag_is "P1")).
Defined.

(** ** What a field says, without the readers

    A field is empty, or carries a text; the text is an amount or a count by the
    grammars of Decimal. A field with no reading at all is unreadable. *)

Definition field_empty (row : json) (key : string) : Prop :=
  find_key row key = None \/ find_key row key = Some JNull \/ find_key row key = Some (JString "").

Inductive field_text (row : json) (key : string) : string -> Prop :=
  | field_string text : find_key row key = Some (JString text) -> text <> "" -> field_text row key text
  | field_integer z : find_key row key = Some (JInt z) -> field_text row key (pretty z)
  | field_float text : find_key row key = Some (JFloat text) -> field_text row key text.

(** Whole units, or decimal text of a whole number of units. *)
Definition count_text (l : list ascii) (v : Z) : Prop :=
  int_text l v \/ (forall v', ~ int_text l v') /\ exists p, decimal_paise l p /\ Z.rem p 100 = 0 /\ v = Z.quot p 100.

Definition field_reading (grammar : list ascii -> Z -> Prop) (row : json) (key : string) (o : option Z) : Prop :=
  match o with
  | None => field_empty row key
  | Some v => exists text, field_text row key text /\ grammar (trim_ascii (chars text)) v
  end.

Definition money_reading := field_reading decimal_paise.
Definition count_reading := field_reading count_text.

Definition unreadable (grammar : list ascii -> Z -> Prop) (row : json) (key : string) : Prop :=
  forall o, ~ field_reading grammar row key o.

Definition money_unreadable := unreadable decimal_paise.
Definition count_unreadable := unreadable count_text.

(** What a reader owes a grammar: the reading, unflagged; or the flag. *)
Definition reads (grammar : list ascii -> Z -> Prop) (row : json) (key : string) (r : reading (option Z)) : Prop :=
  (exists o, r = (o, false) /\ forall o', field_reading grammar row key o' <-> o' = o) \/
  (r = (None, true) /\ unreadable grammar row key).

Lemma numeric_text_spec row key :
  (numeric_text row key = (None, false) /\ field_empty row key /\ forall t, ~ field_text row key t)
  \/ (exists text, numeric_text row key = (Some text, false) /\ ~ field_empty row key /\ forall t, field_text row key t <-> t = text)
  \/ (numeric_text row key = (None, true) /\ ~ field_empty row key /\ forall t, ~ field_text row key t).
Proof.
  unfold numeric_text, field_empty.
  destruct (find_key row key) as [[| |z|f|[|c t]| |]|] eqn:E; cbn;
    first [left; split; [done|]; split; [by auto|]; intros t' [? H ?|? H|? H]; congruence
          |right; right; split; [done|]; split; [by intros [?|[?|?]]|]; intros t' [? H ?|? H|? H]; congruence
          |right; left; eexists; split; [done|]; split; [by intros [?|[?|?]]|];
           intros t'; split; [intros [? H ?|? H|? H]; congruence|intros ->; by econstructor]].
Qed.

(** A reader that takes the text through a parser of the grammar. *)
Lemma parser_reads grammar parse row key :
  (forall text v, parse text = Some v <-> grammar (trim_ascii (chars text)) v) ->
  reads grammar row key
    (match numeric_text row key with
     | (None, bad) => (None, bad)
     | (Some text, bad) => match parse text with Some v => (Some v, bad) | None => (None, true) end
     end).
Proof.
  intros Hp. destruct (numeric_text_spec row key) as [(-> & He & Hn)|[(text & -> & He & Ht)|(-> & He & Hn)]].
  - left. exists None. split; [done|]. intros [v|]; cbn; [|tauto]. split; [|done]. by intros (t & ?%Hn & _).
  - destruct (parse text) as [v|] eqn:E; [left; exists (Some v)|right]; (split; [done|]).
    + intros [w|]; cbn; [|split; [done|congruence]]. split.
      * intros (t & ->%Ht & Hg%Hp). congruence.
      * intros [= ->]. exists text. rewrite Ht, <- Hp. done.
    + intros [w|]; cbn; [|done]. intros (t & ->%Ht & Hg%Hp). congruence.
  - right. split; [done|]. intros [v|]; cbn; [|done]. by intros (t & ?%Hn & _).
Qed.

Lemma money_reads row key : reads decimal_paise row key (json_paise_opt row key).
Proof. apply (parser_reads _ parse_decimal_paise), parse_decimal_paise_spec. Qed.

(** The count parser: the whole number first, then whole units of decimal text. *)
Definition parse_count (text : string) : option Z :=
  match parse_int64 text with
  | Some v => Some v
  | None => p ← parse_decimal_paise text; if Z.rem p 100 =? 0 then Some (Z.quot p 100) else None
  end.

Lemma parse_count_spec text v : parse_count text = Some v <-> count_text (trim_ascii (chars text)) v.
Proof.
  unfold parse_count, count_text. setoid_rewrite <- parse_int64_spec. setoid_rewrite <- parse_decimal_paise_spec.
  destruct (parse_int64 text) as [w|].
  - split; [by left|]. intros [?|[H _]]; [done|]. by destruct (H w).
  - destruct (parse_decimal_paise text) as [p|]; cbn.
    + destruct (Z.eqb_spec (Z.rem p 100) 0); split.
      * intros [= <-]. right. eauto.
      * intros [?|[_ (p' & [= <-] & _ & ->)]]; done.
      * done.
      * by intros [?|[_ (p' & [= <-] & ? & _)]].
    + split; [done|]. by intros [?|[_ (p' & ? & _)]].
Qed.

Lemma count_reads row key : reads count_text row key (json_int_opt row key).
Proof.
  replace (json_int_opt row key) with
    (match numeric_text row key with
     | (None, bad) => (None, bad)
     | (Some text, bad) => match parse_count text with Some v => (Some v, bad) | None => (None, true) end
     end); [apply parser_reads, parse_count_spec|].
  unfold json_int_opt, parse_count. destruct (numeric_text row key) as [[text|] bad]; [|done].
  destruct (parse_int64 text); [done|]. destruct (parse_decimal_paise text) as [p|]; [|done]. cbn.
  by destruct (Z.rem p 100 =? 0).
Qed.

(** ** The reads *)

Section Reads.
  Context (rest : list KiteCall -> KiteCall -> result json).

Lemma json_int_flag row key : json_int row key = (default 0 (json_int_opt row key).1, (json_int_opt row key).2).
Proof. unfold json_int. by destruct (json_int_opt row key). Qed.

Lemma json_paise_flag row key : json_paise row key = (default 0 (json_paise_opt row key).1, (json_paise_opt row key).2).
Proof. unfold json_paise. by destruct (json_paise_opt row key). Qed.

(** The trigger a stop row's reading gives: a positive one. *)
Definition positive_price (o : option Z) : option Price :=
  match o with Some t => if 0 <? t then Some (from_paise t) else None | None => None end.

Definition stop_row (row : json) : Prop :=
  parse_order_type (json_str row "order_type") = StopLoss \/ parse_order_type (json_str row "order_type") = StopLossMarket.

Lemma reports_stop_row row : reports_stop (parse_order_type (json_str row "order_type")) = true <-> stop_row row.
Proof. unfold reports_stop, stop_row. by rewrite orb_true_iff, !bool_decide_eq_true. Qed.

(** The published order against its row: the readings when every field it
    consults has one, [Unknown] when one has none. *)
Definition order_row_ok (row : json) (o : Order) : Prop :=
  0 <= quantity_value (filled_qty o)
  /\ (count_unreadable row "filled_quantity" \/ money_unreadable row "average_price" \/
      (stop_row row /\ money_unreadable row "trigger_price") -> state o = Unknown)
  /\ (forall q p, count_reading row "filled_quantity" q -> money_reading row "average_price" p ->
      (stop_row row -> exists t, money_reading row "trigger_price" t) -> state o = map_status (json_str row "status"))
  /\ (forall q, count_reading row "filled_quantity" q -> quantity_value (filled_qty o) = Z.max 0 (default 0 q))
  /\ (forall p, money_reading row "average_price" p -> price_paise (avg_price o) = default 0 p)
  /\ (forall t, stop_row row -> money_reading row "trigger_price" t -> trigger_price (intent o) = positive_price t)
  /\ (is_Some (trigger_price (intent o)) -> stop_row row /\ ~ money_unreadable row "trigger_price").

Lemma positive_or_zero_max v : positive_or_zero v = Z.max 0 v.
Proof. unfold positive_or_zero. destruct (Z.ltb_spec 0 v); lia. Qed.

Lemma with_state_fields st o :
  intent (with_state st o) = intent o /\ filled_qty (with_state st o) = filled_qty o /\ avg_price (with_state st o) = avg_price o
  /\ state (with_state st o) = st.
Proof. done. Qed.

(** A reader's answer against the field: its value, or no reading and the flag. *)
Lemma reads_value grammar row key r o : reads grammar row key r -> field_reading grammar row key o -> r = (o, false).
Proof. intros [(o' & -> & H)|[_ Hu]] Ho; [by apply H in Ho as ->|by destruct (Hu o)]. Qed.

Lemma reads_flag grammar row key r : reads grammar row key r -> r.2 = true <-> unreadable grammar row key.
Proof.
  intros [(o & -> & H)|[-> Hu]]; cbn; [|done]. split; [done|]. intros Hu. by destruct (Hu o (proj2 (H o) eq_refl)).
Qed.

Lemma reads_unflagged grammar row key r : reads grammar row key r -> r.2 = false -> field_reading grammar row key r.1.
Proof. intros [(o & -> & H)|[-> _]]; cbn; [|done]. intros _. by apply H. Qed.

Lemma reads_some grammar row key r : reads grammar row key r -> is_Some r.1 -> r.2 = false.
Proof. by intros [(o & -> & H)|[-> _]]; cbn; [|intros [? ?]]. Qed.

Lemma json_trigger_spec row : json_trigger_paise row "trigger_price" =
  (price_paise <$> positive_price (json_paise_opt row "trigger_price").1, (json_paise_opt row "trigger_price").2).
Proof. unfold json_trigger_paise. destruct (json_paise_opt row "trigger_price") as [[t|] bad]; cbn; [|done]. by destruct (0 <? t). Qed.

Lemma positive_price_again o : from_paise <$> (price_paise <$> positive_price o) = positive_price o.
Proof. destruct o as [t|]; cbn; [|done]. by destruct (0 <? t). Qed.

(** The row's flag, and its fields, read off the readers. *)
Lemma order_row_fields a row :
  let o := order_row a row in
  let q := json_int_opt row "filled_quantity" in
  let p := json_paise_opt row "average_price" in
  let stop := reports_stop (parse_order_type (json_str row "order_type")) in
  let t := if stop then json_paise_opt row "trigger_price" else (None, false) in
  filled_qty o = quantity_of (Z.max 0 (default 0 q.1)) /\ avg_price o = from_paise (default 0 p.1)
  /\ trigger_price (intent o) = positive_price t.1
  /\ state o = if q.2 || p.2 || t.2 then Unknown else map_status (json_str row "status").
Proof.
  unfold order_row, read_order. rewrite json_int_flag, json_paise_flag, json_trigger_spec.
  destruct (reports_stop _); cbn [fst snd positive_price];
    (match goal with |- context [if ?b then with_state _ _ else _] => destruct b end);
    cbn; rewrite positive_or_zero_max, ?positive_price_again; done.
Qed.

Lemma order_row_spec a row : order_row_ok row (order_row a row).
Proof.
  destruct (order_row_fields a row) as (Hq & Hp & Ht & Hs). unfold order_row_ok. rewrite Hq, Hp, Ht, Hs.
  pose proof (count_reads row "filled_quantity") as Rq. pose proof (money_reads row "average_price") as Rp.
  pose proof (money_reads row "trigger_price") as Rt. pose proof (reports_stop_row row) as Hstop.
  split; [cbn; lia|]. split_and!.
  - intros [H|[H|[Hst H]]].
    + by rewrite (proj2 (reads_flag _ _ _ _ Rq) H).
    + by rewrite (proj2 (reads_flag _ _ _ _ Rp) H), orb_true_r.
    + by rewrite (proj2 Hstop Hst), (proj2 (reads_flag _ _ _ _ Rt) H), orb_true_r.
  - intros q p Hq' Hp' Ht'. rewrite (reads_value _ _ _ _ _ Rq Hq'), (reads_value _ _ _ _ _ Rp Hp').
    destruct (reports_stop _) eqn:Es; [|done]. destruct Ht' as [t Ht']; [by apply Hstop|].
    by rewrite (reads_value _ _ _ _ _ Rt Ht').
  - intros q Hq'. by rewrite (reads_value _ _ _ _ _ Rq Hq').
  - intros p Hp'. by rewrite (reads_value _ _ _ _ _ Rp Hp').
  - intros t Hst Ht'. by rewrite (proj2 Hstop Hst), (reads_value _ _ _ _ _ Rt Ht').
  - destruct (reports_stop _) eqn:Es; cbn; [|by intros [? ?]]. intros Hsome. split; [by apply Hstop|].
    intros Hu. apply (reads_flag _ _ _ _ Rt) in Hu. rewrite (reads_some _ _ _ _ Rt) in Hu; [done|].
    by destruct (json_paise_opt row "trigger_price").1; [|destruct Hsome].
Qed.

(** A trade against its row: a row with an unreadable number keeps no
    attribution; a readable one is published as it reads. *)
Definition trade_row_ok (a : KiteAdapter) (row : json) (t : Trade) : Prop :=
  0 <= quantity_value (trade_quantity t)
  /\ (count_unreadable row "quantity" \/ money_unreadable row "average_price" -> trade_client_ref t = "")
  /\ (forall q p, count_reading row "quantity" q -> money_reading row "average_price" p ->
      trade_client_ref t = recover_client_ref a (json_str row "order_id") (json_str row "tag"))
  /\ (forall q, count_reading row "quantity" q -> quantity_value (trade_quantity t) = Z.max 0 (default 0 q))
  /\ (forall p, money_reading row "average_price" p -> price_paise (trade_price t) = default 0 p).

Lemma trade_row_spec a row : trade_row_ok a row (trade_row a row).
Proof.
  unfold trade_row, trade_row_ok. rewrite json_int_flag, json_paise_flag, positive_or_zero_max. cbn.
  pose proof (count_reads row "quantity") as Rq. pose proof (money_reads row "average_price") as Rp.
  split_and!; [lia| | | |].
  - intros [H|H]; [rewrite (proj2 (reads_flag _ _ _ _ Rq) H)|rewrite (proj2 (reads_flag _ _ _ _ Rp) H)]; rewrite ?orb_true_r; done.
  - intros q p Hq Hp. by rewrite (reads_value _ _ _ _ _ Rq Hq), (reads_value _ _ _ _ _ Rp Hp).
  - intros q Hq. by rewrite (reads_value _ _ _ _ _ Rq Hq).
  - intros p Hp. by rewrite (reads_value _ _ _ _ _ Rp Hp).
Qed.

Definition position_row_ok (row : json) (p : Position) : Prop :=
  exists q v, count_reading row "quantity" q /\ money_reading row "average_price" v
  /\ pos_symbol p = json_str row "tradingsymbol"
  /\ quantity_value (net_qty p) = default 0 q /\ price_paise (pos_avg_price p) = default 0 v.

Lemma position_rows_spec rows :
  existsb snd (position_row <$> rows) = false -> Forall2 position_row_ok rows (fst <$> (position_row <$> rows)).
Proof.
  induction rows as [|row rows IH]; [by constructor|]. cbn [fmap list_fmap existsb]. intros [Hr Hs]%orb_false_iff.
  constructor; [|by apply IH]. revert Hr. unfold position_row, position_row_ok.
  rewrite json_int_flag, json_paise_flag. cbn. intros [Hq Hp]%orb_false_iff.
  eexists _, _. split; [by apply (reads_unflagged _ _ _ _ (count_reads row "quantity"))|].
  by split; [apply (reads_unflagged _ _ _ _ (money_reads row "average_price"))|].
Qed.

Lemma fmap_Forall2 {A B} (f : A -> B) (P : A -> B -> Prop) l : (forall x, P x (f x)) -> Forall2 P l (f <$> l).
Proof. intros H. induction l; by constructor. Qed.

(** A number inside a nested object of the margins answer; absent without it. *)
Definition nested_reading (seg : json) (group key : string) (o : option Z) : Prop :=
  match find_key seg group with Some (JObject fields) => money_reading (JObject fields) key o | _ => o = None end.

Definition nested_unreadable (seg : json) (group key : string) : Prop := forall o, ~ nested_reading seg group key o.

(** The available margin a margins answer supports: [live_balance] unless it is
    absent, unreadable or zero; then [net]; a zero balance stands when [net]
    gives nothing; with neither spelling present it is zero. *)
Inductive available_reading (seg : json) : Z -> Prop :=
  | from_live v : nested_reading seg "available" "live_balance" (Some v) -> v <> 0 -> available_reading seg v
  | from_net v : nested_reading seg "available" "live_balance" None \/ nested_reading seg "available" "live_balance" (Some 0)
      \/ nested_unreadable seg "available" "live_balance" -> money_reading seg "net" (Some v) -> available_reading seg v
  | from_zero : nested_reading seg "available" "live_balance" (Some 0) -> (forall v, ~ money_reading seg "net" (Some v)) ->
      available_reading seg 0
  | from_nothing : nested_reading seg "available" "live_balance" None -> money_reading seg "net" None -> available_reading seg 0.

Definition nested_read (seg : json) (group key : string) : reading (option Z) :=
  match find_key seg group with Some (JObject fields) => json_paise_opt (JObject fields) key | _ => (None, false) end.

Lemma nested_read_spec seg group key :
  (exists o, nested_read seg group key = (o, false) /\ nested_reading seg group key o)
  \/ (nested_read seg group key = (None, true) /\ nested_unreadable seg group key).
Proof.
  unfold nested_read, nested_unreadable, nested_reading. destruct (find_key seg group) as [[ | | | | | |fields]|]; eauto.
  destruct (money_reads (JObject fields) key) as [(o & -> & H)|[-> Hu]]; [|by right]. left. exists o. split; [done|]. by apply H.
Qed.

Lemma available_readable seg av : read_available seg = (av, false) -> available_reading seg (default 0 av).
Proof.
  change (read_available seg) with
    (let '(live, bad_live) := nested_read seg "available" "live_balance" in
     let '(available, garbage) :=
       if negb (bool_decide (is_Some live)) || bool_decide (live = Some 0)
       then let '(net, bad_net) := json_paise_opt seg "net" in
            (match net with Some v => Some v | None => live end, bad_live || bad_net)
       else (live, bad_live) in
     (available, negb (bool_decide (is_Some available)) && garbage)).
  destruct (nested_read_spec seg "available" "live_balance") as [(l & -> & Hl)|[-> Hl]];
    destruct (money_reads seg "net") as [(n & -> & Hn)|[-> Hn]].
  all: try destruct l as [l|]; cbn.
  all: try (case_bool_decide as El; [injection El as ->|]; cbn).
  all: try (destruct n as [n|]; cbn).
  all: intros [= <-]; cbn; try done.
  all: try (eapply from_live; [done|congruence]).
  all: try (eapply from_net; [by eauto|by apply Hn]).
  all: try (eapply from_nothing; [done|by apply Hn]).
  all: eapply from_zero; [done|]; intros v Hv; first [by apply Hn in Hv|by destruct (Hn _ Hv)].
Qed.

Lemma used_readable seg us : read_used seg = (us, false) -> nested_reading seg "utilised" "debits" us.
Proof.
  change (read_used seg) with (nested_read seg "utilised" "debits").
  by destruct (nested_read_spec seg "utilised" "debits") as [(u & -> & Hu)|[-> Hu]]; intros [= <-].
Qed.

(** C30: the Kite reads fail closed, with "unreadable" stated over the field
    and the documented number grammars and not over the readers: a field is
    empty (missing, null, an empty text), or carries a text that is an amount or
    a count, or has no reading at all. An answer is published only when its
    envelope has the documented shape, one entry per object row. An order row
    whose fill or price, or whose trigger on a stop row, is unreadable is
    published Unknown, and a readable one with its mapped status; every readable
    number is published as it reads, a fill or trade size never negative, a
    trigger only on a stop row and positive. An unreadable trade keeps no
    attribution. A position book is published only when every number on every
    row is readable, and as they read. A funds answer is published only when the
    used margin is readable and the available margin is supported by one of its
    two spellings, and with those values. *)
Theorem reads_fail_closed a h :
  (forall os, (fetch_orders rest a h).1 = Ok os -> exists rows,
     rest h CallOrders = Ok (JArray rows) /\ Forall2 order_row_ok (filter is_object rows) os)
  /\ (forall ts, (fetch_trades rest a h).1 = Ok ts -> exists rows,
     rest h CallTrades = Ok (JArray rows) /\ Forall2 (trade_row_ok a) (filter is_object rows) ts)
  /\ (forall ps, (fetch_positions rest h).1 = Ok ps -> exists data rows,
     rest h CallPositions = Ok data /\ find_key data "net" = Some (JArray rows)
     /\ Forall2 position_row_ok (filter is_object rows) ps)
  /\ (forall f, (fetch_funds rest h).1 = Ok f -> exists seg u,
     rest h (CallMargins "equity") = Ok seg /\ is_object seg = true
     /\ nested_reading seg "utilised" "debits" u /\ money_paise (used_margin f) = default 0 u
     /\ available_reading seg (money_paise (available_margin f))).
Proof.
  repeat split.
  - intros os. unfold fetch_orders, issue. destruct (rest h CallOrders) as [[ | | | | |rows|]|] eqn:E; try done.
    intros [= <-]. exists rows. split; [done|]. apply fmap_Forall2, order_row_spec.
  - intros ts. unfold fetch_trades, issue. destruct (rest h CallTrades) as [[ | | | | |rows|]|] eqn:E; try done.
    intros [= <-]. exists rows. split; [done|]. apply fmap_Forall2, trade_row_spec.
  - intros ps. unfold fetch_positions, issue. destruct (rest h CallPositions) as [data|] eqn:E; [|done].
    destruct (is_object data); [|done]. destruct (find_key data "net") as [[ | | | | |rows|]|] eqn:Ef; try done.
    destruct (existsb _ _) eqn:Ex; [done|]. intros [= <-]. exists data, rows. eauto using position_rows_spec.
  - intros f. unfold fetch_funds, issue. destruct (rest h (CallMargins "equity")) as [seg|] eqn:E; [|done].
    destruct (is_object seg) eqn:Eo; [|done]. cbn [negb].
    destruct (read_available seg) as [av ba] eqn:Ea, (read_used seg) as [us bu] eqn:Eu.
    destruct (ba || bu) eqn:Eb; [done|]. apply orb_false_iff in Eb as [-> ->]. intros [= <-].
    exists seg, us. split_and!; [done..|by apply used_readable|done|by apply available_readable].
Qed.
End Reads.

(** ** A filled order without its fill *)

Definition complete_parent : json :=
  JObject [("order_id", JString "P1"); ("tradingsymbol", JString "INFY"); ("transaction_type", JString "BUY");
           ("status", JString "COMPLETE"); ("quantity", JInt 50)].

Definition complete_rest (h : list KiteCall) (c : KiteCall) : result json :=
  match c with
  | CallOrders => Ok (JArray [complete_parent])
  | CallCancel _ => Err (make_error OrderNotFound "already complete" "")
  | _ => Ok (JObject [])
  end.

(** A row that says COMPLETE and carries no filled quantity is answered flat,
    and no exit is sent. *)
Example complete_without_fill_reads_flat :
  square_off complete_rest "P1" (new_adapter None) [] = (Ok tt, new_adapter None, [CallOrders; CallCancel "P1"]).
Proof. by vm_compute. Qed.

(** ** Garbage on a row *)

Definition garbage_row : json :=
  JObject [("order_id", JString "A1"); ("tradingsymbol", JString "INFY"); ("status", JString "COMPLETE");
           ("quantity", JString "N/A"); ("filled_quantity", JInt 50); ("average_price", JString "1,450.25")].

Definition garbage_rest (h : list KiteCall) (c : KiteCall) : result json :=
  match c with
  | CallPositions => Ok (JObject [("net", JArray [garbage_row])])
  | _ => Ok (JArray [garbage_row])
  end.

(** An unparseable price is not a zero price: the order asserts nothing, the
    position book is refused. *)
Example garbage_is_not_absence :
  (state <$> match (fetch_orders garbage_rest (new_adapter None) []).1 with Ok os => os | Err _ => [] end) = [Unknown]
  /\ (match (fetch_positions garbage_rest []).1 with Ok _ => None | Err e => Some (category e) end) = Some DataStale.
Proof. by vm_compute. Qed.
