(* ===== verification/KiteRest.v ===== *)
(** * KiteRest: the Kite REST client
    (src/src/adapters/kite/kite_rest_client.cpp)

    Form encoding, the path-segment gate, the error mapper, and the calls of the
    client over a transport that is a seam. Parsing a body and dumping a composite
    value belong to the JSON library and are parameters. The last section runs the
    adapter of [KiteAdapter] on this client. *)

From stdpp Require Import sorting.
From S2P Require Import Prelude Errors Domain Redaction WireJson KiteAdapter.

(** ** Encoding *)

(** A byte of the unreserved set passes; the rest are percent-encoded. *)
Definition is_unreserved (c : ascii) : bool :=
  is_alnum c || bool_decide (c ∈ ["-"; "_"; "."; "~"]%char).

Definition kHex (d : nat) : ascii := default "0"%char (chars "0123456789ABCDEF" !! d).

Definition encode_char (c : ascii) : list ascii :=
  if is_unreserved c then [c] else ["%"%char; kHex (nat_of_ascii c / 16)%nat; kHex (nat_of_ascii c mod 16)%nat].

Definition url_encode (s : string) : string := str (chars s ≫= encode_char).

Section Client.
  (** The library's [parse] without exceptions, and [dump] of a composite value. *)
  Context (parse : string -> option json) (dump : json -> string).

Definition param_text (v : json) : string :=
  match v with
  | JString s => s
  | JNull => "null"
  | JBool b => if b then "true" else "false"
  | JInt z => pretty z
  | JFloat text => text
  | JArray _ | JObject _ => dump v
  end.

Definition form_field (out : string) (field : string * json) : string :=
  (if String.eqb out "" then out else out +:+ "&") +:+ url_encode field.1 +:+ "=" +:+ url_encode (param_text field.2).

Definition form_encode (params : json) : string :=
  match params with JObject fields => foldl form_field "" fields | _ => "" end.

(** ** The path-segment gate *)

Definition kMaxPathIdChars : nat := 64.

Definition is_path_id_char (c : ascii) : bool := is_alnum c || Ascii.eqb c "-" || Ascii.eqb c "_".

Definition is_path_id_shape (value : string) : bool :=
  negb (String.eqb value "") && (String.length value <=? kMaxPathIdChars)%nat && forallb is_path_id_char (chars value).

Definition encoded_path_segment (value what code : string) : result string :=
  if negb (is_path_id_shape value) then
    Err (make_error_with Validation DoNotRetry
           ("kite: the " +:+ what +:+ " is not id-shaped ([A-Za-z0-9_-], 1-64 bytes); it was NOT spliced into a request URL path and nothing was sent") code)
  else Ok (url_encode value).

(** ** Requests and responses (http_client.hpp) *)

Inductive Method := Get | Post | Put | Delete.

Record HttpRequest := mkRequest {
  method : Method;
  path : string;
  query : list (string * string);
  headers : list (string * string);
  body : string;
}.

Record HttpResponse := mkResponse {
  status_code : Z;
  resp_headers : list (string * string);
  resp_body : string;
}.

Definition eq_ci (a b : string) : bool := String.eqb (fold_string a) (fold_string b).

Definition find_header (name : string) (r : HttpResponse) : option string :=
  snd <$> List.find (fun kv => eq_ci kv.1 name) (resp_headers r).

(** [from_chars] into a long: the leading number, whatever follows it. *)
Fixpoint leading_digits (l : list ascii) : list ascii :=
  match l with c :: l => if is_ascii_digit c then c :: leading_digits l else [] | [] => [] end.

Definition parse_long_header (value : string) (out : option Z) : option Z :=
  let '(negative, l) := match chars value with "-"%char :: l => (true, l) | l => (false, l) end in
  match leading_digits l with
  | [] => out
  | ds => let v := if negative : bool then - dec_value ds else dec_value ds in
          if bool_decide (is_int64 v) then Some v else out
  end.

Record RateLimitInfo := mkRateInfo {
  present : bool;
  limit : option Z;
  remaining : option Z;
  retry_after_seconds : option Z;
}.

Definition no_rate_limit : RateLimitInfo := mkRateInfo false None None None.

Definition header_number (name : string) (r : HttpResponse) : option Z :=
  match find_header name r with Some h => parse_long_header h None | None => None end.

Definition extract_rate_limit (r : HttpResponse) : RateLimitInfo :=
  let seen name := bool_decide (is_Some (find_header name r)) in
  mkRateInfo (seen "X-RateLimit-Limit" || seen "X-RateLimit-Remaining" || seen "Retry-After")
    (header_number "X-RateLimit-Limit" r) (header_number "X-RateLimit-Remaining" r) (header_number "Retry-After" r).

(** ** The error mapper *)

Definition envelope_text (r : HttpResponse) (key : string) : string :=
  match parse (resp_body r) with
  | Some envelope => match find_key envelope key with Some (JString s) => s | _ => "" end
  | None => ""
  end.

Definition map_http_error (r : HttpResponse) : Error :=
  let status := status_code r in
  let error_type := envelope_text r "error_type" in
  let raw_message := envelope_text r "message" in
  let typed t := String.eqb error_type t in
  let code := "HTTP " +:+ pretty status +:+ (if typed "" then "" else " " +:+ scrub error_type) in
  let scrubbed := if String.eqb raw_message "" then "" else scrub raw_message in
  let build cat act fallback code :=
    mkError cat act (if String.eqb scrubbed "" then fallback else "kite: " +:+ scrubbed) code in
  if typed "TokenException" || typed "PermissionException" || typed "TwoFAException" || (status =? 401) || (status =? 403) then
    build SessionExpired ReEstablishSession "kite: session expired or invalid; re-establish required" code
  else if (status =? 429) || typed "TooManyRequests" then
    build RateLimited RetrySafe "kite: rate limited by broker"
      (code +:+ match find_header "Retry-After" r with Some ra => " Retry-After=" +:+ ra | None => "" end)
  else if status =? 404 then
    build OrderNotFound ReconcileFirst "kite: order or endpoint not found; reconcile required" code
  else if typed "MarginException" then
    build InsufficientFunds DoNotRetry "kite: insufficient margin for the order" code
  else if typed "OrderException" || typed "NetworkException" || typed "DataException" || typed "GeneralException" || (500 <=? status) then
    build Network ReconcileFirst "kite: broker/transport error; reconcile required" code
  else if typed "InputException" || (negb (String.eqb raw_message "") && ((status =? 400) || (status =? 422))) then
    build Validation DoNotRetry "kite: request rejected as invalid" code
  else if negb (typed "") || negb (String.eqb scrubbed "") then
    build BrokerRejected ReconcileFirst "kite: broker rejected the request" code
  else build CatUnknown ReconcileFirst "kite: unclassified transport error" code.

(** ** The client *)

(** The transport's answer may depend on every request sent before; the secret
    provider answers a name. *)
  Context (http : list HttpRequest -> HttpRequest -> result HttpResponse) (secret : string -> result string).
  Context (api_key_secret_name access_token_secret_name : string).

Record KiteRestClient := mkClient { last_rate_limit : RateLimitInfo; sent : list HttpRequest }.

Definition new_client : KiteRestClient := mkClient no_rate_limit [].

Definition auth_headers : result (list (string * string)) :=
  match secret api_key_secret_name with
  | Err e => Err e
  | Ok api_key =>
      match secret access_token_secret_name with
      | Err e => Err e
      | Ok access_token => Ok [("Authorization", "token " +:+ api_key +:+ ":" +:+ access_token); ("X-Kite-Version", "3")]
      end
  end.

Definition issue_request (m : Method) (p b : string) (s : KiteRestClient) : result HttpResponse * KiteRestClient :=
  match auth_headers with
  | Err e => (Err e, s)
  | Ok hs =>
      let req := mkRequest m p []
        (hs ++ if String.eqb b "" then [] else [("Content-Type", "application/x-www-form-urlencoded")]) b in
      (http (sent s) req, mkClient (last_rate_limit s) (sent s ++ [req]))
  end.

Definition success (r : HttpResponse) : bool := negb ((status_code r <? 200) || (300 <=? status_code r)).

(** A 2xx envelope can still carry an error status. *)
Definition says_error (fields : list (string * json)) : bool :=
  match field_get fields "status" with Some (JString text) => String.eqb text "error" | _ => false end.

Definition request_json (m : Method) (p b : string) (s : KiteRestClient) : result json * KiteRestClient :=
  match issue_request m p b s with
  | (Err e, s) => (Err e, s)
  | (Ok r, s) =>
      let s := mkClient (extract_rate_limit r) (sent s) in
      let http_code := "HTTP " +:+ pretty (status_code r) in
      if negb (success r) then (Err (map_http_error r), s)
      else match parse (resp_body r) with
           | Some (JObject fields) =>
               if says_error fields then (Err (map_http_error r), s)
               else match field_get fields "data" with
                    | None => (Err (make_error CatUnknown "kite: response missing data envelope" http_code), s)
                    | Some data => (Ok data, s)
                    end
           | _ => (Err (make_error CatUnknown "kite: malformed response body" http_code), s)
           end
  end.

Definition request_text (m : Method) (p : string) (s : KiteRestClient) : result string * KiteRestClient :=
  match issue_request m p "" s with
  | (Err e, s) => (Err e, s)
  | (Ok r, s) =>
      let s := mkClient (extract_rate_limit r) (sent s) in
      if negb (success r) then (Err (map_http_error r), s) else (Ok (resp_body r), s)
  end.

Definition place_order (params : json) (s : KiteRestClient) : result json * KiteRestClient :=
  request_json Post "/orders/regular" (form_encode params) s.

Definition modify_order (order_id : string) (params : json) (s : KiteRestClient) : result json * KiteRestClient :=
  match encoded_path_segment order_id "broker order id" "KITE-MODIFY-BADORDERID" with
  | Err e => (Err e, s)
  | Ok segment => request_json Put ("/orders/regular/" +:+ segment) (form_encode params) s
  end.

Definition cancel_order (order_id : string) (params : json) (s : KiteRestClient) : result json * KiteRestClient :=
  match encoded_path_segment order_id "broker order id" "KITE-CANCEL-BADORDERID" with
  | Err e => (Err e, s)
  | Ok segment => request_json Delete ("/orders/regular/" +:+ segment) (form_encode params) s
  end.

Definition orders (s : KiteRestClient) : result json * KiteRestClient := request_json Get "/orders" "" s.
Definition trades (s : KiteRestClient) : result json * KiteRestClient := request_json Get "/trades" "" s.
Definition positions (s : KiteRestClient) : result json * KiteRestClient := request_json Get "/portfolio/positions" "" s.
Definition holdings (s : KiteRestClient) : result json * KiteRestClient := request_json Get "/portfolio/holdings" "" s.

Definition margins (segment : string) (s : KiteRestClient) : result json * KiteRestClient :=
  match encoded_path_segment segment "margins segment" "KITE-MARGINS-BADSEGMENT" with
  | Err e => (Err e, s)
  | Ok encoded => request_json Get ("/user/margins/" +:+ encoded) "" s
  end.

Definition instruments (s : KiteRestClient) : result string * KiteRestClient := request_text Get "/instruments" s.

(** ** The adapter on the client *)

(** A parameter map as the ordered object the adapter passes. *)
Definition params_object (p : params) : json := JObject (by_key p).

Definition client_call (c : KiteCall) (s : KiteRestClient) : result json * KiteRestClient :=
  match c with
  | CallPlace p => place_order (params_object p) s
  | CallModify id p => modify_order id (params_object p) s
  | CallCancel id => cancel_order id (JObject []) s
  | CallOrders => orders s
  | CallTrades => trades s
  | CallPositions => positions s
  | CallMargins segment => margins segment s
  end.

(** The client after a history of calls, and the seam of [KiteAdapter] it gives. *)
Definition client_after (h : list KiteCall) : KiteRestClient := foldl (fun s c => (client_call c s).2) new_client h.

Definition client_rest (h : list KiteCall) (c : KiteCall) : result json := (client_call c (client_after h)).1.
End Client.

(** ** Decoding, as a server does *)

Definition hex_value (c : ascii) : option nat :=
  let n := nat_of_ascii c in
  if (48 <=? n)%nat && (n <=? 57)%nat then Some (n - 48)%nat
  else if (65 <=? n)%nat && (n <=? 70)%nat then Some (n - 55)%nat
  else if (97 <=? n)%nat && (n <=? 102)%nat then Some (n - 87)%nat else None.

Fixpoint percent_decode (l : list ascii) : option (list ascii) :=
  match l with
  | "%"%char :: a :: b :: l =>
      match hex_value a, hex_value b, percent_decode l with
      | Some x, Some y, Some l => Some (ascii_of_nat (16 * x + y) :: l)
      | _, _, _ => None
      end
  | "%"%char :: _ => None
  | c :: l => (fun l => c :: l) <$> percent_decode l
  | [] => Some []
  end.

(** Cut at the first separator; cut at every separator. *)
Fixpoint cut (sep : ascii) (l : list ascii) : list ascii * option (list ascii) :=
  match l with
  | [] => ([], None)
  | c :: l => if Ascii.eqb c sep then ([], Some l) else let '(a, b) := cut sep l in (c :: a, b)
  end.

Fixpoint pieces (sep : ascii) (l : list ascii) : list (list ascii) :=
  match l with
  | [] => [[]]
  | c :: l =>
      if Ascii.eqb c sep then [] :: pieces sep l
      else match pieces sep l with p :: ps => (c :: p) :: ps | [] => [[c]] end
  end.

Definition decode_field (l : list ascii) : option (string * string) :=
  match cut "=" l with
  | (k, Some v) =>
      match percent_decode k, percent_decode v with
      | Some k, Some v => Some (str k, str v)
      | _, _ => None
      end
  | (_, None) => None
  end.

Definition form_decode (body : string) : option (list (string * string)) :=
  if String.eqb body "" then Some [] else mapM decode_field (pieces "&" (chars body)).

Definition plain_char (c : ascii) : bool := is_alnum c || bool_decide (c ∈ ["-"; "_"; "."; "~"; "%"]%char).

(** By inspection of the 256 characters. *)
Lemma encode_char_facts c :
  percent_decode (encode_char c) = Some [c] /\ forallb plain_char (encode_char c) = true.
Proof. destruct c as [[] [] [] [] [] [] [] []]; vm_compute; split; reflexivity. Qed.

Lemma percent_decode_plain c l : c <> "%"%char -> percent_decode (c :: l) = (fun l => c :: l) <$> percent_decode l.
Proof. intros Hc. destruct c as [[] [] [] [] [] [] [] []]; try done. Qed.

Lemma percent_decode_hex a b l :
  percent_decode ("%"%char :: a :: b :: l) =
  match hex_value a, hex_value b, percent_decode l with
  | Some x, Some y, Some l => Some (ascii_of_nat (16 * x + y) :: l)
  | _, _, _ => None
  end.
Proof. reflexivity. Qed.

Lemma percent_decode_char c l : percent_decode (encode_char c ++ l) = (fun l => c :: l) <$> percent_decode l.
Proof.
  destruct (encode_char_facts c) as [H _]. unfold encode_char in *. destruct (is_unreserved c) eqn:E; cbn [app].
  - apply percent_decode_plain. by intros ->.
  - rewrite percent_decode_hex in *. destruct (hex_value _) as [x|]; [|done]. destruct (hex_value _) as [y|]; [|done].
    assert (ascii_of_nat (16 * x + y) = c) as -> by (cbn [percent_decode] in H; congruence). by destruct (percent_decode l).
Qed.

Lemma percent_roundtrip s : percent_decode (chars (url_encode s)) = Some (chars s).
Proof.
  unfold url_encode. rewrite chars_str. induction (chars s) as [|c l IH]; [done|].
  cbn [mbind list_bind]. by rewrite percent_decode_char, IH.
Qed.

Lemma url_encode_plain s : Forall (fun c => plain_char c = true) (chars (url_encode s)).
Proof.
  unfold url_encode. rewrite chars_str. induction (chars s) as [|c l IH]; [constructor|].
  cbn [mbind list_bind]. apply Forall_app. split; [|done].
  apply Forall_forall. intros x Hx. apply (proj1 (forallb_forall _ _) (proj2 (encode_char_facts c))). by apply list_elem_of_In.
Qed.

(** An encoded text holds neither separator. *)
Lemma encoded_no_sep s sep : plain_char sep = false -> sep ∉ chars (url_encode s).
Proof. intros Hp Hin. pose proof (url_encode_plain s) as H. rewrite Forall_forall in H. apply H in Hin. congruence. Qed.

Lemma cut_at sep a b : sep ∉ a -> cut sep (a ++ sep :: b) = (a, Some b).
Proof.
  induction a as [|c a IH]; intros Hn; cbn [app cut]; [by rewrite Ascii.eqb_refl|].
  apply not_elem_of_cons in Hn as [Hne Hn]. destruct (Ascii.eqb_spec c sep); [congruence|]. by rewrite IH.
Qed.

Lemma pieces_one sep a : sep ∉ a -> pieces sep a = [a].
Proof.
  induction a as [|c a IH]; intros Hn; cbn [pieces]; [done|].
  apply not_elem_of_cons in Hn as [Hne Hn]. destruct (Ascii.eqb_spec c sep); [congruence|]. by rewrite IH.
Qed.

Lemma pieces_snoc sep a b : sep ∉ b -> pieces sep (a ++ sep :: b) = pieces sep a ++ [b].
Proof.
  intros Hb. induction a as [|c a IH]; cbn [app pieces].
  - rewrite Ascii.eqb_refl. by rewrite pieces_one.
  - destruct (Ascii.eqb c sep); rewrite IH; [done|]. destruct (pieces sep a) as [|p ps] eqn:E; [|done].
    exfalso. destruct a as [|x a]; cbn [pieces] in E; [done|]. destruct (Ascii.eqb x sep); [done|]. by destruct (pieces sep a).
Qed.

Section Forms.
  Context (dump : json -> string).

Definition encoded_field (field : string * json) : list ascii :=
  chars (url_encode field.1) ++ "="%char :: chars (url_encode (param_text dump field.2)).

Lemma encoded_field_facts field :
  decode_field (encoded_field field) = Some (field.1, param_text dump field.2) /\ "&"%char ∉ encoded_field field.
Proof.
  unfold encoded_field, decode_field. split.
  - rewrite cut_at by (by apply encoded_no_sep). by rewrite !percent_roundtrip, !str_chars.
  - rewrite elem_of_app, elem_of_cons. intros [H|[H|H]]; [|done|]; by eapply encoded_no_sep in H.
Qed.

Lemma form_encode_pieces fields :
  fields <> [] ->
  foldl (form_field dump) "" fields <> "" /\
  pieces "&" (chars (foldl (form_field dump) "" fields)) = encoded_field <$> fields.
Proof.
  induction fields as [|f fields IH] using rev_ind; [done|]. intros _. rewrite foldl_app, fmap_app. cbn [foldl].
  set (out := foldl (form_field dump) "" fields) in *.
  assert (Hc : chars (url_encode f.1 +:+ "=" +:+ url_encode (param_text dump f.2)) = encoded_field f)
    by (unfold encoded_field; by rewrite !chars_app).
  destruct (encoded_field_facts f) as [_ Hamp]. unfold form_field.
  destruct fields as [|g fields].
  - unfold out. cbn [foldl]. change (String.eqb "" "") with true. cbn iota. split.
    + intros E. apply (f_equal String.length) in E. rewrite !str_length_app in E. simpl in E. lia.
    + rewrite chars_app, Hc. cbn [app String.list_ascii_of_string]. by rewrite pieces_one.
  - destruct IH as [Hne Hp]; [done|]. destruct (String.eqb_spec out "") as [|_]; [done|]. split.
    + intros E. apply (f_equal String.length) in E. rewrite !str_length_app in E. simpl in E. lia.
    + rewrite chars_app, Hc, chars_app, <- app_assoc. cbn [app chars]. by rewrite pieces_snoc, Hp.
Qed.

(** What a server reads out of a form. *)
Lemma form_decodes fields :
  form_decode (form_encode dump (JObject fields)) = Some ((fun f => (f.1, param_text dump f.2)) <$> fields).
Proof.
  unfold form_decode, form_encode. destruct fields as [|f fields]; [done|].
  destruct (form_encode_pieces (f :: fields) ltac:(done)) as [Hne Hp].
  destruct (String.eqb_spec (foldl (form_field dump) "" (f :: fields)) "") as [|_]; [done|]. rewrite Hp.
  clear Hne Hp. generalize (f :: fields). intros l. induction l as [|g l IH]; [done|].
  cbn [fmap list_fmap mapM]. by rewrite (proj1 (encoded_field_facts g)), IH.
Qed.

(** a form body decodes to the parameters it was made from: every key with
    the text of its value, in order, whatever bytes they hold, so that no value
    can add, drop or change another parameter; two lists of parameters with the
    same body have the same keys and texts. *)
Theorem form_roundtrip fields fields' :
  form_decode (form_encode dump (JObject fields)) = Some ((fun f => (f.1, param_text dump f.2)) <$> fields)
  /\ (form_encode dump (JObject fields) = form_encode dump (JObject fields') ->
      (fun f => (f.1, param_text dump f.2)) <$> fields = (fun f => (f.1, param_text dump f.2)) <$> fields').
Proof.
  split; [apply form_decodes|]. intros E. pose proof (form_decodes fields) as H. rewrite E, form_decodes in H. by injection H.
Qed.
End Forms.

(** ** The verdicts *)

Section Verdicts.
  Context (parse : string -> option json).

Definition session_verdict (r : HttpResponse) : Prop :=
  envelope_text parse r "error_type" ∈ ["TokenException"; "PermissionException"; "TwoFAException"]
  \/ status_code r = 401 \/ status_code r = 403.

Definition limit_verdict (r : HttpResponse) : Prop :=
  status_code r = 429 \/ envelope_text parse r "error_type" = "TooManyRequests".

Lemma session_verdict_spec r t :
  t = envelope_text parse r "error_type" ->
  (String.eqb t "TokenException" || String.eqb t "PermissionException" || String.eqb t "TwoFAException" ||
   (status_code r =? 401) || (status_code r =? 403)) = true <-> session_verdict r.
Proof.
  intros ->. unfold session_verdict. rewrite !orb_true_iff, !String.eqb_eq, !Z.eqb_eq, !elem_of_cons, elem_of_nil. tauto.
Qed.

Lemma limit_verdict_spec r t :
  t = envelope_text parse r "error_type" ->
  ((status_code r =? 429) || String.eqb t "TooManyRequests") = true <-> limit_verdict r.
Proof. intros ->. unfold limit_verdict. by rewrite orb_true_iff, String.eqb_eq, Z.eqb_eq. Qed.

(** A rejection the broker stated. *)
Definition stated_rejection (r : HttpResponse) : Prop :=
  envelope_text parse r "error_type" ∈ ["MarginException"; "InputException"]
  \/ envelope_text parse r "message" <> "" /\ (status_code r = 400 \/ status_code r = 422).

(** A new session is asked for exactly on a session verdict. *)
Lemma reestablish_verdict r : action (map_http_error parse r) = ReEstablishSession <-> session_verdict r.
Proof.
  unfold map_http_error. rewrite <- (session_verdict_spec r _ eq_refl). destruct (_ || (status_code r =? 403)); [done|].
  split; [|done]. repeat match goal with |- context [if ?b then mkError _ _ _ _ else _] => destruct b end; done.
Qed.

(** what a Kite error response may lead to. A retry is offered only for a
    rate limit, and never when the session is at fault; an order is declared
    dead only on a rejection the broker stated in a body that was read, so a
    body that cannot be read always leads to a reconcile, a session
    re-establishment or a rate limit; "order not found" means a 404 and nothing
    else; a server error is never a rejection without a stated margin verdict;
    and the broker's words reach the message only scrubbed. *)
Theorem http_verdicts r :
  let e := map_http_error parse r in
  (action e = RetrySafe <-> ~ session_verdict r /\ limit_verdict r)
  /\ (action e = ReEstablishSession <-> session_verdict r)
  /\ (action e = DoNotRetry -> stated_rejection r /\ ~ session_verdict r /\ ~ limit_verdict r)
  /\ (action e = RetrySafe \/ action e = ReEstablishSession \/ action e = DoNotRetry \/ action e = ReconcileFirst)
  /\ (parse (resp_body r) = None -> action e <> DoNotRetry)
  /\ (category e = OrderNotFound <-> ~ session_verdict r /\ ~ limit_verdict r /\ status_code r = 404)
  /\ (500 <= status_code r -> envelope_text parse r "error_type" <> "MarginException" -> action e <> DoNotRetry)
  /\ (envelope_text parse r "message" = "" \/ scrub (envelope_text parse r "message") = "" \/
      message e = "kite: " +:+ scrub (envelope_text parse r "message")).
Proof.
  cbv zeta. unfold map_http_error, stated_rejection.
  set (t := envelope_text parse r "error_type"). set (m := envelope_text parse r "message").
  assert (Hn : parse (resp_body r) = None -> t = "" /\ m = "") by (unfold t, m, envelope_text; by intros ->).
  pose proof (session_verdict_spec r t eq_refl) as Hs. pose proof (limit_verdict_spec r t eq_refl) as Hl.
  assert (Hm : forall fallback, m = "" \/ scrub m = "" \/
    (if String.eqb (if String.eqb m "" then "" else scrub m) "" then fallback else "kite: " +:+ (if String.eqb m "" then "" else scrub m)) = "kite: " +:+ scrub m).
  { intros fb. destruct (String.eqb_spec m ""); [by left|right]. destruct (String.eqb_spec (scrub m) ""); auto. }
  destruct (_ || (status_code r =? 403)); [rewrite <- Hs; clear Hs; cbn [action category message]; repeat split; try done; try tauto; try apply Hm|].
  destruct (_ || String.eqb t "TooManyRequests"); [rewrite <- Hs, <- Hl; cbn [action category message]; repeat split; try done; try tauto; try apply Hm; auto|].
  rewrite <- Hs, <- Hl. clear Hs Hl.
  destruct (Z.eqb_spec (status_code r) 404); [cbn [action category message]; repeat split; try done; try tauto; try apply Hm; auto|].
  destruct (String.eqb_spec t "MarginException") as [->|Hmar].
  { cbn [action category message]. repeat split; try done; try tauto; try apply Hm; auto; [|by intros [[=] _]%Hn].
    left. rewrite elem_of_cons. by left. }
  destruct (_ || (500 <=? status_code r)) eqn:E5; [cbn [action category message]; repeat split; try done; try tauto; try apply Hm; auto|].
  apply orb_false_iff in E5 as [_ E5]. apply Z.leb_gt in E5.
  destruct (_ || (_ && _)) eqn:Ei.
  { cbn [action category message].
    assert (Hst : t ∈ ["MarginException"; "InputException"] \/ m <> "" /\ (status_code r = 400 \/ status_code r = 422)).
    { rewrite orb_true_iff, andb_true_iff, orb_true_iff, String.eqb_eq, negb_true_iff, String.eqb_neq, !Z.eqb_eq in Ei.
      destruct Ei as [->|]; [left|by right]. rewrite !elem_of_cons. auto. }
    repeat split; try done; try tauto; try apply Hm; auto; try lia.
    intros [Et Em]%Hn. rewrite Et, Em in Ei. done. }
  clear Ei. destruct (negb (String.eqb t "") || _); cbn [action category message]; repeat split; try done; try tauto; try apply Hm; auto.
Qed.
End Verdicts.

(** ** Requests *)

Lemma alnum_unreserved c : is_path_id_char c = true -> is_unreserved c = true.
Proof. destruct c as [[] [] [] [] [] [] [] []]; vm_compute; done. Qed.

(** An id-shaped text is sent as it is. *)
Lemma url_encode_id value : is_path_id_shape value = true -> url_encode value = value.
Proof.
  unfold is_path_id_shape. intros [_ Hf]%andb_true_iff. unfold url_encode. apply (inj chars). rewrite chars_str.
  induction (chars value) as [|c l IH]; [done|]. cbn [forallb] in Hf. apply andb_true_iff in Hf as [Hc Hf].
  cbn [mbind list_bind]. unfold encode_char at 1. rewrite (alnum_unreserved c Hc). cbn [app]. f_equal. by apply IH.
Qed.

Section Requests.
  Context (parse : string -> option json) (dump : json -> string).
  Context (http : list HttpRequest -> HttpRequest -> result HttpResponse) (secret : string -> result string).
  Context (key_name token_name : string).

Abbreviation call := (client_call parse dump http secret key_name token_name).
Abbreviation after := (client_after parse dump http secret key_name token_name).
Abbreviation answer := (client_rest parse dump http secret key_name token_name).

Definition fields_of (p : params) : list (string * json) := by_key p.
Definition texts (p : params) : list (string * string) := (fun f => (f.1, param_text dump f.2)) <$> fields_of p.

(** The request a call makes. *)
Definition request_of (c : KiteCall) (r : HttpRequest) : Prop :=
  match c with
  | CallPlace p => method r = Post /\ path r = "/orders/regular" /\ form_decode (body r) = Some (texts p)
  | CallModify id p => method r = Put /\ path r = "/orders/regular/" +:+ id /\ is_path_id_shape id = true
                       /\ form_decode (body r) = Some (texts p)
  | CallCancel id => method r = Delete /\ path r = "/orders/regular/" +:+ id /\ is_path_id_shape id = true /\ body r = ""
  | CallOrders => method r = Get /\ path r = "/orders" /\ body r = ""
  | CallTrades => method r = Get /\ path r = "/trades" /\ body r = ""
  | CallPositions => method r = Get /\ path r = "/portfolio/positions" /\ body r = ""
  | CallMargins segment => method r = Get /\ path r = "/user/margins/" +:+ segment /\ is_path_id_shape segment = true /\ body r = ""
  end.

(** The id a call splices into its path. *)
Definition spliced (c : KiteCall) : option string :=
  match c with CallModify id _ | CallCancel id => Some id | CallMargins segment => Some segment | _ => None end.

Lemma request_json_sent m p b s :
  exists new, sent (request_json parse http secret key_name token_name m p b s).2 = sent s ++ new /\
  (new = [] \/ exists hs, new = [mkRequest m p [] hs b]).
Proof.
  unfold request_json, issue_request. destruct (auth_headers secret key_name token_name) as [hs|e].
  2:{ exists []. rewrite app_nil_r. auto. }
  eexists [_]. split; [|by eauto].
  destruct (http _ _) as [r|e]; [|done]. cbn [sent]. destruct (success r); [|done]. cbn [negb].
  destruct (parse (resp_body r)) as [[ | | | | | |fields]|]; try done.
  destruct (says_error fields); [done|]. by destruct (field_get fields "data").
Qed.

Lemma form_decode_params p : form_decode (form_encode dump (params_object p)) = Some (texts p).
Proof. apply form_decodes. Qed.

(** a call of the client sends at most one request, the documented one: a
    fixed path, or a fixed prefix and an id made only of letters, digits, '-'
    and '_' of at most 64 bytes, with a body that decodes to exactly the
    parameters given. A call whose id is not of that shape sends nothing and is
    refused as invalid, not to be retried. *)
Theorem requests_confined c s :
  exists new, sent (call c s).2 = sent s ++ new
  /\ (new = [] \/ exists r, new = [r] /\ request_of c r)
  /\ (forall id, spliced c = Some id -> is_path_id_shape id = false ->
      new = [] /\ exists e, (call c s).1 = Err e /\ category e = Validation /\ action e = DoNotRetry).
Proof.
  destruct c as [p|id p|id| | | |segment]; cbn [client_call spliced].
  1: { destruct (request_json_sent Post "/orders/regular" (form_encode dump (params_object p)) s) as (new & Hs & Hn).
       exists new. split; [done|]. split; [|done]. destruct Hn as [->|[hs ->]]; [by left|]. right. eexists. split; [done|].
       repeat split. apply form_decode_params. }
  3-5: unfold orders, trades, positions; match goal with |- context [request_json _ _ _ _ _ ?m ?p ?b ?s0] =>
         destruct (request_json_sent m p b s0) as (new & Hs & Hn) end;
       exists new; split; [done|]; split; [|done]; destruct Hn as [->|[hs ->]]; [by left|right; by eexists].
  all: unfold modify_order, cancel_order, margins, encoded_path_segment;
       match goal with |- context [is_path_id_shape ?x] => destruct (is_path_id_shape x) eqn:Ei end; cbn [negb];
       [|exists []; rewrite app_nil_r; split; [done|]; split; [by left|]; intros; split; [done|]; by eexists].
  all: rewrite (url_encode_id _ Ei); match goal with |- context [request_json _ _ _ _ _ ?m ?p ?b ?s0] =>
         destruct (request_json_sent m p b s0) as (new & Hs & Hn) end;
       exists new; split; [done|]; split; [|by intros ? [= <-]; rewrite Ei]; destruct Hn as [->|[hs ->]]; [by left|right]; eexists; (split; [done|]);
       repeat split; try done.
  apply form_decode_params.
Qed.

(** ** The flatten on the wire *)

Lemma elem_of_texts p k text : (k, text) ∈ texts p <-> exists v, p !! k = Some v /\ text = param_text dump v.
Proof.
  unfold texts, fields_of. rewrite list_elem_of_fmap. setoid_rewrite (by_key_Permutation p).
  split.
  - intros ([k' v] & [= -> ->] & Hin). apply elem_of_map_to_list in Hin. eauto.
  - intros (v & Hv & ->). exists (k, v). split; [done|]. by apply elem_of_map_to_list.
Qed.

Lemma texts_keys p : NoDup (texts p).*1.
Proof.
  unfold texts, fields_of. rewrite <- list_fmap_compose. unfold compose. cbn.
  rewrite (by_key_Permutation p). apply NoDup_fst_map_to_list.
Qed.

(** What calls put on the wire. *)
Lemma wire_app h cs :
  exists new, sent (after (h ++ cs)) = sent (after h) ++ new /\ (length new <= length cs)%nat /\
  Forall (fun r => exists c, c ∈ cs /\ request_of c r) new.
Proof.
  induction cs as [|c cs IH] using rev_ind; [exists []; rewrite !app_nil_r; auto|].
  destruct IH as (new & E & Hl & Hf). unfold client_after in *. rewrite app_assoc, foldl_app. cbn [foldl].
  destruct (requests_confined c (foldl (fun s c => (call c s).2) new_client (h ++ cs))) as (n & E2 & Hn & _).
  exists (new ++ n). rewrite E2, E, app_assoc, !length_app. split; [done|].
  assert (Hf' : Forall (fun r => exists c', c' ∈ cs ++ [c] /\ request_of c' r) new).
  { eapply Forall_impl; [exact Hf|]. intros r (c' & ? & ?). exists c'. split; [|done]. apply elem_of_app. by left. }
  destruct Hn as [->|(r & -> & Hr)]; (split; [simpl; lia|]); [by rewrite app_nil_r|].
  apply Forall_app. split; [done|]. repeat constructor. exists c. split; [|done]. apply elem_of_app. right. by left.
Qed.

(** The order a body asks for closes [filled] of the parent. *)
Definition closing_body (id : string) (parent : BrokerRow) (b : string) : Prop :=
  exists s fields, form_decode b = Some fields /\ NoDup fields.*1 /\ exit_side_for (row_side parent) = Some s
  /\ ("quantity", pretty (row_filled parent)) ∈ fields /\ ("transaction_type", kite_transaction_type s) ∈ fields
  /\ ("tradingsymbol", row_symbol parent) ∈ fields /\ ("tag", exit_tag_for id) ∈ fields
  /\ ("product", if decide (row_product parent = "") then "MIS" else row_product parent) ∈ fields.

(** C21: the flatten through the real client, over any transport. It sends at
    most three requests; whatever it posts goes to the order endpoint with a
    body that decodes to an order of the opposite side for exactly the quantity
    the book reports filled, in the parent's symbol and product and under the
    exit's tag; it never modifies an order, and deletes only the parent, and
    only when the parent's id can be spliced safely into a path. *)
Theorem flatten_on_wire id lower upper a h :
  let '(r, a', h') := square_off_banded answer id lower upper a h in
  exists new, sent (after h') = sent (after h) ++ new /\ (length new <= 3)%nat
  /\ Forall (fun req => match method req with
       | Get => path req = "/orders"
       | Post => path req = "/orders/regular" /\ exists rows parent,
           answer h CallOrders = Ok (JArray rows) /\ parent_in id rows = Some parent /\ 0 < row_filled parent
           /\ exit_in id rows = None /\ closing_body id parent (body req)
       | Delete => path req = "/orders/regular/" +:+ id /\ is_path_id_shape id = true
       | Put => False
       end) new.
Proof.
  pose proof (flatten_run answer id lower upper a h) as Hr.
  destruct (square_off_banded answer id lower upper a h) as [[r a'] h']. destruct Hr as (cs & -> & Hfl).
  destruct (wire_app h cs) as (new & E & Hl & Hf). exists new. split; [done|]. split.
  { enough (length cs <= 3)%nat by lia. destruct Hfl as [? c Hc|rows parent ordered e|? ? ? c ? ? ? Hp|? ? ? c ? ? ? ? ? Hp|? ? ? c ? ? ? ? ? ? ? Hp];
      rewrite ?length_app; [destruct Hc as [[-> _]|[-> _]]|..|destruct Hp as [[_ ->]|(_ & -> & _)]]; try (destruct Hp as [[_ ->]|(_ & -> & _)]); simpl; lia. }
  eapply Forall_impl; [exact Hf|]. intros req (c & Hin & Hreq).
  assert (Hc : c = CallOrders \/ c = CallCancel id \/ exists rows parent p s exchange, c = CallPlace p /\
    answer h CallOrders = Ok (JArray rows) /\ parent_in id rows = Some parent /\ 0 < row_filled parent
    /\ exit_in id rows = None /\ closing id parent s exchange p).
  { assert (Hpul : forall parent ordered cs', pulled answer id parent ordered h cs' -> c ∈ cs' -> c = CallOrders \/ c = CallCancel id).
    { intros ? ? ? [[_ ->]|(_ & -> & _)]; rewrite !elem_of_cons, elem_of_nil; tauto. }
    destruct Hfl as [? c' Hc|rows parent ordered e|? ? ? c' ? ? ? Hp|? ? ? c' ? ? ? ? ? Hp|rows parent ? c' ? ? p ? Ho Ha ? Hp ? ? Hcl].
    - destruct Hc as [[-> _]|[-> _]]; revert Hin; rewrite ?elem_of_cons, elem_of_nil; tauto.
    - revert Hin. rewrite !elem_of_cons, elem_of_nil; tauto.
    - destruct (Hpul _ _ _ Hp Hin); auto.
    - destruct (Hpul _ _ _ Hp Hin); auto.
    - apply elem_of_app in Hin as [Hin|Hin]; [destruct (Hpul _ _ _ Hp Hin); auto|]. apply list_elem_of_singleton in Hin as ->.
      right. right. destruct Ha. by eauto 12. }
  destruct Hc as [->|[->|(rows & parent & p & s & exchange & -> & Ho & Hpar & Hfi & Hex & Hcl)]]; cbn [request_of] in Hreq.
  - destruct Hreq as (-> & -> & _). done.
  - destruct Hreq as (-> & -> & ? & _). done.
  - destruct Hreq as (-> & -> & Hb). split; [done|]. exists rows, parent. split_and!; try done.
    destruct Hcl as [Hq Hsd Htr Hsy _ Hpr Htg]. exists s, (texts p). split; [done|]. split; [apply texts_keys|]. split; [done|].
    split_and!; apply elem_of_texts; eauto.
Qed.
End Requests.
