(* ===== verification/KotakAdapter.v ===== *)
(** * KotakAdapter: the Kotak broker adapter
    (src/src/adapters/kotak/kotak_broker_adapter.cpp)

    Field readers, the status vocabulary, the pending intents and the two-rung
    correlation, the order operations with the flatten, and the four reads. The
    REST client is a seam, as in [KiteAdapter]. *)

From S2P Require Import Prelude Errors Domain Decimal Risk FillNorm Dispatcher WireJson.

(** ** Field readers *)

Fixpoint first_str (obj : json) (keys : list string) : string :=
  match keys with
  | [] => ""
  | key :: keys => let value := json_str obj key in if String.eqb value "" then first_str obj keys else value
  end.

(** The first spelling that parses; otherwise nothing, and whether one was
    there and did not. *)
Fixpoint first_parsed (parse : string -> option Z) (obj : json) (keys : list string) (saw_garbage : bool) :
    option Z * bool :=
  match keys with
  | [] => (None, saw_garbage)
  | key :: keys =>
      let text := json_str obj key in
      if String.eqb text "" then first_parsed parse obj keys saw_garbage
      else match parse text with
           | Some v => (Some v, false)
           | None => first_parsed parse obj keys true
           end
  end.

Definition first_number (obj : json) (keys : list string) : option Z * bool := first_parsed parse_int64 obj keys false.
Definition first_paise (obj : json) (keys : list string) : option Z * bool := first_parsed parse_decimal_paise obj keys false.

(** ** The status vocabulary *)

Definition is_status_sep (c : ascii) : bool := bool_decide (c ∈ [" "; "009"; "_"; "-"]%char).

Definition fold_status_step (s : list ascii * bool) (c : ascii) : list ascii * bool :=
  let '(out, pending_space) := s in
  let lowered := fold_char c in
  if is_status_sep lowered then (out, negb (bool_decide (out = [])))
  else ((if pending_space : bool then out ++ [" "%char] else out) ++ [lowered], false).

Definition fold_status (raw : string) : string := str (foldl fold_status_step ([], false) (chars raw)).1.

Inductive StatusClass := Unrecognized | Working | Complete | ClsRejected | ClsCancelled.

#[export] Instance StatusClass_eq_dec : EqDecision StatusClass.
Proof. solve_decision. Defined.

Definition kWorking : list string :=
  ["open"; "open pending"; "trigger pending"; "validation pending"; "modify pending"; "modify validation pending";
   "modified"; "not modified"; "not cancelled"; "not canceled"; "cancel pending"; "put order req received";
   "after market order req received"; "amo submitted"].

Definition classify_kotak_status (raw : string) : StatusClass :=
  let s := fold_status raw in
  if String.eqb s "" then Unrecognized
  else if String.eqb s "complete" then Complete
  else if String.eqb s "rejected" then ClsRejected
  else if bool_decide (s ∈ ["cancelled"; "canceled"; "amo cancelled"; "amo canceled"]) then ClsCancelled
  else if bool_decide (s ∈ kWorking) then Working
  else Unrecognized.

Definition map_order_state (raw_status : string) (filled : Z) (total : option Z) : OrderState :=
  match classify_kotak_status raw_status with
  | Unrecognized => Unknown
  | ClsRejected => Rejected
  | ClsCancelled => Cancelled
  | Complete =>
      match total with
      | None => if 0 <? filled then Filled else Unknown
      | Some t => canonical_state (normalize_fill "complete" filled t true)
      end
  | Working =>
      match total with
      | None => if 0 <? filled then PartiallyFilled else Acknowledged
      | Some t => canonical_state (normalize_fill "open" filled t true)
      end
  end.

(** ** Mappings *)

Definition side_code (s : Side) : string := match s with Sell => "S" | Buy => "B" end.

Definition fold_side_code (raw : string) : string :=
  match raw with
  | String c _ =>
      if Ascii.eqb (fold_char c) "b" then "B" else if Ascii.eqb (fold_char c) "s" then "S" else fold_string raw
  | "" => ""
  end.

Definition kotak_price_type (t : OrderType) : string :=
  match t with Market => "MKT" | Limit => "L" | StopLoss => "SL" | StopLossMarket => "SL-M" end.

Definition kotak_product (p : Product) : string :=
  match p with Intraday => "MIS" | Delivery => "CNC" | Margin | Normal => "NRML" end.

(** [find]: the text holds the needle. *)
Fixpoint holds (needle : string) (s : string) : bool :=
  String.prefix needle s || match s with String _ s => holds needle s | "" => false end.

Definition infer_segment (symbol : string) : string :=
  if holds "FUT" symbol || holds "CE" symbol || holds "PE" symbol then "nse_fo" else "nse_cm".

Definition is_priced (t : OrderType) : bool := bool_decide (t = Limit) || bool_decide (t = StopLoss).
Definition is_triggered (t : OrderType) : bool := bool_decide (t = StopLoss) || bool_decide (t = StopLossMarket).

Definition trigger_field (i : OrderIntent) : string :=
  match trigger_price i with
  | Some t => if is_triggered (order_type i) then paise_to_decimal (price_paise t) else "0"
  | None => "0"
  end.

Definition parse_price_type (raw : string) : OrderType :=
  let s := fold_status raw in
  if bool_decide (s ∈ ["l"; "lmt"; "limit"]) then Limit
  else if bool_decide (s ∈ ["sl m"; "slm"; "sl mkt"]) then StopLossMarket
  else if bool_decide (s ∈ ["sl"; "sll"; "stoploss"]) then StopLoss
  else Market.

(** ** Errors *)

Definition is_ambiguous_outcome (e : Error) : bool :=
  bool_decide (action e = ReconcileFirst) || bool_decide (category e = Timeout) ||
  bool_decide (category e = Network) || bool_decide (category e = CatUnknown).

Definition reconcile_first_error (msg code : string) : Error :=
  set_action ReconcileFirst (make_error CatUnknown msg code).

Definition unreadable_payload_error (msg code : string) : Error :=
  set_action ReconcileFirst (make_error DataStale msg code).

Definition alert_error (c : ErrorCategory) (msg code : string) : Error :=
  set_action RaiseAlert (make_error c msg code).

(** ** Parameters: every value is text *)

Abbreviation params := (gmap string string).

Definition price_field (i : OrderIntent) : string :=
  if is_priced (order_type i) then paise_to_decimal (price_paise (price i)) else "0".

Definition build_place_params (i : OrderIntent) : params :=
  <["am" := "NO"]> (<["dq" := "0"]> (<["es" := infer_segment (symbol i)]> (<["mp" := "0"]>
  (<["pc" := kotak_product (product i)]> (<["pf" := "N"]> (<["pr" := price_field i]>
  (<["pt" := kotak_price_type (order_type i)]> (<["qt" := quantity_to_string (quantity i)]> (<["rt" := "DAY"]>
  (<["tp" := trigger_field i]> (<["ts" := symbol i]> (<["tt" := side_code (side i)]> ∅)))))))))))).

Definition build_modify_params (broker_order_id : string) (i : OrderIntent) : params :=
  <["am" := "NO"]> (<["dd" := "NA"]> (<["dq" := "0"]> (<["es" := infer_segment (symbol i)]> (<["mp" := "0"]>
  (<["no" := broker_order_id]> (<["pc" := kotak_product (product i)]> (<["pr" := price_field i]>
  (<["pt" := kotak_price_type (order_type i)]> (<["qt" := quantity_to_string (quantity i)]>
  (<["tp" := trigger_field i]> (<["ts" := symbol i]> (<["vd" := "DAY"]> ∅)))))))))))).

Definition build_cancel_params (broker_order_id : string) : params := <["am" := "NO"]> (<["on" := broker_order_id]> ∅).

Definition extract_order_id (payload : json) : string :=
  if is_object payload then first_str payload ["nOrdNo"; "nstOrdNo"; "ordNo"; "orderId"; "result"] else "".

Definition attribute_key (symbol side : string) (quantity : option Z) : string :=
  symbol +:+ "|" +:+ side +:+ "|" +:+ match quantity with Some q => pretty q | None => "?" end.

(** ** A row of the order book *)

Record RawOrder := mkRaw {
  raw_order_id : string;
  raw_symbol : string;
  raw_side : string;
  raw_quantity : option Z;
  raw_filled : option Z;
  raw_price : option Z;
  raw_avg : option Z;
  raw_trigger : option Z;
  raw_order_type : OrderType;
  raw_status : string;
  raw_product : string;
  raw_segment : string;
  raw_malformed : bool;
}.

Definition positive_only (v : option Z) : option Z :=
  match v with Some x => if x <=? 0 then None else Some x | None => None end.

(** A fill below zero is zero, and one beyond the order is the order. *)
Definition clamp_fill (quantity filled : option Z) : option Z :=
  match filled with
  | None => None
  | Some f =>
      let f := if f <? 0 then 0 else f in
      Some (match quantity with Some q => if (0 <? q) && (q <? f) then q else f | None => f end)
  end.

Definition read_order_row (row : json) : RawOrder :=
  let '(q, bad_q) := first_number row ["qty"; "qt"; "ordQty"; "totQty"] in
  let '(f, bad_f) := first_number row ["fldQty"; "flQty"; "fillQty"; "filledQty"] in
  let '(p, bad_p) := first_paise row ["prc"; "pr"; "ordPrc"] in
  let '(av, bad_a) := first_paise row ["avgPrc"; "avgPrice"; "fldPrc"; "flPrc"] in
  let '(t, bad_t) := first_paise row ["trgPrc"; "trigPrc"; "triggerPrice"] in
  let negative := match q with Some v => v <? 0 | None => false end in
  let q := if negative then None else q in
  mkRaw (first_str row ["nOrdNo"; "nstOrdNo"; "ordNo"; "orderId"])
    (first_str row ["trdSym"; "tsym"; "sym"; "trdSymbol"])
    (fold_side_code (first_str row ["trnsTp"; "trnsTyp"; "tt"]))
    q (clamp_fill q f) p av (positive_only t)
    (parse_price_type (first_str row ["prcTp"; "prcType"; "pt"]))
    (first_str row ["ordSt"; "status"; "ordStatus"])
    (first_str row ["prod"; "pc"; "pCode"; "prcCode"]) (first_str row ["exSeg"; "es"; "exchSeg"; "exch"])
    (bad_q || bad_f || bad_p || bad_a || bad_t || negative).

Definition read_rows (rows : list json) : list RawOrder := read_order_row <$> filter is_object rows.

(** ** The adapter *)

Record PendingIntent := mkPending { pend_ref : string; attr_key : string }.

Record KotakAdapter := mkKotak {
  id_to_ref : gmap string string;
  anchored_refs : gset string;
  pending : list PendingIntent;
}.

Definition new_adapter : KotakAdapter := mkKotak ∅ ∅ [].
Definition kMaxPendingIntents : nat := 256.

Definition has_ref (r : string) (p : PendingIntent) : bool := String.eqb (pend_ref p) r.

(** The entry of the reference takes the new key; the first of them, and there
    is at most one. *)
Fixpoint refresh_key (r key : string) (l : list PendingIntent) : list PendingIntent :=
  match l with
  | [] => []
  | p :: l => if has_ref r p then mkPending r key :: l else p :: refresh_key r key l
  end.

Definition register_intent (i : OrderIntent) (a : KotakAdapter) : KotakAdapter :=
  if String.eqb (client_ref i) "" then a
  else if bool_decide (client_ref i ∈ anchored_refs a) then a
  else
    let key := attribute_key (symbol i) (side_code (side i)) (Some (quantity_value (quantity i))) in
    if existsb (has_ref (client_ref i)) (pending a)
    then mkKotak (id_to_ref a) (anchored_refs a) (refresh_key (client_ref i) key (pending a))
    else
      let l := pending a ++ [mkPending (client_ref i) key] in
      mkKotak (id_to_ref a) (anchored_refs a) (drop (length l - kMaxPendingIntents) l).

Definition drop_pending (r : string) (a : KotakAdapter) : KotakAdapter :=
  if String.eqb r "" then a
  else mkKotak (id_to_ref a) (anchored_refs a) (filter (fun p => negb (has_ref r p)) (pending a)).

Definition anchor (broker_order_id r : string) (a : KotakAdapter) : KotakAdapter :=
  if String.eqb broker_order_id "" || String.eqb r "" then a
  else drop_pending r (mkKotak (<[broker_order_id := r]> (id_to_ref a)) ({[r]} ∪ anchored_refs a) (pending a)).

Definition ref_for_id (a : KotakAdapter) (broker_order_id : string) : string :=
  if String.eqb broker_order_id "" then "" else default "" (id_to_ref a !! broker_order_id).

(** ** The REST seam *)

Inductive KotakCall :=
  | CallPlace (p : params)
  | CallModify (p : params)
  | CallCancel (p : params)
  | CallOrders
  | CallTrades
  | CallPositions
  | CallMargins (p : params).

Section Adapter.
  (** What the client answers to a call, given the calls made before it. *)
  Context (rest : list KotakCall -> KotakCall -> result json).

Abbreviation history := (list KotakCall).

Definition issue (c : KotakCall) (h : history) : result json * history := (rest h c, h ++ [c]).

(** A definitive refusal retires the intent; an ambiguous one keeps it. *)
Definition settle_refusal (r : string) (e : Error) (a : KotakAdapter) : KotakAdapter :=
  if is_ambiguous_outcome e then a else drop_pending r a.

Definition place (i : OrderIntent) (a : KotakAdapter) (h : history) : result BrokerAck * KotakAdapter * history :=
  let a := register_intent i a in
  match issue (CallPlace (build_place_params i)) h with
  | (Err e, h) => (Err e, settle_refusal (client_ref i) e a, h)
  | (Ok payload, h) =>
      let order_id := extract_order_id payload in
      if String.eqb order_id "" then
        (Err (make_error CatUnknown "kotak: place acknowledged without an order number" "KOTAK-PLACE-NOID"), a, h)
      else (Ok (mkAck order_id (client_ref i)), anchor order_id (client_ref i) a, h)
  end.

Definition modify (broker_order_id : string) (i : OrderIntent) (a : KotakAdapter) (h : history) :
    result BrokerAck * KotakAdapter * history :=
  let a := register_intent i a in
  match issue (CallModify (build_modify_params broker_order_id i)) h with
  | (Err e, h) => (Err e, settle_refusal (client_ref i) e a, h)
  | (Ok payload, h) =>
      let order_id := if String.eqb (extract_order_id payload) "" then broker_order_id else extract_order_id payload in
      (Ok (mkAck order_id (client_ref i)), anchor order_id (client_ref i) a, h)
  end.

Definition cancel (broker_order_id : string) (h : history) : result unit * history :=
  match issue (CallCancel (build_cancel_params broker_order_id)) h with
  | (Err e, h) => (Err e, h)
  | (Ok _, h) => (Ok tt, h)
  end.

(** ** The flatten *)

Definition find_parent (id : string) (rows : list RawOrder) : option RawOrder :=
  List.find (fun raw => negb (String.eqb (raw_order_id raw) "") && String.eqb (raw_order_id raw) id) rows.

(** What the read decides before the cancel: the quantity filled, and whether
    the order is terminal. *)
Definition assess_parent (a : KotakAdapter) (id : string) (rows : list RawOrder) : result (RawOrder * Z * bool) :=
  match find_parent id rows with
  | None => Err (reconcile_first_error "kotak: square_off could not find the order in broker truth; reconcile before flattening" "KOTAK-SQUAREOFF-NOPARENT")
  | Some parent =>
      if raw_malformed parent then
        Err (reconcile_first_error "kotak: square_off read an unparseable field on the order; reconcile before flattening" "KOTAK-SQUAREOFF-MALFORMED")
      else
        match raw_filled parent with
        | None => Err (reconcile_first_error "kotak: square_off could not read the order's filled quantity; reconcile before flattening" "KOTAK-SQUAREOFF-NOFILLQTY")
        | Some filled =>
            if is_exit_ref (ref_for_id a id) then
              Err (set_action DoNotRetry (make_error Validation "kotak: square_off was asked to flatten a square-off EXIT order; flattening an exit re-opens the position it closed, so nothing was sent" "KOTAK-SQUAREOFF-SELFEXIT"))
            else
              let reported := map_order_state (raw_status parent) filled (raw_quantity parent) in
              if bool_decide (reported = Unknown) then
                Err (reconcile_first_error "kotak: square_off read an unrecognized order status; reconcile before flattening" "KOTAK-SQUAREOFF-UNKNOWNSTATE")
              else
                match raw_quantity parent with
                | None => Err (reconcile_first_error "kotak: square_off could not read the order quantity; reconcile before flattening" "KOTAK-SQUAREOFF-NOQTY")
                | Some ordered =>
                    let neutral_status := if bool_decide (reported = Filled) then "complete" else "open" in
                    let snap := normalize_fill neutral_status filled ordered true in
                    let terminal := bool_decide (reported = Cancelled) || bool_decide (reported = Rejected) ||
                                    bool_decide (canonical_state snap = Filled) in
                    Ok (parent, exit_qty_for snap, terminal)
                end
        end
  end.

Definition cancel_remainder (id : string) (terminal : bool) (h : history) : result unit * history :=
  if terminal then (Ok tt, h) else
  match issue (CallCancel (build_cancel_params id)) h with
  | (Err e, h) => if bool_decide (category e = OrderNotFound) then (Ok tt, h) else (Err e, h)
  | (Ok _, h) => (Ok tt, h)
  end.

Definition read_exit_side (raw : RawOrder) : option Side :=
  if String.eqb (raw_side raw) "S" then Some Buy else if String.eqb (raw_side raw) "B" then Some Sell else None.

(** Rung 1: the first other row bound to the exit's reference. *)
Fixpoint exit_by_id (a : KotakAdapter) (id exit_ref : string) (rows : list RawOrder) : result (option Z) :=
  match rows with
  | [] => Ok None
  | raw :: rows =>
      if String.eqb (raw_order_id raw) "" || String.eqb (raw_order_id raw) id then exit_by_id a id exit_ref rows
      else if negb (String.eqb (ref_for_id a (raw_order_id raw)) exit_ref) then exit_by_id a id exit_ref rows
      else
        match classify_kotak_status (raw_status raw) with
        | ClsRejected => Err (alert_error BrokerRejected "kotak: a prior square-off exit for this order was REJECTED by the broker; the position is still open and needs an operator" "KOTAK-SQUAREOFF-EXITREJECTED")
        | ClsCancelled => Err (alert_error BrokerRejected "kotak: a prior square-off exit for this order was CANCELLED; the position is still open and needs an operator" "KOTAK-SQUAREOFF-EXITCANCELLED")
        | cls =>
            if bool_decide (cls = Unrecognized) || raw_malformed raw then
              Err (reconcile_first_error "kotak: square_off could not read the state of the exit already at the broker; reconcile before flattening" "KOTAK-SQUAREOFF-EXITUNKNOWNSTATE")
            else
              match raw_quantity raw with
              | None => Err (reconcile_first_error "kotak: square_off could not read the quantity of the exit already at the broker; reconcile before flattening" "KOTAK-SQUAREOFF-EXITNOQTY")
              | Some q => Ok (Some q)
              end
        end
  end.

(** Rung 2: a row that could be the exit by its shape. *)
Definition exit_candidate (a : KotakAdapter) (id exit_ref symbol : string) (s : Side) (exit_qty : Z) (raw : RawOrder) : bool :=
  let bound := ref_for_id a (raw_order_id raw) in
  let cls := classify_kotak_status (raw_status raw) in
  negb (String.eqb (raw_order_id raw) "" || String.eqb (raw_order_id raw) id || raw_malformed raw) &&
  (String.eqb bound "" || String.eqb bound exit_ref) &&
  (String.eqb (raw_symbol raw) symbol && String.eqb (raw_side raw) (side_code s)) &&
  match raw_quantity raw with Some q => (0 <? q) && (q <=? exit_qty) | None => false end &&
  (bool_decide (cls = Working) || bool_decide (cls = Complete)).

(** The size of the exit in force, when there is one. *)
Definition existing_exit (a : KotakAdapter) (id exit_ref : string) (parent : RawOrder) (s : Side) (exit_qty : Z)
    (rows : list RawOrder) : result (option Z) :=
  match exit_by_id a id exit_ref rows with
  | Err e => Err e
  | Ok (Some q) => Ok (Some q)
  | Ok None =>
      match filter (exit_candidate a id exit_ref (raw_symbol parent) s exit_qty) rows with
      | [] => Ok None
      | [raw] => Ok (raw_quantity raw)
      | _ => Err (reconcile_first_error "kotak: square_off found more than one order matching this exit's shape; reconcile before flattening" "KOTAK-SQUAREOFF-AMBIGUOUS")
      end
  end.

Definition exit_intent (exit_ref symbol : string) (s : Side) (qty : Z) (band_lower band_upper : option Price) : OrderIntent :=
  let '(t, p) :=
    match band_lower, band_upper with
    | Some lower, Some upper =>
        if price_paise lower <=? price_paise upper
        then (Limit, if bool_decide (s = Buy) then upper else lower) else (Market, from_paise 0)
    | _, _ => (Market, from_paise 0)
    end in
  mkIntent exit_ref symbol s (quantity_of qty) p None t Intraday "square_off".

Definition echo_field (key text : string) (p : params) : params := if String.eqb text "" then p else <[key := text]> p.

Definition exit_params (i : OrderIntent) (parent : RawOrder) : params :=
  echo_field "es" (raw_segment parent) (echo_field "pc" (raw_product parent) (build_place_params i)).

Definition place_exit (i : OrderIntent) (parent : RawOrder) (a : KotakAdapter) (h : history) :
    result unit * KotakAdapter * history :=
  let a := register_intent i a in
  match issue (CallPlace (exit_params i parent)) h with
  | (Err e, h) => (Err e, settle_refusal (client_ref i) e a, h)
  | (Ok payload, h) => (Ok tt, anchor (extract_order_id payload) (client_ref i) a, h)
  end.

(** After the cancel: the side, the exit in force, the exit order. *)
Definition flatten_filled (id : string) (parent : RawOrder) (exit_qty : Z) (rows : list RawOrder)
    (band_lower band_upper : option Price) (a : KotakAdapter) (h : history) : result unit * KotakAdapter * history :=
  match read_exit_side parent with
  | None => (Err (reconcile_first_error "kotak: square_off could not read the order's transaction type; reconcile before flattening" "KOTAK-SQUAREOFF-NOSIDE"), a, h)
  | Some s =>
      let parent_ref := ref_for_id a id in
      let exit_ref := exit_client_ref (if String.eqb parent_ref "" then id else parent_ref) in
      match existing_exit a id exit_ref parent s exit_qty rows with
      | Err e => (Err e, a, h)
      | Ok (Some q) =>
          (if q <? exit_qty
           then Err (alert_error DataStale "kotak: the square-off exit already at the broker is SMALLER than the position now reported filled; the remainder is still open and needs an operator" "KOTAK-SQUAREOFF-EXITSHORT")
           else Ok tt, a, h)
      | Ok None => place_exit (exit_intent exit_ref (raw_symbol parent) s exit_qty band_lower band_upper) parent a h
      end
  end.

Definition square_off_banded (id : string) (band_lower band_upper : option Price) (a : KotakAdapter) (h : history) :
    result unit * KotakAdapter * history :=
  if String.eqb id "" then
    (Err (make_error Validation "kotak: square_off requires a broker order id" "KOTAK-SQUAREOFF-NOID"), a, h)
  else
    match issue CallOrders h with
    | (Err e, h) => (Err e, a, h)
    | (Ok (JArray elements), h) =>
        let rows := read_rows elements in
        match assess_parent a id rows with
        | Err e => (Err e, a, h)
        | Ok (parent, exit_qty, terminal) =>
            match cancel_remainder id terminal h with
            | (Err e, h) => (Err e, a, h)
            | (Ok _, h) =>
                if exit_qty <=? 0 then (Ok tt, a, h)
                else flatten_filled id parent exit_qty rows band_lower band_upper a h
            end
        end
    | (Ok _, h) => (Err (reconcile_first_error "kotak: the order book payload was not an array" "KOTAK-SQUAREOFF-BOOKSHAPE"), a, h)
    end.

Definition square_off (id : string) (a : KotakAdapter) (h : history) : result unit * KotakAdapter * history :=
  square_off_banded id None None a h.

(** ** The order read *)

Definition row_key (raw : RawOrder) : string := attribute_key (raw_symbol raw) (raw_side raw) (raw_quantity raw).

(** How many rows no id names carry the key. *)
Definition unmatched_rows_per_key (a : KotakAdapter) (rows : list RawOrder) (key : string) : nat :=
  length (filter (fun raw => String.eqb (ref_for_id a (raw_order_id raw)) "" && String.eqb (row_key raw) key) rows).

(** The pending intents with the key. *)
Definition candidates_for_key (a : KotakAdapter) (key : string) : list PendingIntent :=
  filter (fun p => negb (String.eqb (attr_key p) "") && String.eqb (attr_key p) key) (pending a).

(** The reference the second rung gives a row no id names: both sides hold
    exactly one of its key. [a0] is the adapter before the pass. *)
Definition corroborate (a0 : KotakAdapter) (rows : list RawOrder) (raw : RawOrder) : string :=
  if raw_malformed raw then ""
  else if negb (unmatched_rows_per_key a0 rows (row_key raw) =? 1)%nat then ""
  else match candidates_for_key a0 (row_key raw) with [p] => pend_ref p | _ => "" end.

(** One row of the third pass: its reference, and the adapter it leaves. *)
Definition correlate_row (a0 : KotakAdapter) (rows : list RawOrder) (s : list string * KotakAdapter) (raw : RawOrder) :
    list string * KotakAdapter :=
  let '(refs, a) := s in
  let known := ref_for_id a0 (raw_order_id raw) in
  if negb (String.eqb known "") then (refs ++ [known], a)
  else
    let r := corroborate a0 rows raw in
    (refs ++ [r], anchor (raw_order_id raw) r a).

Definition correlate (a : KotakAdapter) (rows : list RawOrder) : list string * KotakAdapter :=
  foldl (correlate_row a rows) ([], a) rows.

(** The published row. *)
Definition publish (raw : RawOrder) (ref : string) : Order :=
  let correlated := negb (String.eqb ref "") in
  let fill_unreadable :=
    match raw_filled raw with
    | None => true
    | Some f => (0 <? f) && negb (bool_decide (is_Some (raw_avg raw)))
    end in
  let st := match raw_filled raw with
            | Some f => if raw_malformed raw || fill_unreadable then Unknown
                        else map_order_state (raw_status raw) f (raw_quantity raw)
            | None => Unknown
            end in
  let i :=
    if correlated then
      mkIntent ref (raw_symbol raw) (if String.eqb (raw_side raw) "S" then Sell else Buy)
        (quantity_of (default 0 (raw_quantity raw))) (from_paise (default 0 (raw_price raw)))
        (if is_triggered (raw_order_type raw) then from_paise <$> raw_trigger raw else None)
        (raw_order_type raw) Intraday ""
    else mkIntent ref (raw_symbol raw) Buy (quantity_of 0) (from_paise 0) None Market Intraday "" in
  mkOrder i st (raw_order_id raw) (quantity_of (default 0 (raw_filled raw))) (from_paise (default 0 (raw_avg raw))).

Definition fetch_orders (a : KotakAdapter) (h : history) : result (list Order) * KotakAdapter * history :=
  match issue CallOrders h with
  | (Err e, h) => (Err e, a, h)
  | (Ok (JArray elements), h) =>
      let rows := read_rows elements in
      let '(refs, a) := correlate a rows in
      (Ok (zip_with publish rows refs), a, h)
  | (Ok _, h) => (Ok [], a, h)
  end.

(** ** The other reads *)

Definition trade_row (a : KotakAdapter) (row : json) : Trade :=
  let id := first_str row ["nOrdNo"; "nstOrdNo"; "ordNo"; "orderId"] in
  let '(qty, bad_qty) := first_number row ["fldQty"; "flQty"; "qty"; "trdQty"] in
  let '(price, bad_price) := first_paise row ["avgPrc"; "flPrc"; "prc"; "trdPrc"] in
  let qty := default 0 qty in
  mkTrade (first_str row ["trdNo"; "tradeId"; "flId"; "exTrdNo"; "nOrdNo"])
    (if bad_qty || bad_price then "" else ref_for_id a id) id
    (quantity_of (if 0 <? qty then qty else 0)) (from_paise (default 0 price)).

Definition fetch_trades (a : KotakAdapter) (h : history) : result (list Trade) * history :=
  match issue CallTrades h with
  | (Err e, h) => (Err e, h)
  | (Ok (JArray rows), h) => (Ok (trade_row a <$> filter is_object rows), h)
  | (Ok _, h) => (Ok [], h)
  end.

(** All buys less all sells, at 64 bits. *)
Definition position_row (row : json) : Position * bool :=
  let '(b1, m1) := first_number row ["flBuyQty"; "buyQty"] in
  let '(b2, m2) := first_number row ["cfBuyQty"] in
  let '(s1, m3) := first_number row ["flSellQty"; "sellQty"] in
  let '(s2, m4) := first_number row ["cfSellQty"] in
  let '(price, m5) := first_paise row ["avgPrc"; "avgPrice"] in
  let net := to_i64 (to_i64 (default 0 b1 + default 0 b2) - to_i64 (default 0 s1 + default 0 s2)) in
  (mkPosition (first_str row ["trdSym"; "tsym"; "sym"]) (quantity_of net) (from_paise (default 0 price)),
   m1 || m2 || m3 || m4 || m5).

Definition fetch_positions (h : history) : result (list Position) * history :=
  match issue CallPositions h with
  | (Err e, h) => (Err e, h)
  | (Ok (JArray rows), h) =>
      let read := position_row <$> filter is_object rows in
      (if existsb snd read
       then Err (unreadable_payload_error "kotak: positions payload carried an unparseable quantity or amount" "KOTAK-POSITIONS-MALFORMED")
       else Ok (fst <$> read), h)
  | (Ok _, h) => (Ok [], h)
  end.

Definition funds_params : params := <["seg" := "CASH"]> (<["exch" := "NSE"]> (<["prod" := "ALL"]> ∅)).

Definition fetch_funds (h : history) : result FundsSnapshot * history :=
  match issue (CallMargins funds_params) h with
  | (Err e, h) => (Err e, h)
  | (Ok body, h) =>
      if negb (is_object body) then (Ok (mkFunds (from_paise_money 0) (from_paise_money 0)), h)
      else
        let '(available, bad_a) := first_paise body ["Net"; "net"; "availableMargin"; "AvailableMargin"] in
        let '(used, bad_u) := first_paise body ["MarginUsed"; "marginUsed"; "UtilizedMargin"; "utilizedMargin"] in
        if bad_a || bad_u
        then (Err (unreadable_payload_error "kotak: funds payload carried an unparseable amount" "KOTAK-FUNDS-MALFORMED"), h)
        else (Ok (mkFunds (from_paise_money (default 0 available)) (from_paise_money (default 0 used))), h)
  end.
End Adapter.

(** ** The adapter's state *)

(** Pending intents are few, named, distinct and not yet anchored; an id is
    bound to an anchored reference. *)
Record adapter_ok (a : KotakAdapter) : Prop := {
  ok_bounded : (length (pending a) <= kMaxPendingIntents)%nat;
  ok_distinct : NoDup (pend_ref <$> pending a);
  ok_pending : forall p, p ∈ pending a -> pend_ref p <> "" /\ pend_ref p ∉ anchored_refs a;
  ok_bound : forall id r, id_to_ref a !! id = Some r -> id <> "" /\ r <> "" /\ r ∈ anchored_refs a;
}.

Lemma new_adapter_ok : adapter_ok new_adapter.
Proof.
  split; cbn [pending anchored_refs id_to_ref new_adapter].
  - apply Nat.le_0_l.
  - constructor.
  - by intros p ?%not_elem_of_nil.
  - intros id r E. by rewrite lookup_empty in E.
Qed.

Lemma refresh_key_spec r key l :
  length (refresh_key r key l) = length l /\ pend_ref <$> refresh_key r key l = pend_ref <$> l.
Proof.
  induction l as [|p l [IH1 IH2]]; [done|]. cbn [refresh_key]. unfold has_ref.
  destruct (String.eqb_spec (pend_ref p) r) as [<-|]; [done|]. split; [simpl; by rewrite IH1|by rewrite !fmap_cons, IH2].
Qed.

Lemma refresh_key_refs r key l p : p ∈ refresh_key r key l -> exists p', p' ∈ l /\ pend_ref p' = pend_ref p.
Proof.
  intros Hp. assert (H : pend_ref p ∈ pend_ref <$> refresh_key r key l) by (apply list_elem_of_fmap; eauto).
  rewrite (proj2 (refresh_key_spec r key l)) in H. apply list_elem_of_fmap in H as (p' & ? & ?). eauto.
Qed.

Lemma drop_suffix_in {A} n (l : list A) x : x ∈ drop n l -> x ∈ l.
Proof. intros H. rewrite <- (take_drop n l). apply elem_of_app. by right. Qed.

Lemma register_intent_ok i a : adapter_ok a -> adapter_ok (register_intent i a).
Proof.
  intros [Hb Hd Hp Hr]. unfold register_intent.
  destruct (String.eqb_spec (client_ref i) "") as [|Hne]; [by split|].
  case_bool_decide as Hanc; [by split|]. set (key := attribute_key _ _ _).
  destruct (existsb (has_ref (client_ref i)) (pending a)) eqn:Ex.
  - destruct (refresh_key_spec (client_ref i) key (pending a)) as [El Ef]. split; cbn; [by rewrite El|by rewrite Ef| |done].
    intros p (p' & Hin & <-)%refresh_key_refs. by apply Hp.
  - split; cbn [pending anchored_refs id_to_ref]; [|..|done].
    + rewrite length_drop. lia.
    + rewrite fmap_drop, fmap_app. eapply sublist_NoDup; [|apply sublist_drop]. cbn. apply NoDup_app. split; [done|]. split; [|by apply NoDup_singleton].
      intros r Hin Hr'. apply list_elem_of_singleton in Hr' as ->. apply list_elem_of_fmap in Hin as (p & E & Hin).
      enough (existsb (has_ref (client_ref i)) (pending a) = true) by congruence. apply existsb_exists. exists p.
      split; [by apply list_elem_of_In|]. unfold has_ref. by rewrite <- E, String.eqb_refl.
    + intros p [Hin|Hin]%drop_suffix_in%elem_of_app; [by apply Hp|]. by apply list_elem_of_singleton in Hin as ->.
Qed.

Lemma NoDup_fmap_filter {A B} (f : A -> B) (P : A -> Prop) `{!forall x, Decision (P x)} l :
  NoDup (f <$> l) -> NoDup (f <$> filter P l).
Proof.
  induction l as [|x l IH]; [done|]. cbn [fmap list_fmap]. intros [Hn Hd]%NoDup_cons. rewrite filter_cons.
  destruct (decide (P x)); [|by apply IH]. cbn. apply NoDup_cons. split; [|by apply IH].
  intros (y & E & [_ Hy]%list_elem_of_filter)%list_elem_of_fmap. apply Hn, list_elem_of_fmap. eauto.
Qed.

Lemma drop_pending_ok r a : adapter_ok a -> adapter_ok (drop_pending r a).
Proof.
  intros [Hb Hd Hp Hr]. unfold drop_pending. destruct (String.eqb r ""); [by split|]. split; cbn.
  - etransitivity; [|exact Hb]. apply length_filter.
  - by apply NoDup_fmap_filter.
  - intros p [_ Hin]%list_elem_of_filter. by apply Hp.
  - done.
Qed.

Lemma anchor_ok id r a : adapter_ok a -> adapter_ok (anchor id r a).
Proof.
  intros [Hb Hd Hp Hr]. unfold anchor, drop_pending.
  destruct (String.eqb_spec id "") as [|Hid]; [by split|]. destruct (String.eqb_spec r "") as [|Hne]; [by split|]. cbn [orb].
  split; cbn [pending anchored_refs id_to_ref].
  - etransitivity; [|exact Hb]. apply length_filter.
  - by apply NoDup_fmap_filter.
  - intros p [Hn Hin]%list_elem_of_filter. destruct (Hp p Hin) as [? ?]. split; [done|].
    unfold has_ref in Hn. destruct (String.eqb_spec (pend_ref p) r) as [|Hpr]; [done|]. set_solver.
  - intros id' r'. destruct (decide (id' = id)) as [->|].
    + rewrite lookup_insert_eq. intros [= <-]. split; [done|]. split; [done|]. set_solver.
    + rewrite lookup_insert_ne by done. intros (? & ? & ?)%Hr. split; [done|]. split; [done|]. set_solver.
Qed.

Lemma settle_refusal_ok r e a : adapter_ok a -> adapter_ok (settle_refusal r e a).
Proof. intros. unfold settle_refusal. destruct (is_ambiguous_outcome e); [done|by apply drop_pending_ok]. Qed.

Create HintDb kotak discriminated.
#[export] Hint Resolve new_adapter_ok register_intent_ok drop_pending_ok anchor_ok settle_refusal_ok : kotak.

(** ** Correlation *)

Lemma correlate_spec a0 rows l :
  forall refs a, foldl (correlate_row a0 rows) (refs, a) l =
  (refs ++ ((fun raw => if String.eqb (ref_for_id a0 (raw_order_id raw)) "" then corroborate a0 rows raw
                       else ref_for_id a0 (raw_order_id raw)) <$> l),
   foldl (fun a raw => if String.eqb (ref_for_id a0 (raw_order_id raw)) ""
                       then anchor (raw_order_id raw) (corroborate a0 rows raw) a else a) a l).
Proof.
  induction l as [|raw l IH]; intros refs a; [by rewrite app_nil_r|]. cbn [foldl fmap list_fmap]. unfold correlate_row at 2.
  destruct (String.eqb (ref_for_id a0 (raw_order_id raw)) ""); cbn [negb]; rewrite IH, <- app_assoc; done.
Qed.

(** The reference a row is published under. *)
Definition row_ref (a : KotakAdapter) (rows : list RawOrder) (raw : RawOrder) : string :=
  if String.eqb (ref_for_id a (raw_order_id raw)) "" then corroborate a rows raw else ref_for_id a (raw_order_id raw).

Lemma correlate_refs a rows : (correlate a rows).1 = row_ref a rows <$> rows.
Proof. unfold correlate. by rewrite correlate_spec. Qed.

Lemma correlate_ok a rows : adapter_ok a -> adapter_ok (correlate a rows).2.
Proof.
  unfold correlate. rewrite correlate_spec. cbn [snd]. intros Ha. generalize rows at 2. intros l.
  revert Ha. generalize a at 1 4. induction l as [|raw l IH]; intros a1 Ha; [done|]. cbn [foldl].
  apply IH. destruct (String.eqb (ref_for_id a (raw_order_id raw)) ""); auto with kotak.
Qed.

Lemma corroborate_spec a rows raw :
  corroborate a rows raw <> "" ->
  raw_malformed raw = false /\ unmatched_rows_per_key a rows (row_key raw) = 1%nat /\
  exists p, candidates_for_key a (row_key raw) = [p] /\ pend_ref p = corroborate a rows raw.
Proof.
  unfold corroborate. destruct (raw_malformed raw); [done|]. destruct (Nat.eqb_spec (unmatched_rows_per_key a rows (row_key raw)) 1) as [E|]; [|done].
  cbn [negb]. destruct (candidates_for_key a (row_key raw)) as [|p [|? ?]]; try done. intros _. eauto.
Qed.

Lemma candidate_facts a key p : candidates_for_key a key = [p] -> p ∈ pending a /\ attr_key p = key.
Proof.
  unfold candidates_for_key. intros E. assert (Hp : p ∈ [p]) by by left. rewrite <- E in Hp.
  apply list_elem_of_filter in Hp as [Hk Hin]. split; [done|]. apply Is_true_true, andb_true_iff in Hk as [_ Hk]. by apply String.eqb_eq.
Qed.

Lemma filter_two {A} (f : A -> bool) l1 x l2 y l3 :
  f x = true -> f y = true -> (2 <= length (filter f (l1 ++ x :: l2 ++ y :: l3)))%nat.
Proof.
  intros Hx Hy. rewrite filter_app, filter_cons_True by (rewrite Hx; exact I).
  rewrite filter_app, filter_cons_True by (rewrite Hy; exact I). rewrite !length_app. simpl. rewrite length_app. simpl. lia.
Qed.

(** No intent is corroborated by two rows. *)
Lemma corroborated_once a l1 r1 l2 r2 l3 :
  adapter_ok a -> let rows := l1 ++ r1 :: l2 ++ r2 :: l3 in
  ref_for_id a (raw_order_id r1) = "" -> ref_for_id a (raw_order_id r2) = "" ->
  corroborate a rows r1 <> "" -> corroborate a rows r1 <> corroborate a rows r2.
Proof.
  intros Ha rows H1 H2 Hc E. destruct (corroborate_spec a rows r1 Hc) as (_ & Hu1 & p1 & Hp1 & E1).
  rewrite E in Hc. destruct (corroborate_spec a rows r2 Hc) as (_ & _ & p2 & Hp2 & E2).
  apply candidate_facts in Hp1 as [Hin1 Hk1], Hp2 as [Hin2 Hk2].
  assert (p1 = p2) as <-.
  { apply list_elem_of_lookup in Hin1 as [i Hi], Hin2 as [j Hj].
    assert (i = j) as <-; [|congruence]. eapply NoDup_lookup; [apply (ok_distinct a Ha)|..]; rewrite list_lookup_fmap; [by rewrite Hi|].
    rewrite Hj. simpl. congruence. }
  assert (row_key r1 = row_key r2) as Hk by congruence.
  unfold unmatched_rows_per_key in Hu1.
  pose proof (filter_two (fun raw => String.eqb (ref_for_id a (raw_order_id raw)) "" && String.eqb (row_key raw) (row_key r1)) l1 r1 l2 r2 l3) as Hf.
  cbn beta in Hf. rewrite H1, H2, Hk, !String.eqb_refl in Hf. specialize (Hf eq_refl eq_refl).
  fold rows in Hf. rewrite Hk in Hu1. rewrite Hu1 in Hf. lia.
Qed.

(** What a published order says of its row. *)
Record row_published (a : KotakAdapter) (rows : list RawOrder) (raw : RawOrder) (o : Order) : Prop := {
  pub_id : broker_order_id o = raw_order_id raw;
  pub_unreadable : raw_malformed raw = true \/ raw_filled raw = None \/ (exists f, raw_filled raw = Some f /\ 0 < f /\ raw_avg raw = None) ->
                   state o = Unknown;
  pub_claim : client_ref (intent o) <> "" ->
    id_to_ref a !! raw_order_id raw = Some (client_ref (intent o))
    \/ (id_to_ref a !! raw_order_id raw = None /\ raw_malformed raw = false
        /\ unmatched_rows_per_key a rows (row_key raw) = 1%nat
        /\ exists p, candidates_for_key a (row_key raw) = [p] /\ pend_ref p = client_ref (intent o));
  pub_withheld : client_ref (intent o) = "" ->
    intent o = mkIntent "" (raw_symbol raw) Buy (quantity_of 0) (from_paise 0) None Market Intraday "";
  pub_trigger : is_Some (trigger_price (intent o)) -> order_type (intent o) = StopLoss \/ order_type (intent o) = StopLossMarket;
}.

Lemma ref_for_id_bound a id : adapter_ok a -> (ref_for_id a id = "" <-> id_to_ref a !! id = None)
  /\ (forall r, r <> "" -> ref_for_id a id = r -> id_to_ref a !! id = Some r).
Proof.
  intros Ha. unfold ref_for_id. destruct (String.eqb_spec id "") as [->|Hid].
  - destruct (id_to_ref a !! "") as [r|] eqn:E; [by apply (ok_bound a Ha) in E as []|]. split; [done|]. by intros ? ? <-.
  - destruct (id_to_ref a !! id) as [r|] eqn:E; simpl.
    + apply (ok_bound a Ha) in E as (_ & Hne & _). split; [split; [intros ->; done|done]|]. by intros ? _ <-.
    + split; [done|]. by intros ? ? <-.
Qed.

Lemma publish_spec a rows raw : adapter_ok a -> row_published a rows raw (publish raw (row_ref a rows raw)).
Proof.
  intros Ha. assert (Hcr : client_ref (intent (publish raw (row_ref a rows raw))) = row_ref a rows raw).
  { unfold publish. by destruct (negb (String.eqb (row_ref a rows raw) "")). }
  split; [done|..].
  - unfold publish. cbn [state]. intros [Hm|[Hf|(f & Hf & Hpos & Hav)]]; [|by rewrite Hf|].
    + rewrite Hm. by destruct (raw_filled raw).
    + rewrite Hf, Hav. apply Z.ltb_lt in Hpos. rewrite Hpos. cbn. by rewrite orb_true_r.
  - rewrite Hcr. unfold row_ref. destruct (ref_for_id_bound a (raw_order_id raw) Ha) as [Hn Hs].
    destruct (String.eqb_spec (ref_for_id a (raw_order_id raw)) "") as [E|E]; intros Hne.
    + right. split; [by apply Hn|]. by apply corroborate_spec.
    + left. by apply Hs.
  - rewrite Hcr. intros E. unfold publish. rewrite E. done.
  - unfold publish. cbn [intent]. destruct (negb _); cbn; [|by intros []].
    destruct (raw_order_type raw); cbn; auto; by intros [].
Qed.

(** Anchoring keeps the ids already bound. *)
Lemma anchor_keeps id r a id' r' :
  id_to_ref a !! id' = Some r' -> id <> id' -> id_to_ref (anchor id r a) !! id' = Some r'.
Proof.
  intros E Hne. unfold anchor, drop_pending. destruct (_ || _) eqn:Eb; [done|]. apply orb_false_iff in Eb as [_ ->].
  cbn. by rewrite lookup_insert_ne.
Qed.

Lemma correlate_keeps a rows id r :
  adapter_ok a -> id_to_ref a !! id = Some r -> id_to_ref (correlate a rows).2 !! id = Some r.
Proof.
  intros Ha Hid. unfold correlate. rewrite correlate_spec. cbn [snd].
  match goal with |- id_to_ref (foldl ?f a rows) !! _ = _ =>
    enough (H : forall l a1, id_to_ref a1 !! id = Some r -> id_to_ref (foldl f a1 l) !! id = Some r) by (by apply H) end.
  induction l as [|raw l IH]; intros a1 H1; [done|]. cbn [foldl]. apply IH.
  destruct (String.eqb_spec (ref_for_id a (raw_order_id raw)) "") as [E|]; [|done]. apply anchor_keeps; [done|].
  intros Heq. apply (proj1 (ref_for_id_bound a _ Ha)) in E. congruence.
Qed.

Section Correlation.
  Context (rest : list KotakCall -> KotakCall -> result json).

(** C22: the Kotak order read attributes fail-closed. An order is published
    under a reference only when its broker id is bound to it, or when, of the
    rows no id names and of the intents still in flight, exactly one each has
    its symbol, side and size and the row was read in full; no intent is given
    to two rows that way, and an id already bound is never rebound; a row
    without a reference carries none of the fields another layer could match on;
    a row with an unreadable number or fill asserts no state; and the
    correlation state stays well-formed. *)
Theorem attribution_exact a h elements :
  adapter_ok a -> rest h CallOrders = Ok (JArray elements) ->
  let rows := read_rows elements in
  let '(r, a', _) := fetch_orders rest a h in
  exists os, r = Ok os /\ Forall2 (row_published a rows) rows os /\ adapter_ok a'
  /\ (forall id ref, id_to_ref a !! id = Some ref -> id_to_ref a' !! id = Some ref)
  /\ (forall l1 r1 l2 r2 l3, rows = l1 ++ r1 :: l2 ++ r2 :: l3 ->
       id_to_ref a !! raw_order_id r1 = None -> id_to_ref a !! raw_order_id r2 = None ->
       row_ref a rows r1 <> "" -> row_ref a rows r1 <> row_ref a rows r2).
Proof.
  intros Ha Ho rows. unfold fetch_orders, issue. rewrite Ho. fold rows.
  destruct (correlate a rows) as [refs a'] eqn:Ec. exists (zip_with publish rows refs). split; [done|].
  pose proof (correlate_refs a rows) as Hr. rewrite Ec in Hr. cbn [fst] in Hr. subst refs.
  pose proof (correlate_ok a rows Ha) as Hok. rewrite Ec in Hok. cbn [snd] in Hok.
  split; [|split; [done|split]].
  - rewrite zip_with_fmap_r. rewrite zip_with_diag. apply Forall2_fmap_r, Forall_Forall2_diag, Forall_forall. intros raw _. by apply publish_spec.
  - intros id ref Hid. pose proof (correlate_keeps a rows id ref Ha Hid) as H. by rewrite Ec in H.
  - intros l1 r1 l2 r2 l3 E H1 H2. apply (proj1 (ref_for_id_bound a _ Ha)) in H1, H2. unfold row_ref.
    rewrite H1, H2, String.eqb_refl. rewrite E. intros Hc. by eapply corroborated_once.
Qed.

(** What a caller does with the adapter. *)
Inductive KotakOp :=
  | DoPlace (i : OrderIntent)
  | DoModify (id : string) (i : OrderIntent)
  | DoCancel (id : string)
  | DoSquareOff (id : string) (band_lower band_upper : option Price)
  | DoFetchOrders.

Definition kotak_op (op : KotakOp) (s : KotakAdapter * list KotakCall) : KotakAdapter * list KotakCall :=
  let '(a, h) := s in
  match op with
  | DoPlace i => let '(_, a, h) := place rest i a h in (a, h)
  | DoModify id i => let '(_, a, h) := modify rest id i a h in (a, h)
  | DoCancel id => (a, (cancel rest id h).2)
  | DoSquareOff id lower upper => let '(_, a, h) := square_off_banded rest id lower upper a h in (a, h)
  | DoFetchOrders => let '(_, a, h) := fetch_orders rest a h in (a, h)
  end.

Lemma place_exit_ok i parent a h : adapter_ok a -> adapter_ok (place_exit rest i parent a h).1.2.
Proof. intros Ha. unfold place_exit, issue. destruct (rest h _); cbn; auto with kotak. Qed.

Lemma flatten_filled_ok id parent q rows lower upper a h :
  adapter_ok a -> adapter_ok (flatten_filled rest id parent q rows lower upper a h).1.2.
Proof.
  intros Ha. unfold flatten_filled. destruct (read_exit_side parent); [|done].
  destruct (existing_exit _ _ _ _ _ _ _) as [[?|]|]; [done|by apply place_exit_ok|done].
Qed.

Lemma square_off_ok id lower upper a h : adapter_ok a -> adapter_ok (square_off_banded rest id lower upper a h).1.2.
Proof.
  intros Ha. unfold square_off_banded, issue at 1. destruct (String.eqb id ""); [done|].
  destruct (rest h CallOrders) as [[]|]; try done. destruct (assess_parent _ _ _) as [[[parent q] t]|]; [|done].
  destruct (cancel_remainder _ _ _ _) as [[]]; [|done]. destruct (q <=? 0); [done|by apply flatten_filled_ok].
Qed.

(** C31: every operation of the Kotak adapter, whatever the broker answers,
    keeps the correlation state well-formed: at most 256 intents in flight,
    distinct, named and without an id; ids bound to named, anchored
    references. *)
Theorem kotak_state_ok ops h : adapter_ok (foldl (fun s op => kotak_op op s) (new_adapter, h) ops).1.
Proof.
  induction ops as [|op ops IH] using rev_ind; [apply new_adapter_ok|]. rewrite foldl_app. cbn [foldl].
  destruct (foldl _ _ ops) as [a h1]. cbn [fst] in IH. destruct op as [i|id i|id|id lower upper|]; cbn [kotak_op].
  - unfold place, issue. destruct (rest h1 _) as [p|e]; [destruct (String.eqb (extract_order_id p) "")|]; cbn; auto with kotak.
  - unfold modify, issue. destruct (rest h1 _) as [p|e]; cbn; auto with kotak.
  - done.
  - pose proof (square_off_ok id lower upper a h1 IH) as H. by destruct (square_off_banded rest id lower upper a h1) as [[? ?] ?].
  - unfold fetch_orders, issue. destruct (rest h1 CallOrders) as [[]|]; try done.
    pose proof (correlate_ok a (read_rows elements) IH) as H. by destruct (correlate a (read_rows elements)).
Qed.
End Correlation.

(** ** What a flatten promises *)

Lemma holds_read_row row : raw_malformed (read_order_row row) = false ->
  (forall q, raw_quantity (read_order_row row) = Some q -> 0 <= q) /\
  (forall f, raw_filled (read_order_row row) = Some f -> 0 <= f /\
    forall q, raw_quantity (read_order_row row) = Some q -> 0 < q -> f <= q).
Proof.
  unfold read_order_row. destruct (first_number row _) as [q ?], (first_number row _) as [f ?], (first_paise row _) as [? ?],
    (first_paise row _) as [? ?], (first_paise row _) as [? ?]. cbn [raw_malformed raw_quantity raw_filled].
  intros _. unfold clamp_fill. destruct q as [q|], f as [f|]; cbn;
  repeat match goal with |- context [?a <? ?b] => destruct (Z.ltb_spec a b); cbn end;
    (split; intros; simplify_eq; try lia; split; intros; simplify_eq; lia).
Qed.

Lemma kotak_mentions_neutral (b : bool) :
  status_mentions (if b then "complete" else "open") "reject" = false /\
  status_mentions (if b then "complete" else "open") "cancel" = false.
Proof. by destruct b. Qed.

Lemma kotak_neutral_fill (b : bool) filled ordered :
  let snap := normalize_fill (if b then "complete" else "open") filled ordered true in
  exit_qty_for snap = Z.max 0 filled /\ (canonical_state snap = Filled <-> 0 < filled /\ ordered <= filled).
Proof.
  intros snap. destruct (normalize_fill_exact (if b then "complete" else "open") filled ordered true) as (_ & _ & Hs & He & _).
  fold snap in Hs, He. split; [done|]. rewrite Hs. destruct (kotak_mentions_neutral b) as [-> ->].
  destruct (decide (0 < filled)), (decide (filled < ordered)), (decide (0 < ordered)); try (split; [done|lia]); try (split; [lia|done]).
  all: destruct (working_status _); (split; [done|lia]).
Qed.

Section Flatten.
  Context (rest : list KotakCall -> KotakCall -> result json).

(** A parent the flatten may act on, with what was filled of how much. *)
Record actionable (a : KotakAdapter) (id : string) (rows : list RawOrder) (parent : RawOrder) (filled ordered : Z) : Prop := {
  act_parent : parent ∈ rows /\ raw_order_id parent = id /\ id <> "";
  act_readable : raw_malformed parent = false;
  act_filled : raw_filled parent = Some filled;
  act_ordered : raw_quantity parent = Some ordered;
  act_not_exit : is_exit_ref (ref_for_id a id) = false;
  act_known : map_order_state (raw_status parent) filled (Some ordered) <> Unknown;
}.

Definition over (parent : RawOrder) (filled ordered : Z) : Prop :=
  map_order_state (raw_status parent) filled (Some ordered) = Cancelled
  \/ map_order_state (raw_status parent) filled (Some ordered) = Rejected
  \/ (0 < filled /\ ordered <= filled).

(** The working remainder is gone before anything opposite is sent. *)
Definition pulled (id : string) (parent : RawOrder) (filled ordered : Z) (h cs : list KotakCall) : Prop :=
  (over parent filled ordered /\ cs = [CallOrders])
  \/ (~ over parent filled ordered /\ cs = [CallOrders; CallCancel (build_cancel_params id)] /\
      match rest (h ++ [CallOrders]) (CallCancel (build_cancel_params id)) with Ok _ => True | Err e => category e = OrderNotFound end).

(** The reference the exit of an order goes by. *)
Definition exit_name (a : KotakAdapter) (id : string) : string :=
  exit_client_ref (if String.eqb (ref_for_id a id) "" then id else ref_for_id a id).

(** The other side, as the parent's row spells its own. *)
Definition opposite (parent : RawOrder) (s : Side) : Prop :=
  (raw_side parent = "B" /\ s = Sell) \/ (raw_side parent = "S" /\ s = Buy).

(** A row that is known, or not known not, to be the exit by its shape: readable, not
    bound to another reference, of the opposite side in the parent's symbol, no
    larger than the fill, working or complete. *)
Record exit_shaped (a : KotakAdapter) (id : string) (parent : RawOrder) (filled : Z) (raw : RawOrder) : Prop := {
  es_other : raw_order_id raw <> "" /\ raw_order_id raw <> id;
  es_readable : raw_malformed raw = false;
  es_unclaimed : ref_for_id a (raw_order_id raw) = "" \/ ref_for_id a (raw_order_id raw) = exit_name a id;
  es_symbol : raw_symbol raw = raw_symbol parent;
  es_side : (raw_side parent = "B" /\ raw_side raw = "S") \/ (raw_side parent = "S" /\ raw_side raw = "B");
  es_size : exists q, raw_quantity raw = Some q /\ 0 < q <= filled;
  es_live : classify_kotak_status (raw_status raw) = Working \/ classify_kotak_status (raw_status raw) = Complete;
}.

(** A row that the adapter bound to the exit, by its broker id. *)
Definition exit_bound (a : KotakAdapter) (id : string) (raw : RawOrder) : Prop :=
  raw_order_id raw <> "" /\ raw_order_id raw <> id /\ ref_for_id a (raw_order_id raw) = exit_name a id.

(** No row of the book is known, or could be taken, for the exit. *)
Definition no_exit_seen (a : KotakAdapter) (id : string) (parent : RawOrder) (filled : Z) (rows : list RawOrder) : Prop :=
  forall raw, raw ∈ rows -> ~ exit_bound a id raw /\ ~ exit_shaped a id parent filled raw.

(** The exit that is in the book: bound to its reference by id, readable and live, or,
    when no row is, the only row of its shape. *)
Definition exit_seen (a : KotakAdapter) (id : string) (parent : RawOrder) (filled : Z) (rows : list RawOrder) (q : Z) : Prop :=
  exists raw, raw ∈ rows /\ raw_quantity raw = Some q /\
    ((exit_bound a id raw /\ raw_malformed raw = false /\
      (classify_kotak_status (raw_status raw) = Working \/ classify_kotak_status (raw_status raw) = Complete)) \/
     (exit_shaped a id parent filled raw /\ forall raw', raw' ∈ rows ->
        ~ exit_bound a id raw' /\ (exit_shaped a id parent filled raw' -> raw' = raw))).

Record closing (parent : RawOrder) (filled : Z) (s : Side) (p : params) : Prop := {
  cl_quantity : p !! "qt" = Some (pretty filled);
  cl_side : opposite parent s;
  cl_transaction : p !! "tt" = Some (side_code s);
  cl_symbol : p !! "ts" = Some (raw_symbol parent);
  cl_product : p !! "pc" = Some (if decide (raw_product parent = "") then "MIS" else raw_product parent);
  cl_segment : p !! "es" = Some (if decide (raw_segment parent = "") then infer_segment (raw_symbol parent) else raw_segment parent);
}.

Inductive flattened (id : string) (a : KotakAdapter) (h : list KotakCall) : result unit -> list KotakCall -> Prop :=
  | flat_refused e cs :
      (cs = [] /\ id = "" \/ cs = [CallOrders]) -> flattened id a h (Err e) cs
  | flat_remainder_kept elements parent filled ordered e :
      rest h CallOrders = Ok (JArray elements) -> actionable a id (read_rows elements) parent filled ordered ->
      ~ over parent filled ordered ->
      rest (h ++ [CallOrders]) (CallCancel (build_cancel_params id)) = Err e -> category e <> OrderNotFound ->
      flattened id a h (Err e) [CallOrders; CallCancel (build_cancel_params id)]
  | flat_nothing_filled elements parent ordered cs :
      rest h CallOrders = Ok (JArray elements) -> actionable a id (read_rows elements) parent 0 ordered ->
      pulled id parent 0 ordered h cs -> flattened id a h (Ok tt) cs
  | flat_not_sent elements parent filled ordered cs r :
      rest h CallOrders = Ok (JArray elements) -> actionable a id (read_rows elements) parent filled ordered -> 0 < filled ->
      pulled id parent filled ordered h cs ->
      (r = Ok tt -> exists q, exit_seen a id parent filled (read_rows elements) q /\ filled <= q) ->
      flattened id a h r cs
  | flat_exit_sent elements parent filled ordered cs s p r :
      rest h CallOrders = Ok (JArray elements) -> actionable a id (read_rows elements) parent filled ordered -> 0 < filled ->
      pulled id parent filled ordered h cs ->
      no_exit_seen a id parent filled (read_rows elements) ->
      closing parent filled s p ->
      r = match rest (h ++ cs) (CallPlace p) with Ok _ => Ok tt | Err e => Err e end ->
      flattened id a h r (cs ++ [CallPlace p]).

Lemma place_params_fields i :
  build_place_params i !! "qt" = Some (quantity_to_string (quantity i)) /\ build_place_params i !! "tt" = Some (side_code (side i))
  /\ build_place_params i !! "ts" = Some (symbol i) /\ build_place_params i !! "pc" = Some (kotak_product (product i))
  /\ build_place_params i !! "es" = Some (infer_segment (symbol i)).
Proof. unfold build_place_params. split_and!; by simplify_map_eq. Qed.

Lemma exit_intent_fields ref sym s q lower upper :
  let i := exit_intent ref sym s q lower upper in
  symbol i = sym /\ side i = s /\ quantity i = quantity_of q /\ product i = Intraday /\ client_ref i = ref.
Proof. unfold exit_intent. destruct lower as [l|], upper as [u|]; [destruct (price_paise l <=? price_paise u)|..]; done. Qed.

Lemma echo_field_ne key text p k : key <> k -> echo_field key text p !! k = p !! k.
Proof. intros. unfold echo_field. destruct (String.eqb text ""); [done|]. by rewrite lookup_insert_ne. Qed.

Lemma echo_field_eq key text p v : p !! key = Some v -> echo_field key text p !! key = Some (if decide (text = "") then v else text).
Proof.
  intros E. unfold echo_field. destruct (String.eqb_spec text ""); [by rewrite decide_True|].
  by rewrite decide_False, lookup_insert_eq.
Qed.

Lemma kotak_exit_params_closing parent filled s ref lower upper :
  opposite parent s -> closing parent filled s (exit_params (exit_intent ref (raw_symbol parent) s filled lower upper) parent).
Proof.
  intros Hs. destruct (exit_intent_fields ref (raw_symbol parent) s filled lower upper) as (E1 & E2 & E3 & E4 & _).
  destruct (place_params_fields (exit_intent ref (raw_symbol parent) s filled lower upper)) as (F1 & F2 & F3 & F4 & F5).
  rewrite E1 in F3, F5. rewrite E2 in F2. rewrite E3 in F1. rewrite E4 in F4.
  unfold exit_params. split; try done; try (by rewrite !echo_field_ne by done).
  - rewrite echo_field_ne by done. by rewrite (echo_field_eq _ _ _ _ F4).
  - rewrite (echo_field_eq "es" _ _ (infer_segment (raw_symbol parent))); [done|]. by rewrite echo_field_ne.
Qed.

Lemma read_exit_side_spec parent s : read_exit_side parent = Some s <-> opposite parent s.
Proof.
  unfold read_exit_side, opposite. destruct (String.eqb_spec (raw_side parent) "S") as [->|H1];
    [|destruct (String.eqb_spec (raw_side parent) "B") as [->|H2]]; naive_solver.
Qed.

Lemma exit_candidate_spec a id parent s filled raw : opposite parent s ->
  exit_candidate a id (exit_name a id) (raw_symbol parent) s filled raw = true <-> exit_shaped a id parent filled raw.
Proof.
  intros Hs. unfold exit_candidate. cbv zeta.
  rewrite !andb_true_iff, negb_true_iff, !orb_false_iff, !orb_true_iff, !String.eqb_neq, !String.eqb_eq, !bool_decide_eq_true.
  assert ((raw_side parent = "B" /\ raw_side raw = "S") \/ (raw_side parent = "S" /\ raw_side raw = "B") <->
          raw_side raw = side_code s) as Hside.
  { destruct Hs as [[-> ->]|[-> ->]]; naive_solver. }
  assert ((exists q, raw_quantity raw = Some q /\ 0 < q <= filled) <->
          match raw_quantity raw with Some q => (0 <? q) && (q <=? filled) | None => false end = true) as Hsize.
  { destruct (raw_quantity raw) as [q|]; [rewrite andb_true_iff, Z.ltb_lt, Z.leb_le|]; naive_solver. }
  rewrite <- Hside, <- Hsize. split; [intros ((((((? & ?) & ?) & ?) & (? & ?)) & ?) & ?); by split|].
  intros [[? ?] ? ? ? ? ? ?]. tauto.
Qed.

Lemma exit_by_id_spec a id rows o :
  exit_by_id a id (exit_name a id) rows = Ok o ->
  match o with
  | None => forall raw, raw ∈ rows -> ~ exit_bound a id raw
  | Some q => exists raw, raw ∈ rows /\ raw_quantity raw = Some q /\ exit_bound a id raw /\ raw_malformed raw = false /\
      (classify_kotak_status (raw_status raw) = Working \/ classify_kotak_status (raw_status raw) = Complete)
  end.
Proof.
  unfold exit_bound. set (ref := exit_name a id).
  induction rows as [|raw rows IH]; cbn [exit_by_id]; [intros [= <-] raw' Hin; by apply not_elem_of_nil in Hin|].
  match goal with |- _ -> ?G => assert (Hskip : forall P : Prop, exit_by_id a id ref rows = Ok o ->
    (raw_order_id raw = "" \/ raw_order_id raw = id \/ ref_for_id a (raw_order_id raw) <> ref) -> G) end.
  { intros _ H Hr. specialize (IH H). destruct o as [q|].
    - destruct IH as (raw' & ? & ?). exists raw'. split; [by right|done].
    - intros raw' [->|Hin]%elem_of_cons; [naive_solver|by apply IH]. }
  destruct (String.eqb_spec (raw_order_id raw) "") as [|Hn]; [intros; apply (Hskip True); auto|].
  destruct (String.eqb_spec (raw_order_id raw) id) as [|Hi]; [intros; apply (Hskip True); auto|]. cbn [orb].
  destruct (String.eqb_spec (ref_for_id a (raw_order_id raw)) ref) as [|Hr]; [|intros; apply (Hskip True); auto]. cbn [negb].
  destruct (classify_kotak_status (raw_status raw)) eqn:Ec; try done; cbn [orb bool_decide];
    rewrite ?bool_decide_true, ?bool_decide_false by done; cbn [orb]; try done;
    destruct (raw_malformed raw) eqn:Em; try done; destruct (raw_quantity raw) eqn:Eq; try done; intros [= <-];
    exists raw; rewrite Ec, !elem_of_cons; repeat split; auto.
Qed.

Lemma existing_exit_spec a id parent s q rows o : opposite parent s ->
  existing_exit a id (exit_name a id) parent s q rows = Ok o ->
  match o with
  | None => no_exit_seen a id parent q rows
  | Some x => exit_seen a id parent q rows x
  end.
Proof.
  intros Hs. unfold existing_exit.
  destruct (exit_by_id a id _ rows) as [[x|]|] eqn:E; [|pose proof (exit_by_id_spec _ _ _ _ E) as H0|done].
  { intros [= <-]. destruct (exit_by_id_spec _ _ _ _ E) as (raw & ? & ? & ? & ? & ?). exists raw. auto 6. }
  assert (forall raw, raw ∈ filter (exit_candidate a id (exit_name a id) (raw_symbol parent) s q) rows <->
                      raw ∈ rows /\ exit_shaped a id parent q raw) as Hf.
  { intros raw. rewrite list_elem_of_filter, Is_true_true, (exit_candidate_spec a id parent s q raw Hs). tauto. }
  destruct (filter _ rows) as [|raw [|? ?]]; try done.
  - intros [= <-] raw Hin. split; [by apply H0|]. intros Hc. by apply (not_elem_of_nil raw), Hf.
  - intros [= <-]. destruct (proj1 (Hf raw) ltac:(by left)) as [Hin Hc]. destruct (es_size _ _ _ _ _ Hc) as (x & Hx & _).
    rewrite Hx.     exists raw. split; [done|]. split; [done|]. right. split; [done|]. intros raw' Hin'. split; [by apply H0|].
    intros Hc'. by apply list_elem_of_singleton, Hf.
Qed.

Lemma find_parent_spec id rows parent : id <> "" -> find_parent id rows = Some parent -> parent ∈ rows /\ raw_order_id parent = id /\ id <> "".
Proof.
  intros Hid E. apply List.find_some in E as [Hin E]. apply andb_true_iff in E as [_ E]. apply String.eqb_eq in E.
  split; [by apply list_elem_of_In|done].
Qed.

Lemma assess_parent_spec a id elements parent q terminal :
  id <> "" -> assess_parent a id (read_rows elements) = Ok (parent, q, terminal) ->
  exists filled ordered, actionable a id (read_rows elements) parent filled ordered /\ q = filled /\ 0 <= filled
    /\ (terminal = true <-> over parent filled ordered).
Proof.
  intros Hid. unfold assess_parent. destruct (find_parent id (read_rows elements)) as [p|] eqn:Ep; [|done].
  apply (find_parent_spec _ _ _ Hid) in Ep. destruct (raw_malformed p) eqn:Em; [done|].
  destruct (raw_filled p) as [filled|] eqn:Ef; [|done]. destruct (is_exit_ref (ref_for_id a id)) eqn:Ex; [done|].
  case_bool_decide as Hk; [done|]. destruct (raw_quantity p) as [ordered|] eqn:Eq; [|done].
  assert (Hf : 0 <= filled).
  { destruct Ep as (Hin & _). unfold read_rows in Hin. apply list_elem_of_fmap in Hin as (row & -> & _).
    by destruct (proj2 (holds_read_row row Em) filled Ef). }
  destruct (kotak_neutral_fill (bool_decide (map_order_state (raw_status p) filled (Some ordered) = Filled)) filled ordered) as [Hq Hc].
  revert Hq Hc. generalize (normalize_fill (if bool_decide (map_order_state (raw_status p) filled (Some ordered) = Filled) then "complete" else "open") filled ordered true).
  cbv zeta. intros snap Hq Hc. rewrite Hq, Z.max_r by done. intros [= <- <- <-].
  exists filled, ordered. split; [by split|]. split; [done|]. split; [done|].
  unfold over. rewrite !orb_true_iff, !bool_decide_eq_true, Hc. tauto.
Qed.

Lemma kotak_cancel_remainder_pulled id parent filled ordered terminal h r h' :
  (terminal = true <-> over parent filled ordered) ->
  cancel_remainder rest id terminal (h ++ [CallOrders]) = (r, h') ->
  exists cs, h' = h ++ cs /\
  match r with
  | Ok _ => pulled id parent filled ordered h cs
  | Err e => ~ over parent filled ordered /\ cs = [CallOrders; CallCancel (build_cancel_params id)] /\
             rest (h ++ [CallOrders]) (CallCancel (build_cancel_params id)) = Err e /\ category e <> OrderNotFound
  end.
Proof.
  intros Ht. unfold cancel_remainder, issue, pulled. destruct terminal.
  - intros [= <- <-]. exists [CallOrders]. split; [done|]. left. split; [by apply Ht|done].
  - assert (~ over parent filled ordered) by (intros Ho; by apply Ht in Ho).
    rewrite <- app_assoc. destruct (rest _ _) as [d|e] eqn:E; [|case_bool_decide]; intros [= <- <-];
      exists [CallOrders; CallCancel (build_cancel_params id)]; (split; [done|]); auto 7.
Qed.

(** The flatten runs through one of the ways of [flattened]. *)
Lemma kotak_flatten_run id lower upper a h :
  let '(r, a', h') := square_off_banded rest id lower upper a h in
  exists cs, h' = h ++ cs /\ flattened id a h r cs.
Proof.
  unfold square_off_banded. destruct (String.eqb_spec id "") as [->|Hid].
  { exists []. rewrite app_nil_r. split; [done|]. apply flat_refused. auto. }
  unfold issue at 1. destruct (rest h CallOrders) as [[ | | | | |elements|]|e] eqn:Eo;
    try (exists [CallOrders]; split; [done|]; apply flat_refused; by right).
  destruct (assess_parent a id (read_rows elements)) as [[[parent q] terminal]|e] eqn:Ep.
  2:{ exists [CallOrders]. split; [done|]. apply flat_refused. by right. }
  destruct (assess_parent_spec _ _ _ _ _ _ Hid Ep) as (filled & ordered & Ha & -> & Hf & Ht).
  destruct (cancel_remainder rest id terminal (h ++ [CallOrders])) as [[[]|e] h1] eqn:Ec;
    destruct (kotak_cancel_remainder_pulled _ _ _ _ _ _ _ _ Ht Ec) as (cs & -> & Hc).
  2:{ destruct Hc as (? & -> & ? & ?). eexists. split; [done|]. by eapply flat_remainder_kept. }
  destruct (Z.leb_spec filled 0) as [Hz|Hpos].
  { exists cs. split; [done|]. assert (filled = 0) as -> by lia. by eapply flat_nothing_filled. }
  unfold flatten_filled. destruct (read_exit_side parent) as [s|] eqn:Es.
  2:{ exists cs. split; [done|]. by eapply flat_not_sent. }
  apply read_exit_side_spec in Es.
  change (exit_client_ref _) with (exit_name a id).
  destruct (existing_exit _ _ _ _ _ _ _) as [[x|]|e] eqn:Ee.
  - exists cs. split; [done|]. apply (existing_exit_spec _ _ _ _ _ _ _ Es) in Ee.
    eapply flat_not_sent; try done. destruct (Z.ltb_spec x filled); [done|]. intros _. by exists x.
  - apply (existing_exit_spec _ _ _ _ _ _ _ Es) in Ee. unfold place_exit, issue.
    destruct (exit_intent_fields (exit_name a id) (raw_symbol parent) s filled lower upper) as (_ & _ & _ & _ & Er).
    destruct (rest _ (CallPlace _)) as [d|e] eqn:E; eexists (cs ++ [CallPlace _]);
      (split; [by rewrite app_assoc|]); eapply flat_exit_sent; try done; try (by apply kotak_exit_params_closing); by rewrite E.
  - exists cs. split; [done|]. by eapply flat_not_sent.
Qed.

(** The calls of a flatten: the book, perhaps a cancel of the parent, perhaps one
    order. *)
Definition flatten_calls (id : string) (cs : list KotakCall) : Prop :=
  exists cancelled placed, (cs = [] \/ cs = CallOrders :: cancelled ++ placed)
    /\ (cancelled = [] \/ cancelled = [CallCancel (build_cancel_params id)]) /\ (placed = [] \/ exists p, placed = [CallPlace p]).

Lemma kotak_flattened_calls id a h r cs : flattened id a h r cs -> flatten_calls id cs.
Proof.
  assert (P : forall parent filled ordered cs, pulled id parent filled ordered h cs ->
    exists cancelled, cs = CallOrders :: cancelled /\ (cancelled = [] \/ cancelled = [CallCancel (build_cancel_params id)])).
  { intros ? ? ? ? [[_ ->]|(_ & -> & _)]; eauto. }
  intros [e c Hc|? ? ? ? e|? ? ? c ? ? Hp|? ? ? ? c ? ? ? ? Hp|? ? ? ? c ? p ? ? ? ? Hp];
    try (destruct (P _ _ _ _ Hp) as (cancelled & -> & ?)).
  - destruct Hc as [[-> _]| ->]; exists [], []; auto.
  - exists [CallCancel (build_cancel_params id)], []. auto.
  - exists cancelled, []. rewrite app_nil_r. auto.
  - exists cancelled, []. rewrite app_nil_r. auto.
  - exists cancelled, [CallPlace p]. split_and!; eauto.
Qed.

(** C23: the Kotak flatten refines its contract, whatever the broker answers at
    each call: it reads the book first; it acts only on a parent whose numbers
    it could read and which it does not know to be an exit; it cancels a
    working remainder and goes no further unless the cancel was accepted or the
    order was already gone; it answers ok only when nothing was filled, when the
    exit it sent was accepted, or when the exit is already in the book and at
    least as large as the fill: a live, readable row bound to the exit's reference
    by its id, or, when no row is, the one row that is of the opposite side in the
    parent's symbol, no larger than the fill, live, readable and not bound to
    another reference. It sends at most one order, only when no row is bound to
    the exit and none is of that shape, of the opposite side, for exactly the
    quantity filled, in the parent's symbol, product and segment. It makes at most three calls, in that order, and never modifies
    anything. *)
Theorem kotak_flatten_refines id lower upper a h :
  let '(r, a', h') := square_off_banded rest id lower upper a h in
  exists cs, h' = h ++ cs /\ flattened id a h r cs /\ flatten_calls id cs.
Proof.
  pose proof (kotak_flatten_run id lower upper a h) as H. destruct (square_off_banded rest id lower upper a h) as [[r a'] h'].
  destruct H as (cs & -> & Hf). exists cs. split; [done|]. split; [done|]. by eapply kotak_flattened_calls.
Qed.
End Flatten.

(** ** Traces *)

Definition book_row (id side avg : string) : json :=
  JObject [("nOrdNo", JString id); ("trdSym", JString "INFY"); ("trnsTp", JString side); ("qty", JString "50");
           ("fldQty", JString "50"); ("avgPrc", JString avg); ("ordSt", JString "complete"); ("prod", JString "NRML")].

Definition is_exit_call (c : KotakCall) : bool :=
  match c with CallPlace p => match p !! "tt" with Some t => String.eqb t "S" | None => false end | _ => false end.

(** A broker that loses the first acknowledgement, and acknowledges and shows
    every exit. *)
Definition losing_rest (h : list KotakCall) (c : KotakCall) : result json :=
  let exits := length (filter is_exit_call h) in
  match c with
  | CallPlace _ => if is_exit_call c then Ok (JObject [("nOrdNo", JString ("X" +:+ pretty (Z.of_nat exits)))])
                   else Err (make_error Network "no answer" "")
  | CallOrders => Ok (JArray (book_row "P1" "B" "10" :: ((fun k => book_row ("X" +:+ pretty (Z.of_nat k)) "S" "10") <$> seq 0 exits)))
  | _ => Ok (JObject [])
  end.

Definition lost_intent : OrderIntent :=
  mkIntent "u1" "INFY" Buy (quantity_of 50) (from_paise 1000) None Market Normal "s".

(** A flatten of an order whose acknowledgement was lost names its exit after
    the broker id; once the order read has attributed the order, the next
    flatten names the exit after the reference, does not recognise the first
    one, and sends a second. *)
Example late_attribution_second_exit :
  let run ops := length (filter is_exit_call
    (foldl (fun s op => kotak_op losing_rest op s) (new_adapter, []) ops).2) in
  run [DoPlace lost_intent; DoSquareOff "P1" None None; DoSquareOff "P1" None None] = 1%nat
  /\ run [DoPlace lost_intent; DoSquareOff "P1" None None; DoFetchOrders; DoSquareOff "P1" None None] = 2%nat.
Proof. by vm_compute. Qed.

Definition book_rest (rows : list json) (h : list KotakCall) (c : KotakCall) : result json :=
  match c with CallOrders => Ok (JArray rows) | _ => Ok (JObject [("nOrdNo", JString "N")]) end.

(** After a restart the only evidence of an exit is its row: with an unreadable
    price on it, the row is passed over and a second exit is sent. *)
Example garbled_exit_sent_again :
  let sent rows := existsb is_exit_call (square_off_banded (book_rest rows) "P1" None None new_adapter []).2 in
  sent [book_row "P1" "B" "10"; book_row "X0" "S" "10"] = false
  /\ sent [book_row "P1" "B" "10"; book_row "X0" "S" "N/A"] = true.
Proof. by vm_compute. Qed.

Definition working_row (side : string) : json :=
  JObject [("nOrdNo", JString "P1"); ("trdSym", JString "INFY"); ("trnsTp", JString side); ("qty", JString "50");
           ("fldQty", JString "30"); ("avgPrc", JString "10"); ("ordSt", JString "open")].

(** An unreadable side is refused after the remainder was cancelled. *)
Example unreadable_side_cancels_first :
  let '(r, _, h) := square_off_banded (book_rest [working_row "X"]) "P1" None None new_adapter [] in
  is_ok r = false /\ h = [CallOrders; CallCancel (build_cancel_params "P1")].
Proof. by vm_compute. Qed.

Definition shapeless_rest (h : list KotakCall) (c : KotakCall) : result json := Ok (JObject [("unexpected", JArray [])]).

(** A payload of an unknown shape is read as an empty book, a flat account and
    a zero balance. *)
Example unreadable_payload_reads_flat :
  (fetch_orders shapeless_rest new_adapter []).1.1 = Ok []
  /\ (fetch_trades shapeless_rest new_adapter []).1 = Ok []
  /\ (fetch_positions shapeless_rest []).1 = Ok []
  /\ (fetch_funds (fun _ _ => Ok (JArray [])) []).1 = Ok (mkFunds (from_paise_money 0) (from_paise_money 0)).
Proof. by vm_compute. Qed.

(** The witness of [attribution_exact]: an intent in flight, one row of its shape. *)
Definition in_flight : KotakAdapter := register_intent lost_intent new_adapter.

Lemma attribution_exact_witness :
  let rows := read_rows [book_row "P1" "B" "10"] in
  let '(r, a', _) := fetch_orders (book_rest [book_row "P1" "B" "10"]) in_flight [] in
  exists os, r = Ok os /\ Forall2 (row_published in_flight rows) rows os /\ adapter_ok a'
  /\ (forall id ref, id_to_ref in_flight !! id = Some ref -> id_to_ref a' !! id = Some ref)
  /\ (forall l1 r1 l2 r2 l3, rows = l1 ++ r1 :: l2 ++ r2 :: l3 ->
       id_to_ref in_flight !! raw_order_id r1 = None -> id_to_ref in_flight !! raw_order_id r2 = None ->
       row_ref in_flight rows r1 <> "" -> row_ref in_flight rows r1 <> row_ref in_flight rows r2).
Proof.
  apply (attribution_exact (book_rest [book_row "P1" "B" "10"]) in_flight [] [book_row "P1" "B" "10"]).
  - apply register_intent_ok, new_adapter_ok.
  - reflexivity.
Defined.
