(* ===== verification/KotakErrors.v ===== *)
(** * KotakErrors: Kotak responses as typed errors
    (src/src/adapters/kotak/kotak_errors.cpp)

    The response envelope, the redaction of session artefacts, success, session
    death and the error mapper. Parsing a body is the JSON library's and a
    parameter. *)

From S2P Require Import Prelude Errors Domain Redaction RejectReason WireJson KiteRest.

(** ** Text of fields *)

Definition scalar_to_text (v : json) : string :=
  match v with
  | JString s => s
  | JInt z => pretty z
  | JBool b => if b then "true" else "false"
  | _ => ""
  end.

Definition field_scalar (v : json) : string :=
  match v with JNull | JObject _ | JArray _ => "" | v => scalar_to_text v end.

Fixpoint first_text (object : json) (names : list string) : string :=
  match names with
  | [] => ""
  | name :: names =>
      let text := match find_key object name with Some v => field_scalar v | None => "" end in
      if String.eqb text "" then first_text object names else text
  end.

Definition equals_ignore_ascii_case (a b : string) : bool := String.eqb (fold_string a) (fold_string b).

(** ** Redaction of session artefacts *)

Definition kKotakSecretKeys : list string := ["sid"; "auth"; "hsserverid"; "serverid"; "jsessionid"].

Definition is_kotak_secret_key (key : list ascii) : bool :=
  existsb (equals_ignore_ascii_case (str key)) kKotakSecretKeys.

Definition is_key_separator (c : ascii) : bool :=
  bool_decide (c ∈ ["034"; "'"; " "; "009"; ":"; "="]%char).

Definition is_explicit (c : ascii) : bool := Ascii.eqb c ":" || Ascii.eqb c "=".

Definition value_shaped (value : list ascii) : bool :=
  (3 <=? length value)%nat && ((12 <=? length value)%nat || existsb is_ascii_digit value).

(** [prev] tells whether the character before is a token character. The fuel is
    the length of the text. *)
Fixpoint redact_loop (fuel : nat) (prev : bool) (l : list ascii) : list ascii :=
  match fuel, l with
  | S fuel, c :: rest =>
      if negb (is_token_char c) || prev then c :: redact_loop fuel (is_token_char c) rest
      else
        let '(key, after) := span is_token_char l in
        key ++
        (if negb (is_kotak_secret_key key) then redact_loop fuel true after
         else
           let '(seps, from) := span is_key_separator after in
           let '(value, after_value) := span is_token_char from in
           seps ++
           (if negb (bool_decide (value = [])) && (existsb is_explicit seps || value_shaped value)
            then marker ++ redact_loop fuel true after_value
            else redact_loop fuel (bool_decide (seps = [])) from))
  | _, _ => []
  end.

Definition redact_kotak_keys (text : string) : string :=
  str (redact_loop (String.length text) false (chars text)).

Definition scrub_broker_text (text : string) : string := scrub (redact_kotak_keys text).

(** ** Phrasing *)

Definition kSessionCoPhrases : list string :=
  ["session"; "expired"; "re-login"; "relogin"; "login again"; "log in again"; "unauthorized"; "invalid credentials"].

Definition has_session_co_phrase (message : string) : bool :=
  existsb (contains (fold_string message)) kSessionCoPhrases.

(** ** The envelope *)

Record KotakEnvelope := mkEnvelope {
  parsed : bool;
  has_stat : bool;
  stat_ok : bool;
  has_fault : bool;
  has_error : bool;
  has_data : bool;
  env_message : string;
  env_status_code : string;
}.

Definition no_envelope : KotakEnvelope := mkEnvelope false false false false false false "" "".

Definition or_else (text fallback : string) : string := if String.eqb text "" then fallback else text.

(** The gateway fault: its message and code, when there is one. *)
Definition fault_texts (object : json) : option (string * string) :=
  match find_key object "fault" with
  | Some (JObject f) =>
      let fault := JObject f in
      Some (first_text fault ["message"; "faultstring"; "description"],
            or_else (first_text fault ["code"; "errorcode"; "errorCode"])
              match find_key fault "detail" with
              | Some (JObject d) => first_text (JObject d) ["errorcode"; "errorCode"; "code"]
              | _ => ""
              end)
  | _ => None
  end.

(** The error node: a record's message and code, or a bare message. *)
Definition error_texts (object : json) : option (string * string) :=
  let record r := Some (first_text r ["message"; "errMsg"; "description"], first_text r ["code"; "errorcode"; "errorCode"]) in
  match find_key object "error" with
  | Some (JArray (JObject r :: _)) => record (JObject r)
  | Some (JObject r) => record (JObject r)
  | Some (JString s) => Some (s, "")
  | _ => None
  end.

Definition read_object (object : json) : KotakEnvelope :=
  let '(has_stat, stat_ok) :=
    match find_key object "stat" with
    | Some (JString s) => (true, equals_ignore_ascii_case s "Ok")
    | _ => (false, false)
    end in
  let fault := fault_texts object in
  let error_node := error_texts object in
  let '(m1, c1) := default ("", "") fault in
  let '(m2, c2) := default ("", "") error_node in
  mkEnvelope true has_stat stat_ok (bool_decide (is_Some fault)) (bool_decide (is_Some error_node))
    (bool_decide (is_Some (find_key object "data")))
    (or_else (or_else m1 m2) (first_text object ["errMsg"; "errmsg"; "emsg"; "errorMessage"; "message"]))
    (or_else (or_else c1 c2) (first_text object ["stCode"; "stcode"; "errCode"; "code"])).

Definition category_for_reason (r : RejectReason) : option ErrorCategory :=
  match r with
  | RMargin => Some InsufficientFunds
  | RCircuitLimit | RFreezeQuantity => Some Validation
  | RIlliquid => Some BrokerRejected
  | RRmsBlock => Some RiskRejected
  | RSessionExpired => Some SessionExpired
  | RRateLimited => Some RateLimited
  | ROrderNotFound => Some OrderNotFound
  | RAlreadyComplete => Some BrokerRejected
  | RIndeterminate | RUnknown => None
  end.

Section Mapper.
  (** The library's [parse] without exceptions. *)
  Context (parse : string -> option json).

Definition parse_kotak_envelope (body : string) : KotakEnvelope :=
  match parse body with
  | Some (JObject o) => read_object (JObject o)
  | Some (JArray (JObject o :: _)) => read_object (JObject o)
  | _ => no_envelope
  end.

Definition is_kotak_success (r : HttpResponse) : bool :=
  if (status_code r <? 200) || (300 <=? status_code r) then false
  else
    let env := parse_kotak_envelope (resp_body r) in
    if has_fault env || has_error env then false else negb (has_stat env) || stat_ok env.

Definition is_session_death (r : HttpResponse) : bool :=
  if (status_code r =? 401) || (status_code r =? 403) then true
  else if (500 <=? status_code r) || (status_code r <=? 0) then false
  else if is_kotak_success r then false
  else
    let message := env_message (parse_kotak_envelope (resp_body r)) in
    if String.eqb message "" then false
    else bool_decide (reason (classify_rejection message) = RSessionExpired) && has_session_co_phrase message.

(** The reason read off the message: none without one, and no session verdict
    without session phrasing. *)
Definition message_reason (message : string) : RejectReason :=
  let r := if String.eqb message "" then RUnknown else reason (classify_rejection message) in
  if bool_decide (r = RSessionExpired) && negb (has_session_co_phrase message) then RUnknown else r.

Definition message_posture (message : string) : RetryPosture :=
  if String.eqb message "" then RPDoNotRetry else posture (classify_rejection message).

Definition map_kotak_error (r : HttpResponse) : Error :=
  let status := status_code r in
  let env := parse_kotak_envelope (resp_body r) in
  let message := env_message env in
  let code := "HTTP " +:+ pretty status
    +:+ (if String.eqb (env_status_code env) "" then "" else " stCode=" +:+ scrub_broker_text (env_status_code env))
    +:+ match find_header "Retry-After" r with Some ra => " Retry-After=" +:+ scrub_broker_text ra | None => "" end in
  let scrubbed := if String.eqb message "" then "" else scrub_broker_text message in
  let build cat act fallback :=
    mkError cat act (if String.eqb scrubbed "" then fallback else "kotak: " +:+ scrubbed) code in
  let rsn := message_reason message in
  if (500 <=? status) || (status <=? 0) || bool_decide (rsn = RIndeterminate) then
    build Network ReconcileFirst "kotak: broker/transport error; reconcile required"
  else if (status =? 401) || (status =? 403) || bool_decide (rsn = RSessionExpired) then
    build SessionExpired ReEstablishSession "kotak: session expired or invalid; re-establish required"
  else if (status =? 429) || bool_decide (rsn = RRateLimited) then
    build RateLimited RetrySafe "kotak: rate limited by broker"
  else
    match category_for_reason rsn with
    | Some cat => build cat (to_suggested_action (message_posture message)) "kotak: broker rejected the request"
    | None =>
        if status =? 404 then build OrderNotFound ReconcileFirst "kotak: order or endpoint not found; reconcile required"
        else if (status =? 400) || (status =? 422) then build Validation DoNotRetry "kotak: request rejected as invalid"
        else if has_fault env || has_error env || negb (String.eqb scrubbed "") || (has_stat env && negb (stat_ok env)) then
          build BrokerRejected ReconcileFirst "kotak: broker rejected the request"
        else build CatUnknown ReconcileFirst "kotak: unclassified transport error"
    end.
End Mapper.

(** ** The verdicts *)

Lemma classify_posture text : posture (classify_rejection text) = (rule_for (reason (classify_rejection text))).1.2.
Proof. rewrite (proj1 (classify_reason text)) at 1. by destruct (reason (classify_rejection text)). Qed.

Lemma message_reason_posture message :
  message_reason message <> RUnknown -> message_posture message = (rule_for (message_reason message)).1.2.
Proof.
  unfold message_reason, message_posture. destruct (String.eqb message ""); [by destruct (_ && _)|].
  destruct (_ && _); [done|]. intros _. apply classify_posture.
Qed.

(** A session verdict needs session phrasing besides the classifier's. *)
Lemma message_reason_session message :
  message_reason message = RSessionExpired -> session_dead message /\ has_session_co_phrase message = true.
Proof.
  unfold message_reason. destruct (String.eqb message ""); [by rewrite bool_decide_false|].
  case_bool_decide as E; cbn [andb]; [|done]. destruct (has_session_co_phrase message); [|done].
  intros _. split; [|done]. by apply session_dead_reason.
Qed.

Section Verdicts.
  Context (parse : string -> option json).

Abbreviation rsn r := (message_reason (env_message (parse_kotak_envelope parse (resp_body r)))).
Abbreviation gateway_down r := (500 <= status_code r \/ status_code r <= 0).

(** The messages the mapper writes itself. *)
Definition own_words : list string :=
  ["kotak: broker/transport error; reconcile required"; "kotak: session expired or invalid; re-establish required";
   "kotak: rate limited by broker"; "kotak: broker rejected the request";
   "kotak: order or endpoint not found; reconcile required"; "kotak: request rejected as invalid";
   "kotak: unclassified transport error"].

Lemma own_or_scrubbed (m fallback : string) :
  fallback ∈ own_words ->
  (if String.eqb (if String.eqb m "" then "" else scrub_broker_text m) "" then fallback
   else "kotak: " +:+ (if String.eqb m "" then "" else scrub_broker_text m)) ∈ own_words \/
  (if String.eqb (if String.eqb m "" then "" else scrub_broker_text m) "" then fallback
   else "kotak: " +:+ (if String.eqb m "" then "" else scrub_broker_text m)) = "kotak: " +:+ scrub_broker_text m.
Proof.
  intros Hf. destruct (String.eqb m ""); [by left|]. destruct (String.eqb (scrub_broker_text m) ""); [by left|by right].
Qed.

(** what a Kotak response may lead to. A failing gateway is a reconcile
    whatever its body says; a retry is offered exactly for a rate limit under a
    live gateway and session; the session is re-established exactly on a 401 or
    403 or on words that say so beyond the bare classifier; an order is declared
    dead only on a classified rejection or a 400 or 422; "order not found" needs
    those words or a 404; a dead session found by the probe is one for the
    mapper; and the broker's words and codes appear only redacted. *)
Theorem kotak_verdicts r :
  let e := map_kotak_error parse r in
  (gateway_down r -> category e = Network /\ action e = ReconcileFirst)
  /\ (action e = RetrySafe <-> ~ gateway_down r /\ status_code r <> 401 /\ status_code r <> 403
        /\ rsn r <> RIndeterminate /\ rsn r <> RSessionExpired /\ (status_code r = 429 \/ rsn r = RRateLimited))
  /\ (action e = ReEstablishSession <-> ~ gateway_down r /\ rsn r <> RIndeterminate
        /\ (status_code r = 401 \/ status_code r = 403 \/ rsn r = RSessionExpired))
  /\ (action e = DoNotRetry -> rsn r ∈ [RMargin; RCircuitLimit; RFreezeQuantity; RIlliquid; RRmsBlock]
        \/ status_code r = 400 \/ status_code r = 422)
  /\ (category e = OrderNotFound -> rsn r = ROrderNotFound \/ status_code r = 404)
  /\ (is_session_death parse r = true -> action e = ReEstablishSession \/ gateway_down r \/ rsn r = RIndeterminate)
  /\ (message e ∈ own_words \/
      message e = "kotak: " +:+ scrub_broker_text (env_message (parse_kotak_envelope parse (resp_body r)))).
Proof.
  cbv zeta. pose proof (message_reason_posture (env_message (parse_kotak_envelope parse (resp_body r)))) as Hp.
  assert (Hd : is_session_death parse r = true -> (status_code r = 401 \/ status_code r = 403) \/ ~ gateway_down r /\ rsn r = RSessionExpired).
  { unfold is_session_death. destruct (Z.eqb_spec (status_code r) 401); [auto|]. destruct (Z.eqb_spec (status_code r) 403); [auto|].
    destruct (Z.leb_spec 500 (status_code r)), (Z.leb_spec (status_code r) 0); try done. destruct (is_kotak_success parse r); [done|].
    cbn [orb]. unfold message_reason. destruct (String.eqb _ ""); [done|]. intros [H1 H2]%andb_true_iff. right. split; [lia|].
    rewrite H2. cbn [negb]. rewrite andb_false_r. by apply bool_decide_eq_true in H1. }
  unfold map_kotak_error. set (m := env_message (parse_kotak_envelope parse (resp_body r))) in *. set (rs := message_reason m) in *.
  assert (Hm : forall fb, fb ∈ own_words -> _) by exact (own_or_scrubbed m).
  assert (Hown : forall fb, existsb (String.eqb fb) own_words = true -> fb ∈ own_words).
  { intros fb (x & Hx & ->%String.eqb_eq)%existsb_exists. by apply list_elem_of_In. }
  destruct (_ || bool_decide (rs = RIndeterminate)) eqn:E1.
  { rewrite !orb_true_iff, !Z.leb_le, bool_decide_eq_true in E1. cbn [action category message].
    split_and!; try (by apply Hm, Hown); try split; intros; try discriminate; tauto. }
  rewrite !orb_false_iff, !Z.leb_gt, bool_decide_eq_false in E1.
  assert (Hg : ~ gateway_down r) by lia. destruct E1 as [_ E1].
  destruct (_ || bool_decide (rs = RSessionExpired)) eqn:E2.
  { rewrite !orb_true_iff, !Z.eqb_eq, bool_decide_eq_true in E2. cbn [action category message].
    split_and!; try (by apply Hm, Hown); try split; intros; try discriminate; tauto. }
  rewrite !orb_false_iff, !Z.eqb_neq, bool_decide_eq_false in E2.
  destruct (_ || bool_decide (rs = RRateLimited)) eqn:E3.
  { rewrite !orb_true_iff, !Z.eqb_eq, bool_decide_eq_true in E3. cbn [action category message].
    split_and!; try (by apply Hm, Hown); try split; intros; try discriminate; tauto. }
  rewrite !orb_false_iff, !Z.eqb_neq, bool_decide_eq_false in E3.
  destruct E2 as [[E21 E22] E2], E3 as [E31 E3]. clearbody rs m.
  destruct rs; cbn [category_for_reason]; try congruence;
    try (rewrite Hp by done; cbn [rule_for to_suggested_action action category message fst snd];
         split_and!; try (by apply Hm, Hown); try split; intros; try discriminate; rewrite ?elem_of_cons; tauto).
  destruct (Z.eqb_spec (status_code r) 404);
    [|destruct (Z.eqb_spec (status_code r) 400); [|destruct (Z.eqb_spec (status_code r) 422)]]; cbn [orb];
    [..|destruct (_ || _)]; cbn [action category message];
    (split_and!; try (by apply Hm, Hown); try split; intros; try discriminate; try tauto; try (destruct Hd; tauto)).
Qed.
End Verdicts.

(** ** Redaction *)

(** More fuel than the text is long changes nothing. *)
Lemma redact_fuel n : forall m prev l, (length l <= n)%nat -> (length l <= m)%nat -> redact_loop n prev l = redact_loop m prev l.
Proof.
  induction n as [|n IH]; intros m prev l Hn Hm; [destruct l; [by destruct m|simpl in Hn; lia]|].
  destruct l as [|c l]; [by destruct m|]. destruct m as [|m]; [simpl in Hm; lia|]. cbn [redact_loop]. simpl in Hn, Hm.
  destruct (is_token_char c) eqn:Ec; cbn [negb orb]; [destruct prev|]; [f_equal; apply IH; lia| |f_equal; apply IH; lia].
  destruct (span is_token_char (c :: l)) as [key after] eqn:Es. pose proof (span_spec _ _ _ _ Es) as (El & _ & _).
  assert (Ha : (length after <= length l)%nat).
  { cbn [span] in Es. rewrite Ec in Es. destruct (span is_token_char l) as [a b] eqn:E2. injection Es as <- <-.
    apply span_spec in E2 as (-> & _ & _). rewrite length_app. lia. }
  f_equal. destruct (negb (is_kotak_secret_key key)); [apply IH; lia|].
  destruct (span is_key_separator after) as [seps from] eqn:E3. pose proof (span_spec _ _ _ _ E3) as (-> & _ & _).
  destruct (span is_token_char from) as [value av] eqn:E4. pose proof (span_spec _ _ _ _ E4) as (-> & _ & _).
  rewrite !length_app in Ha. f_equal. destruct (_ && _); [f_equal; apply IH; lia|apply IH; rewrite length_app; lia].
Qed.

(** A text without a session key; it ends at a token boundary. *)
Inductive quiet : list ascii -> Prop :=
  | quiet_nil : quiet []
  | quiet_other c l : is_token_char c = false -> quiet l -> quiet (c :: l)
  | quiet_token tok c l :
      tok <> [] -> Forall (fun x => is_token_char x = true) tok -> is_kotak_secret_key tok = false ->
      is_token_char c = false -> quiet l -> quiet (tok ++ c :: l).

Abbreviation redact l prev := (redact_loop (length l) prev l).

Lemma redact_token tok rest :
  tok <> [] -> Forall (fun x => is_token_char x = true) tok -> stops is_token_char rest ->
  redact (tok ++ rest) false = tok ++
    (if negb (is_kotak_secret_key tok) then redact rest true
     else let '(seps, from) := span is_key_separator rest in
          let '(value, after_value) := span is_token_char from in
          seps ++ (if negb (bool_decide (value = [])) && (existsb is_explicit seps || value_shaped value)
                   then marker ++ redact after_value true else redact from (bool_decide (seps = [])))).
Proof.
  intros Hne Ht Hr. destruct tok as [|c tok]; [done|]. cbn [app length redact_loop]. inversion Ht as [|? ? Hc Ht']; subst.
  rewrite Hc. cbn [negb orb]. change (c :: tok ++ rest) with ((c :: tok) ++ rest). rewrite (span_app _ _ _ Ht Hr).
  cbn [app]. f_equal. f_equal. rewrite length_app. destruct (negb (is_kotak_secret_key (c :: tok))); [apply redact_fuel; lia|].
  destruct (span is_key_separator rest) as [seps from] eqn:E3. pose proof (span_spec _ _ _ _ E3) as (-> & _ & _).
  destruct (span is_token_char from) as [value av] eqn:E4. pose proof (span_spec _ _ _ _ E4) as (-> & _ & _).
  rewrite !length_app. f_equal. destruct (_ && _); [f_equal|]; apply redact_fuel; rewrite ?length_app; lia.
Qed.

Lemma redact_other c l prev : is_token_char c = false -> redact (c :: l) prev = c :: redact l false.
Proof. intros Hc. cbn [length redact_loop]. by rewrite Hc. Qed.

Lemma redact_quiet pre rest : quiet pre -> redact (pre ++ rest) false = pre ++ redact rest false.
Proof.
  induction 1 as [|c l Hc _ IH|tok c l Hne Ht Hs Hc _ IH]; [done|..].
  - cbn [app]. by rewrite redact_other, IH.
  - rewrite <- app_assoc. cbn [app]. rewrite redact_token by done. rewrite Hs. cbn [negb].
    rewrite redact_other by done. by rewrite IH, <- app_assoc.
Qed.

(** a value that broker text labels as a session artefact is blanked
    whatever its length or shape: after a text without such a label, a key such
    as sid or Auth in any case, and separators with a colon or an equals sign,
    the value is replaced by the marker and everything before it is kept as it
    was; what follows is redacted in turn. *)
Theorem labelled_value_blanked pre key seps value post :
  quiet pre -> Forall (fun x => is_token_char x = true) key -> is_kotak_secret_key key = true ->
  Forall (fun x => is_key_separator x = true) seps -> existsb is_explicit seps = true ->
  Forall (fun x => is_token_char x = true) value -> value <> [] -> stops is_token_char post ->
  redact_kotak_keys (str (pre ++ key ++ seps ++ value ++ post)) =
  str (pre ++ key ++ seps ++ marker ++ redact_loop (length post) true post).
Proof.
  intros Hpre Hkey Hsec Hseps Hexp Hval Hne Hpost. unfold redact_kotak_keys.
  rewrite <- chars_length, chars_str, redact_quiet by done. do 2 f_equal.
  assert (Hkn : key <> []) by by intros ->.
  assert (Hst : stops is_key_separator (value ++ post)).
  { destruct value as [|v value]; [done|]. inversion Hval as [|? ? Hv _]; subst. simpl.
    destruct (is_key_separator v) eqn:E; [|done]. exfalso. revert Hv E. clear.
    destruct v as [[] [] [] [] [] [] [] []]; vm_compute; discriminate. }
  rewrite redact_token; [|done|done|].
  - rewrite Hsec. cbn [negb]. rewrite (span_app _ _ _ Hseps Hst), (span_app _ _ _ Hval Hpost), Hexp.
    by rewrite bool_decide_false.
  - destruct seps as [|s seps]; [done|]. inversion Hseps as [|? ? Hs _]; subst. simpl.
    revert Hs. clear. destruct s as [[] [] [] [] [] [] [] []]; vm_compute; done.
Qed.

Lemma labelled_value_blanked_witness :
  redact_kotak_keys "login 7 failed: Sid='884213', retry" = "login 7 failed: Sid='***REDACTED***', retry".
Proof.
  apply (labelled_value_blanked (chars "login 7 failed: ") (chars "Sid") (chars "='") (chars "884213") (chars "', retry")).
  - apply (quiet_token (chars "login") " " (chars "7 failed: ")); [done|repeat constructor|done|done|].
    apply (quiet_token (chars "7") " " (chars "failed: ")); [done|repeat constructor|done|done|].
    apply (quiet_token (chars "failed") ":" (chars " ")); [done|repeat constructor|done|done|].
    apply quiet_other; [done|apply quiet_nil].
  - repeat constructor.
  - reflexivity.
  - repeat constructor.
  - reflexivity.
  - repeat constructor.
  - done.
  - reflexivity.
Defined.

(** A label directly after a label is taken for its value: the value of the
    second stays readable, past the general scrubber too. *)
Example label_hides_label : scrub_broker_text "Auth: sid: 884213" = "Auth: ***REDACTED***: 884213".
Proof. by vm_compute. Qed.

(** ** Two verdicts *)

Definition not_ok_parse (message : string) (_ : string) : option json :=
  Some (JObject [("errMsg", JString message); ("stat", JString "Not_Ok")]).

(** Any text with "invalid order" in it reads as "order not found", which a
    flatten takes for a cancelled remainder. *)
Example invalid_order_reads_not_found :
  category (map_kotak_error (not_ok_parse "invalid order validity") (mkResponse 200 [] "")) = OrderNotFound.
Proof. by vm_compute. Qed.

(** A 400 whose body cannot be read ends an order that may be live. *)
Example unreadable_400_not_retried :
  action (map_kotak_error (fun _ => None) (mkResponse 400 [] "<html>")) = DoNotRetry
  /\ action (map_http_error (fun _ => None) (mkResponse 400 [] "<html>")) = ReconcileFirst.
Proof. by vm_compute. Qed.
