(* ===== verification/TokenStore.v ===== *)
(** * TokenStore: tokens encrypted at rest
    (src/src/secrets/token_store.cpp, env_secret_provider.cpp)

    The sealed blob, the durable publish of a token file as the sequence of file
    operations the code makes, and the store over account folders. AES-256-GCM is
    OpenSSL's: [AesGcm] is what the store calls and [AesGcmLaws] its documented
    behaviour; every call of it may also fail. A folder keeps, beside what its
    names mean now, what a power cut may bring back. *)

From S2P Require Import Prelude Errors AccountDir.

(** ** Sealing *)

Class AesGcm := {
  gcm_seal : string -> string -> string -> string * string;
  gcm_open : string -> string -> string -> string -> option string;
}.

Definition kKeyBytes : nat := 32.
Definition kIvBytes : nat := 12.
Definition kTagBytes : nat := 16.

Class AesGcmLaws (G : AesGcm) : Prop := {
  seal_lengths key iv pt : String.length (gcm_seal key iv pt).1 = String.length pt
    /\ String.length (gcm_seal key iv pt).2 = kTagBytes;
  open_sealed key iv pt : gcm_open key iv (gcm_seal key iv pt).1 (gcm_seal key iv pt).2 = Some pt;
}.

(** The library call that fails this time. *)
Inductive CipherFault := CtxFault | InitFault | UpdateFault | FinalFault | TagFault.

Definition crypto_error (message : string) : Error := make_error Internal message "".

Section Cipher.
Context `{G : AesGcm}.

(** The update call is skipped on an empty text. *)
Definition aes_gcm_encrypt (iv : option string) (fault : option CipherFault) (key pt : string) : result string :=
  match iv with
  | None => Err (crypto_error "token store: secure IV generation failed")
  | Some iv =>
      match fault with
      | Some CtxFault => Err (crypto_error "token store: cipher context allocation failed")
      | Some InitFault => Err (crypto_error "token store: encrypt init failed")
      | Some FinalFault => Err (crypto_error "token store: encrypt finalize failed")
      | Some TagFault => Err (crypto_error "token store: GCM tag retrieval failed")
      | Some UpdateFault =>
          if String.eqb pt "" then Ok (iv +:+ (gcm_seal key iv pt).1 +:+ (gcm_seal key iv pt).2)
          else Err (crypto_error "token store: encrypt update failed")
      | None => Ok (iv +:+ (gcm_seal key iv pt).1 +:+ (gcm_seal key iv pt).2)
      end
  end.

Definition aes_gcm_decrypt (fault : option CipherFault) (key blob : string) : result string :=
  if (String.length blob <? kIvBytes + kTagBytes)%nat then
    Err (make_error Validation "token store: encrypted blob is too short to be valid" "")
  else
    let ct_len := (String.length blob - kIvBytes - kTagBytes)%nat in
    let iv := str_take kIvBytes blob in
    let ct := str (take ct_len (drop kIvBytes (chars blob))) in
    let tag := str (drop (kIvBytes + ct_len) (chars blob)) in
    let finish :=
      match gcm_open key iv ct tag with
      | Some pt => Ok pt
      | None => Err (crypto_error "token store: authentication failed (tampered data or wrong key)")
      end in
    match fault with
    | Some CtxFault => Err (crypto_error "token store: cipher context allocation failed")
    | Some InitFault => Err (crypto_error "token store: decrypt init failed")
    | Some UpdateFault =>
        if (0 <? ct_len)%nat then Err (crypto_error "token store: decrypt update failed") else finish
    | Some TagFault => Err (crypto_error "token store: GCM tag set failed")
    | Some FinalFault => Err (crypto_error "token store: authentication failed (tampered data or wrong key)")
    | None => finish
    end.
End Cipher.

(** ** A folder on a disk that may lose power

    A name leads to an inode; [older] are the meanings the names had since the
    folder was last synced, any of which a power cut may restore. An inode not
    synced since its last change may hold anything afterwards. A folder whose own
    creation was never synced ([settled] false) may vanish. *)
Record Inode := mkInode { content : string; synced : bool }.

Record Folder := mkFolder { inodes : list Inode; names : gmap string nat; older : list (gmap string nat); settled : bool }.

Definition read_name (F : Folder) (n : string) : option string :=
  match names F !! n with Some i => content <$> inodes F !! i | None => None end.

Definition set_inode (i : nat) (x : Inode) (F : Folder) : Folder :=
  mkFolder (<[i := x]> (inodes F)) (names F) (older F) (settled F).

Definition rename_names (d : gmap string nat) (F : Folder) : Folder :=
  mkFolder (inodes F) d (names F :: older F) (settled F).

(** What [n] may hold after a power cut. *)
Definition may_hold (F : Folder) (n : string) (o : option string) : Prop :=
  (settled F = false /\ o = None) \/
  exists d, d ∈ names F :: older F /\
    match d !! n with
    | None => o = None
    | Some i => exists x, inodes F !! i = Some x /\ if synced x then o = Some (content x) else is_Some o
    end.

(** ** File operations *)

Inductive FsOp :=
  | OpenTrunc (n : string)
  | WriteAll (blob : string)
  | SyncFile
  | CloseFile
  | RemoveName (n : string)
  | RestrictName (n : string)
  | Rename (from into : string)
  | SyncFolder.

(** What the system does with one operation: whether it succeeds, and how much of
    a failed write was kept. *)
Record Answer := mkAnswer { granted : bool; kept : nat }.

Definition overwrite (blob old : string) : string := blob +:+ str (drop (String.length blob) (chars old)).

(** One operation by a process whose open file is [fd]: its success, the file it
    has open afterwards, the folder. *)
Definition fs_step (op : FsOp) (a : Answer) (fd : option nat) (F : Folder) : bool * option nat * Folder :=
  match op with
  | OpenTrunc n =>
      if granted a then
        match names F !! n with
        | Some i => (true, Some i, set_inode i (mkInode "" false) F)
        | None =>
            let i := length (inodes F) in
            (true, Some i, mkFolder (inodes F ++ [mkInode "" false]) (<[n := i]> (names F)) (names F :: older F) (settled F))
        end
      else (false, None, F)
  | WriteAll blob =>
      match fd with
      | Some i =>
          match inodes F !! i with
          | Some x =>
              (granted a, fd,
               set_inode i (mkInode (overwrite (if granted a then blob else str_take (kept a) blob) (content x)) false) F)
          | None => (false, fd, F)
          end
      | None => (false, fd, F)
      end
  | SyncFile =>
      match fd with
      | Some i =>
          match inodes F !! i with
          | Some x => if granted a then (true, fd, set_inode i (mkInode (content x) true) F) else (false, fd, F)
          | None => (false, fd, F)
          end
      | None => (false, fd, F)
      end
  | CloseFile => (granted a, None, F)
  | RemoveName n =>
      if granted a && bool_decide (is_Some (names F !! n)) then (true, fd, rename_names (delete n (names F)) F) else (false, fd, F)
  | RestrictName n => (granted a && bool_decide (is_Some (names F !! n)), fd, F)
  | Rename from into =>
      match names F !! from with
      | Some i => if granted a then (true, fd, rename_names (<[into := i]> (delete from (names F))) F) else (false, fd, F)
      | None => (false, fd, F)
      end
  | SyncFolder =>
      if granted a then (true, fd, mkFolder (inodes F) (names F) [] (settled F)) else (false, fd, F)
  end.

(** A program over these operations, each step seeing whether the last succeeded. *)
Inductive FileProgram :=
  | Done (r : result unit)
  | Do (op : FsOp) (next : bool -> FileProgram).

Definition write_durably (tmp target blob : string) : FileProgram :=
  let abandon message := Do (RemoveName tmp) (fun _ => Done (Err (make_error Internal message ""))) in
  let publish (write_ok synced : bool) :=
    Do CloseFile (fun closed =>
      if negb write_ok || negb synced || negb closed then
        abandon "token store: failed to durably write the token file"
      else Do (RestrictName tmp) (fun restricted =>
        if negb restricted then abandon "token store: failed to restrict token file permissions"
        else Do (Rename tmp target) (fun renamed =>
          if negb renamed then abandon "token store: failed to publish token file"
          else Do SyncFolder (fun ok =>
            Done (if ok then Ok tt
                  else Err (make_error Internal "token store: failed to durably publish the token file" "")))))) in
  Do (OpenTrunc tmp) (fun opened =>
    if negb opened then Done (Err (make_error Internal "token store: failed to open temp token file" ""))
    else Do (WriteAll blob) (fun write_ok =>
      if write_ok then Do SyncFile (fun synced => publish true synced) else publish false false)).

(** Run a program alone, with the system's answers in turn: its result, the
    folders it passes through, the last one. *)
Fixpoint run (p : FileProgram) (answers : nat -> Answer) (fd : option nat) (F : Folder) : result unit * list Folder * Folder :=
  match p with
  | Done r => (r, [F], F)
  | Do op next =>
      let '(ok, fd, F') := fs_step op (answers O) fd F in
      let '(r, passed, last) := run (next ok) (fun k => answers (S k)) fd F' in
      (r, F :: passed, last)
  end.

(** Two processes over one folder: each step is of the first or the second. *)
Record Process := mkProcess { program : FileProgram; open_file : option nat }.

Definition proc_step (a : Answer) (p : Process) (F : Folder) : Process * Folder :=
  match program p with
  | Done _ => (p, F)
  | Do op next => let '(ok, fd, F) := fs_step op a (open_file p) F in (mkProcess (next ok) fd, F)
  end.

Fixpoint interleave (schedule : list bool) (p q : Process) (F : Folder) : Process * Process * Folder :=
  match schedule with
  | [] => (p, q, F)
  | first :: rest =>
      if first : bool then let '(p, F) := proc_step (mkAnswer true 0) p F in interleave rest p q F
      else let '(q, F) := proc_step (mkAnswer true 0) q F in interleave rest p q F
  end.

(** ** The store *)

Definition is_safe_component (component : string) : bool :=
  negb (String.eqb component "" || String.eqb component "." || String.eqb component "..") &&
  forallb (fun c => negb (Ascii.eqb c "/" || Ascii.eqb c "\" || Ascii.eqb c "000")) (chars component).

(** EnvSecretProvider::get *)
Definition env_secret (env : string -> option string) (key : string) : result string :=
  match env key with
  | Some value => Ok value
  | None => Err (make_error Validation ("secret not found for key '" +:+ key +:+ "'") "")
  end.

Section Store.
Context `{G : AesGcm}.
Context (key_source : string -> result string) (data_dir : string).

Definition resolve_key (account : string) : result string :=
  match key_source (account +:+ ".token_key") with
  | Err e => Err e
  | Ok key =>
      if (String.length key =? kKeyBytes)%nat then Ok key
      else Err (make_error Validation "token store: per-account encryption key must be 32 bytes (256-bit)" "")
  end.

(** The process's write counter and the folders by path. *)
Record TokenDisk := mkTokenDisk { counter : Z; folders : gmap string Folder }.

Definition account_dir (account : string) : string := path_join data_dir account.
Definition token_file (name : string) : string := name +:+ ".enc".
Definition temp_file (target : string) (n : Z) : string := target +:+ ".tmp-" +:+ pretty n.

Definition bad_component : Error :=
  make_error Validation "token store: account/name must be a single safe path component" "".

(** What the environment does during one save. *)
Record SaveEnv := mkSaveEnv {
  random_iv : option string;
  cipher_fault : option CipherFault;
  mkdir_ok : bool;
  chmod_ok : bool;
  answers : nat -> Answer;
}.

Definition empty_folder : Folder := mkFolder [] ∅ [] false.

Definition save (e : SaveEnv) (account name plaintext : string) (s : TokenDisk) : result unit * TokenDisk :=
  if negb (is_safe_component account) || negb (is_safe_component name) then (Err bad_component, s) else
  match resolve_key account with
  | Err err => (Err err, s)
  | Ok key =>
      match aes_gcm_encrypt (random_iv e) (cipher_fault e) key plaintext with
      | Err err => (Err err, s)
      | Ok blob =>
          let dir := account_dir account in
          if negb (mkdir_ok e) then
            (Err (make_error Internal "token store: failed to create account directory" ""), s)
          else
            let F := default empty_folder (folders s !! dir) in
            if negb (chmod_ok e) then
              (Err (make_error Internal "token store: failed to restrict account directory permissions" ""),
               mkTokenDisk (counter s) (<[dir := F]> (folders s)))
            else
              let n := counter s + 1 in
              let target := token_file name in
              let '(r, _, F) := run (write_durably (temp_file target n) target blob) (answers e) None F in
              (r, mkTokenDisk n (<[dir := F]> (folders s)))
      end
  end.

(** [read_ok]: the stream did not go bad while it was read. *)
Definition load (fault : option CipherFault) (read_ok : bool) (account name : string) (s : TokenDisk) : result string :=
  if negb (is_safe_component account) || negb (is_safe_component name) then Err bad_component else
  match folders s !! account_dir account ≫= (fun F => read_name F (token_file name)) with
  | None => Err (make_error Validation "token store: token file not found" "")
  | Some blob =>
      if negb read_ok then Err (make_error Internal "token store: failed to read token file" "") else
      match resolve_key account with
      | Err err => Err err
      | Ok key => aes_gcm_decrypt fault key blob
      end
  end.
End Store.

(** ** Programs over any answers *)

(** [inv] holds of every folder the program passes through and [post] of its
    result and last folder, whatever the system answers. *)
Fixpoint always (p : FileProgram) (fd : option nat) (F : Folder) (inv : Folder -> Prop) (post : result unit -> Folder -> Prop) : Prop :=
  match p with
  | Done r => inv F /\ post r F
  | Do op next => inv F /\ forall a, let '(ok, fd', F') := fs_step op a fd F in always (next ok) fd' F' inv post
  end.

Lemma always_run p : forall answers fd F inv post, always p fd F inv post ->
  let '(r, passed, last) := run p answers fd F in Forall inv passed /\ post r last.
Proof.
  induction p as [r|op next IH]; intros answers fd F inv post; cbn [always run].
  - intros [Hi Hp]. by repeat constructor.
  - intros [Hi Ha]. specialize (Ha (answers O)). destruct (fs_step op (answers O) fd F) as [[ok fd'] F'].
    specialize (IH ok (fun k => answers (S k)) fd' F' inv post Ha). destruct (run _ _ _ _) as [[r passed] last].
    destruct IH. split; [by constructor|done].
Qed.

(** ** Folders *)

(** Names lead to inodes that exist, and no two names of one moment to the same. *)
Definition wf_names (len : nat) (d : gmap string nat) : Prop :=
  forall n i, d !! n = Some i -> (i < len)%nat /\ forall m, d !! m = Some i -> m = n.

Definition wf_folder (F : Folder) : Prop := Forall (wf_names (length (inodes F))) (names F :: older F).

Lemma wf_names_mono a b d : (a <= b)%nat -> wf_names a d -> wf_names b d.
Proof. intros Hab H n i Hi. destruct (H n i Hi) as [? ?]. split; [lia|done]. Qed.

Lemma wf_names_delete len d n : wf_names len d -> wf_names len (delete n d).
Proof.
  intros H m i [Hm Hi]%lookup_delete_Some. destruct (H m i Hi) as [? Hu]. split; [done|].
  by intros k [_ Hk]%lookup_delete_Some; apply Hu.
Qed.

Lemma wf_names_insert len d n i :
  wf_names len d -> (i < len)%nat -> (forall m, d !! m = Some i -> m = n) -> wf_names len (<[n := i]> d).
Proof.
  intros H Hi Hu m j [[<- <-]|[Hm Hj]]%lookup_insert_Some.
  - split; [done|]. intros k [[<- _]|[Hk Hj]]%lookup_insert_Some; [done|]. by apply Hu.
  - destruct (H m j Hj) as [? Hv]. split; [done|]. intros k [[<- <-]|[Hk Hjk]]%lookup_insert_Some; [|by apply Hv].
    by apply Hu in Hj.
Qed.

Lemma wf_set_inode i x F : wf_folder F -> wf_folder (set_inode i x F).
Proof. unfold wf_folder, set_inode. cbn [inodes names older]. by rewrite length_insert. Qed.

(** Every file operation of any process keeps a folder well formed. *)
Lemma fs_step_wf op a fd F : wf_folder F -> wf_folder (fs_step op a fd F).2.
Proof.
  intros H. pose proof H as [Hn Ho]%Forall_cons. destruct op; cbn [fs_step].
  - destruct (granted a); [|done]. destruct (names F !! n) eqn:E; [by apply wf_set_inode|].
    unfold wf_folder. cbn [inodes names older snd]. rewrite length_app. cbn [length]. constructor.
    + apply wf_names_insert; [|lia|]. { eapply wf_names_mono; [|exact Hn]. lia. }
      intros m Hm. destruct (Hn m _ Hm). lia.
    + eapply Forall_impl; [exact H|]. intros d. apply wf_names_mono. lia.
  - destruct fd as [i|]; [|done]. destruct (inodes F !! i); [by apply wf_set_inode|done].
  - destruct fd as [i|]; [|done]. destruct (inodes F !! i); [|done]. destruct (granted a); [by apply wf_set_inode|done].
  - done.
  - destruct (_ && _); [|done]. constructor; [by apply wf_names_delete|done].
  - done.
  - destruct (names F !! from) as [i|] eqn:E; [|done]. destruct (granted a); [|done]. constructor; [|done].
    cbn [names rename_names]. destruct (Hn _ _ E) as [Hi Hu].
    apply wf_names_insert; [by apply wf_names_delete|done|]. intros m [Hm Hd]%lookup_delete_Some. by apply Hu in Hd.
  - destruct (granted a); [|done]. by constructor.
Qed.

(** The temporary name shares no inode with another name, now or after a cut. *)
Definition private (F : Folder) (tmp : string) : Prop :=
  forall j, names F !! tmp = Some j -> forall d n, d ∈ names F :: older F -> d !! n = Some j -> n = tmp.

Lemma private_fresh F tmp : names F !! tmp = None -> private F tmp.
Proof. intros E j H. congruence. Qed.

(** Also a name left by a process that died, once the folder came back. *)
Lemma private_recovered F tmp : wf_folder F -> older F = [] -> private F tmp.
Proof.
  intros [Hw _]%Forall_cons E j Hj d n. rewrite E, list_elem_of_singleton. intros -> Hn. by apply (Hw _ _ Hj).
Qed.

(** Only a rename onto a name can make it share an inode. *)
Definition renames_onto (op : FsOp) (n : string) : Prop := match op with Rename _ into => into = n | _ => False end.

Lemma fs_step_private op a fd F n :
  wf_folder F -> ~ renames_onto op n -> private F n -> private (fs_step op a fd F).2 n.
Proof.
  intros Hw Hop Hp. pose proof (proj1 (Forall_forall _ _) Hw) as Hd. pose proof Hw as [Hn _]%Forall_cons.
  destruct op as [m|blob| | |m|m|from into|]; cbn [fs_step].
  - destruct (granted a); [|done]. destruct (names F !! m) eqn:E; [done|]. intros j. cbn [names older snd].
    intros [[-> <-]|[Hm Hj]]%lookup_insert_Some d k [->|Hin]%elem_of_cons Hk.
    + apply lookup_insert_Some in Hk as [[<- _]|[_ Hk]]; [done|]. destruct (Hn _ _ Hk). lia.
    + destruct (Hd _ Hin _ _ Hk). lia.
    + apply lookup_insert_Some in Hk as [[_ <-]|[_ Hk]]; [destruct (Hn _ _ Hj); lia|]. eapply Hp; [done|left|done].
    + eapply Hp; done.
  - destruct fd as [i|]; [|done]. by destruct (inodes F !! i).
  - destruct fd as [i|]; [|done]. destruct (inodes F !! i); [|done]. by destruct (granted a).
  - done.
  - destruct (_ && _); [|done]. intros j. cbn [names older snd rename_names]. intros [_ Hj]%lookup_delete_Some d k [->|Hin]%elem_of_cons Hk; [|by eapply Hp].
    apply lookup_delete_Some in Hk as [_ Hk]. eapply Hp; [done|left|done].
  - done.
  - destruct (names F !! from) as [i|] eqn:E; [|done]. destruct (granted a); [|done]. intros j. cbn [names older snd rename_names].
    intros [[-> _]|[_ [Hf Hj]%lookup_delete_Some]]%lookup_insert_Some d k; [by destruct Hop|].
    intros [->|Hin]%elem_of_cons Hk; [|by eapply Hp].
    apply lookup_insert_Some in Hk as [[_ <-]|[_ [_ Hk]%lookup_delete_Some]]; [|eapply Hp; [done|left|done]].
    destruct (Hn _ _ E) as [_ Hu]. by apply Hu in Hj.
  - destruct (granted a); [|done]. intros j Hj d k Hin Hk. eapply Hp; [done| |done].
    cbn in Hin. apply list_elem_of_singleton in Hin as ->. left.
Qed.

Fixpoint never_onto (p : FileProgram) (n : string) : Prop :=
  match p with Done _ => True | Do op next => ~ renames_onto op n /\ forall ok, never_onto (next ok) n end.

Lemma run_private p n : forall answers fd F, wf_folder F -> never_onto p n -> private F n ->
  let '(_, passed, last) := run p answers fd F in Forall (fun G => private G n) passed /\ private last n.
Proof.
  induction p as [r|op next IH]; intros answers fd F Hw Ho Hp; cbn [run]; [by repeat constructor|].
  destruct Ho as [Hop Hnext]. pose proof (fs_step_private op (answers O) fd F n Hw Hop Hp) as Hp'.
  pose proof (fs_step_wf op (answers O) fd F Hw) as Hw'. destruct (fs_step _ _ _ _) as [[ok fd'] F'].
  specialize (IH ok (fun k => answers (S k)) fd' F' Hw' (Hnext ok) Hp'). destruct (run _ _ _ _) as [[r passed] last].
  destruct IH. split; [by constructor|done].
Qed.

Lemma write_never_onto tmp target blob n : n <> target -> never_onto (write_durably tmp target blob) n.
Proof.
  intros Hn. unfold write_durably. cbn.
  repeat first [exact I | (intros H; exact H) | congruence | (intros [|]; cbn) | split].
Qed.

Section Publish.
Context (F0 : Folder) (tmp target blob : string).
Context (Hwf : wf_folder F0) (Hpriv : private F0 tmp) (Hne : tmp <> target).

(** Until the rename only the temporary file, on inode [i], differs. *)
Record staged (i : nat) (F : Folder) : Prop := {
  st_dirs : forall d, d ∈ names F :: older F -> exists d0, d0 ∈ names F0 :: older F0 /\ forall n, n <> tmp -> d !! n = d0 !! n;
  st_live : forall n, n <> tmp -> names F !! n = names F0 !! n;
  st_inodes : forall j, (j < length (inodes F0))%nat -> j <> i -> inodes F !! j = inodes F0 !! j;
  st_apart : forall d n, d ∈ names F0 :: older F0 -> n <> tmp -> d !! n <> Some i;
  st_settled : settled F = settled F0;
}.

Lemma wf_range d n i : d ∈ names F0 :: older F0 -> d !! n = Some i -> (i < length (inodes F0))%nat.
Proof. intros Hd Hi. by destruct (proj1 (Forall_forall _ _) Hwf _ Hd n i Hi). Qed.

Lemma staged_holds i F n o : staged i F -> n <> tmp -> may_hold F n o -> may_hold F0 n o.
Proof.
  intros S Hn [[Hs ->]|(d & Hd & Ho)]; [left; by rewrite <- (st_settled i F S)|].
  destruct (st_dirs i F S d Hd) as (d0 & Hd0 & E). rewrite E in Ho by done. right. exists d0. split; [done|].
  destruct (d0 !! n) as [j|] eqn:Ej; [|done].
  by rewrite <- (st_inodes i F S) by (try (by eapply wf_range); intros ->; by apply (st_apart i F S d0 n Hd0 Hn)).
Qed.

Lemma staged_read i F n : staged i F -> n <> tmp -> read_name F n = read_name F0 n.
Proof.
  intros S Hn. unfold read_name. rewrite (st_live i F S) by done. destruct (names F0 !! n) as [j|] eqn:Ej; [|done].
  assert (names F0 ∈ names F0 :: older F0) by left.
  by rewrite (st_inodes i F S) by (try (by eapply wf_range); intros ->; by apply (st_apart i F S (names F0) n)).
Qed.

Lemma staged_set i x F : staged i F -> staged i (set_inode i x F).
Proof. intros [A B C D E]. split; try done. intros j Hj Hi. cbn [set_inode inodes]. rewrite list_lookup_insert_ne by done. by apply C. Qed.

Lemma staged_remove i F : staged i F -> staged i (rename_names (delete tmp (names F)) F).
Proof.
  intros [A B C D E]. split; try done; cbn [rename_names names older].
  - intros d [->|Hd]%elem_of_cons; [|by apply A]. destruct (A (names F)) as (d0 & Hd0 & H); [left|].
    exists d0. split; [done|]. intros n Hn. rewrite lookup_delete_ne by done. by apply H.
  - intros n Hn. rewrite lookup_delete_ne by done. by apply B.
Qed.

(** Opening the temporary file stages it, on an inode that exists. *)
Lemma open_staged a : granted a = true ->
  exists i F, fs_step (OpenTrunc tmp) a None F0 = (true, Some i, F) /\ staged i F /\ names F !! tmp = Some i
    /\ exists x, inodes F !! i = Some x /\ content x = "".
Proof.
  intros Ha. cbn [fs_step]. rewrite Ha. destruct (names F0 !! tmp) as [i|] eqn:E.
  - exists i, (set_inode i (mkInode "" false) F0). split; [done|]. split.
    { apply staged_set. split; try done; eauto. }
    split; [done|]. exists (mkInode "" false). split; [|done]. apply list_lookup_insert_eq. eapply wf_range; [left|done].
  - eexists (length (inodes F0)), _. split; [done|]. split.
    { split; cbn [names older inodes settled]; try done.
      - intros d [->|Hd]%elem_of_cons; [|by eauto]. exists (names F0). split; [left|]. intros n Hn. by rewrite lookup_insert_ne.
      - intros n Hn. by rewrite lookup_insert_ne.
      - intros j Hj _. by rewrite lookup_app_l.
      - intros d n Hd _ Hi. apply (wf_range _ _ _ Hd) in Hi. lia. }
    cbn [names inodes]. rewrite lookup_insert_eq. split; [done|]. exists (mkInode "" false). split; [|done].
    rewrite lookup_app_r, Nat.sub_diag by lia. done.
Qed.

(** What a folder on the way may hold after a power cut, and what the last one
    reads. *)
Definition kept_or_new (F : Folder) : Prop := forall n, n <> tmp ->
  (forall o, may_hold F n o -> may_hold F0 n o \/ (n = target /\ o = Some blob))
  /\ (read_name F n = read_name F0 n \/ (n = target /\ read_name F n = Some blob)).

Definition published (r : result unit) (F : Folder) : Prop :=
  (forall n, n <> tmp -> n <> target -> names F !! n = names F0 !! n /\ read_name F n = read_name F0 n) /\
  match r with
  | Ok _ => read_name F target = Some blob
      /\ forall o, may_hold F target o -> o = Some blob \/ (settled F0 = false /\ o = None)
  | Err _ => read_name F target = read_name F0 target \/ read_name F target = Some blob
  end.

Lemma staged_kept i F : staged i F -> kept_or_new F.
Proof. intros S n Hn. split; [|left; by eapply staged_read]. intros o H. left. by eapply staged_holds. Qed.

Lemma staged_failed i F e : staged i F -> published (Err e) F.
Proof. intros S. split; [intros; split; [by eapply st_live|by eapply staged_read]|]. left. by eapply staged_read. Qed.

(** Giving up removes the temporary file and keeps the token. *)
Lemma always_abandon i F fd message :
  staged i F -> always (Do (RemoveName tmp) (fun _ => Done (Err (make_error Internal message "")))) fd F kept_or_new published.
Proof.
  intros S. cbn [always]. split; [by eapply staged_kept|]. intros a. cbn [fs_step].
  destruct (_ && _); (split; [eapply staged_kept|eapply staged_failed]); eauto using staged_remove.
Qed.

Lemma renamed_inode i F x : staged i F -> inodes F !! i = Some x -> content x = blob -> synced x = true ->
  let F' := rename_names (<[target := i]> (delete tmp (names F))) F in
  kept_or_new F' /\ (forall n, n <> tmp -> n <> target -> names F' !! n = names F0 !! n /\ read_name F' n = read_name F0 n) /\ read_name F' target = Some blob
  /\ forall G, G = F' \/ G = mkFolder (inodes F') (names F') [] (settled F') -> kept_or_new G.
Proof.
  intros S Hx Hc Hs F'.
  assert (R : forall n, n <> tmp -> n <> target -> names F' !! n = names F0 !! n /\ read_name F' n = read_name F0 n).
  { intros n Hn Ht. rewrite <- (staged_read i F), <- (st_live i F S) by done. unfold read_name, F'. cbn [rename_names names inodes].
    by rewrite lookup_insert_ne, lookup_delete_ne. }
  assert (B : read_name F' target = Some blob).
  { unfold read_name, F'. cbn [rename_names names inodes]. rewrite lookup_insert_eq, Hx. cbn. by rewrite Hc. }
  assert (K : forall G, inodes G = inodes F -> names G = names F' -> settled G = settled F ->
    (forall d, d ∈ older G -> d ∈ names F :: older F) -> kept_or_new G).
  { intros G Ei En Es Ed n Hn. split.
    2:{ assert (read_name G n = read_name F' n) as -> by (unfold read_name; by rewrite Ei, En).
        destruct (decide (n = target)) as [->|Ht]; [by right|left; by apply R]. }
    intros o [[Hf ->]|(d & Hd & Ho)]; [left; left; by rewrite <- (st_settled i F S), <- Es|].
    rewrite Ei in Ho. apply elem_of_cons in Hd as [->|Hin].
    - rewrite En in Ho. unfold F' in Ho. cbn [rename_names names] in Ho. destruct (decide (n = target)) as [->|Ht].
      + rewrite lookup_insert_eq in Ho. destruct Ho as (y & Hy & Ho). rewrite Hx in Hy. injection Hy as <-.
        rewrite Hs, Hc in Ho. by right.
      + rewrite lookup_insert_ne, lookup_delete_ne in Ho by done. left. eapply staged_holds; [done..|].
        right. exists (names F). split; [left|done].
    - left. eapply staged_holds; [done..|]. right. exists d. split; [by apply Ed|done]. }
  split; [|split; [done|split; [done|]]].
  - by apply K.
  - intros G [-> | ->]; apply K; try done. intros d Hd. by apply elem_of_nil in Hd.
Qed.

(** The part after the write was synced. *)
Lemma always_rename i F x : staged i F -> names F !! tmp = Some i -> inodes F !! i = Some x ->
  content x = blob -> synced x = true ->
  always (Do (Rename tmp target) (fun renamed =>
    if negb renamed then Do (RemoveName tmp) (fun _ => Done (Err (make_error Internal "token store: failed to publish token file" "")))
    else Do SyncFolder (fun ok => Done (if ok then Ok tt
           else Err (make_error Internal "token store: failed to durably publish the token file" ""))))) None F kept_or_new published.
Proof.
  intros S Ht Hx Hc Hs. destruct (renamed_inode i F x S Hx Hc Hs) as (Hk & Hr & Hb & Hg).
  cbn [always fs_step]. split; [by eapply staged_kept|]. intros a. rewrite Ht.
  destruct (granted a); cbn [negb]; [|by eapply always_abandon].
  split; [done|]. intros b. cbn [fs_step]. destruct (granted b); cbn [always].
  - split; [apply Hg; by right|]. split; [exact Hr|]. split; [exact Hb|].
    intros o [[Hf ->]|(d & Hd & Ho)]; [right; by rewrite <- (st_settled i F S)|]. left.
    cbn [older names rename_names] in Hd. apply list_elem_of_singleton in Hd as ->. rewrite lookup_insert_eq in Ho.
    destruct Ho as (y & Hy & Ho). cbn in Hy. rewrite Hx in Hy. injection Hy as <-. by rewrite Hs, Hc in Ho.
  - split; [done|]. split; [done|]. by right.
Qed.

Lemma publish_always : always (write_durably tmp target blob) None F0 kept_or_new published.
Proof.
  assert (S0 : kept_or_new F0) by (intros n Hn; split; by left).
  unfold write_durably. cbn [always]. split; [done|]. intros a. destruct (granted a) eqn:Ha.
  2:{ cbn [fs_step]. rewrite Ha. split; [done|]. split; [done|by left]. }
  destruct (open_staged a Ha) as (i & F & E & S & Ht & x & Hx & Hc). rewrite E. cbn [negb always].
  split; [by eapply staged_kept|]. intros b. cbn [fs_step]. rewrite Hx, Hc.
  assert (Hl : (i < length (inodes F))%nat) by by eapply lookup_lt_Some.
  destruct (granted b) eqn:Hb.
  - assert (S1 : staged i (set_inode i (mkInode (overwrite blob "") false) F)) by by apply staged_set.
    split; [by eapply staged_kept|]. intros c. cbn [fs_step set_inode inodes]. rewrite list_lookup_insert_eq by done.
    destruct (granted c) eqn:Hgc; cbn [always fs_step].
    + assert (S2 := staged_set i (mkInode (overwrite blob "") true) _ S1). split; [by eapply staged_kept|].
      intros d. destruct (granted d); cbn [negb orb]; [|by eapply always_abandon].
      cbn [always fs_step]. split; [by eapply staged_kept|]. intros e. destruct (_ && _); cbn [negb]; [|by eapply always_abandon].
      eapply (always_rename i _ (mkInode (overwrite blob "") true)); [done|done| |by unfold overwrite; cbn [content chars]; rewrite drop_nil, str_app_nil_r|done].
      cbn [set_inode inodes content]. by rewrite list_insert_insert_eq, list_lookup_insert_eq.
    + split; [by eapply staged_kept|]. intros d. cbn [negb orb]. by eapply always_abandon.
  - cbn [always fs_step]. assert (S1 := staged_set i (mkInode (overwrite (str_take (kept b) blob) "") false) F S).
    split; [by eapply staged_kept|]. intros d. cbn [negb orb]. by eapply always_abandon.
Qed.
End Publish.

(** What a publish passes through, and where it ends. *)
Lemma publish_run F tmp target blob (answers : nat -> Answer) :
  wf_folder F -> private F tmp -> tmp <> target ->
  let '(r, passed, last) := run (write_durably tmp target blob) answers None F in
  Forall (kept_or_new F tmp target blob) passed /\ published F tmp target blob r last /\ wf_folder last.
Proof.
  intros Hw Hp Hn. pose proof (always_run _ answers _ _ _ _ (publish_always F tmp target blob Hw Hp Hn)) as H.
  assert (W : forall p ans fd G, wf_folder G -> wf_folder (run p ans fd G).2).
  { induction p as [|op next IH]; intros ans fd G HG; cbn [run]; [done|].
    pose proof (fs_step_wf op (ans O) fd G HG). destruct (fs_step _ _ _ _) as [[ok fd'] G'].
    specialize (IH ok (fun k => ans (S k)) fd' G'). destruct (run (next ok) _ _ _) as [[? ?] ?]. cbn [snd] in *. by apply IH. }
  specialize (W (write_durably tmp target blob) answers None F Hw). destruct (run _ _ _ _) as [[r passed] last].
  destruct H as [? ?]. by split_and!.
Qed.

(** C32: a publish is atomic. With a temporary name of its own, whatever the system
    answers to each operation, at every point every other name reads as before,
    except that the target may read as the whole new blob, and a power cut leaves
    each name as it could be before, except that the target may hold that blob;
    a success means the target reads as the blob now and after any cut, unless
    the folder itself was never made durable; a failure leaves the old token or
    the new one, never a part of one. *)
Theorem publish_atomic F tmp target blob (answers : nat -> Answer) :
  wf_folder F -> private F tmp -> tmp <> target ->
  let '(r, passed, last) := run (write_durably tmp target blob) answers None F in
  Forall (fun G => forall n, n <> tmp ->
    (read_name G n = read_name F n \/ (n = target /\ read_name G n = Some blob))
    /\ forall o, may_hold G n o -> may_hold F n o \/ (n = target /\ o = Some blob)) passed
  /\ (r = Ok tt -> read_name last target = Some blob
        /\ forall o, may_hold last target o -> o = Some blob \/ (settled F = false /\ o = None))
  /\ (read_name last target = read_name F target \/ read_name last target = Some blob).
Proof.
  intros Hw Hp Hn. pose proof (publish_run F tmp target blob answers Hw Hp Hn) as H.
  destruct (run _ _ _ _) as [[r passed] last]. destruct H as (Hf & [_ Hr] & _). split.
  - eapply Forall_impl; [exact Hf|]. intros G HG n Hnt. destruct (HG n Hnt). by split.
  - destruct r as [[]|]; [|done]. split; [done|]. right. by apply Hr.
Qed.

(** ** Paths *)

Lemma safe_component_shape c : is_safe_component c = true -> c <> "" /\ slash ∉ chars c.
Proof.
  unfold is_safe_component. rewrite andb_true_iff, negb_true_iff, !orb_false_iff, forallb_forall, !String.eqb_neq.
  intros [[[Hne _] _] Hall]. split; [done|]. intros Hs. apply list_elem_of_In, Hall in Hs. done.
Qed.

Lemma account_dir_inj data_dir a b : is_safe_component a = true -> is_safe_component b = true ->
  account_dir data_dir a = account_dir data_dir b -> a = b.
Proof.
  intros [Ha Hsa]%safe_component_shape [Hb Hsb]%safe_component_shape. unfold account_dir, path_join.
  destruct a as [|x a], b as [|y b]; try done. cbn [chars] in *.
  assert (forall z l, slash ∉ z :: l -> Ascii.eqb z slash = false) as N.
  { intros z l H. apply Ascii.eqb_neq. intros ->. apply H. left. }
  rewrite (N _ _ Hsa), (N _ _ Hsb). destruct (_ || _); intros H%str_app_inv_head; by simplify_eq.
Qed.

Lemma token_file_inj a b : token_file a = token_file b -> a = b.
Proof.
  unfold token_file. intros H. apply str_app_inv_len in H as [? _]; [done|].
  apply (f_equal String.length) in H. rewrite !str_length_app in H. lia.
Qed.

(** A temporary name is no token's name. *)
Lemma temp_file_not_token t n name : temp_file t n <> token_file name.
Proof.
  unfold temp_file, token_file. intros H. apply (f_equal chars) in H. rewrite !chars_app in H.
  assert (chars (pretty n) <> []) as Hne.
  { destruct (Z_lt_dec n 0); [by rewrite pretty_Z_neg|]. by apply pretty_Z_digits; lia. }
  apply (f_equal last) in H. apply exists_last in Hne as (l & c & E). rewrite E, !app_assoc, last_snoc in H.
  change (chars ".enc") with (chars ".en" ++ ["c"%char]) in H. rewrite app_assoc, last_snoc in H. injection H as ->.
  apply (not_in_pretty_Z "c" n); [done..|]. rewrite E. apply elem_of_app. right. by left.
Qed.

(** ** Round trip *)

Section Roundtrip.
Context `{G : AesGcm} `{!AesGcmLaws G}.

Lemma unsealed iv fault key pt blob :
  (forall v, iv = Some v -> String.length v = kIvBytes) -> aes_gcm_encrypt iv fault key pt = Ok blob ->
  aes_gcm_decrypt None key blob = Ok pt.
Proof.
  intros Hiv He. destruct iv as [iv|]; [|done]. specialize (Hiv iv eq_refl).
  assert (blob = iv +:+ (gcm_seal key iv pt).1 +:+ (gcm_seal key iv pt).2) as ->.
  { unfold aes_gcm_encrypt in He. destruct fault as [[]|]; try done; [destruct (String.eqb pt "")|]; by simplify_eq. }
  destruct (seal_lengths key iv pt) as [Hc Ht]. pose proof (open_sealed key iv pt) as Ho.
  destruct (gcm_seal key iv pt) as [ct tag]. cbn [fst snd] in *. unfold aes_gcm_decrypt.
  rewrite !str_length_app, Ht, Hiv. destruct (Nat.ltb_spec (kIvBytes + (String.length ct + kTagBytes)) (kIvBytes + kTagBytes)); [lia|].
  replace (kIvBytes + (String.length ct + kTagBytes) - kIvBytes - kTagBytes)%nat with (String.length ct) by lia.
  rewrite <- Hiv, str_take_app_length, !chars_app, <- !chars_length, drop_app_length, take_app_length, drop_app_add, drop_app_length.
  by rewrite !str_chars, Ho.
Qed.
End Roundtrip.

Section SaveLoad.
Context `{G : AesGcm} `{!AesGcmLaws G}.
Context (key_source : string -> result string) (data_dir : string).

Abbreviation load := (load key_source data_dir).
Abbreviation save := (save key_source data_dir).

Definition wf_disk (s : TokenDisk) : Prop := forall dir F, folders s !! dir = Some F -> wf_folder F.

(** The next temporary name of this process is used by nobody else. *)
Definition own_temp (account name : string) (s : TokenDisk) : Prop :=
  forall F, folders s !! account_dir data_dir account = Some F -> private F (temp_file (token_file name) (counter s + 1)).

Definition stored (account name : string) (s : TokenDisk) : option string :=
  folders s !! account_dir data_dir account ≫= (fun F => read_name F (token_file name)).

Lemma load_stored fault ok account name s s' :
  (is_safe_component account = true -> is_safe_component name = true -> stored account name s' = stored account name s) ->
  load fault ok account name s' = load fault ok account name s.
Proof.
  intros H. unfold TokenStore.load. destruct (is_safe_component account), (is_safe_component name); try done.
  fold (stored account name s') (stored account name s). by rewrite H.
Qed.

Lemma load_blob account name s key pt blob iv fault :
  is_safe_component account = true -> is_safe_component name = true ->
  resolve_key key_source account = Ok key -> (forall v, iv = Some v -> String.length v = kIvBytes) ->
  aes_gcm_encrypt iv fault key pt = Ok blob -> stored account name s = Some blob ->
  load None true account name s = Ok pt.
Proof.
  intros Ha Hn Hk Hiv He Hs. unfold TokenStore.load. rewrite Ha, Hn. cbn [negb orb].
  fold (stored account name s). rewrite Hs, Hk. cbn [negb]. by eapply unsealed.
Qed.

Lemma stored_insert account name dir F s n :
  stored account name (mkTokenDisk n (<[dir := F]> (folders s))) =
  if decide (dir = account_dir data_dir account) then read_name F (token_file name) else stored account name s.
Proof.
  unfold stored. cbn [folders]. destruct (decide (dir = account_dir data_dir account)) as [->|?];
    [by rewrite lookup_insert_eq|by rewrite lookup_insert_ne].
Qed.

Lemma stored_default account name s :
  stored account name s = read_name (default empty_folder (folders s !! account_dir data_dir account)) (token_file name).
Proof. unfold stored. by destruct (folders s !! _). Qed.

Lemma wf_default s dir : wf_disk s -> wf_folder (default empty_folder (folders s !! dir)).
Proof.
  intros H. destruct (folders s !! dir) eqn:E; cbn [default]; [by eapply H|].
  constructor; [|constructor]. intros n i Hi. cbn in Hi. by rewrite lookup_empty in Hi.
Qed.

Lemma wf_disk_insert s n dir F : wf_disk s -> wf_folder F -> wf_disk (mkTokenDisk n (<[dir := F]> (folders s))).
Proof. intros H HF d F' Hd. cbn in Hd. apply lookup_insert_Some in Hd as [[<- <-]|[_ Hd]]; [done|by eapply H]. Qed.

(** After a save that reports success, a load of the
    same account and name gives the text that was saved; after one that fails, it
    gives what it gave before, or already the new text; every other account and
    name, however they are spelled, loads exactly as before; and the folders stay
    well formed. *)
Theorem saved_token_loads e account name pt s :
  wf_disk s -> own_temp account name s -> (forall v, random_iv e = Some v -> String.length v = kIvBytes) ->
  let '(r, s') := save e account name pt s in
  wf_disk s'
  /\ (r = Ok tt -> load None true account name s' = Ok pt)
  /\ ((forall fault ok, load fault ok account name s' = load fault ok account name s) \/ load None true account name s' = Ok pt)
  /\ (forall fault ok account' name', (account', name') <> (account, name) ->
        load fault ok account' name' s' = load fault ok account' name' s).
Proof.
  intros Hw Hp Hiv. unfold TokenStore.save.
  destruct (is_safe_component account) eqn:Ha, (is_safe_component name) eqn:Hn; cbn [negb orb]; try by (split_and!; [done|done|by left|done]).
  destruct (resolve_key key_source account) as [key|] eqn:Hk; [|by (split_and!; [done|done|by left|done])].
  destruct (aes_gcm_encrypt _ _ key pt) as [blob|] eqn:He; [|by (split_and!; [done|done|by left|done])].
  destruct (mkdir_ok e); cbn [negb]; [|by (split_and!; [done|done|by left|done])].
  set (dir := account_dir data_dir account). set (F0 := default empty_folder (folders s !! dir)).
  assert (W0 : wf_folder F0) by by apply wf_default.
  destruct (chmod_ok e); cbn [negb].
  2:{ split; [by apply wf_disk_insert|]. split; [done|].
      assert (forall a n, stored a n (mkTokenDisk (counter s) (<[dir := F0]> (folders s))) = stored a n s) as E.
      { intros a n. rewrite stored_insert. destruct (decide _) as [Ed|]; [|done]. unfold F0. by rewrite Ed, stored_default. }
      split; [left|]; intros; apply load_stored; intros; apply E. }
  set (tmp := temp_file (token_file name) (counter s + 1)).
  assert (P : private F0 tmp).
  { unfold F0. destruct (folders s !! dir) eqn:E; [by apply Hp|]. by apply private_fresh. }
  assert (tmp <> token_file name) as Ht by apply temp_file_not_token.
  pose proof (publish_run F0 tmp (token_file name) blob (answers e) W0 P Ht) as H.
  destruct (run _ _ _ _) as [[r passed] F]. destruct H as (_ & [Ho Hr] & HF).
  assert (N : stored account name (mkTokenDisk (counter s + 1) (<[dir := F]> (folders s))) = read_name F (token_file name)).
  { rewrite stored_insert. by rewrite decide_True. }
  assert (B : read_name F (token_file name) = Some blob -> load None true account name (mkTokenDisk (counter s + 1) (<[dir := F]> (folders s))) = Ok pt).
  { intros E. eapply load_blob; try done. by rewrite N. }
  split; [by apply wf_disk_insert|]. split; [|split].
  - intros ->. by apply B, Hr.
  - destruct r as [|err]; [right; by apply B, Hr|]. destruct Hr as [Hr|Hr]; [left|right; by apply B].
    intros. apply load_stored. intros _ _. rewrite N, Hr. symmetry. apply stored_default.
  - intros fault ok a n Hne. apply load_stored. intros Hsa Hsn. rewrite stored_insert.
    destruct (decide _) as [Ed|]; [|done]. apply account_dir_inj in Ed as <-; [|done..].
    rewrite (proj2 (Ho (token_file n) (not_eq_sym (temp_file_not_token _ _ _)) ltac:(by intros ->%token_file_inj))).
    symmetry. apply stored_default.
Qed.
End SaveLoad.

(** ** A cipher to run on, and concrete disks *)

#[export] Instance plain_gcm : AesGcm := {|
  gcm_seal key iv pt := (pt, "0123456789abcdef");
  gcm_open key iv ct tag := if String.eqb tag "0123456789abcdef" then Some ct else None;
|}.

#[export] Instance plain_gcm_laws : AesGcmLaws plain_gcm.
Proof. split; intros; [done|]. reflexivity. Qed.

Definition sample_key (name : string) : result string :=
  if String.eqb name "acc.token_key" then Ok "0123456789abcdef0123456789abcdef" else env_secret (fun _ => None) name.

Definition quiet_env : SaveEnv := mkSaveEnv (Some "iv0123456789") None true true (fun _ => mkAnswer true 0).

Definition new_disk : TokenDisk := mkTokenDisk 0 ∅.

Lemma saved_token_loads_witness :
  load sample_key "/var/lib" None true "acc" "daily" (save sample_key "/var/lib" quiet_env "acc" "daily" "tok-1" new_disk).2 = Ok "tok-1".
Proof.
  pose proof (saved_token_loads sample_key "/var/lib" quiet_env "acc" "daily" "tok-1" new_disk) as H.
  assert (E : (save sample_key "/var/lib" quiet_env "acc" "daily" "tok-1" new_disk).1 = Ok tt) by reflexivity.
  destruct (save sample_key "/var/lib" quiet_env "acc" "daily" "tok-1" new_disk) as [r s'].
  apply H; [..|exact E].
  - intros dir F HF. cbn in HF. by rewrite lookup_empty in HF.
  - intros F HF. cbn in HF. by rewrite lookup_empty in HF.
  - intros v Hv. by injection Hv as <-.
Defined.

Definition old_token : Folder := mkFolder [mkInode "old" true] {["daily.enc" := 0%nat]} [] true.

Lemma old_token_wf : wf_folder old_token.
Proof.
  constructor; [|constructor]. intros n i Hi. cbn in Hi. apply lookup_singleton_Some in Hi as [<- <-]. cbn. split; [lia|].
  by intros m [<- _]%lookup_singleton_Some.
Qed.

Lemma publish_atomic_witness :
  (run (write_durably "daily.enc.tmp-1" "daily.enc" "new") (fun _ => mkAnswer true 0) None old_token).1.1 = Ok tt
  /\ ~ may_hold (run (write_durably "daily.enc.tmp-1" "daily.enc" "new") (fun _ => mkAnswer true 0) None old_token).2 "daily.enc" (Some "old").
Proof.
  pose proof (publish_atomic old_token "daily.enc.tmp-1" "daily.enc" "new" (fun _ => mkAnswer true 0)
    old_token_wf (private_fresh old_token "daily.enc.tmp-1" eq_refl) ltac:(discriminate)) as H.
  assert (E : (run (write_durably "daily.enc.tmp-1" "daily.enc" "new") (fun _ => mkAnswer true 0) None old_token).1.1 = Ok tt) by reflexivity.
  destruct (run _ _ _ _) as [[r passed] last]. cbn [fst snd] in *. subst r. destruct H as (_ & H & _).
  destruct (H eq_refl) as [_ Hc]. split; [done|]. intros Ho. destruct (Hc _ Ho) as [E|[Hs _]]; discriminate.
Defined.

(** The comment above [write_durably] names the temporary file by process and
    counter; the code uses the counter alone. Two processes saving the same token
    for the first time share the name: the second truncates the file the first
    has synced and is about to publish, the first reports success, and the token
    reads empty. *)
Example shared_temp_name_tears :
  let p blob := mkProcess (write_durably (temp_file "daily.enc" 1) "daily.enc" blob) None in
  let '(p1, _, F) := interleave [true; true; true; true; false; true; true; true] (p "first") (p "second") old_token in
  program p1 = Done (Ok tt) /\ read_name F "daily.enc" = Some "".
Proof. vm_compute. done. Qed.

(** The folder of a first save is not itself made durable: a power cut may take
    the token with it, after a save that reported success. *)
Example first_folder_may_vanish :
  let '(r, s) := save sample_key "/var/lib" quiet_env "acc" "daily" "tok-1" new_disk in
  r = Ok tt /\ exists F, folders s !! "/var/lib/acc" = Some F /\ may_hold F "daily.enc" None.
Proof. split; [reflexivity|]. eexists. split; [reflexivity|]. by left. Qed.

(** ** The store as its clients see it *)

(** What a session asks of a token store: after a save that reports success, the
    text loads, as long as the store is in a state it keeps itself. *)
Class TokenVault (S : Type) := {
  vault_save : string -> string -> string -> S -> result unit * S;
  vault_load : string -> string -> S -> result string;
}.

Class TokenVaultLaws {S : Type} (V : TokenVault S) := {
  vault_ok : S -> Prop;
  vault_saved account name v s : vault_ok s ->
    let '(r, s') := vault_save account name v s in
    vault_ok s' /\ (r = Ok tt -> vault_load account name s' = Ok v)
    /\ (vault_load account name s' = vault_load account name s \/ vault_load account name s' = Ok v);
}.

(** No temporary name leads to a file another name leads to. A file left under such
    a name by a process that died is allowed, also with the counter back at 0. *)
Definition private_temps (s : TokenDisk) : Prop :=
  forall dir F, folders s !! dir = Some F -> forall t m, private F (temp_file t m).

(** So it is on any well formed disk that came back after a cut, whatever was left. *)
Lemma recovered_private_temps s :
  wf_disk s -> (forall dir F, folders s !! dir = Some F -> older F = []) -> private_temps s.
Proof. intros Hw Ho dir F HF t m. apply private_recovered; [by eapply Hw|by eapply Ho]. Qed.

Section Vault.
Context `{G : AesGcm} `{!AesGcmLaws G}.
Context (key_source : string -> result string) (data_dir : string).

Lemma private_own account name s : private_temps s -> own_temp data_dir account name s.
Proof. intros H F HF. by eapply H. Qed.

(** A save leaves them so. *)
Lemma save_private e account name pt s :
  wf_disk s -> private_temps s -> private_temps (save key_source data_dir e account name pt s).2.
Proof.
  intros Hw Hp. unfold TokenStore.save.
  destruct (is_safe_component account), (is_safe_component name); try done. cbn [negb orb].
  destruct (resolve_key key_source account) as [key|]; [|done]. destruct (aes_gcm_encrypt _ _ key pt) as [blob|]; [|done].
  destruct (mkdir_ok e); [|done]. cbn [negb]. set (dir := account_dir data_dir account). set (F0 := default empty_folder (folders s !! dir)).
  assert (E0 : forall t m, private F0 (temp_file t m)).
  { unfold F0. destruct (folders s !! dir) eqn:E; [by eapply Hp|]. intros t m. by apply private_fresh. }
  assert (I : forall n F, (forall t m, private F (temp_file t m)) -> private_temps (mkTokenDisk n (<[dir := F]> (folders s)))).
  { intros n F HF d F'. cbn. intros [[<- <-]|[_ Hd]]%lookup_insert_Some t m; [by apply HF|by eapply Hp]. }
  destruct (chmod_ok e); cbn [negb]; [|by apply I].
  set (p := write_durably _ _ _).
  assert (R : forall t m, private (run p (answers e) None F0).2 (temp_file t m)).
  { intros t m. pose proof (run_private p (temp_file t m) (answers e) None F0 (wf_default _ _ Hw)
      (write_never_onto _ _ _ _ (temp_file_not_token _ _ _)) (E0 t m)) as R. destruct (run _ _ _ _) as [[? ?] ?]. apply R. }
  destruct (run _ _ _ _) as [[r passed] F]. by apply I.
Qed.

(** The store with what the environment will do during its next saves. *)
#[export] Instance token_vault : TokenVault (TokenDisk * list SaveEnv) := {|
  vault_save account name v s :=
    match s.2 with
    | e :: rest => let '(r, d) := save key_source data_dir e account name v s.1 in (r, (d, rest))
    | [] => (Err (crypto_error "token store: secure IV generation failed"), s)
    end;
  vault_load account name s := load key_source data_dir None true account name s.1;
|}.

#[export] Program Instance token_vault_laws : TokenVaultLaws token_vault := {|
  vault_ok s := wf_disk s.1 /\ private_temps s.1
    /\ Forall (fun e => forall v, random_iv e = Some v -> String.length v = kIvBytes) s.2;
|}.
Next Obligation.
  intros account name v [s envs] (Hw & Hf & Hiv). cbn [vault_save vault_load token_vault fst snd] in *.
  destruct envs as [|e envs]; [split_and!; by auto|]. apply Forall_cons in Hiv as [He Hiv].
  pose proof (saved_token_loads key_source data_dir e account name v s Hw (private_own _ _ _ Hf) He) as H.
  pose proof (save_private e account name v s Hw Hf) as Hf'.
  destruct (save _ _ _ _ _ _ _) as [r d]. cbn [fst snd] in *. destruct H as (Hw' & Hr & Ho & _).
  split; [done|]. split; [done|]. destruct Ho as [Ho|Ho]; [left; apply Ho|by right].
Qed.
End Vault.

(** ** Sequences of saves *)

Record SaveCall := mkSaveCall { call_env : SaveEnv; call_account : string; call_name : string; call_text : string }.

Section Sequences.
Context `{G : AesGcm} `{!AesGcmLaws G}.
Context (key_source : string -> result string) (data_dir : string).

Definition do_save (c : SaveCall) (s : TokenDisk) : result unit * TokenDisk :=
  save key_source data_dir (call_env c) (call_account c) (call_name c) (call_text c) s.

Definition good_iv (c : SaveCall) : Prop := forall v, random_iv (call_env c) = Some v -> String.length v = kIvBytes.

(** C33: tokens round-trip and do not disturb each other. On a well formed disk
    where no temporary name leads to a file another name leads to - which holds of
    every well formed disk that came back from a power cut, whatever temporary
    files were left on it and although the counter restarts
    ([recovered_private_temps]), and which saves keep - with cipher nonces of their length, a token whose save reported
    success loads as the text that was saved, after any number of further saves of
    other tokens, of any account and name, whatever fails during them; a save of it
    that fails leaves it loading as before, or already as the new text. *)
Theorem tokens_roundtrip c later s :
  wf_disk s -> private_temps s -> Forall good_iv (c :: later) ->
  Forall (fun c' => (call_account c, call_name c) <> (call_account c', call_name c')) later ->
  let '(r, s1) := do_save c s in
  let s2 := foldl (fun s c' => (do_save c' s).2) s1 later in
  let loaded := load key_source data_dir None true (call_account c) (call_name c) in
  wf_disk s2 /\ private_temps s2
  /\ (r = Ok tt -> loaded s2 = Ok (call_text c))
  /\ (loaded s2 = loaded s \/ loaded s2 = Ok (call_text c)).
Proof.
  intros Hw Hf Hiv Hne. apply Forall_cons in Hiv as [Hi Hiv].
  pose proof (saved_token_loads key_source data_dir (call_env c) (call_account c) (call_name c) (call_text c) s Hw
    (private_own data_dir _ _ s Hf) Hi) as H.
  pose proof (save_private key_source data_dir (call_env c) (call_account c) (call_name c) (call_text c) s Hw Hf) as Hf1.
  unfold do_save at 1. destruct (save _ _ _ _ _ _ s) as [r s1]. cbn [snd] in Hf1. destruct H as (Hw1 & Hr & Ho & _).
  assert (K : let s2 := foldl (fun s c' => (do_save c' s).2) s1 later in wf_disk s2 /\ private_temps s2 /\
    load key_source data_dir None true (call_account c) (call_name c) s2 =
    load key_source data_dir None true (call_account c) (call_name c) s1).
  { clear Hr Ho. induction later as [|c' later IH] using rev_ind; [done|]. apply Forall_app in Hiv as [Hiv [Hi' _]%Forall_cons].
    apply Forall_app in Hne as [Hne [Hn' _]%Forall_cons]. destruct (IH Hiv Hne) as (Hw2 & Hf2 & <-). rewrite foldl_app. cbn [foldl].
    set (s2 := foldl _ s1 later) in *. unfold do_save.
    pose proof (saved_token_loads key_source data_dir (call_env c') (call_account c') (call_name c') (call_text c') s2 Hw2
      (private_own data_dir _ _ s2 Hf2) Hi') as H.
    pose proof (save_private key_source data_dir (call_env c') (call_account c') (call_name c') (call_text c') s2 Hw2 Hf2).
    destruct (save _ _ _ _ _ _ s2) as [r' s3]. destruct H as (? & _ & _ & Hl). split; [done|]. split; [done|]. by apply Hl. }
  destruct K as (Hw2 & Hf2 & E). rewrite E. split; [done|]. split; [done|]. split; [done|].
  destruct Ho as [Ho|Ho]; [left; apply Ho|by right].
Qed.
End Sequences.

(** The disk of a process that died while saving: its temporary file, torn and
    never synced, under the very name the next process's first save uses. *)
Definition leftover_disk : TokenDisk :=
  mkTokenDisk 0 {["/var/lib/acc" := mkFolder [mkInode "old" true; mkInode "torn" false]
    {["daily.enc" := 0%nat; "daily.enc.tmp-1" := 1%nat]} [] true]}.

Lemma leftover_wf : wf_disk leftover_disk.
Proof.
  intros dir F HF. cbn in HF. apply lookup_singleton_Some in HF as [<- <-]. constructor; [|constructor]. cbn [names inodes length].
  assert (K : forall n i, ({["daily.enc" := 0%nat; "daily.enc.tmp-1" := 1%nat]} : gmap string nat) !! n = Some i ->
    (n = "daily.enc" /\ i = 0%nat) \/ (n = "daily.enc.tmp-1" /\ i = 1%nat)).
  { intros n i [[<- <-]|[_ [<- <-]%lookup_singleton_Some]]%lookup_insert_Some; auto. }
  intros n i [[-> ->]|[-> ->]]%K; (split; [lia|]); intros m [[-> ?]|[-> ?]]%K; done.
Qed.

Lemma tokens_roundtrip_witness :
  load sample_key "/var/lib" None true "acc" "daily"
    (do_save sample_key "/var/lib" (mkSaveCall quiet_env "acc" "refresh" "tok-2")
      (do_save sample_key "/var/lib" (mkSaveCall quiet_env "acc" "daily" "tok-1") leftover_disk).2).2 = Ok "tok-1".
Proof.
  assert (I : forall a n t, good_iv (mkSaveCall quiet_env a n t)) by (intros a n t v Hv; by injection Hv as <-).
  pose proof (tokens_roundtrip sample_key "/var/lib" (mkSaveCall quiet_env "acc" "daily" "tok-1")
    [mkSaveCall quiet_env "acc" "refresh" "tok-2"] leftover_disk) as H.
  assert (E : (do_save sample_key "/var/lib" (mkSaveCall quiet_env "acc" "daily" "tok-1") leftover_disk).1 = Ok tt) by (vm_compute; reflexivity).
  destruct (do_save sample_key "/var/lib" (mkSaveCall quiet_env "acc" "daily" "tok-1") leftover_disk) as [r s1].
  apply H; [..|exact E].
  - exact leftover_wf.
  - apply recovered_private_temps; [exact leftover_wf|]. intros dir F HF. cbn in HF. by apply lookup_singleton_Some in HF as [<- <-].
  - by repeat constructor.
  - by repeat constructor.
Defined.
