(* ===== verification/KiteSession.v ===== *)
(** * KiteSession: the daily Kite login
    (src/src/session/kite_session_establisher.cpp)

    Exchanging the operator's request token for the daily access token, which goes
    to the token store, and the probe of the stored token. The token store is the
    interface [TokenVault]; the transport, the secret provider, JSON parsing and
    the digest are seams. *)

From S2P Require Import Prelude Errors RejectReason WireJson KiteRest Ledger TokenStore.

Definition kSessionTokenPath : string := "/session/token".
Definition kValidatePath : string := "/user/margins/equity".

Record Envelope := mkKiteEnvelope { env_status : string; env_error_type : string }.

Definition text_field (fields : list (string * json)) (key : string) : string :=
  match field_get fields key with Some (JString s) => s | _ => "" end.

Definition is_success_2xx (r : HttpResponse) (e : Envelope) : bool :=
  (200 <=? status_code r) && (status_code r <? 300) && negb (String.eqb (env_status e) "error").

Definition is_token_failure (r : HttpResponse) (e : Envelope) : bool :=
  (status_code r =? 401) || (status_code r =? 403) || String.eqb (env_error_type e) "TokenException" ||
  String.eqb (env_error_type e) "PermissionException".

(** The token store and the requests sent so far. *)
Record KiteSessionEstablisher (St : Type) := mkSession { store : St; requests : list HttpRequest }.
Arguments mkSession {St} _ _.
Arguments store {St} _.
Arguments requests {St} _.

Section Session.
  Context (parse : string -> option json) `{O : OpenSsl}.
  Context (http : list HttpRequest -> HttpRequest -> result HttpResponse) (secret : string -> result string).
  Context {St : Type} `{V : TokenVault St}.
  Context (account_id api_key_secret_name api_secret_secret_name access_token_store_name : string).

Definition parse_envelope (body : string) : Envelope :=
  match parse body with
  | Some (JObject fields) => mkKiteEnvelope (text_field fields "status") (text_field fields "error_type")
  | _ => mkKiteEnvelope "" ""
  end.

Definition send (req : HttpRequest) (s : KiteSessionEstablisher St) : result HttpResponse * KiteSessionEstablisher St :=
  (http (requests s) req, mkSession (store s) (requests s ++ [req])).

(** The three texts are digested one after the other; nothing when OpenSSL fails. *)
Definition session_sha256_hex (digest_ok : bool) (a b c : string) : string :=
  if digest_ok then digest_hex (a +:+ b +:+ c) else "".

Definition exchange_body (api_key request_token checksum : string) : string :=
  "api_key=" +:+ url_encode api_key +:+ "&request_token=" +:+ url_encode request_token +:+ "&checksum=" +:+ url_encode checksum.

Definition exchange_request (api_key request_token checksum : string) : HttpRequest :=
  mkRequest Post kSessionTokenPath [] [("X-Kite-Version", "3"); ("Content-Type", "application/x-www-form-urlencoded")]
    (exchange_body api_key request_token checksum).

(** [data.access_token] of a success envelope. *)
Definition access_token_of (body : string) : string :=
  match parse body with
  | Some (JObject fields) => match field_get fields "data" with Some (JObject data) => text_field data "access_token" | _ => "" end
  | _ => ""
  end.

Definition establish (digest_ok : bool) (request_token : string) (s : KiteSessionEstablisher St) :
    result SessionState * KiteSessionEstablisher St :=
  match secret api_key_secret_name with
  | Err e => (Err e, s)
  | Ok api_key =>
  match secret api_secret_secret_name with
  | Err e => (Err e, s)
  | Ok api_secret =>
      let checksum := session_sha256_hex digest_ok api_key request_token api_secret in
      if String.eqb checksum "" then (Err (make_error Internal "kite: session checksum computation failed" ""), s) else
      match send (exchange_request api_key request_token checksum) s with
      | (Err e, s) => (Err e, s)
      | (Ok r, s) =>
          if negb (is_success_2xx r (parse_envelope (resp_body r))) then (Err (map_http_error parse r), s) else
          let access_token := access_token_of (resp_body r) in
          if String.eqb access_token "" then
            (Err (make_error CatUnknown "kite: session response missing access_token" ("HTTP " +:+ pretty (status_code r))), s)
          else
            let '(saved, st) := vault_save account_id access_token_store_name access_token (store s) in
            (match saved with Err e => Err e | Ok _ => Ok Healthy end, mkSession st (requests s))
      end
  end end.

Definition probe_request (api_key access_token : string) : HttpRequest :=
  mkRequest Get kValidatePath [] [("Authorization", "token " +:+ api_key +:+ ":" +:+ access_token); ("X-Kite-Version", "3")] "".

Definition validate (s : KiteSessionEstablisher St) : result SessionState * KiteSessionEstablisher St :=
  match secret api_key_secret_name with
  | Err e => (Err e, s)
  | Ok api_key =>
  match vault_load account_id access_token_store_name (store s) with
  | Err e => (Err e, s)
  | Ok access_token =>
      match send (probe_request api_key access_token) s with
      | (Err e, s) => (Err e, s)
      | (Ok r, s) =>
          let env := parse_envelope (resp_body r) in
          (if is_token_failure r env then Ok NeedsReauth
           else if is_success_2xx r env then Ok Healthy
           else Err (map_http_error parse r), s)
      end
  end end.
End Session.

Definition needs_reauth_error : Error :=
  mkError SessionExpired ReEstablishSession "kite: daily session expired; operator must re-establish (no headless refresh)" "".

(** ** Properties *)

Section Properties.
  Context (parse : string -> option json) `{O : OpenSsl}.
  Context (http : list HttpRequest -> HttpRequest -> result HttpResponse) (secret : string -> result string).
  Context {St : Type} `{V : TokenVault St} `{L : !TokenVaultLaws V}.
  Context (account key_name secret_name token_name : string).

Abbreviation login := (establish parse http secret account key_name secret_name token_name).
Abbreviation probe := (validate parse http secret account key_name token_name).

(** The exchange was answered with this token. *)
Definition exchanged (digest_ok : bool) (request_token : string) (s : KiteSessionEstablisher St) (key tok : string) : Prop :=
  exists api_secret r, secret key_name = Ok key /\ secret secret_name = Ok api_secret
    /\ digest_ok = true /\ digest_hex (key +:+ request_token +:+ api_secret) <> ""
    /\ http (requests s) (exchange_request key request_token (digest_hex (key +:+ request_token +:+ api_secret))) = Ok r
    /\ is_success_2xx r (parse_envelope parse (resp_body r)) = true
    /\ access_token_of parse (resp_body r) = tok /\ tok <> "".

(** The one request of an exchange: the API secret only digested. *)
Definition exchange_sent (request_token : string) (s s' : KiteSessionEstablisher St) : Prop :=
  exists key api_secret, secret key_name = Ok key /\ secret secret_name = Ok api_secret /\
    requests s' = requests s ++ [exchange_request key request_token (digest_hex (key +:+ request_token +:+ api_secret))].

(** What establishing leads to. *)
Inductive established (digest_ok : bool) (request_token : string) (s : KiteSessionEstablisher St) :
    result SessionState -> KiteSessionEstablisher St -> Prop :=
  | est_not_sent e :
      (secret key_name = Err e \/ secret secret_name = Err e \/ category e = Internal) -> established digest_ok request_token s (Err e) s
  | est_refused e s' :
      exchange_sent request_token s s' -> store s' = store s -> (forall key tok, ~ exchanged digest_ok request_token s key tok) ->
      established digest_ok request_token s (Err e) s'
  | est_saved key tok r st s' :
      exchange_sent request_token s s' -> exchanged digest_ok request_token s key tok ->
      vault_save account token_name tok (store s) = (r, st) -> store s' = st ->
      established digest_ok request_token s (match r with Ok _ => Ok Healthy | Err e => Err e end) s'.

(** the daily login. Nothing is sent without both secrets and a checksum;
    otherwise exactly one request is, the unauthenticated exchange, in which the
    API secret occurs only through its digest; the answer is Healthy exactly when
    the broker exchanged the token for another and the store kept that one; in
    every other case it is an error, and the store is untouched unless the save
    itself failed. *)
Theorem establish_exact digest_ok request_token s :
  let '(r, s') := login digest_ok request_token s in established digest_ok request_token s r s'.
Proof.
  unfold establish. destruct (secret key_name) as [key|] eqn:Ek; [|by apply est_not_sent; auto].
  destruct (secret secret_name) as [sec|] eqn:Es; [|by apply est_not_sent; auto].
  unfold session_sha256_hex. destruct digest_ok.
  2:{ change (String.eqb "" "") with true. cbn iota. apply est_not_sent. by right; right. }
  destruct (String.eqb_spec (digest_hex (key +:+ request_token +:+ sec)) "") as [|Hd]; [by apply est_not_sent; right; right|].
  set (req := exchange_request _ _ _). unfold send.
  assert (X : forall st, exchange_sent request_token s (mkSession st (requests s ++ [req]))) by (intros; by exists key, sec).
  destruct (http (requests s) req) as [r|e] eqn:Eh.
  2:{ apply est_refused; [apply X|done|]. intros k t (? & ? & Hk & Hs & _ & _ & Hh & _). unfold req in Eh. congruence. }
  assert (N : forall k t, exchanged true request_token s k t ->
    is_success_2xx r (parse_envelope parse (resp_body r)) = true /\ access_token_of parse (resp_body r) = t /\ t <> "").
  { intros k t (? & r' & Hk & Hs & _ & _ & Hh & ? & ? & ?). unfold req in Eh.
    assert (r' = r) as -> by congruence. done. }
  destruct (is_success_2xx r _) eqn:E2; cbn [negb].
  2:{ apply est_refused; [apply X|done|]. intros k t H. by destruct (N k t H). }
  destruct (String.eqb_spec (access_token_of parse (resp_body r)) "") as [Ea|Ea].
  { apply est_refused; [apply X|done|]. intros k t H. destruct (N k t H) as (_ & <- & ?). done. }
  cbn [store requests].
  destruct (vault_save account token_name (access_token_of parse (resp_body r)) (store s)) as [saved st] eqn:Ev.
  eapply (est_saved _ _ _ key); [apply X| |exact Ev|done]. exists sec, r. split_and!; try done.
Qed.

(** The mapper reads the same error type as the probe. *)
Lemma envelope_error_type r : env_error_type (parse_envelope parse (resp_body r)) = envelope_text parse r "error_type".
Proof. unfold parse_envelope, envelope_text. by destruct (parse (resp_body r)) as [[]|]. Qed.

(** What the probe answers. *)
Definition probed (s : KiteSessionEstablisher St) (key tok : string) (v : result SessionState) : Prop :=
  match http (requests s) (probe_request key tok) with
  | Err e => v = Err e
  | Ok r =>
      let env := parse_envelope parse (resp_body r) in
      (is_token_failure r env = true /\ v = Ok NeedsReauth)
      \/ (is_token_failure r env = false /\ is_success_2xx r env = true /\ v = Ok Healthy)
      \/ (is_token_failure r env = false /\ is_success_2xx r env = false /\ exists e, v = Err e /\
          (action e = ReEstablishSession -> env_error_type env = "TwoFAException"))
  end.

Lemma probe_exact s key tok :
  secret key_name = Ok key -> vault_load account token_name (store s) = Ok tok ->
  let '(v, s') := probe s in probed s key tok v /\ store s' = store s /\ requests s' = requests s ++ [probe_request key tok].
Proof.
  intros Hk Ht. unfold validate, probed, send. rewrite Hk, Ht.
  destruct (http (requests s) (probe_request key tok)) as [r|e]; [|done]. split; [|done]. cbv zeta.
  destruct (is_token_failure r _) eqn:Ef; [by left|]. destruct (is_success_2xx r _); [right; by left|]. right. right.
  split; [done|]. split; [done|]. eexists. split; [done|]. intros Ha. apply reestablish_verdict in Ha.
  rewrite envelope_error_type. unfold session_verdict in Ha. unfold is_token_failure in Ef. rewrite envelope_error_type in Ef.
  rewrite !orb_false_iff, !Z.eqb_neq, !String.eqb_neq in Ef. rewrite !elem_of_cons, elem_of_nil in Ha. tauto.
Qed.

(** The login and the probe agree, whatever store is behind them: after
    a login that answered Healthy, the probe sends the very token the broker
    issued; it answers NeedsReauth exactly on a refused session, Healthy on a
    success, and otherwise an error, which asks for a new session only on a two
    factor refusal; it changes nothing. *)
Theorem login_then_probe digest_ok request_token s :
  vault_ok (store s) ->
  let '(r, s') := login digest_ok request_token s in
  vault_ok (store s') /\ (forall st, r = Ok st -> st = Healthy /\ exists key tok,
    exchanged digest_ok request_token s key tok /\
    let '(v, s2) := probe s' in
    probed s' key tok v /\ store s2 = store s' /\ requests s2 = requests s' ++ [probe_request key tok]).
Proof.
  intros Hok. pose proof (establish_exact digest_ok request_token s) as H. destruct (login _ _ _) as [r s'].
  destruct H as [e _|e s' _ Est _|key tok r st s' _ Hx Hv Hst].
  - split; [done|by intros].
  - split; [by rewrite Est|by intros].
  - pose proof (vault_saved account token_name tok (store s) Hok) as Hs. rewrite Hv in Hs. destruct Hs as (Hok' & Hl & _).
    rewrite Hst. split; [done|]. intros st' Hr. destruct r as [[]|]; [|done]. injection Hr as <-. split; [done|].
    exists key, tok. split; [done|]. rewrite <- Hst. apply probe_exact; [by destruct Hx as (? & ? & ? & _)|].
    rewrite Hst. by apply Hl.
Qed.
End Properties.

(** ** A login on the token store *)

Definition sample_secret (name : string) : result string :=
  if String.eqb name "kite_key" then Ok "key7" else if String.eqb name "kite_secret" then Ok "s3cret" else sample_key name.

Definition sample_session_parse (body : string) : option json :=
  if String.eqb body "{token}" then
    Some (JObject [("data", JObject [("access_token", JString "tok-9")]); ("status", JString "success")])
  else None.

(** The exchange is answered, later requests find the session dead. *)
Definition sample_session_http (sent : list HttpRequest) (req : HttpRequest) : result HttpResponse :=
  match method req with
  | Post => Ok (mkResponse 200 [] "{token}")
  | _ => Ok (mkResponse 403 [] "")
  end.

Definition sample_start : KiteSessionEstablisher (TokenDisk * list SaveEnv) := mkSession (new_disk, [quiet_env]) [].

#[local] Instance sample_ssl : OpenSsl := {|
  digest_hex x := "d" +:+ pretty (Z.of_nat (String.length x));
  ed25519_public sk := sk;
  ed25519_sign sk m := sk;
  ed25519_verify pk signature m := false;
|}.

#[local] Instance sample_vault : TokenVault (TokenDisk * list SaveEnv) := token_vault sample_secret "/data".

Definition sample_login : result SessionState * KiteSessionEstablisher (TokenDisk * list SaveEnv) :=
  establish sample_session_parse sample_session_http sample_secret "acc" "kite_key" "kite_secret" "daily" true "req1" sample_start.

Lemma login_then_probe_witness :
  sample_login.1 = Ok Healthy
  /\ (validate sample_session_parse sample_session_http sample_secret "acc" "kite_key" "daily" sample_login.2).1 = Ok NeedsReauth
  /\ exists tok, probed sample_session_parse sample_session_http sample_login.2 "key7" tok
       (validate sample_session_parse sample_session_http sample_secret "acc" "kite_key" "daily" sample_login.2).1.
Proof.
  assert (E : sample_login.1 = Ok Healthy) by reflexivity. split; [exact E|]. split; [reflexivity|].
  assert (Hok : vault_ok (TokenVaultLaws := token_vault_laws sample_secret "/data") (store sample_start)).
  { split; [|split]; cbn [fst snd].
    - intros dir F HF. cbn in HF. by rewrite lookup_empty in HF.
    - intros dir F HF. cbn in HF. by rewrite lookup_empty in HF.
    - constructor; [|constructor]. intros v Hv. by injection Hv as <-. }
  pose proof (login_then_probe sample_session_parse sample_session_http sample_secret "acc" "kite_key" "kite_secret" "daily"
    (V := sample_vault) (L := token_vault_laws sample_secret "/data") true "req1" sample_start Hok) as H.
  fold sample_login in H. revert E H. generalize sample_login. intros [r s'] E H. cbn [fst snd] in *.
  destruct H as [_ H]. destruct (H Healthy E) as (_ & key & tok & Hx & Hp). exists tok.
  assert (key = "key7") as -> by (destruct Hx as (? & ? & Hk & _); vm_compute in Hk; congruence).
  destruct (validate _ _ _ _ _ _ s') as [v s2]. by destruct Hp.
Defined.
