(* ===== verification/KotakSession.v ===== *)
(** * KotakSession: the three-leg Kotak login and its bundle
    (src/src/adapters/kotak/kotak_session.cpp)

    The bundle and its stored form, the three legs, establishing and the probe.
    The transport, the secret provider, parsing a body and dumping a value are
    seams; the token store is the interface [TokenVault]. *)

From S2P Require Import Prelude Errors RejectReason WireJson KiteRest KotakErrors Ledger TokenStore KiteSession.

(** ** Base64 *)

Definition kAlphabet : list ascii := chars "ABCDEFGHIJKLMNOPQRSTUVWXYZabcdefghijklmnopqrstuvwxyz0123456789+/".

(** The six bits of the triple from [shift] on. *)
Definition sextet (triple shift : Z) : ascii :=
  default "A"%char (kAlphabet !! Z.to_nat (Z.land (Z.shiftr triple shift) 63)).

Definition octet (c : ascii) : Z := Z.of_nat (nat_of_ascii c).

Fixpoint base64_chars (l : list ascii) : list ascii :=
  match l with
  | b0 :: b1 :: b2 :: rest =>
      let triple := Z.lor (Z.lor (Z.shiftl (octet b0) 16) (Z.shiftl (octet b1) 8)) (octet b2) in
      sextet triple 18 :: sextet triple 12 :: sextet triple 6 :: sextet triple 0 :: base64_chars rest
  | [b0; b1] =>
      let triple := Z.lor (Z.shiftl (octet b0) 16) (Z.shiftl (octet b1) 8) in
      [sextet triple 18; sextet triple 12; sextet triple 6; "="%char]
  | [b0] =>
      let triple := Z.lor (Z.shiftl (octet b0) 16) (Z.shiftl 0 8) in
      [sextet triple 18; sextet triple 12; "="%char; "="%char]
  | [] => []
  end.

Definition base64_encode (input : string) : string := str (base64_chars (chars input)).

(** ** Fields *)

Fixpoint pick_string (object : json) (names : list string) : string :=
  match names with
  | [] => ""
  | name :: names =>
      match find_key object name with
      | Some (JString s) => if String.eqb s "" then pick_string object names else s
      | _ => pick_string object names
      end
  end.

Definition is_core_field (key : string) : bool :=
  existsb (String.eqb key) ["token"; "sid"; "hsServerId"; "hsServerid"; "serverId"; "sId"].

(** The string fields of an object, in its order. *)
Definition string_fields (keep : string -> bool) (fields : list (string * json)) : list (string * string) :=
  omap (fun f => match f.2 with JString s => if keep f.1 then Some (f.1, s) else None | _ => None end) fields.

Definition is_credential_refusal (e : Error) (env : KotakEnvelope) : bool :=
  match category e with
  | Auth | SessionExpired => true
  | Validation | BrokerRejected => parsed env
  | _ => false
  end.

(** ** The bundle *)

Record KotakSessionBundle := mkBundle {
  access_token : string;
  token : string;
  sid : string;
  hs_server_id : string;
  extras : list (string * string);
}.

Definition complete (b : KotakSessionBundle) : bool :=
  negb (String.eqb (access_token b) "") && negb (String.eqb (token b) "") && negb (String.eqb (sid b) "") &&
  negb (String.eqb (hs_server_id b) "").

Definition find_extra (name : string) (b : KotakSessionBundle) : option string :=
  snd <$> List.find (fun e => String.eqb e.1 name) (extras b).

Definition extras_object (l : list (string * string)) : list (string * json) :=
  foldl (fun fields e => put_field fields e.1 (JString e.2)) [] l.

Definition bundle_json (b : KotakSessionBundle) : json :=
  JObject (put_field (put_field (put_field (put_field (put_field [] "access_token" (JString (access_token b)))
    "token" (JString (token b))) "sid" (JString (sid b))) "hs_server_id" (JString (hs_server_id b)))
    "extras" (JObject (extras_object (extras b)))).

Definition auth_headers (b : KotakSessionBundle) : list (string * string) :=
  [("Authorization", "Bearer " +:+ access_token b); ("Auth", token b); ("Sid", sid b); ("neo-fin-key", "neotradeapi")].

(** ** Endpoints (kotak_transport.hpp) *)

Definition kOauthToken : string := "/oauth2/token".
Definition kLoginValidate : string := "/login/1.0/login/v2/validate".
Definition kPlaceOrder : string := "/Orders/2.0/quick/order/rule/ms/place".
Definition kModifyOrder : string := "/Orders/2.0/quick/order/vr/modify".
Definition kCancelOrder : string := "/Orders/2.0/quick/order/cancel".
Definition kOrderBook : string := "/Orders/2.0/quick/user/orders".
Definition kTradeBook : string := "/Orders/2.0/quick/user/trades".
Definition kPositions : string := "/Orders/2.0/quick/user/positions".
Definition kHoldings : string := "/Portfolio/1.0/portfolio/v1/holdings".
Definition kLimits : string := "/Orders/2.0/quick/user/limits".
Definition kScripMaster : string := "/Files/1.0/masterscrip/v1/file-paths".

Definition needs_reauth_error : Error :=
  mkError SessionExpired ReEstablishSession
    "kotak: session bundle expired; operator must re-establish (headless refresh unverified)" "".

Record KotakLoginInputs := mkInputs {
  consumer_key_secret_name : string;
  consumer_secret_secret_name : string;
  mobile_secret_name : string;
  password_secret_name : string;
  mpin_secret_name : string;
}.

Definition default_inputs : KotakLoginInputs :=
  mkInputs "kotak_consumer_key" "kotak_consumer_secret" "kotak_mobile" "kotak_password" "kotak_mpin".

Record LoginLeg := mkLeg { leg_token : string; leg_sid : string; leg_hs_server_id : string; leg_extras : list (string * string) }.

(** ** The legs *)

Section Session.
  Context (parse : string -> option json) (dump : json -> string).
  Context (http : list HttpRequest -> HttpRequest -> result HttpResponse) (secret : string -> result string).
  Context {St : Type} `{V : TokenVault St} (account_id bundle_store_name : string).

Abbreviation wire := (list HttpRequest).

Definition to_json (b : KotakSessionBundle) : string := dump (bundle_json b).

Definition from_json (text : string) : result KotakSessionBundle :=
  match parse text with
  | Some (JObject fields) =>
      let object := JObject fields in
      Ok (mkBundle (pick_string object ["access_token"]) (pick_string object ["token"]) (pick_string object ["sid"])
            (pick_string object ["hs_server_id"])
            match find_key object "extras" with Some (JObject e) => string_fields (fun _ => true) e | _ => [] end)
  | _ => Err (make_error Internal "kotak: stored session bundle is malformed" "")
  end.

(** Both legs read the answer the same way: an error keeps whether it is a
    refusal of the credentials. *)
Definition checked_send (req : HttpRequest) (w : wire) : (HttpResponse + Error * bool) * wire :=
  match http w req with
  | Err e => (inr (e, false), w ++ [req])
  | Ok r =>
      (if is_kotak_success parse r then inl r
       else let mapped := map_kotak_error parse r in
            inr (mapped, is_credential_refusal mapped (parse_kotak_envelope parse (resp_body r))), w ++ [req])
  end.

Definition auth_error (message : string) (r : HttpResponse) : Error :=
  make_error Auth message ("HTTP " +:+ pretty (status_code r)).

Definition oauth_request (consumer_key consumer_secret : string) : HttpRequest :=
  mkRequest Post kOauthToken []
    [("Authorization", "Basic " +:+ base64_encode (consumer_key +:+ ":" +:+ consumer_secret));
     ("Content-Type", "application/x-www-form-urlencoded")] "grant_type=client_credentials".

Definition read_access_token (body : string) : string :=
  match parse body with
  | Some (JObject fields) =>
      let object := JObject fields in
      let top := pick_string object ["access_token"] in
      if String.eqb top "" then
        match find_key object "data" with Some (JObject d) => pick_string (JObject d) ["access_token"] | _ => "" end
      else top
  | _ => ""
  end.

Definition fetch_access_token (consumer_key consumer_secret : string) (w : wire) : (string + Error * bool) * wire :=
  match checked_send (oauth_request consumer_key consumer_secret) w with
  | (inr e, w) => (inr e, w)
  | (inl r, w) =>
      let tok := read_access_token (resp_body r) in
      (if String.eqb tok "" then inr (auth_error "kotak: oauth response carried no access token" r, false) else inl tok, w)
  end.

Definition login_request (tok body : string) (extra_headers : list (string * string)) : HttpRequest :=
  mkRequest Post kLoginValidate []
    ([("Authorization", "Bearer " +:+ tok); ("neo-fin-key", "neotradeapi"); ("Content-Type", "application/json")] ++ extra_headers)
    body.

Definition read_leg (fields : list (string * json)) : LoginLeg :=
  let data := match field_get fields "data" with Some (JObject d) => d | _ => fields end in
  mkLeg (pick_string (JObject data) ["token"]) (pick_string (JObject data) ["sid"])
    (pick_string (JObject data) ["hsServerId"; "hsServerid"; "serverId"; "sId"])
    (string_fields (fun key => negb (is_core_field key)) data).

Definition post_login (tok body : string) (extra_headers : list (string * string)) (w : wire) : (LoginLeg + Error * bool) * wire :=
  match checked_send (login_request tok body extra_headers) w with
  | (inr e, w) => (inr e, w)
  | (inl r, w) =>
      (match parse (resp_body r) with
       | Some (JObject fields) =>
           let leg := read_leg fields in
           if String.eqb (leg_token leg) "" then inr (auth_error "kotak: login response carried no session token" r, false)
           else inl leg
       | _ => inr (auth_error "kotak: login response was not a JSON object" r, false)
       end, w)
  end.

(** ** Establishing and probing *)

Definition login_body (mobile field value : string) : string :=
  dump (JObject (put_field (put_field [] "mobileNumber" (JString mobile)) field (JString value))).

Definition refused (e : Error * bool) (w : wire) (s : KiteSessionEstablisher St) :
    result SessionState * KiteSessionEstablisher St :=
  (if e.2 then Ok SessionFailed else Err e.1, mkSession (store s) w).

Definition final_bundle (tok : string) (view final : LoginLeg) : KotakSessionBundle :=
  mkBundle tok (leg_token final)
    (if String.eqb (leg_sid final) "" then leg_sid view else leg_sid final)
    (if String.eqb (leg_hs_server_id final) "" then leg_hs_server_id view else leg_hs_server_id final)
    (leg_extras final).

Definition two_fa_headers (view : LoginLeg) : list (string * string) := [("Auth", leg_token view); ("Sid", leg_sid view)].

Definition persist (b : KotakSessionBundle) (w : wire) (s : KiteSessionEstablisher St) :
    result SessionState * KiteSessionEstablisher St :=
  if negb (complete b) then (Ok SessionFailed, mkSession (store s) w) else
  let '(saved, st) := vault_save account_id bundle_store_name (to_json b) (store s) in
  (match saved with Err e => Err e | Ok _ => Ok Healthy end, mkSession st w).

Definition three_legs (consumer_key consumer_secret mobile password mpin : string) (s : KiteSessionEstablisher St) :
    result SessionState * KiteSessionEstablisher St :=
  match fetch_access_token consumer_key consumer_secret (requests s) with
  | (inr e, w) => refused e w s
  | (inl tok, w) =>
  match post_login tok (login_body mobile "password" password) [] w with
  | (inr e, w) => refused e w s
  | (inl view, w) =>
  match post_login tok (login_body mobile "mpin" mpin) (two_fa_headers view) w with
  | (inr e, w) => refused e w s
  | (inl final, w) => persist (final_bundle tok view final) w s
  end end end.

Definition establish (inputs : KotakLoginInputs) (s : KiteSessionEstablisher St) : result SessionState * KiteSessionEstablisher St :=
  match secret (consumer_key_secret_name inputs) with Err e => (Err e, s) | Ok consumer_key =>
  match secret (consumer_secret_secret_name inputs) with Err e => (Err e, s) | Ok consumer_secret =>
  match secret (mobile_secret_name inputs) with Err e => (Err e, s) | Ok mobile =>
  match secret (password_secret_name inputs) with Err e => (Err e, s) | Ok password =>
  match secret (mpin_secret_name inputs) with Err e => (Err e, s) | Ok mpin =>
  three_legs consumer_key consumer_secret mobile password mpin s
  end end end end end.

Definition load_bundle (s : KiteSessionEstablisher St) : result KotakSessionBundle :=
  match vault_load account_id bundle_store_name (store s) with Err e => Err e | Ok blob => from_json blob end.

Definition order_book_probe (b : KotakSessionBundle) : HttpRequest :=
  mkRequest Get kOrderBook [("sId", hs_server_id b)] (auth_headers b) "".

Definition validate (s : KiteSessionEstablisher St) : result SessionState * KiteSessionEstablisher St :=
  match load_bundle s with
  | Err e => (Err e, s)
  | Ok b =>
      if negb (complete b) then (Ok SessionFailed, s) else
      let req := order_book_probe b in
      let s' := mkSession (store s) (requests s ++ [req]) in
      match http (requests s) req with
      | Err e => (Err e, s')
      | Ok r =>
          (if is_session_death parse r then Ok NeedsReauth
           else if is_kotak_success parse r then
             if parsed (parse_kotak_envelope parse (resp_body r)) then Ok Healthy
             else Err (make_error CatUnknown "kotak: session probe returned an unrecognized (non-JSON) body; not treating as healthy"
                         ("HTTP " +:+ pretty (status_code r)))
           else Err (map_kotak_error parse r), s')
      end
  end.
End Session.

(** ** Base64 decodes *)

Definition letter_value (c : ascii) : option Z :=
  (fun p => Z.of_nat p.1) <$> list_find (fun a => a = c) kAlphabet.

(** The bytes of groups of four letters, as a server reads them. *)
Fixpoint base64_decode (l : list ascii) : option (list ascii) :=
  match l with
  | [] => Some []
  | c0 :: c1 :: c2 :: c3 :: rest =>
      v0 ← letter_value c0; v1 ← letter_value c1;
      let first := ascii_of_nat (Z.to_nat (v0 * 4 + v1 / 16)) in
      if Ascii.eqb c3 "=" then
        if Ascii.eqb c2 "=" then guard (rest = []);; Some [first]
        else v2 ← letter_value c2; guard (rest = []);; Some [first; ascii_of_nat (Z.to_nat (v1 mod 16 * 16 + v2 / 4))]
      else
        v2 ← letter_value c2; v3 ← letter_value c3; rest ← base64_decode rest;
        Some (first :: ascii_of_nat (Z.to_nat (v1 mod 16 * 16 + v2 / 4)) :: ascii_of_nat (Z.to_nat (v2 mod 4 * 64 + v3)) :: rest)
  | _ => None
  end.

Lemma octet_range c : 0 <= octet c < 256.
Proof. unfold octet. pose proof (nat_ascii_bounded c). lia. Qed.

Lemma octet_back c : ascii_of_nat (Z.to_nat (octet c)) = c.
Proof. unfold octet. by rewrite Nat2Z.id, ascii_nat_embedding. Qed.

Lemma letters_checked : forallb (fun n => match kAlphabet !! n with
  | Some c => bool_decide (letter_value c = Some (Z.of_nat n)) && negb (Ascii.eqb c "=") | None => false end) (seq 0 64) = true.
Proof. vm_compute. reflexivity. Qed.

Lemma letter_of n : 0 <= n < 64 -> exists c, kAlphabet !! Z.to_nat n = Some c /\ letter_value c = Some n /\ c <> "="%char.
Proof.
  intros Hn. pose proof letters_checked as H. rewrite forallb_forall in H. specialize (H (Z.to_nat n)).
  rewrite in_seq in H. specialize (H ltac:(lia)). destruct (kAlphabet !! Z.to_nat n) as [c|]; [|done]. exists c. to_prop.
  rewrite Z2Nat.id in H by lia. split; [done|]. split; [done|]. by apply Ascii.eqb_neq.
Qed.

Lemma sextet_spec t k : 0 <= t -> 0 <= k ->
  letter_value (sextet t k) = Some (t / 2 ^ k mod 64) /\ sextet t k <> "="%char.
Proof.
  intros Ht Hk. unfold sextet. change 63 with (Z.ones 6). rewrite Z.land_ones, Z.shiftr_div_pow2 by lia. change (2 ^ 6) with 64.
  destruct (letter_of (t / 2 ^ k mod 64)) as (c & -> & ? & ?); [by apply Z.mod_pos_bound|]. done.
Qed.

(** The three bytes of a group do not overlap. *)
Lemma group_value a b c : 0 <= a < 256 -> 0 <= b < 256 -> 0 <= c < 256 ->
  Z.lor (Z.lor (Z.shiftl a 16) (Z.shiftl b 8)) c = a * 65536 + b * 256 + c.
Proof.
  intros Ha Hb Hc.
  assert (D : forall x y n, 0 <= n -> 0 <= y < 2 ^ n -> Z.lor (Z.shiftl x n) y = x * 2 ^ n + y).
  { intros x y n Hn Hy. rewrite <- Z.shiftl_mul_pow2 by done. symmetry. rewrite <- Z.add_lor_land.
    enough (Z.land (Z.shiftl x n) y = 0) as -> by lia. apply Z.bits_inj'. intros i Hi.
    rewrite Z.land_spec, Z.bits_0, Z.shiftl_spec by done. destruct (Z_lt_dec i n).
    - by rewrite Z.testbit_neg_r by lia.
    - destruct (Z.eq_dec y 0) as [->|]; [by rewrite Z.bits_0, andb_false_r|]. rewrite (Z.bits_above_log2 y), andb_false_r; [done|lia|].
      apply Z.log2_lt_pow2; [lia|]. apply (Z.lt_le_trans _ (2 ^ n)); [lia|]. apply Z.pow_le_mono_r; lia. }
  replace (Z.shiftl a 16) with (Z.shiftl (Z.shiftl a 8) 8) by (rewrite Z.shiftl_shiftl by lia; done).
  rewrite <- Z.shiftl_lor, D, D by lia. lia.
Qed.

(** the consumer credentials reach the broker intact: the Basic authorization
    text decodes to exactly the bytes it was made from, whatever they are, with
    one, two or no bytes of padding. *)
Theorem base64_roundtrip input : base64_decode (chars (base64_encode input)) = Some (chars input).
Proof.
  unfold base64_encode. rewrite chars_str. generalize (chars input). clear input.
  assert (V : forall t, 0 <= t -> t / 2 ^ 18 mod 64 * 4 + t / 2 ^ 12 mod 64 / 16 = t / 65536 mod 256
    /\ t / 2 ^ 12 mod 64 mod 16 * 16 + t / 2 ^ 6 mod 64 / 4 = t / 256 mod 256
    /\ t / 2 ^ 6 mod 64 mod 4 * 64 + t / 2 ^ 0 mod 64 = t mod 256).
  { intros t Ht. change (2 ^ 18) with 262144. change (2 ^ 12) with 4096. change (2 ^ 6) with 64. change (2 ^ 0) with 1.
    split_and!; Z.div_mod_to_equations; lia. }
  assert (W : forall a b c, 0 <= a < 256 -> 0 <= b < 256 -> 0 <= c < 256 ->
    let t := a * 65536 + b * 256 + c in 0 <= t /\ t / 65536 mod 256 = a /\ t / 256 mod 256 = b /\ t mod 256 = c).
  { intros a b c ? ? ?. cbv zeta. split_and!; Z.div_mod_to_equations; lia. }
  fix IH 1. intros [|b0 [|b1 [|b2 l]]]; [done|..]; cbn [base64_chars];
    pose proof (octet_range b0); try pose proof (octet_range b1); try pose proof (octet_range b2).
  - replace (Z.lor _ _) with (octet b0 * 65536 + 0 * 256 + 0) by (rewrite <- group_value by lia; by rewrite Z.lor_0_r).
    destruct (W (octet b0) 0 0) as (Ht & E0 & _); [lia..|]. set (t := _ + _ + _) in *.
    destruct (V t Ht) as (V0 & _), (sextet_spec t 18 Ht ltac:(lia)) as [S0 _], (sextet_spec t 12 Ht ltac:(lia)) as [S1 _].
    cbn [base64_decode]. rewrite S0, S1. cbn [mbind option_bind]. rewrite !Ascii.eqb_refl. cbn. by rewrite V0, E0, octet_back.
  - replace (Z.lor _ _) with (octet b0 * 65536 + octet b1 * 256 + 0) by (rewrite <- group_value by lia; by rewrite Z.lor_0_r).
    destruct (W (octet b0) (octet b1) 0) as (Ht & E0 & E1 & _); [lia..|]. set (t := _ + _ + _) in *.
    destruct (V t Ht) as (V0 & V1 & _), (sextet_spec t 18 Ht ltac:(lia)) as [S0 _], (sextet_spec t 12 Ht ltac:(lia)) as [S1 _],
      (sextet_spec t 6 Ht ltac:(lia)) as [S2 N2].
    cbn [base64_decode]. rewrite S0, S1. cbn [mbind option_bind]. rewrite Ascii.eqb_refl.
    rewrite (proj2 (Ascii.eqb_neq _ _) N2), S2. cbn. by rewrite V0, V1, E0, E1, !octet_back.
  - rewrite group_value by lia. destruct (W (octet b0) (octet b1) (octet b2)) as (Ht & E0 & E1 & E2); [lia..|].
    set (t := _ + _ + _) in *.
    destruct (V t Ht) as (V0 & V1 & V2), (sextet_spec t 18 Ht ltac:(lia)) as [S0 _], (sextet_spec t 12 Ht ltac:(lia)) as [S1 _],
      (sextet_spec t 6 Ht ltac:(lia)) as [S2 N2], (sextet_spec t 0 Ht ltac:(lia)) as [S3 N3].
    cbn [base64_decode]. rewrite S0, S1. cbn [mbind option_bind]. rewrite (proj2 (Ascii.eqb_neq _ _) N3), S2, S3.
    cbn [mbind option_bind]. rewrite IH. cbn [mbind option_bind]. by rewrite V0, V1, V2, E0, E1, E2, !octet_back.
Qed.


(** ** The stored bundle reads back *)

Definition text_value (f : string * json) : Prop := match f.2 with JString _ => True | _ => False end.

Lemma put_field_texts fields key s : Forall text_value fields -> Forall text_value (put_field fields key (JString s)).
Proof.
  induction 1 as [|[k w] fields Hf Hfs IH]; cbn [put_field]; [by repeat constructor|].
  destruct (String.eqb key k); [by constructor|]. destruct (String.ltb key k); by repeat constructor.
Qed.

Definition find_text (name : string) (l : list (string * string)) : option string :=
  snd <$> List.find (fun e => String.eqb e.1 name) l.

Lemma find_string_fields name fields : Forall text_value fields ->
  JString <$> find_text name (string_fields (fun _ => true) fields) = field_get fields name.
Proof.
  unfold find_text, string_fields. induction 1 as [|[k w] fields Hf Hfs IH]; [done|]. unfold text_value in Hf.
  cbn [omap list_omap snd fst field_get] in *. destruct w; try done. cbn [List.find fst].
  destruct (String.eqb k name); [done|exact IH].
Qed.

Lemma extras_object_spec l : forall fields, NoDup l.*1 -> Forall text_value fields ->
  let out := foldl (fun fields e => put_field fields e.1 (JString e.2)) fields l in
  Forall text_value out /\
  forall name, field_get out name = match find_text name l with Some s => Some (JString s) | None => field_get fields name end.
Proof.
  induction l as [|[k v] l IH]; intros fields Hn Hf; [done|]. cbn [foldl fmap list_fmap fst snd] in *.
  apply NoDup_cons in Hn as [Hk Hn]. destruct (IH _ Hn (put_field_texts fields k v Hf)) as [H1 H2]. split; [done|].
  intros name. rewrite H2. unfold find_text. cbn [List.find fst]. rewrite field_get_put.
  destruct (String.eqb_spec k name) as [->|]; [|done].
  destruct (List.find (fun e => String.eqb e.1 name) l) as [e|] eqn:E; [|done].
  apply List.find_some in E as [Hin E]. apply String.eqb_eq in E. exfalso. apply Hk. rewrite <- E.
  apply list_elem_of_fmap. exists e. split; [done|]. by apply list_elem_of_In.
Qed.

Section Bundle.
  Context (parse : string -> option json) (dump : json -> string).

(** A stored bundle reads back: when the JSON library reads what it wrote,
    the four credentials come back as they were, empty ones included, and so does
    every extra field, if no name occurs twice. *)
Theorem kotak_bundle_roundtrip b :
  parse (dump (bundle_json b)) = Some (bundle_json b) -> NoDup (extras b).*1 ->
  exists b', from_json parse (to_json dump b) = Ok b'
    /\ (access_token b', token b', sid b', hs_server_id b') = (access_token b, token b, sid b, hs_server_id b)
    /\ complete b' = complete b /\ auth_headers b' = auth_headers b
    /\ forall name, find_extra name b' = find_extra name b.
Proof.
  intros Hp Hn. unfold from_json, to_json. rewrite Hp. unfold bundle_json.
  assert (P : forall fields key s, field_get fields key = Some (JString s) -> pick_string (JObject fields) [key] = s).
  { intros fields key s E. cbn [pick_string find_key]. rewrite E. by destruct (String.eqb_spec s "") as [->|]. }
  eexists. split; [done|]. cbn [access_token token sid hs_server_id extras].
  rewrite (P _ "access_token" (access_token b)), (P _ "token" (token b)), (P _ "sid" (sid b)),
    (P _ "hs_server_id" (hs_server_id b)) by (rewrite !field_get_put; reflexivity).
  split; [done|]. split; [done|]. split; [done|]. intros name. cbn [find_key]. rewrite field_get_put, String.eqb_refl.
  destruct (extras_object_spec (extras b) [] Hn (Forall_nil_2 _)) as [H1 H2].
  pose proof (find_string_fields name _ H1) as H. rewrite H2 in H. unfold find_extra. cbn [extras].
  fold (find_text name (extras b)) (find_text name (string_fields (fun _ => true) (extras_object (extras b)))).
  unfold extras_object. destruct (find_text name (extras b)), (find_text name (string_fields _ _)); simpl in H; congruence.
Qed.
End Bundle.

(** ** What establishing leads to *)

Section Login.
  Context (parse : string -> option json) (dump : json -> string).
  Context (http : list HttpRequest -> HttpRequest -> result HttpResponse) (secret : string -> result string).
  Context {St : Type} `{V : TokenVault St} `{L : !TokenVaultLaws V} (account bundle_name : string).

Abbreviation login := (establish parse dump http secret account bundle_name).
Abbreviation probe := (validate parse http account bundle_name).
Abbreviation down r := (500 <= status_code r \/ status_code r <= 0).

(** A leg that stops the login, and whether it counts as a refusal of the
    credentials: never on a transport error, a gateway failure, a rate limit or a
    body that parses as nothing, short of a 401 or 403. *)
Definition leg_stopped (w : list HttpRequest) (q : HttpRequest) (e : Error) (refusal : bool) : Prop :=
  match http w q with
  | Err t => e = t /\ refusal = false
  | Ok r =>
      if is_kotak_success parse r then refusal = false /\ category e = Auth
      else e = map_kotak_error parse r
        /\ (refusal = true -> ~ down r /\ action e <> RetrySafe /\
              (status_code r = 401 \/ status_code r = 403 \/ parsed (parse_kotak_envelope parse (resp_body r)) = true))
  end.

Lemma refusal_spec r :
  is_credential_refusal (map_kotak_error parse r) (parse_kotak_envelope parse (resp_body r)) = true ->
  ~ down r /\ action (map_kotak_error parse r) <> RetrySafe /\
  (status_code r = 401 \/ status_code r = 403 \/ parsed (parse_kotak_envelope parse (resp_body r)) = true).
Proof.
  destruct (kotak_verdicts parse r) as (Hdown & Hretry & _). intros Hr.
  assert (Hm : parsed (parse_kotak_envelope parse (resp_body r)) = false -> env_message (parse_kotak_envelope parse (resp_body r)) = "").
  { unfold parse_kotak_envelope. destruct (parse (resp_body r)) as [[| | | | |[|[]]|]|]; try done;
      unfold read_object; by repeat case_match. }
  assert (Hnd : ~ down r). { intros Hd. apply Hdown in Hd as [Hd _]. unfold is_credential_refusal in Hr. by rewrite Hd in Hr. }
  split; [done|]. revert Hr. unfold map_kotak_error.
  destruct (_ || bool_decide (_ = RIndeterminate)); [done|].
  destruct (_ || bool_decide (_ = RSessionExpired)) eqn:E2.
  { intros _. cbn [action]. split; [done|]. rewrite !orb_true_iff, !Z.eqb_eq, bool_decide_eq_true in E2.
    destruct E2 as [[?|?]|E2]; auto. right. right. destruct (parsed _); [done|]. rewrite Hm in E2 by done. done. }
  clear Hretry Hdown. destruct (_ || bool_decide (_ = RRateLimited)); [done|].
  destruct (message_reason _) eqn:Er; cbn [category_for_reason];
    repeat match goal with |- context [if ?b then mkError _ _ _ _ else _] => destruct b end; try done; cbn [is_credential_refusal category action];
    intros Hp; rewrite ?Hp; split; try done; auto; try (rewrite message_reason_posture, Er by (by rewrite Er); done).
  by rewrite bool_decide_true, orb_true_r in E2.
Qed.

Lemma checked_send_spec q w :
  let '(x, w') := checked_send parse http q w in
  w' = w ++ [q] /\
  match x with
  | inl r => http w q = Ok r /\ is_kotak_success parse r = true
  | inr (e, refusal) => leg_stopped w q e refusal
  end.
Proof.
  unfold checked_send, leg_stopped. destruct (http w q) as [r|t]; [|done]. split; [done|].
  destruct (is_kotak_success parse r) eqn:E; [done|]. split; [done|]. apply refusal_spec.
Qed.

Lemma fetch_spec key sec w :
  let '(x, w') := fetch_access_token parse http key sec w in
  w' = w ++ [oauth_request key sec] /\
  match x with
  | inl tok => exists r, http w (oauth_request key sec) = Ok r /\ is_kotak_success parse r = true /\ read_access_token parse (resp_body r) = tok
  | inr (e, refusal) => leg_stopped w (oauth_request key sec) e refusal
  end.
Proof.
  unfold fetch_access_token. pose proof (checked_send_spec (oauth_request key sec) w) as H.
  destruct (checked_send _ _ _ _) as [[r|[e rf]] w']; [|done]. destruct H as (-> & Hh & Hs). split; [done|].
  destruct (String.eqb _ ""); [|by eauto]. unfold leg_stopped. by rewrite Hh, Hs.
Qed.

Lemma post_login_spec tok body hs w :
  let '(x, w') := post_login parse http tok body hs w in
  w' = w ++ [login_request tok body hs] /\
  match x with
  | inl leg => exists r fields, http w (login_request tok body hs) = Ok r /\ is_kotak_success parse r = true
      /\ parse (resp_body r) = Some (JObject fields) /\ read_leg fields = leg
  | inr (e, refusal) => leg_stopped w (login_request tok body hs) e refusal
  end.
Proof.
  unfold post_login. pose proof (checked_send_spec (login_request tok body hs) w) as H.
  destruct (checked_send _ _ _ _) as [[r|[e rf]] w']; [|done]. destruct H as (-> & Hh & Hs). split; [done|].
  assert (forall m, leg_stopped w (login_request tok body hs) (auth_error m r) false) as A by (intros; unfold leg_stopped; by rewrite Hh, Hs).
  destruct (parse (resp_body r)) as [[| | | | | |fields]|] eqn:Ep; try apply A.
  destruct (String.eqb _ ""); [apply A|]. eauto 6.
Qed.

(** The three requests of a login, and what the broker answered to each. *)
Record answered (w : list HttpRequest) (key sec mobile password mpin : string) (b : KotakSessionBundle) (new : list HttpRequest) : Prop := {
  an_requests : exists tok view, new =
    [oauth_request key sec; login_request tok (login_body dump mobile "password" password) [];
     login_request tok (login_body dump mobile "mpin" mpin) (two_fa_headers view)]
    /\ (exists r, http w (oauth_request key sec) = Ok r /\ is_kotak_success parse r = true /\ read_access_token parse (resp_body r) = tok)
    /\ exists final, b = final_bundle tok view final /\
        exists r fields, http (w ++ take 2 new) (login_request tok (login_body dump mobile "mpin" mpin) (two_fa_headers view)) = Ok r
          /\ is_kotak_success parse r = true /\ parse (resp_body r) = Some (JObject fields) /\ read_leg fields = final;
}.

(** The requests of a login, in order: the consumer credentials, then the two
    login legs. *)
Definition login_requests (new : list HttpRequest) : Prop :=
  (length new <= 3)%nat /\ Forall (fun q => method q = Post) new /\ (path <$> new) `prefix_of` [kOauthToken; kLoginValidate; kLoginValidate].

Inductive established (inputs : KotakLoginInputs) (s : KiteSessionEstablisher St) : result SessionState -> KiteSessionEstablisher St -> Prop :=
  | est_no_secret name e : secret name = Err e -> established inputs s (Err e) s
  | est_stopped before q e refusal s' :
      login_requests (before ++ [q]) -> requests s' = requests s ++ before ++ [q] -> store s' = store s ->
      leg_stopped (requests s ++ before) q e refusal ->
      established inputs s (if refusal then Ok SessionFailed else Err e) s'
  | est_incomplete key sec mobile password mpin b new s' :
      answered (requests s) key sec mobile password mpin b new -> complete b = false ->
      requests s' = requests s ++ new -> store s' = store s -> established inputs s (Ok SessionFailed) s'
  | est_saved key sec mobile password mpin b new saved st s' :
      answered (requests s) key sec mobile password mpin b new -> complete b = true ->
      requests s' = requests s ++ new -> vault_save account bundle_name (to_json dump b) (store s) = (saved, st) -> store s' = st ->
      established inputs s (match saved with Ok _ => Ok Healthy | Err e => Err e end) s'.

Ltac shape_requests :=
  split; [simpl; lia|]; split; [by repeat constructor|]; first [by exists []|by exists [kLoginValidate]|by exists [kLoginValidate; kLoginValidate]].

(** The login runs through one of the ways of [established]. *)
Lemma establish_run inputs s : let '(r, s') := login inputs s in established inputs s r s'.
Proof.
  unfold establish. destruct (secret (consumer_key_secret_name inputs)) as [key|] eqn:?; [|by econstructor].
  destruct (secret (consumer_secret_secret_name inputs)) as [sec|] eqn:?; [|by econstructor].
  destruct (secret (mobile_secret_name inputs)) as [mobile|] eqn:?; [|by econstructor].
  destruct (secret (password_secret_name inputs)) as [password|] eqn:?; [|by econstructor].
  destruct (secret (mpin_secret_name inputs)) as [mpin|] eqn:?; [|by econstructor]. unfold three_legs, refused.
  pose proof (fetch_spec key sec (requests s)) as H1. destruct (fetch_access_token _ _ _ _ _) as [[tok|[e rf]] w1]; destruct H1 as [-> H1].
  2:{ eapply (est_stopped _ _ [] _ e rf); [|done|done|by rewrite app_nil_r]. by shape_requests. }
  match goal with |- context [post_login _ _ _ ?b [] ?w] => pose proof (post_login_spec tok b [] w) as H2 end.
  destruct (post_login _ _ _ _ [] _) as [[view|[e rf]] w2]; destruct H2 as [-> H2].
  2:{ eapply (est_stopped _ _ [_] _ e rf); [|by rewrite <- app_assoc|done|exact H2]. by shape_requests. }
  match goal with |- context [post_login _ _ _ ?b (two_fa_headers view) ?w] => pose proof (post_login_spec tok b (two_fa_headers view) w) as H3 end.
  destruct (post_login _ _ _ _ (two_fa_headers view) _) as [[final|[e rf]] w3]; destruct H3 as [-> H3].
  2:{ eapply (est_stopped _ _ [_; _] _ e rf); [|by rewrite <- !app_assoc|done|by rewrite <- app_assoc in H3]. by shape_requests. }
  assert (A : answered (requests s) key sec mobile password mpin (final_bundle tok view final)
    [oauth_request key sec; login_request tok (login_body dump mobile "password" password) [];
     login_request tok (login_body dump mobile "mpin" mpin) (two_fa_headers view)]).
  { constructor. exists tok, view. split; [done|]. split; [done|]. exists final. split; [done|]. cbn [take]. by rewrite <- app_assoc in H3. }
  unfold persist. destruct (complete (final_bundle tok view final)) eqn:Ec; cbn [negb].
  - destruct (vault_save _ _ _ _) as [saved st] eqn:Ev. eapply est_saved; [exact A|done|by rewrite <- !app_assoc|exact Ev|done].
  - eapply est_incomplete; [exact A|done|by rewrite <- !app_assoc|done].
Qed.
(** the Kotak login is all or nothing. Nothing is sent while a secret is
    missing; the three legs, at most three POSTs to their two
    endpoints, run in order and stop at the first that does not succeed, with
    the store untouched; it is saved to only with the complete
    bundle of all three legs, and then once; an incomplete bundle is a failed
    login and is not saved. A stopped leg is reported as refused credentials only
    on the broker's own word: never when the transport failed, the gateway is
    down or the broker limits the rate, and on a body that is no envelope only
    with a 401 or 403. It never answers NeedsReauth, and a failed login writes
    nothing. *)
Theorem establish_atomic inputs s :
  let '(r, s') := login inputs s in
  established inputs s r s'
  /\ (exists new, requests s' = requests s ++ new /\ login_requests new)
  /\ r <> Ok NeedsReauth /\ (r = Ok SessionFailed -> store s' = store s)
  /\ (store s' = store s \/ exists b, complete b = true /\ store s' = (vault_save account bundle_name (to_json dump b) (store s)).2).
Proof.
  pose proof (establish_run inputs s) as H. destruct (login inputs s) as [r s']. split; [done|].
  destruct H as [name e _|before q e rf s' Hq Hr Hs _|? ? ? ? ? b new s' [(tok & view & -> & _)] _ Hr Hs|? ? ? ? ? b new saved st s' [(tok & view & -> & _)] Hc Hr Hv Hs].
  - split; [exists []; split; [by rewrite app_nil_r|split; [simpl; lia|split; [constructor|by eexists]]]|]. by split_and!; [..|left].
  - split; [by eexists|]. split; [by destruct rf|]. split; [done|by left].
  - split; [eexists; split; [done|by shape_requests]|]. split; [done|]. split; [done|by left].
  - split; [eexists; split; [done|by shape_requests]|]. split; [by destruct saved|]. split; [by destruct saved|].
    right. exists b. split; [done|]. by rewrite Hv.
Qed.
End Login.

Section Probe.
  Context (parse : string -> option json) (dump : json -> string).
  Context (http : list HttpRequest -> HttpRequest -> result HttpResponse) (secret : string -> result string).
  Context {St : Type} `{V : TokenVault St} `{L : !TokenVaultLaws V} (account bundle_name : string).

Abbreviation login := (establish parse dump http secret account bundle_name).
Abbreviation probe := (validate parse http account bundle_name).
Abbreviation envelope r := (parse_kotak_envelope parse (resp_body r)).

(** What the probe makes of the order book's answer. *)
Definition session_probed (s : KiteSessionEstablisher St) (q : HttpRequest) (v : result SessionState) : Prop :=
  match http (requests s) q with
  | Err e => v = Err e
  | Ok r =>
      (v = Ok NeedsReauth /\ is_session_death parse r = true)
      \/ (v = Ok Healthy /\ is_session_death parse r = false /\ 200 <= status_code r < 300 /\ parsed (envelope r) = true
          /\ has_fault (envelope r) = false /\ has_error (envelope r) = false /\ (has_stat (envelope r) = true -> stat_ok (envelope r) = true))
      \/ exists e, v = Err e /\ is_session_death parse r = false
  end.

Lemma kotak_probe_exact s b :
  load_bundle parse account bundle_name s = Ok b -> complete b = true ->
  let '(v, s') := probe s in
  session_probed s (order_book_probe b) v /\ store s' = store s /\ requests s' = requests s ++ [order_book_probe b].
Proof.
  intros Hl Hc. unfold validate, session_probed. rewrite Hl, Hc. cbn [negb].
  destruct (http (requests s) (order_book_probe b)) as [r|e]; [|done]. split; [|done].
  destruct (is_session_death parse r) eqn:Ed; [by left|]. right.
  destruct (is_kotak_success parse r) eqn:Es; [|by right; eexists]. destruct (parsed (envelope r)) eqn:Ep; [|by right; eexists].
  left. unfold is_kotak_success in Es. destruct (Z.ltb_spec (status_code r) 200), (Z.leb_spec 300 (status_code r)); try done.
  cbn [orb] in Es. destruct (has_fault _), (has_error _); try done. cbn [orb] in Es.
  split_and!; try done. intros Hs. by rewrite Hs in Es.
Qed.

(** A Kotak login is usable by what follows it: after Healthy the store
    holds a complete bundle, and, when the JSON library reads back what it wrote,
    loading gives the same credentials and extra fields; the probe then asks for
    the order book with exactly those headers and server id, leaves the store
    alone, and says Healthy only on a successful envelope and NeedsReauth only on
    a dead session. *)
Theorem login_then_load inputs s :
  vault_ok (store s) ->
  let '(r, s') := login inputs s in
  r = Ok Healthy -> exists b, complete b = true /\ vault_load account bundle_name (store s') = Ok (to_json dump b) /\
    (parse (dump (bundle_json b)) = Some (bundle_json b) -> NoDup (extras b).*1 ->
     exists b', load_bundle parse account bundle_name s' = Ok b' /\ complete b' = true /\ auth_headers b' = auth_headers b
       /\ hs_server_id b' = hs_server_id b /\ (forall name, find_extra name b' = find_extra name b) /\
       let '(v, s2) := probe s' in
       session_probed s' (order_book_probe b) v /\ store s2 = store s' /\ requests s2 = requests s' ++ [order_book_probe b]).
Proof.
  intros Hok. pose proof (establish_run parse dump http secret account bundle_name inputs s) as H.
  destruct (login inputs s) as [r s']. intros Hr. inversion H as [? e _|? ? e rf|?|k0 k1 k2 k3 k4 b new saved st s0 Ha Hc Hq Hv Hst]; subst; try done.
  1: by destruct rf.
  pose proof (vault_saved account bundle_name (to_json dump b) (store s) Hok) as Hs. rewrite Hv in Hs.
  destruct saved as [[]|]; [|done]. destruct Hs as (_ & Hl & _). specialize (Hl eq_refl). exists b. split; [done|]. split; [done|].
  intros Hp Hn. destruct (kotak_bundle_roundtrip parse dump b Hp Hn) as (b' & Hf & E & Hc' & Hh & He).
  assert (Hb : load_bundle parse account bundle_name s' = Ok b') by (unfold load_bundle; by rewrite Hl).
  injection E as E1 E2 E3 E4. exists b'. split; [done|]. split; [by rewrite Hc', Hc|]. split; [done|]. split; [done|]. split; [done|].
  pose proof (kotak_probe_exact s' b' Hb ltac:(by rewrite Hc', Hc)) as Hpr.
  assert (order_book_probe b' = order_book_probe b) as Eq by (unfold order_book_probe; by rewrite Hh, E4). by rewrite Eq in Hpr.
Qed.
End Probe.

(** ** A login on the token store *)

Definition sample_bundle : KotakSessionBundle := mkBundle "oauth-1" "tok-2" "sid-3" "hs-4" [("ucc", "AB12")].

Definition sample_dump (j : json) : string :=
  match find_key j "extras" with Some _ => "{bundle}" | None => "{credentials}" end.

Definition sample_kotak_parse (body : string) : option json :=
  if String.eqb body "{oauth}" then Some (JObject [("access_token", JString "oauth-1")])
  else if String.eqb body "{leg}" then
    Some (JObject [("data", JObject [("hsServerId", JString "hs-4"); ("sid", JString "sid-3"); ("token", JString "tok-2"); ("ucc", JString "AB12")])])
  else if String.eqb body "{bundle}" then Some (bundle_json sample_bundle)
  else if String.eqb body "{orders}" then Some (JObject [("data", JArray []); ("stat", JString "Ok")])
  else None.

Definition sample_kotak_http (sent : list HttpRequest) (q : HttpRequest) : result HttpResponse :=
  Ok (mkResponse 200 [] (if String.eqb (path q) kOauthToken then "{oauth}" else if String.eqb (path q) kLoginValidate then "{leg}" else "{orders}")).

Definition sample_kotak_secret (name : string) : result string :=
  if String.eqb name "acc.token_key" then Ok "0123456789abcdef0123456789abcdef" else Ok ("value of " +:+ name).

Definition sample_kotak_start : KiteSessionEstablisher (TokenDisk * list SaveEnv) := mkSession (new_disk, [quiet_env]) [].

#[local] Instance sample_kotak_vault : TokenVault (TokenDisk * list SaveEnv) := token_vault sample_kotak_secret "/data".

Definition sample_kotak_login : result SessionState * KiteSessionEstablisher (TokenDisk * list SaveEnv) :=
  establish sample_kotak_parse sample_dump sample_kotak_http sample_kotak_secret "acc" "bundle" default_inputs sample_kotak_start.

Lemma login_then_load_witness :
  sample_kotak_login.1 = Ok Healthy
  /\ (validate sample_kotak_parse sample_kotak_http "acc" "bundle" sample_kotak_login.2).1 = Ok Healthy
  /\ exists b, complete b = true /\ vault_load "acc" "bundle" (store sample_kotak_login.2) = Ok (to_json sample_dump b).
Proof.
  assert (E : sample_kotak_login.1 = Ok Healthy) by reflexivity. split; [exact E|]. split; [reflexivity|].
  assert (Hok : vault_ok (TokenVaultLaws := token_vault_laws sample_kotak_secret "/data") (store sample_kotak_start)).
  { split; [|split]; cbn [fst snd].
    - intros dir F HF. cbn in HF. by rewrite lookup_empty in HF.
    - intros dir F HF. cbn in HF. by rewrite lookup_empty in HF.
    - constructor; [|constructor]. intros v Hv. by injection Hv as <-. }
  pose proof (login_then_load sample_kotak_parse sample_dump sample_kotak_http sample_kotak_secret "acc" "bundle"
    (V := sample_kotak_vault) (L := token_vault_laws sample_kotak_secret "/data") default_inputs sample_kotak_start Hok) as H.
  fold sample_kotak_login in H. revert E H. generalize sample_kotak_login. intros [r s'] E H. cbn [fst snd] in *.
  destruct (H E) as (b & Hc & Hl & _). by exists b.
Defined.
