(* ===== verification/KotakRest.v ===== *)
(** * KotakRest: the Kotak Neo REST client
    (src/src/adapters/kotak/kotak_rest_client.cpp)

    Requests with the session bundle in force, the jData body, the envelope, and
    the rule that a mutation is never reported as safe to retry. The transport,
    the bundle provider, parsing a body and dumping a value are seams. The last
    part runs the adapter of [KotakAdapter] on this client. *)

From stdpp Require Import sorting.
From S2P Require Import Prelude Errors Domain WireJson KiteRest KotakErrors KotakSession KotakAdapter.

Section Client.
  Context (parse : string -> option json) (dump : json -> string).
  Context (http : list HttpRequest -> HttpRequest -> result HttpResponse).
  (** Asked at every call; it may answer differently each time. *)
  Context (bundle_provider : option (list HttpRequest -> result KotakSessionBundle)).

Record KotakRestClient := mkKotakClient { last_rate_limit : RateLimitInfo; sent : list HttpRequest }.

Definition new_client : KotakRestClient := mkKotakClient no_rate_limit [].

Definition j_data_body (p : json) : string :=
  "jData=" +:+ url_encode match p with JNull => "{}" | p => dump p end.

Definition incomplete_error : Error :=
  mkError (category needs_reauth_error) (action needs_reauth_error)
    "kotak: session bundle incomplete; re-establish required" (broker_code needs_reauth_error).

Definition build_request (m : Method) (p b : string) (with_server_id : bool) (bundle : KotakSessionBundle) : HttpRequest :=
  mkRequest m p (if with_server_id then [("sId", hs_server_id bundle)] else [])
    (auth_headers bundle ++ if String.eqb b "" then [] else [("Content-Type", "application/x-www-form-urlencoded")]) b.

Definition issue (m : Method) (p b : string) (with_server_id : bool) (s : KotakRestClient) : result HttpResponse * KotakRestClient :=
  match bundle_provider with
  | None => (Err (make_error Internal "kotak: no session bundle provider configured" ""), s)
  | Some provider =>
      match provider (sent s) with
      | Err e => (Err e, s)
      | Ok bundle =>
          if negb (complete bundle) then (Err incomplete_error, s)
          else
            let q := build_request m p b with_server_id bundle in
            (http (sent s) q, mkKotakClient (last_rate_limit s) (sent s ++ [q]))
      end
  end.

Definition guard_mutation (is_mutation : bool) (e : Error) : Error :=
  if is_mutation && bool_decide (action e = RetrySafe) then mkError (category e) ReconcileFirst (message e) (broker_code e) else e.

Definition request_json (m : Method) (p b : string) (with_server_id is_mutation : bool) (s : KotakRestClient) :
    result json * KotakRestClient :=
  match issue m p b with_server_id (mkKotakClient no_rate_limit (sent s)) with
  | (Err e, s) => (Err (guard_mutation is_mutation e), s)
  | (Ok r, s) =>
      let s := mkKotakClient (extract_rate_limit r) (sent s) in
      let http_code := "HTTP " +:+ pretty (status_code r) in
      if negb (is_kotak_success parse r) then (Err (guard_mutation is_mutation (map_kotak_error parse r)), s)
      else
        (match parse (resp_body r) with
         | None => Err (make_error CatUnknown "kotak: malformed response body" http_code)
         | Some (JObject fields) => Ok (default (JObject fields) (field_get fields "data"))
         | Some (JArray elements) => Ok (JArray elements)
         | Some _ => Err (make_error CatUnknown "kotak: unexpected response shape" http_code)
         end, s)
  end.

Definition request_text (m : Method) (p : string) (s : KotakRestClient) : result string * KotakRestClient :=
  match issue m p "" false (mkKotakClient no_rate_limit (sent s)) with
  | (Err e, s) => (Err e, s)
  | (Ok r, s) =>
      let s := mkKotakClient (extract_rate_limit r) (sent s) in
      let env := parse_kotak_envelope parse (resp_body r) in
      (if (status_code r <? 200) || (300 <=? status_code r) then Err (map_kotak_error parse r)
       else if parsed env && (has_fault env || has_error env || (has_stat env && negb (stat_ok env))) then Err (map_kotak_error parse r)
       else Ok (resp_body r), s)
  end.

Definition place_order (p : json) (s : KotakRestClient) : result json * KotakRestClient :=
  request_json Post kPlaceOrder (j_data_body p) true true s.
Definition modify_order (p : json) (s : KotakRestClient) : result json * KotakRestClient :=
  request_json Post kModifyOrder (j_data_body p) true true s.
Definition cancel_order (p : json) (s : KotakRestClient) : result json * KotakRestClient :=
  request_json Post kCancelOrder (j_data_body p) true true s.
Definition orders (s : KotakRestClient) : result json * KotakRestClient := request_json Get kOrderBook "" true false s.
Definition trades (s : KotakRestClient) : result json * KotakRestClient := request_json Get kTradeBook "" true false s.
Definition positions (s : KotakRestClient) : result json * KotakRestClient := request_json Get kPositions "" true false s.
Definition holdings (s : KotakRestClient) : result json * KotakRestClient := request_json Get kHoldings "" false false s.
Definition margins (p : json) (s : KotakRestClient) : result json * KotakRestClient :=
  request_json Post kLimits (j_data_body p) true false s.
Definition scrip_master (s : KotakRestClient) : result string * KotakRestClient := request_text Get kScripMaster s.

(** ** The adapter on the client *)

(** A parameter map as the object the adapter passes, its keys in byte order. *)
Definition params_json (p : params) : json :=
  JObject ((fun kv => (kv.1, JString kv.2)) <$> by_key p).

Definition client_call (c : KotakCall) (s : KotakRestClient) : result json * KotakRestClient :=
  match c with
  | CallPlace p => place_order (params_json p) s
  | CallModify p => modify_order (params_json p) s
  | CallCancel p => cancel_order (params_json p) s
  | CallOrders => orders s
  | CallTrades => trades s
  | CallPositions => positions s
  | CallMargins p => margins (params_json p) s
  end.

Definition client_after (h : list KotakCall) : KotakRestClient := foldl (fun s c => (client_call c s).2) new_client h.

Definition client_rest (h : list KotakCall) (c : KotakCall) : result json := (client_call c (client_after h)).1.
End Client.

(** ** What goes on the wire *)

(** The parameters a jData body carries, as a server decodes them. *)
Definition jdata_text (b : string) : option string :=
  if bool_decide (take 6 (chars b) = chars "jData=") then str <$> percent_decode (drop 6 (chars b)) else None.

Section Wire.
  Context (parse : string -> option json) (dump : json -> string).
  Context (http : list HttpRequest -> HttpRequest -> result HttpResponse).
  Context (provider : option (list HttpRequest -> result KotakSessionBundle)).

Abbreviation call := (client_call parse dump http provider).
Abbreviation after := (client_after parse dump http provider).
Abbreviation answer := (client_rest parse dump http provider).

Lemma jdata_roundtrip j : jdata_text (j_data_body dump j) = Some match j with JNull => "{}" | j => dump j end.
Proof.
  unfold jdata_text, j_data_body. rewrite chars_app. set (v := match j with JNull => "{}" | j => dump j end).
  change (chars "jData=" ++ chars (url_encode v)) with (chars "jData=" ++ chars (url_encode v)).
  rewrite (take_app_length' (chars "jData=")), (drop_app_length' (chars "jData=")), bool_decide_true, percent_roundtrip by done.
  cbn. by rewrite str_chars.
Qed.

(** The method, the path, whether the server id goes along, and the parameters
    of a call; whether it changes orders. *)
Definition request_shape (c : KotakCall) : Method * string * option params :=
  match c with
  | CallPlace p => (Post, kPlaceOrder, Some p)
  | CallModify p => (Post, kModifyOrder, Some p)
  | CallCancel p => (Post, kCancelOrder, Some p)
  | CallOrders => (Get, kOrderBook, None)
  | CallTrades => (Get, kTradeBook, None)
  | CallPositions => (Get, kPositions, None)
  | CallMargins p => (Post, kLimits, Some p)
  end.

Definition is_mutation (c : KotakCall) : bool := match c with CallPlace _ | CallModify _ | CallCancel _ => true | _ => false end.

(** The request of a call under a bundle. *)
Definition request_of (c : KotakCall) (q : HttpRequest) : Prop :=
  exists b, complete b = true /\ query q = [("sId", hs_server_id b)] /\ (forall h, h ∈ auth_headers b -> h ∈ headers q)
  /\ method q = (request_shape c).1.1 /\ path q = (request_shape c).1.2
  /\ match (request_shape c).2 with
     | Some p => jdata_text (body q) = Some (dump (params_json p))
     | None => body q = ""
     end.

Lemma request_json_spec m p b mut s :
  let '(r, s') := request_json parse http provider m p b true mut s in
  (sent s' = sent s \/ exists bundle, complete bundle = true /\ sent s' = sent s ++ [build_request m p b true bundle])
  /\ (mut = true -> forall e, r = Err e -> action e <> RetrySafe).
Proof.
  unfold request_json, issue.
  assert (G : forall e, mut = true -> action (guard_mutation mut e) <> RetrySafe).
  { intros e ->. unfold guard_mutation. cbn [andb]. by case_bool_decide. }
  assert (C : forall m c, action (make_error CatUnknown m c) <> RetrySafe) by done.
  destruct provider as [prov|]; cbn [sent]; [|split; [by left|intros Hm e [= <-]; by apply G]].
  destruct (prov (sent s)) as [bundle|e']; [|split; [by left|intros Hm e [= <-]; by apply G]].
  destruct (complete bundle) eqn:Ec; cbn [negb]; [|split; [by left|intros Hm e [= <-]; by apply G]].
  destruct (http _ _) as [r|e']; cbn [sent]; [|split; [right; by exists bundle|intros Hm e [= <-]; by apply G]].
  destruct (is_kotak_success parse r); cbn [negb]; [|split; [right; by exists bundle|intros Hm e [= <-]; by apply G]].
  split; [right; by exists bundle|]. intros _ e He. destruct (parse (resp_body r)) as [[]|]; simplify_eq; by apply C.
Qed.

Lemma build_request_of c bundle b :
  complete bundle = true ->
  match (request_shape c).2 with Some p => b = j_data_body dump (params_json p) | None => b = "" end ->
  request_of c (build_request (request_shape c).1.1 (request_shape c).1.2 b true bundle).
Proof.
  intros Hc Hb. exists bundle. split_and!; try done.
  - intros h Hin. cbn [build_request headers]. apply elem_of_app. by left.
  - cbn [build_request body]. destruct (request_shape c).2 as [p|]; [|done]. rewrite Hb. apply jdata_roundtrip.
Qed.

(** A call sends at most one request, the documented one, with the headers
    and the server id of a complete bundle and a body that decodes to exactly its
    parameters; and a call that places, modifies or cancels never fails in a way
    that may be retried, whatever the transport or the broker answered. *)
Theorem client_calls c s :
  let '(r, s') := call c s in
  (sent s' = sent s \/ exists q, sent s' = sent s ++ [q] /\ request_of c q)
  /\ (is_mutation c = true -> forall e, r = Err e -> action e <> RetrySafe).
Proof.
  assert (H : forall b mut, match (request_shape c).2 with Some p => b = j_data_body dump (params_json p) | None => b = "" end ->
    let '(r, s') := request_json parse http provider (request_shape c).1.1 (request_shape c).1.2 b true mut s in
    (sent s' = sent s \/ exists q, sent s' = sent s ++ [q] /\ request_of c q) /\ (mut = true -> forall e, r = Err e -> action e <> RetrySafe)).
  { intros b mut Hb. pose proof (request_json_spec (request_shape c).1.1 (request_shape c).1.2 b mut s) as H.
    destruct (request_json _ _ _ _ _ _ _ _ _) as [r s']. destruct H as [H Hm]. split; [|done].
    destruct H as [?|(bundle & Hc & Hs)]; [by left|right]. eexists. split; [done|]. by apply build_request_of. }
  destruct c; exact (H _ _ eq_refl).
Qed.

Lemma kotak_wire_app h cs :
  exists new, sent (after (h ++ cs)) = sent (after h) ++ new /\ (length new <= length cs)%nat /\
  Forall (fun q => exists c, c ∈ cs /\ request_of c q) new.
Proof.
  induction cs as [|c cs IH] using rev_ind; [exists []; rewrite !app_nil_r; auto|].
  destruct IH as (new & E & Hl & Hf). unfold client_after in *. rewrite app_assoc, foldl_app. cbn [foldl].
  pose proof (client_calls c (foldl (fun s c => (call c s).2) new_client (h ++ cs))) as H.
  destruct (call c _) as [r s']. destruct H as [H _]. cbn [snd].
  assert (Hf' : Forall (fun q => exists c', c' ∈ cs ++ [c] /\ request_of c' q) new).
  { eapply Forall_impl; [exact Hf|]. intros q (c' & ? & ?). exists c'. split; [|done]. apply elem_of_app. by left. }
  destruct H as [->|(q & -> & Hq)].
  - exists new. rewrite E, length_app. split; [done|]. split; [simpl; lia|done].
  - exists (new ++ [q]). rewrite E, app_assoc, !length_app. split; [done|]. split; [simpl; lia|].
    apply Forall_app. split; [done|]. repeat constructor. exists c. split; [|done]. apply elem_of_app. right. by left.
Qed.

(** ** The adapter over the wire *)

Lemma mutation_error h c e : is_mutation c = true -> answer h c = Err e -> action e <> RetrySafe.
Proof.
  intros Hm He. unfold client_rest in He. pose proof (client_calls c (after h)) as H.
  destruct (call c (after h)) as [r s']. by apply H.
Qed.

(** C34: no order is sent twice on a retry: with the real client, over any
    transport and any session, an adapter's place, modify or cancel that fails
    never tells its caller that it is safe to retry. *)
Theorem mutations_not_retried i id a h :
  let broker := client_rest parse dump http provider in
  (forall e, (place broker i a h).1.1 = Err e -> action e <> RetrySafe)
  /\ (forall e, (modify broker id i a h).1.1 = Err e -> action e <> RetrySafe)
  /\ (forall e, (cancel broker id h).1 = Err e -> action e <> RetrySafe).
Proof.
  cbn zeta.
  split_and!; intros e.
  - unfold place, KotakAdapter.issue. destruct (answer h (CallPlace _)) as [r|e'] eqn:E; cbn [fst].
    + destruct (String.eqb _ ""); [|done]. by intros [= <-].
    + intros [= <-]. by eapply mutation_error in E.
  - unfold modify, KotakAdapter.issue. destruct (answer h (CallModify _)) as [r|e'] eqn:E; cbn [fst]; [done|].
    intros [= <-]. by eapply mutation_error in E.
  - unfold cancel, KotakAdapter.issue. destruct (answer h (CallCancel _)) as [r|e'] eqn:E; cbn [fst]; [done|].
    intros [= <-]. by eapply mutation_error in E.
Qed.

(** the flatten through the real client, over any transport. It sends at most
    three requests: the order book, a cancel of the parent and nothing else, and
    an order of the opposite side for exactly the quantity the book reports
    filled, in the parent's symbol, product and segment; an order is sent only
    when the book shows no exit in force; and no request modifies an order. *)
Theorem kotak_flatten_on_wire id lower upper a h :
  let '(r, a', h') := square_off_banded answer id lower upper a h in
  exists new, sent (after h') = sent (after h) ++ new /\ (length new <= 3)%nat
  /\ Forall (fun q =>
       request_of CallOrders q \/ request_of (CallCancel (build_cancel_params id)) q
       \/ exists elements parent filled ordered s p, answer h CallOrders = Ok (JArray elements)
            /\ actionable a id (read_rows elements) parent filled ordered /\ 0 < filled
            /\ no_exit_seen a id parent filled (read_rows elements)
            /\ closing parent filled s p /\ request_of (CallPlace p) q) new.
Proof.
  pose proof (kotak_flatten_run answer id lower upper a h) as Hr.
  destruct (square_off_banded answer id lower upper a h) as [[r a'] h']. destruct Hr as (cs & -> & Hfl).
  destruct (kotak_wire_app h cs) as (new & E & Hl & Hf). exists new. split; [done|].
  assert (P : forall parent filled ordered cs', pulled answer id parent filled ordered h cs' ->
    (length cs' <= 2)%nat /\ forall c, c ∈ cs' -> c = CallOrders \/ c = CallCancel (build_cancel_params id)).
  { intros ? ? ? ? [[_ ->]|(_ & -> & _)]; (split; [simpl; lia|]); intros c; rewrite !elem_of_cons, elem_of_nil; tauto. }
  assert (Q : (length cs <= 3)%nat /\ forall c, c ∈ cs -> c = CallOrders \/ c = CallCancel (build_cancel_params id) \/
    exists elements parent filled ordered s p, answer h CallOrders = Ok (JArray elements)
      /\ actionable a id (read_rows elements) parent filled ordered /\ 0 < filled
      /\ no_exit_seen a id parent filled (read_rows elements)
      /\ closing parent filled s p /\ c = CallPlace p).
  { destruct Hfl as [? ? Hc|? ? ? ? ?|? ? ? ? ? ? Hp|? ? ? ? ? ? ? ? ? Hp|elements parent filled ordered cs s p r Ho Ha Hpos Hp Hne Hcl _].
    - destruct Hc as [[-> _]| ->]; (split; [simpl; lia|]); intros c; rewrite ?elem_of_cons, elem_of_nil; tauto.
    - split; [simpl; lia|]. intros c. rewrite !elem_of_cons, elem_of_nil. tauto.
    - destruct (P _ _ _ _ Hp). split; [lia|]. intros c Hin. naive_solver.
    - destruct (P _ _ _ _ Hp). split; [lia|]. intros c Hin. naive_solver.
    - destruct (P _ _ _ _ Hp) as [Hlen Hin]. rewrite length_app. split; [simpl; lia|].
      intros c [Hc|Hc]%elem_of_app; [destruct (Hin c Hc); auto|]. apply list_elem_of_singleton in Hc as ->. right. right. by eauto 12. }
  destruct Q as [Hlen Q]. split; [lia|]. eapply Forall_impl; [exact Hf|]. intros q (c & Hin & Hreq).
  destruct (Q c Hin) as [->|[->|(elements & parent & filled & ordered & s & p & ? & ? & ? & ? & ? & ->)]]; [by left|by right; left|].
  right. right. exists elements, parent, filled, ordered, s, p. by split_and!.
Qed.
End Wire.

(** A throttled order is not sent again, where a throttled read may be. *)
Example throttled_place :
  let http := fun (_ : list HttpRequest) (_ : HttpRequest) => Ok (mkResponse 429 [] "") in
  let rest := client_rest (fun _ => None) (fun _ => "{}") http (Some (fun _ => Ok (mkBundle "a" "t" "s" "h" []))) in
  (exists e, rest [] (CallPlace ∅) = Err e /\ action e = ReconcileFirst) /\ (exists e, rest [] CallOrders = Err e /\ action e = RetrySafe).
Proof. split; eexists; split; reflexivity. Qed.
