(* ===== verification/Programs.v ===== *)
(** * Programs: trees of operations

    A program is a tree of operations on its surroundings, each continued with the
    answer; here for any operations and answers. The runs of a program under every
    answer, the operations it makes, and a rely-guarantee logic for programs that
    share a world. [FileOps] and [SqlOps] are the two instances. *)

From S2P Require Import Prelude.

Section Prog.
  Context {Op : Type} (answer : Op -> Type).

Inductive Prog (A : Type) :=
  | Ret (a : A)
  | Do (o : Op) (next : answer o -> Prog A).
End Prog.
Arguments Ret {Op answer A} a.
Arguments Do {Op answer A} o next.

Section Programs.
  Context {Op : Type} {answer : Op -> Type}.
  Abbreviation prog := (Prog answer).

Fixpoint seq_prog {A B} (p : prog A) (f : A -> prog B) : prog B :=
  match p with
  | Ret a => f a
  | Do o next => Do o (fun a => seq_prog (next a) f)
  end.

End Programs.

Declare Scope prog_scope.
Delimit Scope prog_scope with prog.
Notation "'let*' x := p 'in' q" := (seq_prog p (fun x => q)) (at level 200, x name, q at level 200) : prog_scope.

(** ** All the runs of a program *)

Section Runs.
  Context {Op : Type} {answer : Op -> Type}.
  Abbreviation prog := (Prog answer).


(** What happened so far, the latest last. *)
Definition Event : Type := { o : Op & answer o }.
Definition ev (o : Op) (a : answer o) : Event := existT o a.

(** [Q] holds of the events and the result of every run, whatever the answers. *)
Fixpoint all_runs {A} (p : prog A) (past : list Event) (Q : list Event -> A -> Prop) : Prop :=
  match p with
  | Ret a => Q past a
  | Do o next => forall a : answer o, all_runs (next a) (past ++ [ev o a]) Q
  end.

Lemma all_runs_seq {A B} (p : prog A) (f : A -> prog B) : forall past Q,
  all_runs (seq_prog p f) past Q <-> all_runs p past (fun past a => all_runs (f a) past Q).
Proof.
  induction p as [a|o next IH]; intros past Q; cbn [seq_prog all_runs]; [done|].
  split; intros H a; [apply IH, H|apply IH, H].
Qed.

Lemma all_runs_mono {A} (p : prog A) : forall past (Q R : list Event -> A -> Prop),
  (forall past a, Q past a -> R past a) -> all_runs p past Q -> all_runs p past R.
Proof.
  induction p as [a|o next IH]; intros past Q R H; cbn [all_runs]; [apply H|]. intros Hq a. by eapply IH.
Qed.

(** Every operation of every run satisfies [P]. *)
Fixpoint all_ops {A} (P : Op -> Prop) (p : prog A) : Prop :=
  match p with Ret _ => True | Do o next => P o /\ forall a, all_ops P (next a) end.

Lemma all_ops_seq {A B} (P : Op -> Prop) (p : prog A) (f : A -> prog B) :
  all_ops P p -> (forall a, all_ops P (f a)) -> all_ops P (seq_prog p f).
Proof. induction p as [a|o next IH]; cbn [seq_prog all_ops]; [naive_solver|]. intros [Ho Hn] Hf. split; [done|]. intros a. by apply IH. Qed.

(** What went before does not change what comes. *)
Lemma all_runs_prefix {A} (p : prog A) : forall past old Q,
  all_runs p past Q -> all_runs p (old ++ past) (fun past' a => exists new, past' = old ++ new /\ Q new a).
Proof.
  induction p as [a|o next IH]; intros past old Q; cbn [all_runs]; [intros H; by exists past|].
  intros H a. rewrite <- app_assoc. by apply IH.
Qed.

Definition op_of (e : Event) : Op := projT1 e.

Lemma all_runs_ops {A} (P : Op -> Prop) (p : prog A) : forall past,
  all_ops P p -> all_runs p past (fun past' _ => exists new, past' = past ++ new /\ Forall (fun e => P (op_of e)) new).
Proof.
  induction p as [a|o next IH]; intros past; cbn [all_ops all_runs]; [exists []; by rewrite app_nil_r|].
  intros [Ho Hn] a. eapply all_runs_mono; [|by apply IH]. intros past' _ (new & -> & Hnew). exists (ev o a :: new).
  split; [by rewrite <- app_assoc|by constructor].
Qed.

(** The events of a sequence, each part from its own start. *)
Lemma all_runs_from {A} (p : prog A) past (Q : list Event -> A -> Prop) :
  all_runs p [] (fun new a => Q (past ++ new) a) -> all_runs p past Q.
Proof.
  intros H. assert (K := all_runs_prefix p [] past _ H). rewrite app_nil_r in K. eapply all_runs_mono; [|exact K].
  by intros ? a (new & -> & ?).
Qed.

Lemma runs_then {A B} (p : prog A) (f : A -> prog B) (R : list Event -> A -> Prop) (Q : list Event -> B -> Prop) :
  all_runs p [] R -> (forall old a, R old a -> all_runs (f a) [] (fun new b => Q (old ++ new) b)) -> all_runs (seq_prog p f) [] Q.
Proof. intros Hp Hf. apply all_runs_seq. eapply all_runs_mono; [|exact Hp]. intros old a H. apply all_runs_from. by apply Hf. Qed.

Lemma runs_do {A} o (next : answer o -> prog A) (Q : list Event -> A -> Prop) :
  (forall a, all_runs (next a) [] (fun new b => Q (ev o a :: new) b)) -> all_runs (Do o next) [] Q.
Proof. intros H a. apply all_runs_from. apply H. Qed.

Lemma all_runs_and {A} (p : prog A) : forall past Q R, all_runs p past Q -> all_runs p past R -> all_runs p past (fun past a => Q past a /\ R past a).
Proof. induction p as [a|o next IH]; intros past Q R; cbn [all_runs]; [done|]. intros Hq Hr a. by apply IH. Qed.

End Runs.
Arguments Event {Op} answer.

(** ** The states a program goes through *)

Section States.
  Context {Op : Type} {answer : Op -> Type} {World : Type} (performs : forall o : Op, World -> answer o -> World -> Prop).
  Abbreviation prog := (Prog answer).

(** [I] holds after every operation of every run, where the program may be killed;
    [Q] holds at the end. *)
Fixpoint all_states {A} (p : prog A) (past : list (Event answer)) (w : World)
    (I : list (Event answer) -> World -> Prop) (Q : list (Event answer) -> World -> A -> Prop) : Prop :=
  match p with
  | Ret a => Q past w a
  | Do o next => forall a w', performs o w a w' ->
      I (past ++ [ev o a]) w' /\ all_states (next a) (past ++ [ev o a]) w' I Q
  end.

Lemma all_states_mono {A} (p : prog A) I (Q R : list (Event answer) -> World -> A -> Prop) :
  (forall past w a, Q past w a -> R past w a) -> forall past w, all_states p past w I Q -> all_states p past w I R.
Proof.
  intros H. induction p as [a|o next IH]; intros past w; cbn [all_states]; [apply H|]. intros Hq a w' Hp.
  destruct (Hq a w' Hp) as [Hi Hn]. split; [done|]. by apply IH.
Qed.

Lemma all_states_weaken {A} (p : prog A) (I J : list (Event answer) -> World -> Prop) Q :
  (forall past w, I past w -> J past w) -> forall past w, all_states p past w I Q -> all_states p past w J Q.
Proof.
  intros H. induction p as [a|o next IH]; intros past w; cbn [all_states]; [done|]. intros Hq a w' Hp.
  destruct (Hq a w' Hp) as [Hi Hn]. split; [by apply H|by apply IH].
Qed.

Lemma all_states_seq {A B} (p : prog A) (f : A -> prog B) I (Q : list (Event answer) -> World -> A -> Prop) R :
  (forall past w a, Q past w a -> all_states (f a) past w I R) ->
  forall past w, all_states p past w I Q -> all_states (seq_prog p f) past w I R.
Proof.
  intros H. induction p as [a|o next IH]; intros past w; cbn [seq_prog all_states]; [apply H|]. intros Hq a w' Hp.
  destruct (Hq a w' Hp) as [Hi Hn]. split; [done|]. by apply IH.
Qed.
End States.

(** ** Programs among other programs

    A rely-guarantee logic. [own] is what a process has to itself; [mine own w] is
    what that says of a world, and every other process must preserve it;
    [guarantee] is what an operation of this process promises the others. *)
Section RelyGuarantee.
  Context {Op : Type} {answer : Op -> Type} {World : Type} (performs : forall o : Op, World -> answer o -> World -> Prop).
  Context {Own : Type} (mine : Own -> World -> Prop) (guarantee : Own -> World -> Own -> World -> Prop).
  Abbreviation prog := (Prog answer).

(** Run whatever the others do between the operations: after each operation the
    process owns what [keep] allows and has kept its promise; it ends with what
    [post] says. *)
Fixpoint safe {A} (keep : Own -> Prop) (post : Own -> A -> Prop) (own : Own) (q : prog A) : Prop :=
  match q with
  | Ret a => post own a
  | Do o next => forall w a w', mine own w -> performs o w a w' ->
      exists own', keep own' /\ mine own' w' /\ guarantee own w own' w' /\ safe keep post own' (next a)
  end.

(** One that never harms what is owned. *)
Definition harmless (keep : Own -> Prop) (o : Op) : Prop :=
  forall own w a w', keep own -> mine own w -> performs o w a w' -> mine own w' /\ guarantee own w own w'.

Lemma safe_do {A} (keep : Own -> Prop) (post : Own -> A -> Prop) own o next :
  harmless keep o -> keep own -> (forall w a w', mine own w -> performs o w a w' -> safe keep post own (next a)) ->
  safe keep post own (Do o next).
Proof. intros Hh Hk H w a w' Hm Hp. exists own. destruct (Hh own w a w') as [? ?]; [done..|]. split_and!; [done..|]. exact (H w a w' Hm Hp). Qed.

Lemma safe_seq {A B} (keep : Own -> Prop) (mid : Own -> A -> Prop) (post : Own -> B -> Prop) (f : A -> prog B) (q : prog A) :
  (forall own a, mid own a -> safe keep post own (f a)) -> forall own, safe keep mid own q -> safe keep post own (seq_prog q f).
Proof.
  intros Hf. induction q as [a|o next IH]; intros own; cbn [seq_prog safe]; [apply Hf|]. intros H w a w' Hm Hp.
  destruct (H w a w' Hm Hp) as (own' & Hk & Hm' & Hg & Hs). exists own'. split_and!; [done..|]. by apply IH.
Qed.

(** A program of harmless operations keeps what it owns. *)
Lemma safe_harmless {A} (keep : Own -> Prop) (post : Own -> A -> Prop) own (q : prog A) : forall past,
  keep own -> all_ops (harmless keep) q -> all_runs q past (fun _ a => post own a) -> safe keep post own q.
Proof.
  induction q as [a|o next IH]; intros past Hk Ho Hr; [done|]. destruct Ho as [Ho Hn].
  apply safe_do; [done..|]. intros w a w' _ _. by eapply IH.
Qed.
End RelyGuarantee.
