(* ===== verification/FileOps.v ===== *)
(** * FileOps: programs over files shared by several processes

    The file operations the lock (src/src/platform/file_lock.cpp) and the shared
    cache (src/src/accounts/shared_refdata_cache.cpp) make, one atomic step each;
    programs as trees of operations, each continued with the system's answer; and
    what an answer may be in a world of files. A process may stop between any two
    operations. *)

From S2P Require Import Prelude Errors.
From S2P Require Import Programs.

(** What exclusive creation reports (file_lock.cpp). *)
Inductive CreateOutcome := Created | Exists | CreateFailed.

Inductive Op :=
  | Stamp (pid : Z)
  | CreateExclusive (path payload : string)
  | ReadText (path : string)
  | ReadMtime (path : string)
  | ClockNow
  | RenameFile (from into : string)
  | RemoveFile (path : string)
  | RemoveCounted (path : string)
  | FileExists (path : string)
  | SetMtime (path : string)
  | MakeParent (path : string)
  | MakeDirs (path : string)
  | ListDir (path : string)
  | OpenTemp (path : string)
  | WriteTemp (path contents : string)
  | SyncTemp (path : string)
  | CloseTemp (path : string)
  | Upstream
  | Wait (attempt : Z).

(** The type of an operation's answer: a boolean says whether it succeeded; an
    absent text, time or existence is an error of the system; a counted removal also
    says whether there was a file. [Stamp] answers the
    time as text, the nanoseconds and the process's counter. *)
Definition answer (o : Op) : Type :=
  match o with
  | Stamp _ => string * Z * Z
  | CreateExclusive _ _ => CreateOutcome
  | ReadText _ => option string
  | ReadMtime _ => option Z
  | ClockNow => Z
  | FileExists _ | RemoveCounted _ => option bool
  | ListDir _ => option (list string)
  | Upstream => result string
  | Wait _ => unit
  | RenameFile _ _ | RemoveFile _ | SetMtime _ | MakeParent _ | MakeDirs _ | OpenTemp _ | WriteTemp _ _ | SyncTemp _ | CloseTemp _ => bool
  end.

Abbreviation Prog := (Prog answer).
Abbreviation Event := (Event answer).
Abbreviation ev := (@ev Op answer).
Abbreviation op_of := (@op_of Op answer).
Notation "'let!' x := o 'in' p" := (@Do Op answer _ o (fun x => p)) (at level 200, x name, p at level 200) : prog_scope.

(** ** Worlds *)

Record File := mkFile { text : string; mtime : Z }.

(** The files by path, the file system's clock, the nonces issued so far and the
    payloads the upstream has answered. *)
Record World := mkWorld { files : gmap string File; clock : Z; issued : gset string; downloaded : gset string }.

Definition with_files (f : gmap string File) (w : World) : World := mkWorld f (clock w) (issued w) (downloaded w).
Definition note_download (r : result string) (w : World) : World :=
  match r with Ok t => mkWorld (files w) (clock w) (issued w) ({[t]} ∪ downloaded w) | Err _ => w end.
Definition put_file (path contents : string) (w : World) : World :=
  with_files (<[path := mkFile contents (clock w)]> (files w)) w.

(** A per-acquisition ownership token. *)
Definition make_nonce (pid ns counter : Z) : string := pretty pid +:+ "-" +:+ pretty ns +:+ "-" +:+ pretty counter.

(** A value a lock payload can carry on one line. *)
Definition line_text (s : string) : Prop := s <> "" /\ newline ∉ chars s /\ last (chars s) <> Some "013"%char.

(** The answers the system may give and the worlds they lead to. Every operation
    may fail; a failed write may leave any prefix; pid, time and counter make a
    stamp's nonce one that was never issued. *)
Definition performs (o : Op) (w : World) : answer o -> World -> Prop :=
  match o return answer o -> World -> Prop with
  | Stamp pid => fun a w' =>
      let '(at_, ns, counter) := a in
      line_text at_ /\ make_nonce pid ns counter ∉ issued w
      /\ w' = mkWorld (files w) (clock w) ({[make_nonce pid ns counter]} ∪ issued w) (downloaded w)
  | CreateExclusive path payload => fun a w' =>
      match a with
      | Created => files w !! path = None /\ w' = put_file path payload w
      | Exists => is_Some (files w !! path) /\ w' = w
      | CreateFailed => w' = w \/ (files w !! path = None /\ exists k, w' = put_file path (str_take k payload) w)
      end
  | ReadText path => fun a w' =>
      w' = w /\ match a with Some t => exists f, files w !! path = Some f /\ text f = t | None => True end
  | ReadMtime path => fun a w' =>
      w' = w /\ match a with Some m => exists f, files w !! path = Some f /\ mtime f = m | None => True end
  | ClockNow => fun a w' => w' = w /\ a = clock w
  | RenameFile from into => fun a w' =>
      if a then exists f, files w !! from = Some f /\ w' = with_files (<[into := f]> (delete from (files w))) w else w' = w
  | RemoveFile path => fun a w' => if a then w' = with_files (delete path (files w)) w else w' = w
  | RemoveCounted path => fun a w' =>
      match a with
      | Some b => b = bool_decide (is_Some (files w !! path)) /\ w' = with_files (delete path (files w)) w
      | None => w' = w
      end
  | FileExists path => fun a w' =>
      w' = w /\ match a with Some b => b = bool_decide (is_Some (files w !! path)) | None => True end
  | SetMtime path => fun a w' =>
      if a then exists f, files w !! path = Some f /\ w' = with_files (<[path := mkFile (text f) (clock w)]> (files w)) w else w' = w
  | MakeParent _ | MakeDirs _ | SyncTemp _ | CloseTemp _ => fun _ w' => w' = w
  | ListDir _ => fun _ w' => w' = w
  | OpenTemp path => fun a w' => if a then w' = put_file path "" w else w' = w
  | WriteTemp path contents => fun a w' =>
      match files w !! path with
      | None => w' = w
      | Some _ => if a then w' = put_file path contents w else exists k, w' = put_file path (str_take k contents) w
      end
  | Upstream => fun a w' => w' = note_download a w
  | Wait _ => fun _ w' => w' = w
  end.

(** A run of the operations in which nothing fails, for concrete traces. *)
Definition perform (fetched : result string) (o : Op) (w : World) : answer o * World :=
  match o return answer o * World with
  | Stamp pid =>
      let counter := Z.of_nat (size (issued w)) + 1 in
      (("2026-01-05T09:00:00Z", clock w, counter),
       mkWorld (files w) (clock w) ({[make_nonce pid (clock w) counter]} ∪ issued w) (downloaded w))
  | CreateExclusive path payload =>
      match files w !! path with None => (Created, put_file path payload w) | Some _ => (Exists, w) end
  | ReadText path => (text <$> files w !! path, w)
  | ReadMtime path => (mtime <$> files w !! path, w)
  | ClockNow => (clock w, w)
  | RenameFile from into =>
      match files w !! from with
      | Some f => (true, with_files (<[into := f]> (delete from (files w))) w)
      | None => (false, w)
      end
  | RemoveFile path => (true, with_files (delete path (files w)) w)
  | RemoveCounted path => (Some (bool_decide (is_Some (files w !! path))), with_files (delete path (files w)) w)
  | FileExists path => (Some (bool_decide (is_Some (files w !! path))), w)
  | SetMtime path =>
      match files w !! path with
      | Some f => (true, with_files (<[path := mkFile (text f) (clock w)]> (files w)) w)
      | None => (false, w)
      end
  | MakeParent _ | MakeDirs _ | SyncTemp _ | CloseTemp _ => (true, w)
  | ListDir _ => (Some (map_to_list (files w)).*1, w)
  | OpenTemp path => (true, put_file path "" w)
  | WriteTemp path contents => (true, match files w !! path with None => w | Some _ => put_file path contents w end)
  | Upstream => (fetched, note_download fetched w)
  | Wait _ => (tt, w)
  end.

Definition stamps_fresh (o : Op) (w : World) : Prop :=
  match o with Stamp pid => make_nonce pid (clock w) (Z.of_nat (size (issued w)) + 1) ∉ issued w | _ => True end.

(** It is one of the runs the system allows. *)
Lemma perform_performs fetched o w : stamps_fresh o w -> performs o w (perform fetched o w).1 (perform fetched o w).2.
Proof.
  destruct o; cbn [perform performs stamps_fresh]; intros H; try done.
  - split_and!; [|done|done]. split_and!; [done| |done]. by apply (bool_decide_eq_true_1 _).
  - destruct (files w !! path) eqn:E; cbn [fst snd]; [|done]. by split; [eexists|].
  - cbn [fst snd]. split; [done|]. destruct (files w !! path) eqn:E; [|done]. cbn. by eexists.
  - cbn [fst snd]. split; [done|]. destruct (files w !! path) eqn:E; [|done]. cbn. by eexists.
  - destruct (files w !! from) eqn:E; cbn [fst snd]; [|done]. by eexists.
  - destruct (files w !! path) eqn:E; cbn [fst snd]; [|done]. by eexists.
  - cbn [fst snd]. by destruct (files w !! path).
Qed.

Definition fresh_op (o : Op) (w : World) : bool :=
  match o with Stamp pid => bool_decide (make_nonce pid (clock w) (Z.of_nat (size (issued w)) + 1) ∉ issued w) | _ => true end.

Lemma performed fetched o w a w' : fresh_op o w = true -> perform fetched o w = (a, w') -> performs o w a w'.
Proof.
  intros Hf E. assert (K := perform_performs fetched o w). rewrite E in K. apply K.
  destruct o; cbn [stamps_fresh fresh_op] in *; try done. by apply bool_decide_eq_true in Hf.
Qed.

(** The only files an operation changes satisfy [P]; it issues and downloads
    nothing. *)
Definition mutates_only (P : string -> Prop) (o : Op) : Prop :=
  match o with
  | Stamp _ | Upstream => False
  | CreateExclusive p _ | RemoveFile p | RemoveCounted p | SetMtime p | OpenTemp p | WriteTemp p _ => P p
  | RenameFile p q => P p /\ P q
  | _ => True
  end.

Lemma mutates_only_spec P o w a w' path :
  mutates_only P o -> performs o w a w' -> ~ P path ->
  files w' !! path = files w !! path /\ issued w' = issued w /\ downloaded w' = downloaded w.
Proof.
  intros Hm Hp Hn.
  assert (N : forall q c v, P q -> files (put_file q c v) !! path = files v !! path).
  { intros q c v Hq. apply lookup_insert_ne. congruence. }
  assert (D : forall q v, P q -> files (with_files (delete q (files v)) v) !! path = files v !! path).
  { intros q v Hq. apply lookup_delete_ne. congruence. }
  destruct o; cbn [mutates_only performs] in *; try done; try by (destruct Hp as [-> _] || subst).
  - destruct a; [destruct Hp as [_ ->]|destruct Hp as [_ ->]|destruct Hp as [->|[_ [k ->]]]]; by rewrite ?N.
  - destruct Hm. destruct a; [|by subst]. destruct Hp as (f & _ & ->). split; [|done]. cbn [files with_files].
    rewrite lookup_insert_ne by congruence. apply lookup_delete_ne. congruence.
  - destruct a; subst; by rewrite ?D.
  - destruct a; [destruct Hp as [_ ->]|subst]; by rewrite ?D.
  - destruct a; [|by subst]. destruct Hp as (f & _ & ->). split; [|done]. apply lookup_insert_ne. congruence.
  - destruct a; subst; by rewrite ?N.
  - destruct (files w !! path0); [|by subst]. destruct a; [subst|destruct Hp as [k ->]]; by rewrite ?N.
Qed.

