(* ===== verification/FileLock.v ===== *)
(** * FileLock: the cross-process advisory lock
    (src/src/platform/file_lock.cpp)

    The payload, the nonce-checked removal, the takeover of a stale lock, the
    acquisition and what a holder does, as programs over [FileOps]; [LockSystem] runs
    several at once. The test seam of the takeover is not modelled. *)

From S2P Require Import Prelude Programs Errors FileOps.
Open Scope prog_scope.

(** ** The payload *)

Record LockPayload := mkPayload { pid : Z; acquired_at : string; nonce : string }.

Definition nl : string := str [newline].

Definition format_lock_payload (p : LockPayload) : string :=
  "broker-exec-lock v1" +:+ nl +:+ "pid=" +:+ pretty (pid p) +:+ nl +:+ "acquired_at=" +:+ acquired_at p +:+ nl +:+
  "nonce=" +:+ nonce p +:+ nl.

(** A line without the carriage return of a CRLF. *)
Definition drop_cr (l : list ascii) : list ascii :=
  if bool_decide (last l = Some "013"%char) then removelast l else l.

(** Key and value around the first equals sign. *)
Fixpoint key_value (l : list ascii) : option (list ascii * list ascii) :=
  match l with
  | [] => None
  | c :: l => if Ascii.eqb c "=" then Some ([], l) else (fun kv => (c :: kv.1, kv.2)) <$> key_value l
  end.

(** What was read so far, and which of the three keys were. *)
Record Parsing := mkParsing { so_far : LockPayload; have_pid : bool; have_time : bool; have_nonce : bool }.

(** One line; an unparseable pid stops the parse. *)
Definition parse_line (s : option Parsing) (line : list ascii) : option Parsing :=
  s ← s;
  match key_value (drop_cr line) with
  | None => Some s
  | Some (key, value) =>
      let '(mkParsing p hp ht hn) := s in
      let v := str value in
      if String.eqb (str key) "pid" then
        z ← from_chars_int64 v; Some (mkParsing (mkPayload z (acquired_at p) (nonce p)) true ht hn)
      else if String.eqb (str key) "acquired_at" then
        Some (mkParsing (mkPayload (pid p) v (nonce p)) hp (negb (String.eqb v "")) hn)
      else if String.eqb (str key) "nonce" then
        Some (mkParsing (mkPayload (pid p) (acquired_at p) v) hp ht (negb (String.eqb v "")))
      else Some s
  end.

(** The lines; an empty last one holds no key. *)
Definition parse_lock_payload (contents : string) : option LockPayload :=
  s ← foldl parse_line (Some (mkParsing (mkPayload 0 "" "") false false false)) (fst <$> chunks (chars contents));
  if have_pid s && have_time s && have_nonce s then Some (so_far s) else None.

(** ** Staleness and removal *)

Definition path_is_stale (path : string) (staleness : Z) : Prog (option bool) :=
  if staleness <=? 0 then Ret (Some false) else
  let! m := ReadMtime path in
  match m with
  | None => Ret None
  | Some m => let! now := ClockNow in Ret (Some (if now <? m then false else staleness <? now - m))
  end.

Inductive RemoveOutcome := Removed | NotOurs | RemoveFailed.

Definition remove_if_ours (path our_nonce : string) : Prog RemoveOutcome :=
  let! contents := ReadText path in
  match contents with
  | None =>
      let! present := FileExists path in
      Ret match present with Some false => Removed | _ => RemoveFailed end
  | Some t =>
      match parse_lock_payload t with
      | None => Ret RemoveFailed
      | Some p =>
          if negb (String.eqb (nonce p) our_nonce) then Ret NotOurs
          else let! ok := RemoveFile path in Ret (if ok : bool then Removed else RemoveFailed)
      end
  end.

Definition kUndoRemoveAttempts : nat := 4.

(** The removal, again while it fails. *)
Fixpoint undo_loop (again : nat) (path our_nonce : string) (undo : RemoveOutcome) : Prog RemoveOutcome :=
  match again, undo with
  | S again, RemoveFailed => let* undo := remove_if_ours path our_nonce in undo_loop again path our_nonce undo
  | _, _ => Ret undo
  end.

(** ** The takeover *)

Section Lock.
  Context (lock_path : string) (staleness : Z).

(** [claim_counter] is the process's counter of takeovers. *)
Definition claim_path_of (pid claim_counter : Z) : string :=
  lock_path +:+ ".stale-" +:+ pretty pid +:+ "-" +:+ pretty claim_counter.

(** Put the displaced lock back, unless somebody else's is proven to be there. *)
Definition undo_takeover (claim_path our_nonce : string) : Prog (option Error) :=
  let* first := remove_if_ours lock_path our_nonce in
  let* undo := undo_loop (kUndoRemoveAttempts - 1) lock_path our_nonce first in
  let* retaken :=
    match undo with
    | NotOurs => Ret true
    | Removed => let! present := FileExists lock_path in Ret match present with Some true => true | _ => false end
    | RemoveFailed => Ret false
    end in
  if retaken : bool then
    let! dropped := RemoveFile claim_path in
    Ret (Some (make_error Internal "file lock: stale takeover aborted, and the displaced lock could NOT be restored (the lock path was re-taken)" ""))
  else
    let! restored := RenameFile claim_path lock_path in
    Ret (Some
      (if restored : bool then make_error Transient "file lock: stale takeover aborted - the lock was live and has been restored" ""
       else match undo with
            | RemoveFailed => make_error Internal "file lock: stale takeover aborted, our own lock could NOT be removed and the displaced lock could NOT be restored over it (an orphaned lock and a claimed-lock '.stale-' file both remain)" ""
            | _ => make_error Internal "file lock: stale takeover aborted and the displaced lock could NOT be restored (a claimed-lock '.stale-' file remains beside it)" ""
            end)).

Definition judge_claim (claim_path our_nonce : string) : Prog (option Error) :=
  let* was_stale := path_is_stale claim_path staleness in
  match was_stale with
  | Some true => let! buried := RemoveFile claim_path in Ret None
  | _ => undo_takeover claim_path our_nonce
  end.

Definition takeover_stale_lock (claim_path payload_text our_nonce : string) : Prog (option Error) :=
  let! claimed := RenameFile lock_path claim_path in
  if negb claimed then
    Ret (Some (make_error Transient "file lock: stale takeover lost the race to another process" ""))
  else
    let! outcome := CreateExclusive lock_path payload_text in
    match outcome with
    | Exists =>
        let! dropped := RemoveFile claim_path in
        Ret (Some (make_error Transient "file lock: re-acquired by another process during takeover" ""))
    | CreateFailed =>
        Ret (Some (make_error Internal "file lock: cannot create lock file after takeover (the displaced lock remains beside it as a claimed-lock '.stale-' file)" ""))
    | Created => judge_claim claim_path our_nonce
    end.

(** ** Acquiring *)

(** A held lock: its payload. *)
Definition read_back (p : LockPayload) : Prog (result LockPayload) :=
  let! back := ReadText lock_path in
  Ret match back with
      | None => Err (make_error Internal "file lock: cannot verify lock file after create - failing closed" "")
      | Some t =>
          match parse_lock_payload t with
          | Some q =>
              if String.eqb (nonce q) (nonce p) then Ok p
              else Err (make_error Transient "file lock: lost the lock to a concurrent takeover" "")
          | None => Err (make_error Transient "file lock: lost the lock to a concurrent takeover" "")
          end
      end.

Definition lock_exists (claim_path : string) (p : LockPayload) : Prog (result LockPayload) :=
  let* stale := path_is_stale lock_path staleness in
  match stale with
  | None => Ret (Err (make_error Internal "file lock: lock file age unreadable - failing closed" ""))
  | Some false => Ret (Err (make_error Transient "file lock: already held by another process" ""))
  | Some true =>
      let! existing := ReadText lock_path in
      match existing ≫= parse_lock_payload with
      | None =>
          Ret (Err (make_error Internal "file lock: stale lock file has an unreadable payload - refusing to take it over; an operator must remove it" ""))
      | Some _ =>
          let* failed := takeover_stale_lock claim_path (format_lock_payload p) (nonce p) in
          match failed with Some e => Ret (Err e) | None => read_back p end
      end
  end.

Definition acquire_with (claim_path : string) (p : LockPayload) : Prog (result LockPayload) :=
  let! outcome := CreateExclusive lock_path (format_lock_payload p) in
  match outcome with
  | CreateFailed => Ret (Err (make_error Internal "file lock: cannot create lock file" ""))
  | Exists => lock_exists claim_path p
  | Created => read_back p
  end.

(** The parent's creation succeeds when there is no parent to create. *)
Definition try_acquire_file_lock (process claim_counter : Z) : Prog (result LockPayload) :=
  if String.eqb lock_path "" then Ret (Err (make_error Internal "file lock: empty lock path" "")) else
  let! parent_ready := MakeParent lock_path in
  if negb parent_ready then Ret (Err (make_error Internal "file lock: cannot create lock directory" "")) else
  let! s := Stamp process in
  let '(at_, ns, counter) := s in
  acquire_with (claim_path_of process claim_counter) (mkPayload process at_ (make_nonce process ns counter)).

(** ** Holding *)

Definition still_ours (p : LockPayload) : Prog bool :=
  let! contents := ReadText lock_path in
  Ret match contents ≫= parse_lock_payload with Some q => String.eqb (nonce q) (nonce p) | None => false end.

Definition touch (p : LockPayload) : Prog bool :=
  let* ours := still_ours p in
  if negb ours then Ret false else
  let! ok := SetMtime lock_path in Ret ok.

Definition release (p : LockPayload) : Prog unit :=
  let* outcome := remove_if_ours lock_path (nonce p) in Ret tt.
End Lock.

(** ** The payload reads back *)

Lemma key_value_split key v : "="%char ∉ key -> key_value (key ++ "="%char :: v) = Some (key, v).
Proof.
  induction key as [|c key IH]; intros H; [done|]. apply not_elem_of_cons in H as [Hc Hk]. cbn [app key_value].
  destruct (Ascii.eqb_spec c "="); [congruence|]. by rewrite IH.
Qed.

Lemma drop_cr_plain l : last l <> Some "013"%char -> drop_cr l = l.
Proof. intros H. unfold drop_cr. by rewrite bool_decide_false. Qed.

Lemma parse_key_line key v (s : Parsing) :
  "="%char ∉ chars key -> last (chars v) <> Some "013"%char ->
  parse_line (Some s) (chars (key +:+ "=" +:+ v)) =
  let '(mkParsing p hp ht hn) := s in
  if String.eqb key "pid" then z ← from_chars_int64 v; Some (mkParsing (mkPayload z (acquired_at p) (nonce p)) true ht hn)
  else if String.eqb key "acquired_at" then Some (mkParsing (mkPayload (FileLock.pid p) v (nonce p)) hp (negb (String.eqb v "")) hn)
  else if String.eqb key "nonce" then Some (mkParsing (mkPayload (FileLock.pid p) (acquired_at p) v) hp ht (negb (String.eqb v "")))
  else Some s.
Proof.
  intros Hk Hv. unfold parse_line. cbn [mbind option_bind]. rewrite !chars_app. rewrite drop_cr_plain.
  - change (chars "=" ++ chars v) with ("="%char :: chars v). rewrite key_value_split by done. rewrite !str_chars. by destruct s.
  - change (chars "=" ++ chars v) with (["="%char] ++ chars v). rewrite app_assoc. destruct (chars v) as [|c l]; [|by rewrite last_app_cons].
    rewrite app_nil_r, last_snoc. done.
Qed.

Lemma pretty_line (z : Z) : line_text (pretty z).
Proof.
  split; [|split].
  - destruct (Z_lt_dec z 0) as [Hz|Hz]; [by rewrite pretty_Z_neg|]. intros E. destruct (pretty_Z_digits z ltac:(lia)) as (_ & H & _). by rewrite E in H.
  - by apply not_in_pretty_Z.
  - intros H. apply last_Some_elem_of in H. by apply (not_in_pretty_Z "013" z) in H.
Qed.

Lemma line_text_app a b : newline ∉ chars a -> line_text b -> line_text (a +:+ b).
Proof.
  intros Ha (Hb & Hn & Hc). split; [|split].
  - intros E. apply (f_equal String.length) in E. rewrite str_length_app in E. destruct b; [done|]. simpl in E. lia.
  - rewrite chars_app. by apply not_elem_of_app.
  - rewrite chars_app. destruct (chars b) as [|c l] eqn:E; [by destruct b|]. by rewrite last_app_cons.
Qed.

Lemma make_nonce_line p ns c : line_text (make_nonce p ns c).
Proof.
  unfold make_nonce. apply line_text_app; [by apply not_in_pretty_Z|]. apply line_text_app; [by apply (bool_decide_eq_true_1 _)|].
  apply line_text_app; [by apply not_in_pretty_Z|]. apply line_text_app; [by apply (bool_decide_eq_true_1 _)|apply pretty_line].
Qed.

(** A lock's payload as a process writes it. *)
Definition payload_ok (p : LockPayload) : Prop := is_int64 (FileLock.pid p) /\ line_text (acquired_at p) /\ line_text (nonce p).

Lemma chunks_string_line a rest : newline ∉ chars a -> chunks (chars (a +:+ nl +:+ rest)) = (chars a, false) :: chunks (chars rest).
Proof. intros H. rewrite !chars_app. unfold nl. rewrite chars_str. by apply chunks_line. Qed.

(** A lock file names its owner: the payload a process writes parses back to
    the same process, time and nonce. *)
Lemma parse_format p : payload_ok p -> parse_lock_payload (format_lock_payload p) = Some p.
Proof.
  intros (Hp & (Ht1 & Ht2 & Ht3) & (Hn1 & Hn2 & Hn3)). destruct p as [z t n]. cbn [FileLock.pid acquired_at nonce] in *.
  unfold parse_lock_payload, format_lock_payload. cbn [FileLock.pid acquired_at nonce].
  change ("broker-exec-lock v1" +:+ nl +:+ "pid=" +:+ pretty z +:+ nl +:+ "acquired_at=" +:+ t +:+ nl +:+ "nonce=" +:+ n +:+ nl)
    with ("broker-exec-lock v1" +:+ nl +:+ ("pid" +:+ "=" +:+ pretty z) +:+ nl +:+ ("acquired_at" +:+ "=" +:+ t) +:+ nl +:+ ("nonce" +:+ "=" +:+ n) +:+ nl).
  assert (K : forall key v, newline ∉ chars key -> newline ∉ chars v -> newline ∉ chars (key +:+ "=" +:+ v)).
  { intros key v Hk Hv. rewrite !chars_app, !not_elem_of_app. split; [done|]. split; [by apply (bool_decide_eq_true_1 _)|done]. }
  rewrite chunks_string_line by by apply (bool_decide_eq_true_1 _).
  rewrite chunks_string_line by (apply K; [by apply (bool_decide_eq_true_1 _)|by apply not_in_pretty_Z]).
  rewrite chunks_string_line by (apply K; [by apply (bool_decide_eq_true_1 _)|done]).
  rewrite <- (str_app_nil_r nl), chunks_string_line by (apply K; [by apply (bool_decide_eq_true_1 _)|done]).
  change (chunks (chars "")) with (@nil (list ascii * bool)). cbn [fmap list_fmap fst foldl].
  change (parse_line (Some _) (chars "broker-exec-lock v1")) with (Some (mkParsing (mkPayload 0 "" "") false false false)).
  rewrite parse_key_line; [|by apply (bool_decide_eq_true_1 _)|apply pretty_line]. cbn [String.eqb Ascii.eqb Bool.eqb].
  rewrite from_chars_pretty by done. cbn [mbind option_bind acquired_at nonce].
  rewrite parse_key_line; [|by apply (bool_decide_eq_true_1 _)|done]. cbn [String.eqb Ascii.eqb Bool.eqb].
  rewrite parse_key_line; [|by apply (bool_decide_eq_true_1 _)|done]. cbn [String.eqb Ascii.eqb Bool.eqb FileLock.pid acquired_at nonce].
  rewrite (proj2 (String.eqb_neq t "") Ht1), (proj2 (String.eqb_neq n "") Hn1). done.
Qed.

(** ** What any run does, whatever the others do *)

(** The nonce a read saw in a file. *)
Definition read_nonce (e : Event) : option (string * string) :=
  match projT1 e as o return answer o -> option (string * string) with
  | ReadText path => fun a => (fun q => (path, nonce q)) <$> (a ≫= parse_lock_payload)
  | _ => fun _ => None
  end (projT2 e).

Section Protocol.
  Context (lock_path : string) (staleness : Z).

(** The lock file is removed only right after it was read to carry [n]. *)
Inductive removes_own (n : string) : list Event -> Prop :=
  | own_nil : removes_own n []
  | own_other l e : op_of e <> RemoveFile lock_path -> removes_own n l -> removes_own n (l ++ [e])
  | own_remove l r e :
      read_nonce r = Some (lock_path, n) -> removes_own n (l ++ [r]) -> op_of e = RemoveFile lock_path ->
      removes_own n ((l ++ [r]) ++ [e]).

Abbreviation runs p past Q := (all_runs p past Q).

Lemma remove_if_ours_runs n past :
  removes_own n past -> runs (remove_if_ours lock_path n) past (fun past _ => removes_own n past).
Proof.
  intros H. cbn [remove_if_ours all_runs]. intros [t|]; cbn [all_runs].
  - assert (H1 : removes_own n (past ++ [ev (ReadText lock_path) (Some t)])) by by apply own_other.
    destruct (parse_lock_payload t) as [q|] eqn:Eq; [|done]. destruct (String.eqb_spec (nonce q) n) as [En|]; [|done].
    cbn [negb all_runs]. intros ok. apply own_remove; [|done|done]. unfold read_nonce. cbn. by rewrite Eq, <- En.
  - intros present. by do 2 (apply own_other; [done|]).
Qed.

Lemma undo_loop_runs n again : forall past undo,
  removes_own n past -> runs (undo_loop again lock_path n undo) past (fun past _ => removes_own n past).
Proof.
  induction again as [|again IH]; intros past [] H; cbn [undo_loop all_runs]; try done.
  apply all_runs_seq. eapply all_runs_mono; [|by apply remove_if_ours_runs]. intros past' a. apply IH.
Qed.

Lemma path_is_stale_runs path past :
  runs (path_is_stale path staleness) past (fun past' r =>
    (r <> Some true /\ (past' = past \/ (exists m, past' = past ++ [ev (ReadMtime path) m]) \/ exists m now, past' = (past ++ [ev (ReadMtime path) m]) ++ [ev ClockNow now]))
    \/ exists m now, r = Some true /\ past' = (past ++ [ev (ReadMtime path) (Some m)]) ++ [ev ClockNow now] /\ 0 < staleness < now - m).
Proof.
  unfold path_is_stale. destruct (Z.leb_spec staleness 0); cbn [all_runs]; [left; split; [done|by left]|].
  intros [m|]; cbn [all_runs]; [|left; split; [done|right; left; by eexists]]. intros now.
  destruct (Z.ltb_spec now m), (Z.ltb_spec staleness (now - m)); try (left; split; [done|right; right; by eexists _, _]).
  right. exists m, now. split_and!; try done; lia.
Qed.

Lemma stale_keeps n path past past' r :
  removes_own n past ->
  (r <> Some true /\ (past' = past \/ (exists m, past' = past ++ [ev (ReadMtime path) m]) \/ exists m now, past' = (past ++ [ev (ReadMtime path) m]) ++ [ev ClockNow now]))
    \/ (exists m now, r = Some true /\ past' = (past ++ [ev (ReadMtime path) (Some m)]) ++ [ev ClockNow now] /\ 0 < staleness < now - m) ->
  removes_own n past'.
Proof.
  intros H [[_ [->|[[m ->]|(m & now & ->)]]]|(m & now & _ & -> & _)]; repeat (apply own_other; [done|]); done.
Qed.

(** The events of a takeover that succeeded: the stale file claimed, the name
    taken, and only then the claimed file judged, and older than the window. *)
Definition takeover_events (claim contents : string) (past : list Event) : Prop :=
  exists before m now buried, past =
    before ++ [ev (RenameFile lock_path claim) true; ev (CreateExclusive lock_path contents) Created;
               ev (ReadMtime claim) (Some m); ev ClockNow now; ev (RemoveFile claim) buried] /\ 0 < staleness < now - m.

Lemma takeover_runs claim contents n past :
  claim <> lock_path -> removes_own n past ->
  runs (takeover_stale_lock lock_path staleness claim contents n) past (fun past' r =>
    removes_own n past' /\ match r with None => takeover_events claim contents past' | Some e => category e ∈ [Transient; Internal] end).
Proof.
  intros Hc H. cbn [takeover_stale_lock all_runs]. intros claimed.
  assert (H1 : removes_own n (past ++ [ev (RenameFile lock_path claim) claimed])) by by apply own_other.
  assert (Hr : forall b : answer (RemoveFile claim), op_of (ev (RemoveFile claim) b) <> RemoveFile lock_path) by (intros b [= E]; done).
  destruct claimed; cbn [negb all_runs]; [|split; [done|by left]]. intros outcome.
  assert (H2 := own_other n _ (ev (CreateExclusive lock_path contents) outcome) ltac:(done) H1).
  destruct outcome; cbn [all_runs].
  2:{ intros d. split; [by apply own_other|by left]. }
  2:{ split; [done|right; by left]. }
  unfold judge_claim. apply all_runs_seq. eapply all_runs_mono; [|apply path_is_stale_runs].
  intros past' r Hs. assert (H3 := stale_keeps n claim _ _ _ H2 Hs).
  destruct Hs as [[Hr' _]|(m & now & -> & -> & Hm)].
  - assert (Hu : runs (undo_takeover lock_path claim n) past' (fun past' r =>
      removes_own n past' /\ match r with None => takeover_events claim contents past' | Some e => category e ∈ [Transient; Internal] end)).
    2:{ destruct r as [[]|]; done. }
    unfold undo_takeover. apply all_runs_seq. eapply all_runs_mono; [|by apply remove_if_ours_runs]. intros p1 first Hp1.
    apply all_runs_seq. eapply all_runs_mono; [|by apply undo_loop_runs]. intros p2 undo Hp2. apply all_runs_seq.
    eapply (all_runs_mono _ _ (fun past _ => removes_own n past)).
    2:{ destruct undo; cbn [all_runs]; try done. intros present. by apply own_other. }
    intros p3 retaken Hp3. destruct retaken; cbn [all_runs].
    + intros d. split; [by apply own_other|right; by left].
    + intros d. split; [by apply own_other|]. destruct d; [by left|]. destruct undo; right; by left.
  - cbn [all_runs]. intros b. split; [by apply own_other|]. exists past, m, now, b. by rewrite <- !app_assoc.
Qed.

(** The events of an acquisition that succeeded: the exclusive creation, after a
    takeover or without one, and last the read that found our nonce. *)
Definition acquired_events (claim : string) (p : LockPayload) (past : list Event) : Prop :=
  exists before t q, past = before ++ [ev (ReadText lock_path) (Some t)] /\ parse_lock_payload t = Some q /\ nonce q = nonce p /\
    ((exists before', before = before' ++ [ev (CreateExclusive lock_path (format_lock_payload p)) Created])
     \/ takeover_events claim (format_lock_payload p) before).

Lemma read_back_runs claim p past :
  removes_own (nonce p) past ->
  ((exists before', past = before' ++ [ev (CreateExclusive lock_path (format_lock_payload p)) Created])
    \/ takeover_events claim (format_lock_payload p) past) ->
  runs (read_back lock_path p) past (fun past' r => removes_own (nonce p) past' /\
    match r with Ok q => q = p /\ acquired_events claim p past' | Err e => category e ∈ [Transient; Internal] end).
Proof.
  intros H Hr. cbn [read_back all_runs]. intros back. split; [by apply own_other|].
  destruct back as [t|]; [|right; by left]. destruct (parse_lock_payload t) as [q|] eqn:Eq; [|by left].
  destruct (String.eqb_spec (nonce q) (nonce p)); [|by left]. split; [done|]. exists past, t, q. by split_and!.
Qed.

Lemma claim_path_ne process counter : claim_path_of lock_path process counter <> lock_path.
Proof.
  intros E. unfold claim_path_of in E. apply (f_equal String.length) in E. rewrite str_length_app in E. simpl in E. lia.
Qed.

Lemma acquire_runs process counter :
  runs (try_acquire_file_lock lock_path staleness process counter) [] (fun past r =>
    exists p, removes_own (nonce p) past /\
    match r with
    | Ok q => q = p /\ pid q = process /\ acquired_events (claim_path_of lock_path process counter) p past
    | Err e => category e ∈ [Transient; Internal]
    end).
Proof.
  unfold try_acquire_file_lock. set (claim := claim_path_of lock_path process counter).
  destruct (String.eqb lock_path ""); cbn [all_runs]; [exists (mkPayload 0 "" ""); split; [constructor|right; by left]|].
  intros ready.
  assert (H0 : forall n, removes_own n ([] ++ [ev (MakeParent lock_path) ready])) by (intros; apply own_other; [done|constructor]).
  destruct ready; cbn [negb all_runs]; [|exists (mkPayload 0 "" ""); split; [apply H0|right; by left]].
  intros [[at_ ns] c]. set (p := mkPayload process at_ (make_nonce process ns c)).
  assert (H1 : removes_own (nonce p) (([] ++ [ev (MakeParent lock_path) true]) ++ [ev (Stamp process) (at_, ns, c)]))
    by (apply own_other; [done|apply H0]).
  revert H1. generalize (([] ++ [ev (MakeParent lock_path) true]) ++ [ev (Stamp process) (at_, ns, c)]). intros past H1.
  eapply (all_runs_mono _ _ (fun past' r => removes_own (nonce p) past' /\
    match r with Ok q => q = p /\ acquired_events claim p past' | Err e => category e ∈ [Transient; Internal] end)).
  { intros past' r [Ho Hr]. exists p. split; [done|]. destruct r as [q|]; [|done]. by destruct Hr as [-> ?]. }
  cbn [acquire_with all_runs]. intros outcome.
  assert (H2 := own_other (nonce p) _ (ev (CreateExclusive lock_path (format_lock_payload p)) outcome) ltac:(done) H1).
  destruct outcome; cbn [all_runs].
  - apply read_back_runs; [done|]. left. by eexists.
  - unfold lock_exists. apply all_runs_seq. eapply all_runs_mono; [|apply path_is_stale_runs]. intros p1 stale Hs.
    assert (H3 := stale_keeps _ _ _ _ _ H2 Hs). clear Hs. destruct stale as [[]|]; cbn [all_runs];
      [|split; [done|by left]|split; [done|right; by left]].
    intros existing. assert (H4 := own_other (nonce p) _ (ev (ReadText lock_path) existing) ltac:(done) H3).
    destruct (existing ≫= parse_lock_payload) as [q|]; cbn [all_runs]; [|split; [done|right; by left]].
    apply all_runs_seq. eapply all_runs_mono; [|by apply (takeover_runs claim (format_lock_payload p) (nonce p)); [apply claim_path_ne|]].
    intros p2 failed [H5 Hf]. destruct failed as [e|]; cbn [all_runs]; [done|]. apply read_back_runs; [done|by right].
  - split; [done|right; by left].
Qed.

(** what one acquisition does, whatever the system and the other processes
    answer at each step. It succeeds only with the exclusive creation of its own
    payload and a last read that finds its own nonce; and over an existing lock
    only after it claimed that file by a rename, took the name, and only then
    found the claimed file older than the window, so that a window of zero or
    less never takes a lock over. It removes the lock file only right after
    reading its own nonce there. Every failure is a typed error. *)
Theorem acquire_protocol process counter :
  runs (try_acquire_file_lock lock_path staleness process counter) [] (fun past r =>
    exists p, removes_own (nonce p) past /\
    match r with
    | Ok q => q = p /\ pid q = process /\ acquired_events (claim_path_of lock_path process counter) p past
    | Err e => category e ∈ [Transient; Internal]
    end).
Proof. apply acquire_runs. Qed.
End Protocol.

(** ** The files a lock touches *)

Lemma remove_if_ours_touches P path n : P path -> all_ops (mutates_only P) (remove_if_ours path n).
Proof.
  intros H. split; [done|]. intros [t|]; [|done]. destruct (parse_lock_payload t); [|done]. by destruct (negb _).
Qed.

Lemma path_is_stale_touches P path staleness : all_ops (mutates_only P) (path_is_stale path staleness).
Proof. unfold path_is_stale. destruct (_ <=? _); [done|]. split; [done|]. by intros [m|]. Qed.

Lemma undo_loop_touches P path n again : P path -> forall undo, all_ops (mutates_only P) (undo_loop again path n undo).
Proof.
  intros H. induction again as [|again IH]; intros []; cbn [undo_loop]; try done. apply all_ops_seq; [by apply remove_if_ours_touches|apply IH].
Qed.

Lemma takeover_touches P path staleness claim contents n :
  P path -> P claim -> all_ops (mutates_only P) (takeover_stale_lock path staleness claim contents n).
Proof.
  intros Hp Hc. split; [done|]. intros []; [|done]. split; [done|]. intros []; [|by split|done].
  apply all_ops_seq; [apply path_is_stale_touches|].
  assert (U : all_ops (mutates_only P) (undo_takeover path claim n)).
  { apply all_ops_seq; [by apply remove_if_ours_touches|]. intros first. apply all_ops_seq; [by apply undo_loop_touches|].
    intros undo. apply all_ops_seq; [by destruct undo|]. by intros []. }
  by intros [[]|].
Qed.

Lemma acquire_with_touches P path staleness claim p :
  P path -> P claim -> all_ops (mutates_only P) (acquire_with path staleness claim p).
Proof.
  intros Hp Hc. split; [done|]. intros []; [done| |done]. apply all_ops_seq; [apply path_is_stale_touches|]. intros [[]|]; [|done..].
  split; [done|]. intros existing. destruct (existing ≫= _); [|done]. apply all_ops_seq; [by apply takeover_touches|]. by intros [].
Qed.

Lemma read_back_result path p past : all_runs (read_back path p) past (fun _ r => match r with Ok q => q = p | Err _ => True end).
Proof. intros [t|]; [|done]. cbn [all_runs]. destruct (parse_lock_payload t); [|done]. by destruct (String.eqb _ _). Qed.

(** Any answer that is refused is no lock; a lock is the one asked for. *)
Lemma acquire_with_result path staleness claim p past :
  all_runs (acquire_with path staleness claim p) past (fun _ r => match r with Ok q => q = p | Err _ => True end).
Proof.
  assert (T : forall B (q : Prog B) past', all_runs q past' (fun _ _ => True)) by (intros B q; induction q; intros; cbn [all_runs]; eauto).
  intros []; [apply read_back_result| |done]. apply all_runs_seq. eapply all_runs_mono; [|apply T]. intros past1 [[]|] _; [|done..].
  intros existing. destruct (existing ≫= _); [|done]. apply all_runs_seq. eapply all_runs_mono; [|apply T]. intros past2 [] _; [done|apply read_back_result].
Qed.

Lemma touch_touches P path p : P path -> all_ops (mutates_only P) (touch path p).
Proof. intros H. split; [done|]. intros t. cbn [seq_prog]. by destruct (negb _). Qed.

Lemma release_touches P path p : P path -> all_ops (mutates_only P) (release path p).
Proof. intros H. apply all_ops_seq; [by apply remove_if_ours_touches|done]. Qed.
