(* ===== verification/LockSystem.v ===== *)
(** * LockSystem: several processes and one lock file

    The processes that contend for a lock of [FileLock] as a step relation over
    one world of files: any interleaving of their operations, failures, kills and
    foreign changes of other files. *)

From stdpp Require Import functions.
From S2P Require Import Prelude Programs Errors FileOps FileLock.
Open Scope prog_scope.

(** What a process is doing with the lock. *)
Inductive Local :=
  | Idle
  | Acquiring (q : Prog (result LockPayload))
  | Holding (p : LockPayload)
  | Touching (p : LockPayload) (q : Prog bool)
  | Leaving (q : Prog unit).

Record Sys := mkSys { procs : Z -> Local; world : World }.

Definition with_proc (s : Sys) (i : Z) (l : Local) (w : World) : Sys := mkSys (<[i := l]> (procs s)) w.

Section System.
  Context (lock_path : string) (staleness : Z).

(** One step of the processes: each is at an operation of its own program, may be
    killed at any of them, and others may change any other file. Process
    identifiers are 64-bit. *)
Inductive lock_step (s : Sys) : Sys -> Prop :=
  | step_start i counter : is_int64 i -> procs s i = Idle ->
      lock_step s (with_proc s i (Acquiring (try_acquire_file_lock lock_path staleness i counter)) (world s))
  | step_acquire i o next a w : procs s i = Acquiring (Do o next) -> performs o (world s) a w ->
      lock_step s (with_proc s i (Acquiring (next a)) w)
  | step_acquired i p : procs s i = Acquiring (Ret (Ok p)) -> lock_step s (with_proc s i (Holding p) (world s))
  | step_refused i e : procs s i = Acquiring (Ret (Err e)) -> lock_step s (with_proc s i Idle (world s))
  | step_touch i p : procs s i = Holding p -> lock_step s (with_proc s i (Touching p (touch lock_path p)) (world s))
  | step_touching i p o next a w : procs s i = Touching p (Do o next) -> performs o (world s) a w ->
      lock_step s (with_proc s i (Touching p (next a)) w)
  | step_touched i p b : procs s i = Touching p (Ret b) -> lock_step s (with_proc s i (Holding p) (world s))
  | step_release i p : procs s i = Holding p -> lock_step s (with_proc s i (Leaving (release lock_path p)) (world s))
  | step_leaving i o next a w : procs s i = Leaving (Do o next) -> performs o (world s) a w ->
      lock_step s (with_proc s i (Leaving (next a)) w)
  | step_left i u : procs s i = Leaving (Ret u) -> lock_step s (with_proc s i Idle (world s))
  | step_killed i : lock_step s (with_proc s i Idle (world s))
  | step_outside w : files w !! lock_path = files (world s) !! lock_path -> issued (world s) ⊆ issued w ->
      lock_step s (mkSys (procs s) w).

Definition reaches (w : World) (s : Sys) : Prop := rtc lock_step (mkSys (fun _ => Idle) w) s.

(** Between the acquisition's success and its release. *)
Definition holds (s : Sys) (i : Z) (p : LockPayload) : Prop :=
  match procs s i with Holding q | Touching q _ => q = p | _ => False end.

(** *** Ownership of the lock file *)

(** The lock file is the one [p]'s process wrote. *)
Definition owns (w : World) (p : LockPayload) : Prop :=
  exists f, files w !! lock_path = Some f /\ text f = format_lock_payload p.

Definition mine (i : Z) (own : option LockPayload) (w : World) : Prop :=
  match own with Some p => FileLock.pid p = i /\ payload_ok p /\ owns w p | None => True end.

(** The lock files of the others survive. *)
Definition spares_others (i : Z) (w w' : World) : Prop :=
  forall p, FileLock.pid p <> i -> payload_ok p -> owns w p -> owns w' p.

(** Process [i]'s runs in the rely-guarantee logic. *)
Abbreviation runs_safely i := (safe performs (mine i) (fun _ w _ w' => spares_others i w w')).

Lemma payload_eq p q : payload_ok p -> payload_ok q -> format_lock_payload p = format_lock_payload q -> p = q.
Proof. intros Hp Hq E. apply (f_equal parse_lock_payload) in E. rewrite !parse_format in E by done. congruence. Qed.

Lemma owns_unique w p q : payload_ok p -> payload_ok q -> owns w p -> owns w q -> p = q.
Proof. intros Hp Hq (f & E & Tf) (g & E' & Tg). apply payload_eq; congruence. Qed.

Lemma spares_same i w w' : files w' !! lock_path = files w !! lock_path -> spares_others i w w'.
Proof. intros E p _ _ (f & Ef & Tf). exists f. by rewrite E. Qed.

Lemma mine_same i w w' own : files w' !! lock_path = files w !! lock_path -> mine i own w -> mine i own w'.
Proof. intros E. destruct own as [p|]; [|done]. intros (? & ? & f & Ef & Tf). split_and!; [done..|]. exists f. by rewrite E. Qed.

Lemma owner_spares i w w' p : FileLock.pid p = i -> payload_ok p -> owns w p -> spares_others i w w'.
Proof. intros Hi Hp Ho q Hq Hok Hq'. by rewrite (owns_unique w q p) in Hq. Qed.

(** An operation that leaves the lock file as it is. *)
Lemma safe_quiet {A} i keep (post : option LockPayload -> A -> Prop) own o (next : answer o -> Prog A) :
  keep own ->
  (forall w a w', mine i own w -> performs o w a w' -> files w' !! lock_path = files w !! lock_path /\ runs_safely i keep post own (next a)) ->
  runs_safely i keep post own (Do o next).
Proof.
  intros Hk H w a w' Hm Hp. destruct (H w a w' Hm Hp) as [E Hs]. exists own. split_and!; [done|by eapply mine_same|by apply spares_same|done].
Qed.

Lemma safe_read {A} i keep (post : option LockPayload -> A -> Prop) own path next :
  keep own -> (forall a, runs_safely i keep post own (next a)) -> runs_safely i keep post own (Do (ReadText path) next).
Proof. intros Hk H. apply safe_quiet; [done|]. intros w a w' _ [-> _]. by split. Qed.

Definition anything (_ : option LockPayload) : Prop := True.
Definition acquired (own : option LockPayload) (r : result LockPayload) : Prop := match r with Ok p => own = Some p | Err _ => True end.

Lemma safe_read_back i p own : own = Some p -> runs_safely i anything acquired own (read_back lock_path p).
Proof.
  intros ->. apply safe_read; [done|]. intros [t|]; cbn [safe]; [|done]. destruct (parse_lock_payload t); [|done]. by destruct (String.eqb _ _).
Qed.

(** The exclusive creation is what confers the lock. *)
Lemma safe_create {A} i (post : option LockPayload -> A -> Prop) p next :
  payload_ok p -> FileLock.pid p = i ->
  runs_safely i anything post (Some p) (next Created) -> runs_safely i anything post None (next Exists) -> runs_safely i anything post None (next CreateFailed) ->
  runs_safely i anything post None (Do (CreateExclusive lock_path (format_lock_payload p)) next).
Proof.
  intros Hok Hi Hc He Hf w a w' _ Hp. destruct a; cbn [performs] in Hp.
  - destruct Hp as [E ->]. exists (Some p). split_and!; [done| | |done].
    + split_and!; [done..|]. eexists. split; [apply lookup_insert_eq|done].
    + intros q _ _ (f & Ef & _). congruence.
  - destruct Hp as [_ ->]. exists None. split_and!; [done|done|by apply spares_same|done].
  - exists None. split_and!; [done|done| |done]. destruct Hp as [->|[E _]]; [by apply spares_same|]. intros q _ _ (f & Ef & _). congruence.
Qed.

Lemma safe_try_acquire i counter : staleness <= 0 -> is_int64 i ->
  runs_safely i anything acquired None (try_acquire_file_lock lock_path staleness i counter).
Proof.
  intros Hs Hi. unfold try_acquire_file_lock. destruct (String.eqb lock_path ""); [done|].
  apply safe_quiet; [done|]. intros w ready w' _ ->. split; [done|]. destruct ready; cbn [negb]; [|done].
  apply safe_quiet; [done|]. intros v [[at_ ns] c] v' _ (Ht & _ & ->). split; [done|]. unfold acquire_with.
  apply safe_create; [|done| | |done].
  - split_and!; [done|done|apply make_nonce_line].
  - by apply safe_read_back.
  - unfold lock_exists, path_is_stale. by rewrite (proj2 (Z.leb_le staleness 0)).
Qed.

Lemma safe_touch i p : runs_safely i (fun own => own = Some p) (fun own _ => own = Some p) (Some p) (touch lock_path p).
Proof.
  apply safe_read; [done|]. intros t. cbn [seq_prog]. destruct (negb _); [done|]. intros w a w' Hm Hp. exists (Some p).
  assert (K : forall q, owns w q -> owns w' q).
  { intros q (f & Ef & Tf). destruct a; cbn [performs] in Hp; [|subst; by exists f]. destruct Hp as (f' & Ef' & ->). rewrite Ef in Ef'. injection Ef' as <-.
    eexists. split; [apply lookup_insert_eq|done]. }
  split_and!; [done| |by intros q _ _; apply K|done]. destruct Hm as (? & ? & Ho). split_and!; [done..|by apply K].
Qed.

Lemma safe_release i p : runs_safely i anything (fun _ _ => True) (Some p) (release lock_path p).
Proof.
  apply safe_read; [done|]. intros [t|]; cbn [seq_prog].
  - destruct (parse_lock_payload t) as [q|]; [|done]. destruct (negb _); [done|]. cbn [seq_prog]. intros w a w' (Hi & Hok & Ho) Hp. exists None.
    split_and!; [done..| |done]. by eapply owner_spares.
  - apply safe_quiet; [done|]. intros w a w' _ [-> _]. by split.
Qed.

(** *** The invariant *)

Definition local_ok (i : Z) (own : option LockPayload) (l : Local) : Prop :=
  match l with
  | Idle => True
  | Acquiring q => runs_safely i anything acquired own q
  | Holding p => own = Some p
  | Touching p q => own = Some p /\ runs_safely i (fun own => own = Some p) (fun own _ => own = Some p) own q
  | Leaving q => runs_safely i anything (fun _ _ => True) own q
  end.

Definition lock_inv (s : Sys) : Prop :=
  forall i, exists own, mine i own (world s) /\ local_ok i own (procs s i).

Lemma mine_spared i j w w' own : j <> i -> spares_others i w w' -> mine j own w -> mine j own w'.
Proof. intros Hj Hs. destruct own as [p|]; [|done]. intros (Hi & Hok & Ho). split_and!; [done..|]. apply Hs; [congruence|done..]. Qed.

(** A step of one process's program keeps everyone's part of the invariant. *)
Lemma inv_with s i l w own :
  lock_inv s -> mine i own w -> spares_others i (world s) w -> local_ok i own l -> lock_inv (with_proc s i l w).
Proof.
  intros H Hm Hs Hl j. cbn [with_proc procs world]. destruct (decide (j = i)) as [->|Hj].
  - rewrite fn_lookup_insert. by exists own.
  - rewrite fn_lookup_insert_ne by done. destruct (H j) as (own' & Hm' & Hl'). exists own'. split; [by eapply mine_spared|done].
Qed.

Lemma inv_move s i l own : lock_inv s -> mine i own (world s) -> local_ok i own l -> lock_inv (with_proc s i l (world s)).
Proof. intros. eapply inv_with; [done|done| |done]. by intros ?. Qed.

Lemma lock_step_inv s s' : staleness <= 0 -> lock_step s s' -> lock_inv s -> lock_inv s'.
Proof.
  intros Hs Hstep H. destruct Hstep as [i c Hi El|i o next a w El Hp|i p El|i e El|i p El|i p o next a w El Hp|i p b El|i p El|i o next a w El Hp|i u El|i|w Ef _].
  12:{ intros i. destruct (H i) as (own & Hm & Hl). exists own. split; [by eapply mine_same|done]. }
  all: destruct (H i) as (own & Hm & Hl); try (rewrite El in Hl; cbn [local_ok] in Hl).
  - apply (inv_move _ _ _ None); [done..|]. by apply safe_try_acquire.
  - destruct (Hl _ _ _ Hm Hp) as (own' & _ & Hm' & Hsp & Hn). by eapply inv_with.
  - by eapply inv_move.
  - by apply (inv_move _ _ _ None).
  - eapply inv_move; [done|done|]. cbn [local_ok]. subst own. split; [done|apply safe_touch].
  - destruct Hl as [-> Hl]. destruct (Hl _ _ _ Hm Hp) as (own' & -> & Hm' & Hsp & Hn). by eapply inv_with.
  - by eapply inv_move; [..|apply Hl].
  - eapply inv_move; [done|done|]. cbn [local_ok]. subst own. apply safe_release.
  - destruct (Hl _ _ _ Hm Hp) as (own' & _ & Hm' & Hsp & Hn). by eapply inv_with.
  - by apply (inv_move _ _ _ None).
  - by apply (inv_move _ _ _ None).
Qed.

Lemma reaches_inv w s : staleness <= 0 -> reaches w s -> lock_inv s.
Proof.
  intros Hs. apply (rtc_ind_r (fun s => lock_inv s)); [intros i; by exists None|]. intros ????. by eapply lock_step_inv.
Qed.

Lemma holds_owns w s i p : staleness <= 0 -> reaches w s -> holds s i p -> FileLock.pid p = i /\ payload_ok p /\ owns (world s) p.
Proof.
  intros Hs Hr Hh. destruct (reaches_inv w s Hs Hr i) as (own & Hm & Hl). unfold holds in Hh.
  destruct (procs s i); try done; subst; cbn [local_ok] in Hl; [subst own|destruct Hl as [-> _]]; done.
Qed.

(** C35: mutual exclusion. With a staleness window of zero or less, at every
    moment of every interleaving of any number of processes - whatever fails,
    whoever is killed, whatever was on disk before - at most one process is
    between a successful acquisition and its release, and while it is, the lock
    file carries its payload. *)
Theorem mutual_exclusion w s i p :
  staleness <= 0 -> reaches w s -> holds s i p ->
  owns (world s) p /\ forall j q, holds s j q -> j = i /\ q = p.
Proof.
  intros Hs Hr Hh. destruct (holds_owns w s i p) as (Hi & Hok & Ho); [done..|]. split; [done|]. intros j q Hq.
  destruct (holds_owns w s j q) as (Hj & Hok' & Ho'); [done..|]. by rewrite <- Hi, <- Hj, (owns_unique (world s) q p).
Qed.

(** *** Schedules *)

(** Commands for one run in which no operation fails. *)
Inductive Cmd := Start (i : Z) | Go (i : Z) | Release (i : Z).

Definition nothing_upstream : result string := Err (make_error Network "" "").

(** The next step of process [i]. *)
Definition go (s : Sys) (i : Z) : option Sys :=
  match procs s i with
  | Acquiring (Ret (Ok p)) => Some (with_proc s i (Holding p) (world s))
  | Acquiring (Ret (Err _)) => Some (with_proc s i Idle (world s))
  | Acquiring (Do o next) =>
      if fresh_op o (world s) then
        let '(a, w) := perform nothing_upstream o (world s) in Some (with_proc s i (Acquiring (next a)) w)
      else None
  | Leaving (Do o next) =>
      if fresh_op o (world s) then
        let '(a, w) := perform nothing_upstream o (world s) in Some (with_proc s i (Leaving (next a)) w)
      else None
  | Leaving (Ret _) => Some (with_proc s i Idle (world s))
  | _ => None
  end.

Definition run_cmd (s : Sys) (c : Cmd) : option Sys :=
  match c with
  | Start i =>
      match procs s i with
      | Idle => if bool_decide (is_int64 i) then Some (with_proc s i (Acquiring (try_acquire_file_lock lock_path staleness i 1)) (world s)) else None
      | _ => None
      end
  | Go i => go s i
  | Release i => match procs s i with Holding p => Some (with_proc s i (Leaving (release lock_path p)) (world s)) | _ => None end
  end.

Definition run_cmds (w : World) (cs : list Cmd) : option Sys :=
  foldl (fun s c => s ≫= fun s => run_cmd s c) (Some (mkSys (fun _ => Idle) w)) cs.

Lemma run_cmd_step s c s' : run_cmd s c = Some s' -> lock_step s s'.
Proof.
  destruct c as [i|i|i]; cbn [run_cmd].
  - destruct (procs s i) eqn:E; try done. case_bool_decide; [|done]. intros [= <-]. by apply step_start.
  - unfold go. destruct (procs s i) as [|[[p|e]|o next]|p|p q|[u|o next]] eqn:E; try done.
    + intros [= <-]. by apply step_acquired.
    + intros [= <-]. by eapply step_refused.
    + destruct (fresh_op o (world s)) eqn:Ef; [|done]. destruct (perform _ o (world s)) as [a w] eqn:Ep. intros [= <-].
      eapply step_acquire; [done|]. by apply (performed nothing_upstream).
    + intros [= <-]. by eapply step_left.
    + destruct (fresh_op o (world s)) eqn:Ef; [|done]. destruct (perform _ o (world s)) as [a w] eqn:Ep. intros [= <-].
      eapply step_leaving; [done|]. by apply (performed nothing_upstream).
  - destruct (procs s i) eqn:E; try done. intros [= <-]. by apply step_release.
Qed.

Lemma run_cmds_reaches w cs s : run_cmds w cs = Some s -> reaches w s.
Proof.
  unfold run_cmds, reaches. revert s. induction cs as [|c cs IH] using rev_ind; intros s; cbn [foldl]; [by intros [= <-]|].
  rewrite foldl_app. cbn [foldl]. destruct (foldl _ _ cs) as [s'|] eqn:E; cbn [mbind option_bind]; [|done].
  intros H. eapply rtc_r; [by apply IH|by eapply run_cmd_step].
Qed.

Definition holding (s : Sys) (i : Z) : bool := match procs s i with Holding _ | Touching _ _ => true | _ => false end.
End System.

Definition no_files : World := mkWorld ∅ 1000 ∅ ∅.
Definition all_of (i : Z) (n : nat) : list Cmd := Start i :: replicate n (Go i).

(** Process 7 acquires a free lock, and 8 is refused. *)
Definition contended : list Cmd := all_of 7 5 ++ all_of 8 4.

Lemma mutual_exclusion_witness :
  exists s p, reaches "L" 0 no_files s /\ holds s 7 p /\ owns "L" (world s) p /\ forall j q, holds s j q -> j = 7 /\ q = p.
Proof.
  assert (E : (fun s => (procs s 7, procs s 8)) <$> run_cmds "L" 0 no_files contended =
    Some (Holding (mkPayload 7 "2026-01-05T09:00:00Z" "7-1000-1"), Idle)) by (vm_compute; reflexivity).
  destruct (run_cmds "L" 0 no_files contended) as [s|] eqn:Er; [|discriminate].
  exists s, (mkPayload 7 "2026-01-05T09:00:00Z" "7-1000-1").
  assert (Hr := run_cmds_reaches _ _ _ _ _ Er).
  assert (Hh : holds s 7 (mkPayload 7 "2026-01-05T09:00:00Z" "7-1000-1")).
  { unfold holds. cbn [fmap option_fmap option_map] in E. injection E as E _. by rewrite E. }
  split; [exact Hr|]. split; [exact Hh|]. apply (mutual_exclusion "L" 0 no_files s 7 _ ltac:(lia) Hr Hh).
Defined.

(** ** Takeovers *)

(** A lock left by a dead process 1000 seconds ago; the window is 600. *)
Definition dead_lock : World :=
  mkWorld {[ "L" := mkFile (format_lock_payload (mkPayload 5 "2026-01-05T08:00:00Z" "5-1-1")) 0 ]} 1000 ∅ ∅.

(** What each of processes 1, 2, 3 is doing and whose lock file is on disk. *)
Definition seen (s : Sys) : bool * bool * bool * option string :=
  (holding s 1, holding s 2, holding s 3, (fun f => nonce f) <$> ((text <$> files (world s) !! "L") ≫= parse_lock_payload)).

Lemma seen_reaches w cs o : seen <$> run_cmds "L" 600 w cs = Some o -> exists s, reaches "L" 600 w s /\ seen s = o.
Proof.
  destruct (run_cmds "L" 600 w cs) as [s|] eqn:E; cbn [fmap option_fmap option_map]; [|done]. intros H. injection H as H.
  exists s. split; [exact (run_cmds_reaches _ _ _ _ _ E)|exact H].
Qed.

(** Process 2 finds the dead lock stale and is delayed before its rename. *)
Definition delayed : list Cmd := all_of 2 6.

(** A takeover of a dead lock by one process alone. *)
Example takeover_alone : exists s, reaches "L" 600 dead_lock s /\ seen s = (true, false, false, Some "1-1000-1").
Proof. apply (seen_reaches _ (all_of 1 13)). vm_compute. reflexivity. Qed.

(** Process 1 takes the dead lock over and holds it; process 2, whose check of the
    dead file is out of date, renames 1's fresh lock away; process 3 finds the name
    free. Both 1 and 3 hold the lock, and neither file was older than the window. *)
Example two_live_holders : exists s, reaches "L" 600 dead_lock s /\ seen s = (true, false, true, Some "3-1000-3").
Proof. apply (seen_reaches _ (delayed ++ all_of 1 13 ++ [Go 2] ++ all_of 3 5 ++ replicate 3 (Go 2))). vm_compute. reflexivity. Qed.

(** The same gap between the nonce check and the removal of a release: 1 removes
    the lock of 3, which still holds it. *)
Example release_removes_anothers : exists s, reaches "L" 600 dead_lock s /\ seen s = (false, false, true, None).
Proof. apply (seen_reaches _ (delayed ++ all_of 1 13 ++ [Release 1; Go 1; Go 2] ++ all_of 3 5 ++ [Go 1; Go 1])). vm_compute. reflexivity. Qed.

(** Process 1 reads back while its file is displaced and gives up; process 2 then
    restores it: a fresh lock file that nobody holds. *)
Example lock_nobody_holds : exists s, reaches "L" 600 dead_lock s /\ seen s = (false, false, false, Some "1-1000-2")
  /\ procs s 1 = Idle /\ procs s 2 = Idle.
Proof.
  set (cs := delayed ++ all_of 1 8 ++ [Go 2; Go 2] ++ replicate 5 (Go 1) ++ replicate 7 (Go 2)).
  assert (E : (fun s => (seen s, procs s 1, procs s 2)) <$> run_cmds "L" 600 dead_lock cs
    = Some ((false, false, false, Some "1-1000-2"), Idle, Idle)) by (vm_compute; reflexivity).
  destruct (run_cmds "L" 600 dead_lock cs) as [s|] eqn:Er; [|discriminate]. injection E as E1 E2 E3.
  exists s. split; [exact (run_cmds_reaches _ _ _ _ _ Er)|]. split; [unfold seen; by rewrite E1, E2, E3, H|]. by split.
Qed.
