(* ===== verification/SharedCache.v ===== *)
(** * SharedCache: one download of the reference data for all accounts
    (src/src/accounts/shared_refdata_cache.cpp)

    Keys and paths, the sanity checks, the guard on the location, and the
    double-checked fetch under [FileLock], as programs over [FileOps]: what any
    run of a fetch does, and what the artifact holds under every interleaving. The
    publish step is the default rename. *)

From S2P Require Import Prelude Programs Errors AccountDir FileOps FileLock.
Open Scope prog_scope.

(** ** Keys *)

Record RefdataKey := mkKey { broker : string; segment : string; trading_date : string; extension : string }.

Definition between (lo hi : ascii) (c : ascii) : bool :=
  ((nat_of_ascii lo <=? nat_of_ascii c) && (nat_of_ascii c <=? nat_of_ascii hi))%nat.

Definition is_token_char (c : ascii) : bool := between "a" "z" c || is_ascii_digit c || Ascii.eqb c "-".
Definition is_extension_char (c : ascii) : bool := between "A" "Z" c || between "a" "z" c || is_ascii_digit c.

Definition is_safe_token (token : string) : bool :=
  negb (String.eqb token "") && (String.length token <=? 64)%nat && forallb is_token_char (chars token).

Definition is_iso_date (date : string) : bool :=
  (String.length date =? 10)%nat &&
  forallb (fun '(i, c) => if ((i =? 4) || (i =? 7))%nat then Ascii.eqb c "-" else is_ascii_digit c)
    (imap pair (chars date)).

Definition is_safe_extension (ext : string) : bool :=
  match chars ext with
  | dot :: rest => (2 <=? String.length ext)%nat && (String.length ext <=? 16)%nat && Ascii.eqb dot "." && forallb is_extension_char rest
  | [] => false
  end.

Definition validate_refdata_key (key : RefdataKey) : result unit :=
  if negb (is_safe_token (broker key)) then
    Err (make_error Validation "shared refdata key: broker must be [a-z0-9-]{1,64} ('_' is reserved as the filename separator; lowercase only)" "")
  else if negb (is_safe_token (segment key)) then
    Err (make_error Validation "shared refdata key: segment must be [a-z0-9-]{1,64} ('_' is reserved as the filename separator; lowercase only)" "")
  else if negb (is_iso_date (trading_date key)) then
    Err (make_error Validation "shared refdata key: trading_date must be ISO YYYY-MM-DD" "")
  else if negb (is_safe_extension (extension key)) then
    Err (make_error Validation "shared refdata key: extension must look like '.csv'" "")
  else Ok tt.

Definition artifact_name (key : RefdataKey) : string :=
  broker key +:+ "_" +:+ segment key +:+ "_" +:+ trading_date key +:+ extension key.

Definition artifact_path (shared_root : string) (key : RefdataKey) : string := path_join shared_root (artifact_name key).
Definition lock_path (shared_root : string) (key : RefdataKey) : string := artifact_path shared_root key +:+ ".lock".

(** ** Sanity checks *)

Definition is_ws (c : ascii) : bool := is_blank c || Ascii.eqb c "013" || Ascii.eqb c newline.

Fixpoint drop_ws (l : list ascii) : list ascii :=
  match l with c :: rest => if is_ws c then drop_ws rest else l | [] => [] end.

Definition trim_view (l : list ascii) : list ascii := reverse (drop_ws (reverse (drop_ws l))).

(** Before and after the first line break. *)
Fixpoint split_line (l : list ascii) : option (list ascii * list ascii) :=
  match l with
  | [] => None
  | c :: rest => if Ascii.eqb c newline then Some ([], rest) else (fun p => (c :: p.1, p.2)) <$> split_line rest
  end.

Definition is_letter (c : ascii) : bool := between "a" "z" c || between "A" "Z" c.

Definition csv_sanity_validator (payload : string) : bool :=
  match split_line (trim_view (chars payload)) with
  | None => false
  | Some (first, rest) =>
      let header := trim_view first in
      existsb (Ascii.eqb ",") header && existsb is_letter header && negb (bool_decide (trim_view rest = []))
  end.

Definition json_sanity_validator (payload : string) : bool :=
  let trimmed := trim_view (chars payload) in
  (2 <=? length trimmed)%nat &&
  match head trimmed, last trimmed with
  | Some first, Some last =>
      (Ascii.eqb first "{" && Ascii.eqb last "}") || (Ascii.eqb first "[" && Ascii.eqb last "]")
  | _, _ => false
  end.

(** ** Where the shared root may be *)

(** Lexically normal, without a trailing separator. *)
Definition canonical_form (raw : string) : string :=
  let n := lexically_normal raw in
  if bool_decide (last (chars n) = Some slash) then
    if String.eqb n (String slash "") then n else str (removelast (chars n))
  else n.

Definition components (p : string) : list string :=
  (if is_absolute p then [String slash ""] else []) ++ filenames p.

Definition path_contains (outer inner : string) : bool := bool_decide (components outer `prefix_of` components inner).

Definition require_outside_account_tree (shared_root account_data_root : string) : result unit :=
  if String.eqb shared_root "" || String.eqb account_data_root "" then
    Err (make_error Validation "shared refdata cache: empty shared root or account data root" "")
  else
    let shared := canonical_form shared_root in
    let account_tree := canonical_form account_data_root in
    if path_contains account_tree shared || path_contains shared account_tree then
      Err (make_error Validation "shared refdata cache: the shared root must live OUTSIDE the per-account data tree" "")
    else Ok tt.

(** ** The cache *)

Record SharedRefdataCacheConfig := mkCacheConfig {
  shared_root : string; account_data_root : string; lock_staleness : Z;
  max_lock_attempts : Z; max_publish_attempts : Z; has_wait : bool }.

(** A sanity check is optional. *)
Definition accepts (validate : option (string -> bool)) (payload : string) : bool :=
  match validate with Some v => v payload | None => true end.

Definition read_valid_artifact (path : string) (validate : option (string -> bool)) : Prog (option string) :=
  let! present := FileExists path in
  match present with
  | Some true =>
      let! contents := ReadText path in
      Ret (c ← contents; if String.eqb c "" then None else if accepts validate c then Some c else None)
  | _ => Ret None
  end.

Definition bounded (attempts : Z) : nat := Z.to_nat (if 0 <? attempts then attempts else 1).

(** The rename, again while it fails, waiting in between. *)
Fixpoint publish_loop (again : nat) (attempt : Z) (waits : bool) (tmp target : string) : Prog bool :=
  match again with
  | O => Ret false
  | S again =>
      let! published := RenameFile tmp target in
      if published : bool then Ret true else
      match again with
      | O => Ret false
      | S _ => if waits then let! waited := Wait attempt in publish_loop again (attempt + 1) waits tmp target
               else publish_loop again (attempt + 1) waits tmp target
      end
  end.

Definition temp_path (target unique_suffix : string) : string := target +:+ ".tmp-" +:+ unique_suffix.

Definition write_atomically (target contents unique_suffix : string) (publish_attempts : Z) (waits : bool) : Prog (option Error) :=
  let tmp := temp_path target unique_suffix in
  let! opened := OpenTemp tmp in
  if negb opened then Ret (Some (make_error Internal "shared refdata cache: cannot open temp artifact" "")) else
  let! written := WriteTemp tmp contents in
  if negb written then
    let! closed := CloseTemp tmp in
    let! cleaned := RemoveFile tmp in
    Ret (Some (make_error Internal "shared refdata cache: temp artifact write failed" ""))
  else
    let! synced := SyncTemp tmp in
    let! closed := CloseTemp tmp in
    if negb (synced && closed) then
      let! cleaned := RemoveFile tmp in
      Ret (Some (make_error Internal "shared refdata cache: temp artifact sync failed" ""))
    else
      let* published := publish_loop (bounded publish_attempts) 0 waits tmp target in
      if published : bool then Ret None
      else
        let! cleaned := RemoveFile tmp in
        Ret (Some (make_error Transient "shared refdata cache: could not publish the artifact after bounded retries (the target may be held open by a sibling reader)" "")).

Definition under_lock (config : SharedRefdataCacheConfig) (key : RefdataKey) (validate : option (string -> bool))
    (lock : LockPayload) : Prog (result string) :=
  let artifact := artifact_path (shared_root config) key in
  let lock_file := lock_path (shared_root config) key in
  let* cached := read_valid_artifact artifact validate in
  match cached with
  | Some c => Ret (Ok c)
  | None =>
      let! fetched := Upstream in
      let* touched := touch lock_file lock in
      match fetched with
      | Err e => Ret (Err e)
      | Ok payload =>
          if negb (accepts validate payload) then
            Ret (Err (make_error Validation "shared refdata cache: fetched artifact failed sanity validation" ""))
          else
            let* ours := still_ours lock_file lock in
            if negb ours then
              Ret (Err (make_error Transient "shared refdata cache: lost the refdata lock during the fetch; abandoning the publish" ""))
            else
              let* failed := write_atomically artifact payload (nonce lock) (max_publish_attempts config) (has_wait config) in
              Ret match failed with Some e => Err e | None => Ok payload end
      end
  end.

(** The lock is released on the way out of the scope that holds it. *)
Definition holding_lock (lock_file : string) (lock : LockPayload) {A} (body : Prog A) : Prog A :=
  let* answer := body in
  let* released := release lock_file lock in
  Ret answer.

(** [process] is the process identifier; [claims] the values its counter of
    takeovers takes. *)
Fixpoint attempt_loop (again : nat) (attempt : Z) (process : Z) (claims : Z -> Z)
    (config : SharedRefdataCacheConfig) (key : RefdataKey) (validate : option (string -> bool)) : Prog (result string) :=
  match again with
  | O => Ret (Err (make_error DataStale "shared refdata cache: lock held and no artifact appeared within the bounded wait; refdata unavailable" ""))
  | S again =>
      let lock_file := lock_path (shared_root config) key in
      let* lock := try_acquire_file_lock lock_file (lock_staleness config) process (claims attempt) in
      match lock with
      | Ok lock => holding_lock lock_file lock (under_lock config key validate lock)
      | Err _ =>
          let* cached := read_valid_artifact (artifact_path (shared_root config) key) validate in
          match cached with
          | Some c => Ret (Ok c)
          | None =>
              match again with
              | S _ =>
                  if has_wait config then
                    let! waited := Wait attempt in attempt_loop again (attempt + 1) process claims config key validate
                  else attempt_loop again (attempt + 1) process claims config key validate
              | O => attempt_loop again (attempt + 1) process claims config key validate
              end
          end
      end
  end.

Definition get_or_fetch (process : Z) (claims : Z -> Z) (config : SharedRefdataCacheConfig) (key : RefdataKey)
    (fetch : bool) (validate : option (string -> bool)) : Prog (result string) :=
  match validate_refdata_key key with
  | Err e => Ret (Err e)
  | Ok _ =>
      if String.eqb (shared_root config) "" then Ret (Err (make_error Validation "shared refdata cache: empty shared root" "")) else
      if negb fetch then Ret (Err (make_error Internal "shared refdata cache: no fetch seam wired" "")) else
      let outside := if String.eqb (account_data_root config) "" then Ok tt
                     else require_outside_account_tree (shared_root config) (account_data_root config) in
      match outside with
      | Err e => Ret (Err e)
      | Ok _ =>
          let* cached := read_valid_artifact (artifact_path (shared_root config) key) validate in
          match cached with
          | Some c => Ret (Ok c)
          | None =>
              let! root_ready := MakeDirs (shared_root config) in
              if negb root_ready then Ret (Err (make_error Internal "shared refdata cache: cannot create the shared cache directory" "")) else
              attempt_loop (bounded (max_lock_attempts config)) 0 process claims config key validate
          end
      end
  end.

(** *** Debris of killed processes *)

Fixpoint contains (needle l : list ascii) : bool :=
  bool_decide (needle `prefix_of` l) || match l with [] => false | _ :: l => contains needle l end.

Definition is_debris (name : string) : bool := contains (chars ".tmp-") (chars name) || contains (chars ".stale-") (chars name).

Definition debris_age (config : SharedRefdataCacheConfig) : Z := if 0 <? lock_staleness config then lock_staleness config else 600.

Fixpoint sweep_loop (config : SharedRefdataCacheConfig) (now : Z) (names : list string) (removed : Z) : Prog Z :=
  match names with
  | [] => Ret removed
  | name :: names =>
      if negb (is_debris name) then sweep_loop config now names removed else
      let path := path_join (shared_root config) name in
      let! mtime := ReadMtime path in
      if match mtime with Some m => (now <? m) || (now - m <=? debris_age config) | None => true end
      then sweep_loop config now names removed
      else let! gone := RemoveCounted path in
           sweep_loop config now names (match gone with Some true => removed + 1 | _ => removed end)
  end.

(** An absent listing: not a directory, or unreadable. *)
Definition sweep_debris (config : SharedRefdataCacheConfig) : Prog Z :=
  let! names := ListDir (shared_root config) in
  match names with
  | None => Ret 0
  | Some names => let! now := ClockNow in sweep_loop config now names 0
  end.

(** *** The fetch seams of the reference data *)

(** [None] stands for an empty function or a null pointer. *)
Definition make_shared_fetcher (cache : option SharedRefdataCacheConfig) (process : Z) (claims : Z -> Z) (broker segment extension : string)
    (trading_date_fn : option string) (upstream : bool) (validate : option (string -> bool)) : Prog (result string) :=
  match cache, trading_date_fn with
  | None, _ => Ret (Err (make_error Internal "shared refdata cache: no cache wired" ""))
  | Some _, None => Ret (Err (make_error Internal "shared refdata cache: no trading-date seam wired" ""))
  | Some config, Some date => get_or_fetch process claims config (mkKey broker segment date extension) upstream validate
  end.

Definition shared_instrument_csv_fetcher cache process claims broker segment trading_date_fn upstream (validate : option (string -> bool)) :=
  make_shared_fetcher cache process claims broker segment ".csv" trading_date_fn upstream
    (Some (match validate with Some v => v | None => csv_sanity_validator end)).

Definition shared_calendar_json_fetcher cache process claims broker trading_date_fn upstream (validate : option (string -> bool)) :=
  make_shared_fetcher cache process claims broker "calendar" ".json" trading_date_fn upstream
    (Some (match validate with Some v => v | None => json_sanity_validator end)).

(** ** Distinct keys, distinct files *)

Lemma token_char_plain c : is_token_char c = true -> c <> "_"%char /\ c <> "."%char /\ c <> slash.
Proof. destruct c as [[] [] [] [] [] [] [] []]; vm_compute; intros H; (split_and!; congruence) || discriminate. Qed.

Lemma extension_char_plain c : is_extension_char c = true -> c <> "-"%char /\ c <> "."%char /\ c <> slash.
Proof. destruct c as [[] [] [] [] [] [] [] []]; vm_compute; intros H; (split_and!; congruence) || discriminate. Qed.

Lemma date_char_plain c : Ascii.eqb c "-" = true \/ is_ascii_digit c = true -> c <> "."%char /\ c <> slash /\ c <> "_"%char.
Proof. destruct c as [[] [] [] [] [] [] [] []]; vm_compute; intros [H|H]; (split_and!; congruence) || discriminate. Qed.

Lemma forallb_not_in (f : ascii -> bool) (c : ascii) l : f c = false -> forallb f l = true -> c ∉ l.
Proof. intros Hc Hl Hin. rewrite forallb_forall in Hl. rewrite (Hl c) in Hc; [done|]. by apply list_elem_of_In. Qed.

(** What a valid key looks like. *)
Record valid_key (k : RefdataKey) : Prop := {
  vk_broker : broker k <> "" /\ forallb is_token_char (chars (broker k)) = true;
  vk_segment : segment k <> "" /\ forallb is_token_char (chars (segment k)) = true;
  vk_date : String.length (trading_date k) = 10%nat /\ "."%char ∉ chars (trading_date k) /\ slash ∉ chars (trading_date k);
  vk_extension : exists rest, chars (extension k) = "."%char :: rest /\ forallb is_extension_char rest = true }.

Lemma safe_token_chars t : is_safe_token t = true -> t <> "" /\ forallb is_token_char (chars t) = true.
Proof.
  unfold is_safe_token. rewrite !andb_true_iff, negb_true_iff. intros [[Hn _] Hf]. split; [|done]. by apply String.eqb_neq.
Qed.

Lemma iso_date_chars d : is_iso_date d = true ->
  String.length d = 10%nat /\ forall c, c ∈ chars d -> Ascii.eqb c "-" = true \/ is_ascii_digit c = true.
Proof.
  unfold is_iso_date. rewrite andb_true_iff. intros [Hl Hf]. split; [by apply Nat.eqb_eq|]. intros c (i & Hi)%list_elem_of_lookup.
  rewrite forallb_forall in Hf. specialize (Hf (i, c)). cbn beta iota in Hf. ospecialize (Hf _).
  - apply list_elem_of_In, list_elem_of_lookup. exists i. rewrite list_lookup_imap, Hi. done.
  - destruct (_ || _); [by left|by right].
Qed.

Lemma validate_refdata_key_ok k : validate_refdata_key k = Ok tt -> valid_key k.
Proof.
  unfold validate_refdata_key.
  destruct (is_safe_token (broker k)) eqn:Eb; cbn [negb]; [|done]. destruct (is_safe_token (segment k)) eqn:Es; cbn [negb]; [|done].
  destruct (is_iso_date (trading_date k)) eqn:Ed; cbn [negb]; [|done]. destruct (is_safe_extension (extension k)) eqn:Ee; cbn [negb]; [|done].
  intros _. apply safe_token_chars in Eb, Es. apply iso_date_chars in Ed as [Hl Hd]. constructor; [done|done| |].
  - split_and!; [done| |]; intros H; apply Hd in H; by apply date_char_plain in H as (? & ? & ?).
  - unfold is_safe_extension in Ee. destruct (chars (extension k)) as [|dot rest]; [done|].
    rewrite !andb_true_iff in Ee. destruct Ee as [[_ Hdot] Hr]. apply Ascii.eqb_eq in Hdot as ->. by exists rest.
Qed.

(** The name of an artifact before its extension, and the extension's tail. *)
Lemma artifact_name_shape k : valid_key k -> exists stem rest,
  chars (artifact_name k) = stem ++ "."%char :: rest /\ "."%char ∉ stem /\ slash ∉ stem /\ forallb is_extension_char rest = true.
Proof.
  intros [[_ Hb] [_ Hs] (_ & Hd & Hsl) (rest & He & Hr)].
  exists (chars (broker k) ++ chars "_" ++ chars (segment k) ++ chars "_" ++ chars (trading_date k)), rest.
  unfold artifact_name. rewrite !chars_app, He, <- !app_assoc. split; [done|].
  rewrite !not_elem_of_app.
  split_and!; solve [done|by apply (forallb_not_in is_token_char)|by apply (bool_decide_eq_true_1 _)].
Qed.

Lemma artifact_name_inj k k' : valid_key k -> valid_key k' -> artifact_name k = artifact_name k' -> k = k'.
Proof.
  intros [[_ Hb] [_ Hs] (Hl & _) _] [[_ Hb'] [_ Hs'] (Hl' & _) _] E. destruct k as [b s d e], k' as [b' s' d' e'].
  unfold artifact_name in E. cbn [broker segment trading_date extension] in *.
  assert (U : forall t, forallb is_token_char (chars t) = true -> "_"%char ∉ chars t) by (intros t; by apply forallb_not_in).
  apply (delimited "_") in E as [-> E]; [|by apply U|by apply U]. apply (delimited "_") in E as [-> E]; [|by apply U|by apply U].
  apply str_app_inv_len in E as [-> ->]; [done|congruence].
Qed.

(** No dash after the first dot: no dot is followed by a word with a dash. *)
Lemma no_dashed_word (stem rest word : list ascii) :
  "."%char ∉ stem -> "-"%char ∉ rest -> "-"%char ∈ word -> contains ("."%char :: word) (stem ++ "."%char :: rest) = false.
Proof.
  intros Hs Hr Hw.
  assert (R : forall l, "-"%char ∉ l -> contains ("."%char :: word) l = false).
  { induction l as [|c l IH]; intros Hl; cbn [contains].
    - apply orb_false_iff. split; [|done]. apply bool_decide_eq_false. intros [k Hk]. done.
    - apply not_elem_of_cons in Hl as [_ Hl]. apply orb_false_iff. split; [|by apply IH]. apply bool_decide_eq_false. intros [k Hk].
      injection Hk as _ ->. apply not_elem_of_app in Hl as [Hl _]. done. }
  induction stem as [|c stem IH]; cbn [app contains].
  - apply orb_false_iff. split; [|by apply R]. apply bool_decide_eq_false. intros [k Hk]. injection Hk as ->.
    apply not_elem_of_app in Hr as [Hr _]. done.
  - apply not_elem_of_cons in Hs as [Hc Hs]. apply orb_false_iff. split; [|by apply IH]. apply bool_decide_eq_false. intros [k Hk]. injection Hk as E _. congruence.
Qed.

Lemma not_debris stem rest (name : string) :
  chars name = stem ++ "."%char :: rest -> "."%char ∉ stem -> "-"%char ∉ rest -> is_debris name = false.
Proof.
  intros E Hs Hr. unfold is_debris. rewrite E. apply orb_false_iff.
  split; apply no_dashed_word; try done; by apply (bool_decide_eq_true_1 _).
Qed.

Lemma artifact_path_split root k : root <> "" -> valid_key k -> exists sep,
  (forall k', valid_key k' -> artifact_path root k' = root +:+ sep +:+ artifact_name k').
Proof.
  intros Hr _. exists (if bool_decide (last (chars root) = Some slash) then "" else String slash ""). intros k' Hk'.
  destruct (artifact_name_shape k' Hk') as (stem & rest & E & _ & Hsl & He). apply path_join_below; [done| |].
  - intros E'. rewrite E' in E. by destruct stem.
  - rewrite E. apply not_elem_of_app. split; [done|]. apply not_elem_of_cons. split; [done|]. by eapply (forallb_not_in is_extension_char).
Qed.

Lemma str_app_inv_tail (a b c : string) : (a +:+ c) = (b +:+ c) -> a = b.
Proof.
  intros E. apply str_app_inv_len in E as [? _]; [done|]. apply (f_equal String.length) in E. rewrite !str_length_app in E. lia.
Qed.

(** Valid keys do not share files. Two keys with the same artifact, or the
    same lock file, are the same key - although broker, segment and date are
    written one after another -, no artifact is the lock file of another key, and
    neither is ever taken for debris by the sweep. *)
Theorem keys_apart root k k' :
  root <> "" -> validate_refdata_key k = Ok tt -> validate_refdata_key k' = Ok tt ->
  (artifact_path root k = artifact_path root k' -> k = k') /\
  (lock_path root k = lock_path root k' -> k = k') /\
  artifact_path root k <> lock_path root k' /\
  is_debris (artifact_name k) = false /\ is_debris (artifact_name k +:+ ".lock") = false.
Proof.
  intros Hr Hk%validate_refdata_key_ok Hk'%validate_refdata_key_ok. destruct (artifact_path_split root k Hr Hk) as [sep P].
  unfold lock_path. rewrite (P k Hk), (P k' Hk').
  assert (A : root +:+ sep +:+ artifact_name k = root +:+ sep +:+ artifact_name k' -> k = k').
  { intros E%str_app_inv_head%str_app_inv_head. by apply artifact_name_inj. }
  destruct (artifact_name_shape k Hk) as (stem & rest & E & Hs & _ & He).
  assert (D : "-"%char ∉ rest) by by eapply (forallb_not_in is_extension_char).
  assert (D' : "."%char ∉ rest) by by eapply (forallb_not_in is_extension_char).
  split_and!; [done|intros E'%str_app_inv_tail; by apply A| |by eapply not_debris|].
  - rewrite !str_app_assoc. intros E'%str_app_inv_head%str_app_inv_head. destruct (artifact_name_shape k' Hk') as (stem' & rest' & E2 & Hs' & _).
    apply (f_equal chars) in E'. rewrite chars_app, E, E2, <- app_assoc in E'. cbn [app] in E'.
    destruct (not_elem_of_app_cons_inv_l _ _ _ _ _ _ Hs' Hs E') as (_ & _ & ->). apply D', elem_of_app. right. by apply (bool_decide_eq_true_1 _).
  - eapply not_debris; [rewrite chars_app, E, <- app_assoc; cbn [app]; done|done|].
    apply not_elem_of_app. split; [done|]. by apply (bool_decide_eq_true_1 _).
Qed.

Definition csv_key : RefdataKey := mkKey "kite" "nfo-opt" "2026-01-05" ".csv".

Lemma keys_apart_witness : artifact_path "/shared" csv_key <> lock_path "/shared" csv_key /\ is_debris (artifact_name csv_key) = false.
Proof.
  destruct (keys_apart "/shared" csv_key csv_key ltac:(discriminate) eq_refl eq_refl) as (_ & _ & H & H' & _). split; [exact H|exact H'].
Defined.

(** ** What one fetch does *)

Definition is_upstream (o : Op) : bool := match o with Upstream => true | _ => false end.
Definition is_stamp (o : Op) : bool := match o with Stamp _ => true | _ => false end.

(** Lock acquisitions begun. *)
Definition stamps (l : list Event) : nat := length (List.filter (fun e => is_stamp (op_of e)) l).
Definition no_download (l : list Event) : Prop := Forall (fun e => is_upstream (op_of e) = false) l.

Lemma stamps_app a b : stamps (a ++ b) = (stamps a + stamps b)%nat.
Proof. unfold stamps. by rewrite List.filter_app, length_app. Qed.

Lemma no_stamps l : Forall (fun e => is_stamp (op_of e) = false) l -> stamps l = 0%nat.
Proof.
  unfold stamps. induction 1 as [|e l He Hl IH]; [done|]. cbn [List.filter]. by rewrite He.
Qed.

(** Neither a download nor an acquisition. *)
Definition plain (o : Op) : Prop := is_upstream o = false /\ is_stamp o = false.
Definition plain_events (l : list Event) : Prop := Forall (fun e => plain (op_of e)) l.

Lemma plain_events_spec l : plain_events l -> no_download l /\ stamps l = 0%nat.
Proof. intros H. split; [|apply no_stamps]; eapply Forall_impl; try exact H; by intros e [? ?]. Qed.

Lemma mutates_only_plain P o : mutates_only P o -> plain o.
Proof. by destruct o. Qed.

Lemma all_ops_impl {A} (P R : Op -> Prop) (p : Prog A) : (forall o, P o -> R o) -> all_ops P p -> all_ops R p.
Proof. intros H. induction p as [a|o next IH]; [done|]. intros [Ho Hn]. split; [by apply H|]. intros a. by apply IH. Qed.

Lemma plain_runs {A} P (p : Prog A) : all_ops (mutates_only P) p -> all_runs p [] (fun l _ => plain_events l).
Proof.
  intros H. eapply all_runs_mono; [|apply (all_runs_ops plain p []); eapply all_ops_impl; [|exact H]; apply mutates_only_plain].
  by intros ? a (new & -> & ?).
Qed.

Ltac plain_list := unfold plain_events, no_download; repeat (apply Forall_cons_2 || apply Forall_nil_2 || (apply Forall_app; split) || exact eq_refl || (split; exact eq_refl) || assumption).

Section Fetch.
  Context (config : SharedRefdataCacheConfig) (key : RefdataKey) (validate : option (string -> bool)) (process : Z) (claims : Z -> Z).

Let artifact := artifact_path (shared_root config) key.
Let lock_file := lock_path (shared_root config) key.

(** The payload was read from the artifact, or downloaded and published. *)
Definition obtained (l : list Event) (t : string) : Prop :=
  accepts validate t = true /\
  ((t <> "" /\ ev (ReadText artifact) (Some t) ∈ l) \/
   (ev Upstream (Ok t) ∈ l /\ exists n, ev (RenameFile (temp_path artifact n) artifact) true ∈ l)).

(** The error is the upstream's or one of the cache's own. *)
Definition refused (l : list Event) (e : Error) : Prop :=
  ev Upstream (Err e) ∈ l \/ category e ∈ [Validation; Internal; Transient; DataStale].

Definition answered (l : list Event) (r : result string) : Prop :=
  match r with Ok t => obtained l t | Err e => refused l e end.

(** One download, right after a successful acquisition of the lock and a last
    look at the artifact. *)
Definition downloaded_once (l : list Event) : Prop :=
  exists before got look f after lock c,
    l = before ++ got ++ look ++ ev Upstream f :: after /\
    acquired_events lock_file (lock_staleness config) (claim_path_of lock_file process c) lock got /\
    plain_events look /\ no_download (before ++ got ++ look) /\ no_download after.

Lemma answered_more a b c r : answered b r -> answered (a ++ b ++ c) r.
Proof.
  assert (M : forall e, e ∈ b -> e ∈ a ++ b ++ c) by (intros e H; set_solver).
  destruct r as [t|e]; cbn [answered].
  - intros [Ha [[Hn Hr]|[Hu [n Hn]]]]; split; auto; right; eauto.
  - intros [H|H]; [left|right]; auto.
Qed.

Lemma read_valid_runs : all_runs (read_valid_artifact artifact validate) [] (fun l r =>
  plain_events l /\ match r with Some c => obtained l c | None => True end).
Proof.
  intros [[]|]; [|by split; [repeat constructor|]..]. cbn [app]. intros [c|]; cbn [app all_runs mbind option_bind]; (split; [plain_list|]); [|done].
  destruct (String.eqb_spec c "") as [|Hc]; [done|]. destruct (accepts validate c) eqn:Hv; [|done]. split; [done|]. left. split; [done|]. set_solver.
Qed.

Lemma acquire_events c : all_runs (try_acquire_file_lock lock_file (lock_staleness config) process c) [] (fun l r =>
  no_download l /\ (stamps l <= 1)%nat /\
  match r with
  | Ok lock => acquired_events lock_file (lock_staleness config) (claim_path_of lock_file process c) lock l
  | Err _ => True
  end).
Proof.
  assert (C : all_runs (try_acquire_file_lock lock_file (lock_staleness config) process c) [] (fun l _ => no_download l /\ (stamps l <= 1)%nat)).
  { unfold try_acquire_file_lock. destruct (String.eqb lock_file ""); [split; [constructor|cbn; lia]|].
    apply runs_do. intros ready. destruct (negb ready); [split; [plain_list|cbn; lia]|]. apply runs_do. intros [[at_ ns] k].
    eapply all_runs_mono; [|by apply (plain_runs (fun _ => True)), acquire_with_touches].
    intros l _ [Hd Hs]%plain_events_spec. split; [plain_list|]. change (S (stamps l) <= 1)%nat. lia. }
  eapply all_runs_mono; [|exact (all_runs_and _ _ _ _ C (acquire_runs lock_file (lock_staleness config) process c))].
  intros l [q|e] [[Hd Hs] (p & _ & H)]; split_and!; try done. by destruct H as (-> & _ & H).
Qed.

(** From here on the lock is held. *)
Lemma write_runs lock t : all_runs (write_atomically artifact t (nonce lock) (max_publish_attempts config) (has_wait config)) [] (fun l r =>
  plain_events l /\ match r with
    | None => ev (RenameFile (temp_path artifact (nonce lock)) artifact) true ∈ l
    | Some e => category e ∈ [Validation; Internal; Transient; DataStale]
    end).
Proof.
  assert (Pl : forall again attempt, all_runs (publish_loop again attempt (has_wait config) (temp_path artifact (nonce lock)) artifact) [] (fun l r =>
    plain_events l /\ if r then ev (RenameFile (temp_path artifact (nonce lock)) artifact) true ∈ l else True)).
  { induction again as [|again IH]; intros attempt; [by split; [constructor|]|]. apply runs_do. intros [].
    - split; [plain_list|set_solver].
    - assert (K : forall l, plain_events l -> plain_events (ev (RenameFile (temp_path artifact (nonce lock)) artifact) false :: l)) by by constructor.
      assert (K' : forall l, plain_events l -> plain_events (ev (Wait attempt) tt :: l)) by by constructor.
      destruct again as [|again]; [split; [by apply K; constructor|done]|]. destruct (has_wait config).
      + apply runs_do. intros []. eapply all_runs_mono; [|apply IH]. intros l r [Hl Hr]. split; [by apply K, K'|]. destruct r; [set_solver|done].
      + eapply all_runs_mono; [|apply IH]. intros l r [Hl Hr]. split; [by apply K|]. destruct r; [set_solver|done]. }
  unfold write_atomically. apply runs_do. intros opened.
  assert (I : Internal ∈ [Validation; Internal; Transient; DataStale]) by set_solver.
  destruct opened; cbn [negb]; [|split; [plain_list|done]]. apply runs_do. intros written.
  destruct written; cbn [negb]; [|intros closed cleaned; split; [plain_list|done]].
  apply runs_do. intros synced. apply runs_do. intros closed. destruct (negb _); [intros cleaned; split; [plain_list|done]|].
  eapply runs_then; [apply Pl|]. intros l [] [Hl Hr]; [cbn [all_runs]; rewrite app_nil_r; split; [|set_solver]|intros cleaned; split].
  - plain_list.
  - cbn [app]. plain_list.
  - cbn. set_solver.
Qed.

Lemma plain_app a b : plain_events a -> plain_events b -> plain_events (a ++ b).
Proof. intros. by apply Forall_app. Qed.

Lemma under_lock_runs lock : all_runs (under_lock config key validate lock) [] (fun l r =>
  answered l r /\ (plain_events l \/ exists look f after, l = look ++ ev Upstream f :: after /\ plain_events look /\ plain_events after)).
Proof.
  unfold under_lock. eapply runs_then; [apply read_valid_runs|]. intros look [c|] [Hlook Hc].
  { cbn [all_runs]. rewrite app_nil_r. split; [exact Hc|by left]. }
  apply runs_do. intros f. eapply runs_then; [by apply (plain_runs (fun _ => True)), touch_touches|]. intros t1 touched Ht1.
  assert (S : forall after, plain_events after -> exists look' f' after', look ++ ev Upstream f :: t1 ++ after = look' ++ ev Upstream f' :: after' /\ plain_events look' /\ plain_events after').
  { intros after Ha. exists look, f, (t1 ++ after). split_and!; [done..|]. by apply plain_app. }
  assert (E : forall c m after, c ∈ [Validation; Internal; Transient; DataStale] -> answered (look ++ ev Upstream f :: t1 ++ after) (Err (make_error c m ""))) by (intros; by right).
  destruct f as [t|e]; cbn [all_runs].
  2:{ split; [left; set_solver|right; by apply S; constructor]. }
  destruct (accepts validate t) eqn:Hv; cbn [negb]; [|split; [apply E; set_solver|right; by apply S; constructor]].
  eapply runs_then; [by apply (plain_runs (fun _ => True)); split|]. intros t2 ours Ht2. destruct ours; cbn [negb all_runs].
  2:{ split; [apply E; set_solver|right; by apply S; rewrite app_nil_r]. }
  eapply runs_then; [apply write_runs|]. intros t3 failed [Ht3 Hf]. cbn [all_runs]. rewrite app_nil_r.
  split; [|right; by apply S, plain_app]. destruct failed as [e|]; [by right|]. split; [done|]. right.
  split; [set_solver|]. exists (nonce lock). set_solver.
Qed.

Lemma downloaded_more a b c : no_download a -> downloaded_once b -> no_download c -> downloaded_once (a ++ b ++ c).
Proof.
  intros Ha (before & got & look & f & after & lock & k & -> & Hg & Hl & Hb & Haf) Hc.
  exists (a ++ before), got, look, f, (after ++ c), lock, k. split; [by rewrite <- !app_assoc|]. split; [done|]. split; [done|].
  split; [rewrite <- app_assoc; by apply Forall_app|by apply Forall_app].
Qed.

Definition fetched_well (n : nat) (l : list Event) (r : result string) : Prop :=
  answered l r /\ (stamps l <= n)%nat /\ (no_download l \/ downloaded_once l).

(** What came before without a download, or after. *)
Lemma fetched_more n m a b r : no_download a -> (stamps a <= m)%nat -> fetched_well n b r -> fetched_well (m + n) (a ++ b) r.
Proof.
  intros Ha Hs (Hr & Hn & Hd). rewrite <- (app_nil_r b). split; [by apply answered_more|]. rewrite !stamps_app. split; [cbn; lia|].
  destruct Hd as [Hd|Hd]; [left|right; by apply downloaded_more; [|done|constructor]]. rewrite app_nil_r. by apply Forall_app.
Qed.

Lemma cached_well a l c : no_download a -> plain_events l -> obtained l c -> fetched_well (stamps a) (a ++ l) (Ok c).
Proof.
  intros Ha [Hd Hs]%plain_events_spec Hc. rewrite <- (Nat.add_0_r (stamps a)). apply fetched_more; [done..|].
  split; [done|]. split; [lia|by left].
Qed.

Lemma held_runs lock l1 c :
  no_download l1 -> acquired_events lock_file (lock_staleness config) (claim_path_of lock_file process c) lock l1 ->
  all_runs (holding_lock lock_file lock (under_lock config key validate lock)) [] (fun l r => fetched_well (stamps l1) (l1 ++ l) r).
Proof.
  intros Hd Hacq. eapply runs_then; [apply under_lock_runs|]. intros l2 r [Hr Hl2].
  eapply runs_then; [by apply (plain_runs (fun _ => True)), release_touches|]. intros l3 released [Hd3 Hs3]%plain_events_spec. cbn [all_runs].
  rewrite app_nil_r. split; [by apply answered_more|]. rewrite !stamps_app, Hs3.
  destruct Hl2 as [[Hd2 Hs2]%plain_events_spec|(look & f & after & -> & Hlook & [Hda Hsa]%plain_events_spec)].
  - split; [lia|]. left. by repeat apply Forall_app_2.
  - destruct (plain_events_spec _ Hlook) as [Hdl Hsl]. rewrite stamps_app, Hsl. change (stamps (ev Upstream f :: after)) with (stamps after). rewrite Hsa.
    split; [lia|]. right. exists [], l1, look, f, (after ++ l3), lock, c. split; [by rewrite <- !app_assoc|].
    split; [done|]. split; [done|]. split; by repeat apply Forall_app_2.
Qed.

Lemma attempts_runs : forall again attempt,
  all_runs (attempt_loop again attempt process claims config key validate) [] (fetched_well again).
Proof.
  induction again as [|again IH]; intros attempt; cbn [attempt_loop].
  { split; [right; set_solver|]. split; [cbn; lia|left; constructor]. }
  eapply runs_then; [apply acquire_events|]. intros l1 [lock|e] (Hd & Hs & Hl).
  - eapply all_runs_mono; [|by eapply held_runs]. intros l r (Hr & Hn & Hdl). split; [done|]. split; [lia|done].
  - eapply runs_then; [apply read_valid_runs|]. intros l2 [c|] [Hp Hc]; cbn [all_runs].
    + rewrite app_nil_r. destruct (cached_well l1 l2 c Hd Hp Hc) as (Hr & Hn & Hdl). split; [done|]. split; [lia|done].
    + assert (K : forall extra r l, plain_events extra -> fetched_well again l r -> fetched_well (S again) (l1 ++ l2 ++ extra ++ l) r).
      { intros extra r l [Hde Hse]%plain_events_spec Hw. destruct (plain_events_spec _ Hp) as [Hd2 Hs2]. rewrite !app_assoc.
        apply (fetched_more again 1); [by repeat apply Forall_app_2|rewrite !stamps_app; lia|done]. }
      assert (L : all_runs (attempt_loop again (attempt + 1) process claims config key validate) [] (fun l r => fetched_well (S again) (l1 ++ l2 ++ l) r)).
      { eapply all_runs_mono; [|apply IH]. intros l r. apply (K []). constructor. }
      destruct again as [|again]; [exact L|]. destruct (has_wait config); [|exact L].
      apply runs_do. intros []. eapply all_runs_mono; [|apply IH]. intros l r. apply (K [ev (Wait attempt) tt]). plain_list.
Qed.

(** what one fetch does in any run, whatever the system, the other processes
    and the upstream answer. It returns a payload only if the sanity check accepts
    it, and then it read it from the artifact or downloaded it and published it by
    the rename of a temporary file; every failure is the upstream's error or one
    of four kinds. It downloads at most once, and then right after it acquired the
    lock and looked at the artifact once more; and it begins at most the configured
    number of acquisitions. *)
Theorem fetch_protocol fetch :
  all_runs (get_or_fetch process claims config key fetch validate) [] (fun l r =>
    match r with Ok t => obtained l t | Err e => refused l e end /\
    (stamps l <= bounded (max_lock_attempts config))%nat /\ (no_download l \/ downloaded_once l)).
Proof.
  assert (V : forall l c m, no_download l -> stamps l = 0%nat -> c ∈ [Validation; Internal; Transient; DataStale] ->
    refused l (make_error c m "") /\ (stamps l <= bounded (max_lock_attempts config))%nat /\ (no_download l \/ downloaded_once l)).
  { intros l c m Hd Hs Hc. split; [by right|]. split; [lia|by left]. }
  unfold get_or_fetch. destruct (validate_refdata_key key) as [[]|e] eqn:Ek.
  2:{ cbn [all_runs]. unfold validate_refdata_key in Ek. repeat case_match; try discriminate; injection Ek as <-; (apply V; [constructor|done|clear; set_solver]). }
  destruct (String.eqb (shared_root config) ""); [apply V; [constructor|done|set_solver]|].
  destruct (negb fetch); [apply V; [constructor|done|set_solver]|]. cbn zeta.
  destruct (if String.eqb (account_data_root config) "" then _ else _) as [[]|e] eqn:Eo.
  2:{ destruct (String.eqb (account_data_root config) ""); [done|]. unfold require_outside_account_tree in Eo.
      repeat case_match; try discriminate; injection Eo as <-; (apply V; [constructor|done|clear; set_solver]). }
  eapply runs_then; [apply read_valid_runs|]. intros l1 [c|] [Hp Hc]; cbn [all_runs].
  { rewrite app_nil_r. destruct (cached_well [] l1 c ltac:(constructor) Hp Hc) as (Hr & Hn & Hd). split; [done|]. change (stamps l1 <= 0)%nat in Hn. split; [lia|done]. }
  destruct (plain_events_spec _ Hp) as [Hd1 Hs1]. apply runs_do. intros ready.
  assert (Hm : no_download (l1 ++ [ev (MakeDirs (shared_root config)) ready])) by (apply Forall_app_2; [done|plain_list]).
  assert (Hms : stamps (l1 ++ [ev (MakeDirs (shared_root config)) ready]) = 0%nat) by (rewrite stamps_app, Hs1; done).
  destruct ready; cbn [negb all_runs]; [|apply V; [done|done|set_solver]].
  eapply all_runs_mono; [|apply attempts_runs]. intros l r Hw. change (ev (MakeDirs (shared_root config)) true :: l) with ([ev (MakeDirs (shared_root config)) true] ++ l).
  rewrite app_assoc. destruct (fetched_more _ 0 _ _ _ Hm ltac:(lia) Hw) as (Hr & Hn & Hdl). split; [by destruct r|done].
Qed.
End Fetch.

(** ** The location *)

(** The guard compares lexically normal names: a relative account root below the
    working directory is not seen to be inside the shared root ".". *)
Example dot_root_passes :
  require_outside_account_tree "." "accounts" = Ok tt /\
  require_outside_account_tree "/srv/x/../shared/" "/srv/shared/acc" <> Ok tt /\
  require_outside_account_tree "/srv/shared" "/srv/accounts" = Ok tt.
Proof. split; [reflexivity|]. split; [discriminate|reflexivity]. Qed.

(** An extension may be upper case: two keys whose artifacts are one file where
    letter case is ignored. *)
Example case_variants_valid :
  validate_refdata_key csv_key = Ok tt /\ validate_refdata_key (mkKey "kite" "nfo-opt" "2026-01-05" ".CSV") = Ok tt /\
  fold_string (artifact_name (mkKey "kite" "nfo-opt" "2026-01-05" ".CSV")) = artifact_name csv_key.
Proof. split_and!; reflexivity. Qed.
