(* ===== verification/CacheSystem.v ===== *)
(** * CacheSystem: several processes and one artifact

    The processes that fetch the same reference data through [SharedCache], as a
    step relation over one world of files, and what the artifact holds: the proof
    is a rely-guarantee argument in the logic of [FileOps], where a process owns
    the temporary file named by its nonce. *)

From stdpp Require Import functions.
From S2P Require Import Prelude Programs Errors FileOps FileLock SharedCache.
Open Scope prog_scope.

Section Artifact.
  Context (root : string) (key : RefdataKey) (validate : option (string -> bool)) (initial : option string).

Let artifact := artifact_path root key.
Let lock_file := lock_path root key.

(** The nonce of the process's last acquisition, what is known of its temporary
    file, and a payload the upstream answered it. *)
Record Own := mkOwn { own_nonce : option string; own_temp : option string; own_payload : option string }.

Definition mine (own : Own) (w : World) : Prop :=
  (forall n, own_nonce own = Some n -> n ∈ issued w /\
    forall d f, own_temp own = Some d -> files w !! temp_path artifact n = Some f -> text f = d) /\
  (forall t, own_payload own = Some t -> t ∈ downloaded w).

(** The artifact is what it was at first or an accepted download, whole. *)
Definition sound (w : World) : Prop :=
  forall f, files w !! artifact = Some f ->
  Some (text f) = initial \/ (accepts validate (text f) = true /\ text f ∈ downloaded w).

Definition guarantee (own : Own) (w : World) (own' : Own) (w' : World) : Prop :=
  issued w ⊆ issued w' /\ downloaded w ⊆ downloaded w' /\
  (forall n, own_nonce own' = Some n -> own_nonce own = Some n \/ n ∉ issued w) /\
  (forall n f, n ∈ issued w -> own_nonce own <> Some n ->
     files w' !! temp_path artifact n = Some f -> files w !! temp_path artifact n = Some f) /\
  (sound w -> sound w').

Definition always (_ : Own) : Prop := True.
Abbreviation runs_safely := (safe performs mine guarantee always).

(** Neither the artifact nor one of its temporary files. *)
Definition apart (path : string) : Prop := path <> artifact /\ forall n, path <> temp_path artifact n.

Lemma temp_path_inj n n' : temp_path artifact n = temp_path artifact n' -> n = n'.
Proof. unfold temp_path. by intros E%str_app_inv_head%str_app_inv_head. Qed.

Lemma longer_ne (a b : string) : b <> "" -> a +:+ b <> a.
Proof. intros Hb E. apply (f_equal String.length) in E. rewrite str_length_app in E. destruct b; [done|]. simpl in E. lia. Qed.

Lemma temp_path_ne n : temp_path artifact n <> artifact.
Proof. by apply longer_ne. Qed.

Lemma lock_apart : apart lock_file.
Proof. split; [by apply longer_ne|]. intros n E. unfold lock_file, lock_path, temp_path in E. by apply str_app_inv_head in E. Qed.

Lemma claim_apart i c : apart (claim_path_of lock_file i c).
Proof.
  unfold claim_path_of, lock_file, lock_path. rewrite str_app_assoc. split; [by apply longer_ne|].
  intros n E. unfold temp_path in E. by apply str_app_inv_head in E.
Qed.

(** What leaves the artifact and every temporary file alone keeps every promise. *)
Lemma apart_harmless o : mutates_only apart o -> harmless performs mine guarantee always o.
Proof.
  intros Ho own w a w' _ Hm Hp.
  assert (K : forall path, ~ apart path -> files w' !! path = files w !! path /\ issued w' = issued w /\ downloaded w' = downloaded w)
    by (intros path; by eapply mutates_only_spec).
  assert (A : ~ apart artifact) by (intros [H _]; done).
  assert (T : forall n, ~ apart (temp_path artifact n)) by (intros n [_ H]; by apply (H n)).
  destruct (K _ A) as (EA & EI & ED). assert (ET : forall n, files w' !! temp_path artifact n = files w !! temp_path artifact n) by (intros n; by apply K).
  split.
  - destruct Hm as [Hn Hd]. split; [|by rewrite ED]. intros n E. rewrite EI, ET. by apply Hn.
  - unfold guarantee, sound. rewrite EI, EA, ED. split_and!; [done|done|by left| |done]. intros n f _ _. by rewrite ET.
Qed.

Lemma safe_apart {A} (post : Own -> A -> Prop) own (q : Prog A) :
  all_ops (mutates_only apart) q -> (forall past, all_runs q past (fun _ a => post own a)) -> runs_safely post own q.
Proof.
  intros Ho Hr. apply (safe_harmless _ _ _ _ _ _ _ []); [done| |apply Hr]. clear Hr. induction q as [a|o next IH]; [done|].
  destruct Ho as [Ho Hn]. split; [by apply apart_harmless|]. intros a. by apply IH.
Qed.

Lemma fetch_quiet {A} (post : Own -> A -> Prop) own o next :
  mutates_only apart o -> (forall a, runs_safely post own (next a)) -> runs_safely post own (Do o next).
Proof. intros Ho H. apply safe_do; [by apply apart_harmless|done|]. intros w a w' _ _. apply H. Qed.

Lemma any_result {A} (q : Prog A) : forall past, all_runs q past (fun _ _ => True).
Proof. induction q as [a|o next IH]; intros past; cbn [all_runs]; [done|]. intros a. apply IH. Qed.

(** A program on other files, followed by one that is safe. *)
Lemma safe_apart_seq {A B} (post : Own -> B -> Prop) own (q : Prog A) (f : A -> Prog B) :
  all_ops (mutates_only apart) q -> (forall a, runs_safely post own (f a)) -> runs_safely post own (seq_prog q f).
Proof.
  intros Ho Hf. apply (safe_seq _ _ _ _ (fun own' _ => own' = own)); [by intros own' a ->|]. apply safe_apart; [done|].
  intros past. eapply all_runs_mono; [|apply any_result]. done.
Qed.

Definition whatever {A} (_ : Own) (_ : A) : Prop := True.
Definition locked (own : Own) (r : result LockPayload) : Prop :=
  match r with Ok p => own_nonce own = Some (nonce p) | Err _ => True end.

(** An operation on the process's own temporary file, or none at all. *)
Lemma own_step own own' n w w' :
  mine own w -> own_nonce own = Some n -> own_nonce own' = Some n -> own_payload own' = own_payload own ->
  issued w' = issued w -> downloaded w' = downloaded w ->
  (forall path, path <> temp_path artifact n -> path <> artifact -> files w' !! path = files w !! path) ->
  (sound w -> sound w') ->
  (forall d f, own_temp own' = Some d -> files w' !! temp_path artifact n = Some f -> text f = d) ->
  mine own' w' /\ guarantee own w own' w'.
Proof.
  intros [Hn Hd] En En' Ep EI ED EF Hs Ht. split.
  - split; [|by rewrite Ep, ED]. intros m Hm. rewrite En' in Hm. injection Hm as <-. rewrite EI. split; [by apply Hn|done].
  - unfold guarantee. rewrite EI, ED. split_and!; [done|done| | |done].
    + intros m Hm. left. congruence.
    + intros m f _ Hne. rewrite EF; [done| |apply temp_path_ne]. intros E%temp_path_inj. congruence.
Qed.

(** Nothing written: less may be known. *)
Lemma unwritten own own' n w : mine own w -> own_nonce own = Some n -> own_nonce own' = Some n -> own_payload own' = own_payload own ->
  (own_temp own' = None \/ own_temp own' = own_temp own \/ files w !! temp_path artifact n = None) -> mine own' w /\ guarantee own w own' w.
Proof.
  intros Hm En En' Ep Hc. apply (own_step _ _ n); try done. intros d f Ed Ef. destruct Hc as [Hc|[Hc|Hc]]; [congruence| |congruence].
  eapply Hm; [done|congruence|done].
Qed.

Lemma sound_same w w' : files w' !! artifact = files w !! artifact -> downloaded w' = downloaded w -> sound w -> sound w'.
Proof. intros EA ED H. unfold sound. by rewrite EA, ED. Qed.

Lemma stepped (P : Prop) own w own' w' :
  mine own' w' /\ guarantee own w own' w' -> P -> always own' /\ mine own' w' /\ guarantee own w own' w' /\ P.
Proof. intros [? ?] ?. by split_and!. Qed.

Lemma fetch_acquire own staleness i c : runs_safely locked own (try_acquire_file_lock lock_file staleness i c).
Proof.
  unfold try_acquire_file_lock. destruct (String.eqb lock_file ""); [done|]. apply fetch_quiet; [done|].
  intros ready. destruct (negb ready); [done|]. intros w [[at_ ns] k] w' [Hn Hd] (_ & Hf & ->).
  exists (mkOwn (Some (make_nonce i ns k)) None (own_payload own)). split; [done|]. split; [|split].
  - split; [|done]. intros n [= <-]. split; [cbn; set_solver|done].
  - split_and!; [cbn; set_solver|done| |done|done]. intros n [= <-]. by right.
  - apply safe_apart; [apply acquire_with_touches; [apply lock_apart|apply claim_apart]|].
    intros past. eapply all_runs_mono; [|apply acquire_with_result]. by intros _ [q|e] Hq; [subst|].
Qed.

Lemma fetch_read {B} own (f : option string -> Prog B) (post : Own -> B -> Prop) :
  (forall c, runs_safely post own (f c)) -> runs_safely post own (seq_prog (read_valid_artifact artifact validate) f).
Proof. apply safe_apart_seq. split; [done|]. by intros [[]|]. Qed.

(** Dropping the temporary file. *)
Lemma safe_drop {A} own n (a : A) : own_nonce own = Some n ->
  runs_safely whatever own (Do (RemoveFile (temp_path artifact n)) (fun _ => Ret a)).
Proof.
  intros En w gone w' Hm Hp. exists own. apply stepped; [|done].
  cbn [performs] in Hp.
  assert (K : forall path, path <> temp_path artifact n -> files w' !! path = files w !! path).
  { intros path Hne. destruct gone; subst; [|done]. by apply lookup_delete_ne. }
  apply (own_step _ _ n); try done; try (by destruct gone; subst); [by intros; apply K| |].
  - apply sound_same; [apply K; intros E; by eapply temp_path_ne|by destruct gone; subst].
  - intros d f Ed Ef. destruct gone; subst; [cbn in Ef; by rewrite lookup_delete_eq in Ef|]. by eapply Hm.
Qed.

(** The rename of a temporary file known to hold an accepted download. *)
Lemma safe_publish own n t waits : own_nonce own = Some n -> own_temp own = Some t -> own_payload own = Some t -> accepts validate t = true ->
  forall again attempt, runs_safely (fun own' _ => own' = own) own (publish_loop again attempt waits (temp_path artifact n) artifact).
Proof.
  intros En Et Ep Hv. induction again as [|again IH]; intros attempt; [done|].
  intros w published w' Hm Hp. exists own. apply stepped.
  - cbn [performs] in Hp. destruct published; [|subst; apply (unwritten _ _ n); auto].
    destruct Hp as (f & Ef & ->). apply (own_step _ _ n); try done.
    + intros path Ht Ha. cbn [files with_files]. rewrite lookup_insert_ne by done. by apply lookup_delete_ne.
    + intros _ f' Ef'. cbn [files with_files] in Ef'. rewrite lookup_insert_eq in Ef'. injection Ef' as <-. right.
      destruct Hm as [Hn Hd]. rewrite (proj2 (Hn n En) t f Et Ef). split; [done|by apply Hd].
    + intros d f' _ Ef'. cbn [files with_files] in Ef'. rewrite lookup_insert_ne in Ef' by (intros E; symmetry in E; by eapply temp_path_ne).
      by rewrite lookup_delete_eq in Ef'.
  - destruct published; [done|]. destruct again as [|again]; [done|]. destruct waits; [|apply IH]. apply fetch_quiet; [done|]. intros _. apply IH.
Qed.

(** What is written to the temporary file. *)
Lemma wrote own own' n w c : mine own w -> own_nonce own = Some n -> own_nonce own' = Some n -> own_payload own' = own_payload own ->
  (own_temp own' = None \/ own_temp own' = Some c) ->
  mine own' (put_file (temp_path artifact n) c w) /\ guarantee own w own' (put_file (temp_path artifact n) c w).
Proof.
  intros Hm En En' Ep Hc.
  assert (K : forall path, path <> temp_path artifact n -> files (put_file (temp_path artifact n) c w) !! path = files w !! path)
    by (intros path Hne; by apply lookup_insert_ne).
  apply (own_step _ _ n); try done; [by intros; apply K| |].
  - apply sound_same; [|done]. apply K. intros E. by eapply temp_path_ne.
  - intros d f Ed Ef. cbn in Ef. rewrite lookup_insert_eq in Ef. injection Ef as <-. cbn. destruct Hc; congruence.
Qed.

Lemma safe_write own n t attempts waits : own_nonce own = Some n -> own_payload own = Some t -> accepts validate t = true ->
  runs_safely whatever own (write_atomically artifact t n attempts waits).
Proof.
  intros En Ep Hv w opened w' Hm Hp. unfold write_atomically. set (known d := mkOwn (Some n) d (Some t)).
  cbn [performs] in Hp. destruct opened; [subst|subst; exists own; apply stepped; [by eapply unwritten; auto|done]].
  exists (known (Some "")). apply stepped; [by eapply wrote; eauto|]. clear Hm w.
  intros w written w' Hm Hp. cbn [performs] in Hp. destruct written.
  - exists (known (Some t)). apply stepped.
    + destruct (files w !! _) eqn:Ef; subst; [by eapply wrote; eauto|]. eapply unwritten; [done..|]. by right; right.
    + cbn [negb]. apply fetch_quiet; [done|]. intros synced. apply fetch_quiet; [done|]. intros closed. destruct (negb _); [by apply safe_drop|].
      eapply (safe_seq _ _ _ _ (fun own' _ => own' = known (Some t))); [|by apply (safe_publish _ n t)].
      intros own' [] ->; [done|]. by apply safe_drop.
  - exists (known None). apply stepped.
    + destruct (files w !! _) eqn:Ef; [destruct Hp as [k ->]; by eapply wrote; eauto|]. subst. eapply unwritten; [done..|]. by left.
    + cbn [negb]. apply fetch_quiet; [done|]. intros closed. by apply safe_drop.
Qed.

(** *** A whole fetch *)

(** An answer of the upstream is a download from then on. *)
Lemma upstream_answered own w fetched : mine own w ->
  let own' := mkOwn (own_nonce own) (own_temp own) (match fetched with Ok t => Some t | Err _ => own_payload own end) in
  mine own' (note_download fetched w) /\ guarantee own w own' (note_download fetched w).
Proof.
  intros [Hn Hd]. destruct fetched as [t|e]; cbn [note_download].
  - split; [split; [done|intros ? [= <-]; cbn; set_solver]|]. unfold guarantee. split_and!; try done; [cbn; set_solver|by left|].
    intros Hs f Ef. destruct (Hs f Ef) as [?|[? ?]]; [by left|right]. split; [done|cbn; set_solver].
  - split; [done|]. unfold guarantee. split_and!; try done. by left.
Qed.

Lemma safe_under_lock config lock own : shared_root config = root -> own_nonce own = Some (nonce lock) ->
  runs_safely whatever own (under_lock config key validate lock).
Proof.
  intros Hr En. unfold under_lock. rewrite Hr. apply fetch_read. intros [c|]; [done|].
  intros w fetched w' Hm Hp. cbn [performs] in Hp. subst w'.
  set (own' := mkOwn (own_nonce own) (own_temp own) (match fetched with Ok t => Some t | Err _ => own_payload own end)).
  exists own'. apply stepped.
  { by apply upstream_answered. }
  apply safe_apart_seq; [apply touch_touches, lock_apart|]. intros _. destruct fetched as [t|e]; [|done].
  destruct (accepts validate t) eqn:Hv; cbn [negb]; [|done]. apply safe_apart_seq; [done|]. intros []; cbn [negb]; [|done].
  apply (safe_seq _ _ _ _ whatever); [done|]. by apply safe_write.
Qed.

Lemma safe_attempts config process claims : shared_root config = root ->
  forall again attempt own, runs_safely whatever own (attempt_loop again attempt process claims config key validate).
Proof.
  intros Hr. induction again as [|again IH]; intros attempt own; cbn [attempt_loop]; [done|]. rewrite Hr.
  apply (safe_seq _ _ _ _ locked); [|apply fetch_acquire]. intros own' [lock|e] Hl.
  - apply (safe_seq _ _ _ _ whatever); [|by apply safe_under_lock].
    intros own2 r _. apply safe_apart_seq; [apply release_touches, lock_apart|done].
  - apply fetch_read. intros [c|]; [done|]. destruct again as [|again]; [apply IH|]. destruct (has_wait config); [|apply IH].
    apply fetch_quiet; [done|]. intros _. apply IH.
Qed.

Lemma safe_fetch config process claims fetch own : shared_root config = root ->
  runs_safely whatever own (get_or_fetch process claims config key fetch validate).
Proof.
  intros Hr. unfold get_or_fetch. destruct (validate_refdata_key key); [|done]. rewrite Hr. destruct (String.eqb root ""); [done|].
  destruct (negb fetch); [done|]. cbn zeta. destruct (if String.eqb (account_data_root config) "" then _ else _); [|done].
  apply fetch_read. intros [c|]; [done|]. apply fetch_quiet; [done|]. intros []; [|done]. by apply safe_attempts.
Qed.

(** ** Several processes *)

Record Fetchers := mkFetchers { fetchers : Z -> option (Prog (result string)); disk : World }.

Definition set_fetcher (s : Fetchers) (i : Z) (q : option (Prog (result string))) (w : World) : Fetchers :=
  mkFetchers (<[i := q]> (fetchers s)) w.

(** A process starts a fetch of the key with the configuration it has, is at the
    next operation of its program, or is killed; sweeps of debris and processes on
    other keys remove or touch other files. *)
Inductive fetch_step (s : Fetchers) : Fetchers -> Prop :=
  | fetch_start i claims config fetch : fetchers s i = None -> shared_root config = root ->
      fetch_step s (set_fetcher s i (Some (get_or_fetch i claims config key fetch validate)) (disk s))
  | fetch_op i o next a w : fetchers s i = Some (Do o next) -> performs o (disk s) a w ->
      fetch_step s (set_fetcher s i (Some (next a)) w)
  | fetch_done i r : fetchers s i = Some (Ret r) -> fetch_step s (set_fetcher s i None (disk s))
  | fetch_killed i : fetch_step s (set_fetcher s i None (disk s))
  | fetch_outside w :
      files w !! artifact = files (disk s) !! artifact ->
      (forall n f, files w !! temp_path artifact n = Some f -> files (disk s) !! temp_path artifact n = Some f) ->
      issued (disk s) ⊆ issued w -> downloaded (disk s) ⊆ downloaded w ->
      fetch_step s (mkFetchers (fetchers s) w).

Definition fetch_reaches (w : World) (s : Fetchers) : Prop := rtc fetch_step (mkFetchers (fun _ => None) w) s.

Definition fetch_inv (s : Fetchers) : Prop := sound (disk s) /\ exists own : Z -> Own,
  (forall i, mine (own i) (disk s) /\ forall q, fetchers s i = Some q -> runs_safely whatever (own i) q) /\
  (forall i j n, i <> j -> own_nonce (own i) = Some n -> own_nonce (own j) <> Some n).

(** What a step of one process promises is enough for the others. *)
Lemma mine_guaranteed own own' mine' w w' n :
  guarantee own w own' w' -> (forall n, own_nonce mine' = Some n -> own_nonce own <> Some n) -> mine mine' w ->
  mine mine' w' /\ (own_nonce mine' = Some n -> own_nonce own' <> Some n).
Proof.
  intros (HI & HD & HN & HT & _) Hne [Hn Hd]. split; [split|].
  - intros m Em. destruct (Hn m Em) as [Hin Hf]. split; [set_solver|]. intros d f Ed Ef. apply (Hf d f Ed). by apply HT; [| |apply Ef]; auto.
  - intros t Et. apply HD. by apply Hd.
  - intros Em E'. destruct (HN n E') as [E|E]; [by eapply Hne|]. by destruct (Hn n Em).
Qed.

(** A step of process [i]: what it owns changes, the others are unharmed. *)
Lemma fetch_inv_with s i q w own own_i :
  sound (disk s) ->
  (forall j, mine (own j) (disk s) /\ forall p, fetchers s j = Some p -> runs_safely whatever (own j) p) ->
  (forall j k n, j <> k -> own_nonce (own j) = Some n -> own_nonce (own k) <> Some n) ->
  mine own_i w -> guarantee (own i) (disk s) own_i w ->
  (forall p, q = Some p -> runs_safely whatever own_i p) ->
  fetch_inv (set_fetcher s i q w).
Proof.
  intros Hs Hown Hd Hm Hg Hq. split; [by apply Hg|]. exists (<[i := own_i]> own).
  assert (G : forall j n, j <> i -> mine (own j) w /\ (own_nonce (own j) = Some n -> own_nonce own_i <> Some n)).
  { intros j n Hj. eapply mine_guaranteed; [done| |apply Hown]. intros m Em. by apply (Hd j i). }
  split.
  - intros j. cbn [fetchers set_fetcher disk]. destruct (decide (j = i)) as [->|Hj].
    + rewrite !fn_lookup_insert. by split.
    + rewrite !fn_lookup_insert_ne by done. split; [by apply (G j "")|apply Hown].
  - intros j k n Hjk. destruct (decide (j = i)) as [->|Hj], (decide (k = i)) as [->|Hk]; [done|..];
      rewrite ?fn_lookup_insert; rewrite ?fn_lookup_insert_ne by done.
    + intros E E'. by apply (G k n).
    + intros E. by apply (G j n).
    + by apply Hd.
Qed.

Lemma same_world own w : guarantee own w own w.
Proof. split_and!; try done. by left. Qed.

Lemma fetch_step_inv s s' : fetch_step s s' -> fetch_inv s -> fetch_inv s'.
Proof.
  intros Hstep (Hs & own & Hown & Hd). destruct Hstep as [i c config f E Hr|i o next a w E Hp|i r E|i|w EA ET EI ED].
  1-4: destruct (Hown i) as [Hm Hq].
  - apply (fetch_inv_with s i _ _ own (own i)); try done; [apply same_world|]. intros p [= <-]. by apply safe_fetch.
  - destruct (Hq _ E _ _ _ Hm Hp) as (own' & _ & Hm' & Hg & Hn). apply (fetch_inv_with s i _ _ own own'); try done. by intros p [= <-].
  - apply (fetch_inv_with s i _ _ own (own i)); try done. apply same_world.
  - apply (fetch_inv_with s i _ _ own (own i)); try done. apply same_world.
  - split.
    + intros f Ef. cbn [disk] in *. rewrite EA in Ef. destruct (Hs f Ef) as [?|[? ?]]; [by left|right]. split; [done|set_solver].
    + exists own. split; [|done]. intros i. destruct (Hown i) as [[Hn Hdl] Hq]. split; [split|done].
      * intros n En. destruct (Hn n En) as [Hin Hf]. split; [set_solver|]. intros d f Ed Ef. eapply Hf; [done|by apply ET].
      * intros t Et. apply ED. by apply Hdl.
Qed.
End Artifact.

(** C36: a reader of the cache sees a whole artifact. However many processes fetch
    a key at the same time, with whatever interleaving, failing system calls,
    kills in the middle of a write, stolen locks and sweeps, and whatever the
    staleness window: at every moment the artifact file is the one that was there
    at the start, or a payload that the upstream answered in full and that passed
    the sanity check. *)
Theorem artifact_never_partial root key validate w s f :
  fetch_reaches root key validate w s -> files (disk s) !! artifact_path root key = Some f ->
  (exists f0, files w !! artifact_path root key = Some f0 /\ text f0 = text f) \/
  (accepts validate (text f) = true /\ text f ∈ downloaded (disk s)).
Proof.
  intros Hr Ef. set (initial := text <$> files w !! artifact_path root key).
  assert (H : fetch_inv root key validate initial s).
  { revert Hr. apply (rtc_ind_r (fun s => fetch_inv root key validate initial s)).
    - split; [intros g Eg; left; unfold initial; cbn [disk] in Eg; by rewrite Eg|].
      exists (fun _ => mkOwn None None None). by split.
    - intros ????. by eapply fetch_step_inv. }
  destruct H as [Hs _]. destruct (Hs f Ef) as [E|]; [left|by right]. unfold initial in E.
  destruct (files w !! artifact_path root key) as [f0|]; [|done]. injection E as E. by exists f0.
Qed.

(** ** A run *)

(** Up to [n] operations of process [i], none of which fails. *)
Fixpoint fetch_run (upstream : result string) (n : nat) (i : Z) (s : Fetchers) : option Fetchers :=
  match n with
  | O => Some s
  | S n =>
      match fetchers s i with
      | Some (Do o next) =>
          if fresh_op o (disk s) then
            let '(a, w) := perform upstream o (disk s) in fetch_run upstream n i (set_fetcher s i (Some (next a)) w)
          else None
      | _ => Some s
      end
  end.

Lemma fetch_run_reaches root key validate upstream i n : forall w s s',
  fetch_reaches root key validate w s -> fetch_run upstream n i s = Some s' -> fetch_reaches root key validate w s'.
Proof.
  induction n as [|n IH]; intros w s s' Hr; cbn [fetch_run]; [by intros [= <-]|].
  destruct (fetchers s i) as [[r|o next]|] eqn:E; try by intros [= <-].
  destruct (fresh_op o (disk s)) eqn:Ef; [|done]. destruct (perform upstream o (disk s)) as [a w1] eqn:Ep.
  apply IH. eapply rtc_r; [done|]. eapply fetch_op; [done|]. by eapply performed.
Qed.

Definition sample_config : SharedRefdataCacheConfig := mkCacheConfig "r" "" 600 2 2 false.
Definition sample_json_key : RefdataKey := mkKey "k" "s" "2026-01-05" ".json".
Definition sample_start : Fetchers := mkFetchers (fun _ => None) (mkWorld ∅ 9 ∅ ∅).

(** Process 7 fetches for the first time. *)
Definition sample_fetch : option Fetchers :=
  fetch_run (Ok "[1]") 30 7
    (set_fetcher sample_start 7 (Some (get_or_fetch 7 (fun _ => 1) sample_config sample_json_key true (Some json_sanity_validator))) (disk sample_start)).

Definition sample_outcome : option (option string * option (result string)) :=
  (fun s => (text <$> files (disk s) !! "r/k_s_2026-01-05.json",
     match fetchers s 7 with Some (Ret r) => Some r | _ => None end)) <$> sample_fetch.

Lemma artifact_never_partial_witness : exists s f,
  fetch_reaches "r" sample_json_key (Some json_sanity_validator) (disk sample_start) s /\
  files (disk s) !! artifact_path "r" sample_json_key = Some f /\ text f = "[1]" /\ text f ∈ downloaded (disk s).
Proof.
  assert (E : sample_outcome = Some (Some "[1]", Some (Ok "[1]"))) by (vm_compute; reflexivity).
  unfold sample_outcome in E. destruct sample_fetch as [s|] eqn:Es; [|discriminate]. cbn [fmap option_fmap option_map] in E.
  injection E as E _. destruct (files (disk s) !! "r/k_s_2026-01-05.json") as [f|] eqn:Ef; [|discriminate]. injection E as E.
  assert (Hr : fetch_reaches "r" sample_json_key (Some json_sanity_validator) (disk sample_start) s).
  { eapply fetch_run_reaches; [|exact Es]. apply rtc_once. apply (fetch_start _ _ _ sample_start 7 _ sample_config true); reflexivity. }
  exists s, f. split; [exact Hr|]. split; [exact Ef|]. split; [exact E|].
  destruct (artifact_never_partial "r" sample_json_key (Some json_sanity_validator) (disk sample_start) s f Hr Ef) as [(f0 & E0 & _)|[_ H]]; [|exact H].
  cbn in E0. by rewrite lookup_empty in E0.
Defined.
