(* ===== verification/InstrumentMaster.v ===== *)
(** * InstrumentMaster: the instrument dump of a broker
    (src/src/refdata/instrument_master.cpp)

    The CSV reader, the index by exchange and symbol, the date-versioned cache and
    the resolution of a symbol with its expiry. Days and the cache's faults are
    those of [Calendar]; the clock reading and the fetched text are arguments. *)

From S2P Require Import Prelude Errors Domain Decimal AccountDir Calendar.

(** ** Reading CSV *)

Definition is_csv_ws (c : ascii) : bool := is_blank c || Ascii.eqb c "013" || Ascii.eqb c newline.

Fixpoint drop_csv_ws (l : list ascii) : list ascii :=
  match l with c :: rest => if is_csv_ws c then drop_csv_ws rest else l | [] => [] end.

Definition csv_trim (l : list ascii) : list ascii := reverse (drop_csv_ws (reverse (drop_csv_ws l))).

Definition parse_int64 (field : list ascii) : option Z :=
  let s := csv_trim field in
  match s with [] => None | _ => from_chars_int64 (str s) end.

Definition quote : ascii := "034"%char.

(** A quoted field may hold commas; a doubled quote inside is one quote. *)
Fixpoint split_fields (l current : list ascii) (in_quotes : bool) : list (list ascii) :=
  match l with
  | [] => [current]
  | c :: rest =>
      if in_quotes then
        if Ascii.eqb c quote then
          match rest with
          | d :: rest' => if Ascii.eqb d quote then split_fields rest' (current ++ [quote]) true else split_fields rest current false
          | [] => split_fields rest current false
          end
        else split_fields rest (current ++ [c]) true
      else if Ascii.eqb c quote then split_fields rest current true
      else if Ascii.eqb c "," then current :: split_fields rest [] false
      else split_fields rest (current ++ [c]) false
  end.

Definition split_csv_line (line : list ascii) : list (list ascii) := split_fields line [] false.

Definition drop_return (l : list ascii) : list ascii := if bool_decide (last l = Some "013"%char) then removelast l else l.

Fixpoint lines_from (l current : list ascii) : list (list ascii) :=
  match l with
  | [] => [drop_return current]
  | c :: rest => if Ascii.eqb c newline then drop_return current :: lines_from rest [] else lines_from rest (current ++ [c])
  end.

Definition split_lines (csv : string) : list (list ascii) := lines_from (chars csv) [].

Definition master_invalid (msg : string) : Error := make_error Validation msg "".

Definition row_error (line_no : Z) (reason : string) : Error :=
  master_invalid ("instrument master: row " +:+ pretty line_no +:+ ": " +:+ reason).

(** The columns by name; the first of two with one name counts. *)
Definition add_column (columns : gmap string nat) (field : nat * list ascii) : gmap string nat :=
  let name := str (csv_trim field.2) in
  match columns !! name with Some _ => columns | None => <[name := field.1]> columns end.

Definition columns_of (header : list (list ascii)) : gmap string nat := foldl add_column ∅ (imap pair header).

Record Columns := mkColumns { col_token : nat; col_symbol : nat; col_exchange : nat; col_expiry : nat; col_tick : nat; col_lot : nat }.

Definition column (columns : gmap string nat) (name : string) : result nat :=
  match columns !! name with
  | Some i => Ok i
  | None => Err (master_invalid ("instrument master: missing required column '" +:+ name +:+ "'"))
  end.

Definition required_columns (columns : gmap string nat) : result Columns :=
  match column columns "instrument_token" with Err e => Err e | Ok t =>
  match column columns "tradingsymbol" with Err e => Err e | Ok s =>
  match column columns "exchange" with Err e => Err e | Ok x =>
  match column columns "expiry" with Err e => Err e | Ok p =>
  match column columns "tick_size" with Err e => Err e | Ok k =>
  match column columns "lot_size" with Err e => Err e | Ok l =>
    Ok (mkColumns t s x p k l) end end end end end end.

Definition max_col (c : Columns) : nat :=
  foldr Nat.max 0%nat [col_token c; col_symbol c; col_exchange c; col_expiry c; col_tick c; col_lot c].

Definition cell (fields : list (list ascii)) (i : nat) : list ascii := default [] (fields !! i).

(** One row; the reason when it is refused. *)
Definition parse_row (c : Columns) (fields : list (list ascii)) : string + Instrument :=
  if (length fields <=? max_col c)%nat then inl "too few columns" else
  match parse_int64 (cell fields (col_token c)) with
  | None => inl "unparseable instrument_token"
  | Some token =>
      match parse_int64 (cell fields (col_lot c)) with
      | None => inl "unparseable lot_size"
      | Some lot =>
          match parse_decimal_paise (str (cell fields (col_tick c))) with
          | None => inl "unparseable tick_size"
          | Some tick_paise =>
              if lot <=? 0 then inl "non-positive lot_size" else
              if tick_paise <=? 0 then inl "non-positive tick_size" else
              inr (mkInstrument (str (csv_trim (cell fields (col_symbol c)))) token (str (csv_trim (cell fields (col_exchange c))))
                     (quantity_of lot) (from_paise tick_paise) (quantity_of 0) (str (csv_trim (cell fields (col_expiry c)))))
          end
      end
  end.

(** [line_no]: of the first line, counted from one. *)
Fixpoint rows_loop (c : Columns) (lines : list (list ascii)) (line_no : Z) (instruments : list Instrument) : result (list Instrument) :=
  match lines with
  | [] => Ok instruments
  | line :: lines =>
      match csv_trim line with
      | [] => rows_loop c lines (line_no + 1) instruments
      | _ =>
          match parse_row c (split_csv_line line) with
          | inl reason => Err (row_error line_no reason)
          | inr inst => rows_loop c lines (line_no + 1) (instruments ++ [inst])
          end
      end
  end.

(** The first line that is not blank is the header. *)
Fixpoint header_loop (lines : list (list ascii)) (line_no : Z) : result (list Instrument) :=
  match lines with
  | [] => Err (master_invalid "instrument master: empty CSV (no header)")
  | line :: lines =>
      match csv_trim line with
      | [] => header_loop lines (line_no + 1)
      | _ =>
          match required_columns (columns_of (split_csv_line line)) with
          | Err e => Err e
          | Ok c => rows_loop c lines (line_no + 1) []
          end
      end
  end.

Definition parse_instruments_csv (csv : string) : result (list Instrument) := header_loop (split_lines csv) 1.

(** ** The master *)

(** Cached files by path. *)
Abbreviation cache_files := (gmap string string).

Record InstrumentMaster := mkMaster {
  cache_dir : string; broker : string; segment : string;
  index : gmap (string * string) Instrument; cache_date : string; loaded : bool }.

Definition new_master (dir broker segment : string) : InstrumentMaster := mkMaster dir broker segment ∅ "" false.

Definition today_iso (now : Z) : string := to_iso (ymd_of (now / day_ns)).

Definition cache_file_for (m : InstrumentMaster) (iso_date : string) : string :=
  path_join (cache_dir m) (broker m +:+ "_" +:+ segment m +:+ "_" +:+ iso_date +:+ ".csv").

(** A later row of the same symbol replaces an earlier one. *)
Definition index_of (instruments : list Instrument) : gmap (string * string) Instrument :=
  foldl (fun ix inst => <[(exchange inst, inst_symbol inst) := inst]> ix) ∅ instruments.

Definition commit (m : InstrumentMaster) (instruments : list Instrument) (iso_date : string) : InstrumentMaster :=
  mkMaster (cache_dir m) (broker m) (segment m) (index_of instruments) iso_date true.

Definition ingest (m : InstrumentMaster) (csv iso_date : string) : result unit * InstrumentMaster :=
  match parse_instruments_csv csv with
  | Err e => (Err e, m)
  | Ok instruments => (Ok tt, commit m instruments iso_date)
  end.

Definition refresh (m : InstrumentMaster) (fetched : result string) (now : Z) (fault : cache_fault) (files : cache_files)
    : result unit * InstrumentMaster * cache_files :=
  match fetched with
  | Err e => (Err e, m, files)
  | Ok csv =>
      let today := today_iso now in
      match parse_instruments_csv csv with
      | Err e => (Err e, m, files)
      | Ok instruments =>
          let file := cache_file_for m today in
          match fault with
          | MkdirFails => (Err (make_error Internal "instrument master: cannot create cache dir" ""), m, files)
          | OpenFails => (Err (make_error Internal "instrument master: cannot open cache file for write" ""), m, files)
          | WriteFails text => (Err (make_error Internal "instrument master: cache file write failed" ""), m, <[file := text]> files)
          | CacheOk => (Ok tt, commit m instruments today, <[file := csv]> files)
          end
      end
  end.

(** [unreadable]: the file exists but cannot be opened. *)
Definition load_cached_for (m : InstrumentMaster) (iso_date : string) (unreadable : bool) (files : cache_files)
    : result unit * InstrumentMaster :=
  match files !! cache_file_for m iso_date with
  | None => (Err (make_error DataStale ("instrument master: no cache for date " +:+ iso_date) ""), m)
  | Some csv =>
      if unreadable then (Err (make_error DataStale ("instrument master: cannot open cache for date " +:+ iso_date) ""), m)
      else ingest m csv iso_date
  end.

(** [operator<] of strings compares bytes. *)
Definition expired (inst : Instrument) (today : string) : bool :=
  negb (String.eqb (expiry inst) "") && String.ltb (expiry inst) today.

Definition resolve (m : InstrumentMaster) (exch tradingsymbol : string) (now : Z) : result Instrument :=
  match index m !! (exch, tradingsymbol) with
  | None => Err (master_invalid ("instrument master: unknown symbol " +:+ exch +:+ ":" +:+ tradingsymbol))
  | Some inst =>
      if expired inst (today_iso now) then
        Err (master_invalid ("instrument master: expired symbol " +:+ exch +:+ ":" +:+ tradingsymbol +:+ " (expiry " +:+ expiry inst +:+ ")"))
      else Ok inst
  end.

Definition require_fresh (m : InstrumentMaster) (now : Z) : result unit :=
  if negb (loaded m) || negb (String.eqb (cache_date m) (today_iso now))
  then Err (make_error DataStale "instrument master is stale or undownloaded; trading blocked" "")
  else Ok tt.

Definition is_fresh (m : InstrumentMaster) (now : Z) : bool := is_ok (require_fresh m now).

(** ** Writing CSV *)

Definition escape (l : list ascii) : list ascii := l ≫= fun c => if Ascii.eqb c quote then [quote; quote] else [c].

(** A field without a quote, a comma or a carriage return needs no quotes. *)
Definition is_plain (l : list ascii) : bool :=
  forallb (fun c => negb (Ascii.eqb c quote || Ascii.eqb c "," || Ascii.eqb c "013")) l.

Definition render_field (f : list ascii) : list ascii := if is_plain f then f else [quote] ++ escape f ++ [quote].

Fixpoint render_line (fields : list (list ascii)) : list ascii :=
  match fields with
  | [] => []
  | [f] => render_field f
  | f :: fields => render_field f ++ [","%char] ++ render_line fields
  end.

Lemma split_plain f rest : forall current, is_plain f = true ->
  split_fields (f ++ rest) current false = split_fields rest (current ++ f) false.
Proof.
  induction f as [|c f IH]; intros current; cbn [app is_plain forallb]; [by rewrite app_nil_r|].
  rewrite andb_true_iff, negb_true_iff, !orb_false_iff. intros [[[Hq Hc] _] Hf]. cbn [split_fields].
  rewrite Hq, Hc, IH by done. by rewrite <- app_assoc.
Qed.

Lemma split_escaped f rest : head rest <> Some quote -> forall current,
  split_fields (escape f ++ quote :: rest) current true = split_fields rest (current ++ f) false.
Proof.
  intros Hr. induction f as [|c f IH]; intros current.
  - cbn [escape mbind list_bind app split_fields]. rewrite Ascii.eqb_refl, app_nil_r. destruct rest as [|d rest]; [done|].
    destruct (Ascii.eqb_spec d quote) as [->|]; [done|]. done.
  - change (escape (c :: f)) with ((if Ascii.eqb c quote then [quote; quote] else [c]) ++ escape f).
    destruct (Ascii.eqb_spec c quote) as [->|Hc]; cbn [app split_fields].
    + rewrite Ascii.eqb_refl. rewrite IH, <- app_assoc. done.
    + destruct (Ascii.eqb_spec c quote) as [|_]; [done|]. rewrite IH, <- app_assoc. done.
Qed.

Lemma split_rendered f rest : head rest <> Some quote ->
  split_fields (render_field f ++ rest) [] false = split_fields rest f false.
Proof.
  intros Hr. unfold render_field. destruct (is_plain f) eqn:E; [by rewrite split_plain|].
  rewrite <- !app_assoc. cbn [app split_fields]. change (Ascii.eqb quote quote) with true. cbn iota. by rewrite split_escaped.
Qed.

(** The fields of a line read back as they were written, whatever they hold. *)
Lemma split_render_line fields : fields <> [] -> split_csv_line (render_line fields) = fields.
Proof.
  unfold split_csv_line. induction fields as [|f fields IH]; intros Hne; [done|]. destruct fields as [|g fields].
  - cbn [render_line]. rewrite <- (app_nil_r (render_field f)), split_rendered by done. done.
  - change (render_line (f :: g :: fields)) with (render_field f ++ [","%char] ++ render_line (g :: fields)).
    rewrite split_rendered by done. cbn [app split_fields]. change (Ascii.eqb "," quote) with false. change (Ascii.eqb "," ",") with true.
    cbn iota. by rewrite IH.
Qed.

Lemma render_field_chars c f : c ∈ render_field f -> c = quote \/ c ∈ f.
Proof.
  unfold render_field. destruct (is_plain f); [by right|]. rewrite !elem_of_app, !list_elem_of_singleton. intros [?|[H|?]]; auto.
  unfold escape in H. apply list_elem_of_bind in H as (d & Hd & Hin). right. destruct (Ascii.eqb_spec d quote); set_solver.
Qed.

Lemma render_line_chars c fields : c ∈ render_line fields -> c = quote \/ c = ","%char \/ exists f, f ∈ fields /\ c ∈ f.
Proof.
  induction fields as [|f fields IH]; [set_solver|]. destruct fields as [|g fields].
  - cbn [render_line]. intros [?|?]%render_field_chars; [by left|]. right. right. exists f. set_solver.
  - change (render_line (f :: g :: fields)) with (render_field f ++ [","%char] ++ render_line (g :: fields)).
    rewrite !elem_of_app, list_elem_of_singleton. intros [[?|?]%render_field_chars|[?|[?|[?|(h & ? & ?)]]%IH]]; auto.
    + right. right. exists f. set_solver.
    + right. right. exists h. set_solver.
Qed.

(** A rendered line does not end in a carriage return. *)
Lemma render_field_last f : last (render_field f) <> Some "013"%char.
Proof.
  unfold render_field. destruct (is_plain f) eqn:E.
  - intros H%last_Some_elem_of. unfold is_plain in E. rewrite forallb_forall in E.
    specialize (E "013"%char ltac:(by apply list_elem_of_In)). done.
  - rewrite app_assoc, last_snoc. done.
Qed.

Lemma render_line_last fields : last (render_line fields) <> Some "013"%char.
Proof.
  induction fields as [|f fields IH]; [done|]. destruct fields as [|g fields]; [apply render_field_last|].
  change (render_line (f :: g :: fields)) with (render_field f ++ [","%char] ++ render_line (g :: fields)).
  rewrite app_assoc. destruct (render_line (g :: fields)) as [|c l]; [by rewrite app_nil_r, last_snoc|]. by rewrite last_app_cons.
Qed.

(** Lines, each ended by a line feed. *)
Definition render_lines (lines : list (list ascii)) : string := str (lines ≫= fun l => l ++ [newline]).

Lemma lines_from_line l rest : newline ∉ l -> last l <> Some "013"%char -> forall current,
  last (current ++ l) <> Some "013"%char ->
  lines_from (l ++ newline :: rest) current = (current ++ l) :: lines_from rest [].
Proof.
  intros Hn _. induction l as [|c l IH]; intros current Hl; cbn [app lines_from].
  - rewrite app_nil_r in *. change (Ascii.eqb newline newline) with true. cbn iota. unfold drop_return. by rewrite bool_decide_false.
  - apply not_elem_of_cons in Hn as [Hc Hn]. destruct (Ascii.eqb_spec c newline); [congruence|].
    rewrite IH; [by rewrite <- app_assoc|done|]. by rewrite <- app_assoc.
Qed.

Lemma split_render_lines lines : Forall (fun l => newline ∉ l /\ last l <> Some "013"%char) lines ->
  split_lines (render_lines lines) = lines ++ [[]].
Proof.
  unfold split_lines, render_lines. rewrite chars_str. induction 1 as [|l lines [Hn Hl] _ IH]; [done|].
  cbn [mbind list_bind]. rewrite <- app_assoc. cbn [app]. rewrite lines_from_line by done. by f_equal.
Qed.

(** ** An instrument dump reads back *)

Lemma drop_csv_ws_some l c : c ∈ l -> is_csv_ws c = false -> exists d k, drop_csv_ws l = d :: k /\ is_csv_ws d = false /\ c ∈ d :: k.
Proof.
  intros Hin Hc. induction l as [|a l IH]; [set_solver|]. cbn [drop_csv_ws]. destruct (is_csv_ws a) eqn:Ea; [|by exists a, l].
  apply IH. apply elem_of_cons in Hin as [->|]; [congruence|done].
Qed.

Lemma csv_trim_nonblank l c : c ∈ l -> is_csv_ws c = false -> csv_trim l <> [].
Proof.
  intros Hin Hc E. unfold csv_trim in E. apply (f_equal reverse) in E. rewrite reverse_involutive in E.
  destruct (drop_csv_ws_some l c Hin Hc) as (d & k & Ed & Hd & Hin'). rewrite Ed in E.
  destruct (drop_csv_ws_some (reverse (d :: k)) d) as (e & k' & Ee & _); [apply elem_of_reverse; set_solver|done|]. rewrite Ee in E. done.
Qed.

Lemma drop_csv_ws_id l : (forall c, c ∈ l -> is_csv_ws c = false) -> drop_csv_ws l = l.
Proof. destruct l as [|c l]; [done|]. intros H. cbn [drop_csv_ws]. by rewrite H by set_solver. Qed.

Lemma csv_trim_id l : (forall c, c ∈ l -> is_csv_ws c = false) -> csv_trim l = l.
Proof.
  intros H. unfold csv_trim. rewrite (drop_csv_ws_id l) by done. rewrite drop_csv_ws_id; [apply reverse_involutive|].
  intros c Hc. apply H. by apply elem_of_reverse.
Qed.

Lemma drop_csv_ws_sub l c : c ∈ drop_csv_ws l -> c ∈ l.
Proof. induction l as [|a l IH]; [done|]. cbn [drop_csv_ws]. destruct (is_csv_ws a); [|done]. intros H%IH. set_solver. Qed.

Lemma csv_trim_sub l c : c ∈ csv_trim l -> c ∈ l.
Proof.
  unfold csv_trim. rewrite elem_of_reverse. intros H%drop_csv_ws_sub. rewrite elem_of_reverse in H. by apply drop_csv_ws_sub.
Qed.

Lemma pretty_no_ws (z : Z) c : c ∈ chars (pretty z) -> is_csv_ws c = false.
Proof.
  intros Hc. destruct (is_csv_ws c) eqn:E; [exfalso|done].
  assert (is_ascii_digit c = false /\ c <> "-"%char) as [Hd Hm].
  { destruct c as [[] [] [] [] [] [] [] []]; vm_compute in E; try discriminate; vm_compute; split; congruence. }
  by apply (not_in_pretty_Z c z).
Qed.

Lemma pretty_chars_ne (z : Z) : chars (pretty z) <> [].
Proof.
  destruct (Z_lt_dec z 0) as [Hz|Hz]; [rewrite pretty_Z_neg by done; discriminate|]. by destruct (pretty_Z_digits z ltac:(lia)) as (_ & H & _).
Qed.

Lemma parse_int64_pretty z : is_int64 z -> parse_int64 (chars (pretty z)) = Some z.
Proof.
  intros Hz. unfold parse_int64. rewrite csv_trim_id by apply pretty_no_ws. rewrite str_chars. cbn zeta. rewrite from_chars_pretty by done.
  destruct (chars (pretty z)) eqn:E; [|done]. by apply pretty_chars_ne in E.
Qed.

(** A row that spells an instrument in the columns [c]; what else it holds does
    not matter. *)
Record spells (c : Columns) (row : list (list ascii)) (inst : Instrument) : Prop := {
  sp_wide : (max_col c < length row)%nat;
  sp_lines : Forall (fun f => newline ∉ f) row;
  sp_token : cell row (col_token c) = chars (pretty (token inst));
  sp_lot : cell row (col_lot c) = chars (pretty (quantity_value (lot_size inst)));
  sp_tick : cell row (col_tick c) = chars (paise_to_decimal (price_paise (tick_size inst)));
  sp_symbol : cell row (col_symbol c) = chars (inst_symbol inst);
  sp_exchange : cell row (col_exchange c) = chars (exchange inst);
  sp_expiry : cell row (col_expiry c) = chars (expiry inst) }.

Definition trimmed (s : string) : Prop := csv_trim (chars s) = chars s.

(** What a dump can hold. *)
Record instrument_ok (inst : Instrument) : Prop := {
  io_token : is_int64 (token inst);
  io_lot : 0 < quantity_value (lot_size inst) <= int64_max;
  io_tick : 0 < price_paise (tick_size inst) <= int64_max;
  io_freeze : freeze_qty inst = quantity_of 0;
  io_symbol : trimmed (inst_symbol inst);
  io_exchange : trimmed (exchange inst);
  io_expiry : trimmed (expiry inst) }.

Lemma positive_int64 z : 0 < z <= int64_max -> is_int64 z /\ z <> int64_min.
Proof. unfold_ints. lia. Qed.

Lemma parse_row_spelled c row inst : spells c row inst -> instrument_ok inst -> parse_row c row = inr inst.
Proof.
  intros [Hw _ Ht Hl Hk Hs Hx Hp] [It Il Ik If Is Ix Ip]. unfold parse_row. rewrite (proj2 (Nat.leb_gt _ _) Hw).
  destruct (positive_int64 _ Il) as [Il' _], (positive_int64 _ Ik) as [Ik' Ikm].
  rewrite Ht, parse_int64_pretty by done. rewrite Hl, parse_int64_pretty by done. rewrite Hk, str_chars, decimal_roundtrip by done.
  rewrite bool_decide_false by done. rewrite (proj2 (Z.leb_gt _ 0)), (proj2 (Z.leb_gt _ 0)) by lia.
  rewrite Hs, Hx, Hp, Is, Ix, Ip, !str_chars. destruct inst as [s t x [l] [k] f e]. cbn in *. by subst f.
Qed.

Lemma cell_in row i c : c ∈ cell row i -> exists f, f ∈ row /\ c ∈ f.
Proof.
  unfold cell. destruct (row !! i) as [f|] eqn:E; cbn [default]; [|set_solver]. intros H. exists f. split; [by eapply list_elem_of_lookup_2|done].
Qed.

Lemma in_render_field c f : c ∈ f -> c <> quote -> c ∈ render_field f.
Proof.
  intros Hin Hq. unfold render_field. destruct (is_plain f); [done|]. rewrite !elem_of_app. right. left.
  apply list_elem_of_bind. exists c. split; [|done]. destruct (Ascii.eqb_spec c quote); [done|set_solver].
Qed.

Lemma in_render_line c f fields : f ∈ fields -> c ∈ f -> c <> quote -> c ∈ render_line fields.
Proof.
  intros Hf Hc Hq. induction fields as [|g fields IH]; [set_solver|]. destruct fields as [|h fields].
  - apply list_elem_of_singleton in Hf as ->. by apply in_render_field.
  - change (render_line (g :: h :: fields)) with (render_field g ++ [","%char] ++ render_line (h :: fields)).
    rewrite !elem_of_app. apply elem_of_cons in Hf as [->|Hf]; [left; by apply in_render_field|right; right; by apply IH].
Qed.

(** A rendered line is not blank when a field is not. *)
Lemma render_line_nonblank fields f c : f ∈ fields -> c ∈ f -> c <> quote -> is_csv_ws c = false -> csv_trim (render_line fields) <> [].
Proof. intros. by eapply csv_trim_nonblank; [eapply in_render_line|]. Qed.

Lemma spelled_nonblank c row inst : spells c row inst -> csv_trim (render_line row) <> [].
Proof.
  intros Hs. destruct (chars (pretty (token inst))) as [|d l] eqn:E; [by apply pretty_chars_ne in E|].
  assert (Hd : d ∈ chars (pretty (token inst))) by (rewrite E; set_solver).
  destruct (cell_in row (col_token c) d) as (f & Hf & Hin); [by rewrite (sp_token _ _ _ Hs)|].
  eapply render_line_nonblank; [done|done| |by eapply pretty_no_ws]. intros ->. by eapply not_in_pretty_Z in Hd.
Qed.

Lemma rows_loop_spelled c rows insts : Forall2 (spells c) rows insts -> Forall instrument_ok insts -> forall line_no acc,
  rows_loop c ((render_line <$> rows) ++ [[]]) line_no acc = Ok (acc ++ insts).
Proof.
  induction 1 as [|row inst rows insts Hs _ IH]; intros Hok line_no acc; cbn [fmap list_fmap app rows_loop].
  - change (csv_trim []) with (@nil ascii). cbn iota. by rewrite app_nil_r.
  - apply Forall_cons in Hok as [Hi Hok]. assert (Hb := spelled_nonblank _ _ _ Hs).
    destruct (csv_trim (render_line row)); [done|]. rewrite split_render_line; [|destruct row; [apply sp_wide in Hs; simpl in Hs; lia|done]].
    rewrite (parse_row_spelled c row inst) by done. rewrite IH by done. by rewrite <- app_assoc.
Qed.

Lemma columns_fold_in names : forall columns name i, foldl add_column columns names !! name = Some i ->
  columns !! name = Some i \/ exists f, f ∈ names.*2 /\ str (csv_trim f) = name.
Proof.
  induction names as [|[j f] names IH]; intros columns name i; cbn [foldl fmap list_fmap]; [by left|].
  intros [H|(g & Hg & Hn)]%IH; [|right; exists g; set_solver]. unfold add_column in H. cbn [snd fst] in H.
  destruct (columns !! str (csv_trim f)) eqn:E; [by left|]. destruct (decide (str (csv_trim f) = name)) as [He|Hne].
  - right. exists f. set_solver.
  - left. by rewrite lookup_insert_ne in H.
Qed.

Lemma header_nonblank header c : required_columns (columns_of header) = Ok c -> csv_trim (render_line header) <> [].
Proof.
  unfold required_columns, column. destruct (columns_of header !! "instrument_token") as [i|] eqn:E; [|done]. intros _.
  unfold columns_of in E. apply columns_fold_in in E as [E|(f & Hf & Hn)]; [by rewrite lookup_empty in E|].
  assert (Hf' : f ∈ header).
  { apply list_elem_of_fmap in Hf as ([j g] & -> & Hg). apply elem_of_lookup_imap in Hg as (k & x & [= -> ->] & Hk). by eapply list_elem_of_lookup_2. }
  assert (Hi : "i"%char ∈ csv_trim f) by (apply (f_equal chars) in Hn; rewrite chars_str in Hn; rewrite Hn; by apply (bool_decide_eq_true_1 _)).
  by eapply render_line_nonblank; [done|eapply csv_trim_sub| |].
Qed.

Lemma rendered_line_ok fields : Forall (fun f => newline ∉ f) fields -> newline ∉ render_line fields /\ last (render_line fields) <> Some "013"%char.
Proof.
  intros H. split; [|apply render_line_last]. intros [E|[E|(f & Hf & Hin)]]%render_line_chars; [done|done|].
  rewrite Forall_forall in H. by eapply H.
Qed.

(** C37: an instrument dump reads back. Whatever the order of its columns, the
    columns it has besides, and the commas and quotes in its cells, a dump whose
    rows spell well-formed instruments in the named columns is parsed to exactly
    those instruments, in that order. *)
Theorem parse_render header c rows insts :
  required_columns (columns_of header) = Ok c -> Forall (fun f => newline ∉ f) header ->
  Forall2 (spells c) rows insts -> Forall instrument_ok insts ->
  parse_instruments_csv (render_lines (render_line <$> header :: rows)) = Ok insts.
Proof.
  intros Hc Hh Hr Hok. unfold parse_instruments_csv. rewrite split_render_lines.
  - cbn [fmap list_fmap app header_loop]. assert (Hb := header_nonblank header c Hc). destruct (csv_trim (render_line header)); [done|].
    rewrite split_render_line by by intros ->. rewrite Hc. exact (rows_loop_spelled c rows insts Hr Hok (1 + 1) []).
  - cbn [fmap list_fmap]. constructor; [by apply rendered_line_ok|]. apply Forall_fmap.
    clear -Hr. induction Hr as [|row inst rows insts Hs _ IH]; constructor; [|done]. cbn. apply rendered_line_ok, Hs.
Qed.

(** A dump with a comma in a symbol, quoted, and a column of no interest. *)
Definition dump_header : list (list ascii) :=
  chars <$> ["tick_size"; "instrument_token"; "name"; "exchange"; "tradingsymbol"; "lot_size"; "expiry"].
Definition dump_columns : Columns := mkColumns 1 4 3 6 0 5.
Definition sample_option : Instrument :=
  mkInstrument "NIFTY,C" 256265 "NFO" (quantity_of 75) (from_paise 5) (quantity_of 0) "2026-01-29".
Definition dump_row : list (list ascii) := chars <$> ["0.05"; "256265"; "Nifty"; "NFO"; "NIFTY,C"; "75"; "2026-01-29"].

Lemma parse_render_witness :
  parse_instruments_csv (render_lines (render_line <$> [dump_header; dump_row])) = Ok [sample_option].
Proof.
  apply (parse_render dump_header dump_columns [dump_row] [sample_option]).
  - reflexivity.
  - apply (bool_decide_eq_true_1 _). reflexivity.
  - constructor; [|constructor]. constructor; try reflexivity; [apply Nat.ltb_lt; reflexivity|]. apply (bool_decide_eq_true_1 _). reflexivity.
  - constructor; [|constructor]. constructor; try reflexivity; split; vm_compute; (reflexivity || (intros H; discriminate H)).
Defined.

(** ** Expiry is a date comparison *)

Lemma compare_char c d : Ascii.compare c d = (Z.of_nat (nat_of_ascii c) ?= Z.of_nat (nat_of_ascii d)).
Proof. unfold Ascii.compare, nat_of_ascii. by rewrite !N_nat_Z, N2Z.inj_compare. Qed.

(** Texts of one length are compared part by part. *)
Lemma compare_app a b x y : String.length a = String.length b ->
  String.compare (a +:+ x) (b +:+ y) = match String.compare a b with Eq => String.compare x y | o => o end.
Proof.
  revert b. induction a as [|c a IH]; intros [|d b]; cbn [String.length]; try done. intros [= Hl].
  change (String.compare (String c a +:+ x) (String d b +:+ y)) with
    (match Ascii.compare c d with Eq => String.compare (a +:+ x) (b +:+ y) | o => o end).
  cbn [String.compare]. rewrite IH by done. by destruct (Ascii.compare c d).
Qed.

Lemma compare_refl s : String.compare s s = Eq.
Proof. induction s as [|c s IH]; [done|]. cbn [String.compare]. by rewrite compare_char, Z.compare_refl. Qed.

Lemma dec_value_bounds l : digits l -> forall acc, dec_value_from acc l = acc * 10 ^ Z.of_nat (length l) + dec_value l /\ 0 <= dec_value l < 10 ^ Z.of_nat (length l).
Proof.
  induction 1 as [|c l Hc _ IH]; intros acc; [unfold dec_value_from; cbn; lia|].
  assert (Hv := digit_value_range c Hc). cbn [length]. rewrite Nat2Z.inj_succ, Z.pow_succ_r by lia.
  change (dec_value_from ?a (c :: l)) with (dec_value_from (10 * a + digit_value c) l).
  destruct (IH (10 * acc + digit_value c)) as [-> Hb]. destruct (IH (10 * 0 + digit_value c)) as [-> _]. split; [lia|]. nia.
Qed.

(** Equally long numbers are compared by value. *)
Lemma compare_digits l k : digits l -> digits k -> length l = length k ->
  String.compare (str l) (str k) = (dec_value l ?= dec_value k).
Proof.
  intros Hl. revert k. induction Hl as [|c l Hc Hl IH]; intros [|d k] Hk; cbn [length]; try done. intros [= Hlen].
  apply Forall_cons in Hk as [Hd Hk].
  change (String.compare (str (c :: l)) (str (d :: k))) with (match Ascii.compare c d with Eq => String.compare (str l) (str k) | o => o end).
  change (dec_value (c :: l)) with (dec_value_from (10 * 0 + digit_value c) l). change (dec_value (d :: k)) with (dec_value_from (10 * 0 + digit_value d) k).
  rewrite compare_char, IH by done.
  destruct (dec_value_bounds l Hl (10 * 0 + digit_value c)) as [-> Hbl], (dec_value_bounds k Hk (10 * 0 + digit_value d)) as [-> Hbk].
  rewrite Hlen in *. unfold digit_value in *. set (p := 10 ^ Z.of_nat (length k)) in *.
  destruct (Z.compare_spec (Z.of_nat (nat_of_ascii c)) (Z.of_nat (nat_of_ascii d))) as [E|E|E]; symmetry.
  - rewrite E. apply Z.add_compare_mono_l.
  - apply Z.compare_lt_iff. nia.
  - apply Z.compare_gt_iff. nia.
Qed.

(** *** The order of dates *)

(** Days before the first of March of year [n] of a calendar that starts then. *)
Definition march_days (n : Z) : Z := n / 400 * 146097 + (n mod 400 * 365 + n mod 400 / 4 - n mod 400 / 100).

Lemma march_days_step n : march_days (n + 1) = march_days n + 365 + (if is_leap (n + 1) then 1 else 0).
Proof.
  assert (F : forall n, march_days n = 365 * n + n / 4 - n / 100 + n / 400).
  { intros m. unfold march_days. Z.div_mod_to_equations. lia. }
  rewrite !F. destruct (is_leap (n + 1)) eqn:E.
  - apply is_leap_spec in E. Z.div_mod_to_equations. lia.
  - assert (~ ((n + 1) mod 4 = 0 /\ ((n + 1) mod 100 <> 0 \/ (n + 1) mod 400 = 0))) by (intros H%is_leap_spec; congruence).
    Z.div_mod_to_equations. lia.
Qed.

Lemma march_days_mono a b : a <= b -> march_days a <= march_days b.
Proof.
  intros H. replace b with (a + Z.of_nat (Z.to_nat (b - a))) by lia. generalize (Z.to_nat (b - a)). intros k.
  induction k as [|k IH]; [replace (a + Z.of_nat 0) with a by lia; done|].
  replace (a + Z.of_nat (S k)) with (a + Z.of_nat k + 1) by lia. rewrite march_days_step. destruct (is_leap _); lia.
Qed.

(** Year and month counted from March. *)
Definition march_year (d : ymd) : Z := if month d <=? 2 then year d - 1 else year d.
Definition march_month (d : ymd) : Z := if month d <=? 2 then month d + 9 else month d - 3.
Definition month_start (mp : Z) : Z := (153 * mp + 2) / 5.

Lemma days_of_march d : days_of d = march_days (march_year d) + month_start (march_month d) + dom d - 719469.
Proof. unfold days_of, march_days, march_year, march_month, month_start. destruct (month d <=? 2); lia. Qed.

Lemma month_start_mono a b : a <= b -> month_start a <= month_start b.
Proof. intros H. unfold month_start. apply Z.div_le_mono; lia. Qed.

(** The last day of a month comes before the first of the next. *)
Lemma month_end d : ymd_ok d = true -> 0 <= march_month d <= 11 /\ 1 <= dom d /\
  month_start (march_month d) + dom d <=
    if march_month d =? 11 then 365 + (if is_leap (march_year d + 1) then 1 else 0) else month_start (march_month d + 1).
Proof.
  intros Hok. unfold ymd_ok in Hok. to_prop. destruct d as [y m dd]. cbn [year month dom] in *.
  unfold march_month, march_year. cbn [year month dom].
  set (mp := if m <=? 2 then m + 9 else m - 3).
  assert (Hmp : 0 <= mp <= 11) by (unfold mp; destruct (Z.leb_spec m 2); lia).
  assert (Em : m = (if mp <? 10 then mp + 3 else mp - 9)) by (unfold mp; destruct (Z.leb_spec m 2); case_match eqn:E; to_prop; lia).
  assert (Ey : mp = 11 -> (if m <=? 2 then y - 1 else y) + 1 = y) by (unfold mp; destruct (Z.leb_spec m 2); lia).
  pose proof (last_day_spec y mp Hmp) as Hl. cbn zeta in Hl. rewrite <- Em in Hl.
  split; [done|]. split; [lia|].
  destruct (Z.eqb_spec mp 11) as [E|E].
  - rewrite Ey by done. rewrite bool_decide_true in Hl by done. rewrite E. change (month_start 11) with 337. destruct (is_leap y); lia.
  - rewrite bool_decide_false in Hl by done. clear -Hmp E Hl H H0 H1 H2. clearbody mp.
    assert (dd <= (if bool_decide (mp = 1 \/ mp = 3 \/ mp = 6 \/ mp = 8) then 30 else 31)) as Hd by lia. clear -Hmp E Hd.
    unfold month_start. case_bool_decide; Z.div_mod_to_equations; lia.
Qed.

Definition then_compare (a b : comparison) : comparison := match a with Eq => b | o => o end.

Definition date_compare (d e : ymd) : comparison :=
  then_compare (year d ?= year e) (then_compare (month d ?= month e) (dom d ?= dom e)).

Lemma days_of_lt d e : ymd_ok d = true -> ymd_ok e = true -> date_compare d e = Lt -> days_of d < days_of e.
Proof.
  intros Hd He Hc. destruct (month_end d Hd) as (Hm & Hdom & Hend), (month_end e He) as (Hm' & Hdom' & Hend').
  rewrite !days_of_march.
  assert (L : march_year d < march_year e \/ march_year d = march_year e /\
    (march_month d < march_month e \/ march_month d = march_month e /\ dom d < dom e)).
  { unfold date_compare, then_compare in Hc. unfold ymd_ok in Hd, He. to_prop. unfold march_year, march_month.
    destruct (Z.compare_spec (year d) (year e)), (Z.compare_spec (month d) (month e)), (Z.compare_spec (dom d) (dom e)); try discriminate;
      destruct (Z.leb_spec (month d) 2), (Z.leb_spec (month e) 2); lia. }
  assert (S0 : month_start 0 <= month_start (march_month e)) by (apply month_start_mono; lia). change (month_start 0) with 0 in S0.
  destruct L as [L|[-> [L|[-> L]]]]; [| |lia].
  - assert (M : march_days (march_year d + 1) <= march_days (march_year e)) by (apply march_days_mono; lia). rewrite march_days_step in M.
    set (b := if is_leap (march_year d + 1) then 1 else 0) in *. assert (Hb : 0 <= b <= 1) by (unfold b; destruct (is_leap _); lia).
    destruct (Z.eqb_spec (march_month d) 11); [lia|].
    assert (S1 : month_start (march_month d + 1) <= month_start 11) by (apply month_start_mono; lia). change (month_start 11) with 337 in S1. lia.
  - rewrite (proj2 (Z.eqb_neq (march_month d) 11)) in Hend by lia.
    assert (S1 : month_start (march_month d + 1) <= month_start (march_month e)) by (apply month_start_mono; lia). lia.
Qed.

Lemma date_compare_antisym d e : date_compare e d = CompOpp (date_compare d e).
Proof.
  unfold date_compare. rewrite (Z.compare_antisym (year d)), (Z.compare_antisym (month d)), (Z.compare_antisym (dom d)).
  by destruct (year d ?= year e), (month d ?= month e), (dom d ?= dom e).
Qed.

Lemma days_of_compare d e : ymd_ok d = true -> ymd_ok e = true -> (days_of d ?= days_of e) = date_compare d e.
Proof.
  intros Hd He. destruct (date_compare d e) eqn:E.
  - unfold date_compare, then_compare in E. apply Z.compare_eq_iff. destruct d as [y m x], e as [y' m' x']. cbn [year month dom] in E.
    destruct (Z.compare_spec y y'), (Z.compare_spec m m'), (Z.compare_spec x x'); try discriminate. by subst.
  - apply Z.compare_lt_iff. by apply days_of_lt.
  - apply Z.compare_gt_iff. apply days_of_lt; [done|done|]. by rewrite date_compare_antisym, E.
Qed.

(** Two dates as text are in the order of the days they name. *)
Lemma iso_compare a b : four_digit_year a -> four_digit_year b ->
  String.compare (to_iso (ymd_of a)) (to_iso (ymd_of b)) = (a ?= b).
Proof.
  intros Ha Hb. destruct (days_of_ymd a) as [Ea Oa], (days_of_ymd b) as [Eb Ob]. rewrite <- Ea at 2. rewrite <- Eb at 2.
  rewrite days_of_compare by done. unfold four_digit_year in Ha, Hb. unfold date_compare.
  pose proof Oa as Ra. pose proof Ob as Rb. unfold ymd_ok in Ra, Rb. to_prop.
  assert (D : forall y m, last_day y m <= 31) by (intros y m; unfold last_day; repeat case_match; lia).
  pose proof (D (year (ymd_of a)) (month (ymd_of a))). pose proof (D (year (ymd_of b)) (month (ymd_of b))).
  assert (P : forall n m w, (0 < w)%nat -> 0 <= n < 10 ^ Z.of_nat w -> 0 <= m < 10 ^ Z.of_nat w ->
    String.length (pad n w) = String.length (pad m w) /\ String.compare (pad n w) (pad m w) = (n ?= m)).
  { intros n m w Hw Hn Hm. destruct (pad_spec n w Hn Hw) as (L1 & D1 & V1), (pad_spec m w Hm Hw) as (L2 & D2 & V2).
    split; [rewrite <- !chars_length; congruence|].
    rewrite <- (str_chars (pad n w)), <- (str_chars (pad m w)), compare_digits by (done || congruence). by rewrite V1, V2. }
  change (10 ^ Z.of_nat 4) with 10000 in *.
  destruct (P (year (ymd_of a)) (year (ymd_of b)) 4%nat) as [L4 C4]; [lia|change (10 ^ Z.of_nat 4) with 10000; lia|change (10 ^ Z.of_nat 4) with 10000; lia|].
  destruct (P (month (ymd_of a)) (month (ymd_of b)) 2%nat) as [L2 C2]; [lia|change (10 ^ Z.of_nat 2) with 100; lia|change (10 ^ Z.of_nat 2) with 100; lia|].
  destruct (P (dom (ymd_of a)) (dom (ymd_of b)) 2%nat) as [_ C1]; [lia|change (10 ^ Z.of_nat 2) with 100; lia|change (10 ^ Z.of_nat 2) with 100; lia|].
  unfold to_iso. rewrite compare_app by done. rewrite C4. destruct (year (ymd_of a) ?= year (ymd_of b)); [|done..]. cbn [then_compare].
  rewrite (compare_app "-" "-") by done. rewrite compare_refl, compare_app by done. rewrite C2.
  destruct (month (ymd_of a) ?= month (ymd_of b)); [|done..]. cbn [then_compare]. by rewrite (compare_app "-" "-"), compare_refl.
Qed.

(** ** The index and the cache *)

Lemma index_of_lookup instruments key :
  index_of instruments !! key = last (filter (fun i => (exchange i, inst_symbol i) = key) instruments).
Proof.
  unfold index_of. induction instruments as [|inst l IH] using rev_ind; [apply lookup_empty|].
  rewrite foldl_app, filter_app. cbn [foldl]. destruct (decide ((exchange inst, inst_symbol inst) = key)) as [E|E].
  - rewrite E, lookup_insert_eq, filter_cons_True by done. by rewrite filter_nil, last_snoc.
  - rewrite lookup_insert_ne, IH, filter_cons_False by done. by rewrite filter_nil, app_nil_r.
Qed.

(** The byte order of texts, spelled out. *)
Inductive bytes_before : string -> string -> Prop :=
  | before_end c b : bytes_before "" (String c b)
  | before_byte c d a b : (N_of_ascii c < N_of_ascii d)%N -> bytes_before (String c a) (String d b)
  | before_rest c a b : bytes_before a b -> bytes_before (String c a) (String c b).

Lemma ltb_bytes_before a b : String.ltb a b = true <-> bytes_before a b.
Proof.
  unfold String.ltb. revert b. induction a as [|c a IH]; intros [|d b]; cbn [String.compare].
  - split; [done|]. by inversion 1.
  - split; [constructor|done].
  - split; [done|]. by inversion 1.
  - unfold Ascii.compare. destruct (N.compare_spec (N_of_ascii c) (N_of_ascii d)) as [E|L|L].
    + apply (f_equal ascii_of_N) in E. rewrite !ascii_N_embedding in E. subst d. rewrite IH.
      split; [by constructor|]. inversion 1; subst; [lia|done].
    + split; [by constructor|done].
    + split; [done|]. inversion 1; subst; lia.
Qed.

(** C38: a symbol resolves to the last row of the dump that names it, unless that
    row's expiry text is before today's. For a master loaded from a dump, an
    exchange and a symbol are unknown when no row has them; otherwise the last such
    row is answered, exactly unless its expiry is non-empty and before today's ISO
    date in byte order, whatever the text is; every refusal is a validation error.
    When the expiry is an ISO date that comparison is the comparison of the days, so
    the contract trades through its expiry day and not after; a text that is not
    one is compared all the same, and may be refused early or never
    ([named_month_refused]). *)
Theorem resolve_exact m0 m csv date exch sym now :
  is_int64 now -> ingest m0 csv date = (Ok tt, m) ->
  exists instruments, parse_instruments_csv csv = Ok instruments /\
  match last (filter (fun i => (exchange i, inst_symbol i) = (exch, sym)) instruments) with
  | None => exists e, resolve m exch sym now = Err e /\ category e = Validation
  | Some inst =>
      ((expiry inst = "" \/ ~ bytes_before (expiry inst) (to_iso (ymd_of (now / day_ns)))) -> resolve m exch sym now = Ok inst) /\
      (expiry inst <> "" -> bytes_before (expiry inst) (to_iso (ymd_of (now / day_ns))) ->
        exists e, resolve m exch sym now = Err e /\ category e = Validation) /\
      forall day, parse_iso_date (expiry inst) = Some day ->
        if day <? now / day_ns then exists e, resolve m exch sym now = Err e /\ category e = Validation
        else resolve m exch sym now = Ok inst
  end.
Proof.
  intros Hnow. unfold ingest. destruct (parse_instruments_csv csv) as [instruments|e]; [|done]. intros [= <-].
  exists instruments. split; [done|]. unfold resolve. cbn [index commit]. rewrite index_of_lookup.
  destruct (last _) as [inst|]; [|by eexists]. unfold expired, today_iso. setoid_rewrite <- ltb_bytes_before. split_and!.
  - intros [->|H%not_true_is_false]; [done|]. by rewrite H, andb_false_r.
  - intros Hne Hb. rewrite Hb, (proj2 (String.eqb_neq _ _) Hne). by eexists.
  - intros day Hday. destruct (to_iso_parse _ _ Hday) as [E Hy]. rewrite E.
    assert (Ht : four_digit_year (now / day_ns)).
    { apply clock_year. unfold is_int64, int64_min, int64_max, day_ns, minute_ns in *. Z.div_mod_to_equations. lia. }
    assert (Hne : String.eqb (to_iso (ymd_of day)) "" = false).
    { apply String.eqb_neq. intros E0. rewrite <- E in E0. by rewrite E0 in Hday. }
    rewrite Hne. cbn [negb andb]. unfold String.ltb. rewrite iso_compare by done. unfold Z.ltb.
    destruct (day ?= now / day_ns); [done|by eexists|done].
Qed.

(** Two rows of one option: the second, with the later expiry, counts. *)
Definition sample_dump : string := render_lines
  (render_line <$> [dump_header; chars <$> ["0.05"; "1"; "x"; "NFO"; "NIFTY"; "50"; "2026-01-01"];
                    chars <$> ["0.05"; "2"; "x"; "NFO"; "NIFTY"; "75"; "2026-01-29"]]).
Definition sample_master : InstrumentMaster := new_master "/cache" "kite" "nfo".
(** 2026-01-29 and the day after, in nanoseconds. *)
Definition expiry_day : Z := 20482 * day_ns.

Lemma resolve_exact_witness :
  resolve (ingest sample_master sample_dump "2026-01-05").2 "NFO" "NIFTY" expiry_day =
    Ok (mkInstrument "NIFTY" 2 "NFO" (quantity_of 75) (from_paise 5) (quantity_of 0) "2026-01-29") /\
  exists e, resolve (ingest sample_master sample_dump "2026-01-05").2 "NFO" "NIFTY" (expiry_day + day_ns) = Err e /\ category e = Validation.
Proof.
  assert (E : ingest sample_master sample_dump "2026-01-05" = (Ok tt, (ingest sample_master sample_dump "2026-01-05").2)) by reflexivity.
  assert (P : parse_instruments_csv sample_dump = Ok [mkInstrument "NIFTY" 1 "NFO" (quantity_of 50) (from_paise 5) (quantity_of 0) "2026-01-01";
    mkInstrument "NIFTY" 2 "NFO" (quantity_of 75) (from_paise 5) (quantity_of 0) "2026-01-29"]) by reflexivity.
  split.
  - destruct (resolve_exact sample_master _ sample_dump "2026-01-05" "NFO" "NIFTY" expiry_day ltac:(vm_compute; split; discriminate) E) as (l & Hl & H).
    rewrite P in Hl. injection Hl as <-. exact (proj2 (proj2 H) 20482 eq_refl).
  - destruct (resolve_exact sample_master _ sample_dump "2026-01-05" "NFO" "NIFTY" (expiry_day + day_ns) ltac:(vm_compute; split; discriminate) E) as (l & Hl & H).
    rewrite P in Hl. injection Hl as <-. exact (proj2 (proj2 H) 20482 eq_refl).
Defined.

(** Expiries that name their months: one in 2027 is refused in January 2026, as a
    text that begins "15" before "2026"; one whose text begins with a letter never
    expires. *)
Example named_month_refused :
  let dump e := render_lines (render_line <$> [dump_header; chars <$> ["0.05"; "1"; "x"; "NFO"; "NIFTY"; "50"; e]]) in
  let resolved e := is_ok (resolve (ingest sample_master (dump e) "2026-01-05").2 "NFO" "NIFTY" expiry_day) in
  resolved "15JAN2027" = false /\ resolved "JAN2020" = true.
Proof. by vm_compute. Qed.

(** The file is written before the master counts as fresh: a refresh that
    succeeds is fresh for the rest of the UTC day, and leaves a file from which
    another process of the same broker and segment loads the same index on that
    day; one that fails leaves the master as it was and touches at most today's
    file. *)
Lemma master_refresh_persists m fetched now fault files :
  match refresh m fetched now fault files with
  | (Ok _, m', files') =>
      (forall t, t / day_ns = now / day_ns -> require_fresh m' t = Ok tt) /\
      forall m2 t, cache_dir m2 = cache_dir m -> broker m2 = broker m -> segment m2 = segment m -> t / day_ns = now / day_ns ->
        exists m2', load_cached_for m2 (today_iso t) false files' = (Ok tt, m2') /\ index m2' = index m' /\ require_fresh m2' t = Ok tt
  | (Err _, m', files') => m' = m /\ forall f, f <> cache_file_for m (today_iso now) -> files' !! f = files !! f
  end.
Proof.
  unfold refresh. destruct fetched as [csv|e]; [|done]. destruct (parse_instruments_csv csv) as [instruments|e] eqn:E; [|done].
  destruct fault; [|by split..|split; [done|]; intros f Hf; by rewrite lookup_insert_ne].
  assert (F : forall m0 t, t / day_ns = now / day_ns -> require_fresh (commit m0 instruments (today_iso now)) t = Ok tt).
  { intros m0 t Ht. unfold require_fresh, today_iso. rewrite Ht. cbn [loaded cache_date commit negb orb]. by rewrite String.eqb_refl. }
  split; [by intros t Ht; apply F|]. intros m2 t Hd Hb Hs Ht. exists (commit m2 instruments (today_iso now)).
  split; [|split; [done|by apply F]]. unfold load_cached_for, cache_file_for. rewrite Hd, Hb, Hs.
  assert (today_iso t = today_iso now) as -> by (unfold today_iso; by rewrite Ht).
  rewrite lookup_insert_eq. unfold ingest. by rewrite E.
Qed.

(** *** A cut dump is a dump *)

(** The file is written in place. A write that fails, or a process killed in the
    middle, leaves a beginning of the dump under today's name, which is accepted on
    the next start: here with a lot size of 7 instead of 75. *)
Definition lot_last_dump : string := "tick_size,instrument_token,name,exchange,tradingsymbol,expiry,lot_size" +:+ str [newline] +:+
  "0.05,2,x,NFO,NIFTY,2026-01-29,75" +:+ str [newline].
Definition lot_last_cut : string := str_take (String.length lot_last_dump - 2) lot_last_dump.

Example cut_dump_accepted :
  let '(r, m, files) := refresh sample_master (Ok lot_last_dump) expiry_day (WriteFails lot_last_cut) ∅ in
  is_ok r = false /\
  let '(r', m') := load_cached_for m "2026-01-29" false files in
  r' = Ok tt /\ require_fresh m' expiry_day = Ok tt /\
  (fun i => quantity_value (lot_size i)) <$> index m' !! ("NFO", "NIFTY") = Some 7.
Proof. vm_compute. done. Qed.
