(* ===== verification/StoreSchema.v ===== *)
(** * StoreSchema: the projection's database file (src/src/store/store.cpp)

    Opening, the integrity and schema probes, the numbered migrations and the
    reset, as programs of statements: SQLite is a database with transactions whose
    every statement may fail and whose process may be killed at any moment, in
    which case what was committed stays. *)

From S2P Require Import Prelude Programs Errors.

(** ** The database *)

Inductive Value := VText (s : string) | VInt (z : Z) | VNull.

Record Table := mkTable { columns : list string; rows : list (list Value) }.

(** The tables by name and the header's user_version. *)
Record Content := mkContent { tables : gmap string Table; user_version : Z }.

(** What is on disk, and the transaction that is open. *)
Record Db := mkDb { committed : Content; pending : option Content }.

Definition view (db : Db) : Content := default (committed db) (pending db).

(** A change inside the transaction, or committed at once without one. *)
Definition change (f : Content -> option Content) (db : Db) : option Db :=
  match pending db with
  | Some c => (fun c => mkDb (committed db) (Some c)) <$> f c
  | None => (fun c => mkDb c None) <$> f (committed db)
  end.

(** ** Migrations *)

Definition kCurrentSchemaVersion : Z := 2.

Definition kTableNames : list string := ["orders"; "trades"; "positions"; "funds"; "risk_events"; "audit"].

(** The tables of the first migration. *)
Definition first_schema : list (string * list string) :=
  [("orders", ["client_ref"; "symbol"; "side"; "quantity"; "price_paise"; "order_type"; "product"; "strategy"; "state";
               "broker_order_id"; "filled_qty"; "avg_price_paise"]);
   ("trades", ["trade_id"; "client_ref"; "broker_order_id"; "quantity"; "price_paise"]);
   ("positions", ["symbol"; "net_qty"; "avg_price_paise"]);
   ("funds", ["account"; "available_paise"; "used_margin_paise"; "fetched_at_epoch_ms"]);
   ("risk_events", ["id"; "client_ref"; "rule"; "detail"; "at_epoch_ms"]);
   ("audit", ["id"; "seq"; "client_ref"; "event"; "payload"; "at_epoch_ms"])].

(** [CREATE TABLE] fails when there is one of that name. *)
Definition create_table (c : option Content) (t : string * list string) : option Content :=
  c ← c;
  match tables c !! t.1 with
  | Some _ => None
  | None => Some (mkContent (<[t.1 := mkTable t.2 []]> (tables c)) (user_version c))
  end.

Definition kMigration1 (c : Content) : option Content := foldl create_table (Some c) first_schema.

Definition trigger_column : string := "trigger_price_paise".

(** [ALTER TABLE orders ADD COLUMN]: every row of it gets a NULL. *)
Definition kMigration2 (c : Content) : option Content :=
  t ← tables c !! "orders";
  if bool_decide (trigger_column ∈ columns t) then None
  else Some (mkContent (<["orders" := mkTable (columns t ++ [trigger_column]) ((fun r => r ++ [VNull]) <$> rows t)]> (tables c)) (user_version c)).

Definition kMigrations : list (Content -> option Content) := [kMigration1; kMigration2].

(** ** Statements *)

Inductive Statement :=
  | Pragma (text : string)
  | Begin
  | Commit
  | Rollback
  | Migrate (n : nat)
  | SetVersion (v : Z)
  | DropTable (name : string).

Definition execute (s : Statement) (db : Db) : option Db :=
  match s with
  | Pragma _ => Some db
  | Begin => match pending db with None => Some (mkDb (committed db) (Some (committed db))) | Some _ => None end
  | Commit => (fun c => mkDb c None) <$> pending db
  | Rollback => (fun _ => mkDb (committed db) None) <$> pending db
  | Migrate n => m ← kMigrations !! n; change m db
  | SetVersion v => change (fun c => Some (mkContent (tables c) v)) db
  | DropTable name => change (fun c => Some (mkContent (delete name (tables c)) (user_version c))) db
  end.

(** How far a query got: its codes, no row, or the row. *)
Inductive Probe (A : Type) := PrepareFailed (code : Z) | BindFailed (code : Z) | StepFailed (code : Z) | NoRow | Row (a : A).
Arguments PrepareFailed {A} code.
Arguments BindFailed {A} code.
Arguments StepFailed {A} code.
Arguments NoRow {A}.
Arguments Row {A} a.

Inductive SqlOp :=
  | OpenDb (path : string)
  | BusyTimeout (ms : Z)
  | Exec (s : Statement)
  | QuickCheck
  | ReadVersion
  | HasTable (name : string).

(** A code when the call fails. *)
Definition sql_answer (o : SqlOp) : Type :=
  match o with
  | OpenDb _ | BusyTimeout _ | Exec _ => option Z
  | QuickCheck => Probe string
  | ReadVersion => Probe Z
  | HasTable _ => Probe unit
  end.

Abbreviation Sql := (Prog sql_answer).
Abbreviation sql_event := (@ev SqlOp sql_answer).

Declare Scope sql_scope.
Notation "'let!' x := o 'in' p" := (@Do SqlOp sql_answer _ o (fun x => p)) (at level 200, x name, p at level 200) : sql_scope.
Open Scope prog_scope.
Open Scope sql_scope.

(** A statement that fails changes nothing on disk; it may have done part of its
    work in the open transaction, or ended it. Reads that answer are truthful. *)
Definition sql_performs (o : SqlOp) (db : Db) : sql_answer o -> Db -> Prop :=
  match o return sql_answer o -> Db -> Prop with
  | OpenDb _ | BusyTimeout _ => fun _ db' => db' = db
  | Exec s => fun a db' =>
      match a with
      | None => execute s db = Some db'
      | Some _ => db' = db \/ (pending db <> None /\ committed db' = committed db)
      end
  | QuickCheck => fun _ db' => db' = db
  | ReadVersion => fun a db' => db' = db /\ match a with Row v => v = user_version (view db) | _ => True end
  | HasTable name => fun a db' =>
      db' = db /\ match a with Row _ => is_Some (tables (view db) !! name) | NoRow => tables (view db) !! name = None | _ => True end
  end.

(** ** Errors *)

Definition sqlite_error (code : Z) (context : string) : Error :=
  make_error (if Z.land code 255 =? 19 then Validation else Internal) ("store: " +:+ context) ("SQLITE_" +:+ pretty code).

(** SQLITE_CORRUPT and SQLITE_NOTADB. *)
Definition is_corruption (code : Z) : bool := (Z.land code 255 =? 11) || (Z.land code 255 =? 26).

Definition schema_too_new_error : Error :=
  make_error_with Internal DoNotRetry "store: database schema is newer than this build supports — refusing to start" "".
Definition schema_out_of_range_error : Error :=
  make_error_with Internal DoNotRetry "store: on-disk schema version is out of range — refusing to start" "".

(** ** The operations *)

Definition exec (s : Statement) (context : string) : Sql (result unit) :=
  let! code := Exec s in
  Ret match code with None => Ok tt | Some code => Err (sqlite_error code context) end.

(** [BEGIN]-guarded work: a failure is answered after a best-effort rollback. *)
Definition failing (e : Error) (context : string) : Sql (result unit) :=
  let* rolled := exec Rollback context in Ret (Err e).

Definition read_user_version : Sql (result Z) :=
  let! probe := ReadVersion in
  Ret match probe with
      | PrepareFailed code => Err (sqlite_error code "prepare failed")
      | Row version => if version <? 0 then Err schema_out_of_range_error else Ok version
      | BindFailed code | StepFailed code => Err (sqlite_error code "read schema_version")
      | NoRow => Err (sqlite_error 101 "read schema_version")
      end.

Definition write_user_version (version : Z) : Sql (result unit) := exec (SetVersion version) "write schema_version".

(** [n] migrations from version [v] on. *)
Fixpoint migration_loop (n : nat) (v : Z) : Sql (result unit) :=
  match n with
  | O => Ret (Ok tt)
  | S n =>
      let* begun := exec Begin "begin migration" in
      match begun with
      | Err e => Ret (Err e)
      | Ok _ =>
          let* applied := exec (Migrate (Z.to_nat v)) "migration" in
          match applied with
          | Err e => failing e "rollback migration"
          | Ok _ =>
              let* bumped := write_user_version (v + 1) in
              match bumped with
              | Err e => failing e "rollback migration"
              | Ok _ =>
                  let* done := exec Commit "commit migration" in
                  match done with
                  | Err e => failing e "rollback migration"
                  | Ok _ => migration_loop n (v + 1)
                  end
              end
          end
      end
  end.

Definition apply_migrations (from : Z) : Sql (result unit) :=
  if (from <? 0) || (kCurrentSchemaVersion <? from) then Ret (Err schema_out_of_range_error)
  else migration_loop (Z.to_nat (kCurrentSchemaVersion - from)) from.

Inductive Health := Sound | Damaged.

Fixpoint tables_loop (names : list string) : Sql (result Health) :=
  match names with
  | [] => Ret (Ok Sound)
  | name :: names =>
      let! probe := HasTable name in
      match probe with
      | PrepareFailed code => Ret (if is_corruption code then Ok Damaged else Err (sqlite_error code "prepare failed"))
      | BindFailed code => Ret (Err (sqlite_error code "bind table name"))
      | NoRow => Ret (Ok Damaged)
      | StepFailed code => Ret (if is_corruption code then Ok Damaged else Err (sqlite_error code "check table"))
      | Row _ => tables_loop names
      end
  end.

Definition check_tables (version : Z) : Sql (result Health) :=
  if version =? 0 then Ret (Ok Sound) else tables_loop kTableNames.

Definition check_integrity : Sql (result Health) :=
  let! probe := QuickCheck in
  Ret match probe with
      | PrepareFailed code => if is_corruption code then Ok Damaged else Err (sqlite_error code "prepare failed")
      | BindFailed code | StepFailed code => if is_corruption code then Ok Damaged else Err (sqlite_error code "integrity check")
      | NoRow => Err (sqlite_error 101 "integrity check")
      | Row text => Ok (if String.eqb text "ok" then Sound else Damaged)
      end.

Definition kBusyTimeoutMs : Z := 2000.

Definition configure_connection : Sql (result unit) :=
  let! timeout := BusyTimeout kBusyTimeoutMs in
  match timeout with
  | Some code => Ret (Err (sqlite_error code "set busy timeout"))
  | None =>
      let* wal := exec (Pragma "PRAGMA journal_mode = WAL;") "set WAL" in
      match wal with
      | Err e => Ret (Err e)
      | Ok _ =>
          let* sync := exec (Pragma "PRAGMA synchronous = FULL;") "set synchronous" in
          match sync with
          | Err e => Ret (Err e)
          | Ok _ => exec (Pragma "PRAGMA foreign_keys = ON;") "set foreign_keys"
          end
      end
  end.

Definition open_connection (path : string) : Sql (result unit) :=
  let! opened := OpenDb path in
  match opened with
  | Some code => Ret (Err (sqlite_error code "open database"))
  | None => configure_connection
  end.

(** The store's schema version. *)
Definition open (path : string) : Sql (result Z) :=
  let* db := open_connection path in
  match db with
  | Err e => Ret (Err e)
  | Ok _ =>
      let* healthy := check_integrity in
      match healthy with
      | Err e => Ret (Err e)
      | Ok Damaged => Ret (Err (make_error Internal "store: projection failed integrity check" ""))
      | Ok Sound =>
          let* version := read_user_version in
          match version with
          | Err e => Ret (Err e)
          | Ok version =>
              if kCurrentSchemaVersion <? version then Ret (Err schema_too_new_error) else
              let* consistent := check_tables version in
              match consistent with
              | Err e => Ret (Err e)
              | Ok Damaged => Ret (Err (make_error Internal "store: projection is half-migrated" ""))
              | Ok Sound =>
                  let* migrated := apply_migrations version in
                  Ret match migrated with Err e => Err e | Ok _ => Ok kCurrentSchemaVersion end
              end
          end
      end
  end.

Fixpoint drop_loop (names : list string) : Sql (result unit) :=
  match names with
  | [] => Ret (Ok tt)
  | name :: names =>
      let* dropped := exec (DropTable name) "drop table" in
      match dropped with
      | Err e => failing e "rollback reset"
      | Ok _ => drop_loop names
      end
  end.

Definition reset : Sql (result unit) :=
  let* begun := exec Begin "begin reset" in
  match begun with
  | Err e => Ret (Err e)
  | Ok _ =>
      let* dropped := drop_loop kTableNames in
      match dropped with
      | Err e => Ret (Err e)
      | Ok _ =>
          let* zeroed := write_user_version 0 in
          match zeroed with
          | Err e => failing e "rollback reset"
          | Ok _ =>
              let* done := exec Commit "commit reset" in
              match done with
              | Err e => failing e "rollback reset"
              | Ok _ => apply_migrations 0
              end
          end
      end
  end.

(** What the probes found: whether to rebuild. *)
Definition rebuild_verdict : Sql (result bool) :=
  let* healthy := check_integrity in
  match healthy with
  | Err e => Ret (Err e)
  | Ok Damaged => Ret (Ok true)
  | Ok Sound =>
      let* version := read_user_version in
      match version with
      | Err e => Ret (Err e)
      | Ok version =>
          if kCurrentSchemaVersion <? version then Ret (Err schema_too_new_error) else
          let* consistent := check_tables version in
          match consistent with
          | Err e => Ret (Err e)
          | Ok Damaged => Ret (Ok true)
          | Ok Sound =>
              let* migrated := apply_migrations version in
              Ret match migrated with Err e => Err e | Ok _ => Ok false end
          end
      end
  end.

(** The answer: whether the caller must replay the intent log. *)
Definition open_or_rebuild (path : string) : Sql (result bool) :=
  let* db := open_connection path in
  match db with
  | Err e => Ret (Err e)
  | Ok _ =>
      let* verdict := rebuild_verdict in
      match verdict with
      | Err e => Ret (Err e)
      | Ok false => Ret (Ok false)
      | Ok true =>
          let* cleared := reset in
          Ret match cleared with Err e => Err e | Ok _ => Ok true end
      end
  end.

(** ** Upgrades *)

(** The next numbered migration and its version, as one step. *)
Definition next_version (c : Content) : option Content :=
  m ← kMigrations !! Z.to_nat (user_version c);
  c' ← m c;
  Some (mkContent (tables c') (user_version c + 1)).

Definition upgrades : Content -> Content -> Prop := rtc (fun c c' => next_version c = Some c').

(** Every row of every table is still there, padded with NULLs. *)
Definition kept (c c' : Content) : Prop :=
  forall name t, tables c !! name = Some t ->
  exists t' k, tables c' !! name = Some t' /\ rows t' = (fun r => r ++ replicate k VNull) <$> rows t.

Lemma kept_refl c : kept c c.
Proof. intros name t E. exists t, 0%nat. split; [done|]. cbn. symmetry. rewrite <- (list_fmap_id (rows t)) at 2. apply list_fmap_ext. intros _ r _. by rewrite app_nil_r. Qed.

Lemma kept_trans a b c : kept a b -> kept b c -> kept a c.
Proof.
  intros H1 H2 name t E. destruct (H1 name t E) as (t1 & k1 & E1 & R1). destruct (H2 name t1 E1) as (t2 & k2 & E2 & R2).
  exists t2, (k1 + k2)%nat. split; [done|]. rewrite R2, R1, <- list_fmap_compose. apply list_fmap_ext. intros _ r _. cbn.
  by rewrite replicate_add, app_assoc.
Qed.

Lemma kept_same_tables c v : kept c (mkContent (tables c) v).
Proof. exact (kept_refl c). Qed.

Lemma create_table_kept c t c' : create_table (Some c) t = Some c' -> kept c c'.
Proof.
  cbn [create_table mbind option_bind]. destruct (tables c !! t.1) eqn:E; [done|]. intros [= <-] name u Eu.
  destruct (kept_refl c name u Eu) as (t' & k & E' & R). exists t', k. split; [|done]. cbn [tables]. rewrite lookup_insert_ne; [done|congruence].
Qed.

Lemma create_tables_kept ts : forall c c', foldl create_table (Some c) ts = Some c' -> kept c c'.
Proof.
  induction ts as [|t ts IH]; intros c c'; cbn [foldl]; [intros [= <-]; apply kept_refl|].
  destruct (create_table (Some c) t) as [c1|] eqn:E.
  - intros H. eapply kept_trans; [by eapply create_table_kept|by apply IH].
  - intros H. exfalso. clear -H. by induction ts.
Qed.

Lemma migration_kept n m c c' : kMigrations !! n = Some m -> m c = Some c' -> kept c c'.
Proof.
  intros Hm. assert (H : m ∈ kMigrations) by by eapply list_elem_of_lookup_2. clear Hm.
  apply elem_of_cons in H as [->|H]; [apply create_tables_kept|]. apply list_elem_of_singleton in H as ->.
  unfold kMigration2. destruct (tables c !! "orders") as [t|] eqn:E; cbn [mbind option_bind]; [|done].
  case_bool_decide; [done|]. intros [= <-] name u Eu. cbn [tables]. destruct (decide (name = "orders")) as [->|Hn].
  - rewrite lookup_insert_eq. rewrite Eu in E. injection E as <-. by eexists _, 1%nat.
  - rewrite lookup_insert_ne by done. by apply kept_refl.
Qed.

Lemma upgrades_kept c c' : upgrades c c' -> kept c c'.
Proof.
  induction 1 as [|c c1 c2 H _ IH]; [apply kept_refl|]. eapply kept_trans; [|exact IH]. unfold next_version in H.
  destruct (kMigrations !! _) as [m|] eqn:Em; cbn [mbind option_bind] in H; [|done]. destruct (m c) as [c'|] eqn:Ec; [|done].
  injection H as <-. eapply kept_trans; [by eapply migration_kept|apply kept_same_tables].
Qed.

(** ** Runs of the operations *)

Abbreviation sql_states := (all_states sql_performs).

Lemma exec_states s context past db (I : list (Event sql_answer) -> Db -> Prop) (Q : list (Event sql_answer) -> Db -> result unit -> Prop) :
  (forall db', execute s db = Some db' -> I (past ++ [sql_event (Exec s) None]) db' /\ Q (past ++ [sql_event (Exec s) None]) db' (Ok tt)) ->
  (forall code db', db' = db \/ (pending db <> None /\ committed db' = committed db) ->
     I (past ++ [sql_event (Exec s) (Some code)]) db' /\ Q (past ++ [sql_event (Exec s) (Some code)]) db' (Err (sqlite_error code context))) ->
  sql_states (exec s context) past db I Q.
Proof. intros Ho He [code|] db' Hp; [by apply He|by apply Ho]. Qed.

(** Conditions that only see what is committed. *)
Definition on_disk (P : Content -> Prop) (_ : list (Event sql_answer)) (db : Db) : Prop := P (committed db).

Lemma failing_states e context past db (P : Content -> Prop) :
  P (committed db) -> sql_states (failing e context) past db (on_disk P) (fun _ w r => r = Err e /\ P (committed w)).
Proof.
  intros HP. apply (all_states_seq _ _ _ _ (fun _ w _ => P (committed w))); [done|]. unfold on_disk. apply exec_states.
  - cbn [execute]. intros db' H. destruct (pending db); [|done]. injection H as <-. done.
  - intros code db' [->|[_ ->]]; done.
Qed.

(** A statement inside a transaction. *)
Lemma inside_states s context past db c (P : Content -> Prop) (Q : list (Event sql_answer) -> Db -> result unit -> Prop) :
  pending db = Some c -> s <> Commit -> s <> Begin -> s <> Rollback -> P (committed db) ->
  (forall past db' c', committed db' = committed db -> pending db' = Some c' -> execute s db = Some db' -> Q past db' (Ok tt)) ->
  (forall past db' e, committed db' = committed db -> Q past db' (Err e)) ->
  sql_states (exec s context) past db (on_disk P) Q.
Proof.
  intros Ep H1 H2 H3 HP Hok Herr. apply exec_states.
  - intros db' H. assert (K : committed db' = committed db /\ exists c', pending db' = Some c').
    { destruct s; cbn [execute change] in H; try done; unfold change in H; rewrite ?Ep in H.
      - injection H as <-. split; [done|by eexists].
      - destruct (kMigrations !! n) as [m|]; cbn [mbind option_bind] in H; [|done]. destruct (m c); [|done]. injection H as <-. split; [done|by eexists].
      - injection H as <-. split; [done|by eexists].
      - injection H as <-. split; [done|by eexists]. }
    destruct K as [Kc [c' Kp]]. unfold on_disk. rewrite Kc. split; [done|]. by eapply Hok.
  - intros code db' H. assert (K : committed db' = committed db) by (destruct H as [->|[_ H]]; done).
    unfold on_disk. rewrite K. split; [done|by apply Herr].
Qed.

Lemma begin_states context past db (P : Content -> Prop) (Q : list (Event sql_answer) -> Db -> result unit -> Prop) :
  pending db = None -> P (committed db) ->
  (forall past, Q past (mkDb (committed db) (Some (committed db))) (Ok tt)) -> (forall past e, Q past db (Err e)) ->
  sql_states (exec Begin context) past db (on_disk P) Q.
Proof.
  intros Ep HP Hok Herr. apply exec_states.
  - cbn [execute]. rewrite Ep. intros db' [= <-]. by split.
  - intros code db' [->|[H _]]; [by split|done].
Qed.

Lemma commit_states context past db c (P : Content -> Prop) (Q : list (Event sql_answer) -> Db -> result unit -> Prop) :
  pending db = Some c -> P (committed db) -> P c ->
  (forall past, Q past (mkDb c None) (Ok tt)) -> (forall past db' e, committed db' = committed db -> Q past db' (Err e)) ->
  sql_states (exec Commit context) past db (on_disk P) Q.
Proof.
  intros Ep HP Hc Hok Herr. apply exec_states.
  - cbn [execute]. rewrite Ep. intros db' [= <-]. by split.
  - intros code db' H. assert (K : committed db' = committed db) by (destruct H as [->|[_ H]]; done).
    unfold on_disk. rewrite K. split; [done|by apply Herr].
Qed.

(** What a run of migrations may leave. *)
Definition migrated_well (c : Content) (_ : list (Event sql_answer)) (w : Db) (r : result unit) : Prop :=
  upgrades c (committed w) /\ match r with Ok _ => pending w = None /\ user_version (committed w) = kCurrentSchemaVersion | Err _ => True end.

Lemma migration_loop_states c n : forall v past db,
  pending db = None -> user_version (committed db) = v -> 0 <= v -> v + Z.of_nat n = kCurrentSchemaVersion -> upgrades c (committed db) ->
  sql_states (migration_loop n v) past db (on_disk (upgrades c)) (migrated_well c).
Proof.
  induction n as [|n IH]; intros v past db Hp Hv Hv0 Hn Hc; [split; [done|]; split; [done|lia]|].
  cbn [migration_loop]. assert (F : forall e context past w, committed w = committed db ->
    sql_states (failing e context) past w (on_disk (upgrades c)) (migrated_well c)).
  { intros e context past' w Hw. eapply all_states_mono; [|apply failing_states; by rewrite Hw]. intros ??? [-> ?]. by split. }
  eapply all_states_seq; [|apply (begin_states _ _ db _ (fun _ w r => match r with Ok _ => w = mkDb (committed db) (Some (committed db)) | Err _ => w = db end)); done].
  intros past1 w1 [[]|e] ->; [|by split].
  eapply all_states_seq; [|apply (inside_states _ _ _ _ (committed db) _ (fun _ w r => committed w = committed db /\ match r with
    | Ok _ => exists m c', kMigrations !! Z.to_nat v = Some m /\ m (committed db) = Some c' /\ pending w = Some c' | Err _ => True end)); try done].
  2:{ intros past2 w2 c' Hw2 _ H. split; [done|]. cbn [execute] in H. destruct (kMigrations !! Z.to_nat v) as [m|] eqn:Em; [|done].
      cbn [mbind option_bind change pending] in H. exists m. destruct (m (committed db)) as [c2|] eqn:Ec; [|done]. injection H as <-. by eexists. }
  intros past2 w2 [[]|e] [Hw2 H2]; [|by apply F]. destruct H2 as (m & c' & Em & Ec & Hp2).
  unfold write_user_version. eapply all_states_seq; [|apply (inside_states _ _ _ _ c' _ (fun _ w r => committed w = committed db /\ match r with
    | Ok _ => pending w = Some (mkContent (tables c') (v + 1)) | Err _ => True end)); try done].
  2:{ by rewrite Hw2. }
  2:{ intros past3 w3 c3 Hw3 _ H. split; [congruence|]. cbn [execute] in H. unfold change in H. rewrite Hp2 in H. by injection H as <-. }
  2:{ intros past3 w3 e Hw3. split; [congruence|done]. }
  intros past3 w3 [[]|e] [Hw3 Hp3]; [|by apply F].
  assert (Hup : upgrades c (mkContent (tables c') (v + 1))).
  { eapply rtc_r; [exact Hc|]. unfold next_version. rewrite Hv, Em. cbn [mbind option_bind]. by rewrite Ec. }
  eapply all_states_seq; [|apply (commit_states _ _ _ (mkContent (tables c') (v + 1)) _ (fun _ w r => match r with
    | Ok _ => w = mkDb (mkContent (tables c') (v + 1)) None | Err _ => committed w = committed db end)); try done].
  2:{ by rewrite Hw3. }
  2:{ intros past4 w4 e Hw4. congruence. }
  intros past4 w4 [[]|e] H4; [|by apply F]. subst w4. apply IH; try done; lia.
Qed.

Lemma apply_migrations_states c v past db :
  pending db = None -> user_version (committed db) = v -> upgrades c (committed db) ->
  sql_states (apply_migrations v) past db (on_disk (upgrades c)) (migrated_well c).
Proof.
  intros Hp Hv Hc. unfold apply_migrations. destruct (v <? 0) eqn:E; cbn [orb]; [by split|].
  destruct (kCurrentSchemaVersion <? v) eqn:E2; [by split|]. to_prop. apply migration_loop_states; try done; lia.
Qed.

(** *** The reset *)

(** Without the six tables, at version zero. *)
Definition wiped (c : Content) : Content := mkContent (foldl (fun m name => delete name m) (tables c) kTableNames) 0.

Definition reset_stage (c c' : Content) : Prop := c' = c \/ upgrades (wiped c) c'.

Lemma reset_failing c e context past db : committed db = c ->
  sql_states (failing e context) past db (on_disk (reset_stage c)) (fun _ w (r : result unit) => r = Err e /\ reset_stage c (committed w)).
Proof. intros <-. apply failing_states. by left. Qed.

Lemma drop_loop_states c names : forall past db p,
  committed db = c -> pending db = Some p ->
  sql_states (drop_loop names) past db (on_disk (reset_stage c)) (fun _ w r => reset_stage c (committed w) /\ match r with
    | Ok _ => committed w = c /\ exists p', pending w = Some p' /\ tables p' = foldl (fun m name => delete name m) (tables p) names
    | Err _ => True end).
Proof.
  induction names as [|name names IH]; intros past db p Hc Hp; [split; [by left|]; split; [done|by exists p]|]. cbn [drop_loop].
  eapply all_states_seq; [|apply (inside_states _ _ _ _ p _ (fun _ w r => committed w = c /\ match r with
    | Ok _ => pending w = Some (mkContent (delete name (tables p)) (user_version p)) | Err _ => True end)); try done].
  2:{ rewrite Hc. by left. }
  2:{ intros past1 w1 c' Hw _ H. split; [congruence|]. cbn [execute] in H. unfold change in H. rewrite Hp in H. by injection H as <-. }
  2:{ intros past1 w1 e Hw. split; [congruence|done]. }
  intros past1 w1 [[]|e] [Hw Hr].
  - eapply all_states_mono; [|by apply (IH _ _ _ Hw Hr)]. done.
  - eapply all_states_mono; [|by apply reset_failing]. by intros ??? [-> ?].
Qed.

Lemma reset_states past db : pending db = None ->
  sql_states reset past db (on_disk (reset_stage (committed db))) (fun _ w r => reset_stage (committed db) (committed w) /\ match r with
    | Ok _ => pending w = None /\ user_version (committed w) = kCurrentSchemaVersion /\ upgrades (wiped (committed db)) (committed w)
    | Err _ => True end).
Proof.
  intros Hp. set (c := committed db). assert (HP : reset_stage c c) by by left. unfold reset.
  eapply all_states_seq; [|apply (begin_states _ _ db _ (fun _ w r => match r with Ok _ => w = mkDb c (Some c) | Err _ => w = db end)); done].
  intros past1 w1 [[]|e] ->; [|by split].
  eapply all_states_seq; [|by apply (drop_loop_states c kTableNames _ _ c)].
  intros past2 w2 [[]|e] [Hw2 H2]; [|by split]. destruct H2 as (Hc2 & p & Hp2 & Ht2).
  assert (F : forall e context past w, committed w = c -> sql_states (failing e context) past w (on_disk (reset_stage c))
    (fun _ w r => reset_stage c (committed w) /\ match r with
    | Ok _ => pending w = None /\ user_version (committed w) = kCurrentSchemaVersion /\ upgrades (wiped c) (committed w) | Err _ => True end)).
  { intros e context past' w Hw. eapply all_states_mono; [|by apply reset_failing]. by intros ??? [-> ?]. }
  unfold write_user_version. eapply all_states_seq; [|apply (inside_states _ _ _ _ p _ (fun _ w r => committed w = c /\ match r with
    | Ok _ => pending w = Some (wiped c) | Err _ => True end)); try done].
  2:{ intros past3 w3 c3 Hw3 _ H. split; [congruence|]. cbn [execute] in H. unfold change in H. rewrite Hp2 in H. injection H as <-. cbn [pending]. by rewrite Ht2. }
  2:{ intros past3 w3 e Hw3. split; [congruence|done]. }
  intros past3 w3 [[]|e] [Hw3 Hp3]; [|by apply F].
  eapply all_states_seq; [|apply (commit_states _ _ _ (wiped c) _ (fun _ w r => match r with
    | Ok _ => w = mkDb (wiped c) None | Err _ => committed w = c end)); try done].
  2:{ by rewrite Hw3. }
  2:{ right. apply rtc_refl. }
  2:{ intros past4 w4 e Hw4. congruence. }
  intros past4 w4 [[]|e] H4; [|by apply F]. subst w4.
  assert (M := apply_migrations_states (wiped c) 0 past4 (mkDb (wiped c) None) eq_refl eq_refl (rtc_refl _ _)).
  clear -M. revert M. generalize (apply_migrations 0) past4 (mkDb (wiped c) None). intros q. induction q as [r|o next IH]; intros past w; cbn [all_states].
  - intros [H Hr]. split; [by right|]. destruct r; [|done]. by destruct Hr.
  - intros H a w' Hp. destruct (H a w' Hp) as [Hi Hn]. split; [by right|]. by apply IH.
Qed.

Lemma created ts : forall c c' t, foldl create_table (Some c) ts = Some c' -> t ∈ ts -> tables c' !! t.1 = Some (mkTable t.2 []).
Proof.
  induction ts as [|u ts IH]; intros c c' t; [set_solver|]. cbn [foldl]. destruct (create_table (Some c) u) as [c1|] eqn:E.
  - intros H [->|Ht]%elem_of_cons; [|by eapply IH]. cbn [create_table mbind option_bind] in E. destruct (tables c !! u.1); [done|]. injection E as <-.
    assert (K : forall ts d d' n x, foldl create_table (Some d) ts = Some d' -> tables d !! n = Some x -> tables d' !! n = Some x).
    { clear. induction ts as [|u ts IH]; intros d d' n x; cbn [foldl]; [by intros [= <-]|]. destruct (create_table (Some d) u) as [d1|] eqn:E.
      - intros H Hx. eapply IH; [done|]. cbn [create_table mbind option_bind] in E. destruct (tables d !! u.1) eqn:Eu; [done|]. injection E as <-.
        cbn [tables]. rewrite lookup_insert_ne; [done|congruence].
      - intros H. exfalso. clear -H. by induction ts. }
    eapply K; [done|]. apply lookup_insert_eq.
  - intros H. exfalso. clear -H. by induction ts.
Qed.

Definition empty_tables (c : Content) : Prop := forall name, name ∈ kTableNames -> exists t, tables c !! name = Some t /\ rows t = [].

(** Rebuilt from nothing: six empty tables. *)
Lemma rebuilt_empty c c' : upgrades (wiped c) c' -> user_version c' = kCurrentSchemaVersion -> empty_tables c'.
Proof.
  intros H Hv name Hn. inversion H as [|c1 c2 c3 H1 H2]; subst; [done|]. apply upgrades_kept in H2.
  unfold next_version in H1. cbn [user_version wiped] in H1. change (kMigrations !! Z.to_nat 0) with (Some kMigration1) in H1. cbn [mbind option_bind] in H1.
  destruct (kMigration1 (wiped c)) as [d|] eqn:Ed; [|done]. injection H1 as <-.
  assert (Hs : exists cols, (name, cols) ∈ first_schema).
  { assert (Hn' : name ∈ first_schema.*1) by exact Hn. apply list_elem_of_fmap in Hn' as ([n cols] & -> & Hin). by exists cols. }
  destruct Hs as [cols Hs]. assert (E := created _ _ _ _ Ed Hs). destruct (H2 name _ E) as (t' & k & E' & R). exists t'. split; [done|]. by rewrite R.
Qed.

(** *** Opening *)

(** A probe's verdict that the file is damaged or a promised table is missing; a
    read that failed for another reason is none. *)
Definition says_damaged (e : Event sql_answer) : bool :=
  match projT1 e as o return sql_answer o -> bool with
  | QuickCheck => fun a =>
      match a with
      | PrepareFailed code | BindFailed code | StepFailed code => is_corruption code
      | NoRow => false
      | Row text => negb (String.eqb text "ok")
      end
  | HasTable _ => fun a =>
      match a with PrepareFailed code | StepFailed code => is_corruption code | NoRow => true | _ => false end
  | _ => fun _ => false
  end (projT2 e).

Definition verdict (past : list (Event sql_answer)) : Prop := exists e, e ∈ past /\ says_damaged e = true.

Lemma verdict_app past l : verdict past -> verdict (past ++ l).
Proof. intros (e & He & H). exists e. split; [|done]. apply elem_of_app. by left. Qed.

Lemma verdict_last past e : says_damaged e = true -> verdict (past ++ [e]).
Proof. intros H. exists e. split; [|done]. apply elem_of_app. right. by apply list_elem_of_singleton. Qed.

(** After a verdict, anything goes. *)
Lemma verdict_states {A} (p : Sql A) I (Q : list (Event sql_answer) -> Db -> A -> Prop) (J : list (Event sql_answer) -> Db -> Prop) : forall past w,
  verdict past -> sql_states p past w I Q ->
  sql_states p past w (fun past w => J past w \/ verdict past) (fun past w a => verdict past /\ Q past w a).
Proof.
  induction p as [a|o next IH]; intros past w Hv; cbn [all_states]; [by split|]. intros H a w' Hp.
  destruct (H a w' Hp) as [_ Hn]. assert (Hv' := verdict_app past [sql_event o a] Hv). split; [by right|by apply IH].
Qed.

(** Reading operations leave the database alone. *)
Lemma read_states {A} (p : Sql A) I (R : list (Event sql_answer) -> Db -> A -> Prop) db : forall past,
  (forall past, I past db) ->
  all_ops (fun o => forall a w', sql_performs o db a w' -> w' = db) p ->
  sql_states p past db (fun _ _ => True) R ->
  sql_states p past db I (fun past w a => w = db /\ R past w a).
Proof.
  intros past HI. revert past. induction p as [a|o next IH]; intros past; cbn [all_ops all_states]; [by split|].
  intros [Ho Hn] H a w' Hp. assert (w' = db) as -> by by eapply Ho. split; [apply HI|]. apply IH; [apply Hn|]. by apply (H a db Hp).
Qed.

Lemma pragma_reads db text a w' : pending db = None -> sql_performs (Exec (Pragma text)) db a w' -> w' = db.
Proof. intros Hp. destruct a; cbn; [by intros [->|[? _]]|by intros [= ->]]. Qed.

Lemma connection_ops db path : pending db = None -> all_ops (fun o => forall a w', sql_performs o db a w' -> w' = db) (open_connection path).
Proof.
  intros Hp. assert (E : forall t c, all_ops (fun o => forall a w', sql_performs o db a w' -> w' = db) (exec (Pragma t) c)).
  { intros t c. split; [|done]. intros a w'. by apply pragma_reads. }
  split; [done|]. intros [code|]; [done|]. split; [done|]. intros [code|]; [done|].
  apply all_ops_seq; [apply E|]. intros [[]|e]; [|done]. apply all_ops_seq; [apply E|]. intros [[]|e]; [apply E|done].
Qed.

Lemma anything_states {A} (p : Sql A) : forall past w, sql_states p past w (fun _ _ => True) (fun _ _ _ => True).
Proof. induction p as [a|o next IH]; intros past w; cbn [all_states]; [done|]. intros a w' _. split; [done|apply IH]. Qed.

Lemma integrity_states db past : sql_states check_integrity past db (fun _ _ => True) (fun past _ r => match r with Ok Damaged => verdict past | _ => True end).
Proof.
  intros a w' _. split; [done|]. cbn [all_states]. destruct a as [code|code|code| |text]; try done;
    try (destruct (is_corruption code) eqn:E; [|done]; apply verdict_last; done).
  destruct (String.eqb text "ok") eqn:E; [done|]. apply verdict_last. cbn. by rewrite E.
Qed.

Lemma tables_states db names : forall past, sql_states (tables_loop names) past db (fun _ _ => True) (fun past _ r => match r with Ok Damaged => verdict past | _ => True end).
Proof.
  revert db. induction names as [|name names IH]; intros db past; [done|]. intros a w' [-> _]. split; [done|].
  destruct a as [code|code|code| |[]]; [| | | |apply IH].
  - cbn [all_states]. destruct (is_corruption code) eqn:E; [|done]. by apply verdict_last.
  - done.
  - cbn [all_states]. destruct (is_corruption code) eqn:E; [|done]. by apply verdict_last.
  - by apply verdict_last.
Qed.

Lemma tables_ops db names : all_ops (fun o => forall a w', sql_performs o db a w' -> w' = db) (tables_loop names).
Proof. induction names as [|name names IH]; [done|]. split; [by intros a w' [-> _]|]. by intros [code|code|code| |[]]. Qed.

Lemma version_states db past : sql_states read_user_version past db (fun _ _ => True) (fun _ w r => match r with Ok v => v = user_version (view db) /\ 0 <= v | Err _ => True end).
Proof.
  intros a w' [-> Ha]. split; [done|]. cbn [all_states]. destruct a as [code|code|code| |v]; try done.
  destruct (v <? 0) eqn:E; [done|]. to_prop. by split.
Qed.

(** The probes and, when they find nothing wrong, the migrations. *)
Definition probed_well (c : Content) (past : list (Event sql_answer)) (w : Db) (r : result bool) : Prop :=
  upgrades c (committed w) /\ match r with
  | Ok true => verdict past /\ committed w = c /\ pending w = None
  | Ok false => pending w = None /\ user_version (committed w) = kCurrentSchemaVersion
  | Err _ => True
  end.

Lemma rebuild_verdict_states past db : pending db = None ->
  sql_states rebuild_verdict past db (on_disk (upgrades (committed db))) (probed_well (committed db)).
Proof.
  intros Hp. set (c := committed db). assert (Hr : upgrades c c) by apply rtc_refl. unfold rebuild_verdict.
  eapply all_states_seq; [|eapply (read_states _ _ _ db); [done|by split|apply integrity_states]].
  intros past1 w1 [[]|e] [-> H1]; [|by repeat split|by split].
  eapply all_states_seq; [|eapply (read_states _ _ _ db); [done|split; [by intros a w' [-> _]|done]|apply version_states]].
  intros past2 w2 [v|e] [-> H2]; [|by split]. destruct H2 as [Hv _]. destruct (kCurrentSchemaVersion <? v); [by split|].
  eapply all_states_seq; [|apply (read_states _ _ (fun past _ r => match r with Ok Damaged => verdict past | _ => True end) db); [done| |]].
  2:{ unfold check_tables. destruct (v =? 0); [done|apply tables_ops]. }
  2:{ unfold check_tables. destruct (v =? 0); [done|apply tables_states]. }
  intros past3 w3 [[]|e] [-> H3]; [|by repeat split|by split].
  eapply all_states_seq; [|apply (apply_migrations_states c v); [done| |done]].
  - intros past4 w4 [[]|e] [H4 H4']; split; try done.
  - unfold view in Hv. rewrite Hp in Hv. by rewrite Hv.
Qed.

(** C39: opening the projection loses nothing on doubt. At every moment of an open
    that may rebuild - whatever statement fails, for whatever reason, and wherever
    the process is killed - every row of every table on disk is still there, unless
    a probe had by then answered that the file is damaged or that a promised table
    is missing; a read that merely failed never licenses the drop. It answers ok
    without a rebuild only at the current version with every row kept, and with a
    rebuild only at the current version with the six tables empty. *)
Theorem open_or_rebuild_keeps path db :
  pending db = None ->
  sql_states (open_or_rebuild path) [] db
    (fun past w => kept (committed db) (committed w) \/ verdict past)
    (fun past w r => match r with
      | Ok false => kept (committed db) (committed w) /\ user_version (committed w) = kCurrentSchemaVersion /\ pending w = None
      | Ok true => verdict past /\ empty_tables (committed w) /\ user_version (committed w) = kCurrentSchemaVersion /\ pending w = None
      | Err _ => kept (committed db) (committed w) \/ verdict past
      end).
Proof.
  intros Hp. set (c := committed db). unfold open_or_rebuild.
  eapply all_states_seq; [|eapply (read_states _ _ _ db); [intros; left; apply kept_refl|by apply connection_ops|apply anything_states]].
  intros past1 w1 [[]|e] [-> _]; [|left; apply kept_refl].
  eapply all_states_seq; [|eapply all_states_weaken; [|by apply rebuild_verdict_states]; intros ?? H; left; by apply upgrades_kept].
  intros past2 w2 [[]|e] [Hup H2]; [| |left; by apply upgrades_kept].
  - destruct H2 as (Hv & Hc & Hp2).
    eapply all_states_seq; [|eapply (verdict_states reset _ _ (fun _ w => kept c (committed w))); [done|by apply reset_states]].
    intros past3 w3 [[]|e] (Hv3 & _ & H3); [|by right]. destruct H3 as (Hp3 & Hver & Hup3). rewrite Hc in Hup3.
    split; [done|]. split; [by eapply rebuilt_empty|done].
  - destruct H2 as [Hp2 Hver]. split; [by apply upgrades_kept|done].
Qed.

(** The strict open only ever upgrades. *)
Lemma open_upgrades path db : pending db = None ->
  sql_states (open path) [] db (on_disk (upgrades (committed db))) (fun _ w r => upgrades (committed db) (committed w) /\
    match r with Ok v => v = kCurrentSchemaVersion /\ user_version (committed w) = v /\ pending w = None | Err _ => True end).
Proof.
  intros Hp. set (c := committed db). assert (Hr : upgrades c c) by apply rtc_refl. unfold open.
  eapply all_states_seq; [|eapply (read_states _ _ _ db); [done|by apply connection_ops|apply anything_states]].
  intros past0 w0 [[]|e] [-> _]; [|by split].
  eapply all_states_seq; [|eapply (read_states _ _ _ db); [done|by split|apply integrity_states]].
  intros past1 w1 [[]|e] [-> _]; [|by split|by split].
  eapply all_states_seq; [|eapply (read_states _ _ _ db); [done|split; [by intros a w' [-> _]|done]|apply version_states]].
  intros past2 w2 [v|e] [-> H2]; [|by split]. destruct H2 as [Hv _]. destruct (kCurrentSchemaVersion <? v); [by split|].
  eapply all_states_seq; [|apply (read_states _ _ (fun past _ r => match r with Ok Damaged => verdict past | _ => True end) db); [done| |]].
  2:{ unfold check_tables. destruct (v =? 0); [done|apply tables_ops]. }
  2:{ unfold check_tables. destruct (v =? 0); [done|apply tables_states]. }
  intros past3 w3 [[]|e] [-> _]; [|by split|by split].
  eapply all_states_seq; [|apply (apply_migrations_states c v); [done| |done]].
  - intros past4 w4 [[]|e] [H4 H4']; split; try done. by destruct H4'.
  - unfold view in Hv. rewrite Hp in Hv. by rewrite Hv.
Qed.

(** ** Runs *)

(** Every statement succeeds and every probe is truthful; [text] is what the
    integrity check answers. *)
Definition sql_perform (text : string) (o : SqlOp) (db : Db) : sql_answer o * Db :=
  match o return sql_answer o * Db with
  | OpenDb _ | BusyTimeout _ => (None, db)
  | Exec s => match execute s db with Some db' => (None, db') | None => (Some 1, db) end
  | QuickCheck => (Row text, db)
  | ReadVersion => (Row (user_version (view db)), db)
  | HasTable name => (match tables (view db) !! name with Some _ => Row tt | None => NoRow end, db)
  end.

Lemma sql_perform_performs text o db : sql_performs o db (sql_perform text o db).1 (sql_perform text o db).2.
Proof.
  destruct o; cbn [sql_perform sql_performs]; try done.
  - destruct (execute s db) eqn:E; cbn [fst snd]; [done|by left].
  - destruct (tables (view db) !! name) eqn:E; cbn [fst snd]; by split; rewrite ?E.
Qed.

(** At most [n] operations; the result when the program ended. *)
Fixpoint sql_run {A} (n : nat) (text : string) (p : Sql A) (db : Db) : option A * Db :=
  match n, p with
  | S n, Do o next => let '(a, db') := sql_perform text o db in sql_run n text (next a) db'
  | _, Ret a => (Some a, db)
  | O, _ => (None, db)
  end.

(** The process is killed: the open transaction is gone. *)
Definition killed (db : Db) : Db := mkDb (committed db) None.

Definition row_count (db : Db) (name : string) : option nat := (fun t => length (rows t)) <$> tables (view db) !! name.

(** A projection at version one with one order and one audit record. *)
Definition old_projection : Db :=
  mkDb (mkContent (list_to_map ((fun t => (t.1, mkTable t.2 (if String.eqb t.1 "orders" || String.eqb t.1 "audit" then [[VText "r"]] else []))) <$> first_schema)) 1) None.

(** It is upgraded in place. *)
Example upgrade_in_place :
  let '(r, db) := sql_run 60 "ok" (open_or_rebuild "p") old_projection in
  r = Some (Ok false) /\ user_version (committed db) = 2 /\ row_count db "orders" = Some 1%nat /\
  (rows <$> tables (view db) !! "orders") = Some [[VText "r"; VNull]].
Proof. vm_compute. done. Qed.

(** Killed between the commit of a reset and the replay of the intent log: the
    next open finds a sound, empty projection and asks for no rebuild. *)
Example rebuild_forgotten :
  let db1 := killed (sql_run 18 "malformed" (open_or_rebuild "p") old_projection).2 in
  let '(r, db2) := sql_run 60 "ok" (open_or_rebuild "p") db1 in
  r = Some (Ok false) /\ row_count db2 "orders" = Some 0%nat /\ row_count db2 "audit" = Some 0%nat.
Proof. vm_compute. done. Qed.

(** A database of a newer version whose integrity check fails is dropped and
    rebuilt at this build's version: the version is not looked at. *)
Example newer_damaged_dropped :
  let '(r, db) := sql_run 60 "malformed" (open_or_rebuild "p") (mkDb (mkContent (tables (committed old_projection)) 7) None) in
  r = Some (Ok true) /\ user_version (committed db) = 2 /\ row_count db "audit" = Some 0%nat.
Proof. vm_compute. done. Qed.

Lemma open_or_rebuild_keeps_witness :
  sql_states (open_or_rebuild "p") [] old_projection
    (fun past w => kept (committed old_projection) (committed w) \/ verdict past)
    (fun past w r => match r with
      | Ok false => kept (committed old_projection) (committed w) /\ user_version (committed w) = kCurrentSchemaVersion /\ pending w = None
      | Ok true => verdict past /\ empty_tables (committed w) /\ user_version (committed w) = kCurrentSchemaVersion /\ pending w = None
      | Err _ => kept (committed old_projection) (committed w) \/ verdict past
      end).
Proof. exact (open_or_rebuild_keeps "p" old_projection eq_refl). Defined.
