(* ===== verification/StoreTables.v ===== *)
(** * StoreTables: the other tables of the projection (src/src/store/store.cpp)

    Trades, positions, funds, risk events and the audit trail as tables of rows,
    with their constraints and conflict clauses; what a statement's failure leaves;
    and what the tables hold after any history of calls. *)

From Stdlib Require Import Sorting.Sorted.
From S2P Require Import Prelude Errors Domain.

Record Funds := mkFunds { account : string; available : Money; used_margin : Money; fetched_at_epoch_ms : Z }.

Record RiskEvent := mkRiskEvent { risk_id : Z; risk_client_ref : string; rule : string; detail : string; risk_at_epoch_ms : Z }.

Record AuditRecord := mkAudit { audit_id : Z; seq : Z; audit_client_ref : string; event : string; payload : string; at_epoch_ms : Z }.

(** Rows as they are bound: text and integer columns. *)
Record TradeRow := mkTradeRow { col_trade_id : string; col_client_ref : string; col_broker_order_id : string; col_quantity : Z; col_price_paise : Z }.
Record PositionRow := mkPositionRow { col_symbol : string; col_net_qty : Z; col_avg_price_paise : Z }.
Record FundsRow := mkFundsRow { col_account : string; col_available_paise : Z; col_used_margin_paise : Z; col_fetched_at_epoch_ms : Z }.
Record RiskRow := mkRiskRow { col_risk_ref : string; col_rule : string; col_detail : string; col_risk_at : Z }.
Record AuditRow := mkAuditRow { col_seq : Z; col_audit_ref : string; col_event : string; col_payload : string; col_at : Z }.

(** The tables: by their unique column, or by the row id SQLite assigns. *)
Record Tables := mkTables {
  trades : gmap string TradeRow; positions : gmap string PositionRow; funds : gmap string FundsRow;
  risk_events : list (Z * RiskRow); audit : list (Z * AuditRow) }.

Definition no_rows : Tables := mkTables ∅ ∅ ∅ [] [].

(** An integer primary key that is not given: one more than the largest in use. *)
Definition next_id {A} (rows : list (Z * A)) : Z := foldr Z.max 0 rows.*1 + 1.

(** ** Trades *)

Definition bind_trade (t : Trade) : TradeRow :=
  mkTradeRow (trade_id t) (trade_client_ref t) (trade_broker_order_id t) (quantity_value (trade_quantity t)) (price_paise (trade_price t)).
Definition read_trade (r : TradeRow) : Trade :=
  mkTrade (col_trade_id r) (col_client_ref r) (col_broker_order_id r) (quantity_of (col_quantity r)) (from_paise (col_price_paise r)).

(** [INSERT OR IGNORE]: a row with the same trade id stays as it is. *)
Definition insert_trade (fault : option Error) (t : Trade) (T : Tables) : result unit * Tables :=
  match fault with
  | Some e => (Err e, T)
  | None =>
      let row := bind_trade t in
      match trades T !! col_trade_id row with
      | Some _ => (Ok tt, T)
      | None => (Ok tt, mkTables (<[col_trade_id row := row]> (trades T)) (positions T) (funds T) (risk_events T) (audit T))
      end
  end.

(** [ORDER BY] a text column. *)
Fixpoint insert_by {A} (key : A -> string) (x : A) (l : list A) : list A :=
  match l with
  | [] => [x]
  | y :: r => if String.leb (key x) (key y) then x :: l else y :: insert_by key x r
  end.

Definition order_by {A} (key : A -> string) (l : list A) : list A := foldr (insert_by key) [] l.

Definition all_trades (fault : option Error) (T : Tables) : result (list Trade) :=
  match fault with Some e => Err e | None => Ok (read_trade <$> order_by col_trade_id (map_to_list (trades T)).*2) end.

(** ** Positions *)

Definition bind_position (p : Position) : PositionRow := mkPositionRow (pos_symbol p) (quantity_value (net_qty p)) (price_paise (pos_avg_price p)).
Definition read_position (r : PositionRow) : Position := mkPosition (col_symbol r) (quantity_of (col_net_qty r)) (from_paise (col_avg_price_paise r)).

(** [ON CONFLICT(symbol) DO UPDATE]: every column but the key takes the new value. *)
Definition upsert_position (fault : option Error) (p : Position) (T : Tables) : result unit * Tables :=
  match fault with
  | Some e => (Err e, T)
  | None =>
      let row := bind_position p in
      (Ok tt, mkTables (trades T) (<[col_symbol row := row]> (positions T)) (funds T) (risk_events T) (audit T))
  end.

Definition find_position (fault : option Error) (T : Tables) (symbol : string) : result (option Position) :=
  match fault with Some e => Err e | None => Ok (read_position <$> positions T !! symbol) end.

Definition all_positions (fault : option Error) (T : Tables) : result (list Position) :=
  match fault with Some e => Err e | None => Ok (read_position <$> order_by col_symbol (map_to_list (positions T)).*2) end.

(** ** Funds *)

Definition bind_funds (f : Funds) : FundsRow :=
  mkFundsRow (account f) (money_paise (available f)) (money_paise (used_margin f)) (fetched_at_epoch_ms f).
Definition read_funds (r : FundsRow) : Funds :=
  mkFunds (col_account r) (from_paise_money (col_available_paise r)) (from_paise_money (col_used_margin_paise r)) (col_fetched_at_epoch_ms r).

Definition upsert_funds (fault : option Error) (f : Funds) (T : Tables) : result unit * Tables :=
  match fault with
  | Some e => (Err e, T)
  | None =>
      let row := bind_funds f in
      (Ok tt, mkTables (trades T) (positions T) (<[col_account row := row]> (funds T)) (risk_events T) (audit T))
  end.

Definition find_funds (fault : option Error) (T : Tables) (acc : string) : result (option Funds) :=
  match fault with Some e => Err e | None => Ok (read_funds <$> funds T !! acc) end.

(** ** Risk events and audit: rows in the order of their ids *)

Definition bind_risk (e : RiskEvent) : RiskRow := mkRiskRow (risk_client_ref e) (rule e) (detail e) (risk_at_epoch_ms e).
Definition read_risk (r : Z * RiskRow) : RiskEvent := mkRiskEvent r.1 (col_risk_ref r.2) (col_rule r.2) (col_detail r.2) (col_risk_at r.2).

Definition insert_risk_event (fault : option Error) (e : RiskEvent) (T : Tables) : result unit * Tables :=
  match fault with
  | Some e => (Err e, T)
  | None => (Ok tt, mkTables (trades T) (positions T) (funds T) (risk_events T ++ [(next_id (risk_events T), bind_risk e)]) (audit T))
  end.

(** [ORDER BY id]. *)
Fixpoint insert_by_id {A} (x : Z * A) (l : list (Z * A)) : list (Z * A) :=
  match l with [] => [x] | y :: r => if x.1 <=? y.1 then x :: l else y :: insert_by_id x r end.
Definition order_by_id {A} (l : list (Z * A)) : list (Z * A) := foldr insert_by_id [] l.

Definition all_risk_events (fault : option Error) (T : Tables) : result (list RiskEvent) :=
  match fault with Some e => Err e | None => Ok (read_risk <$> order_by_id (risk_events T)) end.

Definition bind_audit (a : AuditRecord) : AuditRow := mkAuditRow (seq a) (audit_client_ref a) (event a) (payload a) (at_epoch_ms a).
Definition read_audit (r : Z * AuditRow) : AuditRecord :=
  mkAudit r.1 (col_seq r.2) (col_audit_ref r.2) (col_event r.2) (col_payload r.2) (col_at r.2).

Definition insert_audit (fault : option Error) (a : AuditRecord) (T : Tables) : result unit * Tables :=
  match fault with
  | Some e => (Err e, T)
  | None => (Ok tt, mkTables (trades T) (positions T) (funds T) (risk_events T) (audit T ++ [(next_id (audit T), bind_audit a)]))
  end.

Definition all_audit (fault : option Error) (T : Tables) : result (list AuditRecord) :=
  match fault with Some e => Err e | None => Ok (read_audit <$> order_by_id (audit T)) end.

(** ** Histories of calls *)

Inductive TableCall :=
  | InsertTrade (t : Trade)
  | UpsertPosition (p : Position)
  | UpsertFunds (f : Funds)
  | InsertRisk (e : RiskEvent)
  | InsertAudit (a : AuditRecord).

Definition run_call (fault : option Error) (c : TableCall) : Tables -> result unit * Tables :=
  match c with
  | InsertTrade t => insert_trade fault t
  | UpsertPosition p => upsert_position fault p
  | UpsertFunds f => upsert_funds fault f
  | InsertRisk e => insert_risk_event fault e
  | InsertAudit a => insert_audit fault a
  end.

(** Calls in order, each with what SQLite reports for it. *)
Definition run_history (h : list (option Error * TableCall)) : Tables := foldl (fun T c => (run_call c.1 c.2 T).2) no_rows h.

(** The calls that were answered ok. *)
Definition stored (h : list (option Error * TableCall)) : list TableCall := omap (fun c => match c.1 with None => Some c.2 | Some _ => None end) h.

Definition as_trade (c : TableCall) : option Trade := match c with InsertTrade t => Some t | _ => None end.
Definition as_position (c : TableCall) : option Position := match c with UpsertPosition p => Some p | _ => None end.
Definition as_funds (c : TableCall) : option Funds := match c with UpsertFunds f => Some f | _ => None end.
Definition as_risk (c : TableCall) : option RiskEvent := match c with InsertRisk e => Some e | _ => None end.
Definition as_audit (c : TableCall) : option AuditRecord := match c with InsertAudit a => Some a | _ => None end.

(** Numbered from one. *)
Definition number_risk (i : nat) (e : RiskEvent) : RiskEvent := mkRiskEvent (Z.of_nat i + 1) (risk_client_ref e) (rule e) (detail e) (risk_at_epoch_ms e).
Definition number_audit (i : nat) (a : AuditRecord) : AuditRecord := mkAudit (Z.of_nat i + 1) (seq a) (audit_client_ref a) (event a) (payload a) (at_epoch_ms a).

(** ** Lemmas *)

Lemma read_bind_trade t : read_trade (bind_trade t) = t.
Proof. by destruct t as [? ? ? [?] [?]]. Qed.
Lemma read_bind_position p : read_position (bind_position p) = p.
Proof. by destruct p as [? [?] [?]]. Qed.
Lemma read_bind_funds f : read_funds (bind_funds f) = f.
Proof. by destruct f as [? [?] [?] ?]. Qed.

Lemma insert_by_perm {A} (key : A -> string) x l : insert_by key x l ≡ₚ x :: l.
Proof. induction l as [|y l IH]; cbn; [done|]. destruct (String.leb _ _); [done|]. rewrite IH. apply Permutation_swap. Qed.

Lemma order_by_perm {A} (key : A -> string) l : order_by key l ≡ₚ l.
Proof. induction l as [|x l IH]; cbn; [done|]. by rewrite insert_by_perm, IH. Qed.

(** Texts in strictly increasing byte order. *)
Definition text_lt (a b : string) : Prop := String.ltb a b = true.

Lemma text_lt_trans a b c : text_lt a b -> text_lt b c -> text_lt a c.
Proof.
  unfold text_lt, String.ltb. revert b c. induction a as [|x a IH]; intros [|y b] [|z c]; cbn [String.compare]; try done.
  unfold Ascii.compare. specialize (IH b c).
  destruct (N.compare_spec (N_of_ascii x) (N_of_ascii y)) as [E1|L1|L1]; try done;
    destruct (N.compare_spec (N_of_ascii y) (N_of_ascii z)) as [E2|L2|L2]; try done; intros H1 H2.
  - rewrite E1, E2, N.compare_refl. by apply IH.
  - rewrite E1. by rewrite (proj2 (N.compare_lt_iff _ _) L2).
  - rewrite <- E2. by rewrite (proj2 (N.compare_lt_iff _ _) L1).
  - rewrite (proj2 (N.compare_lt_iff (N_of_ascii x) (N_of_ascii z))); [done|lia].
Qed.

Lemma text_le_lt a b : String.leb a b = true -> a <> b -> text_lt a b.
Proof.
  unfold String.leb, text_lt, String.ltb. intros H Hn. destruct (String.compare a b) eqn:E; try done.
  by apply String.compare_eq_iff in E.
Qed.

Lemma text_not_le_lt a b : String.leb a b = false -> text_lt b a.
Proof.
  unfold String.leb, text_lt, String.ltb. rewrite (String.compare_antisym b a). by destruct (String.compare a b).
Qed.

(** [ORDER BY] a column without duplicates lists strictly increasing. *)
Lemma order_by_increasing {A} (key : A -> string) (l : list A) :
  NoDup (key <$> l) -> StronglySorted (fun x y => text_lt (key x) (key y)) (order_by key l).
Proof.
  induction l as [|x l IH]; cbn; [by constructor|]. intros [Hx Hl]%NoDup_cons. specialize (IH Hl).
  assert (Hn : forall y, y ∈ order_by key l -> key x <> key y).
  { intros y Hy E. apply Hx. rewrite E. apply list_elem_of_fmap_2. by rewrite order_by_perm in Hy. }
  change (foldr (insert_by key) [] l) with (order_by key l). revert Hn.
  induction IH as [|y l' Hs IH' Hy]; intros Hn; cbn; [by repeat constructor|]. destruct (String.leb (key x) (key y)) eqn:E.
  - assert (L : text_lt (key x) (key y)) by (apply text_le_lt; [done|apply Hn; left]).
    constructor; [by constructor|]. constructor; [done|]. eapply Forall_impl; [exact Hy|]. intros z Hz. by apply (text_lt_trans _ (key y)).
  - constructor; [apply IH'; intros z Hz; apply Hn; by right|]. rewrite insert_by_perm. constructor; [by apply text_not_le_lt|done].
Qed.

(** Rows numbered 1, 2, ... *)
Definition numbered {A} (l : list A) : list (Z * A) := imap (fun i x => (Z.of_nat i + 1, x)) l.

Lemma numbered_snoc {A} (l : list A) x : numbered (l ++ [x]) = numbered l ++ [(Z.of_nat (length l) + 1, x)].
Proof. unfold numbered. rewrite imap_app. cbn. by rewrite Nat.add_0_r. Qed.

Lemma max_numbered {A} (l : list A) : forall k,
  foldr Z.max 0 (imap (fun i (_ : A) => Z.of_nat (k + i) + 1) l) = match l with [] => 0 | _ => Z.of_nat (k + length l) end.
Proof.
  induction l as [|x l IH]; intros k; [done|]. cbn [imap foldr length].
  rewrite (imap_ext _ (fun i (_ : A) => Z.of_nat (S k + i) + 1)) by (intros; cbn; lia). rewrite IH. destruct l; cbn [length]; lia.
Qed.

Lemma next_id_numbered {A} (l : list A) : next_id (numbered l) = Z.of_nat (length l) + 1.
Proof.
  unfold next_id, numbered. f_equal. rewrite fmap_imap. assert (K := max_numbered l 0%nat). cbn [Nat.add] in K.
  transitivity (foldr Z.max 0 (imap (fun i (_ : A) => Z.of_nat i + 1) l)); [done|]. rewrite K. by destruct l.
Qed.

Lemma order_by_id_sorted {A} (l : list (Z * A)) : StronglySorted (fun x y => x.1 < y.1) l -> order_by_id l = l.
Proof.
  induction 1 as [|x l Hl IH Hx]; [done|]. cbn. unfold order_by_id in *. rewrite IH. destruct l as [|y l]; [done|]. cbn.
  apply Forall_cons in Hx as [Hxy _]. by rewrite (proj2 (Z.leb_le _ _)) by lia.
Qed.

Lemma numbered_sorted {A} (l : list A) : StronglySorted (fun x y => x.1 < y.1) (numbered l).
Proof.
  unfold numbered. assert (K : forall k, StronglySorted (fun x y : Z * A => x.1 < y.1) (imap (fun i x => (Z.of_nat (k + i) + 1, x)) l)).
  { induction l as [|x l IH]; intros k; cbn; constructor.
    - eapply (eq_rect _ _ (IH (S k))). apply imap_ext. intros i y _. cbn. do 2 f_equal. lia.
    - apply Forall_forall. intros y Hy. apply elem_of_lookup_imap in Hy as (i & z & -> & _). cbn. lia. }
  exact (K 0%nat).
Qed.

Lemma run_history_snoc h c : run_history (h ++ [c]) = (run_call c.1 c.2 (run_history h)).2.
Proof. unfold run_history. by rewrite foldl_app. Qed.

Lemma stored_snoc h c : stored (h ++ [c]) = stored h ++ match c.1 with None => [c.2] | Some _ => [] end.
Proof. unfold stored. rewrite omap_app. cbn. by destruct (c.1). Qed.

(** What the tables hold, for a history of calls. *)
Record history_of (l : list TableCall) (T : Tables) : Prop := {
  ho_trades : forall id, read_trade <$> trades T !! id = head (filter (fun t => trade_id t = id) (omap as_trade l));
  ho_positions : forall sym, read_position <$> positions T !! sym = last (filter (fun p => pos_symbol p = sym) (omap as_position l));
  ho_funds : forall acc, read_funds <$> funds T !! acc = last (filter (fun f => account f = acc) (omap as_funds l));
  ho_risk : risk_events T = numbered (bind_risk <$> omap as_risk l);
  ho_audit : audit T = numbered (bind_audit <$> omap as_audit l) }.

Lemma last_key {A} (key : A -> string) (l : list A) x k :
  last (filter (fun y => key y = k) (l ++ [x])) = if decide (key x = k) then Some x else last (filter (fun y => key y = k) l).
Proof.
  rewrite filter_app. destruct (decide (key x = k)).
  - rewrite filter_cons_True by done. by rewrite filter_nil, last_snoc.
  - rewrite filter_cons_False by done. by rewrite filter_nil, app_nil_r.
Qed.

Lemma head_key {A} (key : A -> string) (l : list A) x k :
  head (filter (fun y => key y = k) (l ++ [x])) =
  match head (filter (fun y => key y = k) l) with Some y => Some y | None => if decide (key x = k) then Some x else None end.
Proof.
  rewrite filter_app. destruct (filter (fun y => key y = k) l) as [|y l'] eqn:E; [|done]. cbn [app head].
  destruct (decide (key x = k)); [by rewrite filter_cons_True|by rewrite filter_cons_False].
Qed.

Lemma history_step l T c fault : history_of l T ->
  history_of (l ++ match fault with None => [c] | Some _ => [] end) (run_call fault c T).2.
Proof.
  intros [Ht Hp Hf Hr Ha]. destruct fault as [e|]; [rewrite app_nil_r; destruct c; by constructor|].
  destruct c as [t|p|f|e|a]; cbn [run_call]; (constructor; rewrite omap_app; cbn [omap list_omap as_trade as_position as_funds as_risk as_audit]; rewrite ?app_nil_r).
  - intros id. unfold insert_trade. rewrite head_key, <- Ht. cbn [bind_trade col_trade_id].
    destruct (trades T !! trade_id t) as [r|] eqn:E; cbn [snd trades]; destruct (decide (trade_id t = id)) as [<-|Hn].
    + by rewrite E.
    + by destruct (trades T !! id).
    + by rewrite E, lookup_insert_eq; cbn; rewrite read_bind_trade.
    + rewrite lookup_insert_ne by done. by destruct (trades T !! id).
  - unfold insert_trade. by destruct (trades T !! _).
  - unfold insert_trade. by destruct (trades T !! _).
  - unfold insert_trade. by destruct (trades T !! _).
  - unfold insert_trade. by destruct (trades T !! _).
  - done.
  - intros sym. cbn [upsert_position snd positions bind_position col_symbol]. rewrite last_key, <- Hp. destruct (decide (pos_symbol p = sym)) as [<-|Hn].
    + rewrite lookup_insert_eq. cbn. by rewrite read_bind_position.
    + by rewrite lookup_insert_ne.
  - done.
  - done.
  - done.
  - done.
  - done.
  - intros acc. cbn [upsert_funds snd funds bind_funds col_account]. rewrite last_key, <- Hf. destruct (decide (account f = acc)) as [<-|Hn].
    + rewrite lookup_insert_eq. cbn. by rewrite read_bind_funds.
    + by rewrite lookup_insert_ne.
  - done.
  - done.
  - done.
  - done.
  - done.
  - cbn [insert_risk_event snd risk_events]. rewrite Hr, fmap_app. change (bind_risk <$> [e]) with [bind_risk e]. by rewrite numbered_snoc, next_id_numbered.
  - done.
  - done.
  - done.
  - done.
  - done.
  - cbn [insert_audit snd audit]. rewrite Ha, fmap_app. change (bind_audit <$> [a]) with [bind_audit a]. by rewrite numbered_snoc, next_id_numbered.
Qed.

Lemma history_holds h : history_of (stored h) (run_history h).
Proof.
  induction h as [|c h IH] using rev_ind; [by constructor; intros; cbn; rewrite ?lookup_empty|].
  rewrite run_history_snoc, stored_snoc. by apply history_step.
Qed.

Lemma listed {A B} (key : A -> string) (read : A -> B) (m : gmap string A) (x : B) :
  x ∈ read <$> order_by key (map_to_list m).*2 <-> exists k, read <$> m !! k = Some x.
Proof.
  rewrite (order_by_perm key), !list_elem_of_fmap. split.
  - intros (r & -> & Hr). apply list_elem_of_fmap in Hr as ([k r'] & -> & Hkr). apply elem_of_map_to_list in Hkr. exists k. by rewrite Hkr.
  - intros [k Hk]. destruct (m !! k) as [r|] eqn:E; [|done]. injection Hk as <-. exists r. split; [done|].
    apply list_elem_of_fmap. exists (k, r). split; [done|]. by apply elem_of_map_to_list.
Qed.

(** A listing of a table keyed by a text column: strictly increasing, so that no
    key is listed twice. *)
Lemma listed_increasing {A B} (col : A -> string) (read : A -> B) (key : B -> string) (m : gmap string A) :
  (forall r, key (read r) = col r) -> (forall k r, m !! k = Some r -> col r = k) ->
  StronglySorted text_lt (key <$> (read <$> order_by col (map_to_list m).*2)).
Proof.
  intros Hkey Hm.
  assert (N : NoDup (col <$> (map_to_list m).*2)).
  { replace (col <$> (map_to_list m).*2) with ((map_to_list m).*1); [apply NoDup_fst_map_to_list|].
    rewrite <- list_fmap_compose. apply list_fmap_ext. intros i [k r] Hi. cbn.
    apply list_elem_of_lookup_2, elem_of_map_to_list in Hi. symmetry. by apply Hm. }
  rewrite <- list_fmap_compose. assert (K := order_by_increasing col _ N).
  induction K as [|x l Hs IH Hx]; cbn; constructor; [done|]. rewrite Hkey. apply Forall_fmap.
  eapply Forall_impl; [exact Hx|]. intros y Hy. cbn. by rewrite Hkey.
Qed.

(** C40: the projection's other tables remember the history of calls exactly,
    failed statements left out. The trades are listed in strictly increasing order
    of their ids, and are exactly the first executions recorded under each id, so a
    replay lists, and counts, no fill twice; a position and an account's funds are
    the last ones written, whole; the positions are listed in strictly increasing
    order of their symbols, each the last one written; the risk events and the
    audit trail are every record ever accepted, in order and numbered from one. *)
Theorem tables_hold_history h :
  let T := run_history h in let calls := stored h in
  (exists l, all_trades None T = Ok l /\ StronglySorted text_lt (trade_id <$> l) /\
    forall t, t ∈ l <-> head (filter (fun t' => trade_id t' = trade_id t) (omap as_trade calls)) = Some t) /\
  (forall sym, find_position None T sym = Ok (last (filter (fun p => pos_symbol p = sym) (omap as_position calls)))) /\
  (exists l, all_positions None T = Ok l /\ StronglySorted text_lt (pos_symbol <$> l) /\
    forall p, p ∈ l <-> last (filter (fun p' => pos_symbol p' = pos_symbol p) (omap as_position calls)) = Some p) /\
  (forall acc, find_funds None T acc = Ok (last (filter (fun f => account f = acc) (omap as_funds calls)))) /\
  all_risk_events None T = Ok (imap number_risk (omap as_risk calls)) /\
  all_audit None T = Ok (imap number_audit (omap as_audit calls)).
Proof.
  cbn zeta. destruct (history_holds h) as [Ht Hp Hf Hr Ha].
  assert (K : forall {A} (key : A -> string) (l : list A) x k, head (filter (fun y => key y = k) l) = Some x -> key x = k).
  { intros A key l x k H. assert (Hin : x ∈ filter (fun y => key y = k) l) by (destruct (filter _ l); [done|]; injection H as <-; left).
    by apply list_elem_of_filter in Hin as [? _]. }
  assert (K' : forall {A} (key : A -> string) (l : list A) x k, last (filter (fun y => key y = k) l) = Some x -> key x = k).
  { intros A key l x k H. apply last_Some_elem_of in H. by apply list_elem_of_filter in H as [? _]. }
  split_and!.
  - eexists. split; [done|]. split.
    { apply listed_increasing; [done|]. intros k r E. specialize (Ht k). rewrite E in Ht. symmetry in Ht. by apply K in Ht. }
    intros t. rewrite listed. split; [|intros H; exists (trade_id t); by rewrite Ht].
    intros [k Hk]. rewrite Ht in Hk. by rewrite (K _ _ _ _ _ Hk).
  - intros sym. unfold find_position. by rewrite Hp.
  - eexists. split; [done|]. split.
    { apply listed_increasing; [done|]. intros k r E. specialize (Hp k). rewrite E in Hp. symmetry in Hp. by apply K' in Hp. }
    intros p. rewrite listed. split; [|intros H; exists (pos_symbol p); by rewrite Hp].
    intros [k Hk]. rewrite Hp in Hk. by rewrite (K' _ _ _ _ _ Hk).
  - intros acc. unfold find_funds. by rewrite Hf.
  - unfold all_risk_events. rewrite Hr, order_by_id_sorted by apply numbered_sorted. f_equal. unfold numbered. rewrite fmap_imap.
    rewrite imap_fmap. apply imap_ext. by intros i [] _.
  - unfold all_audit. rewrite Ha, order_by_id_sorted by apply numbered_sorted. f_equal. unfold numbered. rewrite fmap_imap.
    rewrite imap_fmap. apply imap_ext. by intros i [] _.
Qed.

(** A replayed fill, a second execution under its id, a failed statement, and ids
    out of order: each id once, its first execution, in order. *)
Example replayed_fill_listed_once :
  let fill id q := InsertTrade (mkTrade id "R1" "B1" (quantity_of q) (from_paise 100)) in
  ((fun t => (trade_id t, quantity_value (trade_quantity t))) <$>
    match all_trades None (run_history [(None, fill "T2" 5); (None, fill "T1" 7); (None, fill "T2" 5);
      (Some (make_error Internal "disk" ""), fill "T3" 1); (None, fill "T1" 9)]) with Ok l => l | Err _ => [] end)
  = [("T1", 7); ("T2", 5)].
Proof. by vm_compute. Qed.
