(* ===== verification/Observability.v ===== *)
(** * Observability: audit events, the redacted log line, the session's reports
    (src/src/observability/)

    [audit_event.cpp] renders an event to one line of JSON, [structured_logger.cpp]
    scrubs the line around the identifiers it keeps and emits it, [audit_trail.cpp]
    keeps the events of each order, [reports.cpp] folds a session's events into its
    three reports. The dump of a JSON value and the random draws behind the
    sentinels are parameters; the logging library is the list of the lines it is
    handed. A logging failure is swallowed by [log], so a line may also be lost. *)

From S2P Require Import Prelude Calendar Redaction WireJson.

(** ** Events (audit_event.hpp) *)

Inductive EventType :=
  | OrderPlaced
  | OrderAcknowledged
  | OrderPartiallyFilled
  | OrderFilled
  | OrderRejected
  | OrderCancelled
  | OrderUnknown
  | RiskResult
  | ReconcileResult
  | EventError
  | Override.

#[export] Instance EventType_eq_dec : EqDecision EventType.
Proof. solve_decision. Defined.

Definition to_string (type : EventType) : string :=
  match type with
  | OrderPlaced => "order.placed"
  | OrderAcknowledged => "order.acknowledged"
  | OrderPartiallyFilled => "order.partially_filled"
  | OrderFilled => "order.filled"
  | OrderRejected => "order.rejected"
  | OrderCancelled => "order.cancelled"
  | OrderUnknown => "order.unknown"
  | RiskResult => "risk.result"
  | ReconcileResult => "reconcile.result"
  | EventError => "error"
  | Override => "override"
  end.

Definition kSchemaVersion : Z := 1.

(** [ts] in nanoseconds of the wall clock; zero is the unset instant. *)
Record AuditEvent := mkEvent {
  type : EventType;
  ts : Z;
  strategy : string;
  broker : string;
  account : string;
  client_ref : string;
  broker_order_id : string;
  fields : json;
}.

Definition to_iso8601_utc (tp : Z) : string :=
  let tod := (tp mod day_ns) / 1000000000 in
  to_iso (ymd_of (tp / day_ns)) +:+ "T" +:+ pad (tod / 3600) 2 +:+ ":" +:+ pad (tod / 60 mod 60) 2 +:+ ":" +:+
  pad (tod mod 60) 2 +:+ "Z".

Definition put_if_set (out : list (string * json)) (key value : string) : list (string * json) :=
  if String.eqb value "" then out else put_field out key (JString value).

(** The object of a line: the reserved keys, the columns that are set, the
    free-form fields under a key of their own. *)
Definition event_object (ev : AuditEvent) : list (string * json) :=
  let out := put_field [] "schema_version" (JInt kSchemaVersion) in
  let out := put_field out "ts" (JString (to_iso8601_utc (ts ev))) in
  let out := put_field out "type" (JString (to_string (type ev))) in
  let out := put_if_set out "strategy" (strategy ev) in
  let out := put_if_set out "broker" (broker ev) in
  let out := put_if_set out "account" (account ev) in
  let out := put_if_set out "client_ref" (client_ref ev) in
  let out := put_if_set out "broker_order_id" (broker_order_id ev) in
  match fields ev with
  | JObject (f :: rest) => put_field out "fields" (JObject (f :: rest))
  | _ => out
  end.

(** ** The typed columns and their sentinels (structured_logger.cpp) *)

Inductive Column := CStrategy | CBroker | CAccount | CClientRef | CBrokerOrderId.

#[export] Instance Column_eq_dec : EqDecision Column.
Proof. solve_decision. Defined.

Definition kProvenanceColumns : list Column := [CStrategy; CBroker; CAccount; CClientRef; CBrokerOrderId].

Definition column_key (c : Column) : string :=
  match c with
  | CStrategy => "strategy" | CBroker => "broker" | CAccount => "account"
  | CClientRef => "client_ref" | CBrokerOrderId => "broker_order_id"
  end.

Definition column_tag (c : Column) : string :=
  match c with
  | CStrategy => "STRATEGY" | CBroker => "BROKER" | CAccount => "ACCOUNT"
  | CClientRef => "CLIENTREF" | CBrokerOrderId => "ORDERID"
  end.

Definition column_of (ev : AuditEvent) (c : Column) : string :=
  match c with
  | CStrategy => strategy ev | CBroker => broker ev | CAccount => account ev
  | CClientRef => client_ref ev | CBrokerOrderId => broker_order_id ev
  end.

(** The event with the columns given by a function. *)
Definition with_columns (ev : AuditEvent) (f : Column -> string) : AuditEvent :=
  mkEvent (type ev) (ts ev) (f CStrategy) (f CBroker) (f CAccount) (f CClientRef) (f CBrokerOrderId) (fields ev).

Definition kSentinelPrefix : string := "PROVENANCESENTINEL".
Definition kSentinelRandomChars : nat := 16.
Definition kSentinelAlphabet : string := "ABCDFGHIJKLMNOQRSTUVWXYZ".

(** [draws]: the distribution's answers over one engine; a column takes the next
    sixteen. *)
Definition sentinel_tail (draws : nat -> nat) (first : nat) : list ascii :=
  (fun k => nth (draws (first + k)%nat mod String.length kSentinelAlphabet) (chars kSentinelAlphabet) "A"%char)
    <$> seq 0 kSentinelRandomChars.

Definition column_index (c : Column) : nat :=
  match c with CStrategy => 0 | CBroker => 1 | CAccount => 2 | CClientRef => 3 | CBrokerOrderId => 4 end.

Definition make_sentinels (draws : nat -> nat) (c : Column) : string :=
  kSentinelPrefix +:+ column_tag c +:+ str (sentinel_tail draws (column_index c * kSentinelRandomChars)).

(** ** Text search *)

(** [find] and [replace] of the first occurrence. *)
Fixpoint replace_first (pattern new text : list ascii) : option (list ascii) :=
  if bool_decide (pattern `prefix_of` text) then Some (new ++ drop (length pattern) text)
  else match text with [] => None | c :: rest => cons c <$> replace_first pattern new rest end.

Fixpoint occurs (pattern text : list ascii) : bool :=
  bool_decide (pattern `prefix_of` text) ||
  match text with [] => false | _ :: rest => occurs pattern rest end.

Definition quote : ascii := "034"%char.

Definition rendered_pair (key value : string) : list ascii :=
  quote :: chars key ++ [quote; ":"%char; quote] ++ chars value ++ [quote].

(** ** Levels and the logger's output *)

Inductive LogLevel := LInfo | LWarn | LError.

Definition level_of (type : EventType) : LogLevel :=
  match type with EventError => LError | Override => LWarn | _ => LInfo end.

Section Render.
  Context (dump : json -> string) (sentinel : Column -> string).

Definition to_json_line (ev : AuditEvent) : string := dump (JObject (event_object ev)).

Definition scrubbed_line (ev : AuditEvent) : string := scrub (to_json_line ev).

Definition preserved (ev : AuditEvent) (c : Column) : bool := is_provenance_id_shape (column_of ev c).

(** The event whose identifiers are sentinels. *)
Definition hidden (ev : AuditEvent) : AuditEvent :=
  with_columns ev (fun c => if preserved ev c then sentinel c else column_of ev c).

(** One column put back: [None] when the sentinel is not found behind its key. *)
Definition splice (ev : AuditEvent) (line : option (list ascii)) (c : Column) : option (list ascii) :=
  if preserved ev c then
    line ← line; replace_first (rendered_pair (column_key c) (sentinel c)) (rendered_pair (column_key c) (column_of ev c)) line
  else line.

Definition any_sentinel (line : list ascii) : bool :=
  existsb (fun c => occurs (chars (sentinel c)) line) kProvenanceColumns.

Definition render_line (ev : AuditEvent) : string :=
  if negb (existsb (preserved ev) kProvenanceColumns) then scrubbed_line ev
  else match foldl (splice ev) (Some (chars (scrubbed_line (hidden ev)))) kProvenanceColumns with
       | Some line => if any_sentinel line then scrubbed_line ev else str line
       | None => scrubbed_line ev
       end.

(** [StructuredLogger::log]: the line handed to the logging library, when there is
    a logger; an unset instant is the clock's. *)
Definition log (has_logger : bool) (now : Z) (ev : AuditEvent) : option (LogLevel * string) :=
  let ev := if ts ev =? 0 then mkEvent (type ev) now (strategy ev) (broker ev) (account ev) (client_ref ev)
                                  (broker_order_id ev) (fields ev) else ev in
  let line := render_line ev in
  if has_logger then Some (level_of (type ev), line) else None.
End Render.

(** ** The trail (audit_trail.cpp) *)

Abbreviation AuditTrail := (gmap string (list AuditEvent)).

Definition record (ev : AuditEvent) (by_ref_ : AuditTrail) : AuditTrail :=
  <[client_ref ev := default [] (by_ref_ !! client_ref ev) ++ [ev]]> by_ref_.

Definition decision_path (r : string) (by_ref_ : AuditTrail) : list AuditEvent := default [] (by_ref_ !! r).

(** ** The daily report (reports.cpp) *)

(** The exact int64 of an integer that fits. *)
Definition pnl_paise (value : json) : option Z :=
  match value with
  | JInt z => if (int64_min <=? z) && (z <=? int64_max) then Some z else None
  | _ => None
  end.

Definition checked_add (total addend : Z) : option Z :=
  if (0 <? addend) && (int64_max - addend <? total) then None
  else if (addend <? 0) && (total <? int64_min - addend) then None
  else Some (total + addend).

(** The counters are ints over a session's events. *)
Record DailyReport := mkDaily {
  orders_placed : Z;
  filled : Z;
  rejected : Z;
  cancelled : Z;
  unknown : Z;
  realized_pnl_paise : Z;
  pnl_values_ignored : Z;
  orders_per_strategy : gmap string Z;
}.

Definition empty_daily : DailyReport := mkDaily 0 0 0 0 0 0 0 ∅.

Definition count_event (r : DailyReport) (ev : AuditEvent) : DailyReport :=
  let '(mkDaily p f x c u pnl ign per) := r in
  match type ev with
  | OrderPlaced =>
      mkDaily (p + 1) f x c u pnl ign
        (if String.eqb (strategy ev) "" then per else <[strategy ev := default 0 (per !! strategy ev) + 1]> per)
  | OrderFilled => mkDaily p (f + 1) x c u pnl ign per
  | OrderRejected => mkDaily p f (x + 1) c u pnl ign per
  | OrderCancelled => mkDaily p f x (c + 1) u pnl ign per
  | OrderUnknown => mkDaily p f x c (u + 1) pnl ign per
  | _ => r
  end.

(** The money an event carries: absent and [null] are no figure. *)
Definition pnl_field (ev : AuditEvent) : option json :=
  match find_key (fields ev) "pnl" with Some JNull => None | v => v end.

Definition add_pnl (r : DailyReport) (ev : AuditEvent) : DailyReport :=
  let '(mkDaily p f x c u pnl ign per) := r in
  match pnl_field ev with
  | Some v =>
      match (paise ← pnl_paise v; checked_add pnl paise) with
      | Some total => mkDaily p f x c u total ign per
      | None => mkDaily p f x c u pnl (ign + 1) per
      end
  | None => r
  end.

Definition daily (events : list AuditEvent) : DailyReport :=
  foldl (fun r ev => add_pnl (count_event r ev) ev) empty_daily events.

(** ** The error report *)

Record ErrorReportEntry := mkErrorEntry { err_ts : string; err_client_ref : string; err_detail : string }.

(** ** The reconciliation report *)

Record OrderReconciliation := mkRecon {
  rec_client_ref : string;
  intended : bool;
  sent : bool;
  confirmed : bool;
  reconciled : bool;
  final_state : string;
}.

Definition new_recon : OrderReconciliation := mkRecon "" false false false false "".

Definition is_verdict (t : EventType) : bool :=
  match t with
  | OrderAcknowledged | OrderPartiallyFilled | OrderFilled | OrderRejected | OrderCancelled => true
  | _ => false
  end.

Definition is_fill (t : EventType) : bool :=
  match t with OrderPartiallyFilled | OrderFilled => true | _ => false end.

Definition is_state (t : EventType) : bool :=
  match t with OrderFilled | OrderRejected | OrderCancelled | OrderUnknown => true | _ => false end.

Definition reconcile_order (o : OrderReconciliation) (ev : AuditEvent) : OrderReconciliation :=
  let '(mkRecon _ i s c r st) := o in
  let st := if is_state (type ev) then to_string (type ev) else st in
  match type ev with
  | OrderPlaced => mkRecon (client_ref ev) true true c r st
  | ReconcileResult => mkRecon (client_ref ev) i s c true st
  | t => mkRecon (client_ref ev) i s (is_verdict t || c) r st
  end.

(** [by_ref] and [had_fill]. *)
Definition reconcile_event (acc : gmap string OrderReconciliation * gset string) (ev : AuditEvent)
    : gmap string OrderReconciliation * gset string :=
  if String.eqb (client_ref ev) "" then acc
  else (<[client_ref ev := reconcile_order (default new_recon (acc.1 !! client_ref ev)) ev]> acc.1,
        if is_fill (type ev) then {[client_ref ev]} ∪ acc.2 else acc.2).

Definition reconcile_events (events : list AuditEvent) : gmap string OrderReconciliation * gset string :=
  foldl reconcile_event (∅, ∅) events.

Record ReconciliationReport := mkReconReport {
  orders : list OrderReconciliation;
  n_intended : Z;
  n_sent : Z;
  n_confirmed : Z;
  n_reconciled : Z;
  discrepancies : list string;
}.

(** One order closed: its row, its discrepancies. *)
Definition close_order (had_fill : gset string) (r : string) (o : OrderReconciliation)
    : OrderReconciliation * list string :=
  let safe_ref := scrub_provenance_column r in
  let st := if String.eqb (final_state o) "" then "open" else final_state o in
  (mkRecon safe_ref (intended o) (sent o) (confirmed o) (reconciled o) st,
   (if intended o && negb (confirmed o) then ["client_ref " +:+ safe_ref +:+ ": intended but not confirmed"] else []) ++
   (if bool_decide (r ∈ had_fill) && negb (reconciled o)
    then ["client_ref " +:+ safe_ref +:+ ": filled but not reconciled"] else [])).

Definition report_order (had_fill : gset string) (report : ReconciliationReport)
    (entry : string * OrderReconciliation) : ReconciliationReport :=
  let '(r, o) := entry in
  let '(row, found) := close_order had_fill r o in
  let one (b : bool) := if b then 1 else 0 in
  mkReconReport (orders report ++ [row]) (n_intended report + one (intended o)) (n_sent report + one (sent o))
    (n_confirmed report + one (confirmed o)) (n_reconciled report + one (reconciled o)) (discrepancies report ++ found).

Definition reconciliation (events : list AuditEvent) : ReconciliationReport :=
  let '(by_ref, had_fill) := reconcile_events events in
  foldl (report_order had_fill) (mkReconReport [] 0 0 0 0 []) (by_key by_ref).

(** ** Rendering the reports *)

Section Reports.
  Context (dump : json -> string).

Definition error_detail (ev : AuditEvent) : string :=
  match fields ev with
  | JObject fs =>
      match field_get fs "message" with
      | Some (JString message) => scrub message
      | _ => match fs with [] => "" | _ => scrub (dump (JObject fs)) end
      end
  | _ => ""
  end.

Definition errors (events : list AuditEvent) : list ErrorReportEntry :=
  (fun ev => mkErrorEntry (to_iso8601_utc (ts ev)) (scrub_provenance_column (client_ref ev)) (error_detail ev))
    <$> filter (fun ev => type ev = EventError) events.

(** Two names sanitized to one key are counted together. *)
Definition add_strategy (out : list (string * json)) (entry : string * Z) : list (string * json) :=
  let safe := scrub_provenance_column entry.1 in
  let before := match field_get out safe with Some (JInt n) => n | _ => 0 end in
  put_field out safe (JInt (before + entry.2)).

Definition per_strategy (r : DailyReport) : list (string * json) :=
  foldl add_strategy [] (by_key (orders_per_strategy r)).

Definition put_fields (entries : list (string * json)) : json :=
  JObject (foldl (fun out e => put_field out e.1 e.2) [] entries).

Definition daily_to_json (r : DailyReport) : string :=
  dump (put_fields
    [("orders_placed", JInt (orders_placed r)); ("filled", JInt (filled r)); ("rejected", JInt (rejected r));
     ("cancelled", JInt (cancelled r)); ("unknown", JInt (unknown r));
     ("realized_pnl_paise", JInt (realized_pnl_paise r)); ("pnl_values_ignored", JInt (pnl_values_ignored r));
     ("orders_per_strategy", JObject (per_strategy r))]).

Definition error_row (e : ErrorReportEntry) : json :=
  put_fields [("ts", JString (err_ts e)); ("client_ref", JString (err_client_ref e)); ("detail", JString (err_detail e))].

Definition errors_to_json (l : list ErrorReportEntry) : string :=
  dump (put_fields [("errors", JArray (error_row <$> l))]).

Definition order_row (o : OrderReconciliation) : json :=
  put_fields [("client_ref", JString (rec_client_ref o)); ("intended", JBool (intended o)); ("sent", JBool (sent o));
              ("confirmed", JBool (confirmed o)); ("reconciled", JBool (reconciled o));
              ("final_state", JString (final_state o))].

Definition reconciliation_to_json (r : ReconciliationReport) : string :=
  dump (put_fields
    [("orders", JArray (order_row <$> orders r)); ("intended", JInt (n_intended r)); ("sent", JInt (n_sent r));
     ("confirmed", JInt (n_confirmed r)); ("reconciled", JInt (n_reconciled r));
     ("discrepancies", JArray (JString <$> discrepancies r))]).
End Reports.

(** ** What the daily report counts *)

Definition count_of (p : AuditEvent -> bool) (events : list AuditEvent) : Z := Z.of_nat (length (List.filter p events)).

Definition of_type (t : EventType) (ev : AuditEvent) : bool := bool_decide (type ev = t).

Definition figures (events : list AuditEvent) : list json := omap pnl_field events.
Definition good_figures (events : list AuditEvent) : list Z := omap pnl_paise (figures events).

Definition zsum (l : list Z) : Z := foldr Z.add 0 l.
Definition zmagnitude (l : list Z) : Z := foldr (fun z total => Z.abs z + total) 0 l.

Lemma zsum_app a b : zsum (a ++ b) = zsum a + zsum b.
Proof. induction a; cbn; [done|]. unfold zsum in *. lia. Qed.
Lemma zmagnitude_app a b : zmagnitude (a ++ b) = zmagnitude a + zmagnitude b.
Proof. induction a; cbn; [done|]. unfold zmagnitude in *. lia. Qed.
Lemma zsum_bound l : Z.abs (zsum l) <= zmagnitude l.
Proof. induction l; cbn; [done|]. unfold zsum, zmagnitude in *. lia. Qed.

Lemma count_snoc p l ev : count_of p (l ++ [ev]) = count_of p l + (if p ev then 1 else 0).
Proof. unfold count_of. rewrite List.filter_app, length_app. cbn. destruct (p ev); cbn; lia. Qed.

Lemma checked_add_spec total addend : is_int64 total -> is_int64 addend ->
  checked_add total addend = if bool_decide (is_int64 (total + addend)) then Some (total + addend) else None.
Proof.
  intros H1 H2. unfold checked_add. unfold_ints.
  repeat match goal with |- context [?a <? ?b] => destruct (Z.ltb_spec a b) end; cbn [andb];
    case_bool_decide; try done; lia.
Qed.

Lemma pnl_paise_int64 v z : pnl_paise v = Some z -> is_int64 z.
Proof. destruct v; cbn; try done. destruct (_ && _) eqn:E; [|done]. intros [= <-]. to_prop. unfold_ints. lia. Qed.

(** The counters are the numbers of the events of their kind. *)
Definition counts_right (events : list AuditEvent) (r : DailyReport) : Prop :=
  orders_placed r = count_of (of_type OrderPlaced) events /\ filled r = count_of (of_type OrderFilled) events /\
  rejected r = count_of (of_type OrderRejected) events /\ cancelled r = count_of (of_type OrderCancelled) events /\
  unknown r = count_of (of_type OrderUnknown) events /\
  forall s, s <> "" -> default 0 (orders_per_strategy r !! s) =
    count_of (fun ev => of_type OrderPlaced ev && String.eqb (strategy ev) s) events.

(** The money is the sum of the figures kept, and every other one was counted. *)
Definition money_right (events : list AuditEvent) (r : DailyReport) (kept : list Z) : Prop :=
  kept `sublist_of` good_figures events /\ realized_pnl_paise r = zsum kept /\ is_int64 (realized_pnl_paise r) /\
  pnl_values_ignored r = Z.of_nat (length (figures events)) - Z.of_nat (length kept) /\
  (zmagnitude (good_figures events) <= int64_max -> kept = good_figures events).

Lemma add_pnl_counts r ev :
  let r' := add_pnl r ev in
  (orders_placed r', filled r', rejected r', cancelled r', unknown r', orders_per_strategy r') =
  (orders_placed r, filled r, rejected r, cancelled r, unknown r, orders_per_strategy r).
Proof. destruct r. cbn. destruct (pnl_field ev); [|done]. cbn. destruct (_ ≫= _); done. Qed.

Lemma count_event_money r ev :
  realized_pnl_paise (count_event r ev) = realized_pnl_paise r /\
  pnl_values_ignored (count_event r ev) = pnl_values_ignored r.
Proof. destruct r. cbn. by destruct (type ev). Qed.

Lemma count_event_right events r ev : counts_right events r -> counts_right (events ++ [ev]) (count_event r ev).
Proof.
  intros (H1 & H2 & H3 & H4 & H5 & H6). unfold counts_right. setoid_rewrite count_snoc. unfold of_type in *. destruct r. cbn in *.
  destruct (type ev) eqn:Et; rewrite ?bool_decide_true, ?bool_decide_false by done; cbn; rewrite ?Z.add_0_r;
    (split_and!; [by try f_equal..|]); intros s Hs; rewrite ?Z.add_0_r; [|by apply H6..].
  rewrite <- (H6 s Hs). destruct (String.eqb_spec (strategy ev) "") as [E|E].
  - rewrite (proj2 (String.eqb_neq _ _)) by congruence. cbn. lia.
  - destruct (String.eqb_spec (strategy ev) s) as [<-|]; cbn; [by rewrite lookup_insert_eq|].
    rewrite lookup_insert_ne by done. lia.
Qed.

Lemma add_pnl_right events r kept ev : money_right events r kept ->
  exists kept', money_right (events ++ [ev]) (add_pnl (count_event r ev) ev) kept'.
Proof.
  intros (Hs & Hv & Hi & Hn & Hall). destruct (count_event_money r ev) as [E1 E2].
  unfold money_right, good_figures, figures in *. rewrite !omap_app. cbn [omap list_omap].
  destruct (count_event r ev) as [p f x c u pnl ign per] eqn:E. cbn in E1, E2. subst pnl ign.
  unfold add_pnl. destruct (pnl_field ev) as [v|]; cbn; [|exists kept; rewrite !app_nil_r; done].
  destruct (pnl_paise v) as [z|] eqn:Ez; cbn.
  2: { exists kept. rewrite app_nil_r, length_app. cbn. split_and!; try done. lia. }
  rewrite checked_add_spec by eauto using pnl_paise_int64. rewrite length_app. cbn.
  case_bool_decide as Hadd; cbn.
  - exists (kept ++ [z]). rewrite zsum_app, length_app, zmagnitude_app. cbn. split_and!; try lia.
    + by apply sublist_app.
    + done.
    + intros Hm. rewrite Hall; [done|]. lia.
  - exists kept. split_and!; try done; [by apply sublist_inserts_r|lia|].
    intros Hm. rewrite zmagnitude_app in Hm. cbn in Hm. destruct Hadd.
    rewrite Hv, Hall by lia. pose proof (zsum_bound (omap pnl_paise (omap pnl_field events))). unfold_ints. lia.
Qed.

(** The daily report, over any session. Its counters are exactly the events of
    each kind, and its table the placements of each strategy. Its money is a 64-bit
    sum of figures the events carry, each one not summed is counted as ignored, and
    none that is an exact 64-bit integer is dropped as long as the figures' sizes
    add up to a 64-bit number: then the total does not depend on the order the
    events arrived in. *)
Theorem daily_exact (events : list AuditEvent) :
  counts_right events (daily events) /\ exists kept, money_right events (daily events) kept.
Proof.
  unfold daily. induction events as [|ev events [Hc [kept Hm]]] using rev_ind.
  - split; [by split_and!|]. exists []. by split_and!.
  - rewrite foldl_app. cbn [foldl]. split.
    + pose proof (add_pnl_counts (count_event (foldl (fun r e => add_pnl (count_event r e) e) empty_daily events) ev) ev) as H.
      injection H as E1 E2 E3 E4 E5 E6. unfold counts_right. rewrite E1, E2, E3, E4, E5, E6. by apply count_event_right.
    + by apply (add_pnl_right events _ kept).
Qed.

(** ** What the reconciliation report says *)

Definition of_ref (r : string) (ev : AuditEvent) : bool := String.eqb (client_ref ev) r.

(** The events of an order, in their order. *)
Definition events_of (r : string) (events : list AuditEvent) : list AuditEvent := List.filter (of_ref r) events.

Definition happened (p : EventType -> bool) (l : list AuditEvent) : bool := existsb (fun ev => p (type ev)) l.

Lemma events_of_snoc r l ev : events_of r (l ++ [ev]) = events_of r l ++ (if of_ref r ev then [ev] else []).
Proof. unfold events_of. by rewrite List.filter_app. Qed.

(** [by_ref] and [had_fill] see an order's own events only. *)
Lemma reconcile_events_at events r : r <> "" ->
  (reconcile_events events).1 !! r =
    match events_of r events with [] => None | l => Some (foldl reconcile_order new_recon l) end /\
  (r ∈ (reconcile_events events).2 <-> happened is_fill (events_of r events) = true).
Proof.
  intros Hr. unfold reconcile_events. induction events as [|ev events [IH1 IH2]] using rev_ind; [done|].
  rewrite foldl_app. cbn [foldl]. unfold reconcile_event at 1 3. rewrite events_of_snoc. unfold of_ref.
  set (acc := foldl reconcile_event (∅, ∅) events) in *.
  destruct (String.eqb_spec (client_ref ev) r) as [<-|Hne].
  - rewrite (proj2 (String.eqb_neq _ "")) by done. cbn [fst snd]. rewrite lookup_insert_eq, IH1. split.
    + destruct (events_of (client_ref ev) events) as [|e l]; [done|]. cbn. by rewrite foldl_app.
    + unfold happened in *. rewrite existsb_app. cbn. rewrite orb_false_r, orb_true_iff, <- IH2.
      destruct (is_fill (type ev)); [set_solver|]. by intuition.
  - rewrite app_nil_r. destruct (String.eqb_spec (client_ref ev) "") as [|Hk]; [done|]. cbn [fst snd].
    rewrite lookup_insert_ne by done. split; [done|]. destruct (is_fill (type ev)); set_solver.
Qed.

Lemma reconcile_events_unkeyed events : (reconcile_events events).1 !! "" = None.
Proof.
  unfold reconcile_events. induction events as [|ev events IH] using rev_ind; [done|].
  rewrite foldl_app. cbn [foldl]. unfold reconcile_event at 1.
  destruct (String.eqb_spec (client_ref ev) "") as [|Hk]; [done|]. cbn [fst]. by rewrite lookup_insert_ne.
Qed.

Lemma unkeyed_fill events : "" ∈ (reconcile_events events).2 <-> False.
Proof.
  unfold reconcile_events. induction events as [|ev events IH] using rev_ind; [set_solver|].
  rewrite foldl_app. cbn [foldl]. unfold reconcile_event at 1.
  destruct (String.eqb_spec (client_ref ev) "") as [|Hk]; [done|]. cbn [snd]. destruct (is_fill (type ev)); set_solver.
Qed.

(** The flags of an order are what happened to it. *)
Lemma order_flags l :
  let o := foldl reconcile_order new_recon l in
  intended o = happened (fun t => bool_decide (t = OrderPlaced)) l /\ sent o = intended o /\
  confirmed o = happened is_verdict l /\ reconciled o = happened (fun t => bool_decide (t = ReconcileResult)) l.
Proof.
  induction l as [|ev l IH] using rev_ind; [done|]. cbn zeta in *. rewrite foldl_app. cbn [foldl].
  unfold happened in *. rewrite !existsb_app. cbn [existsb]. rewrite !orb_false_r.
  destruct (foldl reconcile_order new_recon l) as [r0 i s c rc st]. cbn in IH. destruct IH as (<- & -> & <- & <-).
  unfold reconcile_order. destruct (type ev); rewrite ?bool_decide_true, ?bool_decide_false by done; cbn;
    rewrite ?orb_true_r, ?orb_false_r; done.
Qed.

Definition count_flag (flag : OrderReconciliation -> bool) (l : list (string * OrderReconciliation)) : Z :=
  Z.of_nat (length (List.filter (fun e => flag e.2) l)).

Lemma count_flag_cons flag r o l : count_flag flag ((r, o) :: l) = (if flag o then 1 else 0) + count_flag flag l.
Proof. unfold count_flag. cbn. destruct (flag o); cbn [length]; lia. Qed.

Lemma report_fold had_fill l : forall r0,
  foldl (report_order had_fill) r0 l =
  mkReconReport (orders r0 ++ ((fun e => (close_order had_fill e.1 e.2).1) <$> l))
    (n_intended r0 + count_flag intended l) (n_sent r0 + count_flag sent l) (n_confirmed r0 + count_flag confirmed l)
    (n_reconciled r0 + count_flag reconciled l)
    (discrepancies r0 ++ (l ≫= fun e => (close_order had_fill e.1 e.2).2)).
Proof.
  induction l as [|[r o] l IH]; intros r0.
  - destruct r0. cbn. by rewrite !app_nil_r, !Z.add_0_r.
  - cbn [foldl]. rewrite IH, !count_flag_cons. cbn. rewrite <- !app_assoc. f_equal; lia.
Qed.

(** The lines of one order. *)
Lemma close_lines events r o had_fill d :
  (r ∈ had_fill <-> happened is_fill (events_of r events) = true) ->
  Some o = match events_of r events with [] => None | l => Some (foldl reconcile_order new_recon l) end ->
  let l := events_of r events in
  let line (what : string) := "client_ref " +:+ scrub_provenance_column r +:+ ": " +:+ what in
  d ∈ (close_order had_fill r o).2 <->
    (d = line "intended but not confirmed" /\ happened (fun t => bool_decide (t = OrderPlaced)) l = true /\
       happened is_verdict l = false) \/
    (d = line "filled but not reconciled" /\ happened is_fill l = true /\
       happened (fun t => bool_decide (t = ReconcileResult)) l = false).
Proof.
  intros Hf Ho. cbn zeta. assert (o = foldl reconcile_order new_recon (events_of r events)) as ->
    by (destruct (events_of r events); by simplify_eq). clear Ho.
  destruct (order_flags (events_of r events)) as (Hi & _ & Hc & Hr). rewrite <- Hi, <- Hc, <- Hr. unfold close_order. cbn [snd].
  rewrite elem_of_app, <- Hf. set (o := foldl reconcile_order new_recon (events_of r events)).
  destruct (intended o), (confirmed o), (reconciled o); case_bool_decide; cbn [andb negb];
    rewrite ?list_elem_of_singleton, ?elem_of_nil; naive_solver.
Qed.

(** The reconciliation statement accuses exactly the orders in doubt. A line of
    its discrepancies stands for an order with a reference that was placed and never
    answered by the broker, or that filled and was never reconciled, and every such
    order has its line; the reference in it is the order's own when it is an
    identifier, and scrubbed otherwise. *)
Theorem discrepancies_exact (events : list AuditEvent) (d : string) :
  d ∈ discrepancies (reconciliation events) <->
  exists r, r <> "" /\
    let l := events_of r events in
    let line (what : string) := "client_ref " +:+ scrub_provenance_column r +:+ ": " +:+ what in
    (d = line "intended but not confirmed" /\ happened (fun t => bool_decide (t = OrderPlaced)) l = true /\
       happened is_verdict l = false) \/
    (d = line "filled but not reconciled" /\ happened is_fill l = true /\
       happened (fun t => bool_decide (t = ReconcileResult)) l = false).
Proof.
  unfold reconciliation. pose proof (reconcile_events_at events) as Hat. pose proof (reconcile_events_unkeyed events) as H0.
  destruct (reconcile_events events) as [by_ref had_fill]. cbn [fst snd] in *. rewrite report_fold. cbn [discrepancies].
  rewrite app_nil_l, list_elem_of_bind. split.
  - intros ([r o] & Hd & Hin). apply elem_of_by_key in Hin. cbn [fst snd] in Hd.
    assert (r <> "") as Hr by (intros ->; congruence). exists r. split; [done|]. cbn zeta.
    destruct (Hat r Hr) as [E Hf]. rewrite Hin in E. by apply (close_lines events r o had_fill d Hf E).
  - intros (r & Hr & H). cbn zeta in H. destruct (Hat r Hr) as [E Hf].
    destruct (events_of r events) as [|e l] eqn:El; [cbn in H; naive_solver|].
    exists (r, foldl reconcile_order new_recon (e :: l)). split; [|by apply elem_of_by_key].
    rewrite <- El in *. by apply (close_lines events r _ had_fill d Hf); [rewrite El|].
Qed.

(** Orders do not interfere in the statement, however their events interleave:
    two sessions in which every order went through the same events in the same order
    have the same statement, down to the order of its rows and its lines. *)
Theorem reconciliation_per_order (events events' : list AuditEvent)
    (Hsame : forall r, r <> "" -> events_of r events = events_of r events') :
  reconciliation events = reconciliation events'.
Proof.
  assert (reconcile_events events = reconcile_events events') as E; [|unfold reconciliation; by rewrite E].
  apply injective_projections.
  - apply map_eq. intros r. destruct (decide (r = "")) as [->|Hr]; [by rewrite !reconcile_events_unkeyed|].
    rewrite !(proj1 (reconcile_events_at _ r Hr)). by rewrite Hsame.
  - apply set_eq. intros r. destruct (decide (r = "")) as [->|Hr].
    + by rewrite !unkeyed_fill.
    + rewrite !(proj2 (reconcile_events_at _ r Hr)). by rewrite Hsame.
Qed.

(** The trail of an order is its events, in the order they were recorded. *)
Lemma decision_path_events (events : list AuditEvent) (r : string) :
  decision_path r (foldl (fun trail ev => record ev trail) ∅ events) = events_of r events.
Proof.
  unfold decision_path. induction events as [|ev events IH] using rev_ind; [done|].
  rewrite foldl_app, events_of_snoc. cbn [foldl]. unfold record at 1, of_ref.
  destruct (String.eqb_spec (client_ref ev) r) as [<-|Hr].
  - by rewrite lookup_insert_eq, IH.
  - by rewrite lookup_insert_ne, IH, app_nil_r.
Qed.

(** ** A session *)

Definition sample_event (t : EventType) (r : string) (fs : list (string * json)) : AuditEvent :=
  mkEvent t 0 "alpha" "" "" r "" (JObject fs).

(** Two orders, one filled and never reconciled, one never answered; the figures of
    a gain, of an integer above the 64-bit range, of a float and of a null. *)
Definition sample_session : list AuditEvent :=
  [sample_event OrderPlaced "alpha-1" []; sample_event OrderPlaced "alpha-2" [("pnl", JNull)];
   sample_event OrderFilled "alpha-1" [("pnl", JInt 250)]; sample_event EventError "" [("pnl", JInt (2 ^ 64 - 1))];
   sample_event RiskResult "alpha-1" [("pnl", JFloat "2.5")]].

Definition sample_interleaved : list AuditEvent :=
  [sample_event OrderPlaced "alpha-2" [("pnl", JNull)]; sample_event OrderPlaced "alpha-1" [];
   sample_event OrderFilled "alpha-1" [("pnl", JInt 250)]; sample_event RiskResult "alpha-1" [("pnl", JFloat "2.5")]].

Example sample_daily :
  let r := daily sample_session in
  orders_placed r = 2 /\ filled r = 1 /\ realized_pnl_paise r = 250 /\ pnl_values_ignored r = 2 /\
  orders_per_strategy r !! "alpha" = Some 2.
Proof. by vm_compute. Qed.

Example sample_statement :
  discrepancies (reconciliation sample_session) =
    ["client_ref alpha-1: filled but not reconciled"; "client_ref alpha-2: intended but not confirmed"].
Proof. by vm_compute. Qed.

Lemma reconciliation_per_order_witness :
  reconciliation sample_session = reconciliation sample_interleaved.
Proof.
  apply (reconciliation_per_order sample_session sample_interleaved). intros r Hr.
  unfold events_of, of_ref, sample_session, sample_interleaved. cbn [List.filter client_ref sample_event].
  rewrite (proj2 (String.eqb_neq "" r)) by congruence.
  destruct (String.eqb_spec "alpha-1" r) as [<-|]; [done|]. by destruct (String.eqb "alpha-2" r).
Defined.
