(* ===== verification/AuditLine.v ===== *)
(** * AuditLine: identifiers survive the redaction of the audit line

    The contract of [render_line] (src/src/observability/structured_logger.cpp)
    against the scrubber (Redaction) and the renderer (Observability): the runs of
    token characters the scrubber looks at, why a sentinel is none it redacts, and
    what is put back. The dump of a JSON object is a parameter with its documented
    layout. *)

From S2P Require Import Prelude Errors Calendar Redaction WireJson Observability.

Abbreviation token_text := (Forall (fun c => is_token_char c = true)).

(** ** The runs of a text *)

(** The maximal runs of token characters, empty ones between two separators. *)
Fixpoint runs_from (cur l : list ascii) : list (list ascii) :=
  match l with
  | [] => [rev cur]
  | c :: r => if is_token_char c then runs_from (c :: cur) r else rev cur :: runs_from [] r
  end.

Definition runs (l : list ascii) : list (list ascii) := runs_from [] l.

(** A run the scrubber leaves alone wherever it stands. *)
Definition benign (run : list ascii) : bool :=
  negb (key_is_sensitive run) &&
  negb ((20 <=? length run)%nat && run_has_letter_and_digit run) &&
  negb ((4 <=? length run)%nat && (length run <=? 8)%nat && run_is_all_digits run).

Abbreviation harmless l := (Forall (fun run => benign run = true) (runs l)).

Lemma runs_from_sep a c b : is_token_char c = false -> forall cur,
  runs_from cur (a ++ c :: b) = runs_from cur a ++ runs b.
Proof.
  intros Hc. induction a as [|x a IH]; intros cur; cbn; [by rewrite Hc|].
  destruct (is_token_char x); [apply IH|]. by rewrite IH.
Qed.

Lemma runs_sep a c b : is_token_char c = false -> runs (a ++ c :: b) = runs a ++ runs b.
Proof. intros. by apply runs_from_sep. Qed.

Lemma runs_from_token l : token_text l -> forall cur, runs_from cur l = [rev cur ++ l].
Proof.
  induction 1 as [|c l Hc _ IH]; intros cur; cbn; [by rewrite app_nil_r|].
  rewrite Hc, IH. cbn. by rewrite <- app_assoc.
Qed.

Lemma runs_token l : token_text l -> runs l = [l].
Proof. intros H. unfold runs. by rewrite runs_from_token. Qed.

Lemma harmless_sep a c b : is_token_char c = false -> harmless (a ++ c :: b) <-> harmless a /\ harmless b.
Proof. intros Hc. by rewrite runs_sep, Forall_app. Qed.

Lemma benign_run run tail : run <> [] -> token_text run -> stops is_token_char tail -> benign run = true ->
  try_key_value (run ++ tail) = None.
Proof.
  intros Hne Hr Ht Hb. unfold try_key_value. rewrite span_app by done. unfold benign in Hb.
  destruct (key_is_sensitive run); [done|]. by rewrite orb_true_r.
Qed.

Lemma scrub_run_benign seen run : benign run = true -> scrub_run seen run = run.
Proof.
  unfold benign, scrub_run. intros H. apply andb_true_iff in H as [H H3]. apply andb_true_iff in H as [_ H2].
  apply negb_true_iff in H2, H3. rewrite H2. by rewrite H3.
Qed.

(** A text all of whose runs are harmless goes through unchanged. *)
Lemma loop_harmless n : forall l f seen, (length l <= n)%nat -> (length l <= f)%nat ->
  at_boundary seen = true \/ stops is_token_char l -> harmless l -> scrub_loop f seen l = l.
Proof.
  induction n as [|n IH]; intros [|c r] f seen Hn Hf Hb Hl; try (by rewrite loop_nil); [simpl in Hn; lia|].
  destruct f as [|f]; [simpl in Hf; lia|]. simpl in Hn, Hf. destruct (is_token_char c) eqn:Hc.
  - destruct Hb as [Hb|Hb]; [|simpl in Hb; congruence]. cbn [scrub_loop]. rewrite Hc, Hb. cbn [andb].
    destruct (span is_token_char (c :: r)) as [run tail] eqn:E. pose proof E as E'.
    apply span_spec in E as (Hcr & Hrun & Ht).
    assert (run <> []) as Hne by (intros ->; cbn in Hcr; subst tail; cbn in Ht; congruence).
    assert (benign run = true /\ harmless tail) as [Hbr Htl].
    { rewrite Hcr in Hl. destruct tail as [|d tail].
      - rewrite app_nil_r, runs_token in Hl by done. apply Forall_cons in Hl as [? _]. split; [done|]. by repeat constructor.
      - rewrite runs_sep, runs_token in Hl by done. apply Forall_cons in Hl as [? Hl]. split; [done|].
        change (d :: tail) with ([] ++ d :: tail). rewrite runs_sep by done. constructor; done. }
    rewrite Hcr at 1. rewrite benign_run, scrub_run_benign by done. rewrite Hcr. f_equal.
    assert (length (c :: r) = length run + length tail)%nat as Hlen by (rewrite Hcr; apply length_app).
    assert (0 < length run)%nat by (destruct run; [done|simpl; lia]). simpl in Hlen. apply IH; [lia|lia|by right|done].
  - rewrite loop_plain by done. f_equal. apply IH; [lia|lia|left; by cbn; rewrite Hc|].
    change (c :: r) with ([] ++ c :: r) in Hl. rewrite harmless_sep in Hl by done. by destruct Hl.
Qed.

Lemma scrub_harmless l : harmless l -> scrub_chars l = l.
Proof. intros. unfold scrub_chars. apply (loop_harmless (length l)); auto. Qed.

(** ** Occurrences *)

Lemma occurs_spec p t : occurs p t = true <-> exists u v, t = u ++ p ++ v.
Proof.
  induction t as [|c t IH]; cbn; rewrite orb_true_iff, bool_decide_eq_true.
  - split; [intros [[v ->]|]; [by exists [], v|done]|]. intros ([|] & v & H); [left; by exists v|done].
  - rewrite IH. split.
    + intros [[v ->]|(u & v & ->)]; [by exists [], v|by exists (c :: u), v].
    + intros ([|x u] & v & H); [left; by exists v|]. injection H as -> ->. right. by exists u, v.
Qed.

Lemma occurs_false p t : occurs p t = false <-> forall u v, t <> u ++ p ++ v.
Proof.
  rewrite <- not_true_iff_false, occurs_spec. split; [intros H u v ->; apply H; by exists u, v|].
  intros H (u & v & ->). by apply (H u v).
Qed.

(** A token text occurs on one side of a separator. *)
Lemma occurs_sep s x c y : token_text s -> s <> [] -> is_token_char c = false ->
  occurs s (x ++ c :: y) = occurs s x || occurs s y.
Proof.
  intros Hs Hne Hc. apply eq_true_iff_eq. rewrite orb_true_iff, !occurs_spec. split.
  - intros (u & v & H). rewrite app_assoc in H. apply app_eq_app in H as (l & [[E1 E2]|[E1 E2]]).
    + left. exists u, l. by rewrite app_assoc.
    + destruct l as [|d l].
      { left. exists u, []. by rewrite app_nil_r in *. }
      injection E2 as <- ->. symmetry in E1. apply app_eq_app in E1 as (k & [[E1 E2]|[E1 E2]]).
      * subst s. apply Forall_app in Hs as [_ Hs]. apply Forall_cons in Hs as [? _]. congruence.
      * destruct k as [|d k].
        -- cbn in E2. subst s. apply Forall_cons in Hs as [? _]. congruence.
        -- injection E2 as _ ->. right. exists k, v. by rewrite app_assoc.
  - intros [(u & v & ->)|(u & v & ->)]; [exists u, (v ++ c :: y); by rewrite <- !app_assoc|].
    exists (x ++ c :: u), v. by rewrite <- app_assoc.
Qed.

Lemma occurs_nil s : s <> [] -> occurs s [] = false.
Proof. by destruct s. Qed.

Lemma occurs_not_in c p t : c ∈ p -> c ∉ t -> occurs p t = false.
Proof. intros Hp Ht. apply occurs_false. intros u v ->. apply Ht. set_solver. Qed.

(** The first occurrence of a pattern that ends in a separator behind a token text. *)
Lemma replace_first_at pat new a b :
  (forall a1 a2, a = a1 ++ a2 -> a2 <> [] -> ~ pat `prefix_of` a2 ++ pat ++ b) ->
  replace_first pat new (a ++ pat ++ b) = Some (a ++ new ++ b).
Proof.
  induction a as [|c a IH]; intros H.
  - cbn [app]. destruct (pat ++ b) eqn:E; cbn [replace_first]; rewrite <- E;
      (rewrite bool_decide_true by (by eexists)); by rewrite drop_app_length.
  - cbn [app replace_first]. rewrite bool_decide_false by (by apply (H [] (c :: a))).
    rewrite IH; [done|]. intros a1 a2 -> Ha. by apply (H (c :: a1) a2).
Qed.

(** ** The sentinels *)

(** No occurrence of a needle starts in the beginning [a] and runs on into a text
    without [bad] characters: each one starting there meets a bad character behind
    [a], or differs within it. *)
Fixpoint clear_of (bad : ascii -> bool) (needle a : list ascii) : bool :=
  match a with
  | [] => true
  | _ :: r =>
      (if (length needle <=? length a)%nat then negb (bool_decide (needle `prefix_of` a))
       else negb (bool_decide (take (length a) needle = a)) || existsb bad (drop (length a) needle)) &&
      clear_of bad needle r
  end.

Lemma existsb_forall {A} (p : A -> bool) l x : Forall (fun y => p y = false) l -> x ∈ l -> p x = true -> False.
Proof. rewrite Forall_forall. intros H Hx Hp. by rewrite H in Hp. Qed.

Lemma clear_of_occurs bad needle a t : clear_of bad needle a = true -> existsb bad needle = true ->
  Forall (fun c => bad c = false) t -> occurs needle (a ++ t) = false.
Proof.
  intros Ha Hn Ht. induction a as [|c a IH].
  - cbn [app]. apply occurs_false. intros u v ->. apply existsb_exists in Hn as (x & Hx & Hb).
    apply list_elem_of_In in Hx. apply (existsb_forall bad _ x Ht); [set_solver|done].
  - cbn [clear_of] in Ha. apply andb_true_iff in Ha as [H1 H2]. cbn [app occurs].
    rewrite IH, orb_false_r by done. apply bool_decide_false. intros [k Hk].
    change (c :: a ++ t) with ((c :: a) ++ t) in Hk. destruct (Nat.leb_spec (length needle) (length (c :: a))) as [Hl|Hl].
    + apply negb_true_iff, bool_decide_eq_false in H1. apply H1.
      exists (drop (length needle) (c :: a)). rewrite <- (take_drop (length needle) (c :: a)) at 1. f_equal.
      apply (f_equal (take (length needle))) in Hk. by rewrite take_app_le, take_app_length in Hk.
    + pose proof Hk as Hk2. apply (f_equal (take (length (c :: a)))) in Hk2.
      rewrite take_app_length, take_app_le in Hk2 by lia.
      rewrite bool_decide_true in H1 by done. cbn [negb orb] in H1.
      apply existsb_exists in H1 as (x & Hx & Hb). apply list_elem_of_In in Hx.
      apply (f_equal (drop (length (c :: a)))) in Hk. rewrite drop_app_length, drop_app_le in Hk by lia.
      apply (existsb_forall bad t x Ht); [rewrite Hk; set_solver|done].
Qed.

Lemma chars_fold s : chars (fold_string s) = map fold_char (chars s).
Proof. induction s; cbn; congruence. Qed.

Lemma contains_occurs l n : contains_ci (str l) n = occurs (chars n) (map fold_char l).
Proof.
  apply eq_true_iff_eq. rewrite contains_ci_spec, occurs_spec. split.
  - intros (pre & post & H). apply (f_equal chars) in H. rewrite chars_fold, chars_str, !chars_app in H. by eexists _, _.
  - intros (u & v & H). exists (str u), (str v). apply (inj chars). by rewrite chars_fold, chars_str, !chars_app, !chars_str.
Qed.

(** The alphabet's letters, and what they rule out once folded. *)
Definition tail_char (c : ascii) : bool := bool_decide (c ∈ chars kSentinelAlphabet).
Definition needs_e_or_p (c : ascii) : bool := Ascii.eqb c "e" || Ascii.eqb c "p".

Lemma tail_char_facts c : tail_char c = true ->
  is_letter c = true /\ needs_e_or_p (fold_char c) = false /\ c <> "P"%char.
Proof.
  unfold tail_char. rewrite bool_decide_eq_true. intros H. apply list_elem_of_In in H. cbn in H.
  repeat (destruct H as [<-|H]; [by vm_compute|]). done.
Qed.

Lemma tail_letters draws first : Forall (fun c => tail_char c = true) (sentinel_tail draws first) /\
  length (sentinel_tail draws first) = 16%nat.
Proof.
  unfold sentinel_tail. rewrite length_fmap, length_seq. split; [|done]. apply Forall_fmap, Forall_forall. intros k _. unfold compose, tail_char.
  apply bool_decide_true, list_elem_of_In, nth_In. rewrite chars_length.
  apply Nat.mod_upper_bound. by vm_compute.
Qed.

Section Sentinels.
  Context (draws : nat -> nat).

Let sentinel (c : Column) : string := make_sentinels draws c.

Let fixed (c : Column) : list ascii := chars (kSentinelPrefix +:+ column_tag c).
Let tail (c : Column) : list ascii := sentinel_tail draws (column_index c * kSentinelRandomChars).

Lemma sentinel_split c : chars (sentinel c) = fixed c ++ tail c.
Proof. unfold sentinel, make_sentinels, fixed. by rewrite !chars_app, chars_str, <- app_assoc. Qed.

Lemma tail_facts c : Forall (fun x => is_letter x = true /\ needs_e_or_p (fold_char x) = false /\ x <> "P"%char) (tail c).
Proof. eapply Forall_impl; [apply tail_letters|]. apply tail_char_facts. Qed.

Lemma sentinel_token c : token_text (chars (sentinel c)).
Proof.
  rewrite sentinel_split. apply Forall_app. split; [destruct c; cbn; repeat constructor|].
  eapply Forall_impl; [apply tail_facts|]. cbn. intros x [H _]. by apply letter_token.
Qed.

Lemma sentinel_letters c : Forall (fun x => is_letter x = true) (chars (sentinel c)).
Proof.
  rewrite sentinel_split. apply Forall_app. split; [destruct c; cbn; repeat constructor|].
  eapply Forall_impl; [apply tail_facts|]. by cbn; intros x [H _].
Qed.

(** No draw spells a sensitive key, within the tail or across the join. *)
Lemma sentinel_not_sensitive c : key_is_sensitive (chars (sentinel c)) = false.
Proof.
  unfold key_is_sensitive. apply not_true_iff_false. intros H. apply existsb_exists in H as (n & Hn & H).
  rewrite contains_occurs, sentinel_split, map_app in H.
  rewrite (clear_of_occurs needs_e_or_p) in H; [done|..].
  - assert (forallb (fun n => clear_of needs_e_or_p (chars n) (map fold_char (fixed c))) kSensitiveKeyNeedles = true) as Hall
      by (destruct c; by vm_compute).
    rewrite forallb_forall in Hall. by apply Hall.
  - assert (forallb (fun n => existsb needs_e_or_p (chars n)) kSensitiveKeyNeedles = true) as Hall by by vm_compute.
    rewrite forallb_forall in Hall. by apply Hall.
  - apply Forall_map. eapply Forall_impl; [apply tail_facts|]. by cbn; intros x (_ & H' & _).
Qed.

Lemma sentinel_benign c : benign (chars (sentinel c)) = true.
Proof.
  assert (existsb is_digit (chars (sentinel c)) = false) as Hd.
  { apply not_true_iff_false. intros H. apply existsb_exists in H as (x & Hx & H). apply list_elem_of_In in Hx.
    pose proof (sentinel_letters c) as Hl. rewrite Forall_forall in Hl. specialize (Hl x Hx). clear -H Hl. by_chars x. }
  unfold benign. rewrite sentinel_not_sensitive. unfold run_has_letter_and_digit. by rewrite Hd, !andb_false_r.
Qed.

(** One sentinel is not found in another's. *)
Lemma sentinel_apart c c' : c <> c' -> occurs (chars (sentinel c)) (chars (sentinel c')) = false.
Proof.
  intros Hc. apply occurs_false. intros u v H. rewrite !sentinel_split in H. destruct u as [|x u].
  - apply (f_equal (fun l => nth 18 l "000"%char)) in H. unfold fixed in H. destruct c, c'; cbn in H; done.
  - assert ("P"%char ∈ u ++ (fixed c ++ tail c) ++ v) as Hin by (rewrite !elem_of_app; right; left; left; unfold fixed; destruct c; left).
    assert (exists l, fixed c' = "P"%char :: l /\ "P"%char ∉ l) as (l & E & Hl).
    { unfold fixed. destruct c'; cbn; eexists; (split; [done|]); by apply (bool_decide_eq_true_1 (_ ∉ _)). }
    rewrite E in H. apply (f_equal (drop 1)) in H. cbn [drop app] in H. rewrite !drop_0 in H. rewrite <- H in Hin. apply elem_of_app in Hin as [Hin|Hin]; [done|].
    pose proof (tail_facts c') as Hf. rewrite Forall_forall in Hf. by destruct (Hf _ Hin) as (_ & _ & ?).
Qed.

Lemma sentinel_no_P c t : "P"%char ∉ t -> occurs (chars (sentinel c)) t = false.
Proof. intros H. apply (occurs_not_in "P"%char); [|done]. rewrite sentinel_split. unfold fixed. destruct c; cbn; left. Qed.
End Sentinels.

(** ** The layout of an object *)

Definition member (m : list ascii * list ascii) : list ascii := quote :: m.1 ++ quote :: ":"%char :: m.2.

(** Every member but the first behind a comma. *)
Definition others (ms : list (list ascii * list ascii)) : list ascii := ms ≫= fun m => ","%char :: member m.

Lemma others_cons m rest : others (m :: rest) = ","%char :: member m ++ others rest.
Proof. done. Qed.

Lemma others_app a b : others (a ++ b) = others a ++ others b.
Proof. apply bind_app. Qed.

Definition line (ms : list (list ascii * list ascii)) : list ascii :=
  "{"%char :: match ms with [] => [] | m :: rest => member m ++ others rest end ++ ["}"%char].

Definition quoted (s : string) : list ascii := quote :: chars s ++ [quote].

(** A text a JSON string holds as it is. *)
Definition plain_char (c : ascii) : bool :=
  in_range 32 126 c && negb (Ascii.eqb c quote) && negb (Ascii.eqb c "092").
Definition plain_text (s : string) : Prop := Forall (fun c => plain_char c = true) (chars s).

(** What the library's compact dump is documented to write. *)
Record DumpLaws (dump : json -> string) : Prop := {
  dump_int z : dump (JInt z) = pretty z;
  dump_string s : plain_text s -> chars (dump (JString s)) = quoted s;
  dump_object ms : Forall (fun m => plain_text m.1) ms ->
    chars (dump (JObject ms)) = line ((fun m => (chars m.1, chars (dump m.2))) <$> ms);
}.

(** A property of texts that goes through separators. *)
Lemma line_through (P : list ascii -> Prop) ms :
  P [] -> (forall a c b, is_token_char c = false -> P (a ++ c :: b) <-> P a /\ P b) ->
  P (line ms) <-> Forall (fun m => P m.1 /\ P m.2) ms.
Proof.
  intros H0 Hsep. assert (Hc : forall c b, is_token_char c = false -> P (c :: b) <-> P b)
    by (intros c b Hc; by rewrite (Hsep [] c b), (and_iff_compat_r _ (conj (fun _ => I) (fun _ => H0))) by done; intuition).
  assert (Hm : forall m rest, stops is_token_char rest -> P (member m ++ rest) <-> P m.1 /\ P m.2 /\ P rest).
  { intros [k v] rest Hr. unfold member. cbn [app fst snd]. rewrite <- app_assoc. cbn [app].
    rewrite Hc, Hsep, Hc by done. destruct rest as [|c rest]; [rewrite app_nil_r; tauto|].
    rewrite Hsep, (Hc c) by done. tauto. }
  assert (Ho : forall ms, P (others ms ++ ["}"%char]) <-> Forall (fun m => P m.1 /\ P m.2) ms).
  { induction ms0 as [|m rest IH]; [cbn; rewrite Hc by done; by rewrite Forall_nil|].
    rewrite others_cons. cbn [app]. rewrite <- app_assoc, Hc, Hm, Forall_cons, <- IH by (done || by destruct rest). tauto. }
  unfold line. rewrite Hc by done. destruct ms as [|m rest]; [cbn; rewrite Hc by done; by rewrite Forall_nil|].
  rewrite <- app_assoc, Hm, Forall_cons, Ho by (by destruct rest). tauto.
Qed.

Lemma harmless_line ms : harmless (line ms) <-> Forall (fun m => harmless m.1 /\ harmless m.2) ms.
Proof. apply (line_through (fun l => harmless l)); [by repeat constructor|]. intros. by apply harmless_sep. Qed.

Lemma occurs_line s ms : token_text s -> s <> [] ->
  occurs s (line ms) = false <-> Forall (fun m => occurs s m.1 = false /\ occurs s m.2 = false) ms.
Proof.
  intros Hs Hne. apply (line_through (fun l => occurs s l = false)); [by destruct s|].
  intros a c b Hc. by rewrite occurs_sep, orb_false_iff.
Qed.

(** The text before and behind one member. *)
Lemma line_split pre post : exists a b, (forall m, line (pre ++ m :: post) = a ++ member m ++ b) /\
  forall s, token_text s -> s <> [] -> Forall (fun m => occurs s m.1 = false /\ occurs s m.2 = false) pre -> occurs s a = false.
Proof.
  destruct pre as [|m0 pre].
  - exists ["{"%char], (others post ++ ["}"%char]). split; [intros m; unfold line; cbn; by rewrite <- app_assoc|].
    intros s Hs Hne _. change ["{"%char] with ([] ++ "{"%char :: []). rewrite occurs_sep by done. by destruct s.
  - exists ("{"%char :: member m0 ++ others pre ++ [","%char]), (others post ++ ["}"%char]). split.
    + intros m. unfold line. cbn [app]. rewrite others_app, others_cons, <- !app_assoc. cbn [app]. by rewrite <- !app_assoc.
    + intros s Hs Hne H. assert (occurs s (line (m0 :: pre)) = false) as Hl by (by apply occurs_line).
      unfold line in Hl. rewrite app_comm_cons, occurs_sep, orb_false_iff in Hl by done.
      rewrite app_assoc, app_comm_cons, occurs_sep by done. destruct Hl as [-> _]. by destruct s.
Qed.

(** A quoted token text behind its key is found at its member and nowhere before. *)
Lemma replace_member pre post key s new : token_text (chars s) -> s <> "" ->
  occurs (chars s) (chars key) = false ->
  Forall (fun m => occurs (chars s) m.1 = false /\ occurs (chars s) m.2 = false) pre ->
  replace_first (member (chars key, quoted s)) (member (chars key, quoted new)) (line (pre ++ (chars key, quoted s) :: post)) =
  Some (line (pre ++ (chars key, quoted new) :: post)).
Proof.
  intros Hs Hne Hk Hpre. destruct (line_split pre post) as (a & b & Hline & Ha). rewrite !Hline. apply replace_first_at.
  intros a1 a2 E Hne2 [w Hw]. assert (chars s <> []) as Hs0 by (by destruct s).
  specialize (Ha _ Hs Hs0 Hpre). set (h := quote :: chars key ++ [quote; ":"%char]) in *.
  assert (forall x, member (chars key, quoted x) = h ++ quote :: chars x ++ [quote]) as Hmem
    by (intros; unfold member, quoted, h; cbn [fst snd app]; by rewrite <- app_assoc).
  rewrite Hmem in Hw.
  assert (occurs (chars s) (a ++ h) = false) as Hah.
  { unfold h. rewrite occurs_sep by done. rewrite Ha. change [quote; ":"%char] with ([quote] ++ ":"%char :: []).
    rewrite app_assoc, occurs_sep, occurs_sep by done. by rewrite Hk, occurs_nil. }
  assert (occurs (chars s) (a2 ++ h) = true) as Hah2; [|].
  2: { assert (occurs (chars s) (a ++ h) = true); [|congruence]. apply occurs_spec in Hah2 as (u & v & Hu).
       apply occurs_spec. exists (a1 ++ u), v. subst a. by rewrite <- !app_assoc, Hu. }
  set (front := h ++ quote :: chars s).
  assert (exists k, a2 ++ front = front ++ quote :: k) as [k Hk2].
  { exists (drop (length front + 1) (a2 ++ front)).
    assert (front ++ quote :: w = (a2 ++ front) ++ quote :: b) as Hf
      by (unfold front; rewrite <- !app_assoc; cbn [app]; rewrite <- !app_assoc in Hw; cbn [app] in Hw; rewrite <- !app_assoc in Hw; done).
    assert (length front + 1 <= length (a2 ++ front))%nat as Hlen by (rewrite length_app; destruct a2; [done|simpl; lia]).
    change (quote :: ?x) with ([quote] ++ x). rewrite app_assoc.
    rewrite <- (take_drop (length front + 1) (a2 ++ front)) at 1. f_equal.
    apply (f_equal (take (length front + 1))) in Hf. rewrite (take_app_le (a2 ++ front)) in Hf by done. rewrite <- Hf.
    by rewrite take_app_add. }
  unfold front in Hk2 at 1. rewrite app_assoc in Hk2. apply app_eq_app in Hk2 as (l & [[E1 _]|[E1 E2]]).
  - apply occurs_spec. exists (h ++ [quote]), l. rewrite E1. unfold front. by rewrite <- !app_assoc.
  - destruct l as [|c l]; [rewrite app_nil_r in E1; apply occurs_spec; exists (h ++ [quote]), [];
      rewrite <- E1, app_nil_r; unfold front; by rewrite <- app_assoc|].
    injection E2 as <- E2. rewrite E2 in Hs. apply Forall_app in Hs as [_ Hs]. by apply Forall_cons in Hs as [? _].
Qed.

(** ** The members of an event's line *)

Definition upd (f : Column -> string) (c : Column) (x : string) : Column -> string :=
  fun c' => if decide (c' = c) then x else f c'.

Definition column_member (f : Column -> string) (c : Column) : list (string * json) :=
  if String.eqb (f c) "" then [] else [(column_key c, JString (f c))].

Definition columns (f : Column -> string) (l : list Column) : list (string * json) := l ≫= column_member f.

Definition free_member (ev : AuditEvent) : list (string * json) :=
  match fields ev with JObject (f :: rest) => [("fields", JObject (f :: rest))] | _ => [] end.

Lemma free_member_inv ev m : m ∈ free_member ev -> m = ("fields", fields ev).
Proof.
  unfold free_member. destruct (fields ev) as [| | | | | |[|]]; try (by intros H%elem_of_nil). by intros ->%list_elem_of_singleton.
Qed.

(** The columns before the free-form fields, and the members in the line's order. *)
Definition head_columns : list Column := [CAccount; CBroker; CBrokerOrderId; CClientRef].

Lemma event_layout ev f :
  event_object (with_columns ev f) =
  columns f head_columns ++ free_member ev ++ ("schema_version", JInt 1) :: columns f [CStrategy] ++
  [("ts", JString (to_iso8601_utc (ts ev))); ("type", JString (to_string (type ev)))].
Proof.
  destruct ev as [t z ? ? ? ? ? fs]. unfold event_object, with_columns, free_member, columns, column_member, head_columns, put_if_set.
  cbn -[put_field to_iso8601_utc to_string].
  generalize (to_iso8601_utc z), (to_string t). intros iso name.
  destruct (String.eqb (f CStrategy) ""), (String.eqb (f CBroker) ""), (String.eqb (f CAccount) ""),
    (String.eqb (f CClientRef) ""), (String.eqb (f CBrokerOrderId) ""); destruct fs as [| | | | | |[|]]; reflexivity.
Qed.

Lemma columns_cons f c l : columns f (c :: l) = column_member f c ++ columns f l.
Proof. done. Qed.

Lemma columns_app f l k : columns f (l ++ k) = columns f l ++ columns f k.
Proof. apply bind_app. Qed.

Lemma columns_upd f c x l : c ∉ l -> columns (upd f c x) l = columns f l.
Proof.
  induction l as [|c' l IH]; [done|]. intros H. apply not_elem_of_cons in H as [H1 H2].
  rewrite !columns_cons, IH by done. f_equal. unfold column_member, upd. by rewrite decide_False by done.
Qed.

(** Members that are not a column's. *)
Definition fixed_member (ev : AuditEvent) (m : string * json) : Prop :=
  m ∈ free_member ev \/ m = ("schema_version", JInt 1) \/ m = ("ts", JString (to_iso8601_utc (ts ev))) \/
  m = ("type", JString (to_string (type ev))).

Lemma elem_of_columns f l m : m ∈ columns f l <-> exists c, c ∈ l /\ f c <> "" /\ m = (column_key c, JString (f c)).
Proof.
  unfold columns. rewrite list_elem_of_bind. unfold column_member. split.
  - intros (c & Hm & Hc). exists c. destruct (String.eqb_spec (f c) ""); [by apply elem_of_nil in Hm|].
    by apply list_elem_of_singleton in Hm.
  - intros (c & Hc & Hne & ->). exists c. split; [|done]. rewrite (proj2 (String.eqb_neq _ _)) by done. by left.
Qed.

Lemma event_members ev f m : m ∈ event_object (with_columns ev f) ->
  fixed_member ev m \/ exists c, f c <> "" /\ m = (column_key c, JString (f c)).
Proof.
  rewrite event_layout. unfold fixed_member. rewrite !elem_of_app, !elem_of_cons, !elem_of_app, !elem_of_cons, elem_of_nil, !elem_of_columns.
  naive_solver.
Qed.

(** A column that is set is one member; the others do not depend on it. *)
Lemma column_place ev f c : exists pre post,
  (forall x, x <> "" -> event_object (with_columns ev (upd f c x)) = pre ++ (column_key c, JString x) :: post) /\
  Forall (fun m => fixed_member ev m \/ exists c', c' <> c /\ m = (column_key c', JString (f c'))) pre.
Proof.
  assert (Hone : forall x, x <> "" -> column_member (upd f c x) c = [(column_key c, JString x)]).
  { intros x Hx. unfold column_member, upd. rewrite decide_True by done. by rewrite (proj2 (String.eqb_neq _ _)). }
  destruct (decide (c = CStrategy)) as [->|Hc].
  - exists (columns f head_columns ++ free_member ev ++ [("schema_version", JInt 1)]),
      [("ts", JString (to_iso8601_utc (ts ev))); ("type", JString (to_string (type ev)))]. split.
    + intros x Hx. rewrite event_layout, columns_upd by (by apply (bool_decide_eq_true_1 (_ ∉ _))).
      rewrite columns_cons, Hone by done. cbn [app]. rewrite <- !app_assoc. done.
    + apply Forall_forall. intros m Hm. rewrite !elem_of_app, list_elem_of_singleton, elem_of_columns in Hm. unfold fixed_member.
      destruct Hm as [(c' & Hin & _ & ->)|[Hm|Hm]]; [|naive_solver..]. right. exists c'. split; [|done]. intros ->.
      by apply (bool_decide_eq_true_1 (CStrategy ∉ head_columns)) in Hin.
  - assert (exists l1 l2, head_columns = l1 ++ c :: l2 /\ c ∉ l1 /\ c ∉ l2) as (l1 & l2 & El & H1 & H2).
    { destruct c; [done|exists [CAccount], [CBrokerOrderId; CClientRef]|exists [], [CBroker; CBrokerOrderId; CClientRef]
        |exists [CAccount; CBroker; CBrokerOrderId], []|exists [CAccount; CBroker], [CClientRef]];
        (split; [done|]); split; by apply (bool_decide_eq_true_1 (_ ∉ _)). }
    exists (columns f l1), (columns f l2 ++ free_member ev ++ ("schema_version", JInt 1) :: columns f [CStrategy] ++
      [("ts", JString (to_iso8601_utc (ts ev))); ("type", JString (to_string (type ev)))]). split.
    + intros x Hx. rewrite event_layout, (columns_upd f c x [CStrategy]) by (by intros ->%list_elem_of_singleton).
      rewrite El, columns_app, columns_cons, Hone, !columns_upd by done. cbn [app]. by rewrite <- !app_assoc.
    + apply Forall_forall. intros m Hm. apply elem_of_columns in Hm as (c' & Hin & _ & ->). right. exists c'. split; [|done].
      by intros ->.
Qed.

(** ** The instant, the names, the identifiers *)

Definition stamp_char (c : ascii) : bool := is_digit c || Ascii.eqb c "-" || Ascii.eqb c "T" || Ascii.eqb c "Z".
Definition beyond_stamp (c : ascii) : bool := is_letter c && negb (Ascii.eqb c "t") && negb (Ascii.eqb c "z").

Lemma stamp_facts c : stamp_char c = true -> beyond_stamp (fold_char c) = false /\ is_token_char c = true /\
  plain_char c = true /\ c <> "P"%char.
Proof. by_chars c. Qed.

Lemma digit_stamp c : is_ascii_digit c = true -> stamp_char c = true.
Proof. by_chars c. Qed.

Lemma stamp_benign run : Forall (fun c => stamp_char c = true) run -> (length run < 20)%nat ->
  (length run < 4)%nat \/ forallb is_digit run = false -> benign run = true.
Proof.
  intros Hr Hl Hd. unfold benign. replace (20 <=? length run)%nat with false by (symmetry; apply Nat.leb_gt; lia).
  assert (key_is_sensitive run = false) as ->.
  { unfold key_is_sensitive. apply not_true_iff_false. intros H. apply existsb_exists in H as (n & Hn & H).
    rewrite contains_occurs in H. change (map fold_char run) with ([] ++ map fold_char run) in H.
    rewrite (clear_of_occurs beyond_stamp) in H; [done|done|..].
    - assert (forallb (fun n => existsb beyond_stamp (chars n)) kSensitiveKeyNeedles = true) as Hall by by vm_compute.
      rewrite forallb_forall in Hall. by apply Hall.
    - apply Forall_map. eapply Forall_impl; [exact Hr|]. cbn. intros c Hc. by apply stamp_facts. }
  cbn [negb andb]. apply negb_true_iff. unfold run_is_all_digits. destruct Hd as [Hd|Hd]; [|by rewrite Hd, !andb_false_r].
  by replace (4 <=? length run)%nat with false by (symmetry; apply Nat.leb_gt; lia).
Qed.

(** The instant is three harmless runs of plain characters. *)
Lemma stamp_text tp : four_digit_year (tp / day_ns) ->
  exists d h m, chars (to_iso8601_utc tp) = d ++ ":"%char :: h ++ ":"%char :: m /\
    Forall (fun run => Forall (fun c => stamp_char c = true) run /\ benign run = true) [d; h; m].
Proof.
  intros Hy. unfold four_digit_year in Hy. destruct (days_of_ymd (tp / day_ns)) as [_ Hr].
  unfold ymd_ok in Hr. to_prop. set (d := ymd_of (tp / day_ns)) in *.
  assert (last_day (year d) (month d) <= 31) as H31 by (unfold last_day; repeat case_match; lia).
  pose proof (Z.mod_pos_bound tp day_ns eq_refl) as Htod. set (tod := (tp mod day_ns) / 1000000000).
  assert (0 <= tod < 86400) as Ht 
    by (unfold tod; change day_ns with 86400000000000 in *; Z.div_mod_to_equations; lia).
  destruct (pad_spec (year d) 4) as (L1 & D1 & _); [change (10 ^ Z.of_nat 4) with 10000; lia|lia|].
  destruct (pad_spec (month d) 2) as (L2 & D2 & _); [change (10 ^ Z.of_nat 2) with 100; Z.div_mod_to_equations; lia|lia|].
  destruct (pad_spec (dom d) 2) as (L3 & D3 & _); [change (10 ^ Z.of_nat 2) with 100; Z.div_mod_to_equations; lia|lia|].
  destruct (pad_spec (tod / 3600) 2) as (L4 & D4 & _); [change (10 ^ Z.of_nat 2) with 100; Z.div_mod_to_equations; lia|lia|].
  destruct (pad_spec (tod / 60 mod 60) 2) as (L5 & D5 & _); [change (10 ^ Z.of_nat 2) with 100; Z.div_mod_to_equations; lia|lia|].
  destruct (pad_spec (tod mod 60) 2) as (L6 & D6 & _); [change (10 ^ Z.of_nat 2) with 100; Z.div_mod_to_equations; lia|lia|].
  assert (Hdig : forall l, digits l -> Forall (fun c => stamp_char c = true) l)
    by (intros l Hl; eapply Forall_impl; [exact Hl|]; apply digit_stamp).
  exists (chars (pad (year d) 4) ++ "-"%char :: chars (pad (month d) 2) ++ "-"%char :: chars (pad (dom d) 2) ++
    "T"%char :: chars (pad (tod / 3600) 2)), (chars (pad (tod / 60 mod 60) 2)), (chars (pad (tod mod 60) 2) ++ ["Z"%char]).
  split; [unfold to_iso8601_utc, to_iso; fold d; fold tod; rewrite !chars_app; cbn [String.list_ascii_of_string]; repeat (rewrite <- !app_assoc; cbn [app]); done|].
  assert (Hday : Forall (fun c => stamp_char c = true) (chars (pad (year d) 4) ++ "-"%char :: chars (pad (month d) 2) ++
    "-"%char :: chars (pad (dom d) 2) ++ "T"%char :: chars (pad (tod / 3600) 2)))
    by (repeat (apply Forall_app; split; [by apply Hdig|]; constructor; [done|]); by apply Hdig).
  assert (Hsec : Forall (fun c => stamp_char c = true) (chars (pad (tod mod 60) 2) ++ ["Z"%char]))
    by (apply Forall_app; split; [by apply Hdig|by constructor]).
  repeat constructor; try done; try (by apply Hdig); apply stamp_benign; try done; try (by apply Hdig).
  - repeat (rewrite length_app; cbn [length]). lia.
  - right. rewrite forallb_app. cbn [forallb]. by rewrite andb_false_r.
  - lia.
  - left. lia.
  - rewrite length_app. cbn [length]. lia.
  - left. rewrite length_app. cbn [length]. lia.
Qed.

(** A text of the line that is never confused with a sentinel, nor scrubbed. *)
Definition inert (l : list ascii) : Prop := harmless l /\ "P"%char ∉ l.

Definition inert_b (l : list ascii) : bool := forallb benign (runs l) && negb (bool_decide ("P"%char ∈ l)).

Lemma inert_b_spec l : inert_b l = true -> inert l.
Proof.
  unfold inert_b. rewrite andb_true_iff, negb_true_iff, bool_decide_eq_false. intros [H1 H2]. split; [|done].
  apply Forall_forall. intros x Hx. rewrite forallb_forall in H1. by apply H1, list_elem_of_In.
Qed.

Lemma inert_quoted s : inert (quoted s) <-> inert (chars s).
Proof.
  unfold inert, quoted. change (quote :: chars s ++ [quote]) with ([] ++ quote :: chars s ++ [quote]).
  rewrite !harmless_sep by done. assert (harmless []) by by repeat constructor.
  cbn [app]. rewrite elem_of_cons, elem_of_app, list_elem_of_singleton. split; [tauto|]. intros [? Hn]. split; [done|].
  intros [|[|]]; done.
Qed.

Lemma inert_stamp tp : four_digit_year (tp / day_ns) -> inert (chars (to_iso8601_utc tp)) /\ plain_text (to_iso8601_utc tp).
Proof.
  intros Hy. destruct (stamp_text tp Hy) as (d & h & m & E & H). unfold inert, plain_text. rewrite E.
  apply Forall_cons in H as [[H1 B1] H]. apply Forall_cons in H as [[H2 B2] H]. apply Forall_cons in H as [[H3 B3] _].
  assert (Ht : forall l, Forall (fun c => stamp_char c = true) l -> token_text l /\ "P"%char ∉ l /\ Forall (fun c => plain_char c = true) l).
  { intros l Hl. split_and!; [eapply Forall_impl; [exact Hl|]; apply stamp_facts| |eapply Forall_impl; [exact Hl|]; apply stamp_facts].
    intros Hin. rewrite Forall_forall in Hl. by apply Hl, stamp_facts in Hin as (_ & _ & _ & ?). }
  destruct (Ht d H1) as (T1 & P1 & Q1), (Ht h H2) as (T2 & P2 & Q2), (Ht m H3) as (T3 & P3 & Q3).
  rewrite !harmless_sep, !runs_token by done. split_and!; try (by constructor).
  - rewrite !elem_of_app, !elem_of_cons, !elem_of_app, !elem_of_cons. naive_solver.
  - repeat (apply Forall_app; split; [done|]; constructor; [done|]). done.
Qed.

Lemma id_plain c : is_provenance_id_char c = true -> plain_char c = true.
Proof. by_chars c. Qed.

Lemma id_shape_plain v : is_provenance_id_shape v = true -> plain_text v /\ v <> "".
Proof.
  unfold is_provenance_id_shape. intros H. split; [|by intros ->].
  repeat (case_match; try done). eapply Forall_impl; [by eapply id_shape_chars|]. apply id_plain.
Qed.

(** ** The line of an event *)

Lemma with_columns_ext ev f g : (forall c, f c = g c) -> with_columns ev f = with_columns ev g.
Proof. intros H. unfold with_columns. by rewrite !H. Qed.

Lemma with_own_columns ev : with_columns ev (column_of ev) = ev.
Proof. by destruct ev. Qed.

(** An event whose line the scrubber has nothing to take from but its identifiers:
    an instant in a year of four digits, columns that are identifiers or harmless
    plain texts, harmless free-form fields, and nobody guessed a sentinel. *)
Record loggable (dump : json -> string) (sentinel : Column -> string) (ev : AuditEvent) : Prop := {
  lg_instant : four_digit_year (ts ev / day_ns);
  lg_columns c : preserved ev c = true \/ (plain_text (column_of ev c) /\ harmless (chars (column_of ev c)));
  lg_fields : harmless (chars (dump (fields ev)));
  lg_unguessed c : occurs (chars (sentinel c)) (chars (dump (fields ev))) = false /\
    forall c', occurs (chars (sentinel c)) (chars (column_of ev c')) = false;
}.

Section Line.
  Context (dump : json -> string) (Hdump : DumpLaws dump) (draws : nat -> nat) (ev : AuditEvent).

Let sentinel (c : Column) : string := make_sentinels draws c.

  Context (Hok : loggable dump sentinel ev).

Definition text_of (m : string * json) : list ascii * list ascii := (chars m.1, chars (dump m.2)).
Definition members (f : Column -> string) : list (list ascii * list ascii) := text_of <$> event_object (with_columns ev f).

(** The texts a column holds while the line is put together. *)
Definition hiding (c : Column) : string := if preserved ev c then sentinel c else column_of ev c.
Definition midway (f : Column -> string) : Prop := forall c, f c = hiding c \/ f c = column_of ev c.

Lemma sentinel_nonempty c : sentinel c <> "".
Proof. by destruct c. Qed.

Lemma sentinel_chars_nonempty c : chars (sentinel c) <> [].
Proof. by destruct c. Qed.

Lemma column_key_inert c : inert (chars (column_key c)) /\ plain_text (column_key c).
Proof. split; [apply inert_b_spec; by destruct c|destruct c; repeat constructor]. Qed.

Lemma sentinel_plain c : plain_text (sentinel c).
Proof. eapply Forall_impl; [apply sentinel_letters|]. intros x H. by_chars x. Qed.

Lemma column_plain c : plain_text (column_of ev c).
Proof. destruct (lg_columns _ _ _ Hok c) as [H|[H _]]; [by apply id_shape_plain|done]. Qed.

Lemma hiding_plain c : plain_text (hiding c).
Proof. unfold hiding. destruct (preserved ev c); [apply sentinel_plain|apply column_plain]. Qed.

Lemma midway_plain f c : midway f -> plain_text (f c).
Proof. intros H. destruct (H c) as [->| ->]; [apply hiding_plain|apply column_plain]. Qed.

Lemma fixed_texts m : fixed_member ev m ->
  plain_text m.1 /\ harmless (text_of m).1 /\ harmless (text_of m).2 /\
  forall c, occurs (chars (sentinel c)) (text_of m).1 = false /\ occurs (chars (sentinel c)) (text_of m).2 = false.
Proof.
  assert (Hinert : forall k v, plain_text k -> inert (chars k) -> inert (chars (dump v)) ->
    plain_text k /\ harmless (chars k) /\ harmless (chars (dump v)) /\
    forall c, occurs (chars (sentinel c)) (chars k) = false /\ occurs (chars (sentinel c)) (chars (dump v)) = false).
  { intros k v Hk [H1 H2] [H3 H4]. split_and!; try done. intros c. split; by apply sentinel_no_P. }
  unfold fixed_member, text_of. intros [H|[->|[->| ->]]]; cbn [fst snd].
  - apply free_member_inv in H as ->. cbn [fst snd].
    split_and!; [repeat constructor|by apply (inert_b_spec (chars "fields"))|apply (lg_fields _ _ _ Hok)|].
    intros c. split; [by apply sentinel_no_P, (inert_b_spec (chars "fields"))|]. apply (lg_unguessed _ _ _ Hok c).
  - apply Hinert; [repeat constructor|by apply inert_b_spec|]. rewrite (dump_int _ Hdump). by apply inert_b_spec.
  - destruct (inert_stamp _ (lg_instant _ _ _ Hok)) as [H1 H2].
    apply Hinert; [repeat constructor|by apply inert_b_spec|]. rewrite (dump_string _ Hdump) by done. by apply inert_quoted.
  - apply Hinert; [repeat constructor|by apply inert_b_spec|]. rewrite (dump_string _ Hdump) by (destruct (type ev); repeat constructor).
    apply inert_quoted, inert_b_spec. by destruct (type ev).
Qed.

Lemma line_text f : midway f -> chars (to_json_line dump (with_columns ev f)) = line (members f).
Proof.
  intros Hf. unfold to_json_line. apply (dump_object _ Hdump), Forall_forall. intros m Hm.
  apply event_members in Hm as [Hm|(c & _ & ->)]; [by apply fixed_texts|apply column_key_inert].
Qed.

(** With the identifiers hidden, the scrubber changes nothing. *)
Lemma hidden_unscrubbed : scrubbed_line dump (hidden sentinel ev) = to_json_line dump (hidden sentinel ev).
Proof.
  unfold scrubbed_line, scrub. rewrite <- (str_chars (to_json_line _ _)) at 2. f_equal. apply scrub_harmless.
  unfold hidden. change (fun c => if preserved ev c then sentinel c else column_of ev c) with hiding.
  rewrite line_text by (by left). apply harmless_line, Forall_fmap, Forall_forall. intros m Hm.
  apply event_members in Hm as [Hm|(c & _ & ->)]; [destruct (fixed_texts m Hm) as (_ & ? & ? & _); by split|].
  unfold compose, text_of. cbn [fst snd]. split; [apply column_key_inert|].
  rewrite (dump_string _ Hdump) by apply hiding_plain. unfold quoted.
  change (quote :: ?x ++ [quote]) with ([] ++ quote :: x ++ [quote]).
  rewrite !harmless_sep by done. split; [by repeat constructor|]. split; [|by repeat constructor].
  unfold hiding. destruct (preserved ev c) eqn:E; [|by destruct (lg_columns _ _ _ Hok c) as [|[_ ?]]; [congruence|]].
  rewrite runs_token by apply sentinel_token. constructor; [apply sentinel_benign|done].
Qed.

(** A sentinel occurs in no text of another column. *)
Lemma sentinel_elsewhere c c' x : c' <> c -> x = hiding c' \/ x = column_of ev c' ->
  occurs (chars (sentinel c)) (chars x) = false.
Proof.
  intros Hc [->| ->]; [|by apply (lg_unguessed _ _ _ Hok c)]. unfold hiding.
  destruct (preserved ev c'); [by apply sentinel_apart|by apply (lg_unguessed _ _ _ Hok c)].
Qed.

Lemma occurs_quoted s x : token_text s -> s <> [] -> occurs s (quoted x) = occurs s (chars x).
Proof.
  intros Hs Hne. unfold quoted. change (quote :: ?l ++ [quote]) with ([] ++ quote :: l ++ [quote]).
  rewrite !occurs_sep, !occurs_nil by done. cbn [orb]. by rewrite orb_false_r.
Qed.

(** One column put back. *)
Lemma splice_step f c : midway f -> f c = hiding c ->
  splice sentinel ev (Some (line (members f))) c = Some (line (members (upd f c (column_of ev c)))).
Proof.
  intros Hf Hc. unfold splice, hiding in *. destruct (preserved ev c) eqn:E.
  2: { unfold members. rewrite (with_columns_ext ev (upd f c (column_of ev c)) f); [done|].
       intros c'. unfold upd. by destruct (decide (c' = c)) as [->|]. }
  destruct (column_place ev f c) as (pre & post & Hat & Hpre). pose proof (proj2 (id_shape_plain _ E)) as Hne.
  unfold members. rewrite (with_columns_ext ev f (upd f c (sentinel c)))
    by (intros c'; unfold upd; by destruct (decide (c' = c)) as [->|]).
  rewrite !Hat by (done || apply sentinel_nonempty). rewrite !fmap_app, !fmap_cons. unfold text_of at 2 5. cbn [fst snd].
  rewrite !(dump_string _ Hdump) by (apply column_plain || apply sentinel_plain). cbn [mbind option_bind].
  apply replace_member; [apply sentinel_token|apply sentinel_nonempty|by apply sentinel_no_P, column_key_inert|].
  apply Forall_fmap. eapply Forall_impl; [exact Hpre|]. unfold compose.
  intros m [Hm|(c' & Hne' & ->)]; [by apply fixed_texts|]. unfold text_of. cbn [fst snd].
  split; [by apply sentinel_no_P, column_key_inert|]. rewrite (dump_string _ Hdump) by (by apply midway_plain).
  rewrite occurs_quoted by (apply sentinel_token || apply sentinel_chars_nonempty).
  by apply (sentinel_elsewhere c c' (f c')).
Qed.

Lemma splice_all l : forall f, NoDup l -> midway f -> (forall c, c ∈ l -> f c = hiding c) ->
  exists g, (forall c, g c = if decide (c ∈ l) then column_of ev c else f c) /\
    foldl (splice sentinel ev) (Some (line (members f))) l = Some (line (members g)).
Proof.
  induction l as [|c l IH]; intros f Hn Hf Hl; [by exists f|]. apply NoDup_cons in Hn as [Hc Hn]. cbn [foldl].
  rewrite splice_step by (done || apply Hl; left).
  destruct (IH (upd f c (column_of ev c)) Hn) as (g & Hg & E).
  - intros c'. unfold upd. destruct (decide (c' = c)) as [->|]; [by right|apply Hf].
  - intros c' Hin. unfold upd. rewrite decide_False by (by intros ->). apply Hl. by right.
  - exists g. split; [|done]. intros c'. rewrite Hg. unfold upd.
    destruct (decide (c' = c)) as [->|Hne]; [rewrite (decide_True (P := c ∈ c :: l)) by left; by destruct (decide _)|].
    destruct (decide (c' ∈ l)); [by rewrite decide_True by (by right)|].
    rewrite decide_False; [done|]. rewrite elem_of_cons. tauto.
Qed.

Lemma no_sentinel_left : any_sentinel sentinel (chars (to_json_line dump ev)) = false.
Proof.
  rewrite <- (with_own_columns ev) at 1. rewrite line_text by (by right). apply not_true_iff_false.
  intros H. apply existsb_exists in H as (c & _ & H). revert H.
  apply not_true_iff_false, occurs_line; [apply sentinel_token|apply sentinel_chars_nonempty|].
  apply Forall_fmap, Forall_forall. intros m Hin. apply event_members in Hin as [Hin|(c' & _ & ->)]; [by apply fixed_texts|].
  unfold compose, text_of. cbn [fst snd]. split; [by apply sentinel_no_P, column_key_inert|].
  rewrite (dump_string _ Hdump), occurs_quoted by
    (apply sentinel_token || apply sentinel_chars_nonempty || apply column_plain).
  by apply (lg_unguessed _ _ _ Hok c).
Qed.

Lemma render_loggable : render_line dump sentinel ev = to_json_line dump ev.
Proof.
  unfold render_line. destruct (existsb (preserved ev) kProvenanceColumns) eqn:Ep; cbn [negb].
  - rewrite hidden_unscrubbed. unfold hidden.
    change (fun c => if preserved ev c then sentinel c else column_of ev c) with hiding.
    rewrite line_text by (by left).
    destruct (splice_all kProvenanceColumns hiding) as (g & Hg & ->); [by apply (bool_decide_unpack _)|by left|done|].
    assert (E : with_columns ev g = ev).
    { rewrite <- (with_own_columns ev) at 2. apply with_columns_ext. intros c. rewrite Hg, decide_True; [done|].
      by destruct c; apply (bool_decide_unpack _). }
    assert (midway g) as Hm by (intros c; right; rewrite Hg, decide_True; [done|by destruct c; apply (bool_decide_unpack _)]).
    rewrite <- line_text, E by done. by rewrite str_chars, no_sentinel_left.
  - replace ev with (hidden sentinel ev) at 1; [rewrite hidden_unscrubbed|]; unfold hidden;
      (rewrite (with_columns_ext _ _ (column_of ev)); [by rewrite with_own_columns|]);
      intros c; assert (preserved ev c = false) as ->; try done; apply not_true_iff_false; intros H;
      (rewrite (proj2 (existsb_exists _ _)) in Ep; [done|]); exists c; (split; [|done]); by destruct c; cbn; tauto.
Qed.
End Line.

(** ** The contract *)

Lemma rendered_pair_member key value : rendered_pair key value = member (chars key, quoted value).
Proof. done. Qed.

Lemma occurs_middle p a b : occurs p (a ++ p ++ b) = true.
Proof. apply occurs_spec. by exists a, b. Qed.

(** A column that is set stands behind its key in the line. *)
Lemma column_in_line dump ev c : DumpLaws dump -> (forall c, plain_text (column_of ev c)) ->
  chars (to_json_line dump ev) = line (members dump ev (column_of ev)) -> column_of ev c <> "" ->
  occurs (rendered_pair (column_key c) (column_of ev c)) (chars (to_json_line dump ev)) = true.
Proof.
  intros Hdump Hp -> Hne. destruct (column_place ev (column_of ev) c) as (pre & post & Hat & _). unfold members.
  rewrite (with_columns_ext ev (column_of ev) (upd (column_of ev) c (column_of ev c)))
    by (intros c'; unfold upd; by destruct (decide (c' = c)) as [->|]).
  rewrite Hat, fmap_app, fmap_cons by done. unfold text_of at 2. cbn [fst snd]. rewrite (dump_string _ Hdump) by done.
  destruct (line_split (text_of dump <$> pre) (text_of dump <$> post)) as (a & b & -> & _).
  rewrite rendered_pair_member. apply occurs_middle.
Qed.

(** C11: The identifiers of an order survive the redaction of its audit line. An event
    whose columns are identifiers, such as a minted client reference, or harmless
    plain texts, and whose free-form fields carry nothing the scrubber takes, is
    emitted as it renders: whatever the sentinels drawn, they are put in, survive the
    scrub, are found again and replaced, none is left, and every column that is set
    can be read behind its key. *)
Theorem ids_logged_verbatim (dump : json -> string) (draws : nat -> nat) (now : Z) (ev : AuditEvent)
    (Hdump : DumpLaws dump) (Hset : ts ev <> 0) (Hok : loggable dump (make_sentinels draws) ev) :
  log dump (make_sentinels draws) true now ev = Some (level_of (type ev), to_json_line dump ev) /\
  (forall c, column_of ev c <> "" ->
     occurs (rendered_pair (column_key c) (column_of ev c)) (chars (to_json_line dump ev)) = true) /\
  any_sentinel (make_sentinels draws) (chars (to_json_line dump ev)) = false.
Proof.
  pose proof (line_text dump Hdump draws ev Hok (column_of ev) (fun c => or_intror eq_refl)) as Hl.
  rewrite with_own_columns in Hl. split_and!.
  - unfold log. rewrite (proj2 (Z.eqb_neq _ _)) by done. by rewrite render_loggable.
  - intros c. apply column_in_line; [done| |done]. intros c'. by apply (column_plain dump draws).
  - by apply (no_sentinel_left dump Hdump draws).
Qed.

(** ** A library that writes objects that way, and two events *)

Fixpoint sample_dump (j : json) : string :=
  match j with
  | JInt z => pretty z
  | JString s => str (quoted s)
  | JObject ms => str (line (map (fun m => match m with (k, v) => (chars k, chars (sample_dump v)) end) ms))
  | _ => "null"
  end.

Lemma sample_dump_laws : DumpLaws sample_dump.
Proof.
  split; [done|intros s _; by rewrite <- chars_str|]. intros ms _. cbn [sample_dump]. rewrite chars_str. f_equal.
  apply map_ext. by intros [k v].
Qed.

Definition filled_event (fs : list (string * json)) : AuditEvent :=
  mkEvent OrderFilled (20000 * day_ns) "mean-reversion" "" "" "alpha-1a2b3c4d-deadbeef-cafe-4bab-8abe-0123456789ab"
    "240627000123456" (JObject fs).

Definition good_event : AuditEvent := filled_event [("status", JString "complete")].

Definition some_draws (n : nat) : nat := (7 * n)%nat.

Lemma good_event_loggable : loggable sample_dump (make_sentinels some_draws) good_event.
Proof.
  split.
  - by vm_compute.
  - intros c. destruct (preserved good_event c) eqn:E; [by left|]. right.
    split; [|apply inert_b_spec]; destruct c; try (by vm_compute in E); repeat constructor.
  - by apply inert_b_spec.
  - intros c. split; [by destruct c|]. intros c'. by destruct c, c'.
Qed.

Lemma ids_logged_verbatim_witness :
  (log sample_dump (make_sentinels some_draws) true 0 good_event = Some (LInfo, to_json_line sample_dump good_event) /\
   (forall c, column_of good_event c <> "" ->
     occurs (rendered_pair (column_key c) (column_of good_event c)) (chars (to_json_line sample_dump good_event)) = true) /\
   any_sentinel (make_sentinels some_draws) (chars (to_json_line sample_dump good_event)) = false) /\
  column_of good_event CClientRef = "alpha-1a2b3c4d-deadbeef-cafe-4bab-8abe-0123456789ab".
Proof.
  split; [|done]. apply (ids_logged_verbatim sample_dump some_draws 0 good_event); [apply sample_dump_laws|done|apply good_event_loggable].
Defined.

(** The safety net is a lever all the same: an apostrophe behind a sensitive key in
    the free-form fields makes the scrub run over the end of the line, the strategy's
    sentinel with it, and the line falls back to the whole scrub, which takes the
    client reference that stood before the fields. *)
Example apostrophe_strips_references :
  let ev := filled_event [("reason", JString "password='")] in
  occurs (chars (client_ref ev)) (chars (render_line sample_dump (make_sentinels some_draws) ev)) = false /\
  occurs (chars (client_ref good_event)) (chars (render_line sample_dump (make_sentinels some_draws) good_event)) = true.
Proof. by vm_compute. Qed.
