(* ===== verification/KotakFeed.v ===== *)
(** * KotakFeed: the feed's frames and messages
    (src/src/adapters/kotak/kotak_ws_protocol.cpp)

    The subscribe and unsubscribe frames, the reader of a frame and the classifier
    of a received message. Parsing and dumping JSON are parameters; the socket is
    not part of the program. *)

From S2P Require Import Prelude Errors WireJson.

Definition kSubscribeTask : string := "mws".
Definition kUnsubscribeTask : string := "mwu".

Record KotakSubscription := mkSubscription { exchange_segment : string; instrument_token : string }.

Inductive KotakMessageKind := KOrderUpdate | KTick | KHeartbeat | KUnknown.

Definition kind_to_string (k : KotakMessageKind) : string :=
  match k with KOrderUpdate => "order_update" | KTick => "tick" | KHeartbeat => "heartbeat" | KUnknown => "unknown" end.

(** ** Frames *)

Definition amp : ascii := "&"%char.
Definition bar : ascii := "|"%char.

Definition scrip (s : KotakSubscription) : list ascii := chars (exchange_segment s) ++ bar :: chars (instrument_token s).

Definition join_scrips (subscriptions : list KotakSubscription) : list ascii :=
  foldl (fun scrips s => (match scrips with [] => [] | _ => scrips ++ [amp] end) ++ scrip s) [] subscriptions.

Definition frame_object (task channel scrips : string) : json :=
  JObject (put_field (put_field (put_field (put_field [] "type" (JString task)) "task" (JString task))
    "channel" (JString channel)) "scrips" (JString scrips)).

(** The entries between the ampersands, each cut at its first bar. *)
Fixpoint split_on (sep : ascii) (l : list ascii) : list (list ascii) :=
  match l with
  | [] => [[]]
  | c :: r =>
      if Ascii.eqb c sep then [] :: split_on sep r
      else match split_on sep r with e :: es => (c :: e) :: es | [] => [[c]] end
  end.

Fixpoint cut_at (sep : ascii) (l : list ascii) : option (list ascii * list ascii) :=
  match l with
  | [] => None
  | c :: r => if Ascii.eqb c sep then Some ([], r) else '(a, b) ← cut_at sep r; Some (c :: a, b)
  end.

Definition parse_entry (entry : list ascii) : option KotakSubscription :=
  match cut_at bar entry with
  | Some ((_ :: _) as segment, (_ :: _) as token) => Some (mkSubscription (str segment) (str token))
  | _ => None
  end.

Definition frame_error (msg : string) : Error := make_error Validation msg "".

Definition string_field (object : json) (key : string) : string :=
  match find_key object key with Some (JString s) => s | _ => "" end.

Definition has_key (object : json) (key : string) : bool := bool_decide (is_Some (find_key object key)).

(** ** Messages *)

Definition text_in (s : string) (l : list string) : bool := existsb (String.eqb s) l.

Definition classify_record (record : json) : KotakMessageKind :=
  let type := string_field record "type" in
  if text_in type ["hb"; "heartbeat"] || has_key record "hb" then KHeartbeat
  else if text_in type ["order"; "ord"] || has_key record "nOrdNo" || has_key record "ordSt" || has_key record "orderId"
  then KOrderUpdate
  else if text_in type ["stk"; "if"; "dp"; "tick"] ||
          (has_key record "tk" && (has_key record "lp" || has_key record "ltp" || has_key record "ltt" || has_key record "bp"))
  then KTick
  else KUnknown.

Section Feed.
  Context (parse : string -> option json) (dump : json -> string).

Definition build_frame (task : string) (subscriptions : list KotakSubscription) (channel : string) : string :=
  match subscriptions with
  | [] => ""
  | _ => dump (frame_object task channel (str (join_scrips subscriptions)))
  end.

Definition build_subscribe_frame := build_frame kSubscribeTask.
Definition build_unsubscribe_frame := build_frame kUnsubscribeTask.

Definition parse_subscription_frame (frame : string) : result (list KotakSubscription) :=
  match parse frame with
  | Some (JObject fields) =>
      let object := JObject fields in
      if negb (text_in (string_field object "task") [kSubscribeTask; kUnsubscribeTask]) then
        Err (frame_error "kotak: subscription frame has no known task")
      else if String.eqb (string_field object "scrips") "" then
        Err (frame_error "kotak: subscription frame carried no scrips")
      else match mapM parse_entry (split_on amp (chars (string_field object "scrips"))) with
           | Some subscriptions => Ok subscriptions
           | None => Err (frame_error "kotak: subscription entry is not segment|token")
           end
  | _ => Err (frame_error "kotak: subscription frame is not a JSON object")
  end.

Definition classify_message (message : string) : KotakMessageKind :=
  match parse message with
  | None => if String.eqb message "hb" then KHeartbeat else KUnknown
  | Some (JObject fields) => classify_record (JObject fields)
  | Some (JArray (JObject fields :: _)) => classify_record (JObject fields)
  | Some _ => KUnknown
  end.
End Feed.

(** ** Splitting and joining *)

(** A subscription the frame's text can carry. *)
Definition carried (s : KotakSubscription) : Prop :=
  exchange_segment s <> "" /\ instrument_token s <> "" /\ bar ∉ chars (exchange_segment s) /\
  amp ∉ chars (exchange_segment s) /\ amp ∉ chars (instrument_token s).

Lemma split_on_app sep a b : sep ∉ a -> split_on sep (a ++ sep :: b) = a :: split_on sep b.
Proof.
  induction a as [|c a IH]; intros H; cbn; [by rewrite Ascii.eqb_refl|]. apply not_elem_of_cons in H as [Hc H].
  destruct (Ascii.eqb_spec c sep); [congruence|]. by rewrite IH.
Qed.

Lemma split_on_none sep a : sep ∉ a -> split_on sep a = [a].
Proof.
  induction a as [|c a IH]; intros H; cbn; [done|]. apply not_elem_of_cons in H as [Hc H].
  destruct (Ascii.eqb_spec c sep); [congruence|]. by rewrite IH.
Qed.

Lemma cut_at_app sep a b : sep ∉ a -> cut_at sep (a ++ sep :: b) = Some (a, b).
Proof.
  induction a as [|c a IH]; intros H; cbn; [by rewrite Ascii.eqb_refl|]. apply not_elem_of_cons in H as [Hc H].
  destruct (Ascii.eqb_spec c sep); [congruence|]. by rewrite IH.
Qed.

Lemma cut_at_some sep l a b : cut_at sep l = Some (a, b) -> l = a ++ sep :: b.
Proof.
  revert a b. induction l as [|c l IH]; intros a b H; cbn in H; [done|]. destruct (Ascii.eqb_spec c sep) as [->|].
  - by injection H as <- <-.
  - apply bind_Some in H as ([a' b'] & E & H). injection H as <- <-. by rewrite (IH a' b').
Qed.

(** Joining behind the first subscription. *)
Definition join_from (scrips : list ascii) (l : list KotakSubscription) : list ascii :=
  scrips ++ (l ≫= fun s => amp :: scrip s).

Lemma scrip_nonempty s : scrip s <> [].
Proof. unfold scrip. by destruct (chars (exchange_segment s)). Qed.

Lemma join_fold l : forall scrips, scrips <> [] ->
  foldl (fun scrips s => (match scrips with [] => [] | _ => scrips ++ [amp] end) ++ scrip s) scrips l = join_from scrips l.
Proof.
  induction l as [|s l IH]; intros scrips H; unfold join_from; cbn [foldl]; [by rewrite app_nil_r|].
  destruct scrips as [|c r]; [done|]. rewrite IH by done. unfold join_from. cbn. by rewrite <- !app_assoc.
Qed.

Lemma join_cons s l : join_scrips (s :: l) = join_from (scrip s) l.
Proof. unfold join_scrips. cbn [foldl]. rewrite app_nil_l. apply join_fold, scrip_nonempty. Qed.

Lemma join_from_cons a s l : join_from a (s :: l) = a ++ amp :: join_from (scrip s) l.
Proof. done. Qed.

Lemma parse_scrip s : carried s -> parse_entry (scrip s) = Some s.
Proof.
  intros (H1 & H2 & H3 & _). unfold parse_entry, scrip. rewrite cut_at_app by done. destruct s as [[|c seg] [|d tok]]; cbn in *; try done.
  cbn. by rewrite !str_chars.
Qed.

Lemma scrip_no_amp s : carried s -> amp ∉ scrip s.
Proof. intros (_ & _ & _ & H1 & H2). unfold scrip. rewrite elem_of_app, elem_of_cons. intros [|[|]]; done. Qed.

Lemma split_join_scrips l : forall s, Forall carried (s :: l) -> mapM parse_entry (split_on amp (join_from (scrip s) l)) = Some (s :: l).
Proof.
  induction l as [|s' l IH]; intros s H; apply Forall_cons in H as [Hs H].
  - unfold join_from. cbn [mbind list_bind]. rewrite app_nil_r, split_on_none by (by apply scrip_no_amp).
    cbn. by rewrite parse_scrip.
  - rewrite join_from_cons, split_on_app by (by apply scrip_no_amp). cbn [mapM]. rewrite parse_scrip by done. cbn.
    by rewrite IH.
Qed.

(** What the parser accepts is what the joiner would write. *)
Lemma parse_entry_scrip e s : parse_entry e = Some s -> e = scrip s.
Proof.
  unfold parse_entry. destruct (cut_at bar e) as [[[|c a] [|d b]]|] eqn:E; try done. intros [= <-].
  apply cut_at_some in E as ->. unfold scrip. cbn. by rewrite !chars_str.
Qed.

Lemma split_on_spec sep l : exists e es, split_on sep l = e :: es /\ l = e ++ (es ≫= cons sep).
Proof.
  induction l as [|c l IH]; cbn; [by exists [], []|]. destruct IH as (e & es & -> & ->).
  destruct (Ascii.eqb_spec c sep) as [->|]; [by exists [], (e :: es)|by exists (c :: e), es].
Qed.

Lemma parsed_joins l subs : mapM parse_entry (split_on amp l) = Some subs -> join_scrips subs = l.
Proof.
  destruct (split_on_spec amp l) as (e & es & -> & ->). intros H. apply mapM_Some in H.
  apply Forall2_cons_inv_l in H as (s & subs' & Hs & H & ->). rewrite join_cons. unfold join_from.
  rewrite (parse_entry_scrip e s Hs). f_equal. induction H as [|e' s' es' subs'' Hs' H IH]; [done|].
  cbn. rewrite (parse_entry_scrip e' s' Hs'). cbn in IH. by rewrite IH.
Qed.

(** ** The frame *)

Section Frame.
  Context (parse : string -> option json) (dump : json -> string).

Lemma frame_fields task channel scrips :
  string_field (frame_object task channel scrips) "task" = task /\
  string_field (frame_object task channel scrips) "scrips" = scrips.
Proof. done. Qed.

Lemma join_nonempty s l : str (join_scrips (s :: l)) <> "".
Proof. rewrite join_cons. unfold join_from. intros H%(f_equal chars). rewrite chars_str in H. by destruct (scrip s) eqn:E; [destruct (scrip_nonempty s)|]. Qed.

(** A frame carries its subscriptions. What the builders write, subscribing or
    unsubscribing, reads back as the same subscriptions in the same order, when no
    segment holds a separator and no token an ampersand; and a frame that reads back
    as some subscriptions carries exactly the text the builders write for them, so
    the reader accepts no other spelling. *)
Theorem frame_roundtrip (task channel : string) (subs : list KotakSubscription)
    (Htask : task = kSubscribeTask \/ task = kUnsubscribeTask) (Hsubs : subs <> []) (Hc : Forall carried subs)
    (Hjson : parse (build_frame dump task subs channel) = Some (frame_object task channel (str (join_scrips subs)))) :
  parse_subscription_frame parse (build_frame dump task subs channel) = Ok subs /\
  forall frame fields subs', parse frame = Some (JObject fields) -> parse_subscription_frame parse frame = Ok subs' ->
    string_field (JObject fields) "scrips" = str (join_scrips subs').
Proof.
  split.
  - destruct subs as [|s l]; [done|]. unfold parse_subscription_frame. rewrite Hjson.
    destruct (frame_fields task channel (str (join_scrips (s :: l)))) as [E1 E2]. unfold frame_object in *. rewrite E1, E2.
    replace (text_in task [kSubscribeTask; kUnsubscribeTask]) with true by (by destruct Htask as [->| ->]). cbn [negb].
    rewrite (proj2 (String.eqb_neq _ _)) by apply join_nonempty. by rewrite chars_str, join_cons, split_join_scrips.
  - intros frame fields subs' Hp. unfold parse_subscription_frame. rewrite Hp.
    destruct (text_in _ _); [|done]. destruct (String.eqb _ ""); [done|]. cbn [negb].
    destruct (mapM _ _) as [l|] eqn:E; [|done]. intros [= <-]. apply parsed_joins in E. by rewrite E, str_chars.
Qed.
End Frame.

Definition two_scrips : list KotakSubscription := [mkSubscription "nse_cm" "11536"; mkSubscription "nse_fo" "53|1"].

(** A library that parses the frame it dumped. *)
Definition frame_dump (j : json) : string := string_field j "scrips".
Definition frame_parse (s : string) : option json := Some (frame_object kSubscribeTask "1" s).

Lemma frame_roundtrip_witness :
  parse_subscription_frame frame_parse (build_subscribe_frame frame_dump two_scrips "1") = Ok two_scrips /\
  forall frame fields subs', frame_parse frame = Some (JObject fields) -> parse_subscription_frame frame_parse frame = Ok subs' ->
    string_field (JObject fields) "scrips" = str (join_scrips subs').
Proof.
  apply (frame_roundtrip frame_parse frame_dump kSubscribeTask "1" two_scrips); [by left|done| |reflexivity].
  repeat constructor; cbn; try done; by apply (bool_decide_unpack _).
Defined.

(** ** The classifier *)

(** An order's keys are never read as prices. *)
Lemma order_keys_never_tick record :
  (has_key record "nOrdNo" || has_key record "ordSt" || has_key record "orderId") = true ->
  classify_record record = KOrderUpdate \/ classify_record record = KHeartbeat.
Proof.
  intros H. unfold classify_record. destruct (_ || has_key record "hb"); [by right|].
  rewrite <- !orb_assoc, (orb_assoc (has_key record "nOrdNo")), H, orb_true_r. by left.
Qed.

(** A message that is not JSON, or not a record, is no data. *)
Lemma unread_is_not_data (parse : string -> option json) message :
  (forall fields, parse message <> Some (JObject fields)) ->
  (forall fields rest, parse message <> Some (JArray (JObject fields :: rest))) ->
  classify_message parse message = KUnknown \/ (classify_message parse message = KHeartbeat /\ message = "hb").
Proof.
  intros H1 H2. unfold classify_message. destruct (parse message) as [j|].
  - destruct j as [| | | | |l|fs]; try (by left); [|by destruct (H1 fs)].
    destruct l as [|[| | | | | |fs] l]; try (by left). by destruct (H2 fs l).
  - destruct (String.eqb_spec message "hb"); [by right|by left].
Qed.

(** An order update with a key [hb] is dropped as a keep-alive. *)
Example order_with_hb_is_heartbeat :
  classify_record (JObject [("hb", JInt 1); ("nOrdNo", JString "240627"); ("ordSt", JString "rejected"); ("type", JString "order")])
  = KHeartbeat.
Proof. reflexivity. Qed.
