(* ===== verification/Alerting.v ===== *)
(** * Alerting: the operator's alert channels and the dead-man's switch
    (src/src/alerting/multi_channel_alert_sink.cpp, alerting/heartbeat_monitor.hpp)

    Delivery to every channel over an injected seam, the text an alert carries, and
    the heartbeat. The seam acts on a world of its own; a seam that throws answers
    [false]. The dump of the body's JSON is a parameter. *)

From S2P Require Import Prelude Errors Redaction WireJson Modes Resolver.

Inductive ChannelKind := Telegram | Webhook.

Record AlertChannel := mkChannel { kind : ChannelKind; url : string; chat_id : string }.

Definition level_name (level : AlertLevel) : string :=
  match level with
  | AlertInfo => "Info" | AlertWarning => "Warning" | AlertError => "Error" | AlertCritical => "Critical"
  end.

(** ** The monitor: nanoseconds of the steady clock *)

Record HeartbeatMonitor := mkMonitor { last_beat_ : Z; seen_ : bool }.

Definition new_monitor : HeartbeatMonitor := mkMonitor 0 false.

Definition beat (now_steady : Z) (m : HeartbeatMonitor) : HeartbeatMonitor := mkMonitor now_steady true.

Definition is_alive (max_gap_ms now_steady : Z) (m : HeartbeatMonitor) : bool :=
  seen_ m && (now_steady - last_beat_ m <=? max_gap_ms * 1000000).

(** The typed columns beside the text. *)
Definition context_block (provenance : AlertContext) : string :=
  render_provenance_block
    [mkField "client_ref" (alert_client_ref provenance) IdColumn;
     mkField "broker_order_id" (alert_broker_order_id provenance) IdColumn;
     mkField "strategy" (alert_strategy provenance) IdColumn;
     mkField "symbol" (alert_symbol provenance) SymbolColumn].

Definition kTestAlert : string := "broker-exec alert channel test".

Definition no_channels : Error := make_error Internal "alert sink has no channels configured" "".

Record MultiChannelAlertSink := mkSink { channels_ : list AlertChannel; heartbeat_ : HeartbeatMonitor }.

Section Sink.
  Context {W : Type} (post : string -> string -> W -> bool * W) (now_steady : W -> Z) (dump : json -> string).

Definition build_body (channel : AlertChannel) (level : AlertLevel) (safe : string) : string :=
  dump (match kind channel with
        | Telegram => JObject (put_field (put_field [] "chat_id" (JString (chat_id channel))) "text" (JString safe))
        | Webhook => JObject (put_field (put_field [] "level" (JString (level_name level))) "message" (JString safe))
        end).

(** One post to each channel, in order, whatever the others answered. *)
Fixpoint post_all (level : AlertLevel) (text : string) (channels : list AlertChannel) (w : W) : list bool * W :=
  match channels with
  | [] => ([], w)
  | c :: rest =>
      let '(delivered, w) := post (url c) (build_body c level text) w in
      let '(answers, w) := post_all level text rest w in
      (delivered :: answers, w)
  end.

Definition deliver (level : AlertLevel) (text : string) (s : MultiChannelAlertSink) (w : W)
    : result unit * MultiChannelAlertSink * W :=
  match channels_ s with
  | [] => (Err no_channels, s, w)
  | _ =>
      let '(answers, w) := post_all level text (channels_ s) w in
      if existsb id answers then (Ok tt, mkSink (channels_ s) (beat (now_steady w) (heartbeat_ s)), w)
      else (Err (make_error Network "alert delivery failed on all channels" ""), s, w)
  end.

Definition send (level : AlertLevel) (message : string) (s : MultiChannelAlertSink) (w : W)
    : result unit * MultiChannelAlertSink * W := deliver level (scrub message) s w.

Definition send_with_context (level : AlertLevel) (message : string) (provenance : AlertContext)
    (s : MultiChannelAlertSink) (w : W) : result unit * MultiChannelAlertSink * W :=
  deliver level (scrub message +:+ context_block provenance) s w.

Definition send_test_alert (s : MultiChannelAlertSink) (w : W) : result unit * MultiChannelAlertSink * W :=
  match channels_ s with
  | [] => (Err no_channels, s, w)
  | _ =>
      let '(answers, w) := post_all AlertInfo (scrub kTestAlert) (channels_ s) w in
      let failed := length (List.filter negb answers) in
      if (failed =? 0)%nat then (Ok tt, s, w)
      else (Err (make_error Network ("test alert failed on " +:+ pretty (Z.of_nat failed) +:+ " of " +:+
                  pretty (Z.of_nat (length (channels_ s))) +:+ " channels") ""), s, w)
  end.

Definition heartbeat (s : MultiChannelAlertSink) (w : W) : MultiChannelAlertSink * W :=
  let s := mkSink (channels_ s) (beat (now_steady w) (heartbeat_ s)) in
  let '(_, s, w) := send AlertInfo "heartbeat" s w in (s, w).
End Sink.

(** ** The order is named *)

Lemma id_shape_facts v : is_provenance_id_shape v = true ->
  v <> "" /\ (String.length v <= kMaxProvenanceIdChars)%nat /\ is_block_safe v = true.
Proof.
  unfold is_provenance_id_shape. intros H. split; [by intros ->|].
  case_match eqn:E; [done|]. apply orb_false_iff in E as [_ E]. apply Nat.ltb_ge in E.
  split; [by rewrite <- chars_length|]. unfold is_block_safe. apply forallb_forall. intros c Hc.
  case_match eqn:E2; [|done]. apply id_shape_chars in E2. rewrite Forall_forall in E2.
  by rewrite E2 by (by apply list_elem_of_In).
Qed.

Lemma render_fields_from fs : forall block, exists rest, render_fields block fs = block +:+ rest.
Proof.
  induction fs as [|f fs IH]; intros block; cbn [render_fields]; [by exists ""; rewrite str_app_nil_r|].
  destruct (_ || _); [apply IH|]. edestruct IH as [rest ->]. rewrite str_app_assoc. by eexists.
Qed.

Lemma render_fields_cons block f fs : render_fields block (f :: fs) =
  if String.eqb (field_value f) "" || negb (is_block_safe_key (field_key f)) then render_fields block fs
  else render_fields (block +:+ (if String.eqb block "" then " [" else " ") +:+ field_key f +:+ "=" +:+ render_value f) fs.
Proof. done. Qed.

(** The reference stands in the block as it is. *)
Lemma context_names_order p : is_provenance_id_shape (alert_client_ref p) = true ->
  exists rest, context_block p = " [client_ref=" +:+ alert_client_ref p +:+ rest.
Proof.
  intros H. destruct (id_shape_facts _ H) as (Hne & Hl & Hs). unfold context_block, render_provenance_block.
  rewrite render_fields_cons. cbn [field_value field_key]. rewrite (proj2 (String.eqb_neq (alert_client_ref p) "")) by done.
  change (is_block_safe_key "client_ref") with true. change (String.eqb "" "") with true. cbn [negb orb].
  assert (render_value (mkField "client_ref" (alert_client_ref p) IdColumn) = alert_client_ref p) as ->.
  { unfold render_value, render_column, scrub_provenance_column. cbn [field_kind field_value]. rewrite H, Hs.
    by rewrite (proj2 (Nat.ltb_ge _ _)). }
  match goal with |- context [render_fields ?b ?fs] => destruct (render_fields_from fs b) as [rest ->] end.
  exists (rest +:+ "]"). rewrite (proj2 (String.eqb_neq _ "")) by done. cbn. by rewrite !str_app_assoc.
Qed.

(** ** What a delivery does *)

Section Delivery.
  Context {W : Type} (post : string -> string -> W -> bool * W) (now_steady : W -> Z) (dump : json -> string).

  (** The seam behind a recorder of the calls made and their answers. *)
Let rec_post (u b : string) (w : W * list (string * string * bool)) : bool * (W * list (string * string * bool)) :=
    let '(answer, w') := post u b w.1 in (answer, (w', w.2 ++ [(u, b, answer)])).

Lemma post_all_record level text cs : forall w log, exists answers,
  (post_all rec_post dump level text cs (w, log)).1 = answers /\
  (post_all rec_post dump level text cs (w, log)).2.2 =
    log ++ zip ((fun c => (url c, build_body dump c level text)) <$> cs) answers /\
  length answers = length cs.
Proof.
  induction cs as [|c cs IH]; intros w log; cbn [post_all]; [exists []; by rewrite app_nil_r|].
  unfold rec_post at 1 3. cbn [fst]. destruct (post (url c) _ w) as [answer w'] eqn:E.
  destruct (IH w' (log ++ [(url c, build_body dump c level text, answer)])) as (answers & H1 & H2 & H3).
  cbn [snd]. destruct (post_all _ _ _ _ cs _) as [answers' w'']. cbn [fst snd] in *. subst answers'.
  exists (answer :: answers). rewrite H2, <- app_assoc. split_and!; try done. cbn. by rewrite H3.
Qed.

(** An alert reaches every channel, scrubbed, and names its order. With channels
    configured, sending posts to each of them exactly once, in order, whatever the
    others answer; every body is built from the scrubbed message with the typed
    columns behind it, and when the client reference is an identifier it stands
    there verbatim. The answer is ok exactly when some channel accepted, and then
    and only then is the sign of life renewed. *)
Theorem alert_delivered (level : AlertLevel) (message : string) (p : AlertContext) (s : MultiChannelAlertSink) (w : W) :
  let text := scrub message +:+ context_block p in
  let '(r, s', (w', log)) :=
    send_with_context rec_post (fun w => now_steady w.1) dump level message p (mkSink (channels_ s) (heartbeat_ s)) (w, []) in
  (exists answers, length answers = length (channels_ s) /\
     log = zip ((fun c => (url c, build_body dump c level text)) <$> channels_ s) answers /\
     (r = Ok tt <-> true ∈ answers) /\
     heartbeat_ s' = if decide (true ∈ answers) then mkMonitor (now_steady w') true else heartbeat_ s) /\
  scrub (scrub message) = scrub message /\
  (is_provenance_id_shape (alert_client_ref p) = true ->
     exists rest, text = scrub message +:+ " [client_ref=" +:+ alert_client_ref p +:+ rest).
Proof.
  cbn zeta. set (text := scrub message +:+ context_block p). unfold send_with_context, deliver. cbn [channels_ heartbeat_].
  fold text. destruct (post_all_record level text (channels_ s) w []) as (answers & H1 & H2 & H3).
  assert (Hrest : scrub (scrub message) = scrub message /\ (is_provenance_id_shape (alert_client_ref p) = true ->
    exists rest, text = scrub message +:+ " [client_ref=" +:+ alert_client_ref p +:+ rest)).
  { split; [apply scrub_idempotent|]. intros H. destruct (context_names_order p H) as [rest E]. exists rest. unfold text. by rewrite E. }
  destruct (channels_ s) as [|c cs] eqn:Ec.
  - split; [|done]. exists []. split_and!; [done..| |]; [split; [done|by intros ?%elem_of_nil]|].
    by rewrite decide_False by (by intros ?%elem_of_nil).
  - rewrite <- Ec in *. destruct (post_all rec_post dump level text (channels_ s) (w, [])) as [answers' [w' log]].
    cbn [fst snd] in *. subst answers' log.
    assert (Hex : existsb id answers = true <-> true ∈ answers).
    { rewrite existsb_exists. split; [intros (b & Hb & E); apply list_elem_of_In in Hb; by destruct b|].
      intros Hin. exists true. by rewrite <- list_elem_of_In. }
    destruct (existsb id answers) eqn:E; (split; [|done]); exists answers; (split_and!; [done|done|split|]).
    + intros _. by apply Hex.
    + done.
    + by rewrite decide_True by (by apply Hex).
    + done.
    + intros Hin%Hex. done.
    + rewrite decide_False; [done|]. intros Hin%Hex. done.
Qed.
End Delivery.

(** The switch: alive exactly within the gap of the last sign of life. *)
Lemma dead_man_switch s now gap (m : HeartbeatMonitor) :
  is_alive gap now new_monitor = false /\
  (is_alive gap now (beat s m) = true <-> now - s <= gap * 1000000).
Proof. split; [done|]. unfold is_alive. cbn. by rewrite Z.leb_le. Qed.
