(* ===== verification/FakeBroker.v ===== *)
(** * FakeBroker: the adversarial broker (src/src/adapters/fake/fake_broker.cpp)

    The broker the conformance kit and the durability harness drive: its book of
    broker truth, the faults it injects, and the port it implements. The injected
    clock's reading is a field; the counters are unbounded here. *)

From S2P Require Import Prelude Errors Domain ClientRef Json IntentLog WriteAhead Idempotency Risk Store Dispatcher BrokerFactory.

Record FaultConfig := mkFault {
  drop_ack : bool;
  delay_ack_ticks : Z;
  ack_lost_but_placed : bool;
  duplicate_fill : bool;
  out_of_order_events : bool;
  rate_limit_after : Z;
  tick_duration : Z;
}.

Definition no_fault : FaultConfig := mkFault false 0 false false false (-1) 1000000.

Record BookEntry := mkEntry { entry_order : Order; ack_returned : bool; placed_seq : Z }.

Record FakeBroker := mkFake {
  cfg_ : FaultConfig;
  funds_ : FundsSnapshot;
  book_ : list BookEntry;
  trades_ : list Trade;
  start_steady_ : Z;
  next_broker_seq_ : Z;
  next_trade_seq_ : Z;
  request_count_ : Z;
  steady_now : Z;
}.

Definition kRateLimitCode : string := "FAKE-429".
Definition kLostAckCode : string := "FAKE-LOSTACK".
Definition kDelayCode : string := "FAKE-DELAY".
Definition kDropCode : string := "FAKE-DROP".

Definition make_order_id (seq : Z) : string := "FAKE-ORD-" +:+ pretty seq.

Definition new_fake (cfg : FaultConfig) (now : Z) : FakeBroker := mkFake cfg (mkFunds (from_paise_money 0) (from_paise_money 0)) [] [] now 1 1 0 now.

Definition set_fault (cfg : FaultConfig) (f : FakeBroker) : FakeBroker :=
  mkFake cfg (funds_ f) (book_ f) (trades_ f) (start_steady_ f) (next_broker_seq_ f) (next_trade_seq_ f) (request_count_ f) (steady_now f).

Definition set_funds (funds : FundsSnapshot) (f : FakeBroker) : FakeBroker :=
  mkFake (cfg_ f) funds (book_ f) (trades_ f) (start_steady_ f) (next_broker_seq_ f) (next_trade_seq_ f) (request_count_ f) (steady_now f).

(** The injected clock moves on. *)
Definition at_instant (now : Z) (f : FakeBroker) : FakeBroker :=
  mkFake (cfg_ f) (funds_ f) (book_ f) (trades_ f) (start_steady_ f) (next_broker_seq_ f) (next_trade_seq_ f) (request_count_ f) now.

Definition set_book (book : list BookEntry) (f : FakeBroker) : FakeBroker :=
  mkFake (cfg_ f) (funds_ f) book (trades_ f) (start_steady_ f) (next_broker_seq_ f) (next_trade_seq_ f) (request_count_ f) (steady_now f).

Definition elapsed_ticks (f : FakeBroker) : Z :=
  let tick := if 0 <? tick_duration (cfg_ f) then tick_duration (cfg_ f) else 1 in
  let elapsed := steady_now f - start_steady_ f in
  if 0 <? elapsed then Z.quot elapsed tick else 0.

(** Whether the request is throttled, and the count otherwise. *)
Definition rate_limited (f : FakeBroker) : bool * FakeBroker :=
  if (0 <=? rate_limit_after (cfg_ f)) && (rate_limit_after (cfg_ f) <=? request_count_ f) then (true, f)
  else (false, mkFake (cfg_ f) (funds_ f) (book_ f) (trades_ f) (start_steady_ f) (next_broker_seq_ f) (next_trade_seq_ f)
                 (request_count_ f + 1) (steady_now f)).

Definition throttled : Error := make_error RateLimited "rate limited by fake broker" kRateLimitCode.

(** The first entry of the id, changed in place. *)
Fixpoint update_entry (id : string) (change : BookEntry -> BookEntry) (book : list BookEntry) : option (list BookEntry) :=
  match book with
  | [] => None
  | e :: rest =>
      if String.eqb (broker_order_id (entry_order e)) id then Some (change e :: rest)
      else cons e <$> update_entry id change rest
  end.

Definition filled_order (o : Order) : Order :=
  mkOrder (intent o) Filled (broker_order_id o) (quantity (intent o)) (price (intent o)).

Definition fill_of (seq : Z) (o : Order) : Trade :=
  mkTrade ("FAKE-TRD-" +:+ pretty seq) (client_ref (intent o)) (broker_order_id o) (quantity (intent o)) (price (intent o)).

(** [book_.push_back(...)] and [maybe_emit_fill(book_.back())]. *)
Definition enter (o : Order) (acked : bool) (seq : Z) (f : FakeBroker) : FakeBroker :=
  let fill := fill_of (next_trade_seq_ f) o in
  mkFake (cfg_ f) (funds_ f) (book_ f ++ [mkEntry (filled_order o) acked seq])
    (trades_ f ++ fill :: (if duplicate_fill (cfg_ f) then [fill] else []))
    (start_steady_ f) (seq + 1) (next_trade_seq_ f + 1) (request_count_ f) (steady_now f).

Definition delayed (f : FakeBroker) : bool := (0 <? delay_ack_ticks (cfg_ f)) && (elapsed_ticks f <? delay_ack_ticks (cfg_ f)).

Definition lost (msg code : string) : Error := make_error Timeout msg code.

Definition place (i : OrderIntent) (f : FakeBroker) : result BrokerAck * FakeBroker :=
  let '(limited, f) := rate_limited f in
  if limited then (Err throttled, f) else
  let seq := next_broker_seq_ f in
  let broker_id := make_order_id seq in
  let o := mkOrder i Acknowledged broker_id (quantity_of 0) (from_paise 0) in
  if ack_lost_but_placed (cfg_ f) then (Err (lost "ack lost but order placed at broker" kLostAckCode), enter o false seq f)
  else if drop_ack (cfg_ f) then (Err (lost "ack dropped by fake broker" kDropCode), enter o false seq f)
  else if delayed f then (Err (lost "ack delayed by fake broker" kDelayCode), enter o false seq f)
  else (Ok (mkAck broker_id (client_ref i)), enter o true seq f).

Definition with_ack (acked : bool) (e : BookEntry) : BookEntry := mkEntry (entry_order e) acked (placed_seq e).

Definition with_intent (i : OrderIntent) (e : BookEntry) : BookEntry :=
  let o := entry_order e in
  mkEntry (mkOrder i (state o) (broker_order_id o) (filled_qty o) (avg_price o)) (ack_returned e) (placed_seq e).

Definition cancelled (e : BookEntry) : BookEntry := mkEntry (with_state Cancelled (entry_order e)) (ack_returned e) (placed_seq e).

(** A mutation of a known order: applied to broker truth whatever the caller sees. *)
Definition mutate {A} (id unknown : string) (change : BookEntry -> BookEntry) (lost_as drop_as delay_as : string * string) (ack : A)
    (f : FakeBroker) : result A * FakeBroker :=
  let '(limited, f) := rate_limited f in
  if limited then (Err throttled, f) else
  let apply acked := update_entry id (fun e => with_ack acked (change e)) (book_ f) in
  let answer (acked : bool) (r : result A) :=
    match apply acked with Some book => (r, set_book book f) | None => (Err (make_error OrderNotFound unknown ""), f) end in
  if ack_lost_but_placed (cfg_ f) then answer false (Err (lost lost_as.1 lost_as.2))
  else if drop_ack (cfg_ f) then answer false (Err (lost drop_as.1 drop_as.2))
  else if delayed f then answer false (Err (lost delay_as.1 delay_as.2))
  else answer true (Ok ack).

Definition modify (id : string) (i : OrderIntent) : FakeBroker -> result BrokerAck * FakeBroker :=
  mutate id "modify on unknown order at fake broker" (with_intent i)
    ("ack lost but modify applied at broker", kLostAckCode) ("ack dropped by fake broker", kDropCode)
    ("ack delayed by fake broker", kDelayCode) (mkAck id (client_ref i)).

Definition cancel (id : string) : FakeBroker -> result unit * FakeBroker :=
  mutate id "cancel on unknown order at fake broker" cancelled
    ("ack lost but cancel applied at broker", kLostAckCode) ("ack lost but cancel applied at broker", kLostAckCode)
    ("ack delayed by fake broker", kDelayCode) tt.

Definition square_off (id : string) : FakeBroker -> result unit * FakeBroker :=
  mutate id "square_off on unknown order at fake broker" cancelled
    ("ack lost but square_off applied at broker", kLostAckCode) ("ack lost but square_off applied at broker", kLostAckCode)
    ("ack delayed by fake broker", kDelayCode) tt.

Definition query {A} (read : FakeBroker -> A) (f : FakeBroker) : result A * FakeBroker :=
  let '(limited, f) := rate_limited f in if limited then (Err throttled, f) else (Ok (read f), f).

Definition sequenced {A} (f : FakeBroker) (l : list A) : list A := if out_of_order_events (cfg_ f) then reverse l else l.

(** One order's part of the net positions. *)
Fixpoint add_position (symbol : string) (qty : Z) (avg : Price) (out : list Position) : list Position :=
  match out with
  | [] => [mkPosition symbol (quantity_of qty) avg]
  | p :: rest =>
      if String.eqb (pos_symbol p) symbol
      then mkPosition (pos_symbol p) (quantity_of (quantity_value (net_qty p) + qty)) (pos_avg_price p) :: rest
      else p :: add_position symbol qty avg rest
  end.

Definition position_step (out : list Position) (e : BookEntry) : list Position :=
  let o := entry_order e in
  match state o with
  | Filled | PartiallyFilled =>
      add_position (symbol (intent o))
        (match side (intent o) with Buy => quantity_value (filled_qty o) | Sell => - quantity_value (filled_qty o) end)
        (avg_price o) out
  | _ => out
  end.

(** The port the safety core is run against. *)
Definition fake_port : BrokerPort FakeBroker :=
  mkPort place modify cancel square_off
    (query (fun f => sequenced f (entry_order <$> book_ f)))
    (query (fun f => sequenced f (trades_ f)))
    (query (fun f => foldl position_step [] (book_ f)))
    (query funds_).

(** ** Broker truth *)

(** What [rate_limited] leaves of the rest of the state. *)
Lemma rate_limited_spec f : let '(limited, f') := rate_limited f in
  book_ f' = book_ f /\ trades_ f' = trades_ f /\ cfg_ f' = cfg_ f /\ next_broker_seq_ f' = next_broker_seq_ f /\
  next_trade_seq_ f' = next_trade_seq_ f /\ elapsed_ticks f' = elapsed_ticks f /\
  request_count_ f' = request_count_ f + (if limited then 0 else 1).
Proof. unfold rate_limited. destruct (_ && _); cbn; split_and!; try done; lia. Qed.

(** Every place that reaches the broker enters the book, whatever the caller is told;
    a throttled one leaves it alone. *)
Lemma place_truth i f : let '(r, f') := place i f in
  (r = Err throttled /\ book_ f' = book_ f /\ next_broker_seq_ f' = next_broker_seq_ f) \/
  ((r = Ok (mkAck (make_order_id (next_broker_seq_ f)) (client_ref i)) \/ exists e, r = Err e /\ category e = Timeout) /\
   exists acked, book_ f' = book_ f ++ [mkEntry (mkOrder i Filled (make_order_id (next_broker_seq_ f)) (quantity i) (price i)) acked (next_broker_seq_ f)] /\
     next_broker_seq_ f' = next_broker_seq_ f + 1).
Proof.
  unfold place. pose proof (rate_limited_spec f) as H. destruct (rate_limited f) as [[] f1].
  - left. by destruct H as (H & _ & _ & H' & _).
  - destruct H as (H1 & _ & _ & H4 & _). rewrite <- H1, <- H4.
    repeat case_match; simplify_eq; right; (split; [first [by left|right; eexists; by split]|eexists; by split]).
Qed.

Lemma update_entry_ids id change book book' : update_entry id change book = Some book' ->
  (forall e, broker_order_id (entry_order (change e)) = broker_order_id (entry_order e)) ->
  (fun e => broker_order_id (entry_order e)) <$> book' = (fun e => broker_order_id (entry_order e)) <$> book.
Proof.
  intros H Hc. revert book' H. induction book as [|e book IH]; intros book' H; cbn in H; [done|].
  destruct (String.eqb _ id); [by injection H as <-; cbn; rewrite Hc|].
  destruct (update_entry id change book) as [l|]; [|done]. injection H as <-. cbn. by rewrite (IH l).
Qed.

Lemma mutate_ids {A} id u change a b c (ack : A) f :
  (forall e, broker_order_id (entry_order (change e)) = broker_order_id (entry_order e)) ->
  let f' := (mutate id u change a b c ack f).2 in
  ((fun e => broker_order_id (entry_order e)) <$> book_ f' = (fun e => broker_order_id (entry_order e)) <$> book_ f) /\
  next_broker_seq_ f' = next_broker_seq_ f.
Proof.
  intros Hc. cbn zeta. unfold mutate. pose proof (rate_limited_spec f) as H. destruct (rate_limited f) as [[] f1];
    destruct H as (H1 & _ & _ & H4 & _); rewrite <- H1, <- H4; [done|].
  repeat case_match; cbn; try done; (split; [|done]); (eapply update_entry_ids; [done|]); intros e; apply Hc.
Qed.

(** ** The dispatcher against it *)

(** One call of the dispatcher, as the broker meets it: the faults and the clock of
    that moment. *)
Record Moment := mkMoment { faults : FaultConfig; instant : Z; call : Event }.

Definition on_call (f : FakeBroker) (m : Moment) : FakeBroker :=
  let f := at_instant (instant m) (set_fault (faults m) f) in
  match call m with
  | EvPlace i => (place i f).2
  | EvModify id i => (modify id i f).2
  | EvCancel id => (cancel id f).2
  | EvSquareOff id => (square_off id f).2
  | _ => f
  end.

Definition placed_orders (tr : list Event) : list OrderIntent :=
  omap (fun ev => match ev with EvPlace i => Some i | _ => None end) tr.

Definition book_ids (f : FakeBroker) : list string := (fun e => broker_order_id (entry_order e)) <$> book_ f.

(** The ids handed out so far. *)
Definition ids_upto (n : Z) : list string := make_order_id <$> seqZ 1 (n - 1).

(** The book has taken in the places in [l], in order. *)
Definition taken (l : list OrderIntent) (f : FakeBroker) : Prop :=
  next_broker_seq_ f = Z.of_nat (length l) + 1 /\ book_ids f = ids_upto (next_broker_seq_ f).

Lemma taken_call l f m : taken l f -> exists k, k `sublist_of` placed_orders [call m] /\ taken (l ++ k) (on_call f m).
Proof.
  intros [Hn Hb]. unfold on_call. set (g := at_instant (instant m) (set_fault (faults m) f)).
  assert (Hg : next_broker_seq_ g = next_broker_seq_ f /\ book_ g = book_ f) by done. destruct Hg as [Hg1 Hg2].
  assert (Hsame : forall g', book_ids g' = book_ids f /\ next_broker_seq_ g' = next_broker_seq_ f -> taken l g')
    by (intros g' [E1 E2]; unfold taken; by rewrite E1, E2).
  destruct (call m) as [r| | |i|id i|id|id]; try (exists []; split; [done|rewrite app_nil_r; by apply Hsame]);
    try (exists []; split; [done|]; rewrite app_nil_r; apply Hsame; unfold book_ids; rewrite <- Hg2, <- Hg1; by apply mutate_ids).
  pose proof (place_truth i g) as H. destruct (place i g) as [r f']. cbn [snd].
  destruct H as [(_ & E1 & E2)|(_ & acked & E1 & E2)].
  - exists []. split; [apply sublist_nil_l|]. rewrite app_nil_r. apply Hsame. unfold book_ids. by rewrite E1, E2.
  - exists [i]. split; [done|]. unfold taken, book_ids in *. rewrite E1, E2, Hg1, Hg2, fmap_app, Hb, length_app, Hn. cbn.
    split; [lia|]. unfold ids_upto. replace (Z.of_nat (length l) + 1 + 1 - 1) with (Z.of_nat (S (length l))) by lia.
    rewrite Z.add_simpl_r, seqZ_S by lia. rewrite fmap_app, (Z.add_comm 1). done.
Qed.

Lemma taken_run ms : forall l f, taken l f -> exists k, k `sublist_of` placed_orders (call <$> ms) /\ taken (l ++ k) (foldl on_call f ms).
Proof.
  induction ms as [|m ms IH]; intros l f H; cbn [foldl]; [exists []; by rewrite app_nil_r|].
  destruct (taken_call l f m H) as (k & Hk & H1). destruct (IH _ _ H1) as (k' & Hk' & H2).
  exists (k ++ k'). rewrite app_assoc. split; [|done].
  change (call <$> m :: ms) with ([call m] ++ (call <$> ms)). unfold placed_orders in *. rewrite omap_app. by apply sublist_app.
Qed.

Lemma ids_distinct n : NoDup (ids_upto n).
Proof.
  unfold ids_upto. apply NoDup_fmap_2; [|apply NoDup_seqZ].
  intros a b H. unfold make_order_id in H. apply str_app_inv_head in H. by apply (inj pretty) in H.
Qed.

Lemma sublist_map {A B} (g : A -> B) (l k : list A) : l `sublist_of` k -> (g <$> l) `sublist_of` (g <$> k).
Proof. induction 1; cbn; by constructor. Qed.

#[local] Opaque signal_signature.

Section Composition.
Context `{J : JsonLib} `{JL : !JsonLaws J} {W : WriteAheadLog} {L : WriteAheadLaws W}.

Lemma placed_sigs tr : sent_sigs tr = signal_signature <$> placed_orders tr.
Proof. unfold sent_sigs, placed_orders. induction tr as [|[] tr IH]; cbn; try done. by rewrite IH. Qed.

(** C26: The safety core against the adversarial broker. Take any run of the
    dispatcher (any calls, failed writes and syncs of the log, failures of the store,
    crashes, and restarts that read the log to its end; a boot read that stops early
    unnoticed is excluded) and let the fake broker receive the same calls, with any fault injected at any
    moment: acks lost, dropped or delayed, fills doubled, requests throttled. Its
    book then holds one entry for each place it let in, each with an id of its own,
    and no two of them were placed for the same order. *)
Theorem book_never_doubles (d0 d : Dispatcher) (ms : list Moment) (cfg : FaultConfig) (now : Z)
    (Hstart : fresh_start d0) (Hrun : rtc disp_step d0 d) (Hcalls : call <$> ms = d_trace d) :
  let f := foldl on_call (new_fake cfg now) ms in
  NoDup (book_ids f) /\
  exists placed, placed `sublist_of` placed_orders (d_trace d) /\ length (book_ f) = length placed /\
    NoDup (order_key <$> placed).
Proof.
  intros f. destruct (taken_run ms [] (new_fake cfg now)) as (k & Hk & Hn & Hb); [done|]. cbn [app] in *.
  fold f in Hn, Hb. clearbody f.
  split; [rewrite Hb; apply ids_distinct|]. exists k. rewrite <- Hcalls. split; [done|]. split.
  - apply (f_equal length) in Hb. unfold book_ids, ids_upto in Hb. rewrite !length_fmap, length_seqZ in Hb. lia.
  - destruct (disp_reachable _ _ Hstart Hrun) as [acked Hd]. pose proof (dv_once _ _ Hd) as Honce.
    rewrite <- Hcalls, placed_sigs in Honce. apply (sublist_NoDup (signal_signature <$> k)) in Honce; [|by apply sublist_map].
    clear -Honce. induction k as [|i k IH]; [constructor|]. cbn in *. apply NoDup_cons in Honce as [Hi Honce].
    constructor; [|by apply IH]. intros (j & Hj & Hin)%list_elem_of_fmap. apply Hi. rewrite (signature_key i j) by done.
    by apply list_elem_of_fmap_2.
Qed.
End Composition.

(** The dispatcher's sample run, its acknowledgement lost and its fill doubled. *)
Definition harsh : FaultConfig := mkFault false 0 true true false (-1) 1000000.

Definition sample_moments : list Moment := (fun ev => mkMoment harsh 7 ev) <$> d_trace run3.

Lemma book_never_doubles_witness :
  let f := foldl on_call (new_fake no_fault 0) sample_moments in
  (NoDup (book_ids f) /\
   exists placed, placed `sublist_of` placed_orders (d_trace run3) /\ length (book_ f) = length placed /\
     NoDup (order_key <$> placed)) /\
  length (book_ f) = 1%nat /\ length (trades_ f) = 2%nat.
Proof.
  split; [|by vm_compute].
  apply (book_never_doubles (W := intent_log) run0 run3 sample_moments no_fault 0 run0_start run_steps).
  unfold sample_moments. rewrite <- list_fmap_compose. apply list_fmap_id.
Defined.

(** A lost acknowledgement is found by the next read: the caller is told a timeout,
    which the dispatcher takes for UNKNOWN, and the broker's rows name the order's
    reference. *)
Lemma lost_ack_visible i f : ack_lost_but_placed (cfg_ f) = true -> rate_limit_after (cfg_ f) < 0 ->
  let '(r, f') := place i f in
  (exists e, r = Err e /\ is_reconcile_first e = true) /\
  exists rows, (fetch_orders fake_port f').1 = Ok rows /\
    exists o, o ∈ rows /\ client_ref (intent o) = client_ref i /\ state o = Filled.
Proof.
  intros Hl Hr. assert (Hlim : forall g, cfg_ g = cfg_ f -> (rate_limited g).1 = false).
  { intros g E. unfold rate_limited. rewrite E. by rewrite (proj2 (Z.leb_gt _ _)) by lia. }
  unfold place. pose proof (Hlim f eq_refl) as H1. pose proof (rate_limited_spec f) as H2.
  destruct (rate_limited f) as [limited f1]. cbn in H1. subst limited. destruct H2 as (_ & _ & E & _). rewrite E, Hl.
  split; [by eexists|]. cbn [fetch_orders fake_port]. unfold query.
  match goal with |- context [rate_limited ?g] => pose proof (Hlim g E) as H3; pose proof (rate_limited_spec g) as H4; destruct (rate_limited g) as [limited f2] end.
  cbn in H3. subst limited. destruct H4 as (Hb & _). cbn [fst]. eexists. split; [done|].
  exists (filled_order (mkOrder i Acknowledged (make_order_id (next_broker_seq_ f1)) (quantity_of 0) (from_paise 0))).
  split; [|done]. rewrite Hb. unfold sequenced. cbn [book_ enter].
  assert (forall (o : Order) l, o ∈ l -> o ∈ (if out_of_order_events (cfg_ f2) then reverse l else l)) as Hs
    by (intros o l Ho; destruct (out_of_order_events _); [by apply elem_of_reverse|done]).
  apply Hs. rewrite fmap_app, elem_of_app. right. by left.
Qed.
