(* ===== verification/Entrypoint.v ===== *)
(** * Entrypoint: the process entry and the operator command line
    (src/src/main/main.cpp, src/src/cli/cli_app.cpp)

    What main builds before it calls [boot], what it passes it, and the exit code
    and the line it prints. The components main constructs over the operating system
    (clock, store, ledger, HTTP, reference data) are the seams of [Parts]; parsing
    the arguments is CLI11's. An exception that escapes ends as a crash. *)

From S2P Require Import Prelude Errors Domain Redaction RejectReason Capabilities Modes Calendar MarginSafety Health Engine.
From S2P Require Import Supervisor Config BrokerFactory AccountDir SafeStart BootChecks HealthSurface InstrumentMaster Boot.

Definition kKiteDefaultBaseUrl : string := "https://api.kite.trade".
Definition kCalendarFileEnv : string := "BROKER_EXEC_CALENDAR_FILE".

(** ** Lines *)

Definition journal_level (level : AlertLevel) : string :=
  match level with AlertInfo => "INFO" | AlertWarning => "WARN" | AlertError => "ERROR" | AlertCritical => "CRITICAL" end.

(** The line [JournalAlertSink::send] writes. *)
Definition journal_line (level : AlertLevel) (message : string) : string :=
  "[" +:+ journal_level level +:+ "] " +:+ scrub message.

Definition test_alert_line : string := journal_line AlertInfo "broker-exec: test alert".

Definition two_digits (n : Z) : string := if n <? 10 then "0" +:+ pretty n else pretty n.

Definition iso_date_utc (now_wall : Z) : string :=
  let d := ymd_of (now_wall / day_ns) in
  pretty (year d) +:+ "-" +:+ two_digits (month d) +:+ "-" +:+ two_digits (dom d).

(** What reading the file answers: not opened, read badly, or its text. *)
Inductive TextFile := TextMissing | TextBad | TextRead (text : string).

Definition read_text_file (f : TextFile) : result string :=
  match f with
  | TextMissing => Err (blocking DataStale ("calendar: the document named by " +:+ kCalendarFileEnv +:+ " could not be read"))
  | TextBad => Err (blocking DataStale "calendar: failed to read the calendar document")
  | TextRead text => Ok text
  end.

Record Options := mkCliOptions {
  opt_account : string;
  opt_config_path : string;
  opt_data_root : string;
  opt_shared_refdata : string;
  opt_health_host : string;
  opt_health_port : Z;
  opt_health_live_budget_ms : Z;
  boot_check : bool;
}.

(** [path.parent_path()]. *)
Fixpoint drop_while (p : ascii -> bool) (l : list ascii) : list ascii :=
  match l with [] => [] | c :: r => if p c then drop_while p r else l end.

Definition parent_path (path : string) : string :=
  let upto := drop_while (fun c => negb (Ascii.eqb c slash)) (rev (chars path)) in
  match drop_while (fun c => Ascii.eqb c slash) upto with
  | [] => if bool_decide (upto = []) then "" else String slash ""
  | l => str (rev l)
  end.

(** Where a line goes. *)
Inductive Printed := Stdout (line : string) | Stderr (line : string).

Definition report_error (e : Error) (where_ : string) : Z * Printed :=
  let c := exit_class_for e in
  (exit_code_for c,
   Stderr ("broker-exec: FAILED during " +:+ where_ +:+ " (" +:+ exit_class_to_string c +:+ ", exit " +:+
           pretty (exit_code_for c) +:+ "): " +:+ scrub (message e))).

Definition report {W} (o : BootOutcome W) (options : Options) : Z * Printed :=
  let code := exit_code_for (exit_class o) in
  if boot_ok o then
    (code, Stdout ("broker-exec: " +:+ (if boot_check options then "boot-check" else "run") +:+
                   " completed for account " +:+ scrub (opt_account options)))
  else
    (code, Stderr ("broker-exec: FAILED at step '" +:+ step_to_string (boot_step o) +:+ "' (" +:+
                   exit_class_to_string (exit_class o) +:+ ", exit " +:+ pretty code +:+ "): " +:+
                   scrub (match boot_error o with Some e => message e | None => "" end))).

(** ** The wiring *)

Section Run.
  Context {W : Type}.

(** The components main builds, as functions of what it builds them from. *)
Record Parts := mkParts {
  part_env : EnvLookup;
  part_files : (W -> string -> bool) * (W -> string -> toml_table + string);
  part_make_dir : string -> W -> bool * W;
  part_restrict_dir : string -> W -> bool * W;
  (** [Store::open_or_rebuild]: whether a rebuild is needed *)
  part_open_store : string -> W -> result bool * W;
  part_projection : W -> result (list Order);
  part_ledger : string -> LedgerPort (W := W);
  part_clock : W -> (Z * Z) * W;
  part_detector : SkewStallConfig;
  part_secrets : W -> string -> result string;
  part_key_files : W -> string -> key_file;
  part_chain_exists : W -> string -> option bool;
  part_journal : string -> W -> W;
  part_health : HealthPort (W := W);
  (** the Kite establisher's [validate], over a base URL, a timeout and a token store *)
  part_validate : string -> Z -> string -> string -> W -> result SessionState * W;
  part_download : W -> result string * W;
  part_read_file : W -> string -> TextFile;
  (** over the shared root, the data root, the account's root, the broker and the date
      of a wall time *)
  part_instruments : string -> string -> string -> string -> (Z -> string) -> (W -> result string * W) -> RefdataPort W;
  part_calendar : string -> string -> string -> string -> (Z -> string) -> (W -> result string) -> RefdataPort W;
  part_kite_adapter : string -> Z -> string -> string -> BrokerPort W;
  part_kotak_adapter : BrokerPort W;
}.

Variable parts : Parts.

Definition boot_args (o : Options) : BootArgs :=
  mkBootArgs (opt_account o) (opt_config_path o) (opt_data_root o) (opt_shared_refdata o) (opt_health_host o)
    (opt_health_port o) (opt_health_live_budget_ms o).

Definition is_kite (cfg : Config) : bool := String.eqb (broker_name (Config.broker cfg)) "kite".

Definition kite_base_url (cfg : Config) : string :=
  if String.eqb (base_url (Config.broker cfg)) "" then kKiteDefaultBaseUrl else base_url (Config.broker cfg).

Definition probe_session (cfg : Config) (dir : AccountDataDir) : W -> result SessionState * W :=
  if is_kite cfg then part_validate parts (kite_base_url cfg) (timeout_ms (Config.broker cfg)) (dir_data_root dir) (dir_account_id dir)
  else fun w => (Err (blocking NotSupported "boot: no session establishment is wired for the configured broker; only 'kite' is composed by this entrypoint today"), w).

Definition shared_root (o : Options) (dir : AccountDataDir) : string :=
  if String.eqb (opt_shared_refdata o) "" then path_join (path_join (parent_path (dir_data_root dir)) "shared") "refdata"
  else opt_shared_refdata o.

Definition instruments_upstream (cfg : Config) : W -> result string * W :=
  if is_kite cfg then part_download parts
  else fun w => (Err (blocking NotSupported "instruments: no instrument-master download is wired for the configured broker"), w).

Definition calendar_upstream (w : W) : result string :=
  match part_env parts kCalendarFileEnv with
  | Some path =>
      if String.eqb path "" then Err (blocking DataStale ("calendar: " +:+ kCalendarFileEnv +:+ " is not set. There is no broker calendar endpoint in this library, so the trading calendar must be provisioned as a JSON document; without it the calendar freshness gate blocks the start"))
      else read_text_file (part_read_file parts w path)
  | None => Err (blocking DataStale ("calendar: " +:+ kCalendarFileEnv +:+ " is not set. There is no broker calendar endpoint in this library, so the trading calendar must be provisioned as a JSON document; without it the calendar freshness gate blocks the start"))
  end.

(** Exit-only, with every source the entry path needs left out. *)
Definition entry_engine_deps : EngineDeps :=
  mkDeps (Some []) true (Some []) (Some (mkSnapshot Healthy "")) false None false None None None None None.

Definition entry_engine_options : EngineOptions :=
  mkOptions EngineExitOnly [] [] true (mkMarginConfig 500 (from_paise_money 0)) false true false false.

Definition wired (o : Options) (cfg : Config) (dir : AccountDataDir) (needs_rebuild : bool) : BootDeps W :=
  mkBootDeps (boot_args o) (Some (part_env parts)) (part_files parts) (Some (part_clock parts)) true
    (Some (part_secrets parts))
    (Some (fun level message w => (Ok tt, part_journal parts (journal_line level message) w)))
    (Some (part_projection parts)) (Some (part_ledger parts (account_file dir LedgerFile))) (part_key_files parts)
    (Some (part_instruments parts (shared_root o dir) (dir_data_root dir) (dir_root dir) (broker_name (Config.broker cfg)) iso_date_utc (instruments_upstream cfg)))
    (Some (part_calendar parts (shared_root o dir) (dir_data_root dir) (dir_root dir) (broker_name (Config.broker cfg)) iso_date_utc calendar_upstream))
    (Some (part_health parts)) (Some (probe_session cfg dir)) (Some (fun w => (Ok tt, w)))
    (Some (if boot_check o then fun w => (Ok tt, w) else unimplemented_run_phase))
    (part_make_dir parts) (part_restrict_dir parts) None (part_chain_exists parts)
    (mkBrokerDeps true true "kite.api_key" "kite.access_token"
       (part_kite_adapter parts (kite_base_url cfg) (timeout_ms (Config.broker cfg))) false false (part_kotak_adapter parts))
    (mkBrokerOptions [PlaceOrder; ModifyOrder; CancelOrder; SquareOff] false None)
    entry_engine_deps entry_engine_options (negb needs_rebuild).

Definition run_boot (o : Options) (w : W) : (Z * Printed) * W :=
  let args := boot_args o in
  match load ((part_files parts).1 w) ((part_files parts).2 w) (BootChecks.config_path args) (part_env parts) with
  | Err e => (report_error e "configuration load", w)
  | Ok cfg =>
      match require_config_consistent cfg args with
      | Err e => (report_error e "configuration consistency", w)
      | Ok _ =>
          match resolve_data_root cfg args with
          | Err e => (report_error e "data-root resolution", w)
          | Ok root =>
              let account_id := if String.eqb (args_account_id args) "" then cfg_account_id (Config.engine cfg)
                                else args_account_id args in
              match create root account_id with
              | Err e => (report_error e "account layout", w)
              | Ok dir =>
                  match ensure (part_make_dir parts) (part_restrict_dir parts) dir w with
                  | (Err e, w) => (report_error e "account directory creation", w)
                  | (Ok _, w) =>
                      match part_open_store parts (account_file dir StoreDb) w with
                      | (Err e, w) => (report_error e "store open", w)
                      | (Ok needs_rebuild, w) =>
                          let '(outcome, s) := boot (wired o cfg dir needs_rebuild)
                            (mkBootState w (new_detector (part_detector parts)) empty_audit) in
                          (report outcome o, world s)
                      end
                  end
              end
          end
      end
  end.
End Run.

(** What parsing the arguments leaves [main] with: CLI11's own exit code (0 for
    [--help], CLI11 having printed), or a verb with its options. *)
Inductive Invocation := ArgsRefused (cli_code : Z) | Verbs (o : Options).

(** The process: its exit code, the lines [main] itself prints, the world it
    leaves. [thrown] is an exception that reaches the boundary: its text when it is
    a [std::exception], and the world at that point. *)
Definition main {W} (parts : Parts (W := W)) (i : Invocation) (thrown : option (option string * W)) (w : W) :
    (Z * list Printed) * W :=
  match thrown with
  | Some (Some what, w) => ((exit_code_for ClassCrash, [Stderr ("broker-exec: unhandled exception: " +:+ scrub what)]), w)
  | Some (None, w) => ((exit_code_for ClassCrash, [Stderr "broker-exec: unhandled unknown exception"]), w)
  | None =>
      match i with
      | ArgsRefused cli_code => ((if cli_code =? 0 then exit_code_for ClassClean else exit_code_for ClassFailClosed, []), w)
      | Verbs o => let '((code, line), w) := run_boot parts o w in ((code, [line]), w)
      end
  end.

(** ** The operator command line *)

Inductive Verb := VStatus | VReconcile | VReplayIntentLog | VSafeStartCheck | VSendTestAlert | VVerifyIp | VKill.

#[export] Instance Verb_eq_dec : EqDecision Verb.
Proof. solve_decision. Defined.

Definition verb_to_string (v : Verb) : string :=
  match v with
  | VStatus => "status"
  | VReconcile => "reconcile"
  | VReplayIntentLog => "replay-intent-log"
  | VSafeStartCheck => "safe-start-check"
  | VSendTestAlert => "send-test-alert"
  | VVerifyIp => "verify-ip"
  | VKill => "kill"
  end.

Definition is_mutating (v : Verb) : bool := bool_decide (v = VKill).

(** What a callback answers: a result, or an exception. *)
Inductive Called := Returned (r : result string) | Threw (what : option string).

Record OperatorApi (S : Type) := mkOperatorApi {
  api_status : option (S -> Called * S);
  api_reconcile : option (S -> Called * S);
  api_replay_intent_log : option (S -> Called * S);
  api_safe_start_check : option (S -> Called * S);
  api_send_test_alert : option (S -> Called * S);
  api_verify_ip : option (S -> Called * S);
  api_kill : option (S -> Called * S);
}.
Arguments mkOperatorApi {S}.
Arguments api_status {S}.
Arguments api_reconcile {S}.
Arguments api_replay_intent_log {S}.
Arguments api_safe_start_check {S}.
Arguments api_send_test_alert {S}.
Arguments api_verify_ip {S}.
Arguments api_kill {S}.

Section Cli.
  Context {S : Type}.

Definition not_wired_error (v : Verb) : Error :=
  set_action BlockStrategy (make_error Internal ("cli: verb '" +:+ verb_to_string v +:+ "' is not wired") "").

Definition invoke (v : Verb) (callback : option (S -> Called * S)) (s : S) : Called * S :=
  match callback with None => (Returned (Err (not_wired_error v)), s) | Some f => f s end.

Definition dispatch (v : Verb) (api : OperatorApi S) : S -> Called * S :=
  match v with
  | VStatus => invoke v (api_status api)
  | VReconcile => invoke v (api_reconcile api)
  | VReplayIntentLog => invoke v (api_replay_intent_log api)
  | VSafeStartCheck => invoke v (api_safe_start_check api)
  | VSendTestAlert => invoke v (api_send_test_alert api)
  | VVerifyIp => invoke v (api_verify_ip api)
  | VKill => invoke v (api_kill api)
  end.

(** What parsing the arguments leaves: CLI11's exit code, or the verb a subcommand's
    callback recorded. *)
Inductive ParsedVerb := ParseExit (code : Z) | Chosen (v : option Verb).

Definition run_cli (p : ParsedVerb) (api : OperatorApi S) (s : S) : (Z * list Printed) * S :=
  match p with
  | ParseExit code => ((code, []), s)
  | Chosen None => ((1, [Stderr "cli: no verb selected"]), s)
  | Chosen (Some v) =>
      match dispatch v api s with
      | (Threw (Some what), s) => ((1, [Stderr (scrub ("cli: " +:+ what))]), s)
      | (Threw None, s) => ((1, [Stderr "cli: dispatch failed (unknown exception)"]), s)
      | (Returned (Err e), s) => ((1, [Stderr (scrub (message e))]), s)
      | (Returned (Ok line), s) => ((0, [Stdout (scrub line)]), s)
      end
  end.
End Cli.

(** ** The boot, seen from its exit *)

Section Exit.
  Context {W : Type}.

(** A boot is ok exactly when the preparation went through and its run phase
    returned; otherwise it does not exit clean. *)
Lemma boot_ok_exact (d : BootDeps W) s f : run_phase d = Some f ->
  (boot_ok (boot d s).1 = true <-> exists o s', prepared d s o s' /\ (f (world s')).1 = Ok tt) /\
  (boot_ok (boot d s).1 = true -> exit_class (boot d s).1 = ClassClean) /\
  (boot_ok (boot d s).1 = false -> exit_class (boot d s).1 <> ClassClean).
Proof.
  intros Hf. pose proof (boot_cases d s) as H. pose proof (prepared_exact d s) as P. unfold boot, then_block in *.
  destruct (preparation d initial_outcome (first_sample d s)) as [[o s']|[o s']].
  - destruct H as (_ & st & c & [Hk _ Hc _ _ _] & Hm). simpl. rewrite Hk, Hc. split_and!; [|done|].
    + split; [done|]. intros (o1 & s1 & Hp%P & _). done.
    + intros _ ->. by destruct Hm as [|[? _]].
  - clear H. assert (prepared d s o s') as Hp by by apply P.
    unfold enter_run_phase, returns, continues, in_world. rewrite Hf.
    destruct (f (world s')) as [[[]|e] w'] eqn:Hr; simpl.
    + split_and!; try done. split; [intros _|done]. exists o, s'. by rewrite Hr.
    + set (o0 := with_flags _ _ _ _). set (s0 := set_world w' s').
      destruct (fail_step d StepRun (exit_class_for e) e o0 s0) as [o1 s1] eqn:F.
      destruct (fail_step_well d _ _ _ _ _ _ _ F) as [Hk _ Hc _ _ _]. simpl. rewrite Hk, Hc. split_and!; [|done|].
      * split; [done|]. intros (o2 & s2 & Hp2%P & Hok). simplify_eq. rewrite Hr in Hok. done.
      * intros _. unfold exit_class_for. by destruct (category e), (action e).
Qed.

Lemma report_code (out : BootOutcome W) o : (report out o).1 = exit_code_for (exit_class out).
Proof. unfold report. by destruct (boot_ok out). Qed.

Lemma error_never_clean e where_ : (report_error e where_).1 <> 0 /\ (report_error e where_).1 ∈ [1; 70].
Proof.
  unfold report_error, exit_class_for. simpl.
  split; [|apply (bool_decide_unpack _)]; by destruct (category e), (action e).
Qed.
End Exit.

(** ** What the process's exit says *)

Section Process.
  Context {W : Type} (parts : Parts (W := W)).

(** The account's directories, resolved as the preflight resolves them. *)
Definition resolved (o : Options) (w : W) (cfg : Config) (dir : AccountDataDir) : Prop :=
  load ((part_files parts).1 w) ((part_files parts).2 w) (opt_config_path o) (part_env parts) = Ok cfg /\
  require_config_consistent cfg (boot_args o) = Ok tt /\
  exists root, resolve_data_root cfg (boot_args o) = Ok root /\
    create root (if String.eqb (opt_account o) "" then cfg_account_id (Config.engine cfg) else opt_account o) = Ok dir.

Definition boot_start (w : W) : BootState W := mkBootState w (new_detector (part_detector parts)) empty_audit.

Lemma resolved_fun o w cfg1 dir1 cfg2 dir2 :
  resolved o w cfg1 dir1 -> resolved o w cfg2 dir2 -> cfg1 = cfg2 /\ dir1 = dir2.
Proof. intros (H1 & _ & r1 & H2 & H3) (H4 & _ & r2 & H5 & H6).
  rewrite H1 in H4. injection H4 as <-. rewrite H2 in H5. injection H5 as <-. split; congruence. Qed.

(** The preflight either stops with an error line and an exit that is not clean, the
    world as it was, or has resolved the account. *)
Lemma preflight_cases o w :
  (exists e where_, run_boot parts o w = (report_error e where_, w) /\ forall cfg dir, ~ resolved o w cfg dir) \/
  exists cfg dir, resolved o w cfg dir /\
    run_boot parts o w =
      match ensure (part_make_dir parts) (part_restrict_dir parts) dir w with
      | (Err e, w) => (report_error e "account directory creation", w)
      | (Ok _, w) =>
          match part_open_store parts (account_file dir StoreDb) w with
          | (Err e, w) => (report_error e "store open", w)
          | (Ok needs_rebuild, w) =>
              let '(outcome, s) := boot (wired parts o cfg dir needs_rebuild) (boot_start w) in
              (report outcome o, world s)
          end
      end.
Proof.
  unfold run_boot, resolved. cbv zeta.
  change (args_account_id (boot_args o)) with (opt_account o). change (BootChecks.config_path (boot_args o)) with (opt_config_path o).
  destruct (load _ _ _ _) as [cfg|e].
  2:{ left. eexists _, _. split; [done|]. by intros ?? (? & _). }
  destruct (require_config_consistent cfg _) as [[]|e] eqn:Hc.
  2:{ left. eexists _, _. split; [done|]. intros ?? (H1 & H2 & _). congruence. }
  destruct (resolve_data_root cfg _) as [root|e] eqn:Hr.
  2:{ left. eexists _, _. split; [done|]. intros ?? (? & ? & ? & ? & _). congruence. }
  destruct (create root _) as [dir|e] eqn:Hd.
  2:{ left. eexists _, _. split; [done|]. intros ?? ([= <-] & ? & root' & Hr' & ?). assert (root' = root) as -> by congruence. congruence. }
  right. exists cfg, dir. split; [|done]. split_and!; [done..|]. by exists root.
Qed.

(** A verb's run: when its code is 0, and what it prints and leaves. *)
Lemma run_boot_zero_exact o w :
  ((run_boot parts o w).1.1 = 0 <->
     boot_check o = true /\ exists cfg dir w1 needs_rebuild w2 out s,
       resolved o w cfg dir /\
       ensure (part_make_dir parts) (part_restrict_dir parts) dir w = (Ok tt, w1) /\
       part_open_store parts (account_file dir StoreDb) w1 = (Ok needs_rebuild, w2) /\
       prepared (wired parts o cfg dir needs_rebuild) (boot_start w2) out s) /\
  ((run_boot parts o w).1.1 = 0 <-> exists line, (run_boot parts o w).1.2 = Stdout line) /\
  (run_boot parts o w).1.1 ∈ [0; 1; 70] /\
  ((forall cfg dir, ~ resolved o w cfg dir) -> (run_boot parts o w).2 = w).
Proof.
  destruct (preflight_cases o w) as [(e & where_ & -> & Hno)|(cfg & dir & Hres & ->)].
  { destruct (error_never_clean e where_) as [Hne Hin]. cbn [fst snd]. split_and!; [| |(by constructor)|done].
    - split; [done|]. intros (_ & cfg & dir & ? & ? & ? & ? & ? & Hr & _). by destruct (Hno cfg dir).
    - split; [done|]. intros [line Hl]. done. }
  assert (forall cfg' dir', resolved o w cfg' dir' -> cfg' = cfg /\ dir' = dir) as Huniq
    by (intros ???; by eapply resolved_fun).
  destruct (ensure _ _ dir w) as [[[]|e] w1] eqn:He.
  2:{ destruct (error_never_clean e "account directory creation") as [Hne Hin]. cbn [fst snd].
      split_and!; [| |(by constructor)|intros H; by destruct (H cfg dir)].
      - split; [done|]. intros (_ & cfg' & dir' & ? & ? & ? & ? & ? & Hr & He' & _). apply Huniq in Hr as [-> ->]. congruence.
      - split; [done|]. intros [line Hl]. done. }
  destruct (part_open_store parts _ w1) as [[needs|e] w2] eqn:Ho.
  2:{ destruct (error_never_clean e "store open") as [Hne Hin]. cbn [fst snd].
      split_and!; [| |(by constructor)|intros H; by destruct (H cfg dir)].
      - split; [done|]. intros (_ & cfg' & dir' & ? & ? & ? & ? & ? & Hr & He' & Ho' & _).
        apply Huniq in Hr as [-> ->]. congruence.
      - split; [done|]. intros [line Hl]. done. }
  destruct (boot_ok_exact (wired parts o cfg dir needs) (boot_start w2)
    (if boot_check o then fun w => (Ok tt, w) else unimplemented_run_phase) eq_refl) as (Hok & Hclean & Hdirty).
  destruct (boot (wired parts o cfg dir needs) (boot_start w2)) as [out s'] eqn:Hb. cbn [fst snd] in *.
  rewrite report_code. split_and!; [| | |intros H; by destruct (H cfg dir)].
  - split.
    + intros H0. assert (boot_ok out = true) as Hk.
      { destruct (boot_ok out) eqn:Hk; [done|]. destruct (exit_class out); [by destruct Hdirty|done..]. }
      apply Hok in Hk as (out1 & s1 & Hp & Hr). destruct (boot_check o); [|done]. split; [done|].
      exists cfg, dir, w1, needs, w2, out1, s1. by split_and!.
    + intros (Hbc & cfg' & dir' & w1' & n' & w2' & out1 & s1 & Hr & He' & Ho' & Hp).
      apply Huniq in Hr as [-> ->]. rewrite He in He'. simplify_eq. rewrite Ho in Ho'. simplify_eq.
      assert (boot_ok out = true) as Hk by (apply Hok; exists out1, s1; by rewrite Hbc).
      by rewrite (Hclean Hk).
  - unfold report. destruct (boot_ok out); cbn [fst snd].
    + rewrite Hclean by done. split; [by eexists|done].
    + split; [|by intros []]. intros H0. destruct (exit_class out); [by destruct Hdirty|done..].
  - destruct (exit_class out); apply (bool_decide_unpack _); by vm_compute.
Qed.

(** A boot-check whose every stage went through, each on the world the stage
    before left: the configuration loaded and consistent with the arguments, the
    account's directories created, the store opened, the whole boot preparation. *)
Definition boot_check_completed (o : Options) (w : W) : Prop :=
  boot_check o = true /\ exists cfg dir w1 needs_rebuild w2 out s,
    resolved o w cfg dir /\
    ensure (part_make_dir parts) (part_restrict_dir parts) dir w = (Ok tt, w1) /\
    part_open_store parts (account_file dir StoreDb) w1 = (Ok needs_rebuild, w2) /\
    prepared (wired parts o cfg dir needs_rebuild) (boot_start w2) out s.

Lemma run_boot_line o w :
  ((run_boot parts o w).1.1 = 0 /\ exists line, (run_boot parts o w).1.2 = Stdout line) \/
  ((run_boot parts o w).1.1 <> 0 /\ exists line, (run_boot parts o w).1.2 = Stderr line).
Proof.
  destruct (run_boot_zero_exact o w) as (_ & Hl & _). destruct (run_boot parts o w) as [[code [line|line]] w']; cbn [fst snd] in *.
  - left. split; [apply Hl|]; by exists line.
  - right. split; [intros H0; apply Hl in H0 as [? ?]; done|by exists line].
Qed.

(** C8: When the process exits 0, and what its exit codes are, over the whole of
    [main]: arguments CLI11 refused or answered itself, a verb, or an exception that
    reaches the boundary. It exits 0 in exactly two cases, both without such an
    exception: CLI11 answered [--help] with its code 0, or [boot-check] was asked
    for and every stage of it went through. The [run] verb therefore never exits 0:
    its phase is the refusing stub. The code is always 0, 1 or 70, the codes the
    supervisor's policy knows. For a verb, an exit 0 prints its completion line on
    standard output and every other code one line on standard error; an exception
    is 1, on standard error; for arguments CLI11 refused [main] prints nothing of
    its own and exits 70. A verb that stops before the account is resolved leaves
    the world as it found it. *)
Theorem exit_zero_exact i thrown w :
  let '((code, printed), w') := main parts i thrown w in
  (code = 0 <-> thrown = None /\ (i = ArgsRefused 0 \/ exists o, i = Verbs o /\ boot_check_completed o w)) /\
  code ∈ [0; 1; 70] /\
  match thrown, i with
  | Some (_, wt), _ => code = 1 /\ w' = wt /\ exists line, printed = [Stderr line]
  | None, ArgsRefused cli_code => printed = [] /\ w' = w /\ (cli_code <> 0 -> code = 70)
  | None, Verbs o =>
      ((code = 0 /\ exists line, printed = [Stdout line]) \/ (code <> 0 /\ exists line, printed = [Stderr line])) /\
      ((forall cfg dir, ~ resolved o w cfg dir) -> w' = w)
  end.
Proof.
  unfold main. destruct thrown as [[[what|] wt]|].
  1, 2: split_and!; [split; [done|by intros [? _]]|apply (bool_decide_unpack _); by vm_compute|done|done|by eexists].
  destruct i as [cli_code|o].
  - destruct (Z.eqb_spec cli_code 0) as [->|Hc]; cbn.
    + split_and!; [split; auto|apply (bool_decide_unpack _); by vm_compute|done..].
    + split_and!; [|apply (bool_decide_unpack _); by vm_compute|done..].
      split; [done|]. intros [_ [[= ?]|(? & ? & _)]]; done.
  - destruct (run_boot_zero_exact o w) as (Hz & _ & Hin & Hw). pose proof (run_boot_line o w) as Hl.
    destruct (run_boot parts o w) as [[code line] w']. cbn [fst snd] in *.
    split_and!; [|done| |done].
    + rewrite Hz. split; [intros H; split; [done|]; right; by exists o|]. by intros [_ [?|(? & [= <-] & ?)]].
    + destruct Hl as [[? [l ->]]|[? [l ->]]]; [left|right]; (split; [done|by exists l]).
Qed.

(** The account directory cannot be created: the preflight exits 70, never to be
    restarted, where [boot]'s own step on the same world ends as a crash, which the
    supervisor retries. *)
Theorem directory_failure_not_retried o w cfg dir e w1 needs_rebuild :
  resolved o w cfg dir -> ensure (part_make_dir parts) (part_restrict_dir parts) dir w = (Err e, w1) ->
  (run_boot parts o w).1.1 = 70 /\
  exists out s, resolve_data_dir (wired parts o cfg dir needs_rebuild) (with_config cfg initial_outcome) (boot_start w)
                = inl (out, s) /\
    boot_step out = ResolveDataDir /\ exit_code_for (exit_class out) = 1.
Proof.
  intros Hres He. destruct (preflight_cases o w) as [(? & ? & _ & Hno)|(cfg' & dir' & Hres' & ->)]; [by destruct (Hno cfg dir)|].
  destruct (resolved_fun _ _ _ _ _ _ Hres Hres') as [<- <-]. rewrite He. split.
  - assert (category e = Internal /\ action e = RaiseAlert) as [Hc Ha].
    { unfold ensure in He. destruct (part_make_dir parts _ w) as [[] w']; simpl in He; [|by simplify_eq].
      destruct (part_restrict_dir parts _ w') as [[] w'']; by simplify_eq/=. }
    simpl. unfold exit_class_for. by rewrite Hc, Ha.
  - destruct Hres as (_ & Hc & root & Hr & Hd). unfold resolve_data_dir. cbn [out_config with_config args wired].
    rewrite Hc, Hr. cbn [args_account_id boot_args]. rewrite Hd. unfold in_world.
    cbn [make_dir restrict_dir wired world boot_start]. rewrite He. by repeat esplit.
Qed.
End Process.

(** ** The command line *)

Section Cli_lemmas.
  Context {S : Type}.

Definition callback_of (v : Verb) (api : OperatorApi S) : option (S -> Called * S) :=
  match v with
  | VStatus => api_status api
  | VReconcile => api_reconcile api
  | VReplayIntentLog => api_replay_intent_log api
  | VSafeStartCheck => api_safe_start_check api
  | VSendTestAlert => api_send_test_alert api
  | VVerifyIp => api_verify_ip api
  | VKill => api_kill api
  end.

(** Six verbs cannot touch the system when their callbacks do not: only [kill] may. *)
Lemma read_only_verbs (p : ParsedVerb) (api : OperatorApi S) s :
  (forall v f s, is_mutating v = false -> callback_of v api = Some f -> (f s).2 = s) ->
  (run_cli p api s).2 <> s -> p = Chosen (Some VKill) /\ is_Some (api_kill api).
Proof.
  intros Hro Hch. destruct p as [code|[v|]]; [done| |done].
  assert ((dispatch v api s).2 = (run_cli (Chosen (Some v)) api s).2) as Hd.
  { simpl. by destruct (dispatch v api s) as [[[]|[]] s']. }
  rewrite <- Hd in Hch. clear Hd.
  assert (dispatch v api s = invoke v (callback_of v api) s) as Hv by by destruct v.
  rewrite Hv in Hch. unfold invoke in Hch. destruct (callback_of v api) as [f|] eqn:Hf; [|done].
  destruct (is_mutating v) eqn:Hk; [apply bool_decide_eq_true in Hk as ->; by split; [done|eexists]|].
  destruct Hch. by apply (Hro v).
Qed.

(** The command exits 0 exactly when the parser did, or a wired callback answered a
    line; then it prints that line scrubbed, on standard output. *)
Lemma cli_success_exact (v : Verb) (api : OperatorApi S) s :
  (run_cli (Chosen (Some v)) api s).1.1 = 0 <->
    exists f line, callback_of v api = Some f /\ (f s).1 = Returned (Ok line) /\
      (run_cli (Chosen (Some v)) api s).1.2 = [Stdout (scrub line)].
Proof.
  assert (dispatch v api s = invoke v (callback_of v api) s) as Hv by by destruct v.
  simpl. rewrite Hv. unfold invoke. destruct (callback_of v api) as [f|].
  - destruct (f s) as [[[line|e]|[what|]] s'] eqn:Hf; simpl; split; try done;
      try (intros (? & ? & [= <-] & Hr & _); rewrite Hf in Hr; done).
    intros _. exists f, line. by rewrite Hf.
  - split; [done|]. by intros (? & ? & ? & _).
Qed.
End Cli_lemmas.
